(* ===== verification/_CoqProject ===== *)
-Q . S2P
Prelude.v
Bytes.v
Time.v
Timer.v
Double.v
JsonGrammar.v
NumberText.v
CJson.v
CJsonTree.v
CJsonTreeSpec.v
CJsonPrint.v
CJsonPrintSpec.v
BoundedOutput.v
ScannerSpec.v
CJsonSpec.v
CJsonRoundTrip.v
CJsonSafety.v
IperfTest.v
ControlChannel.v
ControlChannelSpec.v
Params.v
ParamsSpec.v
Message.v
ParamsTrip.v
Udp.v
UdpSpec.v
ScannerRoot.v
BoundedReader.v
BoundedSocket.v
BoundedLog.v
OutputBudget.v
OutputBudgetSpec.v
OutputBudgetJson.v
Results.v
ResultsSpec.v
ResultsTrip.v
Streams.v
StreamsSpec.v
Connect.v
ConnectSpec.v
Measure.v
MeasureSpec.v
StatsSpec.v
DiskFile.v
Auth.v
AuthSpec.v
Session.v
Server.v
Client.v
SessionSpec.v
SetupSpec.v
ServerSpec.v
Steady.v
ServerWaits.v
ClientSpec.v
