(* ===== verification/Prelude.v ===== *)
(** * A verification development of the iperf-swift measurement engine

    The repository embeds the C engine of iperf3 ([src/Sources/IperfCLib]) in a
    Swift package.  A test has two ends, a client and a server.  They talk over
    one control connection: a byte for every state of the test, the parameters
    and the results as JSON with a length before it, error numbers.  Streams
    carry the data, each with a worker thread; a main thread waits in [select],
    handles messages and fires timers.  What a peer sends is bounded by modules
    of this repository's own: a streaming reader of results, adapters of the
    socket with a deadline, a budget for the output, a log of limited size.
    This development models the C code as it is compiled for Apple platforms.

    ** The parts

    Foundations, without code of their own: this file (integers of C, the state
    monad with undefined behaviour and fuel, weakest preconditions, updates of
    records, tactics), [Bytes.v] (buffers that refuse a store outside),
    [Double.v] (binary64 and [strtod]), [NumberText.v] ([%d], [%g]),
    [JsonGrammar.v] (JSON as relations), [Message.v] (objects made of fields).

    - [Time.v], [Timer.v]: [iperf_time.c], [timer.c].  The list of timers over a
      heap of nodes, refined to a sorted list.
    - [CJson.v], [CJsonTree.v], [CJsonPrint.v]: [cjson.c] and the helpers of
      [iperf_util.c], with their properties in [CJsonSpec.v], [CJsonSafety.v],
      [CJsonTreeSpec.v], [CJsonPrintSpec.v] and [CJsonRoundTrip.v].
    - [BoundedOutput.v], [BoundedReader.v], [ScannerSpec.v], [ScannerRoot.v]:
      [iperf_bounded_output.c], the reader of a peer's results.
    - [BoundedSocket.v]: [iperf_bounded_socket.c].  [BoundedLog.v]:
      [iperf_bounded_log.c].  [OutputBudget.v], [OutputBudgetSpec.v],
      [OutputBudgetJson.v]: [iperf_output_budget.c].
    - [IperfTest.v]: [struct iperf_test] and its parts ([iperf.h]), how a test is
      set up and reset ([iperf_api.c]).
    - [ControlChannel.v], [ControlChannelSpec.v]: [Nread] and [Nwrite] ([net.c]),
      [JSON_read] and [JSON_write] ([iperf_api.c]).
    - [Params.v], [ParamsSpec.v], [ParamsTrip.v]: [send_parameters] and
      [get_parameters].  [Results.v], [ResultsSpec.v], [ResultsTrip.v]:
      [iperf_exchange_results].  [Auth.v], [AuthSpec.v]: [iperf_auth.c] and
      [test_is_authorized].
    - [Connect.v], [ConnectSpec.v]: dialing, announcing, accepting and
      connecting ([net.c], [iperf_tcp.c], [iperf_udp.c], [custom.c]).
    - [Streams.v], [StreamsSpec.v]: streams and their resources ([iperf_api.c],
      [iperf_client_api.c], [iperf_server_api.c]).
    - [Udp.v], [UdpSpec.v]: the datagrams ([iperf_udp.c]).  [Measure.v],
      [MeasureSpec.v], [StatsSpec.v]: sending, receiving, pacing and statistics
      ([iperf_api.c], [iperf_tcp.c], [tcp_info.c]).  [DiskFile.v]: the option [-F].
    - [Session.v]: the messages of the control connection on both ends and the
      timers of a test.  [Server.v]: [iperf_run_server] and [cleanup_server]
      ([iperf_server_api.c]).  [Client.v]: [iperf_connect] and
      [iperf_run_client] ([iperf_client_api.c]).  [SessionSpec.v], [SetupSpec.v],
      [ServerSpec.v], [Steady.v], [ServerWaits.v] and [ClientSpec.v]: what the two
      ends do together, and what a run of the server and of the client leaves.

    The state grows with the parts: an [exchange] is a test with what the
    parameter exchange adds, an [incoming] one with the results, a [side] one
    with its connection and budget, a [process] what the operating system holds
    for it, a [peer] all of this with timers, callbacks and threads; a run of a
    client or server works on the list of timers around a [peer].  Each layer
    runs the steps of the one below ([on_channel], [on_side], [on_process],
    [on_peer]), so that every function calls the model of the function the code
    calls.  The settings and counters are fields of one record [iperf_test].

    ** Conventions

    An integer is a [Z] in the range of its C type; wrap-around and conversion
    are written out.  A C function is a function from a state to an [outcome]:
    a value and a state, [UB] for undefined behaviour, or [OutOfFuel].  [wp m Q s]
    says that [m] returns, and so excludes both.  What the operating system,
    the allocator, OpenSSL and other programs answer is an argument: a function
    of the number of calls before it, or a class of answers.  Where a theorem
    relies on such answers (a connection that keeps delivering, allocations that
    succeed, decryption that undoes encryption) this is a named hypothesis, and
    its witness has an instance.  Names are those of the source; a field whose
    name is used twice has a prefix ([stream_done], [test_bytes_sent]).

    Worker threads and the embedding program act on the test while the main
    thread waits in [select]: [m_work] is any function on the test.  Where
    they count the same stream, the interleaving of their atomic accesses is
    explicit ([StatsSpec.v]).

    ** Bounds and fuel

    Loops that end by the size of their data have the fuel from the data (the
    length of a text and one, the number of bytes to come and one); their
    theorems show that it is enough.  The cJSON nesting limit of 1000 bounds the
    parser's and printer's recursion.  [tmr_run] fires no more timers than are
    due ([total_firings]).  [iperf_run_server] and [iperf_run_client] carry
    fuel for their rounds, since a run has no bound of its own; the theorem on an
    idle server gives the rounds that are enough, the one on the cleanup shows
    that it returns.  [MAX_INTERVAL] is 60, limits and buffers are those of the
    headers.

    ** What the theorems show

    - Memory: neither the reader nor cJSON's parser and printer leave a buffer on
      any input; the timers' lists hold for every sequence of calls.  Two
      places where this fails are proved as such.
    - Messages: what one end prints the other parses to the same document; the
      parameters of the client are the server's after the exchange, its counters
      are the peer's after the exchange of results; a stream cut anywhere, an
      oversized length or an unknown member has the stated effect and no other.
    - Limits: output, log, frame and waiting are bounded; what is kept is exactly
      the longest part that fits, and the peer is told.
    - Measurement: loss and order of datagrams are exact; in every interleaving of
      the atomic accesses the intervals account for what is counted, but for what
      a reset overtakes; pacing sleeps for exactly the time a stream is ahead;
      the limit of the total rate averages the last intervals.
    - Resources: whatever call fails, a stream or connection that is not made
      leaves what the process holds as it was; a stream that is freed gives back
      all but the pages of an offload buffer beyond a block; the cleanup of a
      server gives back every descriptor, thread and timer of the test and no
      other.
    - Runs: a test is set up with the same cookie and parameters on both ends,
      and ends on both with the results exchanged; an error of the server
      reaches the client; a run of the server releases everything on every
      path, never waits longer than a second, and returns when nobody calls; a
      client that ends with an error has stopped its threads and closed what it
      held.

    ** Not modelled

    The text printed for people and the JSON report (the [iperf_print_...]
    functions, [iperf_json_start], [iperf_json_finish], [iperf_got_...] debug
    output, [iperf_locale.c], [iperf_error.c], [units.c]): they write what the
    counters say and change no state of the test.  The command line
    ([iperf_parse_arguments], [dscp.c]) is not used by the package, which sets
    the fields itself.  SCTP ([iperf_sctp.c]), TCP_CONGESTION, TCP_USER_TIMEOUT,
    keep-alive, flow labels, MPTCP, processor affinity, [SO_MAX_PACING_RATE],
    [tcp_window_size.c]: not compiled for this platform or not called.
    [iperf_new_test], [iperf_free_test] and the getters and setters beyond the
    ones used: allocation and assignment.  The Swift code, tests, scripts and
    documents: not of this language.  Scheduling inside a worker between two
    atomic operations, and the contents of packets beyond the headers, have no
    counterpart either. *)

From Stdlib Require Export ZArith Lia List.
From stdpp Require Export base tactics list numbers gmap.

#[global] Open Scope Z_scope.

(** ** Machine integers

    The C code computes on fixed-width integers.  A value of a w-bit type is a
    [Z]; the wrap-around of the unsigned types is written with [u8], [u32] and
    [u64], the two's complement conversion with [s32] and [s64]. *)

Definition wrapu (w x : Z) : Z := x mod 2 ^ w.
Definition wraps (w x : Z) : Z := (x + 2 ^ (w - 1)) mod 2 ^ w - 2 ^ (w - 1).

Abbreviation u8 := (wrapu 8).
Abbreviation u32 := (wrapu 32).
Abbreviation u64 := (wrapu 64).
Abbreviation s8 := (wraps 8).
Abbreviation s32 := (wraps 32).
Abbreviation s64 := (wraps 64).

Lemma wrapu_range w x : 0 <= w -> 0 <= wrapu w x < 2 ^ w.
Proof. intros Hw. apply Z.mod_pos_bound. lia. Qed.

Lemma wrapu_small w x : 0 <= x < 2 ^ w -> wrapu w x = x.
Proof. apply Z.mod_small. Qed.

Lemma wraps_range w x : 0 < w -> - 2 ^ (w - 1) <= wraps w x < 2 ^ (w - 1).
Proof.
  intros Hw. unfold wraps. pose proof (Z.mod_pos_bound (x + 2 ^ (w - 1)) (2 ^ w) ltac:(lia)).
  assert (2 ^ w = 2 * 2 ^ (w - 1)) by (rewrite <- Z.pow_succ_r by lia; f_equal; lia). lia.
Qed.

Lemma wraps_small w x :
  0 < w -> - 2 ^ (w - 1) <= x < 2 ^ (w - 1) -> wraps w x = x.
Proof.
  intros Hw Hx. unfold wraps. rewrite Z.mod_small; [lia|].
  assert (2 ^ w = 2 * 2 ^ (w - 1)) as -> by (rewrite <- Z.pow_succ_r by lia; f_equal; lia).
  lia.
Qed.

(** ** Tactics *)

(** Case analysis on the boolean comparisons of integers that guard the code. *)
Ltac case_Z :=
  match goal with
  | |- context [Z.ltb ?a ?b] => destruct (Z.ltb_spec a b)
  | |- context [Z.leb ?a ?b] => destruct (Z.leb_spec a b)
  | |- context [Z.eqb ?a ?b] => destruct (Z.eqb_spec a b)
  | H : context [Z.ltb ?a ?b] |- _ => destruct (Z.ltb_spec a b)
  | H : context [Z.leb ?a ?b] |- _ => destruct (Z.leb_spec a b)
  | H : context [Z.eqb ?a ?b] |- _ => destruct (Z.eqb_spec a b)
  end.

Ltac cases_Z := repeat (case_Z; simpl; try lia).

(** ** A state monad with undefined behaviour and fuel

    Stateful C code is a function from a state to an [outcome]: a value with
    the state after it, undefined behaviour (a null, dangling or out-of-bounds
    access), or an exhausted bound on the iterations of a loop.  Theorems about
    total behaviour exclude the last two. *)

Inductive outcome (A : Type) : Type :=
| Ret (a : A)
| UB
| OutOfFuel.
Arguments Ret {A} a.
Arguments UB {A}.
Arguments OutOfFuel {A}.

Definition CM (S A : Type) : Type := S -> outcome (A * S).

Section CMonad.
Context {S : Type}.

Definition ret {A} (a : A) : CM S A := fun s => Ret (a, s).
Definition bind {A B} (m : CM S A) (k : A -> CM S B) : CM S B :=
  fun s => match m s with
           | Ret (a, s') => k a s'
           | UB => UB
           | OutOfFuel => OutOfFuel
           end.
Definition get : CM S S := fun s => Ret (s, s).
Definition gets {A} (f : S -> A) : CM S A := fun s => Ret (f s, s).
Definition modify (f : S -> S) : CM S unit := fun s => Ret (tt, f s).
Definition undefined {A} : CM S A := fun _ => UB.
Definition out_of_fuel {A} : CM S A := fun _ => OutOfFuel.

(** Total correctness: the computation returns and its result satisfies [Q]. *)
Definition wp {A} (m : CM S A) (Q : A -> S -> Prop) (s : S) : Prop :=
  match m s with Ret (a, s') => Q a s' | _ => False end.

Lemma wp_ret {A} (a : A) Q s : Q a s -> wp (ret a) Q s.
Proof. done. Qed.

Lemma wp_bind {A B} (m : CM S A) (k : A -> CM S B) Q s :
  wp m (fun a s' => wp (k a) Q s') s -> wp (bind m k) Q s.
Proof. unfold wp, bind. destruct (m s) as [[a s']| |]; done. Qed.

Lemma wp_bind_inv {A B} (m : CM S A) (k : A -> CM S B) Q s :
  wp (bind m k) Q s -> wp m (fun a s' => wp (k a) Q s') s.
Proof. unfold wp, bind. destruct (m s) as [[a s']| |]; done. Qed.

Lemma wp_mono {A} (m : CM S A) (P Q : A -> S -> Prop) s :
  wp m P s -> (forall a s', P a s' -> Q a s') -> wp m Q s.
Proof. unfold wp. destruct (m s) as [[a s']| |]; auto. Qed.

Lemma wp_gets {A} (f : S -> A) Q s : Q (f s) s -> wp (gets f) Q s.
Proof. done. Qed.

Lemma wp_get (Q : S -> S -> Prop) s : Q s s -> wp get Q s.
Proof. done. Qed.

Lemma wp_modify (f : S -> S) Q s : Q tt (f s) -> wp (modify f) Q s.
Proof. done. Qed.

Lemma wp_returns {A} (m : CM S A) Q s :
  wp m Q s -> exists a s', m s = Ret (a, s') /\ Q a s'.
Proof. unfold wp. destruct (m s) as [[a s']| |]; try done. eauto. Qed.

Lemma returns_wp {A} (m : CM S A) (Q : A -> S -> Prop) s a s' :
  m s = Ret (a, s') -> Q a s' -> wp m Q s.
Proof. unfold wp. by intros ->. Qed.
End CMonad.

Declare Scope c_scope.
Delimit Scope c_scope with c.
Notation "x <- m ;; k" := (bind m (fun x => k))
  (at level 100, m at next level, right associativity) : c_scope.
Notation "m ;;; k" := (bind m (fun _ => k))
  (at level 100, right associativity) : c_scope.
Notation "'when' b 'do' m" := (if b then m else ret tt)
  (at level 99, m at next level) : c_scope.

(** One step of a computation: the monad's own operations. *)
Ltac wp_step :=
  lazymatch goal with
  | |- wp (bind _ _) _ _ => apply wp_bind
  | |- wp (ret _) _ _ => apply wp_ret
  | |- wp (gets _) _ _ => apply wp_gets
  | |- wp get _ _ => apply wp_get
  | |- wp (modify _) _ _ => apply wp_modify
  end.

(** ** Records

    [r <| f := v |>] is the record [r] with the field [f] changed, for the record
    types whose [Eta] instance lists the fields. *)

Class Eta (R : Type) := eta : R -> R.
Class Update {R T : Type} (field : R -> T) := update : (T -> T) -> R -> R.
Arguments update {R T} field {_} f r.

Ltac solve_update :=
  lazymatch goal with
  | |- @Update ?R ?T ?field =>
      let change := fresh "change" in
      let r := fresh "r" in
      refine (fun change r => _);
      let inst := constr:(ltac:(typeclasses eauto) : Eta R) in
      let fields := eval red in inst in
      let full := eval cbv beta in (fields r) in
      lazymatch eval pattern (field r) in full with
      | ?rebuild _ => let t := eval cbv beta in (rebuild (change (field r))) in exact t
      end
  end.

#[export] Hint Extern 0 (Update _) => solve_update : typeclass_instances.

Notation "r <| f := v |>" := (update f (fun _ => v) r)
  (at level 1, f at level 0, left associativity) : c_scope.

Create HintDb iperf.
