(* ===== verification/Bytes.v ===== *)
(** * Bytes, C strings and buffers

    Bytes are integers between 0 and 255.  A heap buffer is its capacity and
    the prefix of it that has been written; storing a byte outside the capacity
    (or past the written prefix, which the code never does) is refused, so that
    a model that stores through [buf_poke] shows every overrun. *)

From Stdlib Require Import Ascii String.
From S2P Require Import Prelude.

Definition byte_ok (b : Z) : Prop := 0 <= b < 256.

(** The bytes of a string literal. *)
Fixpoint bytes_of (s : string) : list Z :=
  match s with
  | EmptyString => []
  | String c s => Z.of_N (N_of_ascii c) :: bytes_of s
  end.

(** ** Characters *)

Abbreviation c_nul := 0.
Abbreviation c_bs := 8.
Abbreviation c_tab := 9.
Abbreviation c_nl := 10.
Abbreviation c_ff := 12.
Abbreviation c_cr := 13.
Abbreviation c_space := 32.
Abbreviation c_quote := 34.
Abbreviation c_plus := 43.
Abbreviation c_comma := 44.
Abbreviation c_minus := 45.
Abbreviation c_dot := 46.
Abbreviation c_slash := 47.
Abbreviation c_0 := 48.
Abbreviation c_1 := 49.
Abbreviation c_9 := 57.
Abbreviation c_colon := 58.
Abbreviation c_A := 65.
Abbreviation c_E := 69.
Abbreviation c_F := 70.
Abbreviation c_lbrack := 91.
Abbreviation c_bslash := 92.
Abbreviation c_rbrack := 93.
Abbreviation c_a := 97.
Abbreviation c_b := 98.
Abbreviation c_e := 101.
Abbreviation c_f := 102.
Abbreviation c_n := 110.
Abbreviation c_r := 114.
Abbreviation c_t := 116.
Abbreviation c_u := 117.
Abbreviation c_lbrace := 123.
Abbreviation c_rbrace := 125.

(** [tolower] of the C locale. *)
Definition tolower (c : Z) : Z := if (c_A <=? c) && (c <=? 90) then c + 32 else c.

(** The C string at the start of a byte sequence: up to the first NUL. *)
Fixpoint cstr (l : list Z) : list Z :=
  match l with
  | [] => []
  | b :: l => if b =? 0 then [] else b :: cstr l
  end.

(** [strcasecmp] of two C strings is zero. *)
Definition strcaseeq (a b : list Z) : bool :=
  bool_decide (tolower <$> cstr a = tolower <$> cstr b).

Definition streq (a b : list Z) : bool := bool_decide (cstr a = cstr b).

(** ** Buffers *)

Record cbuf := mk_cbuf { cap : Z; data : list Z }.

(** [zlen l] is the length of [l] as an integer. *)
Definition zlen {A} (l : list A) : Z := Z.of_nat (length l).

Definition buf_poke (b : cbuf) (i x : Z) : option cbuf :=
  if (0 <=? i) && (i <? cap b) && (i <=? zlen (data b))
  then Some (mk_cbuf (cap b)
         (if i =? zlen (data b) then data b ++ [x] else <[Z.to_nat i := x]> (data b)))
  else None.

(** [memcpy] of [l] to offset [i]. *)
Fixpoint buf_write (b : cbuf) (i : Z) (l : list Z) : option cbuf :=
  match l with
  | [] => Some b
  | x :: l => match buf_poke b i x with
              | Some b => buf_write b (i + 1) l
              | None => None
              end
  end.

(** ** UTF-8 *)

(** The encoding of a scalar value: the bytes the decoder and the parser both build. *)
Definition utf8_encode (scalar : Z) : list Z :=
  if scalar <=? 127 then [u8 scalar]
  else if scalar <=? 2047 then
    [u8 (Z.lor 192 (Z.shiftr scalar 6)); u8 (Z.lor 128 (Z.land scalar 63))]
  else if scalar <=? 65535 then
    [u8 (Z.lor 224 (Z.shiftr scalar 12)); u8 (Z.lor 128 (Z.land (Z.shiftr scalar 6) 63));
     u8 (Z.lor 128 (Z.land scalar 63))]
  else
    [u8 (Z.lor 240 (Z.shiftr scalar 18)); u8 (Z.lor 128 (Z.land (Z.shiftr scalar 12) 63));
     u8 (Z.lor 128 (Z.land (Z.shiftr scalar 6) 63)); u8 (Z.lor 128 (Z.land scalar 63))].

(** ** Network order *)

(** The value of four bytes in network order. *)
Definition ntohl (bytes : list Z) : Z := fold_left (fun v b => v * 256 + b) bytes 0.
Definition htonl (v : Z) : list Z := [v / 16777216 mod 256; v / 65536 mod 256; v / 256 mod 256; v mod 256].

(** ** Lemmas *)

Lemma zlen_nonneg {A} (l : list A) : 0 <= zlen l.
Proof. unfold zlen. lia. Qed.
#[export] Hint Resolve zlen_nonneg : iperf.

Lemma zlen_nil {A} : zlen (@nil A) = 0.
Proof. done. Qed.

Lemma zlen_cons {A} (x : A) l : zlen (x :: l) = zlen l + 1.
Proof. unfold zlen. simpl. lia. Qed.

Lemma zlen_app {A} (l1 l2 : list A) : zlen (l1 ++ l2) = zlen l1 + zlen l2.
Proof. unfold zlen. rewrite length_app. lia. Qed.

Create Rewrite HintDb zlen.
#[export] Hint Rewrite @zlen_nil @zlen_cons @zlen_app : zlen.

(** Appending at the end of the written prefix succeeds below the capacity. *)
Lemma buf_poke_push b x :
  zlen (data b) < cap b -> buf_poke b (zlen (data b)) x = Some (mk_cbuf (cap b) (data b ++ [x])).
Proof.
  intros H. unfold buf_poke. pose proof (zlen_nonneg (data b)).
  rewrite (proj2 (Z.leb_le _ _)), (proj2 (Z.ltb_lt _ _)), Z.leb_refl, Z.eqb_refl by lia. done.
Qed.

Lemma buf_write_push b l :
  zlen (data b) + zlen l <= cap b ->
  buf_write b (zlen (data b)) l = Some (mk_cbuf (cap b) (data b ++ l)).
Proof.
  revert b. induction l as [|x l IH]; intros b H; simpl.
  - rewrite app_nil_r. by destruct b.
  - rewrite zlen_cons in H. pose proof (zlen_nonneg l). rewrite buf_poke_push by lia.
    specialize (IH (mk_cbuf (cap b) (data b ++ [x]))). simpl in IH.
    rewrite zlen_app, zlen_cons, zlen_nil in IH.
    replace (zlen (data b) + 1) with (zlen (data b) + (0 + 1)) by lia.
    rewrite IH by lia. by rewrite <- app_assoc.
Qed.

Lemma utf8_encode_length scalar : 1 <= zlen (utf8_encode scalar) <= 4.
Proof. unfold utf8_encode. repeat case_match; unfold zlen; simpl; lia. Qed.

Lemma utf8_encode_ok scalar : Forall byte_ok (utf8_encode scalar).
Proof.
  unfold utf8_encode. repeat case_match; repeat constructor;
    unfold byte_ok; apply (wrapu_range 8); lia.
Qed.

(** Appending [n] low bits. *)
Lemma lor_shiftl v n d : 0 <= n -> 0 <= d < 2 ^ n -> Z.lor (Z.shiftl v n) d = v * 2 ^ n + d.
Proof.
  intros Hn Hd. rewrite <- (Z.shiftl_mul_pow2 v n) by lia.
  assert (Z.land (Z.shiftl v n) d = 0) as H0.
  { replace d with (Z.land d (Z.ones n)) by (rewrite Z.land_ones, Z.mod_small; lia).
    rewrite (Z.land_comm d), Z.land_assoc, Z.land_ones, Z.shiftl_mul_pow2, Z.mod_mul by lia.
    by rewrite Z.land_0_l. }
  by rewrite Z.add_nocarry_lxor, Z.lxor_lor.
Qed.

Lemma u8_lor_nonzero a x : Z.testbit a 7 = true -> u8 (Z.lor a x) <> 0.
Proof.
  intros Ha H. assert (Z.testbit (u8 (Z.lor a x)) 7 = true) as E; [|by rewrite H in E].
  unfold wrapu. rewrite <- Z.land_ones, Z.land_spec, Z.lor_spec, Ha by lia. done.
Qed.

Lemma utf8_encode_nonzero v : 0 < v -> Forall (fun b => b <> 0) (utf8_encode v).
Proof.
  intros Hv. unfold utf8_encode. destruct (Z.leb_spec v 127).
  - repeat constructor. rewrite wrapu_small; lia.
  - repeat case_match; repeat constructor; by apply u8_lor_nonzero.
Qed.

Lemma bytes_of_ok s : Forall byte_ok (bytes_of s).
Proof. induction s as [|c s IH]; constructor; [|done]. unfold byte_ok. pose proof (N_ascii_bounded c). lia. Qed.

Lemma cstr_nonzero l : Forall (fun b => b <> 0) l -> cstr l = l.
Proof. induction 1 as [|b l Hb _ IH]; simpl; [done|]. by rewrite (proj2 (Z.eqb_neq b 0) Hb), IH. Qed.

Lemma cstr_nonzero_end l rest : Forall (fun b => b <> 0) l -> cstr (l ++ 0 :: rest) = l.
Proof. induction 1 as [|c l Hc _ IH]; [done|]. cbn. by rewrite (proj2 (Z.eqb_neq _ _) Hc), IH. Qed.

Lemma cstr_encoded vs :
  Forall (fun v => 0 <= v) vs -> Forall (fun v => v <> 0) vs ->
  cstr (concat (utf8_encode <$> vs)) = concat (utf8_encode <$> vs).
Proof.
  intros H1 H2. apply cstr_nonzero. induction H1 as [|v vs Hv _ IH]; simpl; [constructor|].
  inversion_clear H2. apply Forall_app. split; [apply utf8_encode_nonzero; lia|auto].
Qed.

(** Disjoint bits add up. *)
Lemma lor_add k n b : 0 <= n -> 0 <= b < 2 ^ n -> Z.lor (k * 2 ^ n) b = k * 2 ^ n + b.
Proof. intros Hn Hb. rewrite <- lor_shiftl, Z.shiftl_mul_pow2 by lia. done. Qed.

Lemma land_mod x n : 0 <= n -> Z.land x (2 ^ n - 1) = x mod 2 ^ n.
Proof. intros Hn. by rewrite <- Z.land_ones, Z.ones_equiv, Z.sub_1_r by lia. Qed.

(** [utf8_encode] without bit operations. *)
Lemma utf8_encode_arith v : 0 <= v <= 1114111 ->
  utf8_encode v =
  if v <=? 127 then [v]
  else if v <=? 2047 then [192 + v / 64; 128 + v mod 64]
  else if v <=? 65535 then [224 + v / 4096; 128 + (v / 64) mod 64; 128 + v mod 64]
  else [240 + v / 262144; 128 + (v / 4096) mod 64; 128 + (v / 64) mod 64; 128 + v mod 64].
Proof.
  intros Hv. unfold utf8_encode. rewrite !Z.shiftr_div_pow2 by lia.
  rewrite !(land_mod _ 6) by lia. change (2 ^ 6) with 64. change (2 ^ 12) with 4096. change (2 ^ 18) with 262144.
  assert (forall x, u8 (Z.lor 128 (x mod 64)) = 128 + x mod 64) as H128.
  { intros x. pose proof (Z.mod_pos_bound x 64 ltac:(lia)). rewrite (lor_add 2 6) by lia.
    apply wrapu_small. lia. }
  rewrite !H128.
  destruct (Z.leb_spec v 127); [by rewrite wrapu_small by lia|].
  destruct (Z.leb_spec v 2047).
  { assert (0 <= v / 64 < 32) by (split; [apply Z.div_pos|apply Z.div_lt_upper_bound]; lia).
    rewrite (lor_add 6 5), wrapu_small by lia. done. }
  destruct (Z.leb_spec v 65535).
  { assert (0 <= v / 4096 < 16) by (split; [apply Z.div_pos|apply Z.div_lt_upper_bound]; lia).
    rewrite (lor_add 14 4), wrapu_small by lia. done. }
  assert (0 <= v / 262144 < 8) by (split; [apply Z.div_pos|apply Z.div_lt_upper_bound]; lia).
  rewrite (lor_add 30 3), wrapu_small by lia. done.
Qed.

Lemma ntohl_four a b d e : ntohl [a; b; d; e] = ((a * 256 + b) * 256 + d) * 256 + e.
Proof. unfold ntohl. simpl. lia. Qed.

Lemma htonl_ntohl bytes : zlen bytes = 4 -> Forall byte_ok bytes ->
  htonl (ntohl bytes) = bytes /\ 0 <= ntohl bytes < 4294967296.
Proof.
  intros Hl Hb. destruct bytes as [|a [|b [|d [|e [|]]]]]; unfold zlen in Hl; simpl in Hl; try lia.
  rewrite !Forall_cons in Hb.
  destruct Hb as (Ha & Hb & Hd & He & _). unfold byte_ok in *. rewrite ntohl_four. split; [|lia].
  unfold htonl. repeat f_equal; Z.to_euclidean_division_equations; lia.
Qed.

Lemma ntohl_htonl v : 0 <= v < 4294967296 -> ntohl (htonl v) = v.
Proof. intros Hv. unfold htonl. rewrite ntohl_four. Z.to_euclidean_division_equations. lia. Qed.
