(* ===== verification/Time.v ===== *)
(** * Time stamps

    [struct iperf_time] and the functions of [iperf_time.c]: two unsigned
    32-bit fields, seconds and microseconds. *)

From S2P Require Import Prelude.

Record iperf_time := mk_time { secs : Z; usecs : Z }.

#[global] Instance iperf_time_eq_dec : EqDecision iperf_time.
Proof. solve_decision. Defined.

(** [clock_gettime_helper]: [clock_gettime] answered [result] and, when that is
    0, the [timespec] ([tv_sec], [tv_nsec]); the fields are cast to 32 bits, and
    a failed call leaves [now] as it was. *)
Definition clock_gettime_helper (now : iperf_time) (result tv_sec tv_nsec : Z) : Z * iperf_time :=
  if result =? 0
  then (result, mk_time (u32 tv_sec) (u32 tv_nsec / 1000))
  else (result, now).

(** The parameter [usecs] is a [uint64_t]; the sum with the 32-bit field wraps
    at 64 bits, the seconds at 32. *)
Definition iperf_time_add_usecs (time1 : iperf_time) (us : Z) : iperf_time :=
  let total_usecs := u64 (usecs time1 + us) in
  mk_time (u32 (secs time1 + total_usecs / 1000000)) (total_usecs mod 1000000).

Definition iperf_time_in_usecs (time : iperf_time) : Z :=
  secs time * 1000000 + usecs time.

Definition iperf_time_compare (time1 time2 : iperf_time) : Z :=
  if secs time1 <? secs time2 then -1
  else if secs time2 <? secs time1 then 1
  else if usecs time1 <? usecs time2 then -1
  else if usecs time2 <? usecs time1 then 1
  else 0.

(** Returns the difference and the flag [past]. *)
Definition iperf_time_diff (time1 time2 : iperf_time) : iperf_time * Z :=
  let cmp := iperf_time_compare time1 time2 in
  let sub (a b : iperf_time) :=
    let s := u32 (secs a - secs b) in
    let u := usecs a in
    if u <? usecs b
    then mk_time (u32 (s - 1)) (u32 (u32 (u + 1000000) - usecs b))
    else mk_time s (u32 (u - usecs b)) in
  if cmp =? 0 then (mk_time 0 0, 1)
  else if cmp =? 1 then (sub time1 time2, 0)
  else (sub time2 time1, 1).

(** A time stamp is normalised when its fields are in range and the
    microseconds are below one second; every clock reading is. *)
Definition time_ok (t : iperf_time) : Prop :=
  0 <= secs t < 2 ^ 32 /\ 0 <= usecs t < 1000000.

(** The range of the clock, in microseconds. *)
Definition time_range : Z := 2 ^ 32 * 1000000.

Lemma time_ok_usecs t : time_ok t -> 0 <= iperf_time_in_usecs t < time_range.
Proof. unfold time_ok, iperf_time_in_usecs, time_range. lia. Qed.
#[export] Hint Resolve time_ok_usecs : iperf.

(** Every successful reading of a clock is normalised. *)
Lemma clock_reading_ok now tv_sec tv_nsec :
  0 <= tv_nsec < 1000000000 -> time_ok (clock_gettime_helper now 0 tv_sec tv_nsec).2.
Proof.
  intros Hn. unfold clock_gettime_helper, time_ok; simpl.
  split; [apply wrapu_range; lia|]. rewrite wrapu_small by lia.
  split; [apply Z.div_pos|apply Z.div_lt_upper_bound]; lia.
Qed.

Lemma in_usecs_inj t1 t2 :
  time_ok t1 -> time_ok t2 ->
  iperf_time_in_usecs t1 = iperf_time_in_usecs t2 -> t1 = t2.
Proof.
  destruct t1, t2; unfold time_ok, iperf_time_in_usecs; simpl. intros. f_equal; lia.
Qed.

Lemma add_usecs_ok t us : time_ok (iperf_time_add_usecs t us).
Proof.
  unfold iperf_time_add_usecs, time_ok; simpl.
  split; [apply wrapu_range; lia | apply Z.mod_pos_bound; lia].
Qed.
#[export] Hint Resolve add_usecs_ok : iperf.

(** Adding microseconds is addition modulo the clock's range, as long as the
    64-bit intermediate sum does not wrap. *)
Lemma add_usecs_spec t us :
  time_ok t -> 0 <= us < 2 ^ 64 - 1000000 ->
  iperf_time_in_usecs (iperf_time_add_usecs t us)
  = (iperf_time_in_usecs t + us) mod time_range.
Proof.
  intros [Hs Hu] Hus. unfold iperf_time_in_usecs, iperf_time_add_usecs, time_range; simpl.
  rewrite (wrapu_small 64) by lia. unfold wrapu.
  set (T := usecs t + us).
  replace (secs t * 1000000 + usecs t + us) with ((secs t + T / 1000000) * 1000000 + T mod 1000000)
    by (pose proof (Z.div_mod T 1000000); unfold T in *; lia).
  pose proof (Z.mod_pos_bound T 1000000 ltac:(lia)).
  set (S := secs t + T / 1000000).
  rewrite (Z.div_mod S (2 ^ 32)) at 2 by lia.
  apply Z.mod_unique with (q := S / 2 ^ 32); [|lia]. left.
  pose proof (Z.mod_pos_bound S (2 ^ 32) ltac:(lia)). lia.
Qed.

(** Comparison is comparison of the microsecond counts. *)
Lemma compare_spec t1 t2 :
  time_ok t1 -> time_ok t2 ->
  iperf_time_compare t1 t2
  = Z.sgn (iperf_time_in_usecs t1 - iperf_time_in_usecs t2).
Proof.
  unfold time_ok, iperf_time_compare, iperf_time_in_usecs. intros.
  repeat case_Z; lia.
Qed.

Lemma diff_spec t1 t2 :
  time_ok t1 -> time_ok t2 ->
  let '(d, past) := iperf_time_diff t1 t2 in
  time_ok d /\
  iperf_time_in_usecs d = Z.abs (iperf_time_in_usecs t1 - iperf_time_in_usecs t2) /\
  past = (if iperf_time_in_usecs t1 <=? iperf_time_in_usecs t2 then 1 else 0).
Proof.
  intros H1 H2. unfold iperf_time_diff. rewrite compare_spec by done.
  revert H1 H2. unfold time_ok, iperf_time_in_usecs.
  repeat case_Z; simpl; intros; rewrite ?(wrapu_small 32) by (rewrite ?(wrapu_small 32); lia); lia.
Qed.

(** Adding an interval to a time stamp and taking the difference with the
    original gives the interval back, with [past] set exactly for an empty one;
    both results are normalised. *)
Theorem time_add_diff t us :
  time_ok t -> 0 <= us -> iperf_time_in_usecs t + us < time_range ->
  let '(d, past) := iperf_time_diff (iperf_time_add_usecs t us) t in
  time_ok d /\ iperf_time_in_usecs d = us /\ past = (if us =? 0 then 1 else 0).
Proof.
  intros Ht Hus Hr. pose proof (time_ok_usecs _ Ht).
  pose proof (diff_spec _ _ (add_usecs_ok t us) Ht) as Hd.
  rewrite add_usecs_spec, Z.mod_small in Hd by (unfold time_range in *; auto; lia).
  destruct (iperf_time_diff _ _) as [d past]. destruct Hd as (Ok & -> & ->).
  split_and!; [done|lia|]. repeat case_Z; lia.
Qed.

Lemma time_add_diff_witness :
  let '(d, past) := iperf_time_diff (iperf_time_add_usecs (mk_time 10 999999) 2500000) (mk_time 10 999999) in
  time_ok d /\ iperf_time_in_usecs d = 2500000 /\ past = (if 2500000 =? 0 then 1 else 0).
Proof.
  apply (time_add_diff (mk_time 10 999999) 2500000); [split; simpl; lia|lia|].
  unfold iperf_time_in_usecs, time_range; simpl; lia.
Defined.
