(* ===== verification/Timer.v ===== *)
(** * The timer list

    [timer.c]: the active timers are a doubly linked list sorted by expiry
    time, with a singly linked list of recycled nodes beside it.  The nodes
    live in a heap, and every operation is translated with its loads and
    stores, so a dangling or null access is the outcome [UB].  The theorems
    refine the pointer structure to a sorted list of timers. *)

From Stdlib Require Import Sorted.
From S2P Require Import Prelude Time.
Local Open Scope c_scope.

Abbreviation loc := positive.

Section Timer.
(** The type of function pointers, of their client data, and of whatever
    state outside the timer module the callbacks change. *)
Context {TimerProc ClientData World : Type}.

(** ** Data *)

(** The fields of [struct TimerStruct] that the list operations leave
    alone, apart from [time]. *)
Record tdata := mk_tdata {
  timer_proc : TimerProc;
  client_data : ClientData;
  t_usecs : Z;
  periodic : Z;
  time : iperf_time }.

Record Timer := mk_Timer { td : tdata; prev : option loc; next : option loc }.

Record tstate := mk_tstate {
  heap : gmap loc Timer;
  timers : option loc;
  free_timers : option loc;
  world : World }.

Definition TM := CM tstate.

Definition load (l : loc) : TM Timer := fun s =>
  match heap s !! l with Some t => Ret (t, s) | None => UB end.

Definition store_timer (l : loc) (f : Timer -> Timer) : TM unit := fun s =>
  match heap s !! l with
  | Some t => Ret (tt, mk_tstate (<[l := f t]> (heap s)) (timers s) (free_timers s) (world s))
  | None => UB
  end.

Definition set_prev (l : loc) (p : option loc) : TM unit :=
  store_timer l (fun t => mk_Timer (td t) p (next t)).
Definition set_next (l : loc) (n : option loc) : TM unit :=
  store_timer l (fun t => mk_Timer (td t) (prev t) n).
Definition set_data (l : loc) (d : tdata) : TM unit :=
  store_timer l (fun t => mk_Timer d (prev t) (next t)).
Definition set_timers (p : option loc) : TM unit :=
  modify (fun s => mk_tstate (heap s) p (free_timers s) (world s)).
Definition set_free_timers (p : option loc) : TM unit :=
  modify (fun s => mk_tstate (heap s) (timers s) p (world s)).

(** ** Operations *)

(** [getnow]: the caller's reading of the clock, or [clock], the value
    [iperf_time_now] would give. *)
Definition getnow (nowP : option iperf_time) (clock : iperf_time) : iperf_time :=
  match nowP with Some t => t | None => clock end.

(** The walk of [list_add] to the insertion point. *)
Fixpoint list_add_walk (fuel : nat) (t t2prev : loc) (t2 : option loc) : TM unit :=
  match t2 with
  | None =>
      set_next t2prev (Some t) ;;;
      set_prev t (Some t2prev) ;;;
      set_next t None
  | Some t2 =>
      match fuel with
      | O => out_of_fuel
      | S fuel =>
          n <- load t ;;
          x <- load t2 ;;
          if iperf_time_compare (time (td n)) (time (td x)) <? 0 then
            set_next t2prev (Some t) ;;;
            set_prev t (Some t2prev) ;;;
            set_next t (Some t2) ;;;
            set_prev t2 (Some t)
          else list_add_walk fuel t t2 (next x)
      end
  end.

(** A list in the heap has no more nodes than the heap, which bounds the walk. *)
Definition list_add (t : loc) : TM unit :=
  hd <- gets timers ;;
  match hd with
  | None =>
      set_timers (Some t) ;;;
      set_next t None ;;;
      set_prev t None
  | Some h =>
      n <- load t ;;
      x <- load h ;;
      if iperf_time_compare (time (td n)) (time (td x)) <? 0 then
        set_prev t None ;;;
        set_next t (Some h) ;;;
        set_prev h (Some t) ;;;
        set_timers (Some t)
      else
        fuel <- gets (fun s => size (heap s)) ;;
        list_add_walk fuel t h (next x)
  end.

Definition list_remove (t : loc) : TM unit :=
  x <- load t ;;
  match prev x with
  | None => set_timers (next x)
  | Some p => set_next p (next x)
  end ;;;
  x <- load t ;;
  match next x with
  | Some n => set_prev n (prev x)
  | None => ret tt
  end.

Definition list_resort (t : loc) : TM unit :=
  list_remove t ;;;
  list_add t.

(** [m] is what [malloc] returns: nothing, or a node with arbitrary contents. *)
Definition new_timer (m : option (loc * Timer)) : TM (option loc) :=
  fr <- gets free_timers ;;
  match fr with
  | Some t => x <- load t ;; set_free_timers (next x) ;;; ret (Some t)
  | None =>
      match m with
      | None => ret None
      | Some (t, junk) =>
          modify (fun s => mk_tstate (<[t := junk]> (heap s)) (timers s) (free_timers s) (world s)) ;;;
          ret (Some t)
      end
  end.

Definition tmr_create (nowP : option iperf_time) (clock : iperf_time)
    (m : option (loc * Timer)) (proc : TimerProc) (cd : ClientData)
    (us per : Z) : TM (option loc) :=
  let now := getnow nowP clock in
  ot <- new_timer m ;;
  match ot with
  | None => ret None
  | Some t =>
      set_data t (mk_tdata proc cd us per (iperf_time_add_usecs now (u64 us))) ;;;
      list_add t ;;;
      ret (Some t)
  end.

(** The [timeval] of the first timer, or NULL without active timers. *)
Definition tmr_timeout (nowP : option iperf_time) (clock : iperf_time) : TM (option (Z * Z)) :=
  let now := getnow nowP clock in
  hd <- gets timers ;;
  match hd with
  | None => ret None
  | Some h =>
      x <- load h ;;
      let '(diff, past) := iperf_time_diff (time (td x)) now in
      let us := if past =? 0 then iperf_time_in_usecs diff else 0 in
      ret (Some (us / 1000000, us mod 1000000))
  end.

Definition tmr_cancel (t : loc) : TM unit :=
  list_remove t ;;;
  fr <- gets free_timers ;;
  set_next t fr ;;;
  set_free_timers (Some t) ;;;
  set_prev t None.

(** [call] is what calling a timer's procedure does. *)
Fixpoint tmr_run_loop (call : TimerProc -> ClientData -> iperf_time -> TM unit)
    (fuel : nat) (now : iperf_time) (t : option loc) : TM unit :=
  match t with
  | None => ret tt
  | Some t =>
      match fuel with
      | O => out_of_fuel
      | S fuel =>
          x <- load t ;;
          let nxt := next x in
          if 0 <? iperf_time_compare (time (td x)) now then ret tt
          else
            call (timer_proc (td x)) (client_data (td x)) now ;;;
            x <- load t ;;
            (if periodic (td x) =? 0 then tmr_cancel t
             else
               set_data t (mk_tdata (timer_proc (td x)) (client_data (td x)) (t_usecs (td x))
                 (periodic (td x)) (iperf_time_add_usecs (time (td x)) (u64 (t_usecs (td x))))) ;;;
               list_resort t) ;;;
            tmr_run_loop call fuel now nxt
      end
  end.

Definition tmr_run (call : TimerProc -> ClientData -> iperf_time -> TM unit)
    (fuel : nat) (nowP : option iperf_time) (clock : iperf_time) : TM unit :=
  hd <- gets timers ;;
  tmr_run_loop call fuel (getnow nowP clock) hd.

Definition tmr_reset (nowP : option iperf_time) (clock : iperf_time) (t : loc) : TM unit :=
  let now := getnow nowP clock in
  x <- load t ;;
  set_data t (mk_tdata (timer_proc (td x)) (client_data (td x)) (t_usecs (td x))
    (periodic (td x)) (iperf_time_add_usecs now (u64 (t_usecs (td x))))) ;;;
  list_resort t.

(** [free]: the node leaves the heap. *)
Definition free_node (t : loc) : TM unit := fun s =>
  match heap s !! t with
  | Some _ => Ret (tt, mk_tstate (delete t (heap s)) (timers s) (free_timers s) (world s))
  | None => UB
  end.

Fixpoint tmr_cleanup_loop (fuel : nat) : TM unit :=
  fr <- gets free_timers ;;
  match fr with
  | None => ret tt
  | Some t =>
      match fuel with
      | O => out_of_fuel
      | S fuel =>
          x <- load t ;;
          set_free_timers (next x) ;;;
          free_node t ;;;
          tmr_cleanup_loop fuel
      end
  end.

Definition tmr_cleanup : TM unit :=
  fuel <- gets (fun s => size (heap s)) ;;
  tmr_cleanup_loop fuel.

Fixpoint tmr_destroy_loop (fuel : nat) : TM unit :=
  hd <- gets timers ;;
  match hd with
  | None => ret tt
  | Some t =>
      match fuel with
      | O => out_of_fuel
      | S fuel => tmr_cancel t ;;; tmr_destroy_loop fuel
      end
  end.

Definition tmr_destroy : TM unit :=
  fuel <- gets (fun s => size (heap s)) ;;
  tmr_destroy_loop fuel ;;;
  tmr_cleanup.
(** ** The abstract list *)

(** The first node of a segment, or what follows it; the last node of a
    segment, or what precedes it. *)
Definition first (l : list (loc * tdata)) (q : option loc) : option loc :=
  match l with [] => q | (x, _) :: _ => Some x end.

Fixpoint final (p : option loc) (l : list (loc * tdata)) : option loc :=
  match l with [] => p | (x, _) :: l => final (Some x) l end.

Fixpoint locs (l : list (loc * tdata)) : list loc :=
  match l with [] => [] | (x, _) :: l => x :: locs l end.

(** The heap holds the doubly linked segment [l] between [p] and [q]. *)
Fixpoint dseg (h : gmap loc Timer) (p : option loc) (l : list (loc * tdata))
    (q : option loc) : Prop :=
  match l with
  | [] => True
  | (x, d) :: l => h !! x = Some (mk_Timer d p (first l q)) /\ dseg h (Some x) l q
  end.

(** The free list, linked by [next] only. *)
Fixpoint fseg (h : gmap loc Timer) (l : list loc) : Prop :=
  match l with
  | [] => True
  | x :: l => (exists t, h !! x = Some t /\ next t = head l) /\ fseg h l
  end.

(** Insertion behind every timer that expires no later. *)
Fixpoint tins (e : loc * tdata) (l : list (loc * tdata)) : list (loc * tdata) :=
  match l with
  | [] => [e]
  | y :: l' =>
      if iperf_time_compare (time e.2) (time y.2) <? 0 then e :: l else y :: tins e l'
  end.

Definition expiry (e : loc * tdata) : Z := iperf_time_in_usecs (time e.2).

(** Earliest first. *)
Definition tsorted (l : list (loc * tdata)) : Prop :=
  StronglySorted (fun a b => expiry a <= expiry b) l.

(** The invariant of the module: [l] are the active timers, sorted, [fl] the
    recycled nodes; together they are all the nodes there are. *)
Record timers_inv (s : tstate) (l : list (loc * tdata)) (fl : list loc) : Prop := {
  inv_head : timers s = first l None;
  inv_dseg : dseg (heap s) None l None;
  inv_free : free_timers s = head fl;
  inv_fseg : fseg (heap s) fl;
  inv_nodup : NoDup (locs l ++ fl);
  inv_dom : forall x, is_Some (heap s !! x) -> x ∈ locs l ++ fl;
  inv_ok : Forall (fun e => time_ok (time e.2)) l;
  inv_sorted : tsorted l }.

Lemma locs_app l1 l2 : locs (l1 ++ l2) = locs l1 ++ locs l2.
Proof. induction l1 as [|[] l1 IH]; simpl; congruence. Qed.

(** Membership in a list given by cases. *)
Local Ltac mem :=
  simpl in *; rewrite ?locs_app, ?elem_of_app, ?elem_of_cons in *; simpl in *;
  rewrite ?elem_of_app, ?elem_of_cons, ?elem_of_nil in *;
  solve [tauto | congruence | intuition congruence].

(** *** Segments *)

Lemma first_app l1 l2 q : first (l1 ++ l2) q = first l1 (first l2 q).
Proof. by destruct l1 as [|[]]. Qed.

Lemma final_app p l1 l2 : final p (l1 ++ l2) = final (final p l1) l2.
Proof. revert p. induction l1 as [|[] l1 IH]; simpl; auto. Qed.

Lemma dseg_app h p l1 l2 q :
  dseg h p (l1 ++ l2) q <-> dseg h p l1 (first l2 q) /\ dseg h (final p l1) l2 q.
Proof.
  revert p. induction l1 as [|[x d] l1 IH]; intros p; simpl; [tauto|].
  rewrite first_app, IH. tauto.
Qed.

Lemma dseg_frame h h' p l q :
  (forall x, x ∈ locs l -> h' !! x = h !! x) -> dseg h p l q -> dseg h' p l q.
Proof.
  revert p. induction l as [|[x d] l IH]; intros p Hf; simpl; [done|].
  intros [Hx Hl]. split; [rewrite Hf; [done|mem]|].
  apply IH; [|done]. intros y Hy. apply Hf. mem.
Qed.

Lemma dseg_insert_ne h p l q x t :
  x ∉ locs l -> dseg h p l q -> dseg (<[x := t]> h) p l q.
Proof.
  intros Hx. apply dseg_frame. intros y Hy. apply lookup_insert_ne. mem.
Qed.

Lemma fseg_frame h h' l :
  (forall x, x ∈ l -> h' !! x = h !! x) -> fseg h l -> fseg h' l.
Proof.
  induction l as [|x l IH]; intros Hf; simpl; [done|].
  intros [Hx Hl]. split; [rewrite Hf; [done|mem]|].
  apply IH; [|done]. intros y Hy. apply Hf. mem.
Qed.

Lemma dseg_lookup h p l q x d :
  dseg h p l q -> (x, d) ∈ l -> exists t, h !! x = Some t /\ td t = d.
Proof.
  revert p. induction l as [|[y e] l IH]; intros p; simpl; [by intros _ ?%elem_of_nil|].
  intros [Hy Hl] [Heq|Hin]%elem_of_cons; [simplify_eq; eauto|eauto].
Qed.

Lemma final_in p l x : final p l = Some x -> p = Some x \/ x ∈ locs l.
Proof.
  revert p. induction l as [|[y e] l IH]; intros p; simpl; [auto|].
  intros [[= ->]|Hin]%IH; right; mem.
Qed.

Lemma first_in l x : first l None = Some x -> x ∈ locs l.
Proof. destruct l as [|[y e] l]; simpl; [done|]. intros [= ->]. mem. Qed.

(** A node of which the links [p] and [n] change when it is the one named. *)
Definition relink (x : loc) (a b p n : option loc) (t : Timer) : Timer :=
  mk_Timer (td t) (if decide (Some x = a) then p else prev t)
    (if decide (Some x = b) then n else next t).

(** Changing what the last node of a segment points to. *)
Lemma dseg_relink_next h h' p l q q' a p0 :
  NoDup (locs l) -> dseg h p l q ->
  (forall x, x ∈ locs l -> Some x <> a) ->
  (forall x, x ∈ locs l -> h' !! x = relink x a (final None l) p0 q' <$> h !! x) ->
  dseg h' p l q'.
Proof.
  revert p. induction l as [|[x d] l IH]; intros p; simpl; [done|].
  rewrite NoDup_cons. intros [Hx Hnd] [Hh Hl] Ha Hf. split.
  - rewrite (Hf x), Hh by mem. simpl. unfold relink; simpl.
    rewrite decide_False by (apply Ha; mem). do 2 f_equal.
    destruct l as [|[y e] l]; simpl; [by rewrite decide_True|].
    rewrite decide_False; [done|]. intros [[= ->]|Hin]%eq_sym%final_in; mem.
  - apply IH; [done|done|intros y Hy; apply Ha; mem|]. intros y Hy. rewrite (Hf y) by mem.
    f_equal. destruct l as [|[z e] l]; [mem|done].
Qed.

(** Changing what the first node of a segment points back to. *)
Lemma dseg_relink_prev h h' p p' l q b n0 :
  NoDup (locs l) -> dseg h p l q ->
  (forall x, x ∈ locs l -> Some x <> b) ->
  (forall x, x ∈ locs l -> h' !! x = relink x (first l None) b p' n0 <$> h !! x) ->
  dseg h' p' l q.
Proof.
  destruct l as [|[x d] l]; simpl; [done|].
  rewrite NoDup_cons. intros [Hx Hnd] [Hh Hl] Hb Hf. split.
  - rewrite (Hf x), Hh by mem. simpl. unfold relink; simpl.
    rewrite decide_True by done. by rewrite decide_False by (apply Hb; mem).
  - revert Hl. apply dseg_frame. intros y Hy. rewrite (Hf y) by mem.
    destruct (h !! y) as [[]|]; simpl; [|done]. unfold relink; simpl.
    rewrite !decide_False; [done| |]; [apply Hb; mem|mem].
Qed.

(** Linking a node in between [l1] and [l2], and taking one out. *)
Lemma dseg_link h h' l1 t d l2 :
  NoDup (locs (l1 ++ l2)) -> t ∉ locs (l1 ++ l2) -> dseg h None (l1 ++ l2) None ->
  h' !! t = Some (mk_Timer d (final None l1) (first l2 None)) ->
  (forall x, x <> t -> h' !! x = relink x (first l2 None) (final None l1) (Some t) (Some t) <$> h !! x) ->
  dseg h' None (l1 ++ (t, d) :: l2) None.
Proof.
  rewrite locs_app, NoDup_app, !dseg_app. intros (N1 & D & N2) Ht [H1 H2] Et Hf.
  assert (forall x, x ∈ locs l1 -> Some x <> first l2 None) as D1.
  { intros x Hx E. apply (D x Hx), first_in. done. }
  assert (forall x, x ∈ locs l2 -> Some x <> final None l1) as D2.
  { intros x Hx E. symmetry in E. apply final_in in E as [?|E]; [done|]. by apply (D x E). }
  split; [|simpl; split; [done|]].
  - eapply dseg_relink_next; [done|exact H1|exact D1|]. intros x Hx. apply Hf. intros ->. mem.
  - eapply dseg_relink_prev; [done|exact H2|exact D2|]. intros x Hx. apply Hf. intros ->. mem.
Qed.

Lemma dseg_unlink h h' l1 t d l2 :
  NoDup (locs (l1 ++ (t, d) :: l2)) -> dseg h None (l1 ++ (t, d) :: l2) None ->
  (forall x, x <> t ->
     h' !! x = relink x (first l2 None) (final None l1) (final None l1) (first l2 None) <$> h !! x) ->
  dseg h' None (l1 ++ l2) None.
Proof.
  rewrite locs_app, NoDup_app, !dseg_app. simpl. rewrite NoDup_cons.
  intros (N1 & D & Ht & N2) (H1 & _ & H2) Hf.
  split.
  - apply (dseg_relink_next h h' None l1 (Some t) _ (first l2 None) (final None l1)); [done|done| |].
    + intros x Hx E. apply (D x Hx). symmetry in E. apply first_in in E. mem.
    + intros x Hx. apply Hf. intros ->. apply (D t Hx). mem.
  - apply (dseg_relink_prev h h' (Some t) _ l2 None (final None l1) (first l2 None)); [done|done| |].
    + intros x Hx E. symmetry in E. apply final_in in E as [?|E]; [done|]. apply (D x E). mem.
    + intros x Hx. apply Hf. intros ->. done.
Qed.

Lemma wp_load l t Q s : heap s !! l = Some t -> Q t s -> wp (load l) Q s.
Proof. unfold wp, load. by intros ->. Qed.

Lemma wp_store l f t Q s :
  heap s !! l = Some t ->
  Q tt (mk_tstate (<[l := f t]> (heap s)) (timers s) (free_timers s) (world s)) ->
  wp (store_timer l f) Q s.
Proof. unfold wp, store_timer. by intros ->. Qed.

(** What an operation leaves alone: everything outside [L], the free list and
    the client's state; no node appears. *)
Record edited (s s' : tstate) (L : list loc) : Prop := {
  ed_free : free_timers s' = free_timers s;
  ed_world : world s' = world s;
  ed_heap : forall x, x ∉ L -> heap s' !! x = heap s !! x;
  ed_dom : forall x, is_Some (heap s' !! x) <-> is_Some (heap s !! x) }.

(** Runs the loads and stores of straight-line code over a known heap. *)
Local Ltac look :=
  simpl; repeat first [rewrite lookup_insert_eq | rewrite lookup_insert_ne by congruence];
  first [eassumption | reflexivity | done].
Local Ltac run :=
  unfold set_next, set_prev, set_data, set_timers, set_free_timers;
  repeat first
    [ wp_step
    | lazymatch goal with
      | |- wp (load _) _ _ => eapply wp_load; [look|]
      | |- wp (store_timer _ _) _ _ => eapply wp_store; [look|]
      end ]; simpl.

(** Reads a heap that was updated at known nodes. *)
Local Ltac peek_heap :=
  repeat (rewrite lookup_insert; case_decide; simplify_eq; simpl);
  unfold relink; simpl; repeat (case_decide; simplify_eq; simpl); try done;
  match goal with
  | H : heap ?s !! ?x = Some _ |- context [heap ?s !! ?x] => by rewrite H
  | |- context [heap ?s !! ?x] => by destruct (heap s !! x) as [[]|]
  end.

Lemma dseg_size h p l q : NoDup (locs l) -> dseg h p l q -> (length l <= size h)%nat.
Proof.
  intros Hnd Hl. rewrite <- size_dom.
  assert (length l = size (list_to_set (locs l) : gset loc)) as ->.
  { rewrite size_list_to_set by done. clear. induction l as [|[] l IH]; simpl; lia. }
  apply subseteq_size. intros x. rewrite elem_of_list_to_set, elem_of_dom.
  clear Hnd. revert p Hl. induction l as [|[y e] l IH]; simpl; intros p; [by intros _ ?%elem_of_nil|].
  intros [Hy Hl] [->|Hx]%elem_of_cons; eauto.
Qed.

Lemma relink_other x a b p n t : Some x <> a -> Some x <> b -> relink x a b p n t = t.
Proof. intros. unfold relink. rewrite !decide_False by done. by destruct t. Qed.

(** The stores that link [t] between [l1] and [l2], whatever their order. *)
Lemma link_edited l1 l2 h s s' l l' t nt :
  h = heap s' -> l = l1 ++ l2 -> l' = l1 ++ (t, td nt) :: l2 ->
  NoDup (locs l) -> t ∉ locs l -> dseg (heap s) None l None ->
  heap s !! t = Some nt -> free_timers s' = free_timers s -> world s' = world s ->
  h !! t = Some (mk_Timer (td nt) (final None l1) (first l2 None)) ->
  (forall x, x <> t ->
     h !! x = relink x (first l2 None) (final None l1) (Some t) (Some t) <$> heap s !! x) ->
  edited s s' (t :: locs l) /\ dseg h None l' None.
Proof.
  intros -> -> -> Hnd Ht Hd Hnt Ef Ew Et Hf. split; [|by eapply dseg_link]. split; [done|done| |].
  - intros x Hx. rewrite Hf by (intros ->; mem). rewrite locs_app in Hx.
    assert ((x ∉ locs l1) /\ (x ∉ locs l2)) as [H1 H2] by mem.
    destruct (heap s !! x) as [n|]; simpl; [|done]. rewrite relink_other; [done| |].
    + intros E. symmetry in E. by apply first_in in E.
    + intros E. symmetry in E. by apply final_in in E as [?|?].
  - intros x. destruct (decide (x = t)) as [->|Hx].
    + rewrite Et, Hnt. split; eauto.
    + rewrite Hf by done. by rewrite fmap_is_Some.
Qed.

Lemma list_add_walk_spec fuel pre y dy suf t nt s :
  (length suf <= fuel)%nat ->
  dseg (heap s) None (pre ++ (y, dy) :: suf) None ->
  NoDup (locs (pre ++ (y, dy) :: suf)) -> t ∉ locs (pre ++ (y, dy) :: suf) ->
  heap s !! t = Some nt ->
  wp (list_add_walk fuel t y (first suf None))
    (fun _ s' => timers s' = timers s /\
       edited s s' (t :: locs (pre ++ (y, dy) :: suf)) /\
       dseg (heap s') None (pre ++ (y, dy) :: tins (t, td nt) suf) None) s.
Proof.
  revert pre y dy suf. induction fuel as [|fuel IH]; intros pre y dy suf Hf Hd Hnd Ht Hnt;
    pose proof Hd as Hd'; rewrite dseg_app in Hd'; simpl in Hd'; destruct Hd' as (_ & Hy & Hs);
    assert (y <> t) by (intros ->; mem).
  all: destruct suf as [|[z dz] suf]; [|try (simpl in Hf; lia)]; simpl.
  (* the end of the list *)
  1, 2: run; split; [done|];
    apply (link_edited (pre ++ [(y, dy)]) [] _ s _ _ _ t nt); rewrite ?app_nil_r, ?final_app, <- ?app_assoc; try done;
    [simpl; look|intros x Hx; simpl; peek_heap].
  (* a node to compare with *)
  destruct Hs as [Hz Hs]. assert (z <> t) by (intros ->; mem).
  assert (z <> y) by (intros ->; rewrite locs_app, NoDup_app in Hnd; simpl in Hnd;
    rewrite !NoDup_cons in Hnd; mem).
  run. case_Z.
  - run. split; [done|].
    apply (link_edited (pre ++ [(y, dy)]) ((z, dz) :: suf) _ s _ _ _ t nt);
      rewrite ?final_app, <- ?app_assoc; try done;
    [simpl; look|intros x Hx; simpl; peek_heap].
  - specialize (IH (pre ++ [(y, dy)]) z dz suf). rewrite <- !app_assoc in IH. simpl in IH.
    simpl in Hf. apply IH; first [done|lia].
Qed.

(** [list_add] inserts behind the timers that expire no later. *)
Lemma list_add_spec l t nt s :
  timers s = first l None -> dseg (heap s) None l None ->
  NoDup (locs l) -> t ∉ locs l -> heap s !! t = Some nt ->
  wp (list_add t)
    (fun _ s' => timers s' = first (tins (t, td nt) l) None /\
       edited s s' (t :: locs l) /\
       dseg (heap s') None (tins (t, td nt) l) None) s.
Proof.
  intros Hh Hd Hnd Ht Hnt. unfold list_add. run. rewrite Hh.
  destruct l as [|[y dy] l]; simpl.
  - run. split; [done|].
    apply (link_edited [] [] _ s _ [] [(t, td nt)] t nt); try done; [simpl; look|intros x Hx; simpl; peek_heap].
  - pose proof Hd as [Hy Hl]. assert (y <> t) by (intros ->; mem). run. case_Z.
    + run. split; [done|].
      apply (link_edited [] ((y, dy) :: l) _ s _ ((y, dy) :: l) ((t, td nt) :: (y, dy) :: l) t nt); try done;
        [simpl; look|intros x Hx; simpl; peek_heap].
    + run. eapply wp_mono.
      * apply (list_add_walk_spec _ [] y dy l t nt); try done.
        pose proof (dseg_size _ _ _ _ Hnd Hd). simpl in *. lia.
      * simpl. intros _ s' (Et & He & Hd'). by rewrite Et, Hh.
Qed.

(** [list_remove] takes the node out; its own links stay. *)
Lemma list_remove_spec l1 t d l2 s :
  timers s = first (l1 ++ (t, d) :: l2) None ->
  dseg (heap s) None (l1 ++ (t, d) :: l2) None ->
  NoDup (locs (l1 ++ (t, d) :: l2)) ->
  wp (list_remove t)
    (fun _ s' => timers s' = first (l1 ++ l2) None /\
       edited s s' (locs (l1 ++ l2)) /\
       dseg (heap s') None (l1 ++ l2) None) s.
Proof.
  intros Hh Hd Hnd. pose proof Hd as Hd'. rewrite dseg_app in Hd'. simpl in Hd'.
  destruct Hd' as (H1 & Ht & H2). pose proof Hnd as N. rewrite locs_app, NoDup_app in N.
  simpl in N. rewrite NoDup_cons in N. destruct N as (N1 & D & Nt & N2).
  assert (t ∉ locs l1) as Nt1 by (intros E; apply (D t E); mem).
  enough (wp (list_remove t)
    (fun _ s' => timers s' = first (l1 ++ l2) None /\
       free_timers s' = free_timers s /\ world s' = world s /\
       forall x, heap s' !! x =
         relink x (first l2 None) (final None l1) (final None l1) (first l2 None) <$> heap s !! x) s)
    as Hwp.
  { eapply wp_mono; [exact Hwp|]. simpl. intros _ s' (Et & Ef & Ew & Hf).
    split; [done|]. split; [|by eapply dseg_unlink]. split; [done|done| |].
    - intros x Hx. rewrite Hf, locs_app in *. rewrite elem_of_app in Hx.
      destruct (heap s !! x) as [n|]; simpl; [|done]. rewrite relink_other; [done| |].
      + intros E. symmetry in E. apply first_in in E. tauto.
      + intros E. symmetry in E. apply final_in in E as [?|?]; [done|tauto].
    - intros x. by rewrite Hf, fmap_is_Some. }
  unfold list_remove. run. rewrite first_app in Hh.
  destruct l1 as [|[p dp] l1 _] using rev_ind; simpl.
  - run. destruct l2 as [|[n dn] l2]; simpl; run.
    + split_and!; try done. intros x. peek_heap.
    + destruct H2 as [Hn H2]. run. split_and!; try done. intros x. peek_heap.
  - rewrite final_app in *. simpl in *. rewrite dseg_app in H1. simpl in H1.
    destruct H1 as (H1 & Hp & _). rewrite locs_app in *. simpl in *.
    assert (p <> t) by (intros ->; mem). run. rewrite <- app_assoc; simpl.
    assert (first (l1 ++ (p, dp) :: l2) None = timers s) as Eh
      by (rewrite Hh, !first_app; done).
    destruct l2 as [|[n dn] l2]; simpl; run.
    + split_and!; try done. intros x. peek_heap.
    + destruct H2 as [Hn H2]. assert (n <> t) by (intros ->; mem).
      assert (n <> p) by (intros ->; apply (D p); mem).
      run. split_and!; try done. intros x. peek_heap.
Qed.

(** *** Sorted insertion *)

Lemma locs_fmap l : locs l = l.*1.
Proof. induction l as [|[] l IH]; csimpl; congruence. Qed.

Lemma tins_perm e l : tins e l ≡ₚ e :: l.
Proof.
  induction l as [|y l IH]; simpl; [done|]. case_Z; [done|].
  rewrite IH. apply Permutation_swap.
Qed.

Lemma locs_tins e l : locs (tins e l) ≡ₚ e.1 :: locs l.
Proof. rewrite !locs_fmap, tins_perm. done. Qed.

Lemma compare_before e y :
  time_ok (time e.2) -> time_ok (time y.2) ->
  (iperf_time_compare (time e.2) (time y.2) <? 0) = (expiry e <? expiry y).
Proof. intros. rewrite compare_spec by done. unfold expiry. repeat case_Z; lia. Qed.

Lemma tins_sorted e l :
  time_ok (time e.2) -> Forall (fun y => time_ok (time y.2)) l ->
  tsorted l -> tsorted (tins e l).
Proof.
  intros He Hl Hs. induction Hs as [|y l Hs IH Hy]; simpl.
  - repeat constructor.
  - inversion_clear Hl as [|? ? Oy Ol]. rewrite compare_before by done. case_Z.
    + constructor; [by constructor|]. constructor; [lia|].
      eapply Forall_impl; [exact Hy|]. simpl. lia.
    + constructor; [by apply IH|]. rewrite tins_perm. constructor; [lia|done].
Qed.

Lemma tsorted_remove l1 e l2 : tsorted (l1 ++ e :: l2) -> tsorted (l1 ++ l2).
Proof.
  unfold tsorted. induction l1 as [|y l1 IH]; simpl; intros Hs; inversion_clear Hs as [|? ? H F]; [done|].
  constructor; [auto|]. rewrite Forall_app in *. destruct F as [F1 F2].
  split; [done|]. by inversion F2.
Qed.

(** *** The operations keep the invariant *)

Lemma inv_nodup_l s l fl : timers_inv s l fl -> NoDup (locs l).
Proof. intros H. apply inv_nodup in H. by apply NoDup_app in H as (? & _). Qed.

(** Linking a node that is on neither list. *)
Lemma inv_add s l fl t nt :
  timers s = first l None -> dseg (heap s) None l None -> free_timers s = head fl ->
  fseg (heap s) fl -> NoDup (t :: locs l ++ fl) -> heap s !! t = Some nt ->
  (forall x, is_Some (heap s !! x) -> x ∈ t :: locs l ++ fl) ->
  Forall (fun e => time_ok (time e.2)) l -> time_ok (time (td nt)) -> tsorted l ->
  wp (list_add t) (fun _ s' => timers_inv s' (tins (t, td nt) l) fl /\ world s' = world s) s.
Proof.
  intros Hh Hd Hf Hfs Hnd Hnt Hdom Hok Ot Hs.
  rewrite NoDup_cons, NoDup_app in Hnd. destruct Hnd as (Nt & Nl & D & Nf).
  eapply wp_mono; [apply (list_add_spec l t nt); try done; mem|].
  simpl. intros _ s' (Et & He & Hd'). split; [|apply He]. split; try done.
  - rewrite (ed_free _ _ _ He). done.
  - eapply fseg_frame; [|exact Hfs]. intros x Hx. apply (ed_heap _ _ _ He).
    rewrite elem_of_cons. intros [->|Hin]; [mem|]. by apply (D x).
  - rewrite locs_tins. simpl. rewrite NoDup_cons, NoDup_app. done.
  - intros x Hx%(ed_dom _ _ _ He)%Hdom. rewrite locs_tins. done.
  - rewrite tins_perm. by constructor.
  - by apply tins_sorted.
Qed.

Lemma tmr_cancel_inv s l1 t d l2 fl :
  timers_inv s (l1 ++ (t, d) :: l2) fl ->
  wp (tmr_cancel t)
    (fun _ s' => timers_inv s' (l1 ++ l2) (t :: fl) /\ world s' = world s) s.
Proof.
  intros I. unfold tmr_cancel. wp_step.
  eapply wp_mono; [apply (list_remove_spec l1 t d l2); [apply I..|by eapply inv_nodup_l]|].
  simpl. intros _ s' (Et & He & Hd).
  pose proof (inv_nodup _ _ _ I) as N. rewrite locs_app in N. simpl in N.
  assert (NoDup (t :: (locs l1 ++ locs l2) ++ fl)) as N'.
  { revert N. rewrite <- !app_assoc. simpl. by rewrite <- Permutation_middle. }
  pose proof N' as N''. rewrite NoDup_cons in N''. destruct N'' as [Nt _].
  destruct (dseg_lookup _ _ _ _ t d (inv_dseg _ _ _ I)) as (n & En & Ed); [mem|].
  assert (heap s' !! t = Some n) as En'.
  { rewrite (ed_heap _ _ _ He); [done|]. rewrite locs_app. mem. }
  assert (t ∉ fl) as Ntf by mem. assert (t ∉ locs (l1 ++ l2)) as Ntl by mem.
  run. split; [|apply He]. split; simpl; try done.
  - by apply dseg_insert_ne; [done|]; apply dseg_insert_ne.
  - split.
    + eexists. split; [by rewrite lookup_insert_eq|]. simpl.
      rewrite (ed_free _ _ _ He). apply I.
    + eapply fseg_frame; [|apply I]. intros x Hx.
      rewrite !lookup_insert_ne by (intros ->; done). apply (ed_heap _ _ _ He).
      intros Hin. pose proof N' as N2. rewrite NoDup_cons, NoDup_app in N2.
      rewrite locs_app in Hin. by apply (proj1 (proj2 (proj2 N2)) x).
  - rewrite locs_app. rewrite <- Permutation_middle. done.
  - intros x Hx. rewrite locs_app, <- Permutation_middle.
    assert (is_Some (heap s !! x)) as Hx'.
    { apply (ed_dom _ _ _ He). destruct (decide (x = t)) as [->|]; [by rewrite En'|].
      by rewrite !lookup_insert_ne in Hx. }
    apply (inv_dom _ _ _ I) in Hx'. mem.
  - pose proof (inv_ok _ _ _ I) as O. rewrite Forall_app, Forall_cons in O. rewrite Forall_app. tauto.
  - eapply tsorted_remove, I.
Qed.

(** The record [tmr_create] fills in. *)
Definition new_data (now : iperf_time) (proc : TimerProc) (cd : ClientData) (us per : Z) : tdata :=
  mk_tdata proc cd us per (iperf_time_add_usecs now (u64 us)).

Lemma tmr_create_inv s l fl nowP clock m proc cd us per :
  timers_inv s l fl ->
  (forall t junk, m = Some (t, junk) -> heap s !! t = None) ->
  wp (tmr_create nowP clock m proc cd us per)
    (fun r s' =>
       match r with
       | None => fl = [] /\ m = None /\ s' = s
       | Some t => exists fl',
           timers_inv s' (tins (t, new_data (getnow nowP clock) proc cd us per) l) fl' /\
           world s' = world s /\
           (fl = t :: fl' \/ fl = [] /\ fl' = [] /\ heap s !! t = None)
       end) s.
Proof.
  intros I Hm. pose proof I as [Hh Hd Hf Hfs Hnd Hdom Hok Hs].
  unfold tmr_create, new_timer. run. rewrite Hf. destruct fl as [|t fl]; simpl.
  - destruct m as [[t junk]|]; simpl; run; [|done].
    pose proof (Hm t junk eq_refl) as Et.
    assert (t ∉ locs l) as Ht.
    { intros Hin. rewrite locs_fmap in Hin. apply list_elem_of_fmap in Hin as ([y e] & -> & Hin).
      destruct (dseg_lookup _ _ _ _ y e Hd Hin) as (n & En & _). simpl in *. congruence. }
    rewrite app_nil_r in *.
    eapply wp_mono; [apply (inv_add _ l []); simpl|].
    + done.
    + by do 2 (apply dseg_insert_ne; [done|]).
    + done.
    + done.
    + rewrite app_nil_r. by constructor.
    + by rewrite lookup_insert_eq.
    + intros x. rewrite insert_insert_eq, lookup_insert. case_decide; [subst; mem|].
      intros Hx%Hdom. rewrite app_nil_r in *. mem.
    + done.
    + apply add_usecs_ok.
    + done.
    + intros _ s' [I' Ew]. run. exists []. split; [exact I'|]. tauto.
  - simpl in Hfs. destruct Hfs as [(n & En & Enx) Hfs]. simpl. run.
    rewrite <- Permutation_middle in Hnd.
    pose proof Hnd as N. rewrite NoDup_cons in N. destruct N as [Nt _].
    eapply wp_mono; [apply (inv_add _ l fl); simpl|].
    + done.
    + apply dseg_insert_ne; [mem|done].
    + done.
    + eapply fseg_frame; [|done]. intros x Hx. apply lookup_insert_ne. intros ->. mem.
    + done.
    + by rewrite lookup_insert_eq.
    + intros x. rewrite lookup_insert. case_decide; [subst; mem|].
      intros Hx%Hdom. mem.
    + done.
    + apply add_usecs_ok.
    + done.
    + intros _ s' [I' Ew]. run. exists fl. split; [exact I'|]. tauto.
Qed.

(** A timer's record with a new expiry time. *)
Definition retime (d : tdata) (from : iperf_time) : tdata :=
  mk_tdata (timer_proc d) (client_data d) (t_usecs d) (periodic d)
    (iperf_time_add_usecs from (u64 (t_usecs d))).

Lemma dseg_set_data h l1 t d d' l2 :
  NoDup (locs (l1 ++ (t, d) :: l2)) -> dseg h None (l1 ++ (t, d) :: l2) None ->
  dseg (<[t := mk_Timer d' (final None l1) (first l2 None)]> h) None (l1 ++ (t, d') :: l2) None.
Proof.
  rewrite locs_app, NoDup_app, !dseg_app. simpl. rewrite NoDup_cons.
  intros (_ & D & Nt & _) (H1 & Ht & H2).
  split_and!; [|apply lookup_insert_eq|by apply dseg_insert_ne].
  apply dseg_insert_ne; [|done]. intros Hin. apply (D t Hin). mem.
Qed.

(** Giving an active timer a new record and sorting it in again. *)
Lemma resort_inv s l1 t d d' l2 fl :
  timers_inv s (l1 ++ (t, d) :: l2) fl -> time_ok (time d') ->
  wp (list_resort t)
    (fun _ s' => timers_inv s' (tins (t, d') (l1 ++ l2)) fl /\ world s' = world s)
    (mk_tstate (<[t := mk_Timer d' (final None l1) (first l2 None)]> (heap s))
       (timers s) (free_timers s) (world s)).
Proof.
  intros I Ho. pose proof I as [Hh Hd Hf Hfs Hnd Hdom Hok Hs].
  pose proof (inv_nodup_l _ _ _ I) as Nl.
  assert (NoDup (t :: locs (l1 ++ l2) ++ fl)) as N.
  { revert Hnd. rewrite !locs_app, <- !app_assoc. simpl. by rewrite <- Permutation_middle. }
  pose proof N as N'. rewrite NoDup_cons, NoDup_app in N'. destruct N' as (Nt & N1 & D & Nf).
  unfold list_resort. wp_step.
  eapply wp_mono; [apply (list_remove_spec l1 t d' l2); simpl|].
  - rewrite Hh, !first_app. done.
  - by apply (dseg_set_data _ _ _ d).
  - by rewrite locs_app in *.
  - simpl. intros _ s1 (Et & He & Hd1). 
    assert (heap s1 !! t = Some (mk_Timer d' (final None l1) (first l2 None))) as E1.
    { rewrite (ed_heap _ _ _ He) by mem. simpl. apply lookup_insert_eq. }
    eapply wp_mono; [apply (inv_add s1 (l1 ++ l2) fl); try done|].
    + rewrite (ed_free _ _ _ He). done.
    + eapply fseg_frame; [|exact Hfs]. intros x Hx. rewrite (ed_heap _ _ _ He).
      * simpl. apply lookup_insert_ne. intros ->. mem.
      * intros Hin. by apply (D x).
    + intros x Hx%(ed_dom _ _ _ He). simpl in Hx. rewrite lookup_insert in Hx.
      case_decide; [subst; mem|]. apply Hdom in Hx. mem.
    + rewrite Forall_app, Forall_cons in Hok. rewrite Forall_app. tauto.
    + by eapply tsorted_remove.
    + simpl. intros _ s2 [I2 Ew]. split; [done|]. rewrite Ew, (ed_world _ _ _ He). done.
Qed.

Lemma inv_lookup s l1 t d l2 fl :
  timers_inv s (l1 ++ (t, d) :: l2) fl ->
  heap s !! t = Some (mk_Timer d (final None l1) (first l2 None)).
Proof. intros I. pose proof (inv_dseg _ _ _ I) as Hd. rewrite dseg_app in Hd. simpl in Hd. tauto. Qed.

Lemma tmr_reset_inv s l1 t d l2 fl nowP clock :
  timers_inv s (l1 ++ (t, d) :: l2) fl ->
  wp (tmr_reset nowP clock t)
    (fun _ s' => timers_inv s' (tins (t, retime d (getnow nowP clock)) (l1 ++ l2)) fl /\
       world s' = world s) s.
Proof.
  intros I. pose proof (inv_lookup _ _ _ _ _ _ I) as Ht. unfold tmr_reset. run.
  by apply (resort_inv s l1 t d (retime d (getnow nowP clock)) l2 fl I), add_usecs_ok.
Qed.

(** *** Destruction *)

Lemma inv_size s l fl : timers_inv s l fl -> (length l + length fl <= size (heap s))%nat.
Proof.
  intros I. rewrite <- size_dom.
  assert (length l + length fl = size (list_to_set (locs l ++ fl) : gset loc))%nat as ->.
  { rewrite size_list_to_set by apply I. rewrite length_app. f_equal.
    clear. induction l as [|[] l IH]; simpl; lia. }
  apply subseteq_size. intros x. rewrite elem_of_list_to_set, elem_of_dom.
  pose proof (inv_dseg _ _ _ I) as Hd. pose proof (inv_fseg _ _ _ I) as Hf.
  rewrite elem_of_app. intros [Hx|Hx].
  - rewrite locs_fmap in Hx. apply list_elem_of_fmap in Hx as ([y e] & -> & Hin).
    destruct (dseg_lookup _ _ _ _ y e Hd Hin) as (n & En & _). eauto.
  - clear -Hf Hx. induction fl as [|y fl IH]; simpl in *; [by apply elem_of_nil in Hx|].
    destruct Hf as [(n & En & _) Hf]. apply elem_of_cons in Hx as [->|Hx]; eauto.
Qed.

Lemma tmr_destroy_loop_inv fuel s l fl :
  (length l <= fuel)%nat -> timers_inv s l fl ->
  wp (tmr_destroy_loop fuel)
    (fun _ s' => (exists fl', timers_inv s' [] fl') /\ world s' = world s) s.
Proof.
  revert s l fl. induction fuel as [|fuel IH]; intros s l fl Hl I; simpl; run;
    rewrite (inv_head _ _ _ I); destruct l as [|[t d] l]; simpl in *; try lia;
    try (run; eauto; done).
  wp_step. eapply wp_mono; [by apply (tmr_cancel_inv s [] t d l fl)|].
  simpl. intros _ s' [I' Ew]. eapply wp_mono; [apply (IH s' l (t :: fl)); [lia|done]|].
  simpl. intros _ s'' [? Ew']. split; [done|congruence].
Qed.

Lemma tmr_cleanup_loop_inv fuel s l fl :
  (length fl <= fuel)%nat -> timers_inv s l fl ->
  wp (tmr_cleanup_loop fuel) (fun _ s' => timers_inv s' l [] /\ world s' = world s) s.
Proof.
  revert s fl. induction fuel as [|fuel IH]; intros s fl Hl I; simpl; run;
    rewrite (inv_free _ _ _ I); destruct fl as [|t fl]; simpl in *; try lia;
    try (run; eauto; done).
  pose proof I as [Hh Hd _ Hfs Hnd Hdom Hok Hs]. simpl in *.
  destruct Hfs as [(n & En & Enx) Hfs]. rewrite <- Permutation_middle in Hnd.
  apply NoDup_cons in Hnd as [Nt Nf].
  run. unfold wp, free_node; simpl. rewrite En.
  eapply wp_mono; [apply (IH _ fl)|simpl; intros _ s' [I' Ew]; done].
  - lia.
  - split; simpl; try done.
    + eapply dseg_frame; [|done]. intros x Hx. apply lookup_delete_ne. intros ->. mem.
    + eapply fseg_frame; [|done]. intros x Hx. apply lookup_delete_ne. intros ->. mem.
    + intros x. rewrite lookup_delete. case_decide; [by intros []|]. intros Hx%Hdom. mem.
Qed.

Lemma tmr_cleanup_inv s l fl :
  timers_inv s l fl ->
  wp tmr_cleanup (fun _ s' => timers_inv s' l [] /\ world s' = world s) s.
Proof.
  intros I. unfold tmr_cleanup. run. apply (tmr_cleanup_loop_inv _ _ _ fl); [|done].
  pose proof (inv_size _ _ _ I). lia.
Qed.

(** *** Running the due timers *)

(** The list walk of [tmr_run] on the abstract list: [pre] are the timers
    before the cursor, [rest] the cursor and what follows; the result is the
    sequence of timers fired and the list at the end. *)
Definition advance (pre : list (loc * tdata)) (e : loc * tdata) (rest : list (loc * tdata)) :
    list (loc * tdata) * list (loc * tdata) :=
  if periodic e.2 =? 0 then (pre, rest)
  else
    let e' := (e.1, retime e.2 (time e.2)) in
    match rest with
    | [] => (tins e' pre, [])
    | n :: _ =>
        if iperf_time_compare (time e'.2) (time n.2) <? 0
        then (tins e' pre, rest) else (pre, tins e' rest)
    end.

Fixpoint fire_all (fuel : nat) (now : iperf_time) (pre rest : list (loc * tdata)) :
    list (loc * tdata) * list (loc * tdata) :=
  match rest, fuel with
  | e :: rest', S fuel =>
      if iperf_time_in_usecs now <? expiry e then ([], pre ++ rest)
      else
        let '(pre', rest'') := advance pre e rest' in
        let '(tr, l) := fire_all fuel now pre' rest'' in
        (e :: tr, l)
  | _, _ => ([], pre ++ rest)
  end.

Lemma tins_app e l1 n l2 :
  time_ok (time e.2) -> Forall (fun y => time_ok (time y.2)) (l1 ++ n :: l2) ->
  tsorted (l1 ++ n :: l2) ->
  tins e (l1 ++ n :: l2)
  = if iperf_time_compare (time e.2) (time n.2) <? 0
    then tins e l1 ++ n :: l2 else l1 ++ tins e (n :: l2).
Proof.
  intros He. induction l1 as [|y l1 IH]; simpl; intros Ho Hs; [by case_Z|].
  inversion_clear Ho as [|? ? Oy Ol]. inversion_clear Hs as [|? ? Hs' Hy].
  rewrite Forall_app, Forall_cons in Hy. destruct Hy as (_ & Hyn & _).
  rewrite IH by done. clear IH. rewrite Forall_app, Forall_cons in Ol. destruct Ol as (_ & On & _).
  simpl. rewrite !compare_before by done. repeat case_Z; try done; lia.
Qed.

(** Callbacks that leave the timers alone and change the client's state only. *)
Definition neutral (call : TimerProc -> ClientData -> iperf_time -> TM unit)
    (effect : tdata -> iperf_time -> World -> World) : Prop :=
  forall d now s,
    call (timer_proc d) (client_data d) now s
    = Ret (tt, mk_tstate (heap s) (timers s) (free_timers s) (effect d now (world s))).

Definition due (now : iperf_time) (e : loc * tdata) : Prop :=
  expiry e <= iperf_time_in_usecs now.

(** A periodic timer's period is positive and its next expiry is in the clock's range. *)
Definition period_ok (now : iperf_time) (e : loc * tdata) : Prop :=
  periodic e.2 <> 0 -> 0 < t_usecs e.2 /\ iperf_time_in_usecs now + t_usecs e.2 < time_range.

(** How often a timer can fire before it is ahead of [now]. *)
Definition firings (now : iperf_time) (e : loc * tdata) : nat :=
  if iperf_time_in_usecs now <? expiry e then 0
  else if periodic e.2 =? 0 then 1
  else S (Z.to_nat ((iperf_time_in_usecs now - expiry e) / t_usecs e.2)).

Definition total_firings (now : iperf_time) (l : list (loc * tdata)) : nat :=
  sum_list_with (firings now) l.

Lemma retime_expiry now e :
  time_ok (time e.2) -> due now e -> period_ok now e -> periodic e.2 <> 0 ->
  expiry (e.1, retime e.2 (time e.2)) = expiry e + t_usecs e.2.
Proof.
  unfold due, period_ok, expiry. intros Ho Hd Hp Hne. destruct (Hp Hne) as [P1 P2].
  pose proof (time_ok_usecs _ Ho). unfold time_range in *. simpl.
  rewrite wrapu_small, add_usecs_spec by (auto; lia). apply Z.mod_small. unfold time_range. lia.
Qed.

Lemma firings_retime now e :
  time_ok (time e.2) -> due now e -> period_ok now e -> periodic e.2 <> 0 ->
  (firings now (e.1, retime e.2 (time e.2)) < firings now e)%nat.
Proof.
  intros Ho Hd Hp Hne. pose proof (retime_expiry now e Ho Hd Hp Hne) as Ex.
  destruct (Hp Hne) as [P1 P2]. unfold firings. rewrite Ex. unfold due in Hd. simpl.
  destruct (Z.ltb_spec (iperf_time_in_usecs now) (expiry e)); [lia|].
  destruct (Z.eqb_spec (periodic e.2) 0); [done|]. case_Z; [lia|].
  replace (iperf_time_in_usecs now - (expiry e + t_usecs e.2))
    with (iperf_time_in_usecs now - expiry e + (-1) * t_usecs e.2) by lia.
  rewrite Z.div_add by lia.
  assert (1 <= (iperf_time_in_usecs now - expiry e) / t_usecs e.2).
  { apply Z.div_le_lower_bound; lia. }
  lia.
Qed.

Lemma total_firings_perm now l l' : l ≡ₚ l' -> total_firings now l = total_firings now l'.
Proof. unfold total_firings. induction 1; simpl; lia. Qed.

(** One firing: the cursor stays on the timer that followed. *)
Lemma advance_inv pre t d rest fl s :
  timers_inv s (pre ++ (t, d) :: rest) fl ->
  wp (if periodic d =? 0 then tmr_cancel t
      else set_data t (retime d (time d)) ;;; list_resort t)
    (fun _ s' => let '(pre', rest') := advance pre (t, d) rest in
       (exists fl', timers_inv s' (pre' ++ rest') fl') /\ world s' = world s) s.
Proof.
  intros I. unfold advance. simpl. case_Z.
  - eapply wp_mono; [by apply (tmr_cancel_inv s pre t d rest fl)|]. simpl. intros _ s' [? ?]. eauto.
  - pose proof (inv_lookup _ _ _ _ _ _ I) as Ht. run.
    eapply wp_mono; [apply (resort_inv s pre t d (retime d (time d)) rest fl I), add_usecs_ok|].
    simpl. intros _ s' [I' Ew].
    pose proof (inv_ok _ _ _ I) as Ok. pose proof (inv_sorted _ _ _ I) as Hs.
    apply tsorted_remove in Hs. rewrite Forall_app, Forall_cons in Ok.
    destruct rest as [|m rest]; [rewrite app_nil_r in *; eauto|].
    rewrite tins_app in I'; [|apply add_usecs_ok|rewrite Forall_app; tauto|done]. simpl in I'.
    case_Z; simpl; [eauto|]. rewrite (proj2 (Z.ltb_ge _ _)) by done. eauto.
Qed.

Lemma advance_rest now pre e rest :
  time_ok (time e.2) -> due now e -> Forall (period_ok now) (e :: rest) ->
  let rest' := (advance pre e rest).2 in
  first rest' None = first rest None /\ Forall (period_ok now) rest' /\
  (total_firings now rest' < total_firings now (e :: rest))%nat.
Proof.
  intros Oe Hd [Pe Pr]%Forall_cons. unfold advance.
  assert (0 < firings now e)%nat as Hf.
  { unfold firings, due in *. repeat case_Z; lia. }
  destruct (Z.eqb_spec (periodic e.2) 0); [unfold total_firings; simpl; split_and!; auto; lia|].
  destruct rest as [|m rest]; simpl; [unfold total_firings; simpl; split_and!; auto; lia|].
  case_Z; simpl; [unfold total_firings; simpl; split_and!; auto; lia|].
  split_and!; [by destruct m| |].
  - apply Forall_cons in Pr as [Pn Pr]. constructor; [done|]. rewrite tins_perm.
    constructor; [|done]. exact Pe.
  - pose proof (firings_retime now e Oe Hd Pe ltac:(done)).
    pose proof (total_firings_perm now _ _ (tins_perm (e.1, retime e.2 (time e.2)) rest)).
    unfold total_firings in *. simpl in *. lia.
Qed.

(** The pointer walk does what [fire_all] does on the list. *)
Lemma tmr_run_loop_spec call effect fuel now pre rest fl s :
  neutral call effect -> time_ok now ->
  (total_firings now rest < fuel)%nat ->
  Forall (period_ok now) rest ->
  timers_inv s (pre ++ rest) fl ->
  wp (tmr_run_loop call fuel now (first rest None))
    (fun _ s' => let '(tr, l) := fire_all fuel now pre rest in
       (exists fl', timers_inv s' l fl') /\
       world s' = fold_left (fun w e => effect e.2 now w) tr (world s)) s.
Proof.
  intros Hc Onow. revert pre rest fl s.
  induction fuel as [|fuel IH]; intros pre rest fl s Hfuel Hp I; [lia|].
  destruct rest as [|[t d] rest]; cbn [tmr_run_loop fire_all first]; [run; eauto|].
  pose proof (inv_lookup _ _ _ _ _ _ I) as Ht.
  pose proof (inv_ok _ _ _ I) as Ok. rewrite Forall_app, Forall_cons in Ok.
  destruct Ok as (_ & Ot & _). simpl in Ot.
  wp_step. eapply wp_load; [exact Ht|]. simpl. rewrite compare_spec by done.
  change (iperf_time_in_usecs (time d)) with (expiry (t, d)).
  destruct (Z.ltb_spec (iperf_time_in_usecs now) (expiry (t, d))) as [Hlt|Hge].
  { rewrite (proj2 (Z.ltb_lt _ _)) by lia. run. eauto. }
  rewrite (proj2 (Z.ltb_ge _ _)) by lia.
  wp_step. unfold wp at 1. rewrite Hc. wp_step. eapply wp_load; [exact Ht|]. wp_step.
  set (s1 := mk_tstate (heap s) (timers s) (free_timers s) (effect d now (world s))).
  assert (timers_inv s1 (pre ++ (t, d) :: rest) fl) as I1 by (by destruct I; split).
  eapply wp_mono; [apply (advance_inv pre t d rest fl s1 I1)|].
  simpl. intros _ s2.
  destruct (advance_rest now pre (t, d) rest Ot Hge Hp) as (Ef & Pr & Hm).
  destruct (advance pre (t, d) rest) as [pre' rest']. cbn [snd] in Ef, Pr, Hm.
  intros [[fl2 I2] Ew]. rewrite <- Ef.
  eapply wp_mono; [apply (IH pre' rest' fl2 s2); [lia|done|done]|].
  simpl. intros _ s3. destruct (fire_all fuel now pre' rest') as [tr l].
  intros [? Ew3]. simpl. split; [done|]. by rewrite Ew3, Ew.
Qed.

(** *** What [fire_all] fires *)

Lemma tsorted_cons e l : tsorted (e :: l) -> tsorted l /\ Forall (fun y => expiry e <= expiry y) l.
Proof. intros H. by inversion_clear H. Qed.

(** What the rest of the list is after one firing. *)
Lemma advance_elem pre e rest x :
  x ∈ (advance pre e rest).2 ->
  x ∈ rest \/ periodic e.2 <> 0 /\ x = (e.1, retime e.2 (time e.2)).
Proof.
  unfold advance. destruct (Z.eqb_spec (periodic e.2) 0); [by left|].
  destruct rest as [|m rest]; [by left|]. case_Z; [by left|].
  cbn [snd]. rewrite tins_perm. rewrite elem_of_cons. intros [->|Hx]; [right; done|by left].
Qed.

Lemma advance_keeps pre e rest x : x ∈ rest -> x ∈ (advance pre e rest).2.
Proof.
  unfold advance. case_Z; [done|]. destruct rest as [|m rest]; [done|].
  case_Z; [done|]. cbn [snd]. intros Hx. rewrite tins_perm. apply elem_of_cons. by right.
Qed.

Lemma advance_pre pre e rest x :
  x ∈ (advance pre e rest).1 -> x ∈ pre \/ periodic x.2 <> 0.
Proof.
  unfold advance. destruct (Z.eqb_spec (periodic e.2) 0); [by left|].
  destruct rest as [|m rest]; [|case_Z; [|by left]]; cbn [fst];
    rewrite tins_perm, elem_of_cons; intros [->|Hx]; auto.
Qed.

Lemma advance_sorted pre e rest :
  time_ok (time e.2) -> Forall (fun y => time_ok (time y.2)) rest -> tsorted (e :: rest) ->
  Forall (fun y => time_ok (time y.2)) (advance pre e rest).2 /\ tsorted (advance pre e rest).2.
Proof.
  intros Oe Or [Hs _]%tsorted_cons. unfold advance. case_Z; [done|].
  destruct rest as [|m rest]; [done|]. case_Z; [done|]. cbn [snd]. split.
  - rewrite tins_perm. constructor; [apply add_usecs_ok|done].
  - apply tins_sorted; [apply add_usecs_ok|done|done].
Qed.

Lemma run_timers_spec fuel now pre rest :
  Forall (fun y => time_ok (time y.2)) rest -> tsorted rest ->
  Forall (period_ok now) rest -> (total_firings now rest < fuel)%nat ->
  let '(tr, l) := fire_all fuel now pre rest in
  Forall (due now) tr /\
  (forall e, e ∈ rest -> due now e -> e ∈ tr) /\
  (forall e, e ∈ rest -> ~ due now e -> e ∈ l) /\
  (forall e, e ∈ l -> periodic e.2 = 0 -> e ∈ pre \/ e ∈ rest /\ ~ due now e).
Proof.
  revert pre rest. induction fuel as [|fuel IH]; intros pre rest Ho Hs Hp Hf; [lia|].
  destruct rest as [|e rest]; cbn [fire_all].
  { rewrite app_nil_r. split_and!; [by apply Forall_nil|by intros e ?%elem_of_nil..|auto]. }
  pose proof (tsorted_cons _ _ Hs) as [Hs' He]. inversion_clear Ho as [|? ? Oe Or].
  destruct (Z.ltb_spec (iperf_time_in_usecs now) (expiry e)) as [Hlt|Hge].
  { assert (forall x, x ∈ e :: rest -> ~ due now x) as Hnd.
    { intros x Hx. unfold due. apply elem_of_cons in Hx as [->|Hx]; [lia|].
      rewrite Forall_forall in He. specialize (He x Hx). lia. }
    split_and!; [by apply Forall_nil| | |].
    - intros x Hx Hd. by destruct (Hnd x Hx).
    - intros x Hx _. rewrite elem_of_app. auto.
    - intros x [Hx|Hx]%elem_of_app _; auto. }
  pose proof (advance_rest now pre e rest Oe Hge Hp) as (_ & Pr & Hm).
  pose proof (advance_sorted pre e rest Oe Or Hs) as [Or' Hs''].
  pose proof (advance_elem pre e rest) as Hel. pose proof (advance_keeps pre e rest) as Hk.
  pose proof (advance_pre pre e rest) as Hpre.
  destruct (advance pre e rest) as [pre' rest']. cbn [fst snd] in *.
  specialize (IH pre' rest' Or' Hs'' Pr ltac:(lia)).
  destruct (fire_all fuel now pre' rest') as [tr l]. destruct IH as (H1 & H2 & H3 & H4).
  split_and!.
  - by constructor.
  - intros x [->|Hx]%elem_of_cons Hd; rewrite elem_of_cons; auto.
  - intros x [->|Hx]%elem_of_cons Hd; [done|auto].
  - intros x Hx Hx0. destruct (H4 x Hx Hx0) as [Hx'|[Hx' Hnd]].
    + destruct (Hpre x Hx') as [?|?]; [by left|done].
    + destruct (Hel x Hx') as [?|[Hne ->]]; [right; rewrite elem_of_cons; auto|done].
Qed.

(** *** Theorems *)

(** The calls a client can make. *)
Inductive timer_op :=
| OpCreate (nowP : option iperf_time) (clock : iperf_time) (m : option (loc * Timer))
    (proc : TimerProc) (cd : ClientData) (us per : Z)
| OpReset (nowP : option iperf_time) (clock : iperf_time) (t : loc)
| OpCancel (t : loc)
| OpCleanup.

Definition exec_op (o : timer_op) : TM unit :=
  match o with
  | OpCreate nowP clock m proc cd us per => tmr_create nowP clock m proc cd us per ;;; ret tt
  | OpReset nowP clock t => tmr_reset nowP clock t
  | OpCancel t => tmr_cancel t
  | OpCleanup => tmr_cleanup
  end.

Fixpoint exec_ops (os : list timer_op) : TM unit :=
  match os with
  | [] => ret tt
  | o :: os => exec_op o ;;; exec_ops os
  end.

Definition active (s : tstate) (t : loc) : Prop :=
  exists l fl, timers_inv s l fl /\ t ∈ locs l.

(** The discipline of the interface: memory from the allocator is unused, and
    a timer that is reset or cancelled is active. *)
Definition allowed (o : timer_op) (s : tstate) : Prop :=
  match o with
  | OpCreate _ _ m _ _ _ _ => forall t junk, m = Some (t, junk) -> heap s !! t = None
  | OpReset _ _ t | OpCancel t => active s t
  | OpCleanup => True
  end.

Fixpoint all_allowed (os : list timer_op) (s : tstate) : Prop :=
  match os with
  | [] => True
  | o :: os => allowed o s /\ forall s', exec_op o s = Ret (tt, s') -> all_allowed os s'
  end.

Lemma first_none l : first l None = None -> l = [].
Proof. by destruct l as [|[]]. Qed.

(** The pointers determine the list. *)
Lemma dseg_unique h p l1 l2 :
  dseg h p l1 None -> dseg h p l2 None -> first l1 None = first l2 None -> l1 = l2.
Proof.
  revert p l2. induction l1 as [|[x d] l1 IH]; intros p [|[y e] l2] H1 H2 E; simpl in *;
    simplify_eq; [done|].
  destruct H1 as [Hx H1], H2 as [Hy H2]. simplify_eq. f_equal. eapply IH; eauto.
Qed.

Lemma active_split s l fl t : timers_inv s l fl -> active s t -> exists l1 d l2, l = l1 ++ (t, d) :: l2.
Proof.
  intros I (l' & fl' & I' & Ht).
  assert (l = l') as ->.
  { eapply dseg_unique; [apply I|apply I'|]. rewrite <- (inv_head _ _ _ I). apply I'. }
  rewrite locs_fmap in Ht. apply list_elem_of_fmap in Ht as ([y d] & -> & Hin).
  apply list_elem_of_split in Hin as (l1 & l2 & ->). eauto.
Qed.

Lemma exec_op_inv o s l fl :
  timers_inv s l fl -> allowed o s ->
  wp (exec_op o) (fun _ s' => exists l' fl', timers_inv s' l' fl') s.
Proof.
  intros I Ha. destruct o as [nowP clock m proc cd us per|nowP clock t|t|]; simpl in *.
  - wp_step. eapply wp_mono; [by apply (tmr_create_inv s l fl)|].
    intros [t|] s'; intros H; wp_step; [|destruct H as (_ & _ & ->); eauto].
    destruct H as (fl' & I' & _). eauto.
  - destruct (active_split _ _ _ _ I Ha) as (l1 & d & l2 & ->).
    eapply wp_mono; [by apply (tmr_reset_inv s l1 t d l2 fl)|]. simpl. intros _ s' [? _]. eauto.
  - destruct (active_split _ _ _ _ I Ha) as (l1 & d & l2 & ->).
    eapply wp_mono; [by apply (tmr_cancel_inv s l1 t d l2 fl)|]. simpl. intros _ s' [? _]. eauto.
  - eapply wp_mono; [by apply (tmr_cleanup_inv s l fl)|]. simpl. intros _ s' [? _]. eauto.
Qed.

(** Memory safety and the list invariant.  Any sequence of calls that
    follows the interface runs without a null, dangling or stray access and
    within its loop bounds, and ends with the active timers in a doubly linked
    list sorted by expiry time, disjoint from the free list, and no other node
    allocated. *)
Theorem timer_ops_safe os s l fl :
  timers_inv s l fl -> all_allowed os s ->
  exists s' l' fl', exec_ops os s = Ret (tt, s') /\ timers_inv s' l' fl'.
Proof.
  revert s l fl. induction os as [|o os IH]; intros s l fl I Ha; simpl; [exists s, l, fl; done|].
  destruct Ha as [Ha Has].
  destruct (wp_returns _ _ _ (exec_op_inv o s l fl I Ha)) as ([] & s' & E & l' & fl' & I').
  destruct (IH s' l' fl' I' (Has s' E)) as (s'' & l'' & fl'' & E'' & I'').
  exists s'', l'', fl''. split; [|done]. unfold bind. by rewrite E.
Qed.

(** [tmr_create] takes a recycled node if there is one and memory otherwise,
    fails only when there is neither, and otherwise inserts the new timer behind
    all active timers that expire no later, at [now + usecs]. *)
Theorem tmr_create_sorted s l fl nowP clock m proc cd us per :
  timers_inv s l fl ->
  (forall t junk, m = Some (t, junk) -> heap s !! t = None) ->
  exists r s', tmr_create nowP clock m proc cd us per s = Ret (r, s') /\
    match r with
    | None => fl = [] /\ m = None /\ s' = s
    | Some t => exists fl',
        timers_inv s' (tins (t, new_data (getnow nowP clock) proc cd us per) l) fl' /\
        world s' = world s /\
        (fl = t :: fl' \/ fl = [] /\ fl' = [] /\ heap s !! t = None)
    end.
Proof. intros I Hm. apply wp_returns, (tmr_create_inv s l fl); done. Qed.

(** [tmr_timeout] is NULL exactly without active timers; otherwise it is the
    time until the earliest of them all expires, zero when that has passed, as
    a normalised pair of seconds and microseconds. *)
Theorem tmr_timeout_earliest s l fl nowP clock :
  timers_inv s l fl -> time_ok (getnow nowP clock) ->
  exists r, tmr_timeout nowP clock s = Ret (r, s) /\
    match r with
    | None => l = []
    | Some (sec, usec) =>
        exists e, e ∈ l /\ Forall (fun y => expiry e <= expiry y) l /\
          0 <= usec < 1000000 /\
          sec * 1000000 + usec
          = Z.max 0 (expiry e - iperf_time_in_usecs (getnow nowP clock))
    end.
Proof.
  intros I On. unfold tmr_timeout, bind, gets. rewrite (inv_head _ _ _ I).
  destruct l as [|[t d] l]; simpl; [by exists None|].
  pose proof (inv_lookup _ [] _ _ _ _ I) as Ht. unfold load. rewrite Ht. simpl.
  pose proof (inv_ok _ _ _ I) as Ok. apply Forall_cons in Ok as [Ot _]. simpl in Ot.
  pose proof (diff_spec _ _ Ot On) as Hd.
  destruct (iperf_time_diff (time d) (getnow nowP clock)) as [df past].
  destruct Hd as (_ & Hus & ->). eexists. split; [reflexivity|]. simpl.
  exists (t, d). pose proof (inv_sorted _ _ _ I) as [_ Hs]%tsorted_cons.
  split_and!; [by left|constructor; [reflexivity|done]|apply Z.mod_pos_bound; lia..|].
  unfold expiry. simpl. set (N := iperf_time_in_usecs (getnow nowP clock)) in *.
  set (D := iperf_time_in_usecs (time d)) in *.
  destruct (Z.leb_spec D N); [change (1 =? 0) with false|change (0 =? 0) with true]; cbv iota.
  { rewrite Z.div_0_l, Z.mod_0_l by lia. lia. }
  pose proof (Z.div_mod (iperf_time_in_usecs df) 1000000). lia.
Qed.

(** [tmr_destroy] frees every node, active or recycled, and leaves both
    lists empty. *)
Theorem tmr_destroy_frees_all s l fl :
  timers_inv s l fl ->
  exists s', tmr_destroy s = Ret (tt, s') /\
    heap s' = ∅ /\ timers s' = None /\ free_timers s' = None /\ world s' = world s.
Proof.
  intros I. assert (wp tmr_destroy (fun _ s' => timers_inv s' [] [] /\ world s' = world s) s) as Hw.
  { unfold tmr_destroy. run. eapply wp_mono.
    - apply (tmr_destroy_loop_inv _ s l fl); [|done]. pose proof (inv_size _ _ _ I). lia.
    - simpl. intros _ s1 [[fl1 I1] Ew]. eapply wp_mono; [by apply (tmr_cleanup_inv s1 [] fl1)|].
      simpl. intros _ s2 [? Ew2]. split; [done|congruence]. }
  apply wp_returns in Hw as ([] & s' & E & I' & Ew). exists s'. split; [done|].
  split_and!; [|apply I'|apply I'|done]. apply map_empty. intros x.
  destruct (heap s' !! x) as [n|] eqn:Ex; [|done].
  pose proof (inv_dom _ _ _ I' x) as Hx. rewrite Ex in Hx. simpl in Hx.
  destruct (proj1 (elem_of_nil x) (Hx (ex_intro _ n eq_refl))).
Qed.

(** C40: the timers that are due fire.  With callbacks that leave the timers
    alone and positive periods, [tmr_run] returns within as many iterations as
    the due timers can fire, the callbacks it makes are those of a sequence
    [tr] of due timers, every timer that was due is in it, a due one-shot timer
    is no longer active afterwards, a timer that was not due still is, and the
    list invariant holds again. *)
Theorem tmr_run_fires_due call effect fuel now clock s l fl :
  neutral call effect -> timers_inv s l fl -> time_ok now -> Forall (period_ok now) l ->
  (total_firings now l < fuel)%nat ->
  exists s' tr l' fl',
    tmr_run call fuel (Some now) clock s = Ret (tt, s') /\
    world s' = fold_left (fun w e => effect e.2 now w) tr (world s) /\
    Forall (due now) tr /\
    (forall e, e ∈ l -> due now e -> e ∈ tr) /\
    timers_inv s' l' fl' /\
    (forall e, e ∈ l' -> periodic e.2 = 0 -> ~ due now e) /\
    (forall e, e ∈ l -> ~ due now e -> e ∈ l').
Proof.
  intros Hc I On Hp Hf.
  pose proof (run_timers_spec fuel now [] l (inv_ok _ _ _ I) (inv_sorted _ _ _ I) Hp Hf) as Hr.
  pose proof (tmr_run_loop_spec call effect fuel now [] l fl s Hc On Hf Hp I) as Hw.
  rewrite <- (inv_head _ _ _ I) in Hw. apply wp_returns in Hw as ([] & s' & E & Hw).
  destruct (fire_all fuel now [] l) as [tr l']. destruct Hr as (H1 & H2 & H3 & H4).
  destruct Hw as [[fl' I'] Ew]. exists s', tr, l', fl'. split_and!; try done.
  intros e He H0. destruct (H4 e He H0) as [?%elem_of_nil|[_ ?]]; done.
Qed.

End Timer.

(** ** Witnesses *)

(** A client whose callbacks log their client data, and one active periodic timer. *)
Definition log_call (_ : unit) (cd : Z) (_ : iperf_time) : TM (TimerProc := unit) (ClientData := Z) unit :=
  modify (fun s => mk_tstate (heap s) (timers s) (free_timers s) (world s ++ [cd])).

Definition log_effect (d : tdata (TimerProc := unit)) (_ : iperf_time) (w : list Z) : list Z :=
  w ++ [client_data d].

Definition wit_data : tdata := mk_tdata tt 7 1000000 1 (mk_time 5 0).

Definition wit_state : tstate :=
  mk_tstate {[1%positive := mk_Timer wit_data None None]} (Some 1%positive) None ([] : list Z).

Lemma wit_inv : timers_inv wit_state [(1%positive, wit_data)] [].
Proof.
  split; try done.
  - repeat constructor. set_solver.
  - intros x [n Hx]. simpl in *. apply lookup_singleton_Some in Hx as [<- _]. by left.
  - repeat constructor; simpl; lia.
  - repeat constructor.
Qed.

Lemma log_call_neutral : neutral log_call log_effect.
Proof. intros d now s. done. Qed.

Lemma tmr_run_fires_due_witness :
  exists s' tr l' fl',
    tmr_run log_call 4 (Some (mk_time 7 5)) (mk_time 0 0) wit_state = Ret (tt, s') /\
    world s' = fold_left (fun w e => log_effect e.2 (mk_time 7 5) w) tr [] /\
    Forall (due (mk_time 7 5)) tr /\
    (forall e, e ∈ [(1%positive, wit_data)] -> due (mk_time 7 5) e -> e ∈ tr) /\
    timers_inv s' l' fl' /\
    (forall e, e ∈ l' -> periodic e.2 = 0 -> ~ due (mk_time 7 5) e) /\
    (forall e, e ∈ [(1%positive, wit_data)] -> ~ due (mk_time 7 5) e -> e ∈ l').
Proof.
  apply (tmr_run_fires_due log_call log_effect 4 (mk_time 7 5) (mk_time 0 0) wit_state
    [(1%positive, wit_data)] []).
  - exact log_call_neutral.
  - exact wit_inv.
  - split; simpl; lia.
  - repeat constructor; simpl; unfold time_range; cbn; lia.
  - vm_compute. lia.
Defined.

Lemma timer_ops_safe_witness :
  exists s' l' fl',
    exec_ops [OpReset None (mk_time 6 0) 1%positive; OpCreate None (mk_time 6 0) None tt 9 3 0]
      wit_state = Ret (tt, s') /\ timers_inv s' l' fl'.
Proof.
  apply (timer_ops_safe _ wit_state [(1%positive, wit_data)] []); [exact wit_inv|].
  split; [|intros s' _; split; done].
  exists [(1%positive, wit_data)], []. split; [exact wit_inv|by left].
Defined.

Lemma tmr_create_sorted_witness :
  exists r s',
    tmr_create None (mk_time 3 0) (Some (2%positive, mk_Timer wit_data None None)) tt 8 500 0 wit_state
    = Ret (r, s') /\
    match r with
    | None => @nil loc = [] /\ Some (2%positive, mk_Timer wit_data None None) = None /\ s' = wit_state
    | Some t => exists fl',
        timers_inv s' (tins (t, new_data (mk_time 3 0) tt 8 500 0) [(1%positive, wit_data)]) fl' /\
        world s' = world wit_state /\
        ([] = t :: fl' \/ @nil loc = [] /\ fl' = [] /\ heap wit_state !! t = None)
    end.
Proof.
  apply (tmr_create_sorted wit_state [(1%positive, wit_data)] [] None (mk_time 3 0)
    (Some (2%positive, mk_Timer wit_data None None)) tt 8 500 0); [exact wit_inv|].
  intros t junk [= <- <-]. reflexivity.
Defined.

Lemma tmr_timeout_earliest_witness :
  exists r, tmr_timeout None (mk_time 3 0) wit_state = Ret (r, wit_state) /\
    match r with
    | None => [(1%positive, wit_data)] = []
    | Some (sec, usec) =>
        exists e, e ∈ [(1%positive, wit_data)] /\
          Forall (fun y => expiry e <= expiry y) [(1%positive, wit_data)] /\
          0 <= usec < 1000000 /\
          sec * 1000000 + usec = Z.max 0 (expiry e - iperf_time_in_usecs (mk_time 3 0))
    end.
Proof.
  apply (tmr_timeout_earliest wit_state [(1%positive, wit_data)] [] None (mk_time 3 0));
    [exact wit_inv|split; simpl; lia].
Defined.

Lemma tmr_destroy_frees_all_witness :
  exists s', tmr_destroy wit_state = Ret (tt, s') /\
    heap s' = ∅ /\ timers s' = None /\ free_timers s' = None /\ world s' = world wit_state.
Proof. apply (tmr_destroy_frees_all wit_state [(1%positive, wit_data)] []). exact wit_inv. Defined.
