(* ===== verification/Double.v ===== *)
(** * Doubles

    The C type [double] as the binary64 numbers of the standard library's
    executable IEEE 754 specification, with the conversions the code uses:
    from and to integers and from decimal text ([strtod]). *)

From Stdlib Require Export SpecFloat.
From S2P Require Import Prelude Bytes.

Definition double : Set := spec_float.

Definition D_add : double -> double -> double := SFadd 53 1024.
Definition D_sub : double -> double -> double := SFsub 53 1024.
Definition D_mul : double -> double -> double := SFmul 53 1024.
Definition D_div : double -> double -> double := SFdiv 53 1024.
Definition D_opp : double -> double := SFopp.
Definition D_ltb : double -> double -> bool := SFltb.
Definition D_leb : double -> double -> bool := SFleb.
Definition D_eqb : double -> double -> bool := SFeqb.

(** The nearest double of an integer. *)
Definition D_of_Z (z : Z) : double := binary_normalize 53 1024 z 0 false.

Definition D_zero : double := S754_zero false.

(** Truncation towards zero; 0 where the C conversion is undefined. *)
Definition D_trunc (d : double) : Z :=
  match d with
  | S754_finite s m e =>
      let a := if 0 <=? e then Zpos m * 2 ^ e else Zpos m / 2 ^ (- e) in
      if s then - a else a
  | _ => 0
  end.

(** ** [strtod] on decimal numbers

    The syntax is an optional sign, digits with at most one point among them
    and at least one digit, and an optional exponent with at least one digit.
    Blanks, infinities, NaNs and hexadecimal numbers are not needed: the
    callers pass text of the characters [0-9+-.eE] only. *)

Definition is_digit (c : Z) : bool := (c_0 <=? c) && (c <=? c_9).

(** The digits at the start of a text: their value after [acc], and their number. *)
Fixpoint take_digits (acc : Z) (n : nat) (l : list Z) : Z * nat * list Z :=
  match l with
  | c :: l' => if is_digit c then take_digits (acc * 10 + (c - c_0)) (S n) l' else (acc, n, l)
  | [] => (acc, n, [])
  end.

Definition take_sign (l : list Z) : bool * nat * list Z :=
  match l with
  | c :: l' =>
      if c =? c_minus then (true, 1%nat, l')
      else if c =? c_plus then (false, 1%nat, l')
      else (false, 0%nat, l)
  | [] => (false, 0%nat, [])
  end.

(** The exponent and the number of characters it takes; none without digits. *)
Definition take_exponent (l : list Z) : Z * nat :=
  match l with
  | c :: l' =>
      if (c =? c_e) || (c =? c_E) then
        let '(neg, ns, l') := take_sign l' in
        let '(e, n, _) := take_digits 0 0 l' in
        match n with
        | O => (0, 0%nat)
        | S _ => ((if neg then - e else e), S (ns + n))
        end
      else (0, 0%nat)
  | [] => (0, 0%nat)
  end.

(** [(-1)^neg * m * 10^e], correctly rounded.  Far beyond the range of the
    format the result is known without computing the power. *)
Definition decimal (neg : bool) (m e : Z) : double :=
  match m with
  | Zpos p =>
      let magnitude := Z.log2 m / 3 + e in
      if 400 <? e + Z.log2 m / 4 then S754_infinity neg
      else if magnitude <? -400 then S754_zero neg
      else
        let r := if 0 <=? e then binary_normalize 53 1024 (m * 10 ^ e) 0 false
                 else SFdiv 53 1024 (S754_finite false p 0)
                        (S754_finite false (Z.to_pos (10 ^ (- e))) 0) in
        if neg then SFopp r else r
  | _ => S754_zero neg
  end.

(** The number and how many characters were used; no characters for no number. *)
Definition strtod (l : list Z) : double * nat :=
  let '(neg, ns, l1) := take_sign l in
  let '(m1, n1, l2) := take_digits 0 0 l1 in
  let '(m, n, nd, l3) :=
    match l2 with
    | c :: l' =>
        if c =? c_dot then
          let '(m2, n2, l3) := take_digits m1 0 l' in
          match (n1 + n2)%nat with
          | O => (m1, n1, 0%nat, l2)
          | S _ => (m2, (n1 + n2)%nat, S n2, l3)
          end
        else (m1, n1, 0%nat, l2)
    | [] => (m1, n1, 0%nat, l2)
    end in
  match n with
  | O => (D_zero, 0%nat)
  | S _ =>
      let '(e, ne) := take_exponent l3 in
      (decimal neg m (e - Z.of_nat (Nat.pred nd)), (ns + n1 + nd + ne)%nat)
  end.

(** ** Small integers are represented exactly *)

Lemma digits2_size m : let k := Zpos (digits2_pos m) in 2 ^ (k - 1) <= Zpos m < 2 ^ k.
Proof.
  cbv zeta. induction m as [m IH|m IH|]; cbn [digits2_pos]; [| |done];
    rewrite Pos2Z.inj_succ; replace (Z.succ (Z.pos (digits2_pos m)) - 1) with (Z.succ (Z.pos (digits2_pos m) - 1)) by lia;
    rewrite !Z.pow_succ_r by lia; lia.
Qed.

Lemma digits2_unique m k : 2 ^ (k - 1) <= Zpos m < 2 ^ k -> 1 <= k -> Zpos (digits2_pos m) = k.
Proof.
  intros Hm Hk. pose proof (digits2_size m) as Hd. cbv zeta in Hd. set (d := Z.pos (digits2_pos m)) in *.
  destruct (Z.lt_trichotomy d k) as [H|[H|H]]; [exfalso|done|exfalso].
  - assert (2 ^ d <= 2 ^ (k - 1)) by (apply Z.pow_le_mono_r; lia). lia.
  - assert (2 ^ k <= 2 ^ (d - 1)) by (apply Z.pow_le_mono_r; lia). lia.
Qed.

Lemma iter_double m d : Zpos (Pos.iter xO m d) = Zpos m * 2 ^ Zpos d.
Proof.
  revert m. induction d as [|d IH] using Pos.peano_ind; intros m.
  - change (Pos.iter xO m 1) with (xO m). lia.
  - rewrite Pos.iter_succ, Pos2Z.inj_succ, Z.pow_succ_r by lia. rewrite (Pos2Z.inj_xO (Pos.iter xO m d)), IH. ring.
Qed.

(** A mantissa of 53 digits needs no rounding. *)
Lemma binary_round_aux_exact s m e : Zpos (digits2_pos m) = 53 -> -1074 <= e <= 971 ->
  binary_round_aux 53 1024 s (Zpos m) e loc_Exact = S754_finite s m e.
Proof.
  intros Hd He. unfold binary_round_aux, shr_fexp. cbn [shr_record_of_loc].
  assert (fexp 53 1024 (Zdigits2 (Zpos m) + e) - e = 0) as E.
  { cbn [Zdigits2]. rewrite Hd. unfold fexp, emin. lia. }
  rewrite E. cbn [shr shr_m loc_of_shr_record round_nearest_even shr_record_of_loc]. rewrite E.
  cbn [shr shr_m]. rewrite (proj2 (Z.leb_le e (1024 - 53))) by lia. done.
Qed.

(** The double of a positive integer below [2^53]. *)
Lemma binary_round_small s m : Zpos m < 2 ^ 53 -> exists m' e,
  binary_round 53 1024 s m 0 = S754_finite s m' e /\ -52 <= e <= 0 /\ Zpos m' = Zpos m * 2 ^ (- e) /\ Zpos (digits2_pos m') = 53.
Proof.
  intros Hm. pose proof (digits2_size m) as Hd. cbv zeta in Hd. set (k := Z.pos (digits2_pos m)) in *.
  assert (1 <= k) by (unfold k; lia).
  assert (k <= 53). { destruct (Z.le_gt_cases k 53); [done|]. assert (2 ^ 53 <= 2 ^ (k - 1)) by (apply Z.pow_le_mono_r; lia). lia. }
  unfold binary_round. fold k. replace (fexp 53 1024 (k + 0)) with (k - 53) by (unfold fexp, emin; lia).
  set (m' := if k =? 53 then m else Pos.iter xO m (Z.to_pos (53 - k))).
  assert (shl_align m 0 (k - 53) = (m', k - 53)) as ->.
  { unfold shl_align, m'. rewrite Z.sub_0_r. destruct (Z.eqb_spec k 53) as [->|E]; [done|].
    destruct (k - 53) as [|p|p] eqn:Ek; [lia|lia|]. f_equal. f_equal. lia. }
  assert (Zpos m' = Zpos m * 2 ^ (53 - k)) as Em.
  { unfold m'. destruct (Z.eqb_spec k 53) as [->|E]; [change (2 ^ (53 - 53)) with 1; lia|].
    rewrite iter_double, Z2Pos.id by lia. done. }
  assert (Zpos (digits2_pos m') = 53) as Hd'.
  { apply digits2_unique; [|lia]. rewrite Em. assert (0 < 2 ^ (53 - k)) by (apply Z.pow_pos_nonneg; lia).
    assert (2 ^ (53 - 1) = 2 ^ (k - 1) * 2 ^ (53 - k)) as -> by (rewrite <- Z.pow_add_r by lia; f_equal; lia).
    assert (2 ^ 53 = 2 ^ k * 2 ^ (53 - k)) as -> by (rewrite <- Z.pow_add_r by lia; f_equal; lia). nia. }
  exists m', (k - 53). split; [by apply binary_round_aux_exact; [|lia]|]. split; [lia|].
  split; [rewrite Em; do 2 f_equal; lia|done].
Qed.

Lemma D_of_Z_small n : Z.abs n < 2 ^ 53 -> n = 0 /\ D_of_Z n = S754_zero false \/
  exists m e, D_of_Z n = S754_finite (n <? 0) m e /\ -52 <= e <= 0 /\ Zpos m = Z.abs n * 2 ^ (- e) /\ Zpos (digits2_pos m) = 53.
Proof.
  intros Hn. destruct n as [|p|p]; [by left|right..]; unfold D_of_Z, binary_normalize; apply binary_round_small; lia.
Qed.

Lemma D_trunc_of_Z n : Z.abs n < 2 ^ 53 -> D_trunc (D_of_Z n) = n.
Proof.
  intros Hn. destruct (D_of_Z_small n Hn) as [[-> ->]|(m & e & -> & He & Em & _)]; [done|].
  unfold D_trunc. cbv zeta. assert ((if 0 <=? e then Z.pos m * 2 ^ e else Z.pos m / 2 ^ (- e)) = Z.abs n) as ->.
  { rewrite Em. assert (0 < 2 ^ (- e)) by (apply Z.pow_pos_nonneg; lia). destruct (Z.leb_spec 0 e).
    - replace e with 0 by lia. change (2 ^ - 0) with 1. change (2 ^ 0) with 1. lia.
    - apply Z.div_mul. lia. }
  destruct (Z.ltb_spec n 0); lia.
Qed.

Lemma D_eqb_refl d : match d with S754_nan => False | _ => True end -> D_eqb d d = true.
Proof.
  intros H. unfold D_eqb, SFeqb. destruct d as [|[]| |s m e]; try done. cbn [SFcompare]. rewrite Z.compare_refl.
  assert (Pos.compare_cont Eq m m = Eq) as -> by apply Pos.compare_refl. by destruct s.
Qed.

Lemma D_of_Z_valid n : Z.abs n < 2 ^ 53 -> valid_binary 53 1024 (D_of_Z n) = true.
Proof.
  intros Hn. destruct (D_of_Z_small n Hn) as [[-> ->]|(m & e & -> & He & _ & Hd)]; [done|].
  cbn [valid_binary]. unfold bounded, canonical_mantissa. rewrite Hd. unfold fexp, emin.
  rewrite (proj2 (Z.eqb_eq _ _)), (proj2 (Z.leb_le _ _)) by lia. done.
Qed.

(** ** Integers among the doubles *)

Lemma D_of_Z_le a n : 0 <= a < 2 ^ 53 -> 0 <= n < 2 ^ 53 -> D_leb (D_of_Z a) (D_of_Z n) = true -> a <= n.
Proof.
  intros Ha Hn H. destruct (D_of_Z_small a) as [[-> _]|(m1 & e1 & E1 & He1 & Em1 & Hd1)]; [lia|lia|].
  rewrite E1, (proj2 (Z.ltb_ge a 0)) in H by lia.
  destruct (D_of_Z_small n) as [[-> E2]|(m2 & e2 & E2 & He2 & Em2 & Hd2)]; [lia|by rewrite E2 in H|].
  rewrite E2, (proj2 (Z.ltb_ge n 0)) in H by lia. rewrite !Z.abs_eq in * by lia.
  pose proof (digits2_size m1) as S1. pose proof (digits2_size m2) as S2. cbv zeta in S1, S2. rewrite Hd1 in S1. rewrite Hd2 in S2. cbn in S1, S2.
  assert (0 < 2 ^ (- e1)) by (apply Z.pow_pos_nonneg; lia). assert (0 < 2 ^ (- e2)) by (apply Z.pow_pos_nonneg; lia).
  unfold D_leb, SFleb in H. cbn [SFcompare] in H. destruct (Z.compare_spec e1 e2) as [->|Hlt|Hgt]; [|clear H|done].
  - assert (Zpos m1 <= Zpos m2) as Hm by (change (Pos.compare_cont Eq m1 m2) with (Pos.compare m1 m2) in H; destruct (Pos.compare_spec m1 m2); [subst; lia|lia|done]).
    rewrite Em1, Em2 in Hm. nia.
  - assert (2 ^ (- e1) = 2 ^ (- e2) * 2 ^ (e2 - e1)) as Ep by (rewrite <- Z.pow_add_r by lia; f_equal; lia).
    assert (2 <= 2 ^ (e2 - e1)) by (change 2 with (2 ^ 1) at 1; apply Z.pow_le_mono_r; lia).
    rewrite Em1, Ep in S1. rewrite Em2 in S2. destruct (Z.le_gt_cases a n); [done|]. nia.
Qed.

(** A double that is equal to a small integer is its double, but for the sign of zero. *)
Lemma D_eqb_small n d : Z.abs n < 2 ^ 53 -> D_eqb (D_of_Z n) d = true -> d = D_of_Z n \/ n = 0 /\ exists s, d = S754_zero s.
Proof.
  intros Hn H. destruct (D_of_Z_small n Hn) as [[-> E]|(m & e & E & He & Em & Hd)]; rewrite E in *; unfold D_eqb, SFeqb in H.
  - right. split; [done|]. destruct d as [s|[]| |[] ? ?]; try done. by exists s.
  - left. destruct d as [s|[]| |s m' e']; cbn [SFcompare] in H; try (by destruct (n <? 0)).
    change (Pos.compare_cont Eq m m') with (Pos.compare m m') in H.
    destruct (Z.compare_spec e e') as [Ee|?|?]; [|by destruct (n <? 0), s..].
    destruct (Pos.compare_spec m m') as [Emm|?|?]; [|by destruct (n <? 0), s..]. rewrite Ee, Emm. by destruct (n <? 0), s.
Qed.

(** An integral double between two integers below [2^53]. *)
Lemma D_integer_between a d : 0 <= a < 2 ^ 53 -> valid_binary 53 1024 d = true ->
  D_leb (D_of_Z a) d = true -> D_leb d (D_of_Z 9007199254740991) = true -> D_eqb (D_of_Z (D_trunc d)) d = true ->
  a <= D_trunc d < 2 ^ 53.
Proof.
  intros Ha Hv H1 H2 H3. assert (0 <= D_trunc d < 2 ^ 53) as Hn.
  { destruct d as [s|s| |s m e]; [done|by destruct s|done|]. cbn [D_trunc]. cbv zeta.
    assert (Zpos m < 2 ^ 53) as Hm.
    { cbn [valid_binary] in Hv. unfold bounded, canonical_mantissa in Hv. apply andb_true_iff in Hv as [Hv _]. apply Z.eqb_eq in Hv.
      pose proof (digits2_size m) as Hs. cbv zeta in Hs. unfold fexp, emin in Hv.
      assert (Zpos (digits2_pos m) <= 53) by lia. assert (2 ^ Zpos (digits2_pos m) <= 2 ^ 53) by (apply Z.pow_le_mono_r; lia). lia. }
    assert (D_of_Z 9007199254740991 = S754_finite false 9007199254740991 0) as E by reflexivity. rewrite E in H2.
    destruct s.
    - destruct (D_of_Z_small a) as [[-> Ea]|(m1 & e1 & Ea & _)]; [lia|rewrite Ea in H1..]; [done|]. by rewrite (proj2 (Z.ltb_ge a 0)) in H1 by lia.
    - unfold D_leb, SFleb in H2. cbn [SFcompare] in H2. destruct (Z.leb_spec 0 e).
      + destruct (Z.compare_spec e 0) as [->|?|?]; [|lia|done]. change (2 ^ 0) with 1. lia.
      + assert (0 < 2 ^ (- e)) by (apply Z.pow_pos_nonneg; lia). split; [apply Z.div_pos; lia|].
        apply Z.div_lt_upper_bound; [done|]. nia. }
  split; [|lia]. destruct (D_eqb_small (D_trunc d) d ltac:(lia) H3) as [E|[E _]].
  - apply (D_of_Z_le a (D_trunc d)); [done|done|by rewrite <- E].
  - destruct (D_of_Z_small a) as [[-> Ea]|(m1 & e1 & Ea & _)]; [lia|lia|]. rewrite Ea, (proj2 (Z.ltb_ge a 0)) in H1 by lia.
    destruct d as [s|s| |s m e]; try done; [by destruct s|]. pose proof H3 as H3'. rewrite E in H3'. cbn in H3'. by destruct s.
Qed.
