(* ===== verification/JsonGrammar.v ===== *)
(** * The JSON grammar

    The language the bounded reader accepts, as relations on byte sequences:
    what a value looks like on the wire (with blanks) and in compact form.
    It is the abstract specification of the scanner, and what cJSON is shown
    to accept. *)

From S2P Require Import Prelude Bytes.

Definition blank (c : Z) : Prop := c = c_space \/ c = c_tab \/ c = c_cr \/ c = c_nl.
Definition blanks (l : list Z) : Prop := Forall blank l.

(** ** Strings *)

(** Four hexadecimal digits. *)
Definition hexval (c : Z) : option Z :=
  if (c_0 <=? c) && (c <=? c_9) then Some (c - c_0)
  else if (c_a <=? c) && (c <=? c_f) then Some (c - c_a + 10)
  else if (c_A <=? c) && (c <=? c_F) then Some (c - c_A + 10)
  else None.

Inductive hexes : list Z -> Z -> Prop :=
| hexes_nil : hexes [] 0
| hexes_snoc l v c d : hexes l v -> hexval c = Some d -> hexes (l ++ [c]) (v * 16 + d).

Lemma hexval_range c d : hexval c = Some d -> 0 <= d < 16.
Proof. unfold hexval. repeat case_match; intros; simplify_eq; rewrite !andb_true_iff, !Z.leb_le in *; lia. Qed.

Lemma hexes_range l v : hexes l v -> 0 <= v < 16 ^ zlen l.
Proof.
  induction 1 as [|l v c d _ IH Hc]; [by cbn|]. apply hexval_range in Hc.
  pose proof (zlen_nonneg l). autorewrite with zlen. rewrite Z.pow_add_r by lia. lia.
Qed.

Definition hex4s (l : list Z) (v : Z) : Prop := List.length l = 4%nat /\ hexes l v.

Definition high_surrogate (v : Z) : Prop := 55296 <= v <= 56319.
Definition low_surrogate (v : Z) : Prop := 56320 <= v <= 57343.
Definition surrogate (v : Z) : Prop := 55296 <= v <= 57343.

(** The scalar a simple escape character stands for. *)
Definition escape_scalar (c : Z) : option Z :=
  if (c =? c_quote) || (c =? c_bslash) || (c =? c_slash) then Some c
  else if c =? c_b then Some c_bs
  else if c =? c_f then Some c_ff
  else if c =? c_n then Some c_nl
  else if c =? c_r then Some c_cr
  else if c =? c_t then Some c_tab
  else None.

(** The bytes that continue a UTF-8 sequence, with the payload so far. *)
Inductive continued : Z -> list Z -> Z -> Prop :=
| continued_nil v : continued v [] v
| continued_cons v c l w :
    128 <= c <= 191 -> continued (Z.lor (u32 (Z.shiftl v 6)) (Z.land c 63)) l w ->
    continued v (c :: l) w.

(** A multi-byte UTF-8 sequence of a scalar value, in its shortest form. *)
Inductive multibyte : list Z -> Z -> Prop :=
| multi2 c l v :
    194 <= c <= 223 -> List.length l = 1%nat -> continued (Z.land c 31) l v ->
    128 <= v <= 1114111 -> ~ surrogate v -> multibyte (c :: l) v
| multi3 c l v :
    224 <= c <= 239 -> List.length l = 2%nat -> continued (Z.land c 15) l v ->
    2048 <= v <= 1114111 -> ~ surrogate v -> multibyte (c :: l) v
| multi4 c l v :
    240 <= c <= 244 -> List.length l = 3%nat -> continued (Z.land c 7) l v ->
    65536 <= v <= 1114111 -> ~ surrogate v -> multibyte (c :: l) v.

(** One character of a string literal and the scalar it denotes. *)
Inductive jchar : list Z -> Z -> Prop :=
| jchar_plain c : 32 <= c < 128 -> c <> c_quote -> c <> c_bslash -> jchar [c] c
| jchar_escape c v : escape_scalar c = Some v -> jchar [c_bslash; c] v
| jchar_unicode l v : hex4s l v -> ~ surrogate v -> jchar (c_bslash :: c_u :: l) v
| jchar_pair l1 v1 l2 v2 :
    hex4s l1 v1 -> high_surrogate v1 -> hex4s l2 v2 -> low_surrogate v2 ->
    jchar (c_bslash :: c_u :: l1 ++ c_bslash :: c_u :: l2)
      (u32 (65536 + Z.shiftl (v1 - 55296) 10 + v2 - 56320))
| jchar_multi l v : multibyte l v -> jchar l v.

Inductive jchars : list Z -> list Z -> Prop :=
| jchars_nil : jchars [] []
| jchars_cons l v ls vs : jchar l v -> jchars ls vs -> jchars (l ++ ls) (v :: vs).

(** A string literal and the scalars it denotes. *)
Definition jstr (t : list Z) (vs : list Z) : Prop :=
  exists body, t = c_quote :: body ++ [c_quote] /\ jchars body vs.

(** A key may not contain a NUL. *)
Definition jkey (t : list Z) : Prop := exists vs, jstr t vs /\ Forall (fun v => v <> 0) vs.

(** ** Numbers and literals *)

Definition jdigit (c : Z) : Prop := c_0 <= c <= c_9.

Inductive jint : list Z -> Prop :=
| jint_zero : jint [c_0]
| jint_digits c l : c_1 <= c <= c_9 -> Forall jdigit l -> jint (c :: l).

Inductive jfrac : list Z -> Prop :=
| jfrac_none : jfrac []
| jfrac_some c l : Forall jdigit (c :: l) -> jfrac (c_dot :: c :: l).

Inductive jexp : list Z -> Prop :=
| jexp_none : jexp []
| jexp_some e s c l :
    e = c_e \/ e = c_E -> s = [] \/ s = [c_plus] \/ s = [c_minus] ->
    Forall jdigit (c :: l) -> jexp (e :: s ++ c :: l).

(** At most 63 characters. *)
Definition jnumber (t : list Z) : Prop :=
  exists s i f e, t = s ++ i ++ f ++ e /\ (s = [] \/ s = [c_minus]) /\
    jint i /\ jfrac f /\ jexp e /\ zlen t <= 63.

Definition jliteral (t : list Z) : Prop :=
  t = [116; 114; 117; 101] \/ t = [102; 97; 108; 115; 101] \/ t = [110; 117; 108; 108].

Definition jtoken (t : list Z) : Prop := (exists vs, jstr t vs) \/ jnumber t \/ jliteral t.

(** ** Values

    [c] is the text on the wire, [e] its compact form, [h] bounds the nesting. *)

Section Elements.
Context (val : list Z -> list Z -> Prop).

(** A member of an object, or an element of an array. *)
Inductive jitem : bool -> list Z -> list Z -> Prop :=
| jitem_element c e : val c e -> jitem false c e
| jitem_member k w1 w2 c e :
    jkey k -> blanks w1 -> blanks w2 -> val c e ->
    jitem true (k ++ w1 ++ c_colon :: w2 ++ c) (k ++ c_colon :: e).

Inductive jitems (object : bool) : list Z -> list Z -> Prop :=
| jitems_one w1 w2 c e :
    blanks w1 -> blanks w2 -> jitem object c e -> jitems object (w1 ++ c ++ w2) e
| jitems_more w1 w2 c e cs es :
    blanks w1 -> blanks w2 -> jitem object c e -> jitems object cs es ->
    jitems object (w1 ++ c ++ w2 ++ c_comma :: cs) (e ++ c_comma :: es).
End Elements.

Definition open_char (object : bool) : Z := if object then c_lbrace else c_lbrack.
Definition close_char (object : bool) : Z := if object then c_rbrace else c_rbrack.

Fixpoint jval (h : nat) (c e : list Z) : Prop :=
  (jtoken c /\ e = c) \/
  match h with
  | O => False
  | S h => exists object,
      (exists w, blanks w /\ c = open_char object :: w ++ [close_char object] /\
         e = [open_char object; close_char object]) \/
      (exists cs es, jitems (jval h) object cs es /\
         c = open_char object :: cs ++ [close_char object] /\
         e = open_char object :: es ++ [close_char object])
  end.

Lemma jtoken_nonempty t : jtoken t -> t <> [].
Proof.
  intros [(vs & body & -> & _)|[(s & i & f & e & -> & _ & Hi & _)|[-> |[-> | ->]]]]; try done.
  destruct Hi; by destruct s.
Qed.

Lemma jval_nonempty h c e : jval h c e -> c <> [].
Proof.
  destruct h; simpl; (intros [[Ht _]|H]; [by apply jtoken_nonempty|]); [done|].
  by destruct H as (object & [(w & _ & -> & _)|(cs & es & _ & -> & _)]).
Qed.

(** The scalars of a string are not negative, so only the scalar zero has a NUL
    in its encoding. *)
Lemma jchar_nonneg l v : jchar l v -> 0 <= v.
Proof.
  destruct 1 as [c ?|c v Hv|l v [_ Hv] _|l1 v1 l2 v2 _ _ _ _|l v Hv].
  - lia.
  - unfold escape_scalar in Hv. repeat case_match; simplify_eq; lia.
  - by apply hexes_range in Hv as [? _].
  - by apply (wrapu_range 32).
  - destruct Hv; lia.
Qed.

Lemma jchars_nonneg l vs : jchars l vs -> Forall (fun v => 0 <= v) vs.
Proof. induction 1; constructor; [by eapply jchar_nonneg|done]. Qed.

(** ** UTF-8

    A multi-byte sequence is the encoding of its scalar, and every scalar value
    has one. *)

Definition scalar_value (v : Z) : Prop := 0 <= v <= 1114111 /\ ~ surrogate v.

Lemma continue_step v c : 0 <= v < 16777216 -> 128 <= c <= 191 ->
  Z.lor (u32 (Z.shiftl v 6)) (Z.land c 63) = v * 64 + (c - 128).
Proof.
  intros Hv Hc. rewrite (land_mod _ 6) by lia. change (2 ^ 6) with 64.
  replace (c mod 64) with (c - 128) by (rewrite <- (Z_mod_plus_full _ (-2)); symmetry; apply Z.mod_small; lia).
  rewrite wrapu_small by (rewrite Z.shiftl_mul_pow2; lia). rewrite lor_shiftl; lia.
Qed.

Lemma continued_inv v a l w : continued v (a :: l) w -> 0 <= v < 16777216 ->
  128 <= a <= 191 /\ continued (v * 64 + (a - 128)) l w.
Proof. intros H Hv. inversion_clear H. split; [done|]. by rewrite continue_step in H1 by lia. Qed.

(** The continuation bytes of a payload, without bit operations. *)
Lemma continued_arith v l w : continued v l w -> 0 <= v < 32 -> (length l <= 3)%nat ->
  match l with
  | [a] => 128 <= a <= 191 /\ w = v * 64 + (a - 128)
  | [a; b] => 128 <= a <= 191 /\ 128 <= b <= 191 /\ w = (v * 64 + (a - 128)) * 64 + (b - 128)
  | [a; b; c] => 128 <= a <= 191 /\ 128 <= b <= 191 /\ 128 <= c <= 191 /\
      w = ((v * 64 + (a - 128)) * 64 + (b - 128)) * 64 + (c - 128)
  | _ => True
  end.
Proof.
  intros H Hv Hl. destruct l as [|a [|b [|c [|? ?]]]]; try done.
  all: repeat match goal with H : continued _ (_ :: _) _ |- _ => apply continued_inv in H as [? H]; [|lia] end.
  all: match goal with H : continued _ [] _ |- _ => inversion_clear H end.
  all: repeat (split; [lia|]); lia.
Qed.

Lemma multibyte_encode l v : multibyte l v -> l = utf8_encode v /\ scalar_value v /\ 128 <= v.
Proof.
  destruct 1 as [c l v Hc Hl Hk Hv Hs|c l v Hc Hl Hk Hv Hs|c l v Hc Hl Hk Hv Hs].
  all: split; [|split; [split; [lia|done]|lia]]; rewrite utf8_encode_arith by lia.
  - rewrite (land_mod _ 5) in Hk by lia. change (2 ^ 5) with 32 in Hk.
    pose proof (Z.mod_pos_bound c 32 ltac:(lia)). destruct l as [|a [|? ?]]; try done.
    apply continued_arith in Hk; [|lia|simpl; lia]. Z.to_euclidean_division_equations. cases_Z. repeat f_equal; lia.
  - rewrite (land_mod _ 4) in Hk by lia. change (2 ^ 4) with 16 in Hk.
    pose proof (Z.mod_pos_bound c 16 ltac:(lia)). destruct l as [|a [|b [|? ?]]]; try done.
    apply continued_arith in Hk; [|lia|simpl; lia]. Z.to_euclidean_division_equations. cases_Z. repeat f_equal; lia.
  - rewrite (land_mod _ 3) in Hk by lia. change (2 ^ 3) with 8 in Hk.
    pose proof (Z.mod_pos_bound c 8 ltac:(lia)). destruct l as [|a [|b [|b2 [|? ?]]]]; try done.
    apply continued_arith in Hk; [|lia|simpl; lia]. Z.to_euclidean_division_equations. cases_Z. repeat f_equal; lia.
Qed.

Lemma continued_intro v a l w : 0 <= v < 16777216 -> 0 <= a < 64 ->
  continued (v * 64 + a) l w -> continued v (128 + a :: l) w.
Proof.
  intros Hv Ha H. constructor; [lia|]. rewrite continue_step by lia. by replace (128 + a - 128) with a by lia.
Qed.

Lemma encode_multibyte v : scalar_value v -> 128 <= v -> multibyte (utf8_encode v) v.
Proof.
  intros [Hr Hs] Hv. rewrite utf8_encode_arith by lia.
  rewrite (proj2 (Z.leb_gt v 127)) by lia.
  pose proof (Z.mod_pos_bound v 64 ltac:(lia)). pose proof (Z.mod_pos_bound (v / 64) 64 ltac:(lia)).
  pose proof (Z.mod_pos_bound (v / 4096) 64 ltac:(lia)).
  assert (v / 64 / 64 = v / 4096 /\ v / 4096 / 64 = v / 262144) as [Q1 Q2]
    by (split; rewrite Z.div_div; done).
  pose proof (Z.div_mod v 64 ltac:(lia)). pose proof (Z.div_mod (v / 64) 64 ltac:(lia)).
  pose proof (Z.div_mod (v / 4096) 64 ltac:(lia)). rewrite Q1, Q2 in *.
  destruct (Z.leb_spec v 2047); [|destruct (Z.leb_spec v 65535)].
  - apply multi2; [lia|done| |lia|done]. rewrite (land_mod _ 5) by lia.
    replace ((192 + v / 64) mod 2 ^ 5) with (v / 64) by (apply (Z.mod_unique _ _ 6); lia).
    apply continued_intro; [lia..|]. replace (v / 64 * 64 + v mod 64) with v by lia. constructor.
  - apply multi3; [lia|done| |lia|done]. rewrite (land_mod _ 4) by lia.
    replace ((224 + v / 4096) mod 2 ^ 4) with (v / 4096) by (apply (Z.mod_unique _ _ 14); lia).
    apply continued_intro; [lia..|]. replace (v / 4096 * 64 + v / 64 mod 64) with (v / 64) by lia.
    apply continued_intro; [lia..|]. replace (v / 64 * 64 + v mod 64) with v by lia. constructor.
  - apply multi4; [lia|done| |lia|done]. rewrite (land_mod _ 3) by lia.
    replace ((240 + v / 262144) mod 2 ^ 3) with (v / 262144) by (apply (Z.mod_unique _ _ 30); lia).
    apply continued_intro; [lia..|]. replace (v / 262144 * 64 + v / 4096 mod 64) with (v / 4096) by lia.
    apply continued_intro; [lia..|]. replace (v / 4096 * 64 + v / 64 mod 64) with (v / 64) by lia.
    apply continued_intro; [lia..|]. replace (v / 64 * 64 + v mod 64) with v by lia. constructor.
Qed.

(** ** Hexadecimal digits, and the scalars of a string *)

Lemma hexes_inv n l v : hexes l v -> length l = S n -> exists l' v' c d,
  l = l' ++ [c] /\ v = v' * 16 + d /\ hexval c = Some d /\ hexes l' v' /\ length l' = n.
Proof.
  destruct 1 as [|l v c d H Hc]; intros Hl; [done|]. exists l, v, c, d.
  rewrite length_app in Hl. simpl in Hl. repeat (split; [done|]). lia.
Qed.

Lemma hex4s_inv l v : hex4s l v -> exists a b c d da db dc dd,
  l = [a; b; c; d] /\ hexval a = Some da /\ hexval b = Some db /\ hexval c = Some dc /\ hexval d = Some dd /\
  v = ((da * 16 + db) * 16 + dc) * 16 + dd.
Proof.
  intros [Hl H].
  destruct (hexes_inv _ _ _ H Hl) as (l1 & v1 & d & dd & -> & -> & Hd & H1 & L1).
  destruct (hexes_inv _ _ _ H1 L1) as (l2 & v2 & c & dc & -> & -> & Hc & H2 & L2).
  destruct (hexes_inv _ _ _ H2 L2) as (l3 & v3 & b & db & -> & -> & Hb & H3 & L3).
  destruct (hexes_inv _ _ _ H3 L3) as (l4 & v4 & a & da & -> & -> & Ha & H4 & L4).
  destruct l4; [|done]. assert (v4 = 0) as -> by (inversion H4 as [|l ? ? ? ? ? E]; [done|by destruct l]).
  exists a, b, c, d, da, db, dc, dd. repeat (split; [done|]). lia.
Qed.

Lemma jchar_scalar l v : jchar l v -> scalar_value v.
Proof.
  destruct 1 as [c ?|c v Hv|l v Hv Hs|l1 v1 l2 v2 _ H1 _ H2|l v Hv].
  - unfold scalar_value, surrogate. lia.
  - unfold scalar_value, surrogate. unfold escape_scalar in Hv. repeat case_match; simplify_eq; lia.
  - split; [|done]. destruct Hv as [Hl Hv]. apply hexes_range in Hv.
    unfold zlen in Hv. rewrite Hl in Hv. simpl in Hv. lia.
  - unfold high_surrogate, low_surrogate, scalar_value, surrogate in *.
    rewrite Z.shiftl_mul_pow2, wrapu_small by lia. lia.
  - by apply multibyte_encode in Hv as (_ & ? & _).
Qed.

(** The multi-byte sequences that the scanner's string grammar accepts are
    exactly the encodings that [decoded_scalar] builds of the scalar values from
    128 on: no overlong form, surrogate or value beyond U+10FFFF passes, and
    every scalar value does. *)
Theorem utf8_accepted_iff_encoded l v :
  multibyte l v <-> l = utf8_encode v /\ scalar_value v /\ 128 <= v.
Proof.
  split; [apply multibyte_encode|]. intros (-> & Hs & Hv). by apply encode_multibyte.
Qed.
