(* ===== verification/NumberText.v ===== *)
(** * Decimal text of numbers

    What [sprintf] writes for [%d] and [%.<P>g], with the facts the printer
    needs: how long the text is, that it is a JSON number, and that reading an
    integer back gives the integer. *)

From S2P Require Import Prelude Bytes Double JsonGrammar.

(** ** Integers *)

(** The decimal digits of [n], before [acc]. *)
Fixpoint dec_loop (fuel : nat) (n : Z) (acc : list Z) : list Z :=
  match fuel with
  | O => acc
  | S fuel =>
      let acc := (c_0 + n mod 10) :: acc in
      if n / 10 =? 0 then acc else dec_loop fuel (n / 10) acc
  end.

Definition dec (n : Z) : list Z := dec_loop (S (Z.to_nat (Z.log2 n))) n [].

(** [sprintf("%d")] of an integer. *)
Definition fmt_d (n : Z) : list Z := if n <? 0 then c_minus :: dec (- n) else dec n.

(** ** [%.<P>g] *)

(** The quotient to the nearest integer, ties to even. *)
Definition round_half_even (num den : Z) : Z :=
  let q := num / den in
  let r := num mod den in
  if (2 * r <? den) || ((2 * r =? den) && Z.even q) then q else q + 1.

(** [x] with [10^x <= num/den < 10^(x+1)]: upwards from zero, or downwards. *)
Fixpoint exp_up (fuel : nat) (num den x : Z) : Z :=
  match fuel with
  | O => x
  | S fuel => if 10 ^ (x + 1) * den <=? num then exp_up fuel num den (x + 1) else x
  end.

Fixpoint exp_down (fuel : nat) (num den x : Z) : Z :=
  match fuel with
  | O => x
  | S fuel => if den <=? num * 10 ^ (- x) then x else exp_down fuel num den (x - 1)
  end.

Definition exponent10 (num den : Z) : Z :=
  if den <=? num then exp_up (S (Z.to_nat (Z.log2 num))) num den 0
  else exp_down (S (S (Z.to_nat (Z.log2 den)))) num den (-1).

(** [P] significant digits and the exponent of the first. *)
Definition significant (P num den : Z) : Z * Z :=
  let x := exponent10 num den in
  let n := if x <=? P - 1 then round_half_even (num * 10 ^ (P - 1 - x)) den
           else round_half_even num (den * 10 ^ (x - (P - 1))) in
  if n =? 10 ^ P then (10 ^ (P - 1), x + 1) else (n, x).

(** [%g] removes the zeros at the end of the fraction, and the point without one. *)
Fixpoint strip_zeros (l : list Z) : list Z :=
  match l with
  | [] => []
  | c :: l =>
      match strip_zeros l with
      | [] => if c =? c_0 then [] else [c]
      | l' => c :: l'
      end
  end.

Definition point (frac : list Z) : list Z :=
  match strip_zeros frac with [] => [] | l => c_dot :: l end.

Definition exp_text (x : Z) : list Z :=
  c_e :: (if x <? 0 then c_minus else c_plus) ::
    (if Z.abs x <? 10 then c_0 :: dec (Z.abs x) else dec (Z.abs x)).

Definition fmt_g_pos (P num den : Z) : list Z :=
  let '(n, x) := significant P num den in
  let ds := dec n in
  if (x <? -4) || (P <=? x) then
    firstn 1 ds ++ point (drop 1 ds) ++ exp_text x
  else if x <? 0 then
    c_0 :: point (repeat c_0 (Z.to_nat (- x - 1)) ++ ds)
  else
    firstn (Z.to_nat (x + 1)) ds ++ point (drop (Z.to_nat (x + 1)) ds).

(** [sprintf("%.<P>g")] of a finite double. *)
Definition fmt_g (P : Z) (d : double) : list Z :=
  match d with
  | S754_zero s => if s then [c_minus; c_0] else [c_0]
  | S754_finite s m e =>
      let num := if 0 <=? e then Zpos m * 2 ^ e else Zpos m in
      let den := if 0 <=? e then 1 else 2 ^ (- e) in
      (if s then [c_minus] else []) ++ fmt_g_pos P num den
  | _ => []
  end.

(** ** Digits *)

Definition dec_value (l : list Z) : Z := fold_left (fun v c => v * 10 + (c - c_0)) l 0.

Lemma dec_value_app l1 l2 : dec_value (l1 ++ l2) = dec_value l1 * 10 ^ zlen l2 + dec_value l2.
Proof.
  unfold dec_value. rewrite fold_left_app. generalize (fold_left (fun v c => v * 10 + (c - c_0)) l1 0) as a.
  induction l2 as [|c l2 IH] using rev_ind; intros a.
  - unfold zlen. simpl. lia.
  - rewrite !fold_left_app, zlen_app, Z.pow_add_r by (unfold zlen; lia). cbn [fold_left]. rewrite (IH a).
    change (zlen [c]) with 1. change (10 ^ 1) with 10. ring.
Qed.

(** The digits of [n]: as many as it takes, the first one not zero. *)
Record digits_of (n : Z) (l : list Z) : Prop := {
  do_digits : Forall jdigit l;
  do_value : dec_value l = n;
  do_lead : 0 < n -> exists c l', l = c :: l' /\ c_1 <= c;
  do_size : 0 < n -> 10 ^ (zlen l - 1) <= n < 10 ^ zlen l }.

Lemma jdigit_mod n : jdigit (c_0 + n mod 10).
Proof. unfold jdigit. pose proof (Z.mod_pos_bound n 10 ltac:(lia)). lia. Qed.

Lemma dec_loop_spec fuel : forall n acc, 0 <= n -> n < 10 ^ Z.of_nat fuel -> (0 < fuel)%nat ->
  exists l, dec_loop fuel n acc = l ++ acc /\ l <> [] /\ digits_of n l.
Proof.
  induction fuel as [|fuel IH]; intros n acc Hn Hf Hp; [lia|]. cbn [dec_loop]. cbv zeta.
  pose proof (Z.div_mod n 10 ltac:(lia)) as Ediv. pose proof (Z.mod_pos_bound n 10 ltac:(lia)).
  destruct (Z.eqb_spec (n / 10) 0) as [E|E].
  - exists [c_0 + n mod 10]. split; [done|]. split; [done|]. split.
    + apply Forall_singleton, jdigit_mod.
    + unfold dec_value. cbn [fold_left]. lia.
    + intros Hpos. eexists _, _. split; [done|]. lia.
    + intros Hpos. change (zlen [c_0 + n mod 10]) with 1. change (10 ^ 1) with 10. change (10 ^ (1 - 1)) with 1. lia.
  - rewrite Nat2Z.inj_succ, Z.pow_succ_r in Hf by lia.
    assert (0 < n / 10) by (assert (0 <= n / 10) by (apply Z.div_pos; lia); lia).
    destruct (IH (n / 10) ((c_0 + n mod 10) :: acc)) as (l & El & Hnil & [D1 D2 D3 D4]); [lia|apply Z.div_lt_upper_bound; lia| |].
    { destruct fuel; [|lia]. simpl in Hf. lia. }
    exists (l ++ [c_0 + n mod 10]). split; [by rewrite El, <- app_assoc|]. split; [by destruct l|].
    pose proof (zlen_nonneg l). split.
    + apply Forall_app. split; [done|]. apply Forall_singleton, jdigit_mod.
    + rewrite dec_value_app, D2. change (zlen [c_0 + n mod 10]) with 1. unfold dec_value. cbn [fold_left]. lia.
    + intros _. destruct (D3 ltac:(lia)) as (c & l' & -> & Hc). eexists _, _. split; [done|done].
    + intros _. specialize (D4 ltac:(lia)). rewrite zlen_app. change (zlen [c_0 + n mod 10]) with 1.
      replace (zlen l + 1 - 1) with (zlen l - 1 + 1) by lia.
      assert (1 <= zlen l) by (destruct l; [done|rewrite zlen_cons; pose proof (zlen_nonneg l); lia]).
      rewrite !Z.pow_add_r by lia. change (10 ^ 1) with 10. lia.
Qed.

Lemma dec_spec n : 0 <= n -> dec n <> [] /\ digits_of n (dec n).
Proof.
  intros Hn. unfold dec.
  destruct (dec_loop_spec (S (Z.to_nat (Z.log2 n))) n []) as (l & -> & Hl & Hd); [done| |lia|].
  - rewrite Nat2Z.inj_succ, Z2Nat.id by apply Z.log2_nonneg. destruct (Z.eq_dec n 0) as [->|]; [done|].
    pose proof (Z.log2_spec n ltac:(lia)) as [_ H2].
    eapply Z.lt_le_trans; [exact H2|]. apply Z.pow_le_mono_l. pose proof (Z.log2_nonneg n). lia.
  - by rewrite app_nil_r.
Qed.

Lemma pow10_inj k n a : 1 <= k -> 0 <= a -> 10 ^ (k - 1) <= n < 10 ^ k -> 10 ^ (a - 1) <= n < 10 ^ a -> a = k.
Proof.
  intros Hk Ha H1 H2. destruct (Z.lt_trichotomy a k) as [Hlt|[|Hlt]]; [|done|]; exfalso.
  - assert (10 ^ a <= 10 ^ (k - 1)) by (apply Z.pow_le_mono_r; lia). lia.
  - assert (10 ^ k <= 10 ^ (a - 1)) by (apply Z.pow_le_mono_r; lia). lia.
Qed.

Lemma digits_of_length n l k : digits_of n l -> 1 <= k -> 10 ^ (k - 1) <= n < 10 ^ k -> zlen l = k.
Proof.
  intros [_ _ _ Hs] Hk Hn. assert (0 < 10 ^ (k - 1)) by (apply Z.pow_pos_nonneg; lia).
  apply (pow10_inj k n); [done|apply zlen_nonneg|done|apply Hs; lia].
Qed.

Lemma digits_of_short n l k : digits_of n l -> 0 < n < 10 ^ k -> 0 <= k -> zlen l <= k.
Proof.
  intros [_ _ _ Hs] Hn Hk. specialize (Hs ltac:(lia)). destruct (Z.le_gt_cases (zlen l) k); [done|exfalso].
  assert (10 ^ k <= 10 ^ (zlen l - 1)) by (apply Z.pow_le_mono_r; lia). lia.
Qed.

Lemma dec_zero : dec 0 = [c_0].
Proof. done. Qed.

Lemma dec_jint n : 0 <= n -> jint (dec n).
Proof.
  intros Hn. destruct (dec_spec n Hn) as [_ [D1 D2 D3 _]]. destruct (Z.eq_dec n 0) as [->|]; [rewrite dec_zero; constructor|].
  destruct (D3 ltac:(lia)) as (c & l & E & Hc). rewrite E in *. apply Forall_cons in D1 as [Hd D1].
  constructor; [unfold jdigit in Hd; lia|done].
Qed.

Lemma dec_length n k : 0 <= n < 10 ^ k -> 1 <= k -> 1 <= zlen (dec n) <= k.
Proof.
  intros Hn Hk. destruct (dec_spec n) as [Hne Hd]; [lia|].
  split; [destruct (dec n); [done|rewrite zlen_cons; pose proof (zlen_nonneg l); lia]|].
  destruct (Z.eq_dec n 0) as [->|]; [rewrite dec_zero; unfold zlen; simpl; lia|].
  apply (digits_of_short n); [done|lia|lia].
Qed.

(** ** [%d] *)

Lemma fmt_d_jnumber n k : Z.abs n < 10 ^ k -> 1 <= k <= 62 -> jnumber (fmt_d n) /\ zlen (fmt_d n) <= k + 1.
Proof.
  intros Hn Hk. unfold fmt_d. destruct (Z.ltb_spec n 0).
  - pose proof (dec_length (- n) k ltac:(lia) ltac:(lia)). rewrite zlen_cons. split; [|lia].
    exists [c_minus], (dec (- n)), [], []. rewrite !app_nil_r. split; [done|]. split; [by right|].
    split; [apply dec_jint; lia|]. split; [constructor|]. split; [constructor|]. rewrite zlen_cons. lia.
  - pose proof (dec_length n k ltac:(lia) ltac:(lia)). split; [|lia].
    exists [], (dec n), [], []. rewrite !app_nil_r. split; [done|]. split; [by left|].
    split; [apply dec_jint; lia|]. split; [constructor|]. split; [constructor|]. lia.
Qed.

Lemma take_digits_value acc n ds : Forall jdigit ds ->
  take_digits acc n ds = (acc * 10 ^ zlen ds + dec_value ds, (n + length ds)%nat, []).
Proof.
  intros Hd. revert acc n. induction Hd as [|d ds Hd _ IH]; intros acc n.
  - unfold dec_value, zlen. simpl. rewrite Nat.add_0_r. do 2 f_equal. lia.
  - cbn [take_digits]. unfold is_digit. unfold jdigit in Hd.
    rewrite (proj2 (Z.leb_le c_0 d)), (proj2 (Z.leb_le d c_9)) by lia. cbn [andb]. rewrite IH.
    change (d :: ds) with ([d] ++ ds). rewrite dec_value_app, zlen_app, Z.pow_add_r by (unfold zlen; lia).
    change (zlen [d]) with 1. change (10 ^ 1) with 10. f_equal. f_equal.
    + unfold dec_value at 2. cbn [fold_left]. ring.
    + simpl. lia.
Qed.

(** Rounding is symmetric. *)
Lemma D_of_Z_opp n : D_of_Z (Z.neg n) = SFopp (D_of_Z (Z.pos n)).
Proof.
  unfold D_of_Z, binary_normalize, binary_round. destruct (shl_align n 0 _) as [m e].
  unfold binary_round_aux. destruct (shr_fexp 53 1024 (Z.pos m) e loc_Exact) as [mrs e1].
  destruct (shr_fexp 53 1024 _ e1 loc_Exact) as [mrs2 e2]. destruct (shr_m mrs2); try done. by case_match.
Qed.

(** Reading back what [%d] wrote. *)
Lemma strtod_fmt_d n : Z.abs n < 10 ^ 20 -> (strtod (fmt_d n)).1 = D_of_Z n.
Proof.
  intros Hn. assert (forall p, Z.pos p < 10 ^ 20 -> decimal false (Z.pos p) (0 - Z.of_nat (Nat.pred 0)) = D_of_Z (Z.pos p) /\
    decimal true (Z.pos p) (0 - Z.of_nat (Nat.pred 0)) = SFopp (D_of_Z (Z.pos p))) as Hdec.
  { intros p Hp. unfold decimal. change (0 - Z.of_nat (Nat.pred 0)) with 0.
    assert (0 <= Z.log2 (Z.pos p) <= 67) as Hlog.
    { split; [apply Z.log2_nonneg|]. change 67 with (Z.log2 (10 ^ 20 - 1) + 1).
      pose proof (Z.log2_le_mono (Z.pos p) (10 ^ 20 - 1) ltac:(lia)). lia. }
    rewrite (proj2 (Z.ltb_ge _ _)) by (Z.to_euclidean_division_equations; lia).
    rewrite (proj2 (Z.ltb_ge _ _)) by (Z.to_euclidean_division_equations; lia).
    cbn [Z.leb Z.compare]. by rewrite Z.mul_1_r. }
  assert (forall m, 0 <= m < 10 ^ 20 -> take_digits 0 0 (dec m) = (m, S (Nat.pred (length (dec m))), [])) as Ht.
  { intros m Hm. destruct (dec_spec m) as [Hne [D1 D2 _ _]]; [lia|]. rewrite take_digits_value by done.
    rewrite D2. by destruct (dec m). }
  unfold fmt_d. destruct (Z.ltb_spec n 0).
  - unfold strtod. cbn [take_sign Z.eqb Pos.eqb]. rewrite (Ht (- n)) by lia. cbn [fst snd].
    destruct n as [|p|p]; try lia.
    rewrite D_of_Z_opp. exact (proj2 (Hdec p ltac:(lia))).
  - unfold strtod. destruct (dec_spec n ltac:(lia)) as [Hne [D1 _ _ _]].
    assert (take_sign (dec n) = (false, 0%nat, dec n)) as ->.
    { destruct (dec n) as [|c l]; [done|]. apply Forall_cons in D1 as [Hc _]. unfold jdigit in Hc.
      cbn [take_sign]. by rewrite (proj2 (Z.eqb_neq c c_minus)), (proj2 (Z.eqb_neq c c_plus)) by lia. }
    rewrite (Ht n) by lia. destruct n as [|p|p]; [done| |lia]. exact (proj1 (Hdec p ltac:(lia))).
Qed.

(** ** [%g] *)

(** [10^x <= num/den < 10^(x+1)] without division. *)
Definition scale_le (x num den : Z) : Prop := 10 ^ Z.max x 0 * den <= num * 10 ^ Z.max (- x) 0.
Definition in_decade (x num den : Z) : Prop := scale_le x num den /\ ~ scale_le (x + 1) num den.

Lemma exp_up_spec fuel : forall num den x, 0 <= x -> 0 < den ->
  10 ^ x * den <= num -> num < 10 ^ (x + Z.of_nat fuel) * den ->
  0 <= exp_up fuel num den x /\ in_decade (exp_up fuel num den x) num den.
Proof.
  induction fuel as [|fuel IH]; intros num den x Hx Hd Hle Hlt; cbn [exp_up].
  - rewrite Z.add_0_r in Hlt. lia.
  - destruct (Z.leb_spec (10 ^ (x + 1) * den) num) as [H|H].
    + apply IH; try lia. replace (x + 1 + Z.of_nat fuel) with (x + Z.of_nat (S fuel)) by lia. done.
    + split; [done|]. unfold in_decade, scale_le.
      rewrite (Z.max_l x), (Z.max_r (- x)), (Z.max_l (x + 1)), (Z.max_r (- (x + 1))) by lia. change (10 ^ 0) with 1. lia.
Qed.

Lemma exp_down_spec fuel : forall num den x, x < 0 -> 0 < num ->
  num * 10 ^ (- x - 1) < den -> den <= num * 10 ^ (- x - 1 + Z.of_nat fuel) ->
  exp_down fuel num den x < 0 /\ in_decade (exp_down fuel num den x) num den.
Proof.
  induction fuel as [|fuel IH]; intros num den x Hx Hn Hlt Hle; cbn [exp_down].
  - rewrite Z.add_0_r in Hle. lia.
  - destruct (Z.leb_spec den (num * 10 ^ (- x))) as [H|H].
    + split; [done|]. unfold in_decade, scale_le. rewrite (Z.max_r x), (Z.max_l (- x)), (Z.max_r (x + 1)), (Z.max_l (- (x + 1))) by lia.
      change (10 ^ 0) with 1. replace (- (x + 1)) with (- x - 1) by lia. lia.
    + apply IH; try lia; [by replace (- (x - 1) - 1) with (- x) by lia|].
      replace (- (x - 1) - 1 + Z.of_nat fuel) with (- x - 1 + Z.of_nat (S fuel)) by lia. done.
Qed.

Lemma log2_pow10 n : 0 < n -> n < 10 ^ Z.of_nat (S (Z.to_nat (Z.log2 n))).
Proof.
  intros Hn. rewrite Nat2Z.inj_succ, Z2Nat.id by apply Z.log2_nonneg. pose proof (Z.log2_spec n Hn) as [_ H].
  eapply Z.lt_le_trans; [exact H|]. apply Z.pow_le_mono_l. pose proof (Z.log2_nonneg n). lia.
Qed.

Lemma exponent10_spec num den : 0 < num -> 0 < den -> in_decade (exponent10 num den) num den.
Proof.
  intros Hn Hd. unfold exponent10. destruct (Z.leb_spec den num).
  - apply exp_up_spec; [lia|done|change (10 ^ 0) with 1; lia|].
    rewrite Z.add_0_l. pose proof (log2_pow10 num Hn). nia.
  - apply exp_down_spec; [lia|done|change (10 ^ (- -1 - 1)) with 1; lia|].
    change (- -1 - 1) with 0. rewrite Z.add_0_l. pose proof (log2_pow10 den Hd).
    rewrite Nat2Z.inj_succ, Z.pow_succ_r by lia. nia.
Qed.

Lemma round_half_even_bounds num den lo hi : 0 < den -> lo * den <= num < hi * den ->
  lo <= round_half_even num den <= hi.
Proof.
  intros Hd H. unfold round_half_even. cbv zeta.
  assert (lo <= num / den < hi) as Hq.
  { split; [apply Z.div_le_lower_bound|apply Z.div_lt_upper_bound]; lia. }
  case_match; lia.
Qed.

(** The decade of a value between [2^-1074] and [2^1024]. *)
Definition moderate (num den : Z) : Prop := num < 10 ^ 998 * den /\ den < num * 10 ^ 998.

Lemma decade_moderate x num den : 0 < num -> 0 < den -> moderate num den -> in_decade x num den -> -999 < x < 998.
Proof.
  unfold moderate, in_decade, scale_le. intros Hn Hd [H1 H2] [H3 H4].
  destruct (Z.le_gt_cases x 997) as [Hx|Hx]; [|exfalso].
  - destruct (Z.le_gt_cases (-998) x) as [Hy|Hy]; [lia|exfalso]. apply H4.
    rewrite (Z.max_r (x + 1)), (Z.max_l (- (x + 1))) by lia.
    assert (10 ^ 998 <= 10 ^ (- (x + 1))) by (apply Z.pow_le_mono_r; lia). change (10 ^ 0) with 1. nia.
  - rewrite (Z.max_l x), (Z.max_r (- x)) in H3 by lia. change (10 ^ 0) with 1 in H3.
    assert (10 ^ 998 <= 10 ^ x) by (apply Z.pow_le_mono_r; lia). nia.
Qed.

Lemma significant_spec P num den : 1 <= P -> 0 < num -> 0 < den -> moderate num den ->
  let '(n, x) := significant P num den in 10 ^ (P - 1) <= n < 10 ^ P /\ -999 < x < 999.
Proof.
  intros HP Hn Hd Hm. unfold significant. pose proof (exponent10_spec num den Hn Hd) as Hx.
  pose proof (decade_moderate _ _ _ Hn Hd Hm Hx) as Hr. set (x := exponent10 num den) in *. cbv zeta.
  assert (0 < 10 ^ (P - 1)) by (apply Z.pow_pos_nonneg; lia).
  assert (10 ^ P = 10 * 10 ^ (P - 1)) as EP.
  { replace P with (P - 1 + 1) at 1 by lia. rewrite Z.pow_add_r by lia. lia. }
  set (n := if x <=? P - 1 then _ else _).
  assert (10 ^ (P - 1) <= n <= 10 ^ P) as Hnb.
  { unfold n. destruct Hx as [H1 H2]. unfold scale_le in H1, H2. clear n Hm Hr.
    assert (forall a b, 0 <= a -> 0 <= b -> 10 ^ (a + b) = 10 ^ a * 10 ^ b) as Hpow by (intros; by apply Z.pow_add_r).
    destruct (Z.leb_spec x (P - 1)).
    - apply round_half_even_bounds; [done|]. destruct (Z.le_gt_cases 0 x).
      + rewrite (Z.max_l x), (Z.max_r (- x)), (Z.max_l (x + 1)), (Z.max_r (- (x + 1))) in * by lia.
        change (10 ^ 0) with 1 in *. assert (0 < 10 ^ (P - 1 - x)) by (apply Z.pow_pos_nonneg; lia).
        assert (10 ^ (P - 1) = 10 ^ x * 10 ^ (P - 1 - x)) as E1 by (rewrite <- Hpow by lia; f_equal; lia).
        assert (10 ^ P = 10 ^ (x + 1) * 10 ^ (P - 1 - x)) as E2 by (rewrite <- Hpow by lia; f_equal; lia).
        rewrite E1, E2. nia.
      + rewrite (Z.max_r x), (Z.max_l (- x)), (Z.max_r (x + 1)), (Z.max_l (- (x + 1))) in * by lia.
        change (10 ^ 0) with 1 in *.
        assert (10 ^ (P - 1 - x) = 10 ^ (P - 1) * 10 ^ (- x)) as E1 by (rewrite <- Hpow by lia; f_equal; lia).
        assert (10 ^ (- x) = 10 ^ (- (x + 1)) * 10) as E2 by (change 10 with (10 ^ 1) at 3; rewrite <- Hpow by lia; f_equal; lia).
        rewrite EP, E1. rewrite E2 in *. nia.
    - assert (0 < 10 ^ (x - (P - 1))) by (apply Z.pow_pos_nonneg; lia).
      apply round_half_even_bounds; [nia|].
      rewrite (Z.max_l x), (Z.max_r (- x)), (Z.max_l (x + 1)), (Z.max_r (- (x + 1))) in * by lia.
      change (10 ^ 0) with 1 in *.
      replace (10 ^ x) with (10 ^ (P - 1) * 10 ^ (x - (P - 1))) in H1 by (rewrite <- Hpow by lia; f_equal; lia).
      replace (10 ^ (x + 1)) with (10 ^ P * 10 ^ (x - (P - 1))) in H2 by (rewrite <- Hpow by lia; f_equal; lia). nia. }
  clearbody n. destruct (Z.eqb_spec n (10 ^ P)); lia.
Qed.

Lemma strip_zeros_prefix l : exists zs, l = strip_zeros l ++ zs.
Proof.
  induction l as [|c l [zs E]]; [by exists []|]. cbn [strip_zeros]. destruct (strip_zeros l) as [|d l'] eqn:El.
  - case_match; [by exists (c :: l)|]. exists l. done.
  - exists zs. by rewrite E at 1.
Qed.

Lemma point_jfrac l : Forall jdigit l -> jfrac (point l) /\ zlen (point l) <= zlen l + 1.
Proof.
  intros Hl. unfold point. destruct (strip_zeros_prefix l) as [zs E]. pose proof (zlen_nonneg l).
  destruct (strip_zeros l) as [|c l']; [split; [constructor|unfold zlen; simpl; lia]|].
  rewrite E in Hl. apply Forall_app in Hl as [Hl _]. split; [by constructor|].
  rewrite E, !zlen_app, !zlen_cons. pose proof (zlen_nonneg zs). lia.
Qed.

Lemma exp_text_jexp x : -999 < x < 999 -> jexp (exp_text x) /\ zlen (exp_text x) <= 5.
Proof.
  intros Hx. unfold exp_text. set (s := if x <? 0 then c_minus else c_plus).
  assert (forall c l, Forall jdigit (c :: l) -> zlen (c :: l) <= 3 -> jexp (c_e :: s :: c :: l) /\ zlen (c_e :: s :: c :: l) <= 5) as H.
  { intros c l Hd Hl. split; [|rewrite !zlen_cons in *; lia].
    apply (jexp_some c_e [s] c l); [by left| |done]. unfold s. case_match; auto. }
  destruct (dec_spec (Z.abs x) ltac:(lia)) as [Hne [D _ _ _]].
  destruct (Z.ltb_spec (Z.abs x) 10).
  - apply H; [by constructor|]. rewrite zlen_cons. pose proof (dec_length (Z.abs x) 1 ltac:(lia) ltac:(lia)). lia.
  - pose proof (dec_length (Z.abs x) 3 ltac:(lia) ltac:(lia)). destruct (dec (Z.abs x)) as [|c l]; [done|]. apply H; [done|lia].
Qed.

(** The text of a positive number is a JSON number of at most [P + 7] characters. *)
Lemma fmt_g_pos_spec P num den : 1 <= P <= 17 -> 0 < num -> 0 < den -> moderate num den ->
  exists i f e, fmt_g_pos P num den = i ++ f ++ e /\ jint i /\ jfrac f /\ jexp e /\ zlen (i ++ f ++ e) <= 23.
Proof.
  intros HP Hn Hd Hm. unfold fmt_g_pos. pose proof (significant_spec P num den ltac:(lia) Hn Hd Hm) as Hs.
  destruct (significant P num den) as [n x]. destruct Hs as [Hnb Hx].
  assert (0 < 10 ^ (P - 1)) by (apply Z.pow_pos_nonneg; lia).
  destruct (dec_spec n ltac:(lia)) as [Hne Hdig]. pose proof (digits_of_length n (dec n) P Hdig ltac:(lia) Hnb) as Hlen.
  destruct Hdig as [D1 _ D3 _]. destruct (D3 ltac:(lia)) as (c & l & E & Hc). cbv zeta.
  assert (forall k, (1 <= k)%nat -> jint (firstn k (dec n))) as Hint.
  { intros k Hk. rewrite E in D1 |- *. apply Forall_cons in D1 as [Hdc Hl]. destruct k; [lia|].
    cbn [firstn]. constructor; [unfold jdigit in Hdc; lia|by apply Forall_take]. }
  assert (forall k, jfrac (point (drop k (dec n))) /\ zlen (point (drop k (dec n))) <= zlen (drop k (dec n)) + 1) as Hfrac.
  { intros k. apply point_jfrac, Forall_drop, D1. }
  destruct ((x <? -4) || (P <=? x)) eqn:Ex.
  - destruct (exp_text_jexp x Hx) as [He1 He2]. destruct (Hfrac 1%nat) as [F1 F2].
    eexists _, _, _. split; [done|]. split; [by apply Hint|]. split; [done|]. split; [done|].
    rewrite !zlen_app. assert (zlen (firstn 1 (dec n)) + zlen (drop 1 (dec n)) = zlen (dec n)).
    { rewrite <- zlen_app. by rewrite firstn_skipn. } lia.
  - apply orb_false_iff in Ex as [Ex1%Z.ltb_ge Ex2%Z.leb_gt]. destruct (Z.ltb_spec x 0).
    + destruct (point_jfrac (repeat c_0 (Z.to_nat (- x - 1)) ++ dec n)) as [F1 F2].
      { apply Forall_app. split; [|done]. apply Forall_forall. intros y Hy. apply list_elem_of_In, repeat_spec in Hy.
        subst y. unfold jdigit. lia. }
      eexists [c_0], _, []. rewrite app_nil_r. split; [reflexivity|]. split; [constructor|]. split; [done|]. split; [constructor|].
      rewrite zlen_app. rewrite zlen_app in F2. change (zlen [c_0]) with 1. assert (zlen (repeat c_0 (Z.to_nat (- x - 1))) = - x - 1) by (unfold zlen; rewrite repeat_length; lia). lia.
    + destruct (Hfrac (Z.to_nat (x + 1))) as [F1 F2]. eexists _, _, []. rewrite app_nil_r. split; [reflexivity|].
      split; [apply Hint; lia|]. split; [done|]. split; [constructor|]. rewrite zlen_app.
      assert (zlen (firstn (Z.to_nat (x + 1)) (dec n)) + zlen (drop (Z.to_nat (x + 1)) (dec n)) = zlen (dec n)).
      { rewrite <- zlen_app. by rewrite firstn_skipn. } lia.
Qed.

Lemma valid_moderate m e : bounded 53 1024 m e = true ->
  moderate (if 0 <=? e then Zpos m * 2 ^ e else Zpos m) (if 0 <=? e then 1 else 2 ^ (- e)).
Proof.
  unfold bounded, canonical_mantissa, fexp, emin. rewrite andb_true_iff, Z.eqb_eq, Z.leb_le. intros [Hc He].
  assert (Z.pos m < 2 ^ Z.pos (digits2_pos m)) as Hm.
  { clear. induction m as [m IH|m IH|]; cbn [digits2_pos]; [| |done];
      rewrite Pos2Z.inj_succ, Z.pow_succ_r by lia; lia. }
  assert (Z.pos m < 2 ^ 53 /\ -1074 <= e) as [Hm53 He'].
  { split; [|lia]. eapply Z.lt_le_trans; [exact Hm|]. apply Z.pow_le_mono_r; lia. }
  assert (2 ^ 1080 < 10 ^ 998) as Hbig by (vm_compute; reflexivity).
  unfold moderate. destruct (Z.leb_spec 0 e).
  - assert (2 ^ e <= 2 ^ 971) by (apply Z.pow_le_mono_r; lia). assert (0 < 2 ^ e) by (apply Z.pow_pos_nonneg; lia).
    assert (2 ^ 53 * 2 ^ 971 < 2 ^ 1080) by (vm_compute; reflexivity). split; [|lia].
    assert (Z.pos m * 2 ^ e <= 2 ^ 53 * 2 ^ 971) by (apply Z.mul_le_mono_nonneg; lia). lia.
  - assert (2 ^ (- e) <= 2 ^ 1080) by (apply Z.pow_le_mono_r; lia). assert (0 < 2 ^ (- e)) by (apply Z.pow_pos_nonneg; lia).
    assert (2 ^ 53 < 2 ^ 1080) by (vm_compute; reflexivity). split; [|lia].
    assert (1 * 10 ^ 998 <= 2 ^ (- e) * 10 ^ 998) by (apply Z.mul_le_mono_nonneg_r; lia). lia.
Qed.

(** What the printer writes of a double that is not an integer. *)
Lemma fmt_g_jnumber P d : 1 <= P <= 17 -> valid_binary 53 1024 d = true ->
  (exists s, d = S754_zero s) \/ (exists s m e, d = S754_finite s m e) ->
  jnumber (fmt_g P d) /\ zlen (fmt_g P d) <= 24.
Proof.
  intros HP Hv [[s ->]|(s & m & e & ->)].
  - cbn [fmt_g]. destruct s; (split; [|unfold zlen; simpl; lia]).
    + exists [c_minus], [c_0], [], []. repeat (split; [by auto using jint_zero, jfrac_none, jexp_none|]). unfold zlen. simpl. lia.
    + exists [], [c_0], [], []. repeat (split; [by auto using jint_zero, jfrac_none, jexp_none|]). unfold zlen. simpl. lia.
  - cbn [fmt_g]. cbv zeta. pose proof (valid_moderate m e Hv) as Hm.
    destruct (fmt_g_pos_spec P (if 0 <=? e then Z.pos m * 2 ^ e else Z.pos m) (if 0 <=? e then 1 else 2 ^ (- e)) HP)
      as (i & f & x & E & Hi & Hf & Hx & Hl); [..|done|].
    1,2: destruct (Z.leb_spec 0 e); try lia; try apply Z.mul_pos_pos; try apply Z.pow_pos_nonneg; lia.
    rewrite E. destruct s; (split; [|rewrite ?zlen_app in *; unfold zlen at 1; simpl length; lia]).
    + exists [c_minus], i, f, x. split; [done|]. split; [by right|]. repeat (split; [done|]). rewrite zlen_app. unfold zlen at 1. simpl length. lia.
    + exists [], i, f, x. split; [done|]. split; [by left|]. repeat (split; [done|]). simpl. lia.
Qed.
