(* ===== verification/CJson.v ===== *)
(** * cJSON: parsing

    The parser of [cjson.c] over a buffer of bytes.  Indices into the buffer
    stand for pointers; reading outside the buffer, or storing outside an
    allocated string, is undefined behaviour.  [alloc] answers the successive
    calls of the allocator.  A node's list of children replaces the links
    [next], [prev] and [child]. *)

From Stdlib Require Import String.
From S2P Require Import Prelude Bytes Double.
Local Open Scope c_scope.

(** ** Data *)

Definition cJSON_Invalid : Z := 0.
Definition cJSON_False : Z := 1.
Definition cJSON_True : Z := 2.
Definition cJSON_NULL : Z := 4.
Definition cJSON_Number : Z := 8.
Definition cJSON_String : Z := 16.
Definition cJSON_Array : Z := 32.
Definition cJSON_Object : Z := 64.
Definition cJSON_Raw : Z := 128.
Definition cJSON_IsReference : Z := 256.
Definition cJSON_StringIsConst : Z := 512.
Definition CJSON_NESTING_LIMIT : Z := 1000.

(** [type], [child], [valuestring], [valueint], [valuedouble], [string]. *)
Inductive cJSON :=
| Node (jtype : Z) (jchild : list cJSON) (jvaluestring : option (list Z)) (jvalueint : Z)
    (jvaluedouble : double) (jstring : option (list Z)).

Definition jtype (j : cJSON) : Z := let 'Node t _ _ _ _ _ := j in t.
Definition jchild (j : cJSON) : list cJSON := let 'Node _ c _ _ _ _ := j in c.
Definition jvaluestring (j : cJSON) : option (list Z) := let 'Node _ _ v _ _ _ := j in v.
Definition jvalueint (j : cJSON) : Z := let 'Node _ _ _ i _ _ := j in i.
Definition jvaluedouble (j : cJSON) : double := let 'Node _ _ _ _ d _ := j in d.
Definition jstring (j : cJSON) : option (list Z) := let 'Node _ _ _ _ _ s := j in s.

Definition set_jstring (s : option (list Z)) (j : cJSON) : cJSON :=
  let 'Node t c v i d _ := j in Node t c v i d s.

(** The node [cJSON_New_Item] returns, all fields zero. *)
Definition new_item : cJSON := Node cJSON_Invalid [] None 0 D_zero None.

Module Parse.
Section Parse.
(** [content] is the memory the buffer points to, [blength] the length the
    caller declares. *)
Context (content : list Z) (blength : Z) (alloc : nat -> bool).

(** [struct parse_buffer], the number of allocations made so far, and whether
    one of them failed. *)
Record parse_buffer := mk_pb { offset : Z; depth : Z; nalloc : nat; oom : bool }.

Definition BM := CM parse_buffer.

Definition set_offset (o : Z) : BM unit :=
  modify (fun b => mk_pb o (depth b) (nalloc b) (oom b)).
Definition add_offset (n : Z) : BM unit :=
  modify (fun b => mk_pb (offset b + n) (depth b) (nalloc b) (oom b)).
Definition add_depth (n : Z) : BM unit :=
  modify (fun b => mk_pb (offset b) (depth b + n) (nalloc b) (oom b)).

Definition allocate : BM bool :=
  b <- get ;;
  let ok := alloc (nalloc b) in
  modify (fun b => mk_pb (offset b) (depth b) (S (nalloc b)) (oom b || negb ok)) ;;;
  ret ok.

(** [content[i]] *)
Definition at_index (i : Z) : BM Z := fun b =>
  if i <? 0 then UB
  else match content !! Z.to_nat i with Some c => Ret (c, b) | None => UB end.

Definition can_access (i : Z) : BM bool := gets (fun b => offset b + i <? blength).
Definition can_read (n : Z) : BM bool := gets (fun b => offset b + n <=? blength).

(** [buffer_at_offset(buffer)[0]] *)
Definition here : BM Z := o <- gets offset ;; at_index o.

(** Whether [can_access_at_index(buffer, 0)] holds and the byte there is [c]. *)
Definition here_is (c : Z) : BM bool :=
  ok <- can_access 0 ;;
  if ok then x <- here ;; ret (x =? c) else ret false.

(** [strncmp(buffer_at_offset(buffer), l, strlen(l)) == 0], stopping at a difference. *)
Fixpoint same_text (i : Z) (l : list Z) : BM bool :=
  match l with
  | [] => ret true
  | c :: l => x <- at_index i ;; if x =? c then same_text (i + 1) l else ret false
  end.

Definition looking_at (l : list Z) : BM bool :=
  ok <- can_read (zlen l) ;;
  if ok then o <- gets offset ;; same_text o l else ret false.

(** ** Blanks *)

Fixpoint skip_loop (fuel : nat) : BM unit :=
  ok <- can_access 0 ;;
  if ok then
    c <- here ;;
    if c <=? 32 then
      match fuel with O => out_of_fuel | S fuel => add_offset 1 ;;; skip_loop fuel end
    else ret tt
  else ret tt.

Definition buffer_skip_whitespace (fuel : nat) : BM unit :=
  ok <- can_access 0 ;;
  if negb ok then ret tt
  else
    skip_loop fuel ;;;
    o <- gets offset ;;
    if o =? blength then add_offset (-1) else ret tt.

Definition skip_utf8_bom : BM unit :=
  ok <- can_access 4 ;;
  if ok then
    o <- gets offset ;;
    same <- same_text o [239; 187; 191] ;;
    if same then add_offset 3 else ret tt
  else ret tt.

(** ** Numbers *)

Definition number_char (c : Z) : bool :=
  is_digit c || (c =? c_plus) || (c =? c_minus) || (c =? c_e) || (c =? c_E) || (c =? c_dot).

(** The characters copied to [number_c_string], at most [n] of them. *)
Fixpoint number_text (n : nat) (i : Z) : BM (list Z) :=
  match n with
  | O => ret []
  | S n =>
      ok <- can_access i ;;
      if ok then
        o <- gets offset ;;
        c <- at_index (o + i) ;;
        if number_char c then l <- number_text n (i + 1) ;; ret (c :: l) else ret []
      else ret []
  end.

Definition LLONG_MAX : Z := 9223372036854775807.
Definition LLONG_MIN : Z := -9223372036854775808.

(** The conversion to [valueint], with saturation. *)
Definition saturate (number : double) : Z :=
  if D_leb (D_of_Z LLONG_MAX) number then LLONG_MAX
  else if D_leb number (D_of_Z LLONG_MIN) then LLONG_MIN
  else D_trunc number.

Definition parse_number : BM (option cJSON) :=
  text <- number_text 63 0 ;;
  let '(number, used) := strtod text in
  match used with
  | O => ret None
  | S _ =>
      add_offset (Z.of_nat used) ;;;
      ret (Some (Node cJSON_Number [] None (saturate number) number None))
  end.

(** ** Strings *)

Definition hex4_digit (c : Z) : option Z :=
  if (c_0 <=? c) && (c <=? c_9) then Some (c - c_0)
  else if (c_A <=? c) && (c <=? c_F) then Some (10 + c - c_A)
  else if (c_a <=? c) && (c <=? c_f) then Some (10 + c - c_a)
  else None.

(** [n] digits to go; [h] is shifted before each digit but the first. *)
Fixpoint parse_hex4_loop (n : nat) (i h : Z) : BM Z :=
  match n with
  | O => ret h
  | S n =>
      c <- at_index i ;;
      match hex4_digit c with
      | None => ret 0
      | Some d =>
          let h := u32 (h + d) in
          match n with
          | O => ret h
          | S _ => parse_hex4_loop n (i + 1) (u32 (Z.shiftl h 4))
          end
      end
  end.

Definition parse_hex4 (i : Z) : BM Z := parse_hex4_loop 4 i 0.

(** The bytes [utf16_literal_to_utf8] stores for a code point. *)
Definition codepoint_utf8 (codepoint : Z) : list Z :=
  let cont (c : Z) := Z.land (Z.lor c 128) 191 in
  if codepoint <? 128 then [Z.land codepoint 127]
  else if codepoint <? 2048 then
    [Z.land (Z.lor (Z.shiftr codepoint 6) 192) 255; cont (u8 codepoint)]
  else if codepoint <? 65536 then
    [Z.land (Z.lor (Z.shiftr codepoint 12) 224) 255; cont (u8 (Z.shiftr codepoint 6));
     cont (u8 codepoint)]
  else
    [Z.land (Z.lor (Z.shiftr codepoint 18) 240) 255; cont (u8 (Z.shiftr codepoint 12));
     cont (u8 (Z.shiftr codepoint 6)); cont (u8 codepoint)].

(** The escape at [input_pointer]: its length in the input and the bytes it
    stands for; nothing for an invalid one.  [u32] never makes a code point
    exceed 0x10FFFF, the last guard of the function. *)
Definition utf16_literal_to_utf8 (input_pointer input_end : Z) : BM (option (Z * list Z)) :=
  if input_end - input_pointer <? 6 then ret None
  else
    first_code <- parse_hex4 (input_pointer + 2) ;;
    if (56320 <=? first_code) && (first_code <=? 57343) then ret None
    else if (55296 <=? first_code) && (first_code <=? 56319) then
      let second := input_pointer + 6 in
      if input_end - second <? 6 then ret None
      else
        c0 <- at_index second ;;
        if negb (c0 =? c_bslash) then ret None else
        c1 <- at_index (second + 1) ;;
        if negb (c1 =? c_u) then ret None else
        second_code <- parse_hex4 (second + 2) ;;
        if (second_code <? 56320) || (57343 <? second_code) then ret None
        else ret (Some (12, codepoint_utf8
               (65536 + Z.lor (Z.shiftl (Z.land first_code 1023) 10) (Z.land second_code 1023))))
    else ret (Some (6, codepoint_utf8 first_code)).

(** The index of the closing quote and the number of backslashes before it. *)
Fixpoint string_end (fuel : nat) (i skipped : Z) : BM (option (Z * Z)) :=
  if i <? blength then
    c <- at_index i ;;
    if c =? c_quote then ret (Some (i, skipped))
    else
      match fuel with
      | O => out_of_fuel
      | S fuel =>
          if c =? c_bslash then
            if blength <=? i + 1 then ret None else string_end fuel (i + 2) (skipped + 1)
          else string_end fuel (i + 1) skipped
      end
  else ret None.

Definition push (out : cbuf) (l : list Z) : BM cbuf :=
  match buf_write out (zlen (data out)) l with
  | Some out => ret out
  | None => undefined
  end.

(** The character a simple escape stands for. *)
Definition simple_escape (c : Z) : option Z :=
  if c =? c_b then Some c_bs else if c =? c_f then Some c_ff else if c =? c_n then Some c_nl
  else if c =? c_r then Some c_cr else if c =? c_t then Some c_tab
  else if (c =? c_quote) || (c =? c_bslash) || (c =? c_slash) then Some c
  else None.

(** Copies the literal, decoding escapes; the index is where it stopped, the
    flag whether it reached the end. *)
Fixpoint string_copy (fuel : nat) (i e : Z) (out : cbuf) : BM (bool * Z * cbuf) :=
  if i <? e then
    match fuel with
    | O => out_of_fuel
    | S fuel =>
        c <- at_index i ;;
        if negb (c =? c_bslash) then out <- push out [c] ;; string_copy fuel (i + 1) e out
        else if e - i <? 1 then ret (false, i, out)
        else
          c <- at_index (i + 1) ;;
          match simple_escape c with
          | Some x => out <- push out [x] ;; string_copy fuel (i + 2) e out
          | None =>
              if c =? c_u then
                r <- utf16_literal_to_utf8 i e ;;
                match r with
                | Some (n, l) => out <- push out l ;; string_copy fuel (i + n) e out
                | None => ret (false, i, out)
                end
              else ret (false, i, out)
          end
    end
  else ret (true, i, out).

(** The decoded text. *)
Definition parse_string (fuel : nat) : BM (option (list Z)) :=
  o <- gets offset ;;
  c <- at_index o ;;
  if negb (c =? c_quote) then set_offset (o + 1) ;;; ret None
  else
    r <- string_end fuel (o + 1) 0 ;;
    match r with
    | None => set_offset (o + 1) ;;; ret None
    | Some (e, skipped) =>
        let allocation_length := e - o - skipped in
        ok <- allocate ;;
        if negb ok then set_offset (o + 1) ;;; ret None
        else
          r <- string_copy fuel (o + 1) e (mk_cbuf (allocation_length + 1) []) ;;
          let '(ok, i, out) := r in
          if negb ok then set_offset i ;;; ret None
          else
            (* the terminating zero has to fit as well *)
            out <- push out [0] ;;
            set_offset (e + 1) ;;;
            ret (Some (cstr (data out)))
    end.

(** ** Values *)

(** The elements of an array; [rec] parses one value.  The offset is at the
    character in front of the element. *)
Fixpoint array_loop (rec : BM (option cJSON)) (fuel ws : nat) (items : list cJSON) :
    BM (option (list cJSON)) :=
  ok <- allocate ;;
  if negb ok then ret None else
  add_offset 1 ;;;
  buffer_skip_whitespace ws ;;;
  r <- rec ;;
  match r with
  | None => ret None
  | Some item =>
      buffer_skip_whitespace ws ;;;
      more <- here_is c_comma ;;
      if more then
        match fuel with
        | O => out_of_fuel
        | S fuel => array_loop rec fuel ws (items ++ [item])
        end
      else ret (Some (items ++ [item]))
  end.

Fixpoint object_loop (rec : BM (option cJSON)) (fuel ws : nat) (items : list cJSON) :
    BM (option (list cJSON)) :=
  ok <- allocate ;;
  if negb ok then ret None else
  add_offset 1 ;;;
  buffer_skip_whitespace ws ;;;
  k <- parse_string ws ;;
  match k with
  | None => ret None
  | Some k =>
      buffer_skip_whitespace ws ;;;
      colon <- here_is c_colon ;;
      if negb colon then ret None else
      add_offset 1 ;;;
      buffer_skip_whitespace ws ;;;
      r <- rec ;;
      match r with
      | None => ret None
      | Some item =>
          buffer_skip_whitespace ws ;;;
          let items := items ++ [set_jstring (Some k) item] in
          more <- here_is c_comma ;;
          if more then
            match fuel with
            | O => out_of_fuel
            | S fuel => object_loop rec fuel ws items
            end
          else ret (Some items)
      end
  end.

(** Arrays and objects share their frame: the nesting limit, the opening
    character ([opened] tests it), the empty case, the loop and the closing
    character. *)
Definition container (ws : nat) (t : Z) (opened : BM bool) (close : Z) (loop : BM (option (list cJSON))) : BM (option cJSON) :=
  d <- gets depth ;;
  if CJSON_NESTING_LIMIT <=? d then ret None
  else
    add_depth 1 ;;;
    o <- opened ;;
    if negb o then ret None
    else
      add_offset 1 ;;;
      buffer_skip_whitespace ws ;;;
      empty <- here_is close ;;
      let success (items : list cJSON) :=
        add_depth (-1) ;;;
        add_offset 1 ;;;
        ret (Some (Node t items None 0 D_zero None)) in
      if empty then success []
      else
        ok <- can_access 0 ;;
        if negb ok then add_offset (-1) ;;; ret None
        else
          add_offset (-1) ;;;
          r <- loop ;;
          match r with
          | None => ret None
          | Some items =>
              closed <- here_is close ;;
              if closed then success items else ret None
          end.

Definition parse_array (rec : BM (option cJSON)) (fuel : nat) : BM (option cJSON) :=
  container fuel cJSON_Array (c <- here ;; ret (c =? c_lbrack)) c_rbrack (array_loop rec fuel fuel []).

Definition parse_object (rec : BM (option cJSON)) (fuel : nat) : BM (option cJSON) :=
  container fuel cJSON_Object (here_is c_lbrace) c_rbrace (object_loop rec fuel fuel []).

Definition txt_null : list Z := Eval vm_compute in bytes_of "null"%string.
Definition txt_false : list Z := Eval vm_compute in bytes_of "false"%string.
Definition txt_true : list Z := Eval vm_compute in bytes_of "true"%string.

(** [levels] bounds the nesting, [fuel] every loop. *)
Fixpoint parse_value (levels fuel : nat) : BM (option cJSON) :=
  isnull <- looking_at txt_null ;;
  if isnull then add_offset 4 ;;; ret (Some (Node cJSON_NULL [] None 0 D_zero None)) else
  isfalse <- looking_at txt_false ;;
  if isfalse then add_offset 5 ;;; ret (Some (Node cJSON_False [] None 0 D_zero None)) else
  istrue <- looking_at txt_true ;;
  if istrue then add_offset 4 ;;; ret (Some (Node cJSON_True [] None 1 D_zero None)) else
  isstring <- here_is c_quote ;;
  if isstring then
    s <- parse_string fuel ;;
    ret (match s with
         | Some s => Some (Node cJSON_String [] (Some s) 0 D_zero None)
         | None => None
         end)
  else
    ok <- can_access 0 ;;
    if negb ok then ret None else
    c <- here ;;
    if (c =? c_minus) || is_digit c then parse_number
    else
      match levels with
      | O => out_of_fuel
      | S levels =>
          if c =? c_lbrack then parse_array (parse_value levels fuel) fuel
          else if c =? c_lbrace then parse_object (parse_value levels fuel) fuel
          else ret None
      end.

Definition max_levels : nat := 1001.

(** The root item is allocated first; on failure everything is deleted. *)
Definition cJSON_ParseWithLengthOpts (require_null_terminated : bool) : BM (option cJSON) :=
  if blength =? 0 then ret None
  else
    let fuel := Z.to_nat blength in
    ok <- allocate ;;
    if negb ok then ret None else
    skip_utf8_bom ;;;
    buffer_skip_whitespace fuel ;;;
    r <- parse_value max_levels fuel ;;
    match r with
    | None => ret None
    | Some item =>
        if require_null_terminated then
          buffer_skip_whitespace fuel ;;;
          o <- gets offset ;;
          if blength <=? o then ret None
          else
            c <- here ;;
            if c =? 0 then ret (Some item) else ret None
        else ret (Some item)
    end.

(** A run from the start of the buffer: the item, and whether memory ran out. *)
Definition run_parse (require_null_terminated : bool) : outcome (option cJSON * bool) :=
  match cJSON_ParseWithLengthOpts require_null_terminated (mk_pb 0 0 0 false) with
  | Ret (r, b) => Ret (r, oom b)
  | UB => UB
  | OutOfFuel => OutOfFuel
  end.

End Parse.
End Parse.

(** [cJSON_Parse] of the C string at the start of [value]: [strlen] runs off the
    memory when there is no NUL. *)
Definition cJSON_Parse (alloc : nat -> bool) (value : list Z) : outcome (option cJSON * bool) :=
  if bool_decide (0 ∈ value) then Parse.run_parse value (zlen (cstr value) + 1) alloc false else UB.
