(* ===== verification/CJsonTree.v ===== *)
(** * cJSON: building, searching, copying and comparing trees

    The operations of [cjson.c] on item trees, and the two helpers of
    [iperf_util.c] built on them.  [alloc] answers the successive calls of the
    allocator, the state counts them.  An item is a value: a pointer into a tree
    is the item it points to, and a function that links an item into a tree
    returns the new tree. *)

From Stdlib Require Import String.
From S2P Require Import Prelude Bytes Double CJson.
Local Open Scope c_scope.

Definition set_jtype (t : Z) (j : cJSON) : cJSON := let 'Node _ c v i d s := j in Node t c v i d s.
Definition set_jchild (c : list cJSON) (j : cJSON) : cJSON := let 'Node t _ v i d s := j in Node t c v i d s.

(** ** Types *)

Definition base_type (j : cJSON) : Z := Z.land (jtype j) 255.

Definition is_type (t : Z) (item : option cJSON) : bool :=
  match item with None => false | Some j => base_type j =? t end.

Definition cJSON_IsInvalid := is_type cJSON_Invalid.
Definition cJSON_IsFalse := is_type cJSON_False.
Definition cJSON_IsTrue := is_type cJSON_True.
Definition cJSON_IsBool (item : option cJSON) : bool :=
  match item with
  | None => false
  | Some j => negb (Z.land (jtype j) (Z.lor cJSON_True cJSON_False) =? 0)
  end.
Definition cJSON_IsNull := is_type cJSON_NULL.
Definition cJSON_IsNumber := is_type cJSON_Number.
Definition cJSON_IsString := is_type cJSON_String.
Definition cJSON_IsArray := is_type cJSON_Array.
Definition cJSON_IsObject := is_type cJSON_Object.
Definition cJSON_IsRaw := is_type cJSON_Raw.

Definition cJSON_GetStringValue (item : option cJSON) : option (list Z) :=
  if cJSON_IsString item then item ≫= jvaluestring else None.

Definition cJSON_GetNumberValue (item : option cJSON) : double :=
  match item with
  | Some j => if cJSON_IsNumber item then jvaluedouble j else S754_nan
  | None => S754_nan
  end.

(** ** Lookup *)

(** The number of children, converted from [size_t] to [int]. *)
Definition cJSON_GetArraySize (array : option cJSON) : Z :=
  match array with None => 0 | Some j => s32 (zlen (jchild j)) end.

Definition get_array_item (array : option cJSON) (index : Z) : option cJSON :=
  match array with None => None | Some j => jchild j !! Z.to_nat index end.

Definition cJSON_GetArrayItem (array : option cJSON) (index : Z) : option cJSON :=
  if index <? 0 then None else get_array_item array index.

(** Two strings of which neither is null, without regard to case. *)
Definition case_insensitive_equal (name : list Z) (s : option (list Z)) : bool :=
  match s with None => false | Some s => strcaseeq name s end.

(** The index of the first match; with case the search ends at an item without a name. *)
Fixpoint find_item (case_sensitive : bool) (name : list Z) (l : list cJSON) : option nat :=
  match l with
  | [] => None
  | j :: l =>
      if case_sensitive then
        match jstring j with
        | None => None
        | Some s => if streq name s then Some 0%nat else S <$> find_item case_sensitive name l
        end
      else if case_insensitive_equal name (jstring j) then Some 0%nat
      else S <$> find_item case_sensitive name l
  end.

Definition get_object_item (object : option cJSON) (name : option (list Z)) (case_sensitive : bool) : option cJSON :=
  match object, name with
  | Some o, Some n => find_item case_sensitive n (jchild o) ≫= fun i => jchild o !! i
  | _, _ => None
  end.

Definition cJSON_GetObjectItem (object : option cJSON) (string : option (list Z)) : option cJSON :=
  get_object_item object string false.

Definition cJSON_GetObjectItemCaseSensitive (object : option cJSON) (string : option (list Z)) : option cJSON :=
  get_object_item object string true.

Definition cJSON_HasObjectItem (object : option cJSON) (string : option (list Z)) : bool :=
  match cJSON_GetObjectItem object string with Some _ => true | None => false end.

(** The item of that name, if it has the expected type. *)
Definition iperf_cJSON_GetObjectItemType (j : option cJSON) (item_string : list Z) (expected_type : Z) : option cJSON :=
  let j_p := cJSON_GetObjectItem j (Some item_string) in
  let checked (b : bool) := if b then j_p else None in
  match j_p with
  | None => None
  | Some _ =>
      if expected_type =? cJSON_True then checked (cJSON_IsBool j_p)
      else if expected_type =? cJSON_String then checked (cJSON_IsString j_p)
      else if expected_type =? cJSON_Number then checked (cJSON_IsNumber j_p)
      else if expected_type =? cJSON_Array then checked (cJSON_IsArray j_p)
      else None
  end.

(** ** Detaching

    The detached item and what remains; nothing to detach leaves the tree. *)

Definition remove_at (i : nat) (l : list cJSON) : list cJSON := firstn i l ++ drop (S i) l.

Definition detach_at (parent : cJSON) (i : option nat) : option cJSON * cJSON :=
  match i with
  | None => (None, parent)
  | Some i =>
      match jchild parent !! i with
      | None => (None, parent)
      | Some item => (Some item, set_jchild (remove_at i (jchild parent)) parent)
      end
  end.

Definition cJSON_DetachItemFromArray (array : cJSON) (which : Z) : option cJSON * cJSON :=
  detach_at array (if which <? 0 then None else Some (Z.to_nat which)).

Definition cJSON_DetachItemFromObject (object : cJSON) (string : list Z) : option cJSON * cJSON :=
  detach_at object (find_item false string (jchild object)).

Definition cJSON_DetachItemFromObjectCaseSensitive (object : cJSON) (string : list Z) : option cJSON * cJSON :=
  detach_at object (find_item true string (jchild object)).

(** ** Comparison *)

Definition DBL_EPSILON : double := S754_finite false 4503599627370496 (-104).

Definition D_abs (d : double) : double :=
  match d with
  | S754_zero _ => S754_zero false
  | S754_infinity _ => S754_infinity false
  | S754_finite _ m e => S754_finite false m e
  | S754_nan => S754_nan
  end.

Definition compare_double (a b : double) : bool :=
  let maxVal := if D_ltb (D_abs b) (D_abs a) then D_abs a else D_abs b in
  D_leb (D_abs (D_sub a b)) (D_mul maxVal DBL_EPSILON).

Definition valid_type (t : Z) : bool :=
  (t =? cJSON_False) || (t =? cJSON_True) || (t =? cJSON_NULL) || (t =? cJSON_Number) || (t =? cJSON_String) ||
  (t =? cJSON_Raw) || (t =? cJSON_Array) || (t =? cJSON_Object).

(** Short-circuit conjunction of computations with a bound on their depth. *)
Definition and_then (a : option bool) (b : option bool) : option bool :=
  match a with Some true => b | _ => a end.

(** Two items at different addresses; nothing when [fuel] does not cover the nesting. *)
Fixpoint cJSON_Compare (fuel : nat) (case_sensitive : bool) (a b : cJSON) : option bool :=
  if negb (base_type a =? base_type b) then Some false
  else
    let t := base_type a in
    if negb (valid_type t) then Some false
    else if (t =? cJSON_False) || (t =? cJSON_True) || (t =? cJSON_NULL) then Some true
    else if t =? cJSON_Number then Some (compare_double (jvaluedouble a) (jvaluedouble b))
    else if (t =? cJSON_String) || (t =? cJSON_Raw) then
      match jvaluestring a, jvaluestring b with
      | Some x, Some y => Some (streq x y)
      | _, _ => Some false
      end
    else
      match fuel with
      | O => None
      | S fuel =>
          if t =? cJSON_Array then
            (fix elements (la lb : list cJSON) : option bool :=
               match la, lb with
               | x :: la, y :: lb => and_then (cJSON_Compare fuel case_sensitive x y) (elements la lb)
               | [], [] => Some true
               | _, _ => Some false
               end) (jchild a) (jchild b)
          else
            let included (la : list cJSON) (other : cJSON) :=
              foldr (fun x rest =>
                match get_object_item (Some other) (jstring x) case_sensitive with
                | None => Some false
                | Some y => and_then (cJSON_Compare fuel case_sensitive x y) rest
                end) (Some true) la in
            and_then (included (jchild a) b) (included (jchild b) a)
      end.

(** How deep a tree is. *)
Fixpoint nesting (j : cJSON) : nat :=
  let 'Node _ c _ _ _ _ := j in S (foldr (fun x n => Nat.max (nesting x) n) 0%nat c).

Section Build.
Context (alloc : nat -> bool).

Definition AM := CM nat.

Definition allocate : AM bool := fun n => Ret (alloc n, S n).

Definition cJSON_New_Item : AM (option cJSON) :=
  ok <- allocate ;; ret (if ok then Some new_item else None).

Definition cJSON_strdup (string : option (list Z)) : AM (option (list Z)) :=
  match string with
  | None => ret None
  | Some s => ok <- allocate ;; ret (if ok then Some (cstr s) else None)
  end.

(** ** Creation *)

Definition create (init : cJSON -> cJSON) : AM (option cJSON) :=
  item <- cJSON_New_Item ;; ret (init <$> item).

Definition cJSON_CreateNull : AM (option cJSON) := create (set_jtype cJSON_NULL).
Definition cJSON_CreateTrue : AM (option cJSON) := create (set_jtype cJSON_True).
Definition cJSON_CreateFalse : AM (option cJSON) := create (set_jtype cJSON_False).
Definition cJSON_CreateBool (boolean : bool) : AM (option cJSON) :=
  create (set_jtype (if boolean then cJSON_True else cJSON_False)).
Definition cJSON_CreateArray : AM (option cJSON) := create (set_jtype cJSON_Array).
Definition cJSON_CreateObject : AM (option cJSON) := create (set_jtype cJSON_Object).

(** The integer of a NaN is not specified by the language. *)
Definition number_node (num : double) : cJSON := Node cJSON_Number [] None (Parse.saturate num) num None.

Definition cJSON_CreateNumber (num : double) : AM (option cJSON) := create (fun _ => number_node num).

(** An item of type [t] with a copy of the text. *)
Definition create_text (t : Z) (string : option (list Z)) : AM (option cJSON) :=
  item <- cJSON_New_Item ;;
  match item with
  | None => ret None
  | Some _ =>
      v <- cJSON_strdup string ;;
      match v with
      | None => ret None
      | Some v => ret (Some (Node t [] (Some v) 0 D_zero None))
      end
  end.

Definition cJSON_CreateString (string : option (list Z)) : AM (option cJSON) := create_text cJSON_String string.
Definition cJSON_CreateRaw (raw : option (list Z)) : AM (option cJSON) := create_text cJSON_Raw raw.

Definition cJSON_CreateStringReference (string : option (list Z)) : AM (option cJSON) :=
  create (fun _ => Node (Z.lor cJSON_String cJSON_IsReference) [] string 0 D_zero None).
Definition cJSON_CreateObjectReference (child : list cJSON) : AM (option cJSON) :=
  create (fun _ => Node (Z.lor cJSON_Object cJSON_IsReference) child None 0 D_zero None).
Definition cJSON_CreateArrayReference (child : list cJSON) : AM (option cJSON) :=
  create (fun _ => Node (Z.lor cJSON_Array cJSON_IsReference) child None 0 D_zero None).

(** ** Adding

    The tree with the new item; nothing when the call fails, which leaves the
    tree as it was. *)

Definition add_item_to_array (array item : option cJSON) : option cJSON :=
  match array, item with
  | Some a, Some x => Some (set_jchild (jchild a ++ [x]) a)
  | _, _ => None
  end.

Definition cJSON_AddItemToArray := add_item_to_array.

Definition add_item_to_object (object : option cJSON) (string : option (list Z)) (item : option cJSON)
    (constant_key : bool) : AM (option cJSON) :=
  match object, string, item with
  | Some o, Some s, Some x =>
      if constant_key then
        ret (add_item_to_array (Some o)
               (Some (set_jstring (Some s) (set_jtype (Z.lor (jtype x) cJSON_StringIsConst) x))))
      else
        new_key <- cJSON_strdup (Some s) ;;
        match new_key with
        | None => ret None
        | Some k =>
            ret (add_item_to_array (Some o)
                   (Some (set_jstring (Some k)
                            (set_jtype (Z.land (jtype x) (Z.lnot cJSON_StringIsConst)) x))))
        end
  | _, _, _ => ret None
  end.

Definition cJSON_AddItemToObject (object : option cJSON) (string : option (list Z)) (item : option cJSON) :=
  add_item_to_object object string item false.
Definition cJSON_AddItemToObjectCS (object : option cJSON) (string : option (list Z)) (item : option cJSON) :=
  add_item_to_object object string item true.

(** A shallow copy that shares the children and the text. *)
Definition create_reference (item : option cJSON) : AM (option cJSON) :=
  match item with
  | None => ret None
  | Some x =>
      r <- cJSON_New_Item ;;
      ret ((fun _ => set_jstring None (set_jtype (Z.lor (jtype x) cJSON_IsReference) x)) <$> r)
  end.

Definition cJSON_AddItemReferenceToArray (array item : option cJSON) : AM (option cJSON) :=
  match array with
  | None => ret None
  | Some _ => r <- create_reference item ;; ret (add_item_to_array array r)
  end.

Definition cJSON_AddItemReferenceToObject (object : option cJSON) (string : option (list Z)) (item : option cJSON) :
    AM (option cJSON) :=
  match object, string with
  | Some _, Some _ => r <- create_reference item ;; add_item_to_object object string r false
  | _, _ => ret None
  end.

(** Create an item and add it; the item is deleted when it cannot be added. *)
Definition add_created (mk : AM (option cJSON)) (object : option cJSON) (name : option (list Z)) : AM (option cJSON) :=
  item <- mk ;; add_item_to_object object name item false.

Definition cJSON_AddNullToObject := add_created cJSON_CreateNull.
Definition cJSON_AddTrueToObject := add_created cJSON_CreateTrue.
Definition cJSON_AddFalseToObject := add_created cJSON_CreateFalse.
Definition cJSON_AddBoolToObject object name (boolean : bool) := add_created (cJSON_CreateBool boolean) object name.
Definition cJSON_AddNumberToObject object name (number : double) := add_created (cJSON_CreateNumber number) object name.
Definition cJSON_AddStringToObject object name (string : option (list Z)) := add_created (cJSON_CreateString string) object name.
Definition cJSON_AddRawToObject object name (raw : option (list Z)) := add_created (cJSON_CreateRaw raw) object name.
Definition cJSON_AddObjectToObject := add_created cJSON_CreateObject.
Definition cJSON_AddArrayToObject := add_created cJSON_CreateArray.

(** ** Copying *)

Definition dup_text (s : option (list Z)) : AM (option (option (list Z))) :=
  match s with
  | None => ret (Some None)
  | Some _ => r <- cJSON_strdup s ;; ret (match r with None => None | Some k => Some (Some k) end)
  end.

(** A constant name is shared. *)
Definition dup_name (t : Z) (s : option (list Z)) : AM (option (option (list Z))) :=
  if negb (Z.land t cJSON_StringIsConst =? 0) then ret (Some s) else dup_text s.

Fixpoint cJSON_Duplicate (item : cJSON) (recurse : bool) : AM (option cJSON) :=
  let 'Node t c v i d s := item in
  newitem <- cJSON_New_Item ;;
  match newitem with
  | None => ret None
  | Some _ =>
      v' <- dup_text v ;;
      match v' with
      | None => ret None
      | Some v' =>
          s' <- dup_name t s ;;
          match s' with
          | None => ret None
          | Some s' =>
              let t' := Z.land t (Z.lnot cJSON_IsReference) in
              if negb recurse then ret (Some (Node t' [] v' i d s'))
              else
                c' <- (fix children (l : list cJSON) : AM (option (list cJSON)) :=
                         match l with
                         | [] => ret (Some [])
                         | x :: l =>
                             y <- cJSON_Duplicate x true ;;
                             match y with
                             | None => ret None
                             | Some y => r <- children l ;; ret (cons y <$> r)
                             end
                         end) c ;;
                ret ((fun c' => Node t' c' v' i d s') <$> c')
          end
      end
  end.

(** ** Objects from a format *)

(** The arguments of [iperf_json_printf] in the order the format takes them. *)
Inductive va_value :=
| va_bool (b : bool)
| va_int64 (n : Z)
| va_double (d : double)
| va_string (s : option (list Z)).

(** The object, [name[100]] with the index of [np], and the arguments left. *)
Record printf_state := mk_printf { p_object : cJSON; p_name : cbuf; p_np : Z; p_args : list va_value }.

(** The C string in [name]: it ends inside the bytes that were written. *)
Definition name_text (b : cbuf) : option (list Z) :=
  if existsb (Z.eqb 0) (data b) then Some (cstr (data b)) else None.

(** The item of one conversion; [None] inside for a failed allocation. *)
Definition conversion (c : Z) (a : va_value) : AM (option cJSON) :=
  match a with
  | va_bool b => if c =? c_b then cJSON_CreateBool b else undefined
  | va_int64 n => if c =? 100 then cJSON_CreateNumber (D_of_Z n) else undefined
  | va_double d => if c =? c_f then cJSON_CreateNumber d else undefined
  | va_string s => if c =? 115 then cJSON_CreateString s else undefined
  end.

Definition known_conversion (c : Z) : bool := (c =? c_b) || (c =? 100) || (c =? c_f) || (c =? 115).

Definition poke_name (st : printf_state) (c : Z) (np : Z) : AM printf_state :=
  match buf_poke (p_name st) (p_np st) c with
  | Some b => ret (mk_printf (p_object st) b np (p_args st))
  | None => undefined
  end.

Fixpoint printf_loop (format : list Z) (st : printf_state) : AM (option cJSON) :=
  match format with
  | [] => ret (Some (p_object st))
  | cp :: rest =>
      if cp =? c_space then printf_loop rest st
      else if cp =? c_colon then st <- poke_name st 0 (p_np st) ;; printf_loop rest st
      else if cp =? 37 then
        match rest with
        | [] => ret None
        | c :: rest =>
            if negb (known_conversion c) then ret None
            else
              match p_args st with
              | [] => undefined
              | a :: args =>
                  j <- conversion c a ;;
                  match j with
                  | None => ret None
                  | Some j =>
                      match name_text (p_name st) with
                      | None => undefined
                      | Some name =>
                          o <- cJSON_AddItemToObject (Some (p_object st)) (Some name) (Some j) ;;
                          printf_loop rest (mk_printf (default (p_object st) o) (p_name st) 0 args)
                      end
                  end
              end
        end
      else st <- poke_name st cp (p_np st + 1) ;; printf_loop rest st
  end.

Definition iperf_json_printf (format : list Z) (args : list va_value) : AM (option cJSON) :=
  o <- cJSON_CreateObject ;;
  match o with
  | None => ret None
  | Some o => printf_loop (cstr format) (mk_printf o (mk_cbuf 100 []) 0 args)
  end.

End Build.
