(* ===== verification/CJsonTreeSpec.v ===== *)
(** * cJSON trees: copies, comparison, objects from a format

    The comparison is symmetric and accepts a deep copy; a copy differs from
    its original in the reference flag only; [iperf_json_printf] builds the
    object its format describes. *)

From Stdlib Require Import String.
From S2P Require Import Prelude Bytes Double CJson CJsonTree.
Local Open Scope c_scope.

(** Induction over the children as well. *)
Lemma cJSON_children_ind (P : cJSON -> Prop) :
  (forall t c v i d s, Forall P c -> P (Node t c v i d s)) -> forall j, P j.
Proof.
  intros H. fix IH 1. intros [t c v i d s]. apply H. induction c as [|x c IHc]; constructor; [apply IH|exact IHc].
Qed.

(** ** Arithmetic of doubles *)

Lemma binary_round_opp s m e : binary_round 53 1024 (negb s) m e = D_opp (binary_round 53 1024 s m e).
Proof.
  unfold binary_round, D_opp. destruct (shl_align m e _) as [m' e']. unfold binary_round_aux.
  destruct (shr_fexp 53 1024 (Z.pos m') e' loc_Exact) as [mrs e1].
  destruct (shr_fexp 53 1024 _ e1 loc_Exact) as [mrs2 e2]. destruct (shr_m mrs2); try done. by case_match.
Qed.

Lemma D_abs_opp d : D_abs (D_opp d) = D_abs d.
Proof. by destruct d. Qed.

Lemma D_abs_normalize_opp m e : D_abs (binary_normalize 53 1024 (- m) e false) = D_abs (binary_normalize 53 1024 m e false).
Proof.
  assert (forall p, D_abs (binary_round 53 1024 true p e) = D_abs (binary_round 53 1024 false p e)) as H.
  { intros p. rewrite <- (D_abs_opp (binary_round 53 1024 false p e)). f_equal. exact (binary_round_opp false p e). }
  destruct m; [done|exact (H _)|symmetry; exact (H _)].
Qed.

Lemma D_abs_sub_comm a b : D_abs (D_sub a b) = D_abs (D_sub b a).
Proof.
  unfold D_sub. destruct a as [sa|sa| |sa ma ea], b as [sb|sb| |sb mb eb]; cbn [SFsub D_abs negb]; try done.
  - by destruct sa, sb.
  - by destruct sa, sb.
  - rewrite (Z.min_comm eb ea). set (ez := Z.min ea eb). cbv zeta.
    set (x := cond_Zopp sa _). set (y := cond_Zopp sb _).
    replace (x - y) with (- (y - x)) by lia. apply D_abs_normalize_opp.
Qed.

Lemma SFcompare_abs_eq a b : SFcompare (D_abs a) (D_abs b) = Some Eq -> D_abs a = D_abs b.
Proof.
  destruct a as [sa|sa| |sa ma ea], b as [sb|sb| |sb mb eb]; cbn; try done.
  destruct (Z.compare_spec ea eb) as [->|?|?]; try done. intros H. f_equal. injection H as H.
  by apply Pos.compare_eq in H.
Qed.

Lemma SFcompare_antisym a b : SFcompare b a = CompOpp <$> SFcompare a b.
Proof.
  destruct a as [sa|sa| |sa ma ea], b as [sb|sb| |sb mb eb]; cbn; try done; try (by destruct sa); try (by destruct sb).
  - by destruct sa, sb.
  - rewrite (Z.compare_antisym ea eb). pose proof (Pos.compare_antisym ma mb : Pos.compare_cont Eq mb ma = _) as E.
    destruct sa, sb; try done; destruct (ea ?= eb); cbn; try done; rewrite E; unfold Pos.compare;
      by destruct (Pos.compare_cont Eq ma mb).
Qed.

Lemma compare_double_comm a b : compare_double a b = compare_double b a.
Proof.
  unfold compare_double. rewrite (D_abs_sub_comm b a). cbv zeta. unfold D_ltb, SFltb.
  rewrite (SFcompare_antisym (D_abs b) (D_abs a)).
  destruct (SFcompare (D_abs b) (D_abs a)) as [[]|] eqn:E; cbn; try done.
  - by rewrite (SFcompare_abs_eq _ _ E).
  - assert (a = S754_nan \/ b = S754_nan) as [-> | ->] by (destruct a, b; cbn in E; auto; done); [done|by destruct a].
Qed.

(** Rounding a positive number does not produce a negative one or a NaN. *)
Lemma shr_1_nonneg r : 0 <= shr_m r -> 0 <= shr_m (shr_1 r).
Proof. destruct r as [[|[]|] ? ?]; cbn; lia. Qed.

Lemma shr_nonneg r e n : 0 <= shr_m r -> 0 <= shr_m (shr r e n).1.
Proof.
  intros H. destruct n as [|p|]; cbn [shr fst]; [done| |done].
  revert r H. induction p; intros r H; cbn [iter_pos]; auto using shr_1_nonneg.
Qed.

Lemma binary_round_aux_nonneg mx ex : 0 <= mx -> D_leb D_zero (binary_round_aux 53 1024 false mx ex loc_Exact) = true.
Proof.
  intros Hm. unfold binary_round_aux, shr_fexp.
  destruct (shr (shr_record_of_loc mx loc_Exact) ex _) as [mrs e1] eqn:E1.
  assert (0 <= shr_m mrs) as H1.
  { change mrs with (mrs, e1).1. rewrite <- E1. by apply shr_nonneg. }
  destruct (shr (shr_record_of_loc (round_nearest_even _ _) loc_Exact) e1 _) as [mrs2 e2] eqn:E2.
  assert (0 <= shr_m mrs2) as H2.
  { change mrs2 with (mrs2, e2).1. rewrite <- E2. apply shr_nonneg. cbn. unfold round_nearest_even. repeat case_match; lia. }
  destruct (shr_m mrs2); [done| |lia]. by case_match.
Qed.

Definition is_finite_double (d : double) : bool :=
  match d with S754_zero _ | S754_finite _ _ _ => true | _ => false end.

Lemma compare_double_refl d : is_finite_double d = true -> compare_double d d = true.
Proof.
  intros Hd. assert (D_leb (D_abs (D_sub d d)) (D_mul (D_abs d) DBL_EPSILON) = true) as H.
  { destruct d as [s|s| |s m e]; try done; [by destruct s|].
    cbn [D_abs]. unfold D_sub. cbn [SFsub]. cbv zeta. rewrite Z.sub_diag.
    exact (binary_round_aux_nonneg (Z.pos _) _ ltac:(lia)). }
  unfold compare_double. cbv zeta. by destruct (D_ltb _ _).
Qed.

(** ** The comparison *)

Lemma streq_sym a b : streq a b = streq b a.
Proof. unfold streq. by apply bool_decide_ext. Qed.

(** The two inner loops of the comparison. *)
Definition compare_elements (cmp : cJSON -> cJSON -> option bool) : list cJSON -> list cJSON -> option bool :=
  fix elements la lb :=
    match la, lb with
    | x :: la, y :: lb => and_then (cmp x y) (elements la lb)
    | [], [] => Some true
    | _, _ => Some false
    end.

Definition compare_included (cmp : cJSON -> cJSON -> option bool) (cs : bool) (other : cJSON) (la : list cJSON) : option bool :=
  foldr (fun x rest =>
    match get_object_item (Some other) (jstring x) cs with
    | None => Some false
    | Some y => and_then (cmp x y) rest
    end) (Some true) la.

Definition compare_container (cmp : cJSON -> cJSON -> option bool) (cs : bool) (a b : cJSON) : option bool :=
  if base_type a =? cJSON_Array then compare_elements cmp (jchild a) (jchild b)
  else and_then (compare_included cmp cs b (jchild a)) (compare_included cmp cs a (jchild b)).

(** What is decided without looking at the children. *)
Definition compare_leaf (a b : cJSON) : option bool :=
  if negb (base_type a =? base_type b) then Some false
  else if negb (valid_type (base_type a)) then Some false
  else if (base_type a =? cJSON_False) || (base_type a =? cJSON_True) || (base_type a =? cJSON_NULL) then Some true
  else if base_type a =? cJSON_Number then Some (compare_double (jvaluedouble a) (jvaluedouble b))
  else if (base_type a =? cJSON_String) || (base_type a =? cJSON_Raw) then
    match jvaluestring a, jvaluestring b with
    | Some x, Some y => Some (streq x y)
    | _, _ => Some false
    end
  else None.

Lemma compare_unfold fuel cs a b :
  cJSON_Compare fuel cs a b =
  match compare_leaf a b with
  | Some r => Some r
  | None => match fuel with O => None | S fuel => compare_container (cJSON_Compare fuel cs) cs a b end
  end.
Proof.
  unfold compare_leaf. destruct fuel; cbn [cJSON_Compare]; cbv zeta;
    (destruct (_ =? base_type b); cbn [negb]; [|done]); (destruct (valid_type _); cbn [negb]; [|done]);
    (destruct (_ || _ || _); [done|]); (destruct (_ =? cJSON_Number); [done|]);
    (destruct (_ || _); [by destruct (jvaluestring a), (jvaluestring b)|done]).
Qed.

Lemma compare_leaf_sym a b : compare_leaf a b = compare_leaf b a.
Proof.
  unfold compare_leaf. rewrite (Z.eqb_sym (base_type b)). destruct (Z.eqb_spec (base_type a) (base_type b)) as [E|]; [|done].
  rewrite E, (compare_double_comm (jvaluedouble b)). cbn [negb].
  destruct (jvaluestring a), (jvaluestring b); try done. by rewrite streq_sym.
Qed.

Lemma compare_leaf_none a b : compare_leaf a b = None -> base_type a = base_type b.
Proof. unfold compare_leaf. by destruct (Z.eqb_spec (base_type a) (base_type b)). Qed.

Lemma nesting_pos j : (0 < nesting j)%nat.
Proof. destruct j. cbn [nesting]. lia. Qed.

Lemma nesting_child j x : x ∈ jchild j -> (nesting x < nesting j)%nat.
Proof.
  destruct j as [t c v i d s]. cbn [jchild nesting]. induction c as [|y c IH]; [by intros ?%elem_of_nil|].
  cbn [foldr]. intros [->|Hx]%elem_of_cons; [lia|]. specialize (IH Hx). lia.
Qed.

Lemma get_object_item_child o n cs x : get_object_item (Some o) n cs = Some x -> x ∈ jchild o.
Proof.
  unfold get_object_item. destruct n as [n|]; [|done]. intros (i & _ & Hx)%bind_Some. by eapply list_elem_of_lookup_2.
Qed.

(** Enough fuel for one of the two: the loops only meet pairs of children. *)
Definition enough_fuel (fuel : nat) (a b : cJSON) : Prop := (Nat.min (nesting a) (nesting b) <= fuel)%nat.

Lemma enough_child fuel a b x y : enough_fuel (S fuel) a b -> x ∈ jchild a -> y ∈ jchild b -> enough_fuel fuel x y /\ enough_fuel fuel y x.
Proof. unfold enough_fuel. intros H Hx%nesting_child Hy%nesting_child. lia. Qed.

(** A comparison that answers on the pairs of children, and the same in both orders. *)
Definition agrees (cmp : cJSON -> cJSON -> option bool) (A B : list cJSON) : Prop :=
  forall x y, x ∈ A -> y ∈ B -> exists r, cmp x y = Some r /\ cmp y x = Some r.

Lemma compare_elements_sym cmp A B : agrees cmp A B -> exists r,
  compare_elements cmp A B = Some r /\ compare_elements cmp B A = Some r.
Proof.
  revert B. induction A as [|x A IH]; intros [|y B] H; cbn [compare_elements]; eauto.
  destruct (H x y) as (r & -> & ->); [apply elem_of_cons; auto..|]. destruct r; cbn [and_then]; [|eauto].
  apply IH. intros ????. apply H; by apply elem_of_cons; right.
Qed.

Lemma compare_included_cons cmp cs o x l : compare_included cmp cs o (x :: l) =
  match get_object_item (Some o) (jstring x) cs with
  | None => Some false
  | Some y => and_then (cmp x y) (compare_included cmp cs o l)
  end.
Proof. done. Qed.

Lemma compare_included_total cmp cs other l :
  (forall x y, x ∈ l -> y ∈ jchild other -> exists r, cmp x y = Some r) -> exists r, compare_included cmp cs other l = Some r.
Proof.
  intros H. induction l as [|x l IH]; [by exists true|]. rewrite compare_included_cons.
  destruct (get_object_item (Some other) (jstring x) cs) as [y|] eqn:E; [|eauto].
  destruct (H x y) as [r ->]; [apply elem_of_cons; auto|by eapply get_object_item_child|]. destruct r; cbn [and_then]; [|eauto].
  apply IH. intros ????. apply H; [by apply elem_of_cons; right|done].
Qed.

Lemma compare_container_sym cmp cs a b : base_type a = base_type b -> agrees cmp (jchild a) (jchild b) -> exists r,
  compare_container cmp cs a b = Some r /\ compare_container cmp cs b a = Some r.
Proof.
  intros E H. unfold compare_container. rewrite <- E. destruct (_ =? _); [by apply compare_elements_sym|].
  destruct (compare_included_total cmp cs b (jchild a)) as [r1 ->]; [intros x y Hx Hy; destruct (H x y) as (?&?&?); eauto|].
  destruct (compare_included_total cmp cs a (jchild b)) as [r2 ->]; [intros y x Hy Hx; destruct (H x y) as (?&?&?); eauto|].
  destruct r1, r2; eauto.
Qed.

Lemma compare_sym_fuel fuel cs : forall a b, enough_fuel fuel a b ->
  exists r, cJSON_Compare fuel cs a b = Some r /\ cJSON_Compare fuel cs b a = Some r.
Proof.
  induction fuel as [|fuel IH]; intros a b He; [unfold enough_fuel in He; pose proof (nesting_pos a); pose proof (nesting_pos b); lia|].
  rewrite (compare_unfold _ _ a b), (compare_unfold _ _ b a), <- (compare_leaf_sym a b).
  destruct (compare_leaf a b) as [r|] eqn:E; [eauto|].
  apply compare_container_sym; [by apply compare_leaf_none|]. intros x y Hx Hy.
  apply IH. by destruct (enough_child fuel a b x y).
Qed.

Lemma compare_elements_mono (cmp cmp' : cJSON -> cJSON -> option bool) A B r :
  (forall x y r, cmp x y = Some r -> cmp' x y = Some r) -> compare_elements cmp A B = Some r -> compare_elements cmp' A B = Some r.
Proof.
  intros H. revert B. induction A as [|x A IH]; intros [|y B]; cbn [compare_elements]; try done.
  destruct (cmp x y) as [q|] eqn:E; [|done]. rewrite (H _ _ _ E). destruct q; cbn [and_then]; auto.
Qed.

Lemma compare_included_mono (cmp cmp' : cJSON -> cJSON -> option bool) cs o l r :
  (forall x y r, cmp x y = Some r -> cmp' x y = Some r) -> compare_included cmp cs o l = Some r -> compare_included cmp' cs o l = Some r.
Proof.
  intros H. revert r. induction l as [|x l IH]; intros r; [done|]. rewrite !compare_included_cons.
  destruct (get_object_item _ _ _) as [y|]; [|done].
  destruct (cmp x y) as [q|] eqn:E; [|done]. rewrite (H _ _ _ E). destruct q; cbn [and_then]; auto.
Qed.

Lemma compare_mono fuel fuel' cs : (fuel <= fuel')%nat -> forall a b r,
  cJSON_Compare fuel cs a b = Some r -> cJSON_Compare fuel' cs a b = Some r.
Proof.
  revert fuel'. induction fuel as [|fuel IH]; intros fuel' Hf a b r; rewrite !compare_unfold;
    destruct (compare_leaf a b); try done. destruct fuel' as [|fuel']; [lia|].
  unfold compare_container. specialize (IH fuel' ltac:(lia)). destruct (_ =? _); [by apply compare_elements_mono|].
  destruct (compare_included _ _ b _) as [q|] eqn:E1; [|done]. rewrite (compare_included_mono _ _ _ _ _ _ IH E1).
  destruct q; cbn [and_then]; [|done]. by apply compare_included_mono.
Qed.

(** C39: comparing two items ends on every pair of trees, whatever their
    shapes, and gives the same answer in both orders. *)
Theorem compare_symmetric cs a b : exists r, forall fuel, (Nat.min (nesting a) (nesting b) <= fuel)%nat ->
  cJSON_Compare fuel cs a b = Some r /\ cJSON_Compare fuel cs b a = Some r.
Proof.
  destruct (compare_sym_fuel (Nat.min (nesting a) (nesting b)) cs a b) as (r & H1 & H2); [unfold enough_fuel; lia|].
  exists r. intros fuel Hf. split; by eapply compare_mono.
Qed.

(** ** Copies *)

(** The tree a deep copy has: C strings, no reference flags. *)
Fixpoint copy (j : cJSON) : cJSON :=
  let 'Node t c v i d s := j in
  Node (Z.land t (Z.lnot cJSON_IsReference)) (copy <$> c) (cstr <$> v) i d
    (if negb (Z.land t cJSON_StringIsConst =? 0) then s else cstr <$> s).

(** What an allocating computation may answer: [x], or nothing after a failed allocation. *)
Definition allocated_to {A} (alloc : nat -> bool) (x : A) (n : nat) (r : option A) (n' : nat) : Prop :=
  (n <= n')%nat /\ match r with Some y => y = x | None => exists k, (n <= k < n')%nat /\ alloc k = false end.

Lemma allocated_more {A} alloc (x : A) n m r n' : (n <= m)%nat -> allocated_to alloc x m r n' -> allocated_to alloc x n r n'.
Proof.
  intros Hm [H1 H2]. split; [lia|]. destruct r; [done|]. destruct H2 as (k & Hk & ?). exists k. split; [lia|done].
Qed.

Lemma allocated_none {A B} alloc (x : A) (y : B) n n' m : allocated_to alloc x n None n' -> (n' <= m)%nat -> allocated_to alloc y n None m.
Proof. intros [H1 (k & Hk & ?)] Hm. split; [lia|]. exists k. split; [lia|done]. Qed.

Section Copy.
Context (alloc : nat -> bool).

Lemma new_item_spec n : wp (cJSON_New_Item alloc) (fun r n' => allocated_to alloc new_item n r n') n.
Proof.
  unfold cJSON_New_Item, allocate, wp, bind, ret, allocated_to. destruct (alloc n) eqn:E; cbn; (split; [lia|]); [done|].
  exists n. split; [lia|done].
Qed.

Lemma strdup_spec s n : wp (cJSON_strdup alloc (Some s)) (fun r n' => allocated_to alloc (cstr s) n r n') n.
Proof.
  unfold cJSON_strdup, allocate, wp, bind, ret, allocated_to. destruct (alloc n) eqn:E; cbn; (split; [lia|]); [done|].
  exists n. split; [lia|done].
Qed.

Lemma dup_text_spec s n : wp (dup_text alloc s) (fun r n' => allocated_to alloc (cstr <$> s) n r n') n.
Proof.
  destruct s as [s|]; [|by split]. unfold dup_text. apply wp_bind. eapply wp_mono; [apply strdup_spec|].
  intros [k|] n' H; apply wp_ret; [|by eapply allocated_none]. destruct H as [? ->]. by split.
Qed.

Lemma dup_name_spec t s n : wp (dup_name alloc t s)
  (fun r n' => allocated_to alloc (if negb (Z.land t cJSON_StringIsConst =? 0) then s else cstr <$> s) n r n') n.
Proof. unfold dup_name. destruct (negb _); [by split|apply dup_text_spec]. Qed.

(** One stage of a computation that gives up when an allocation fails. *)
Lemma stage {A B} (m : AM (option A)) (x : A) (K : option A -> AM (option B)) (y : B) n :
  wp m (fun r n' => allocated_to alloc x n r n') n ->
  (forall n', K None n' = Ret (None, n')) ->
  (forall n', (n <= n')%nat -> wp (K (Some x)) (fun r m => allocated_to alloc y n' r m) n') ->
  wp (bind m K) (fun r m => allocated_to alloc y n r m) n.
Proof.
  intros Hm HN HS. apply wp_bind. eapply wp_mono; [exact Hm|]. intros [a|] n' H.
  - destruct H as [Hn ->]. eapply wp_mono; [by apply HS|]. intros r k. by apply allocated_more.
  - unfold wp. rewrite HN. by eapply allocated_none.
Qed.

Lemma duplicate_spec j : forall n, wp (cJSON_Duplicate alloc j true) (fun r n' => allocated_to alloc (copy j) n r n') n.
Proof.
  induction j as [t c v i d s IH] using cJSON_children_ind. intros n. cbn [cJSON_Duplicate copy negb].
  apply (stage _ new_item); [apply new_item_spec|done|]. intros n1 _.
  apply (stage _ (cstr <$> v)); [apply dup_text_spec|done|]. intros n2 _.
  eapply stage; [apply dup_name_spec|done|]. intros n3 _. cbv beta zeta iota.
  eapply (stage _ (copy <$> c)); [|done|by intros n4 _; split]. clear n n1 n2. revert n3.
  induction IH as [|x l Hx _ IHl]; intros n; [by split|].
  apply (stage _ (copy x)); [apply Hx|done|]. intros n1 _.
  apply (stage _ (copy <$> l)); [apply IHl|done|]. intros n2 _. by split.
Qed.
End Copy.

(** An item its copy is compared equal to: every type is known, every text is
    there, numbers are finite and the names of an object's members differ. *)
Definition apart (cs : bool) (c : list cJSON) : Prop :=
  forall i x, c !! i = Some x -> exists s, jstring x = Some s /\ find_item cs s c = Some i.

Inductive comparable (cs : bool) : cJSON -> Prop :=
| comparable_node t c v i d s :
    let j := Node t c v i d s in
    valid_type (base_type j) = true ->
    (base_type j = cJSON_Number -> is_finite_double d = true) ->
    (base_type j = cJSON_String \/ base_type j = cJSON_Raw -> v <> None) ->
    (base_type j = cJSON_Array \/ base_type j = cJSON_Object -> Forall (comparable cs) c) ->
    (base_type j = cJSON_Object -> apart cs c) ->
    comparable cs j.

Lemma cstr_idemp l : cstr (cstr l) = cstr l.
Proof. induction l as [|b l IH]; cbn; [done|]. destruct (b =? 0) eqn:E; cbn; [done|]. by rewrite E, IH. Qed.

Lemma copy_base_type j : base_type (copy j) = base_type j.
Proof.
  destruct j as [t c v i d s]. unfold base_type. cbn [copy jtype]. rewrite <- Z.land_assoc. f_equal.
Qed.

Lemma copy_name j : cstr <$> jstring (copy j) = cstr <$> jstring j.
Proof.
  destruct j as [t c v i d s]. cbn [copy jstring]. destruct (negb _); [done|]. destruct s as [s|]; [|done]. cbn. by rewrite cstr_idemp.
Qed.

Lemma find_item_names cs n n' l l' : cstr n = cstr n' -> Forall2 (fun x y => cstr <$> jstring x = cstr <$> jstring y) l l' ->
  find_item cs n l = find_item cs n' l'.
Proof.
  intros Hn. induction 1 as [|x y l l' Hxy _ IH]; [done|]. cbn [find_item]. rewrite IH. unfold case_insensitive_equal, streq, strcaseeq.
  destruct (jstring x), (jstring y); try done. injection Hxy as Hxy. by rewrite Hn, Hxy.
Qed.

Lemma copies_names l : Forall2 (fun x y => cstr <$> jstring x = cstr <$> jstring y) l (copy <$> l).
Proof. induction l; constructor; [by rewrite copy_name|done]. Qed.

Lemma lookup_apart cs c i x (o : cJSON) n' l' :
  apart cs c -> c !! i = Some x -> cstr <$> jstring x = cstr <$> n' ->
  jchild o = l' -> Forall2 (fun x y => cstr <$> jstring x = cstr <$> jstring y) c l' ->
  get_object_item (Some o) n' cs = l' !! i.
Proof.
  intros Ha Hx Hn <- Hl. destruct (Ha i x Hx) as (s & Es & Hf). rewrite Es in Hn. destruct n' as [n'|]; [|done].
  injection Hn as Hn. unfold get_object_item. by rewrite <- (find_item_names cs s n' c (jchild o) Hn Hl), Hf.
Qed.

Lemma compare_included_copies cmp cs o (f : cJSON -> cJSON) l l' :
  (forall x, x ∈ l -> get_object_item (Some o) (jstring x) cs = Some (f x) /\ cmp x (f x) = Some true) ->
  l' = l -> compare_included cmp cs o l' = Some true.
Proof.
  intros H ->. induction l as [|x l IH]; [done|]. rewrite compare_included_cons.
  destruct (H x) as [-> ->]; [apply elem_of_cons; auto|]. cbn [and_then]. apply IH. intros y Hy. apply H, elem_of_cons; auto.
Qed.

Lemma compare_leaf_copy cs j : comparable cs j ->
  compare_leaf j (copy j) = Some true \/
  compare_leaf j (copy j) = None /\ (base_type j = cJSON_Array \/ base_type j = cJSON_Object).
Proof.
  intros H. inversion_clear H as [t c v i d s j' Hv Hnum Htxt _ _]. change j' with (Node t c v i d s) in *. clear j'.
  unfold compare_leaf. rewrite copy_base_type, Z.eqb_refl, Hv. cbn [negb].
  set (b := base_type (Node t c v i d s)) in *.
  destruct ((b =? cJSON_False) || (b =? cJSON_True) || (b =? cJSON_NULL)) eqn:E1; [by left|].
  destruct (Z.eqb_spec b cJSON_Number) as [E|E2].
  { left. cbn [copy jvaluedouble]. by rewrite compare_double_refl by auto. }
  destruct ((b =? cJSON_String) || (b =? cJSON_Raw)) eqn:E3.
  { left. apply orb_true_iff in E3. rewrite !Z.eqb_eq in E3. specialize (Htxt E3). cbn [copy jvaluestring].
    destruct v as [v|]; [|done]. cbn. unfold streq. rewrite cstr_idemp. by rewrite bool_decide_true. }
  right. split; [done|]. unfold valid_type in Hv. rewrite !orb_true_iff, !Z.eqb_eq in Hv.
  rewrite !orb_false_iff, !Z.eqb_neq in E1. rewrite !orb_false_iff, !Z.eqb_neq in E3. tauto.
Qed.

Lemma compare_copy cs j : forall fuel, comparable cs j -> (nesting j <= fuel)%nat -> cJSON_Compare fuel cs j (copy j) = Some true.
Proof.
  induction j as [t c v i d s IH] using cJSON_children_ind. intros fuel Hc Hf.
  set (j := Node t c v i d s) in *. rewrite compare_unfold.
  destruct (compare_leaf_copy cs j Hc) as [->|[-> Ht]]; [done|].
  destruct fuel as [|fuel]; [pose proof (nesting_pos j); lia|].
  assert (Forall (comparable cs) c) as Hcs by (by inversion_clear Hc; auto).
  assert (forall x, x ∈ c -> cJSON_Compare fuel cs x (copy x) = Some true) as Hx.
  { intros x Hx. rewrite Forall_forall in IH, Hcs. pose proof (nesting_child j x Hx). apply IH; [done|auto|lia]. }
  unfold compare_container. change (jchild j) with c. change (jchild (copy j)) with (copy <$> c).
  destruct (Z.eqb_spec (base_type j) cJSON_Array) as [E|E].
  - clear -Hx. induction c as [|x c IHc]; [done|]. cbn [compare_elements fmap list_fmap].
    rewrite Hx by (apply elem_of_cons; auto). cbn [and_then]. apply IHc. intros y Hy. apply Hx, elem_of_cons; auto.
  - assert (apart cs c) as Ha by (inversion_clear Hc; tauto).
    rewrite (compare_included_copies _ cs (copy j) copy c c); [cbn [and_then]|..|done].
    + assert (forall l, (forall x, x ∈ l -> x ∈ c) -> compare_included (cJSON_Compare fuel cs) cs j (copy <$> l) = Some true) as H; [|by apply H].
      induction l as [|x l IHl]; intros Hl; [done|]. cbn [fmap list_fmap]. rewrite compare_included_cons.
      assert (x ∈ c) as Hxc by (apply Hl, elem_of_cons; auto). apply list_elem_of_lookup in Hxc as Hi. destruct Hi as [k Hk].
      rewrite (lookup_apart cs c k x j (jstring (copy x)) c), Hk; [|done|done|by rewrite copy_name|done|by apply Forall_Forall2_diag, Forall_true].
      destruct (compare_sym_fuel fuel cs (copy x) x) as (r & -> & Er).
      { unfold enough_fuel. pose proof (nesting_child j x Hxc). lia. }
      rewrite (Hx x Hxc) in Er. injection Er as <-. cbn [and_then]. apply IHl. intros y Hy. apply Hl, elem_of_cons; auto.
    + intros x Hxc. split; [|by apply Hx]. apply list_elem_of_lookup in Hxc as [k Hk].
      rewrite (lookup_apart cs c k x (copy j) (jstring x) (copy <$> c)); [by rewrite list_lookup_fmap, Hk|done|done|done|done|apply copies_names].
Qed.

(** A deep copy has the same tree as the item, but for the reference
    flags, and the comparison finds it equal to the item when its numbers are
    finite and no two members of an object share a name; no copy is returned
    only after a failed allocation. *)
Theorem duplicate_equal alloc j n : wp (cJSON_Duplicate alloc j true) (fun r n' =>
  match r with
  | Some j' => j' = copy j /\ forall cs fuel, comparable cs j -> (nesting j <= fuel)%nat -> cJSON_Compare fuel cs j j' = Some true
  | None => exists k, (n <= k < n')%nat /\ alloc k = false
  end) n.
Proof.
  eapply wp_mono; [apply duplicate_spec|]. intros [j'|] n' [_ H]; [|done]. subst j'. split; [done|]. intros. by apply compare_copy.
Qed.

(** ** Adding to an object *)

(** The object with one more member. *)
Definition with_member (s : list Z) (x o : cJSON) : cJSON :=
  set_jchild (jchild o ++ [set_jstring (Some (cstr s)) (set_jtype (Z.land (jtype x) (Z.lnot cJSON_StringIsConst)) x)]) o.

(** No allocation from [n] to [n'] fails. *)
Definition no_failure (alloc : nat -> bool) (n n' : nat) : Prop := forall k, (n <= k < n')%nat -> alloc k = true.

Lemma no_failure_app alloc n m n' : (n <= m <= n')%nat -> no_failure alloc n n' -> no_failure alloc n m /\ no_failure alloc m n'.
Proof. intros Hm H. split; intros k Hk; apply H; lia. Qed.

Lemma allocated_none_failure {A} alloc (x : A) n n' : allocated_to alloc x n None n' -> ~ no_failure alloc n n'.
Proof. intros [_ (k & Hk & E)] H. rewrite H in E; [done|lia]. Qed.

Section Add.
Context (alloc : nat -> bool).

Lemma create_spec f n : wp (create alloc f) (fun r n' => allocated_to alloc (f new_item) n r n') n.
Proof.
  unfold create. apply wp_bind. eapply wp_mono; [apply new_item_spec|]. intros [x|] n' H; apply wp_ret; cbn.
  - destruct H as [? ->]. by split.
  - by eapply allocated_none.
Qed.

Lemma create_text_spec t s n :
  wp (create_text alloc t (Some s)) (fun r n' => allocated_to alloc (Node t [] (Some (cstr s)) 0 D_zero None) n r n') n.
Proof.
  unfold create_text. apply (stage alloc _ new_item); [apply new_item_spec|done|]. intros n1 _.
  apply (stage alloc _ (cstr s)); [apply strdup_spec|done|]. intros n2 _. by split.
Qed.

Lemma add_item_to_object_spec o s x n :
  wp (add_item_to_object alloc (Some o) (Some s) (Some x) false) (fun r n' => allocated_to alloc (with_member s x o) n r n') n.
Proof.
  unfold add_item_to_object. apply (stage alloc _ (cstr s)); [apply strdup_spec|done|]. intros n1 _. by split.
Qed.

Lemma add_created_spec mk x o s n : (forall n, wp mk (fun r n' => allocated_to alloc x n r n') n) ->
  wp (add_created alloc mk (Some o) (Some s)) (fun r n' => allocated_to alloc (with_member s x o) n r n') n.
Proof.
  intros H. unfold add_created. apply (stage alloc _ x); [apply H|done|]. intros n1 _. apply add_item_to_object_spec.
Qed.
End Add.

(** ** Objects from a format *)

Definition conv_char (a : va_value) : Z :=
  match a with va_bool _ => c_b | va_int64 _ => 100 | va_double _ => c_f | va_string _ => 115 end.

Definition value_node (a : va_value) : cJSON :=
  match a with
  | va_bool b => Node (if b then cJSON_True else cJSON_False) [] None 0 D_zero None
  | va_int64 n => number_node (D_of_Z n)
  | va_double d => number_node d
  | va_string s => Node cJSON_String [] (cstr <$> s) 0 D_zero None
  end.

Definition va_ok (a : va_value) : Prop := match a with va_string None => False | _ => True end.

Definition spaces (w : list Z) : Prop := Forall (fun c => c = c_space) w.

Definition name_char (c : Z) : Prop := c <> 0 /\ c <> c_space /\ c <> c_colon /\ c <> 37.

(** A format and the members it describes, in order. *)
Inductive printf_format : list Z -> list (list Z * va_value) -> Prop :=
| printf_end w : spaces w -> printf_format w []
| printf_field w1 name w2 a f fields :
    spaces w1 -> Forall name_char name -> zlen name < 100 -> spaces w2 -> va_ok a -> printf_format f fields ->
    printf_format (w1 ++ name ++ c_colon :: w2 ++ 37 :: conv_char a :: f) ((name, a) :: fields).

Definition members (fields : list (list Z * va_value)) : list cJSON :=
  (fun f => set_jstring (Some f.1) (value_node f.2)) <$> fields.

Lemma conversion_spec alloc a n : va_ok a ->
  wp (conversion alloc (conv_char a) a) (fun r n' => allocated_to alloc (value_node a) n r n') n.
Proof.
  destruct a as [b|k|d|[s|]]; intros Ha; [..|done]; cbn.
  - destruct b; apply create_spec.
  - apply create_spec.
  - apply create_spec.
  - apply create_text_spec.
Qed.

Lemma name_cstr name : Forall name_char name -> cstr name = name.
Proof. intros H. apply cstr_nonzero. eapply Forall_impl; [exact H|]. by intros c [? _]. Qed.

Lemma printf_spaces alloc w f st : spaces w -> printf_loop alloc (w ++ f) st = printf_loop alloc f st.
Proof. induction 1 as [|c w -> _ IH]; [done|]. exact IH. Qed.

(** The buffer with the first [np] bytes of the name in place. *)
Definition named (b : cbuf) (np : Z) (pre : list Z) : Prop :=
  cap b = 100 /\ np = zlen pre /\ firstn (length pre) (data b) = pre /\ (length pre <= length (data b))%nat.

Lemma named_poke b np pre c : named b np pre -> zlen pre < 100 -> exists b',
  buf_poke b np c = Some b' /\ named b' (np + 1) (pre ++ [c]).
Proof.
  intros (Hc & -> & Hp & Hl) H100. unfold buf_poke. rewrite Hc. pose proof (zlen_nonneg pre).
  rewrite (proj2 (Z.leb_le 0 _)), (proj2 (Z.ltb_lt _ 100)), (proj2 (Z.leb_le _ (zlen (data b)))) by (unfold zlen in *; lia).
  cbn [andb]. eexists. split; [done|]. unfold named. cbn [cap data]. split; [done|]. rewrite zlen_app. split; [done|].
  rewrite length_app. cbn [length]. destruct (Z.eqb_spec (zlen pre) (zlen (data b))) as [E|E].
  - assert (data b = pre) as Ed.
    { rewrite <- Hp. symmetry. apply firstn_all2. unfold zlen in E. lia. }
    rewrite Ed, !length_app. cbn [length]. split; [|lia]. apply firstn_all2. rewrite length_app. cbn. lia.
  - unfold zlen in *. rewrite Nat2Z.id, length_insert. split; [|lia].
    rewrite Nat.add_1_r, (take_S_r _ _ c) by (apply list_lookup_insert_eq; lia).
    by rewrite take_insert_ge, Hp by lia.
Qed.

Lemma printf_name alloc name : forall pre f o b np args, Forall name_char name -> named b np pre -> zlen pre + zlen name < 100 ->
  exists b', named b' (zlen pre + zlen name) (pre ++ name) /\
    printf_loop alloc (name ++ f) (mk_printf o b np args) = printf_loop alloc f (mk_printf o b' (zlen pre + zlen name) args).
Proof.
  induction name as [|c name IH]; intros pre f o b np args Hn Hb Hl.
  - exists b. rewrite app_nil_r, Z.add_0_r. destruct Hb as (? & -> & ? & ?). by split.
  - apply Forall_cons in Hn as [(H0 & H1 & H2 & H3) Hn]. rewrite zlen_cons in *. pose proof (zlen_nonneg name).
    destruct (named_poke b np pre c Hb) as (b' & E & Hb'); [lia|].
    destruct (IH (pre ++ [c]) f o b' (np + 1) args Hn Hb') as (b2 & Hb2 & E2); [rewrite zlen_app; change (zlen [c]) with 1; lia|].
    rewrite zlen_app in E2, Hb2. change (zlen [c]) with 1 in *. rewrite <- app_assoc in Hb2.
    exists b2. replace (zlen pre + (zlen name + 1)) with (zlen pre + 1 + zlen name) by lia. split; [done|].
    rewrite <- E2. cbn [app printf_loop]. rewrite (proj2 (Z.eqb_neq _ _) H1), (proj2 (Z.eqb_neq _ _) H2), (proj2 (Z.eqb_neq _ _) H3).
    unfold bind, poke_name. cbn [p_name p_np p_object p_args]. by rewrite E.
Qed.

Lemma cstr_terminated name r : Forall name_char name -> cstr (name ++ 0 :: r) = name.
Proof. induction 1 as [|c name [Hc _] _ IH]; [done|]. cbn. by rewrite (proj2 (Z.eqb_neq _ _) Hc), IH. Qed.

Lemma named_text b np name : Forall name_char name -> named b np (name ++ [0]) -> name_text (b) = Some name.
Proof.
  intros Hn (_ & _ & Hp & Hl). unfold name_text. rewrite <- (firstn_skipn (length (name ++ [0])) (data b)), Hp.
  rewrite !existsb_app. cbn [existsb Z.eqb]. rewrite orb_true_r. cbn [orb]. f_equal.
  rewrite <- app_assoc. by apply cstr_terminated.
Qed.

Lemma value_node_type a : Z.land (jtype (value_node a)) (Z.lnot cJSON_StringIsConst) = jtype (value_node a).
Proof. by destruct a as [[]| | |]. Qed.

Lemma set_same_type j s : set_jstring s (set_jtype (jtype j) j) = set_jstring s j.
Proof. by destruct j. Qed.

Lemma printf_loop_spec alloc f fields : printf_format f fields -> forall o b n, cap b = 100 ->
  wp (printf_loop alloc f (mk_printf o b 0 fields.*2)) (fun r n' => (n <= n')%nat /\
    (no_failure alloc n n' -> r = Some (set_jchild (jchild o ++ members fields) o))) n.
Proof.
  induction 1 as [w Hw|w1 name w2 a f fields Hw1 Hn Hl Hw2 Ha _ IH]; intros o b n Hb.
  - rewrite <- (app_nil_r w), printf_spaces by done. split; [done|]. intros _. cbn. rewrite app_nil_r. by destruct o.
  - rewrite printf_spaces by done. assert (named b 0 []) as Hb0 by (repeat split; [done|cbn; lia]).
    destruct (printf_name alloc name [] (c_colon :: w2 ++ 37 :: conv_char a :: f) o b 0 ((name, a) :: fields).*2 Hn Hb0)
      as (b1 & Hb1 & ->); [change (zlen (@nil Z)) with 0; lia|].
    destruct (named_poke _ _ _ 0 Hb1) as (b2 & E2 & Hb2); [cbn; lia|]. cbn [app] in Hb2.
    assert (printf_loop alloc (c_colon :: w2 ++ 37 :: conv_char a :: f)
              (mk_printf o b1 (zlen (@nil Z) + zlen name) ((name, a) :: fields).*2) =
            printf_loop alloc (37 :: conv_char a :: f) (mk_printf o b2 (zlen (@nil Z) + zlen name) ((name, a) :: fields).*2)) as ->.
    { rewrite <- (printf_spaces alloc w2 (37 :: _)) by done. cbn [printf_loop Z.eqb Pos.eqb]. unfold bind, poke_name. cbn [p_name p_np].
      by rewrite E2. }
    cbn [printf_loop Z.eqb Pos.eqb]. rewrite (proj2 (negb_false_iff (known_conversion (conv_char a)))) by (by destruct a).
    cbn [p_args fmap list_fmap]. apply wp_bind. eapply wp_mono; [by apply conversion_spec|]. intros [x|] n1 H1.
    2:{ apply wp_ret. split; [by destruct H1|]. intros Hf. by apply allocated_none_failure in H1. }
    destruct H1 as [Hn1 ->]. cbn [p_name]. rewrite (named_text _ _ name Hn Hb2). apply wp_bind. cbn [p_object].
    eapply wp_mono; [apply add_item_to_object_spec|]. intros r n2 H2. eapply wp_mono; [apply IH; by destruct Hb2|].
    intros r' n3 [Hn3 H3]. assert (n1 <= n2)%nat by (by destruct H2). split; [lia|]. intros Hf.
    apply (no_failure_app alloc n n1) in Hf as [_ Hf]; [|lia]. apply (no_failure_app alloc n1 n2) in Hf as [Hf2 Hf3]; [|lia].
    rewrite (H3 Hf3). destruct r as [o'|]; [|by apply allocated_none_failure in H2]. destruct H2 as [_ ->]. cbn [default].
    f_equal. unfold with_member. rewrite value_node_type, set_same_type, (name_cstr name Hn). destruct o. cbn. by rewrite <- app_assoc.
Qed.

(** For a format of fields [name: %x] whose names are shorter than the
    name buffer and arguments of the announced types, [iperf_json_printf] stays
    inside the buffer and, unless an allocation fails, returns the object with
    exactly these members in this order. *)
Theorem json_printf_object alloc f fields n (Hf : printf_format f fields) (H0 : Forall (fun c => c <> 0) f) :
  wp (iperf_json_printf alloc f fields.*2) (fun r n' =>
    no_failure alloc n n' -> r = Some (Node cJSON_Object (members fields) None 0 D_zero None)) n.
Proof.
  unfold iperf_json_printf. rewrite cstr_nonzero by done. apply wp_bind. eapply wp_mono; [apply create_spec|]. intros [o|] n1 H1.
  2:{ apply wp_ret. intros Hn. by apply allocated_none_failure in H1. }
  destruct H1 as [Hn1 ->]. eapply wp_mono; [by apply (printf_loop_spec alloc f fields)|]. intros r n2 [Hn2 H2] Hok.
  apply (no_failure_app alloc n n1) in Hok as [_ Hok]; [|lia]. by rewrite (H2 Hok).
Qed.

(** The format [a: %d  b: %b]. *)
Definition sample_format : list Z := [97; 58; 32; 37; 100; 32; 32; 98; 58; 32; 37; 98].
Definition sample_fields : list (list Z * va_value) := [([97], va_int64 7); ([98], va_bool true)].

Lemma json_printf_object_witness :
  printf_format sample_format sample_fields /\
  wp (iperf_json_printf (fun _ => true) sample_format sample_fields.*2) (fun r n' =>
    no_failure (fun _ => true) 0 n' -> r = Some (Node cJSON_Object (members sample_fields) None 0 D_zero None)) 0%nat.
Proof.
  assert (printf_format sample_format sample_fields) as H.
  { apply (printf_field [] [97] [32] (va_int64 7) [32; 32; 98; 58; 32; 37; 98]); try done; try (repeat constructor; done).
    apply (printf_field [32; 32] [98] [32] (va_bool true) []); try done; try (repeat constructor; done). }
  split; [exact H|]. apply (json_printf_object _ _ _ _ H). repeat constructor; done.
Defined.
