(* ===== verification/CJsonPrint.v ===== *)
(** * cJSON: printing

    The printer of [cjson.c]: a buffer that grows or is fixed, the text of
    numbers and strings, arrays and objects with and without formatting.
    [alloc] answers the successive calls of the allocator; a store behind the
    buffer, a read of a byte that was not written and an overflow of
    [number_buffer] are undefined behaviour. *)

From Stdlib Require Import String.
From S2P Require Import Prelude Bytes Double NumberText CJson CJsonTree.
Local Open Scope c_scope.

(** [struct printbuffer], and the number of allocations made so far. *)
Record printbuffer := mk_printbuffer {
  pb_buffer : option cbuf;
  pb_length : Z;
  pb_offset : Z;
  pb_depth : Z;
  pb_noalloc : bool;
  pb_format : bool;
  pb_nalloc : nat }.

Definition SIZE_MAX : Z := 18446744073709551615.

Definition txt_null : list Z := Eval vm_compute in bytes_of "null"%string.
Definition txt_false : list Z := Eval vm_compute in bytes_of "false"%string.
Definition txt_true : list Z := Eval vm_compute in bytes_of "true"%string.

Section Print.
(** The allocator's answers, and whether the hooks have a [reallocate]. *)
Context (alloc : nat -> bool) (has_reallocate : bool).

Definition PM := CM printbuffer.

Definition set_buffer (b : option cbuf) (length : Z) : PM unit :=
  modify (fun p => mk_printbuffer b length (pb_offset p) (pb_depth p) (pb_noalloc p) (pb_format p) (pb_nalloc p)).
Definition add_offset (n : Z) : PM unit :=
  modify (fun p => mk_printbuffer (pb_buffer p) (pb_length p) (u64 (pb_offset p + n)) (pb_depth p) (pb_noalloc p) (pb_format p) (pb_nalloc p)).
Definition add_depth (n : Z) : PM unit :=
  modify (fun p => mk_printbuffer (pb_buffer p) (pb_length p) (pb_offset p) (u64 (pb_depth p + n)) (pb_noalloc p) (pb_format p) (pb_nalloc p)).

Definition allocated : PM bool :=
  p <- get ;;
  modify (fun p => mk_printbuffer (pb_buffer p) (pb_length p) (pb_offset p) (pb_depth p) (pb_noalloc p) (pb_format p) (S (pb_nalloc p))) ;;;
  ret (alloc (pb_nalloc p)).

(** Stores [l] at [offset + i]. *)
Definition store (i : Z) (l : list Z) : PM unit :=
  p <- get ;;
  match pb_buffer p with
  | None => undefined
  | Some b =>
      match buf_write b (pb_offset p + i) l with
      | Some b => set_buffer (Some b) (pb_length p)
      | None => undefined
      end
  end.

(** Whether [needed] more bytes (and one) fit behind the offset, possibly in a larger buffer. *)
Definition ensure (needed : Z) : PM bool :=
  p <- get ;;
  match pb_buffer p with
  | None => ret false
  | Some b =>
      if (0 <? pb_length p) && (pb_length p <=? pb_offset p) then ret false
      else if SIZE_MAX <? needed then ret false
      else
        let needed := u64 (needed + u64 (pb_offset p + 1)) in
        if needed <=? pb_length p then ret true
        else if pb_noalloc p then ret false
        else
          let newsize := if SIZE_MAX / 2 <? needed then SIZE_MAX else u64 (needed * 2) in
          ok <- allocated ;;
          if negb ok then set_buffer None 0 ;;; ret false
          else
            let kept := if has_reallocate then firstn (Z.to_nat newsize) (data b)
                        else firstn (Z.to_nat (pb_offset p + 1)) (data b) in
            set_buffer (Some (mk_cbuf newsize kept)) newsize ;;;
            ret true
  end.

(** The length of the C string at the offset; it ends inside what was written. *)
Definition update_offset : PM unit :=
  p <- get ;;
  match pb_buffer p with
  | None => ret tt
  | Some b =>
      let rest := drop (Z.to_nat (pb_offset p)) (data b) in
      if existsb (Z.eqb 0) rest then add_offset (zlen (cstr rest)) else undefined
  end.

(** [m] when the room is there, [false] when not. *)
Definition ensured (needed : Z) (m : PM bool) : PM bool :=
  ok <- ensure needed ;; if ok then m else ret false.

(** ** Numbers *)

Definition is_nan_or_inf (d : double) : bool :=
  match d with S754_nan | S754_infinity _ => true | _ => false end.

Definition number_chars (valueint : Z) (d : double) : list Z :=
  if is_nan_or_inf d then txt_null
  else if D_eqb d (D_of_Z valueint) then fmt_d valueint
  else
    let text := fmt_g 15 d in
    let '(test, used) := strtod text in
    match used with
    | O => fmt_g 17 d
    | S _ => if compare_double test d then text else fmt_g 17 d
    end.

Definition NUMBER_BUFFER : Z := 26.

Definition print_number (item : cJSON) : PM bool :=
  let text := number_chars (jvalueint item) (jvaluedouble item) in
  let length := zlen text in
  if NUMBER_BUFFER <? length + 1 then undefined
  else
    ensured (length + 1)
      (store 0 (text ++ [0]) ;;; add_offset length ;;; ret true).

(** ** Strings *)

Definition hex_char (d : Z) : Z := if d <? 10 then c_0 + d else c_a + (d - 10).

(** What [print_string_ptr] writes for one character. *)
Definition escape (c : Z) : list Z :=
  if (31 <? c) && negb (c =? c_quote) && negb (c =? c_bslash) then [c]
  else c_bslash ::
    (if c =? c_bslash then [c_bslash]
     else if c =? c_quote then [c_quote]
     else if c =? c_bs then [c_b]
     else if c =? c_ff then [c_f]
     else if c =? c_nl then [c_n]
     else if c =? c_cr then [c_r]
     else if c =? c_tab then [c_t]
     else [c_u; c_0; c_0; hex_char (c / 16); hex_char (c mod 16)]).

(** The additional characters its first pass counts. *)
Definition escape_extra (c : Z) : Z :=
  if (c =? c_quote) || (c =? c_bslash) || (c =? c_bs) || (c =? c_ff) || (c =? c_nl) || (c =? c_cr) || (c =? c_tab) then 1
  else if c <? 32 then 5 else 0.

Definition escape_characters (input : list Z) : Z := foldr (fun c n => escape_extra c + n) 0 input.

(** The second pass, from [output_pointer]. *)
Fixpoint copy_escaped (input : list Z) (output_pointer : Z) : PM unit :=
  match input with
  | [] => ret tt
  | c :: input => store output_pointer (escape c) ;;; copy_escaped input (output_pointer + zlen (escape c))
  end.

Definition print_string_ptr (input : option (list Z)) : PM bool :=
  match input with
  | None => ensured 3 (store 0 [c_quote; c_quote; 0] ;;; ret true)
  | Some input =>
      let input := cstr input in
      let extra := escape_characters input in
      let output_length := zlen input + extra in
      ensured (output_length + 3)
        (if extra =? 0 then
           store 0 [c_quote] ;;; store 1 input ;;; store (output_length + 1) [c_quote; 0] ;;; ret true
         else
           store 0 [c_quote] ;;; copy_escaped input 1 ;;; store (output_length + 1) [c_quote; 0] ;;; ret true)
  end.

(** ** Containers *)

Definition tabs (n : Z) : list Z := repeat c_tab (Z.to_nat n).

Section Elements.
(** [print_value] on a child. *)
Context (print_value : cJSON -> PM bool).

Fixpoint array_elements (l : list cJSON) : PM bool :=
  match l with
  | [] => ret true
  | x :: l' =>
      ok <- print_value x ;;
      if negb ok then ret false
      else
        update_offset ;;;
        match l' with
        | [] => array_elements l'
        | _ :: _ =>
            format <- gets pb_format ;;
            let length := if format then 2 else 1 in
            ensured (length + 1)
              (store 0 (if format then [c_comma; c_space; 0] else [c_comma; 0]) ;;;
               add_offset length ;;;
               array_elements l')
        end
  end.

Definition print_array (l : list cJSON) : PM bool :=
  ensured 1
    (store 0 [c_lbrack] ;;;
     add_offset 1 ;;;
     add_depth 1 ;;;
     ok <- array_elements l ;;
     if negb ok then ret false
     else ensured 2 (store 0 [c_rbrack; 0] ;;; add_depth (-1) ;;; ret true)).

(** A member: the indentation, the name, the colon, the value and the comma. *)
Definition object_member (x : cJSON) (last : bool) : PM bool :=
  p <- get ;;
  let format := pb_format p in
  let member :=
    ok <- print_string_ptr (jstring x) ;;
    if negb ok then ret false
    else
      update_offset ;;;
      let length := if format then 2 else 1 in
      ensured length
        (store 0 (if format then [c_colon; c_tab] else [c_colon]) ;;;
         add_offset length ;;;
         ok <- print_value x ;;
         if negb ok then ret false
         else
           update_offset ;;;
           let length := (if format then 1 else 0) + (if last then 0 else 1) in
           ensured (length + 1)
             (store 0 ((if last then [] else [c_comma]) ++ (if format then [c_nl] else []) ++ [0]) ;;;
              add_offset length ;;;
              ret true)) in
  if format then
    ensured (pb_depth p) (store 0 (tabs (pb_depth p)) ;;; add_offset (pb_depth p) ;;; member)
  else member.

Fixpoint object_members (l : list cJSON) : PM bool :=
  match l with
  | [] => ret true
  | x :: l' =>
      ok <- object_member x (match l' with [] => true | _ => false end) ;;
      if negb ok then ret false else object_members l'
  end.

Definition print_object (l : list cJSON) : PM bool :=
  format <- gets pb_format ;;
  let length := if format then 2 else 1 in
  ensured (length + 1)
    (store 0 (if format then [c_lbrace; c_nl] else [c_lbrace]) ;;;
     add_depth 1 ;;;
     add_offset length ;;;
     ok <- object_members l ;;
     if negb ok then ret false
     else
       depth <- gets pb_depth ;;
       ensured (if format then depth + 1 else 2)
         (store 0 ((if format then tabs (depth - 1) else []) ++ [c_rbrace; 0]) ;;;
          add_depth (-1) ;;;
          ret true)).
End Elements.

(** Literals and raw text. *)
Definition print_text (text : list Z) : PM bool :=
  ensured (zlen text + 1) (store 0 (text ++ [0]) ;;; ret true).

Fixpoint print_value (item : cJSON) : PM bool :=
  let 'Node t c v _ _ _ := item in
  let t := Z.land t 255 in
  if t =? cJSON_NULL then print_text txt_null
  else if t =? cJSON_False then print_text txt_false
  else if t =? cJSON_True then print_text txt_true
  else if t =? cJSON_Number then print_number item
  else if t =? cJSON_Raw then
    match v with None => ret false | Some raw => print_text (cstr raw) end
  else if t =? cJSON_String then print_string_ptr v
  else if t =? cJSON_Array then print_array print_value c
  else if t =? cJSON_Object then print_object print_value c
  else ret false.

(** ** Entry points *)

Definition default_buffer_size : Z := 256.

(** The text (without its final NUL), and the number of allocations made. *)
Definition print (item : cJSON) (format : bool) (n : nat) : outcome (option (list Z) * nat) :=
  if negb (alloc n) then Ret (None, S n)
  else
    let m :=
      ok <- print_value item ;;
      if negb ok then ret None
      else
        update_offset ;;;
        (* the text is moved to a buffer of its size, by either kind of hooks *)
        moved <- allocated ;;
        p <- get ;;
        ret (if moved then cstr <$> (data <$> pb_buffer p) else None) in
    match m (mk_printbuffer (Some (mk_cbuf default_buffer_size [])) default_buffer_size 0 0 false format (S n)) with
    | Ret (r, p) => Ret (r, pb_nalloc p)
    | UB => UB
    | OutOfFuel => OutOfFuel
    end.

Definition cJSON_Print (item : cJSON) := print item true.
Definition cJSON_PrintUnformatted (item : cJSON) := print item false.

(** Into a buffer of [capacity] bytes of which the caller announces [length]:
    success, and the bytes. *)
Definition cJSON_PrintPreallocated (item : cJSON) (capacity length : Z) (format : bool) : outcome (bool * list Z) :=
  if length <? 0 then Ret (false, [])
  else
    match print_value item (mk_printbuffer (Some (mk_cbuf capacity [])) length 0 0 true format 0) with
    | Ret (r, p) => Ret (r, default [] (data <$> pb_buffer p))
    | UB => UB
    | OutOfFuel => OutOfFuel
    end.

Definition cJSON_PrintBuffered (item : cJSON) (prebuffer : Z) (format : bool) (n : nat) : outcome (option (list Z) * nat) :=
  if prebuffer <? 0 then Ret (None, n)
  else if negb (alloc n) then Ret (None, S n)
  else
    match print_value item (mk_printbuffer (Some (mk_cbuf prebuffer [])) prebuffer 0 0 false format (S n)) with
    | Ret (ok, p) => Ret (if ok then cstr <$> (data <$> pb_buffer p) else None, pb_nalloc p)
    | UB => UB
    | OutOfFuel => OutOfFuel
    end.

End Print.

(** [{"a":[1,-2.5,true]}], printed into 19 + 2 bytes. *)
Example print_sample :
  let item := Node cJSON_Object [set_jstring (Some [97]) (Node cJSON_Array
                [number_node (D_of_Z 1); number_node (strtod (bytes_of "-2.5"%string)).1; Node cJSON_True [] None 0 D_zero None]
                None 0 D_zero None)] None 0 D_zero None in
  let text := [123; 34; 97; 34; 58; 91; 49; 44; 45; 50; 46; 53; 44; 116; 114; 117; 101; 93; 125] in
  cJSON_PrintPreallocated (fun _ => true) true item 21 21 false = Ret (true, text ++ [0]) /\
  print (fun _ => true) true item false 0 = Ret (Some text, 2%nat).
Proof. vm_compute. split; reflexivity. Qed.
