(* ===== verification/CJsonPrintSpec.v ===== *)
(** * What cJSON prints

    The text of an item as a function, and the printer against it: it stores
    nothing behind its buffer, it prints exactly this text, and it gives up only
    on an item without a text, on a buffer too small or on a failed allocation. *)

From S2P Require Import Prelude Bytes Double JsonGrammar NumberText CJson CJsonTree CJsonTreeSpec CJsonPrint.
Local Open Scope c_scope.

(** ** The text of an item *)

Definition string_text (v : option (list Z)) : list Z :=
  match v with
  | None => [c_quote; c_quote]
  | Some s => c_quote :: concat (escape <$> cstr s) ++ [c_quote]
  end.

Definition when_format {A} (fmt : bool) (l : list A) : list A := if fmt then l else [].

Fixpoint elements_text (fmt : bool) (ts : list (list Z)) : list Z :=
  match ts with
  | [] => []
  | t :: ts' =>
      t ++ (match ts' with [] => [] | _ => c_comma :: when_format fmt [c_space] end) ++ elements_text fmt ts'
  end.

(** [d] is the depth inside the object. *)
Fixpoint members_text (fmt : bool) (d : Z) (ts : list (option (list Z) * list Z)) : list Z :=
  match ts with
  | [] => []
  | (k, t) :: ts' =>
      when_format fmt (tabs d) ++ string_text k ++ (c_colon :: when_format fmt [c_tab]) ++ t ++
      ((match ts' with [] => [] | _ => [c_comma] end) ++ when_format fmt [c_nl]) ++ members_text fmt d ts'
  end.

Fixpoint render (fmt : bool) (d : Z) (j : cJSON) : list Z :=
  let 'Node t c v i x _ := j in
  let t := Z.land t 255 in
  if t =? cJSON_NULL then txt_null
  else if t =? cJSON_False then txt_false
  else if t =? cJSON_True then txt_true
  else if t =? cJSON_Number then number_chars i x
  else if t =? cJSON_Raw then match v with None => [] | Some raw => cstr raw end
  else if t =? cJSON_String then string_text v
  else if t =? cJSON_Array then c_lbrack :: elements_text fmt (render fmt (d + 1) <$> c) ++ [c_rbrack]
  else if t =? cJSON_Object then
    (c_lbrace :: when_format fmt [c_nl]) ++
    members_text fmt (d + 1) ((fun x => (jstring x, render fmt (d + 1) x)) <$> c) ++
    when_format fmt (tabs d) ++ [c_rbrace]
  else [].

Fixpoint printable (j : cJSON) : bool :=
  let 'Node t c v _ _ _ := j in
  let t := Z.land t 255 in
  if (t =? cJSON_NULL) || (t =? cJSON_False) || (t =? cJSON_True) || (t =? cJSON_Number) || (t =? cJSON_String) then true
  else if t =? cJSON_Raw then match v with None => false | Some _ => true end
  else if (t =? cJSON_Array) || (t =? cJSON_Object) then forallb printable c
  else false.

(** A number whose fields a C program can hold. *)
Definition wf_number (i : Z) (d : double) : Prop :=
  - 2 ^ 63 <= i < 2 ^ 63 /\ (is_nan_or_inf d = true \/ valid_binary 53 1024 d = true).

Inductive wf_item : cJSON -> Prop :=
| wf_node t c v i d s : wf_number i d -> Forall byte_ok (default [] v) -> Forall byte_ok (default [] s) -> Forall wf_item c ->
    wf_item (Node t c v i d s).

(** Lengths of concatenations. *)
Ltac solve_len := cbn [app]; rewrite ?zlen_app, ?zlen_cons; change (zlen (@nil Z)) with 0; lia.

(** ** Characters of the text *)

Definition printed : list Z -> Prop := Forall (fun c => 0 < c < 256).

Ltac printed_const := unfold printed; repeat constructor; lia.

Lemma jdigits_printed l : Forall jdigit l -> printed l.
Proof. intros H. eapply Forall_impl; [exact H|]. intros c Hc. unfold jdigit in Hc. lia. Qed.

Lemma jnumber_printed t : jnumber t -> printed t.
Proof.
  intros (s & i & f & e & -> & Hs & Hi & Hf & He & _). unfold printed. rewrite !Forall_app. repeat split.
  - destruct Hs as [-> | ->]; [constructor|apply Forall_singleton; lia].
  - destruct Hi as [|c l Hc Hl]; [apply Forall_singleton; lia|]. constructor; [lia|by apply jdigits_printed].
  - destruct Hf as [|c l Hl]; [constructor|]. constructor; [done|by apply jdigits_printed].
  - destruct He as [|x s' c l Hx Hs' Hl]; [constructor|]. constructor; [destruct Hx as [-> | ->]; lia|]. apply Forall_app.
    split; [destruct Hs' as [-> |[-> | ->]]; [constructor|apply Forall_singleton; lia..]|by apply jdigits_printed].
Qed.

Lemma number_chars_spec i d : wf_number i d -> printed (number_chars i d) /\ zlen (number_chars i d) <= 24.
Proof.
  intros [Hi Hd]. unfold number_chars. destruct (is_nan_or_inf d) eqn:E; [by split; [repeat constructor|]|].
  destruct Hd as [|Hv]; [done|].
  assert (forall P, 1 <= P <= 17 -> printed (fmt_g P d) /\ zlen (fmt_g P d) <= 24) as Hg.
  { intros P HP. destruct (fmt_g_jnumber P d HP Hv) as [Hj Hl]; [destruct d; try done; eauto|]. split; [by apply jnumber_printed|done]. }
  destruct (D_eqb d (D_of_Z i)).
  - destruct (fmt_d_jnumber i 19) as [Hj Hl]; [|lia|split; [by apply jnumber_printed|lia]]. lia.
  - cbv zeta. destruct (strtod (fmt_g 15 d)) as [test [|n]]; [by apply Hg|]. destruct (compare_double test d); by apply Hg.
Qed.

Lemma escape_length c : zlen (escape c) = 1 + escape_extra c.
Proof.
  unfold escape, escape_extra. destruct (Z.ltb_spec 31 c), (Z.eqb_spec c c_quote), (Z.eqb_spec c c_bslash); cbn [negb andb orb]; try lia; try done.
  - destruct (Z.eqb_spec c c_bs), (Z.eqb_spec c c_ff), (Z.eqb_spec c c_nl), (Z.eqb_spec c c_cr), (Z.eqb_spec c c_tab); cbn [orb]; try lia.
    rewrite (proj2 (Z.ltb_ge c 32)) by lia. done.
  - destruct (c =? c_bs), (c =? c_ff), (c =? c_nl), (c =? c_cr), (c =? c_tab); cbn [orb]; try done.
    by rewrite (proj2 (Z.ltb_lt c 32)) by lia.
Qed.

Lemma escape_extra_nonneg c : 0 <= escape_extra c.
Proof. unfold escape_extra. repeat case_match; lia. Qed.

Lemma escapes_length l : zlen (concat (escape <$> l)) = zlen l + escape_characters l.
Proof.
  induction l as [|c l IH]; [done|]. cbn [fmap list_fmap concat escape_characters foldr]. rewrite zlen_app, zlen_cons, IH, escape_length.
  unfold escape_characters. lia.
Qed.

Lemma escape_characters_nonneg l : 0 <= escape_characters l.
Proof. induction l as [|c l IH]; cbn; [done|]. pose proof (escape_extra_nonneg c). unfold escape_characters in IH. lia. Qed.

Lemma escape_plain c : escape_extra c = 0 -> escape c = [c].
Proof.
  unfold escape, escape_extra. destruct (Z.eqb_spec c c_quote), (Z.eqb_spec c c_bslash); try done. cbn [orb].
  destruct (_ || _ || _ || _ || _); [done|]. destruct (Z.ltb_spec c 32); [done|]. by rewrite (proj2 (Z.ltb_lt 31 c)) by lia.
Qed.

Lemma escapes_plain l : escape_characters l = 0 -> concat (escape <$> l) = l.
Proof.
  induction l as [|c l IH]; [done|]. cbn [escape_characters foldr fmap list_fmap concat]. fold (escape_characters l).
  pose proof (escape_extra_nonneg c). pose proof (escape_characters_nonneg l). intros H1.
  by rewrite escape_plain, IH by lia.
Qed.

Lemma hex_char_printed d : 0 <= d -> d < 16 -> 0 < hex_char d < 256.
Proof. unfold hex_char. case_match; lia. Qed.

Lemma escape_printed c : 0 < c < 256 -> printed (escape c).
Proof.
  intros Hc. unfold escape. destruct (_ && _ && _); [apply Forall_singleton; lia|]. constructor; [lia|].
  destruct (c =? c_bslash); [apply Forall_singleton; lia|]. destruct (c =? c_quote); [apply Forall_singleton; lia|].
  destruct (c =? c_bs); [apply Forall_singleton; lia|]. destruct (c =? c_ff); [apply Forall_singleton; lia|].
  destruct (c =? c_nl); [apply Forall_singleton; lia|]. destruct (c =? c_cr); [apply Forall_singleton; lia|].
  destruct (c =? c_tab); [apply Forall_singleton; lia|].
  repeat (constructor; [first [lia|apply hex_char_printed; Z.to_euclidean_division_equations; lia]|]). constructor.
Qed.

Lemma cstr_bytes l : Forall byte_ok l -> Forall (fun c => 0 < c < 256) (cstr l).
Proof.
  unfold byte_ok. induction 1 as [|c l Hc _ IH]; cbn; [constructor|]. destruct (Z.eqb_spec c 0); constructor; [lia|done].
Qed.

Lemma string_text_printed v : Forall byte_ok (default [] v) -> printed (string_text v).
Proof.
  destruct v as [s|]; cbn; [|printed_const]. intros H%cstr_bytes. constructor; [lia|]. apply Forall_app.
  split; [|apply Forall_singleton; lia]. induction H as [|c l Hc _ IH]; [constructor|]. apply Forall_app. split; [apply escape_printed; lia|done].
Qed.

Lemma tabs_printed d : printed (tabs d).
Proof. unfold tabs. apply Forall_forall. intros c Hc. apply list_elem_of_In, repeat_spec in Hc. by subst. Qed.

Lemma when_format_printed fmt l : printed l -> printed (when_format fmt l).
Proof. by destruct fmt; [|constructor]. Qed.

Lemma elements_text_printed fmt ts : Forall printed ts -> printed (elements_text fmt ts).
Proof.
  induction 1 as [|t ts Ht _ IH]; [constructor|]. cbn. unfold printed. rewrite !Forall_app. split; [done|]. split; [|done].
  destruct ts; [constructor|]. constructor; [lia|]. apply when_format_printed. printed_const.
Qed.

Lemma members_text_printed fmt d ts : Forall (fun kt => printed (string_text kt.1) /\ printed kt.2) ts -> printed (members_text fmt d ts).
Proof.
  induction 1 as [|[k t] ts [Hk Ht] _ IH]; [constructor|]. cbn [members_text]. unfold printed. rewrite !Forall_app.
  split; [apply when_format_printed, tabs_printed|]. split; [done|].
  split; [constructor; [lia|]; apply when_format_printed; printed_const|]. split; [done|].
  split; [split; [destruct ts; printed_const|apply when_format_printed; printed_const]|done].
Qed.

Lemma render_printed fmt j : forall d, wf_item j -> printed (render fmt d j).
Proof.
  induction j as [t c v i x s IH] using cJSON_children_ind. intros d Hw. inversion_clear Hw as [? ? ? ? ? ? Hn Hv Hs Hc].
  cbn [render]. cbv zeta. repeat case_match; try (printed_const).
  - by apply number_chars_spec.
  - by apply cstr_bytes.
  - by apply string_text_printed.
  - constructor; [lia|]. apply Forall_app. split; [|apply Forall_singleton; lia]. apply elements_text_printed.
    apply Forall_fmap. rewrite Forall_forall in IH, Hc |- *. intros y Hy. apply IH; auto.
  - unfold printed. rewrite !Forall_app. split; [constructor; [lia|]; apply when_format_printed; printed_const|].
    split; [|split; [apply when_format_printed, tabs_printed|apply Forall_singleton; lia]]. apply members_text_printed.
    apply Forall_fmap. rewrite Forall_forall in IH, Hc |- *. intros y Hy. split; [|by apply IH; auto].
    apply string_text_printed. specialize (Hc y Hy). by inversion_clear Hc.
Qed.

Definition nonzero : list Z -> Prop := Forall (fun c => c <> 0).

Lemma printed_nonzero l : printed l -> nonzero l.
Proof. intros H. eapply Forall_impl; [exact H|]. cbn. lia. Qed.

Lemma printed_bytes l : printed l -> Forall byte_ok l.
Proof. intros H. eapply Forall_impl; [exact H|]. unfold byte_ok. cbn. lia. Qed.

Lemma render_nonzero fmt j d : wf_item j -> nonzero (render fmt d j).
Proof. intros Hw. by apply printed_nonzero, render_printed. Qed.

Lemma string_text_nonzero v : Forall byte_ok (default [] v) -> nonzero (string_text v).
Proof. intros Hv. by apply printed_nonzero, string_text_printed. Qed.

(** ** Storing *)

Lemma buf_write_over l : forall b a rest, data b = a ++ rest -> zlen a + zlen l <= cap b ->
  buf_write b (zlen a) l = Some (mk_cbuf (cap b) (a ++ l ++ drop (length l) rest)).
Proof.
  induction l as [|x l IH]; intros b a rest Hd Hc; cbn [buf_write].
  - cbn. rewrite drop_0, <- Hd. by destruct b.
  - rewrite zlen_cons in Hc. pose proof (zlen_nonneg a). pose proof (zlen_nonneg l). unfold buf_poke.
    rewrite Hd, zlen_app. pose proof (zlen_nonneg rest).
    rewrite (proj2 (Z.leb_le 0 _)), (proj2 (Z.ltb_lt _ _)), (proj2 (Z.leb_le (zlen a) _)) by lia. cbn [andb].
    set (d' := if _ =? _ then _ else _).
    assert (d' = (a ++ [x]) ++ drop 1 rest) as E.
    { unfold d'. destruct rest as [|y rest].
      - rewrite zlen_nil, Z.add_0_r, Z.eqb_refl. by rewrite !app_nil_r.
      - rewrite zlen_cons. pose proof (zlen_nonneg rest). rewrite (proj2 (Z.eqb_neq _ _)) by lia.
        unfold zlen. rewrite Nat2Z.id. replace (length a) with (length a + 0)%nat by lia. rewrite insert_app_r.
        cbn. by rewrite <- app_assoc. }
    specialize (IH (mk_cbuf (cap b) d') (a ++ [x]) (drop 1 rest) E). cbn [cap] in IH.
    rewrite zlen_app, (zlen_cons x []), zlen_nil in IH. replace (zlen a + (0 + 1)) with (zlen a + 1) in IH by lia.
    rewrite IH by lia. rewrite <- app_assoc, drop_drop. done.
Qed.

(** ** The state of a print in progress

    [pre] has been printed, [d] is the depth. *)

Record printing (p : printbuffer) (pre : list Z) (d : Z) (b : cbuf) : Prop := {
  pr_buffer : pb_buffer p = Some b;
  pr_cap : cap b = pb_length p;
  pr_offset : pb_offset p = zlen pre;
  pr_text : exists rest, data b = pre ++ rest;
  pr_room : zlen pre < cap b \/ pre = [] /\ cap b = 0;
  pr_depth : pb_depth p = d;
  pr_deep : 0 <= d <= zlen pre }.

(** What every step leaves as it is. *)
Definition evolves (p p' : printbuffer) : Prop :=
  pb_noalloc p' = pb_noalloc p /\ pb_format p' = pb_format p /\ (pb_nalloc p <= pb_nalloc p')%nat /\
  (pb_noalloc p = true -> pb_length p' = pb_length p /\ pb_nalloc p' = pb_nalloc p).

#[export] Instance evolves_refl : Reflexive evolves.
Proof. intros p. repeat split; lia. Qed.

#[export] Instance evolves_trans : Transitive evolves.
Proof.
  intros p q r (A1 & A2 & A3 & A4) (B1 & B2 & B3 & B4). split; [congruence|]. split; [congruence|]. split; [lia|].
  intros H. destruct (A4 H) as [-> ->] in B4. apply B4. congruence.
Qed.

Lemma evolves_grown p p' : pb_noalloc p = false -> pb_noalloc p' = pb_noalloc p -> pb_format p' = pb_format p ->
  pb_nalloc p' = S (pb_nalloc p) -> evolves p p'.
Proof. intros H H1 H2 H3. split; [done|]. split; [done|]. split; [lia|]. by rewrite H. Qed.

Section PrintSpec.
Context (alloc : nat -> bool) (has_reallocate : bool).

(** Why a print of [n] bytes from [p] may give up. *)
Definition no_room (p : printbuffer) (n : Z) (p' : printbuffer) : Prop :=
  (pb_noalloc p = true /\ pb_length p < n) \/ exists k, (pb_nalloc p <= k < pb_nalloc p')%nat /\ alloc k = false.

Lemma no_room_more p q r n m : evolves p q -> evolves q r -> no_room q n r -> n <= m -> no_room p m r.
Proof.
  intros (A1 & _ & A3 & A4) (_ & _ & B3 & _) [[H1 H2]|(k & Hk & E)] Hn.
  - left. rewrite A1 in H1. destruct (A4 H1) as [A4' _]. rewrite A4' in H2. split; [done|lia].
  - right. exists k. split; [lia|done].
Qed.

Lemma ensured_spec needed m Q p pre d b : printing p pre d b -> 0 <= needed -> zlen pre + needed + 1 < 2 ^ 63 ->
  (forall p' b', printing p' pre d b' -> evolves p p' -> zlen pre + needed + 1 <= cap b' -> wp m Q p') ->
  (forall p', evolves p p' -> no_room p (zlen pre + needed + 1) p' -> Q false p') ->
  wp (ensured alloc has_reallocate needed m) Q p.
Proof.
  intros H Hn Hs Hok Hno. pose proof (zlen_nonneg pre). destruct H as [Hb Hc Ho (rest & Ht) Hr Hd Hdp].
  unfold ensured, ensure. apply wp_bind. apply wp_bind. apply wp_get. rewrite Hb, Ho, <- Hc.
  assert ((0 <? cap b) && (cap b <=? zlen pre) = false) as ->.
  { destruct Hr as [|[-> ->]]; [|done]. rewrite (proj2 (Z.leb_gt _ _)) by lia. apply andb_false_r. }
  unfold SIZE_MAX. rewrite (proj2 (Z.ltb_ge _ needed)) by lia. cbv zeta.
  assert (u64 (zlen pre + 1) = zlen pre + 1) as -> by (apply wrapu_small; lia).
  assert (u64 (needed + (zlen pre + 1)) = zlen pre + needed + 1) as -> by (rewrite wrapu_small; lia).
  destruct (Z.leb_spec (zlen pre + needed + 1) (cap b)) as [Hfit|Hfit].
  - apply wp_ret. apply (Hok p b); [by split; eauto|reflexivity|done].
  - destruct (pb_noalloc p) eqn:Ena.
    + apply wp_ret, wp_ret. apply Hno; [reflexivity|]. left. split; [done|lia].
    + rewrite (proj2 (Z.ltb_ge _ _)) by (Z.to_euclidean_division_equations; lia).
      assert (u64 ((zlen pre + needed + 1) * 2) = (zlen pre + needed + 1) * 2) as -> by (apply wrapu_small; lia).
      unfold allocated. do 2 apply wp_bind. apply wp_get, wp_bind, wp_modify, wp_ret. cbn [pb_nalloc].
      destruct (alloc (pb_nalloc p)) eqn:Ea; cbn [negb]; apply wp_bind; apply wp_modify; apply wp_ret.
      * eapply (Hok _ (mk_cbuf ((zlen pre + needed + 1) * 2) _)); [|by apply evolves_grown|cbn [cap]; lia].
        assert (zlen pre = Z.of_nat (length pre)) as Epre by done.
        split; cbn [pb_buffer pb_length pb_offset pb_depth cap data]; try done; [|left; lia].
        destruct has_reallocate; rewrite Ht, firstn_app, firstn_all2 by lia; eauto.
      * apply wp_ret. apply Hno; [by apply evolves_grown|].
        right. exists (pb_nalloc p). cbn [pb_nalloc]. split; [lia|done].
Qed.

(** Stores behind what has been printed. *)
Definition with_data (p : printbuffer) (l : list Z) : printbuffer :=
  mk_printbuffer ((fun b => mk_cbuf (cap b) l) <$> pb_buffer p) (pb_length p) (pb_offset p) (pb_depth p) (pb_noalloc p) (pb_format p) (pb_nalloc p).

Lemma store_spec p b pre w rest l : pb_buffer p = Some b -> pb_offset p = zlen pre -> data b = pre ++ w ++ rest ->
  zlen pre + zlen w + zlen l <= cap b ->
  store (zlen w) l p = Ret (tt, with_data p (pre ++ w ++ l ++ drop (length l) rest)).
Proof.
  intros Hb Ho Hd Hc. unfold store, bind, get. rewrite Hb, Ho, <- zlen_app.
  rewrite (buf_write_over l b (pre ++ w) rest) by (rewrite ?zlen_app, <- ?app_assoc; done || lia).
  unfold set_buffer, modify, with_data. by rewrite Hb, <- app_assoc.
Qed.

Lemma store_bind {A} p b pre rest l (K : unit -> PM A) Q : pb_buffer p = Some b -> pb_offset p = zlen pre -> data b = pre ++ rest ->
  zlen pre + zlen l <= cap b ->
  wp (K tt) Q (with_data p (pre ++ l ++ drop (length l) rest)) -> wp (bind (store 0 l) K) Q p.
Proof.
  intros Hb Ho Hd Hc HK. apply wp_bind. unfold wp at 1. change 0 with (zlen (@nil Z)).
  by rewrite (store_spec p b pre [] rest l Hb Ho Hd) by (rewrite zlen_nil; lia).
Qed.

(** ** What a piece of the printer leaves

    On success its text [t] is in the buffer: the offset is behind it, or the
    text is a C string and the offset somewhere in it.  [ok] tells whether the
    items have a text at all. *)

Definition at_end (p' : printbuffer) (pre t : list Z) (d : Z) : Prop := exists b, printing p' (pre ++ t) d b.

Definition at_value (p' : printbuffer) (pre t : list Z) (d : Z) : Prop := exists b rest k,
  pb_buffer p' = Some b /\ cap b = pb_length p' /\ data b = pre ++ t ++ 0 :: rest /\ 0 <= k <= zlen t /\
  pb_offset p' = zlen pre + k /\ pb_depth p' = d /\ 0 <= d <= zlen pre /\ zlen pre + zlen t + 2 <= cap b.

Definition prints (E : printbuffer -> list Z -> list Z -> Z -> Prop) (p : printbuffer) (pre t : list Z) (d : Z) (ok r : bool)
    (p' : printbuffer) : Prop :=
  evolves p p' /\ if r then ok = true /\ E p' pre t d else ok = false \/ no_room p (zlen pre + zlen t + 2) p'.

(** Both ends can be seen from an earlier start. *)
Definition extends (E : printbuffer -> list Z -> list Z -> Z -> Prop) : Prop :=
  forall p pre t1 t2 d, 0 <= d <= zlen pre -> E p (pre ++ t1) t2 d -> E p pre (t1 ++ t2) d.

Lemma at_end_extends : extends at_end.
Proof. intros p pre t1 t2 d _ [b H]. exists b. by rewrite app_assoc. Qed.

Lemma at_value_extends : extends at_value.
Proof.
  intros p pre t1 t2 d Hd (b & rest & k & Hb & Hc & Ht & Hk & Ho & Hp & _ & Hr). pose proof (zlen_nonneg t1).
  rewrite zlen_app in Ho, Hr. exists b, rest, (zlen t1 + k). rewrite zlen_app.
  split; [done|]. split; [done|]. split; [by rewrite Ht, <- !app_assoc|]. split; [lia|]. split; [lia|]. split; [done|]. split; [done|lia].
Qed.

Lemma prints_after E p p1 pre t1 t2 d ok r p' : extends E -> 0 <= d <= zlen pre -> evolves p p1 ->
  prints E p1 (pre ++ t1) t2 d ok r p' -> prints E p pre (t1 ++ t2) d ok r p'.
Proof.
  intros HE Hd H1 [H2 H3]. split; [by etransitivity|]. destruct r.
  - destruct H3 as [-> H3]. split; [done|]. by apply HE.
  - destruct H3 as [->|H3]; [by left|]. right. eapply no_room_more; [exact H1|exact H2|exact H3|]. rewrite !zlen_app. lia.
Qed.

(** A failing piece. *)
Lemma prints_failed E p pre t1 t2 d ok1 ok2 p' :
  evolves p p' -> ok1 = false \/ no_room p (zlen pre + zlen t1 + 2) p' -> prints E p pre (t1 ++ t2) d (ok1 && ok2) false p'.
Proof.
  intros H1 [->|H]; (split; [done|]); [by left|right]. eapply no_room_more; [reflexivity|done|exact H|].
  rewrite zlen_app. pose proof (zlen_nonneg t2). lia.
Qed.

Lemma seq_spec E (m : PM bool) (K : PM bool) p pre t1 t2 d1 d ok1 ok2 : extends E -> 0 <= d <= zlen pre ->
  wp m (prints at_end p pre t1 d1 ok1) p ->
  (forall p', at_end p' pre t1 d1 -> evolves p p' -> wp K (prints E p' (pre ++ t1) t2 d ok2) p') ->
  wp (ok <- m ;; if negb ok then ret false else K) (prints E p pre (t1 ++ t2) d (ok1 && ok2)) p.
Proof.
  intros HE Hd Hm HK. apply wp_bind. eapply wp_mono; [exact Hm|]. intros [|] p1 [H1 H2]; cbn [negb].
  - destruct H2 as [-> H2]. eapply wp_mono; [by apply HK|]. intros r p2 H3.
    by apply (prints_after E p p1).
  - apply wp_ret. by apply prints_failed.
Qed.

(** A value, and the offset moved behind it. *)
Lemma update_offset_spec p pre t d : Forall (fun c => c <> 0) t -> zlen pre + zlen t < 2 ^ 63 -> at_value p pre t d ->
  wp update_offset (fun _ p' => evolves p p' /\ at_end p' pre t d /\ pb_buffer p' = pb_buffer p /\ pb_nalloc p' = pb_nalloc p) p.
Proof.
  intros H0 Hs (b & rest & k & Hb & Hc & Ht & Hk & Ho & Hp & Hd & Hr). unfold update_offset. apply wp_bind, wp_get.
  rewrite Hb, Ho, Ht. pose proof (zlen_nonneg pre).
  assert (drop (Z.to_nat (zlen pre + k)) (pre ++ t ++ 0 :: rest) = drop (Z.to_nat k) t ++ 0 :: rest) as ->.
  { unfold zlen in *. rewrite Z2Nat.inj_add, Nat2Z.id, <- drop_drop, drop_app_length, drop_app_le by lia. done. }
  cbv zeta. rewrite existsb_app. cbn [existsb Z.eqb orb]. rewrite orb_true_r.
  assert (cstr (drop (Z.to_nat k) t ++ 0 :: rest) = drop (Z.to_nat k) t) as ->.
  { by apply cstr_nonzero_end, Forall_drop. }
  unfold add_offset. apply wp_modify. split; [done|]. split; [|done]. exists b.
  assert (zlen (drop (Z.to_nat k) t) = zlen t - k) as Hl.
  { unfold zlen in *. rewrite length_drop. lia. }
  split; cbn [pb_buffer pb_length pb_offset pb_depth]; rewrite ?zlen_app; try done.
  - rewrite Ho, Hl. rewrite wrapu_small by lia. lia.
  - exists (0 :: rest). by rewrite Ht, <- app_assoc.
  - left. lia.
  - lia.
Qed.

Lemma value_then E (m : PM bool) (K : PM bool) p pre t1 t2 d1 d ok1 ok2 : extends E -> 0 <= d <= zlen pre ->
  Forall (fun c => c <> 0) t1 -> zlen pre + zlen t1 < 2 ^ 63 ->
  wp m (prints at_value p pre t1 d1 ok1) p ->
  (forall p', at_end p' pre t1 d1 -> evolves p p' -> wp K (prints E p' (pre ++ t1) t2 d ok2) p') ->
  wp (ok <- m ;; if negb ok then ret false else update_offset ;;; K) (prints E p pre (t1 ++ t2) d (ok1 && ok2)) p.
Proof.
  intros HE Hd H0 Hs Hm HK. apply wp_bind. eapply wp_mono; [exact Hm|]. intros [|] p1 [H1 H2]; cbn [negb].
  - destruct H2 as [-> H2]. apply wp_bind. eapply wp_mono; [by apply update_offset_spec|]. intros _ p2 (H3 & H4 & _).
    assert (evolves p p2) as H5 by by etransitivity. eapply wp_mono; [by apply HK|]. intros r p3 H6.
    by apply (prints_after E p p2).
  - apply wp_ret. by apply prints_failed.
Qed.

(** Storing text (and possibly a NUL behind it) and moving over the text. *)
Lemma printing_stored p pre d b t1 w rest p' d' : printing p pre d b ->
  pb_buffer p' = Some (mk_cbuf (cap b) (pre ++ (t1 ++ w) ++ rest)) -> pb_length p' = pb_length p ->
  pb_offset p' = zlen pre + zlen t1 -> pb_depth p' = d' -> 0 <= d' <= zlen pre + zlen t1 -> zlen pre + zlen t1 < cap b ->
  at_end p' pre t1 d'.
Proof.
  intros [] Hb Hl Ho Hd' Hdd Hr. eexists. split; [exact Hb|..]; cbn [cap data]; rewrite ?zlen_app; try done.
  - congruence.
  - exists (w ++ rest). by rewrite <- !app_assoc.
  - by left.
Qed.

Lemma put_spec E n t1 w (M : PM bool) p pre t2 d0 d d' ok b : printing p pre d0 b ->
  0 <= n -> zlen t1 <= n -> zlen (t1 ++ w) <= n + 1 -> n + 1 <= zlen t1 + zlen t2 + 2 -> zlen pre + zlen t1 + zlen t2 + 2 < 2 ^ 63 ->
  0 <= d' <= zlen pre + zlen t1 ->
  (forall p1 b1, evolves p p1 -> pb_buffer p1 = Some b1 -> cap b1 = pb_length p1 -> pb_offset p1 = zlen pre -> pb_depth p1 = d0 ->
    zlen pre + n + 1 <= cap b1 -> (exists rest, data b1 = pre ++ (t1 ++ w) ++ rest) ->
    (forall p2, pb_buffer p2 = Some b1 -> pb_length p2 = pb_length p1 -> pb_offset p2 = zlen pre + zlen t1 -> pb_depth p2 = d' -> at_end p2 pre t1 d') ->
    wp M (prints E p pre (t1 ++ t2) d ok) p1) ->
  wp (ensured alloc has_reallocate n (store 0 (t1 ++ w) ;;; M)) (prints E p pre (t1 ++ t2) d ok) p.
Proof.
  intros Hp Hn Ht1 Hl Hn2 Hs Hd' HM. pose proof (zlen_nonneg pre). eapply ensured_spec; [exact Hp|done|lia|..].
  - intros p' b' Hp' Hev Hroom. destruct Hp' as [Hb Hc Ho (rest & Ht) Hr Hd Hdp] eqn:EP. clear EP.
    eapply store_bind; [exact Hb|done|exact Ht|lia|].
    eapply (HM _ (mk_cbuf (cap b') _)); cbn [with_data pb_buffer pb_length pb_offset pb_depth cap data].
    + etransitivity; [exact Hev|]. done.
    + by rewrite Hb.
    + done.
    + done.
    + done.
    + done.
    + eauto.
    + intros p2 B2 L2 O2 D2. eapply (printing_stored p' pre d0 b' t1 w _ p2 d'); [exact Hp'|exact B2|done|done|done|done|lia].
  - intros p' Hev Hno. split; [done|]. right. eapply no_room_more; [reflexivity|exact Hev|exact Hno|]. rewrite zlen_app. lia.
Qed.

(** ** Leaves *)

(** A text and its NUL, the offset left or moved behind the text. *)
Lemma leaf_spec k t p pre d b : printing p pre d b -> zlen pre + zlen t + 2 < 2 ^ 63 -> k = 0 \/ k = zlen t ->
  wp (ensured alloc has_reallocate (zlen t + 1) (store 0 (t ++ [0]) ;;; add_offset k ;;; ret true)) (prints at_value p pre t d true) p.
Proof.
  intros Hp Hs Hk. pose proof (zlen_nonneg t). pose proof (zlen_nonneg pre). pose proof (pr_deep _ _ _ _ Hp).
  apply (put_spec at_value (zlen t + 1) [] (t ++ [0]) _ p pre t d d d true b Hp); try solve_len.
  intros p1 b1 Hev Hb Hc Ho Hd Hr (rest & Ht) _. cbn [app] in *. unfold add_offset. apply wp_bind, wp_modify, wp_ret.
  split; [exact Hev|]. split; [done|]. exists b1, rest, k. cbn [pb_buffer pb_length pb_offset pb_depth].
  split; [done|]. split; [done|]. split; [by rewrite Ht, <- app_assoc|]. split; [lia|].
  split; [rewrite Ho; apply wrapu_small; lia|]. split; [done|]. split; [done|lia].
Qed.

Lemma add_offset_zero {A} (K : PM A) Q p : 0 <= pb_offset p < 2 ^ 64 -> wp K Q p -> wp (bind (add_offset 0) (fun _ => K)) Q p.
Proof.
  intros H HK. apply wp_bind. unfold add_offset. apply wp_modify. rewrite Z.add_0_r, wrapu_small by done. by destruct p.
Qed.

Lemma print_text_spec t p pre d b : printing p pre d b -> zlen pre + zlen t + 2 < 2 ^ 63 ->
  wp (print_text alloc has_reallocate t) (prints at_value p pre t d true) p.
Proof.
  intros Hp Hs. pose proof (zlen_nonneg t). pose proof (zlen_nonneg pre). pose proof (pr_deep _ _ _ _ Hp).
  apply (put_spec at_value (zlen t + 1) [] (t ++ [0]) _ p pre t d d d true b Hp); try solve_len.
  intros p1 b1 Hev Hb Hc Ho Hd Hr (rest & Ht) _. cbn [app] in *. apply wp_ret.
  split; [exact Hev|]. split; [done|]. exists b1, rest, 0.
  split; [done|]. split; [done|]. split; [by rewrite Ht, <- app_assoc|]. split; [lia|]. split; [lia|]. split; [done|]. split; [done|lia].
Qed.

Lemma print_number_spec j p pre d b : wf_number (jvalueint j) (jvaluedouble j) -> printing p pre d b ->
  zlen pre + zlen (number_chars (jvalueint j) (jvaluedouble j)) + 2 < 2 ^ 63 ->
  wp (print_number alloc has_reallocate j) (prints at_value p pre (number_chars (jvalueint j) (jvaluedouble j)) d true) p.
Proof.
  intros Hw Hp Hs. destruct (number_chars_spec _ _ Hw) as [_ Hl]. unfold print_number, NUMBER_BUFFER. cbv zeta.
  rewrite (proj2 (Z.ltb_ge _ _)) by lia. apply (leaf_spec _ _ p pre d b); auto.
Qed.

(** *** Strings *)

(** The buffer of [q] is that of [p] with [w] stored behind the text printed so far. *)
Definition filled (p q : printbuffer) (pre w : list Z) : Prop := exists rest, q = with_data p (pre ++ w ++ rest).

Lemma store_filled {A} p q b pre w l (K : unit -> PM A) Q : pb_buffer p = Some b -> pb_offset p = zlen pre -> filled p q pre w ->
  zlen pre + zlen w + zlen l <= cap b ->
  (forall q', filled p q' pre (w ++ l) -> wp (K tt) Q q') -> wp (bind (store (zlen w) l) K) Q q.
Proof.
  intros Hb Ho (rest & ->) Hc HK. apply wp_bind. unfold wp at 1.
  rewrite (store_spec _ (mk_cbuf (cap b) (pre ++ w ++ rest)) pre w rest l); [|by unfold with_data; rewrite Hb|done|done|done].
  apply HK. exists (drop (length l) rest). unfold with_data. cbn [pb_buffer pb_length pb_offset pb_depth pb_noalloc pb_format pb_nalloc].
  rewrite Hb. cbn. by rewrite <- app_assoc.
Qed.

Lemma copy_escaped_spec {A} p b pre input : forall w q (K : unit -> PM A) Q, pb_buffer p = Some b -> pb_offset p = zlen pre -> filled p q pre w ->
  zlen pre + zlen w + zlen (concat (escape <$> input)) <= cap b ->
  (forall q', filled p q' pre (w ++ concat (escape <$> input)) -> wp (K tt) Q q') -> wp (bind (copy_escaped input (zlen w)) K) Q q.
Proof.
  induction input as [|c input IH]; intros w q K Q Hb Ho Hf Hc HK.
  - cbn in HK. rewrite app_nil_r in HK. apply wp_bind, wp_ret. by apply HK.
  - cbn [copy_escaped fmap list_fmap concat] in *. rewrite zlen_app in Hc. pose proof (zlen_nonneg (concat (escape <$> input))).
    apply wp_bind. eapply (store_filled p q b pre w (escape c)); [done..|lia|]. intros q' Hf'. rewrite <- zlen_app.
    apply (wp_bind_inv _ K). eapply IH; [done..|rewrite zlen_app; lia|]. intros q2 Hf2. apply HK. by rewrite <- app_assoc in Hf2.
Qed.

Lemma print_string_ptr_spec v p pre d b : printing p pre d b -> zlen pre + zlen (string_text v) + 2 < 2 ^ 63 ->
  wp (print_string_ptr alloc has_reallocate v) (prints at_value p pre (string_text v) d true) p.
Proof.
  intros Hp Hs. pose proof (zlen_nonneg pre). destruct v as [s|]; [|exact (print_text_spec [c_quote; c_quote] p pre d b Hp Hs)].
  unfold print_string_ptr. cbv zeta. cbn [string_text] in *. set (l := cstr s) in *. set (e := concat (escape <$> l)) in *.
  assert (zlen (c_quote :: e ++ [c_quote]) = zlen l + escape_characters l + 2) as El.
  { rewrite zlen_cons, zlen_app. unfold e. rewrite escapes_length. change (zlen [c_quote]) with 1. lia. }
  assert (zlen e = zlen l + escape_characters l) as Ee by (unfold e; apply escapes_length).
  pose proof (escape_characters_nonneg l). pose proof (zlen_nonneg l).
  eapply ensured_spec; [exact Hp|lia|lia|..].
  2:{ intros p' Hev Hno. split; [done|]. right. eapply no_room_more; [reflexivity|exact Hev|exact Hno|lia]. }
  intros p' b' Hp' Hev Hroom. pose proof Hp' as [Hb Hc Ho (rest & Ht) Hr Hd Hdp].
  assert (filled p' p' pre []) as Hf0.
  { exists rest. unfold with_data. rewrite Hb. cbn. rewrite <- Ht. destruct b', p'. cbn in *. by subst. }
  assert (forall q, filled p' q pre (c_quote :: e) ->
    wp (store (zlen l + escape_characters l + 1) [c_quote; 0] ;;; ret true) (prints at_value p pre (c_quote :: e ++ [c_quote]) d true) q) as Hend.
  { intros q Hf. replace (zlen l + escape_characters l + 1) with (zlen (c_quote :: e)) by (rewrite zlen_cons; lia).
    eapply (store_filled p' q b' pre); [done..|solve_len|]. intros q' [rest' ->]. apply wp_ret.
    split; [by etransitivity|]. split; [done|]. eexists _, rest', 0. cbn [with_data pb_buffer pb_length pb_offset pb_depth]. rewrite Hb.
    split; [done|]. cbn [cap data]. split; [done|]. split; [by cbn; rewrite <- !app_assoc|]. split; [lia|]. split; [lia|]. split; [done|].
    split; [done|]. rewrite El. lia. }
  destruct (Z.eqb_spec (escape_characters l) 0) as [E|E].
  - eapply (store_filled p' p' b' pre []); [done..|solve_len|]. intros q1 Hf1.
    eapply (store_filled p' q1 b' pre [c_quote] l); [done..|solve_len|]. intros q2 Hf2. apply Hend.
    unfold e. by rewrite escapes_plain.
  - eapply (store_filled p' p' b' pre []); [done..|solve_len|]. intros q1 Hf1.
    eapply (copy_escaped_spec p' b' pre l [c_quote]); [done..|fold e; solve_len|]. intros q2 Hf2. by apply Hend.
Qed.

(** Text, and the offset moved behind it. *)
Lemma emit_then E n t1 w (K : PM bool) p pre t2 d0 d ok : extends E -> at_end p pre [] d0 -> 0 <= d <= zlen pre ->
  zlen t1 <= n -> zlen (t1 ++ w) <= n + 1 -> n + 1 <= zlen t1 + zlen t2 + 2 -> zlen pre + zlen t1 + zlen t2 + 2 < 2 ^ 63 ->
  (forall p', at_end p' pre t1 d0 -> evolves p p' -> wp K (prints E p' (pre ++ t1) t2 d ok) p') ->
  wp (ensured alloc has_reallocate n (store 0 (t1 ++ w) ;;; add_offset (zlen t1) ;;; K)) (prints E p pre (t1 ++ t2) d ok) p.
Proof.
  intros HE [b Hp] Hd Hn1 Hn2 Hn3 Hs HK. rewrite app_nil_r in Hp. pose proof (zlen_nonneg pre). pose proof (zlen_nonneg t1). pose proof (zlen_nonneg t2).
  pose proof (pr_deep _ _ _ _ Hp). apply (put_spec E n t1 w _ p pre t2 d0 d d0 ok b Hp); try lia.
  intros p1 b1 Hev Hb Hc Ho Hdp Hr _ Hend. unfold add_offset. apply wp_bind, wp_modify.
  set (p2 := mk_printbuffer _ _ _ _ _ _ _). assert (at_end p2 pre t1 d0) as Hq2.
  { apply Hend; cbn [p2 pb_buffer pb_length pb_offset pb_depth]; [done..| |done]. rewrite Ho. apply wrapu_small. lia. }
  assert (evolves p p2) as Hev2 by (etransitivity; [exact Hev|done]).
  eapply wp_mono; [by apply HK|]. intros r p3 Hq3. by apply (prints_after E p p2).
Qed.

Lemma at_end_nil p pre t d : at_end p pre t d <-> at_end p (pre ++ t) [] d.
Proof. unfold at_end. by rewrite app_nil_r. Qed.

(** The last text of a container, one level up. *)
Lemma close_spec n t p pre d : at_end p pre [] (d + 1) -> 0 <= d <= zlen pre -> n = zlen t + 1 -> zlen pre + zlen t + 2 < 2 ^ 63 ->
  wp (ensured alloc has_reallocate n (store 0 (t ++ [0]) ;;; add_depth (-1) ;;; ret true)) (prints at_value p pre t d true) p.
Proof.
  intros [b Hp] Hd -> Hs. rewrite app_nil_r in Hp. pose proof (zlen_nonneg t). pose proof (zlen_nonneg pre). pose proof (pr_deep _ _ _ _ Hp).
  apply (put_spec at_value (zlen t + 1) [] (t ++ [0]) _ p pre t (d + 1) d d true b Hp); try solve_len.
  intros p1 b1 Hev Hb Hc Ho Hdp Hr (rest & Ht) _. cbn [app] in *. unfold add_depth. apply wp_bind, wp_modify, wp_ret.
  split; [exact Hev|]. split; [done|]. exists b1, rest, 0. cbn [pb_buffer pb_length pb_offset pb_depth].
  split; [done|]. split; [done|]. split; [by rewrite Ht, <- app_assoc|]. split; [lia|]. split; [lia|].
  split; [rewrite Hdp; rewrite wrapu_small; lia|]. split; [done|lia].
Qed.

(** ** Containers *)

Section Children.
Context (fmt : bool) (pv : cJSON -> PM bool).

(** What is known of printing a child. *)
Definition child_ok (d : Z) (x : cJSON) : Prop :=
  wf_item x /\ forall p pre, at_end p pre [] d -> pb_format p = fmt -> zlen pre + zlen (render fmt d x) + 2 < 2 ^ 63 ->
    wp (pv x) (prints at_value p pre (render fmt d x) d (printable x)) p.

Lemma at_end_deep p pre d : at_end p pre [] d -> 0 <= d <= zlen pre.
Proof. intros [b H]. rewrite app_nil_r in H. exact (pr_deep _ _ _ _ H). Qed.

Lemma array_elements_spec d l : Forall (child_ok d) l -> forall p pre, at_end p pre [] d -> pb_format p = fmt ->
  zlen pre + zlen (elements_text fmt (render fmt d <$> l)) + 3 < 2 ^ 63 ->
  wp (array_elements alloc has_reallocate pv l)
    (prints at_end p pre (elements_text fmt (render fmt d <$> l)) d (forallb printable l)) p.
Proof.
  induction 1 as [|x l [Hw Hx] _ IH]; intros p pre Hp Hf Hs; [by apply wp_ret; split|].
  pose proof (at_end_deep _ _ _ Hp). pose proof (zlen_nonneg pre).
  cbn [array_elements fmap list_fmap elements_text forallb] in *. rewrite !zlen_app in Hs.
  pose proof (zlen_nonneg (render fmt d x)). pose proof (zlen_nonneg (elements_text fmt (render fmt d <$> l))).
  pose proof (zlen_nonneg (match render fmt d <$> l with [] => [] | _ => c_comma :: when_format fmt [c_space] end)).
  eapply (value_then at_end _ _ p pre _ _ d d); [apply at_end_extends|done|by apply render_nonzero| | |].
  { lia. }
  { apply Hx; [done|done|lia]. }
  intros p1 Hq1 Hev. apply at_end_nil in Hq1. assert (pb_format p1 = fmt) as Hf1 by (destruct Hev as (_ & -> & _); done).
  destruct l as [|y l]; [by apply wp_ret; split|].
  apply wp_bind, wp_gets. rewrite Hf1. set (rest := y :: l) in *. set (sep := c_comma :: when_format fmt [c_space]).
  assert ((if fmt then [c_comma; c_space; 0] else [c_comma; 0]) = sep ++ [0]) as -> by by destruct fmt.
  assert ((if fmt then 2 else 1) = zlen sep) as -> by by destruct fmt.
  assert (match render fmt d <$> rest with [] => [] | _ => c_comma :: when_format fmt [c_space] end = sep) as Esep by done.
  rewrite Esep in Hs. assert (0 <= zlen sep) by apply zlen_nonneg.
  pose proof (zlen_app sep [0] : _ = zlen sep + 1).
  eapply (emit_then at_end _ sep [0] _ p1 (pre ++ render fmt d x) _ d d); [apply at_end_extends|done|by apply (at_end_deep p1)|lia|lia|lia|rewrite zlen_app; lia|].
  intros p2 Hq2 Hev2. apply at_end_nil in Hq2. apply IH; [done|by destruct Hev2 as (_ & -> & _)|]. rewrite !zlen_app. lia.
Qed.

Lemma print_array_spec d l p pre : Forall (child_ok (d + 1)) l -> at_end p pre [] d -> pb_format p = fmt ->
  zlen pre + zlen (c_lbrack :: elements_text fmt (render fmt (d + 1) <$> l) ++ [c_rbrack]) + 2 < 2 ^ 63 ->
  wp (print_array alloc has_reallocate pv l)
    (prints at_value p pre (c_lbrack :: elements_text fmt (render fmt (d + 1) <$> l) ++ [c_rbrack]) d (forallb printable l)) p.
Proof.
  intros Hl [b Hp] Hf Hs. rewrite app_nil_r in Hp. pose proof (pr_deep _ _ _ _ Hp) as Hdp. pose proof (zlen_nonneg pre). set (es := elements_text _ _) in *.
  rewrite zlen_cons, zlen_app in Hs. change (zlen [c_rbrack]) with 1 in Hs. pose proof (zlen_nonneg es). unfold print_array.
  change (c_lbrack :: es ++ [c_rbrack]) with ([c_lbrack] ++ (es ++ [c_rbrack])). change [c_lbrack] with ([c_lbrack] ++ []) at 1.
  eapply (put_spec at_value 1 [c_lbrack] [] _ p pre (es ++ [c_rbrack]) d d (d + 1) _ b Hp); try (change (zlen [c_lbrack]) with 1; solve_len).
  intros p1 b1 Hev Hb Hc Ho Hd Hr _ Hend. unfold add_offset, add_depth. apply wp_bind, wp_modify, wp_bind, wp_modify.
  set (p2 := mk_printbuffer _ _ _ _ _ _ _). assert (at_end p2 pre [c_lbrack] (d + 1)) as Hq2.
  { apply Hend; cbn [p2 pb_buffer pb_length pb_offset pb_depth]; [done..| |].
    - rewrite Ho. change (zlen [c_lbrack]) with 1. apply wrapu_small. lia.
    - rewrite Hd. apply wrapu_small. lia. }
  assert (evolves p p2) as Hev2 by (etransitivity; [exact Hev|done]).
  eapply wp_mono; [|intros r p3 Hq3; eapply (prints_after at_value p p2); [apply at_value_extends|done|done|exact Hq3]].
  apply at_end_nil in Hq2. rewrite <- (andb_true_r (forallb printable l)).
  eapply (seq_spec at_value _ _ p2 (pre ++ [c_lbrack]) es [c_rbrack] (d + 1) d).
  - apply at_value_extends.
  - solve_len.
  - apply array_elements_spec; [done|done|by destruct Hev2 as (_ & -> & _)|fold es; solve_len].
  - intros p3 Hq3 _. apply at_end_nil in Hq3. apply (close_spec 2 [c_rbrack]); [done|solve_len|done|]. change (zlen [c_rbrack]) with 1. solve_len.
Qed.

Definition member_text (d : Z) (k : option (list Z)) (t : list Z) (last : bool) : list Z :=
  when_format fmt (tabs d) ++ string_text k ++ (c_colon :: when_format fmt [c_tab]) ++ t ++
  ((if last then @nil Z else [c_comma]) ++ when_format fmt [c_nl]).

Lemma tabs_length d : 0 <= d -> zlen (tabs d) = d.
Proof. intros H. unfold zlen, tabs. rewrite repeat_length. lia. Qed.

(** From the name on. *)
Lemma object_member_name_spec d x (last : bool) p pre : child_ok d x -> at_end p pre [] d -> pb_format p = fmt ->
  let t := string_text (jstring x) ++ (c_colon :: when_format fmt [c_tab]) ++ render fmt d x ++
           ((if last then @nil Z else [c_comma]) ++ when_format fmt [c_nl]) in
  zlen pre + zlen t + 3 < 2 ^ 63 ->
  wp (ok <- print_string_ptr alloc has_reallocate (jstring x) ;;
      if negb ok then ret false
      else
        update_offset ;;;
        let length := if fmt then 2 else 1 in
        ensured alloc has_reallocate length
          (store 0 (if fmt then [c_colon; c_tab] else [c_colon]) ;;;
           add_offset length ;;;
           ok <- pv x ;;
           if negb ok then ret false
           else
             update_offset ;;;
             let length := (if fmt then 1 else 0) + (if last then 0 else 1) in
             ensured alloc has_reallocate (length + 1)
               (store 0 ((if last then @nil Z else [c_comma]) ++ (if fmt then [c_nl] else []) ++ [0]) ;;;
                add_offset length ;;;
                ret true)))
    (prints at_end p pre t d (printable x)) p.
Proof.
  intros [Hw Hx] Hp Hf t Hs. pose proof (at_end_deep _ _ _ Hp) as Hd. pose proof (zlen_nonneg pre). unfold t in *. clear t.
  set (k := string_text (jstring x)) in *. set (colon := c_colon :: when_format fmt [c_tab]) in *. set (v := render fmt d x) in *.
  set (e := (if last then @nil Z else [c_comma]) ++ when_format fmt [c_nl]) in *. rewrite !zlen_app in Hs.
  pose proof (zlen_nonneg k). pose proof (zlen_nonneg colon). pose proof (zlen_nonneg v). pose proof (zlen_nonneg e).
  assert (nonzero k) as Hk by (apply string_text_nonzero; by inversion_clear Hw).
  change (printable x) with (true && printable x). pose proof Hp as [b Hb]. rewrite app_nil_r in Hb.
  apply (value_then at_end _ _ p pre k _ d d); [apply at_end_extends|done|done|lia|by apply (print_string_ptr_spec _ _ _ _ b); [|fold k; lia]|].
  intros p1 Hq1 Hev1. apply at_end_nil in Hq1. cbv zeta.
  assert ((if fmt then [c_colon; c_tab] else [c_colon]) = colon ++ []) as -> by by destruct fmt.
  assert ((if fmt then 2 else 1) = zlen colon) as -> by by destruct fmt.
  apply (emit_then at_end _ colon [] _ p1 (pre ++ k) (v ++ e) d d); [apply at_end_extends|done|solve_len|lia|solve_len|solve_len|solve_len|].
  intros p2 Hq2 Hev2. apply at_end_nil in Hq2. rewrite <- (andb_true_r (printable x)).
  apply (value_then at_end _ _ p2 ((pre ++ k) ++ colon) v e d d); [apply at_end_extends|solve_len|by apply render_nonzero|solve_len| |].
  { apply Hx; [done| |fold v; solve_len]. destruct Hev2 as (_ & -> & _), Hev1 as (_ & -> & _). done. }
  intros p3 Hq3 Hev3. apply at_end_nil in Hq3.
  assert ((if last then @nil Z else [c_comma]) ++ (if fmt then [c_nl] else []) ++ [0] = e ++ [0]) as -> by (unfold e; by destruct fmt, last).
  assert ((if fmt then 1 else 0) + (if last then 0 else 1) = zlen e) as -> by (unfold e; by destruct fmt, last).
  rewrite <- (app_nil_r e) at 3. apply (emit_then at_end _ e [0] _ p3 _ [] d d); [apply at_end_extends|done|solve_len|lia|solve_len|solve_len|solve_len|].
  intros p4 Hq4 _. apply at_end_nil in Hq4. apply wp_ret. by split.
Qed.

Lemma object_member_spec d x (last : bool) p pre : child_ok d x -> at_end p pre [] d -> pb_format p = fmt ->
  zlen pre + zlen (member_text d (jstring x) (render fmt d x) last) + 3 < 2 ^ 63 ->
  wp (object_member alloc has_reallocate pv x last)
    (prints at_end p pre (member_text d (jstring x) (render fmt d x) last) d (printable x)) p.
Proof.
  intros Hx Hp Hf Hs. pose proof (at_end_deep _ _ _ Hp) as Hd. unfold object_member. apply wp_bind, wp_get. cbv zeta.
  assert (pb_depth p = d) as -> by (destruct Hp as [b []]; done). rewrite Hf.
  pose proof (object_member_name_spec d x last) as Hname. cbv zeta in Hname. unfold member_text in *.
  set (member := bind (print_string_ptr _ _ _) _) in *. set (t := string_text _ ++ _) in *.
  assert (forall p pre, at_end p pre [] d -> pb_format p = fmt -> zlen pre + zlen t + 3 < 2 ^ 63 ->
    wp member (prints at_end p pre t d (printable x)) p) as Hm by (intros; by apply Hname).
  clearbody member t. clear Hname Hx. pose proof (tabs_length d ltac:(lia)) as El. pose proof (zlen_nonneg t). pose proof (zlen_nonneg pre).
  destruct fmt; cbn [when_format app] in *; [|by apply Hm].
  assert (forall K : PM bool, ensured alloc has_reallocate d (store 0 (tabs d) ;;; add_offset d ;;; K) =
    ensured alloc has_reallocate d (store 0 (tabs d ++ []) ;;; add_offset (zlen (tabs d)) ;;; K)) as -> by (intros; by rewrite app_nil_r, El).
  rewrite zlen_app in Hs. apply (emit_then at_end d (tabs d) [] _ p pre t d d); rewrite ?app_nil_r, ?El; try lia; [apply at_end_extends|done|].
  intros p1 Hq1 Hev1. apply at_end_nil in Hq1. apply Hm; [done|by destruct Hev1 as (_ & -> & _)|]. rewrite zlen_app. lia.
Qed.

Lemma members_text_cons d k t ts : members_text fmt d ((k, t) :: ts) =
  member_text d k t (match ts with [] => true | _ => false end) ++ members_text fmt d ts.
Proof. cbn [members_text]. unfold member_text. rewrite <- !app_assoc. by destruct ts. Qed.

Definition member_texts (d : Z) (l : list cJSON) : list (option (list Z) * list Z) := (fun x => (jstring x, render fmt d x)) <$> l.

Lemma object_members_spec d l : Forall (child_ok d) l -> forall p pre, at_end p pre [] d -> pb_format p = fmt ->
  zlen pre + zlen (members_text fmt d (member_texts d l)) + 3 < 2 ^ 63 ->
  wp (object_members alloc has_reallocate pv l)
    (prints at_end p pre (members_text fmt d (member_texts d l)) d (forallb printable l)) p.
Proof.
  induction 1 as [|x l Hx _ IH]; intros p pre Hp Hf Hs; [by apply wp_ret; split|].
  change (member_texts d (x :: l)) with ((jstring x, render fmt d x) :: member_texts d l) in *. rewrite members_text_cons in Hs |- *.
  assert (match member_texts d l with [] => true | _ => false end = match l with [] => true | _ => false end) as E by by destruct l.
  rewrite E in *. rewrite zlen_app in Hs. pose proof (at_end_deep _ _ _ Hp).
  pose proof (zlen_nonneg (members_text fmt d (member_texts d l))). cbn [object_members forallb].
  apply (seq_spec at_end _ _ p pre _ _ d d); [apply at_end_extends|done|apply object_member_spec; [done..|lia]|].
  intros p1 Hq1 Hev1. apply at_end_nil in Hq1. apply IH; [done|by destruct Hev1 as (_ & -> & _)|]. rewrite zlen_app. lia.
Qed.

Lemma print_object_spec d l p pre : Forall (child_ok (d + 1)) l -> at_end p pre [] d -> pb_format p = fmt ->
  let t := (c_lbrace :: when_format fmt [c_nl]) ++ members_text fmt (d + 1) (member_texts (d + 1) l) ++ when_format fmt (tabs d) ++ [c_rbrace] in
  zlen pre + zlen t + 2 < 2 ^ 63 ->
  wp (print_object alloc has_reallocate pv l) (prints at_value p pre t d (forallb printable l)) p.
Proof.
  intros Hl [b Hp] Hf t Hs. rewrite app_nil_r in Hp. pose proof (pr_deep _ _ _ _ Hp) as Hdp. pose proof (zlen_nonneg pre). unfold t in *. clear t.
  set (es := members_text _ _ _) in *. set (o := c_lbrace :: when_format fmt [c_nl]) in *. set (c := when_format fmt (tabs d) ++ [c_rbrace]) in *.
  rewrite !zlen_app in Hs. assert (1 <= zlen o) by (unfold o; rewrite zlen_cons; pose proof (zlen_nonneg (when_format fmt [c_nl])); lia).
  pose proof (zlen_nonneg es). assert (1 <= zlen c) by (unfold c; rewrite zlen_app; pose proof (zlen_nonneg (when_format fmt (tabs d))); change (zlen [c_rbrace]) with 1; lia).
  unfold print_object. apply wp_bind, wp_gets. rewrite Hf. cbv zeta.
  assert ((if fmt then [c_lbrace; c_nl] else [c_lbrace]) = o ++ []) as -> by by destruct fmt.
  assert ((if fmt then 2 else 1) = zlen o) as -> by by destruct fmt.
  eapply (put_spec at_value (zlen o + 1) o [] _ p pre (es ++ c) d d (d + 1) _ b Hp); try solve_len.
  intros p1 b1 Hev Hb Hc Ho Hd Hr _ Hend. unfold add_offset, add_depth. apply wp_bind, wp_modify, wp_bind, wp_modify.
  set (p2 := mk_printbuffer _ _ _ _ _ _ _). assert (at_end p2 pre o (d + 1)) as Hq2.
  { apply Hend; cbn [p2 pb_buffer pb_length pb_offset pb_depth]; [done..| |].
    - rewrite Ho. apply wrapu_small. lia.
    - rewrite Hd. apply wrapu_small. lia. }
  assert (evolves p p2) as Hev2 by (etransitivity; [exact Hev|done]).
  eapply wp_mono; [|intros r p3 Hq3; eapply (prints_after at_value p p2); [apply at_value_extends|done|done|exact Hq3]].
  apply at_end_nil in Hq2. rewrite <- (andb_true_r (forallb printable l)).
  eapply (seq_spec at_value _ _ p2 (pre ++ o) es c (d + 1) d).
  - apply at_value_extends.
  - solve_len.
  - apply object_members_spec; [done|done|by destruct Hev2 as (_ & -> & _)|fold es; solve_len].
  - intros p3 Hq3 _. apply at_end_nil in Hq3. apply wp_bind, wp_gets.
    assert (pb_depth p3 = d + 1) as -> by (destruct Hq3 as [b3 []]; done).
    assert ((if fmt then tabs (d + 1 - 1) else []) ++ [c_rbrace; 0] = c ++ [0]) as ->.
    { unfold c. replace (d + 1 - 1) with d by lia. destruct fmt; cbn [when_format]; by rewrite <- app_assoc. }
    apply close_spec; [done|solve_len| |solve_len]. unfold c. rewrite zlen_app. change (zlen [c_rbrace]) with 1.
    destruct fmt; cbn [when_format]; [rewrite tabs_length by lia; lia|done].
Qed.
End Children.

(** ** Values *)

Lemma print_value_spec fmt j : forall d p pre, wf_item j -> at_end p pre [] d -> pb_format p = fmt ->
  zlen pre + zlen (render fmt d j) + 2 < 2 ^ 63 ->
  wp (print_value alloc has_reallocate j) (prints at_value p pre (render fmt d j) d (printable j)) p.
Proof.
  induction j as [t c v i x s IH] using cJSON_children_ind. intros d p pre Hw Hp Hf Hs. pose proof Hp as [b Hb]. rewrite app_nil_r in Hb.
  inversion_clear Hw as [? ? ? ? ? ? Hn Hv Hk Hc].
  assert (forall d, Forall (child_ok fmt (print_value alloc has_reallocate) d) c) as Hch.
  { intros d'. rewrite Forall_forall in IH, Hc |- *. intros y Hy. split; [by apply Hc|]. intros p' pre' H1 H2 H3. by apply IH; auto. }
  cbn [print_value render printable] in *. cbv zeta in *. set (t' := Z.land t 255) in *.
  destruct (Z.eqb_spec t' cJSON_NULL); [by apply (print_text_spec _ _ _ _ b)|].
  destruct (Z.eqb_spec t' cJSON_False); [by apply (print_text_spec _ _ _ _ b)|].
  destruct (Z.eqb_spec t' cJSON_True); [by apply (print_text_spec _ _ _ _ b)|].
  destruct (Z.eqb_spec t' cJSON_Number); [by apply (print_number_spec (Node t c v i x s) _ _ _ b)|].
  destruct (Z.eqb_spec t' cJSON_Raw) as [E|E].
  { rewrite E. destruct v as [raw|]; [by apply (print_text_spec _ _ _ _ b)|]. apply wp_ret. split; [done|by left]. }
  destruct (Z.eqb_spec t' cJSON_String); [by apply (print_string_ptr_spec _ _ _ _ b)|].
  destruct (Z.eqb_spec t' cJSON_Array); [by apply print_array_spec|].
  destruct (Z.eqb_spec t' cJSON_Object); [by apply print_object_spec|].
  apply wp_ret. split; [done|by left].
Qed.
End PrintSpec.

(** ** The entry points *)

Lemma printing_start n fmt noalloc k : 0 <= n ->
  at_end (mk_printbuffer (Some (mk_cbuf n [])) n 0 0 noalloc fmt k) [] [] 0.
Proof.
  intros Hn. exists (mk_cbuf n []). split; cbn [pb_buffer pb_length pb_offset pb_depth cap data]; try done; [by exists []|].
  change (zlen ([] ++ [])) with 0. destruct (Z.eq_dec n 0); [right; done|left; lia].
Qed.

Lemma cstr_render fmt d j rest : wf_item j -> cstr (render fmt d j ++ 0 :: rest) = render fmt d j.
Proof. intros Hw. by apply cstr_nonzero_end, (render_nonzero fmt j d). Qed.

Lemma print_preallocated_result alloc has_reallocate j fmt length (Hw : wf_item j) (Hl : 0 <= length)
    (Hs : zlen (render fmt 0 j) + 2 < 2 ^ 63) :
  exists bytes, cJSON_PrintPreallocated alloc has_reallocate j length length fmt =
      Ret (printable j && (zlen (render fmt 0 j) + 2 <=? length), bytes) /\
    (printable j && (zlen (render fmt 0 j) + 2 <=? length) = true -> exists rest, bytes = render fmt 0 j ++ 0 :: rest).
Proof.
  unfold cJSON_PrintPreallocated. rewrite (proj2 (Z.ltb_ge _ _)) by done.
  set (p := mk_printbuffer _ _ _ _ _ _ _). assert (at_end p [] [] 0) as Hp by by apply printing_start.
  pose proof (print_value_spec alloc has_reallocate fmt j 0 p [] Hw Hp eq_refl Hs) as H.
  apply wp_returns in H as (r & p' & -> & (_ & _ & _ & Hev) & H). destruct (Hev eq_refl) as [El En]. cbn [p pb_length pb_nalloc] in El, En.
  eexists. destruct r.
  - destruct H as [-> (b & rest & k & Eb & Ec & Ed & _ & _ & _ & _ & Hr)]. change (zlen (@nil Z)) with 0 in Hr.
    rewrite (proj2 (Z.leb_le _ length)) by lia. split; [done|]. intros _. rewrite Eb. by exists rest.
  - assert (printable j && (zlen (render fmt 0 j) + 2 <=? length) = false) as ->; [|by split].
    destruct H as [->|[[_ H]|(k & Hk & _)]]; [done| |cbn [p pb_nalloc] in Hk; lia].
    change (zlen (@nil Z)) with 0 in H. cbn [p pb_length] in H. rewrite (proj2 (Z.leb_gt _ length)) by lia. apply andb_false_r.
Qed.

(** Printing into a fixed buffer never stores behind it and succeeds
    exactly on the items that have a text and fit: the text, its NUL and the one
    byte the printer keeps in reserve. The buffer then holds the text. *)
Theorem print_preallocated_exact alloc has_reallocate j fmt length (Hw : wf_item j) (Hl : 0 <= length)
    (Hs : zlen (render fmt 0 j) + 2 < 2 ^ 63) :
  exists bytes, cJSON_PrintPreallocated alloc has_reallocate j length length fmt =
      Ret (printable j && (zlen (render fmt 0 j) + 2 <=? length), bytes) /\
    (printable j && (zlen (render fmt 0 j) + 2 <=? length) = true -> exists rest, bytes = render fmt 0 j ++ 0 :: rest).
Proof.
  by apply print_preallocated_result.
Qed.

Lemma print_text_result alloc has_reallocate j fmt n : wf_item j -> zlen (render fmt 0 j) + 2 < 2 ^ 63 ->
  exists r n', print alloc has_reallocate j fmt n = Ret (r, n') /\
    match r with
    | Some t => printable j = true /\ t = render fmt 0 j
    | None => printable j = false \/ exists k, (n <= k < n')%nat /\ alloc k = false
    end.
Proof.
  intros Hw Hs. unfold print. destruct (alloc n) eqn:Ea; cbn [negb].
  2:{ eexists _, _. split; [done|]. right. exists n. split; [lia|done]. }
  set (p := mk_printbuffer _ _ _ _ _ _ _). assert (at_end p [] [] 0) as Hp by (by apply printing_start).
  pose proof (print_value_spec alloc has_reallocate fmt j 0 p [] Hw Hp eq_refl Hs) as H.
  apply wp_returns in H as (r & p' & E & (_ & _ & Hev & _) & H). unfold bind at 1. rewrite E. cbn [p pb_nalloc] in Hev.
  destruct r; cbn [negb].
  - destruct H as [Hok (b & rest & k & Hv)].
    assert (at_value p' [] (render fmt 0 j) 0) as Hv' by (by exists b, rest, k).
    pose proof (update_offset_spec p' [] _ 0 (render_nonzero fmt j 0 Hw) ltac:(change (zlen (@nil Z)) with 0; lia) Hv') as Hu.
    assert (pb_buffer p' = Some b /\ data b = render fmt 0 j ++ 0 :: rest) as [Eb Ed] by (destruct Hv as (? & ? & ? & _); done).
    apply wp_returns in Hu as ([] & p2 & E2 & _ & _ & Eb2 & En2). unfold bind at 1. rewrite E2. rewrite Eb in Eb2.
    exists (if alloc (pb_nalloc p2) then cstr <$> (data <$> pb_buffer p2) else None), (S (pb_nalloc p2)). split; [done|].
    rewrite Eb2. destruct (alloc (pb_nalloc p2)) eqn:Ea2; cbn.
    + split; [done|]. rewrite Ed. by apply cstr_render.
    + right. exists (pb_nalloc p2). split; [lia|done].
  - eexists _, _. split; [done|]. destruct H as [->|[[? _]|(k & Hk & ?)]]; [by left|done|]. right. exists k. cbn [p pb_nalloc] in Hk. split; [lia|done].
Qed.

(** Printing into a growing buffer returns exactly the text of the item;
    it returns nothing only for an item without a text or after a failed
    allocation. *)
Theorem print_returns_text alloc has_reallocate j fmt n (Hw : wf_item j) (Hs : zlen (render fmt 0 j) + 2 < 2 ^ 63) :
  exists r n', print alloc has_reallocate j fmt n = Ret (r, n') /\
    match r with
    | Some t => printable j = true /\ t = render fmt 0 j
    | None => printable j = false \/ exists k, (n <= k < n')%nat /\ alloc k = false
    end.
Proof.
  by apply print_text_result.
Qed.

(** [{"a":1}] *)
Definition printed_sample : cJSON :=
  Node cJSON_Object [set_jstring (Some [97]) (number_node (D_of_Z 1))] None 0 D_zero None.

Lemma printed_sample_wf : wf_item printed_sample.
Proof.
  constructor; [split; [lia|by right]|constructor|constructor|]. apply Forall_singleton.
  constructor; [split; [by vm_compute|by right]|constructor|by repeat constructor|constructor].
Qed.

Lemma print_preallocated_exact_witness :
  let t := render false 0 printed_sample in
  zlen t = 7 /\ exists bytes, cJSON_PrintPreallocated (fun _ => false) true printed_sample 9 9 false =
      Ret (printable printed_sample && (zlen t + 2 <=? 9), bytes) /\
    (printable printed_sample && (zlen t + 2 <=? 9) = true -> exists rest, bytes = t ++ 0 :: rest).
Proof.
  cbv zeta. split; [vm_compute; reflexivity|].
  apply (print_preallocated_exact (fun _ => false) true printed_sample false 9 printed_sample_wf); [lia|].
  assert (zlen (render false 0 printed_sample) = 7) as -> by (vm_compute; reflexivity). lia.
Defined.

Lemma print_returns_text_witness :
  exists r n', print (fun _ => true) true printed_sample false 0 = Ret (r, n') /\
    match r with
    | Some t => printable printed_sample = true /\ t = render false 0 printed_sample
    | None => printable printed_sample = false \/ exists k, (0 <= k < n')%nat /\ true = false
    end.
Proof.
  apply (print_returns_text (fun _ => true) true printed_sample false 0 printed_sample_wf).
  assert (zlen (render false 0 printed_sample) = 7) as -> by (vm_compute; reflexivity). lia.
Defined.
