(* ===== verification/BoundedOutput.v ===== *)
(** * The bounded result reader

    [iperf_bounded_output.c]: a streaming scanner that reads one declared frame
    of JSON from a callback, validates it, copies the measurement fields into a
    bounded buffer for cJSON and captures the optional server output in a
    second one.  The parser state, the output and the metrics are one record;
    the loops carry fuel, and a store outside a buffer is undefined behaviour. *)

From Stdlib Require Import String.
From S2P Require Import Prelude Bytes CJson.
Local Open Scope c_scope.

(** ** Constants and data *)

Definition IPERF_OUTPUT_MAX_BYTES : Z := 1048576.
Definition IPERF_RESULT_CORE_MAX_BYTES : Z := 1048576.
Definition IPERF_RESULT_FRAME_MAX_BYTES : Z := 67108864.
Definition IPERF_RESULT_MAX_DEPTH : Z := 64.
Definition IPERF_RESULT_CORE_MAX_VALUES : Z := 16384.
Definition IPERF_RESULT_MAX_VALUES : Z := 1048576.
Definition IPERF_RESULT_MAX_NUMBER_LENGTH : Z := 63.

(** The values of [errno.h] on the platforms the package supports. *)
Definition ENOMEM : Z := 12.
Definition EINVAL : Z := 22.
Definition EFBIG : Z := 27.
Definition EPROTO : Z := 100.

Inductive iperf_output_state :=
| IPERF_OUTPUT_MISSING | IPERF_OUTPUT_COMPLETE | IPERF_OUTPUT_TRUNCATED
| IPERF_OUTPUT_DISCARDED | IPERF_OUTPUT_INVALID.

Inductive iperf_output_format := IPERF_OUTPUT_NONE | IPERF_OUTPUT_TEXT | IPERF_OUTPUT_JSON.

Inductive iperf_output_reason :=
| IPERF_OUTPUT_REASON_NONE | IPERF_OUTPUT_BYTE_LIMIT | IPERF_OUTPUT_NODE_LIMIT
| IPERF_OUTPUT_DEPTH_LIMIT | IPERF_OUTPUT_INVALID_DATA | IPERF_OUTPUT_ALLOCATION_FAILURE
| IPERF_OUTPUT_READ_FAILURE.

#[global] Instance output_state_eq_dec : EqDecision iperf_output_state.
Proof. solve_decision. Defined.
#[global] Instance output_format_eq_dec : EqDecision iperf_output_format.
Proof. solve_decision. Defined.
#[global] Instance output_reason_eq_dec : EqDecision iperf_output_reason.
Proof. solve_decision. Defined.

Record iperf_server_output := mk_output {
  out_value : option cbuf;
  out_length : Z;
  observed_bytes : Z;
  out_state : iperf_output_state;
  out_format : iperf_output_format;
  out_reason : iperf_output_reason;
  observed_bytes_complete : Z }.

Record iperf_result_read_metrics := mk_metrics {
  bytes_read : Z;
  core_json_bytes : Z;
  core_values : Z;
  maximum_depth : Z;
  peak_buffer_capacity : Z }.

Inductive capture_mode := DISCARD | CORE | OUTPUT_JSON.
#[global] Instance capture_eq_dec : EqDecision capture_mode.
Proof. solve_decision. Defined.

(** What one call of the read callback does: its new context, its return value,
    [errno] after it, and the bytes it stored. *)
Record read_result (Ctx : Type) := mk_read {
  r_ctx : Ctx;
  r_n : Z;
  r_errno : Z;
  r_bytes : list Z }.
Arguments mk_read {Ctx}.
Arguments r_ctx {Ctx}.
Arguments r_n {Ctx}.
Arguments r_errno {Ctx}.
Arguments r_bytes {Ctx}.

Module Scanner.
Section Parser.
Context {Ctx : Type}.

(** [struct parser].  [allocs] are the outcomes of the coming calls of
    [malloc] (success once the list is exhausted); [errno] is the C global. *)
Record parser := mk_parser {
  context : Ctx;
  remaining : Z;
  input : list Z;
  cursor : Z;
  available : Z;
  core : cbuf;
  core_length : Z;
  limit : Z;
  capture : capture_mode;
  output : iperf_server_output;
  metrics : iperf_result_read_metrics;
  values : Z;
  output_values : Z;
  error : Z;
  errno : Z;
  allocs : list bool }.

Definition set_capture (c : capture_mode) (p : parser) : parser :=
  mk_parser (context p) (remaining p) (input p) (cursor p) (available p) (core p) (core_length p)
    (limit p) c (output p) (metrics p) (values p) (output_values p) (error p) (errno p) (allocs p).
Definition set_output (o : iperf_server_output) (p : parser) : parser :=
  mk_parser (context p) (remaining p) (input p) (cursor p) (available p) (core p) (core_length p)
    (limit p) (capture p) o (metrics p) (values p) (output_values p) (error p) (errno p) (allocs p).
Definition set_metrics (m : iperf_result_read_metrics) (p : parser) : parser :=
  mk_parser (context p) (remaining p) (input p) (cursor p) (available p) (core p) (core_length p)
    (limit p) (capture p) (output p) m (values p) (output_values p) (error p) (errno p) (allocs p).
Definition set_values (v : Z) (p : parser) : parser :=
  mk_parser (context p) (remaining p) (input p) (cursor p) (available p) (core p) (core_length p)
    (limit p) (capture p) (output p) (metrics p) v (output_values p) (error p) (errno p) (allocs p).
Definition set_output_values (v : Z) (p : parser) : parser :=
  mk_parser (context p) (remaining p) (input p) (cursor p) (available p) (core p) (core_length p)
    (limit p) (capture p) (output p) (metrics p) (values p) v (error p) (errno p) (allocs p).
Definition set_parser_error (e : Z) (p : parser) : parser :=
  mk_parser (context p) (remaining p) (input p) (cursor p) (available p) (core p) (core_length p)
    (limit p) (capture p) (output p) (metrics p) (values p) (output_values p) e (errno p) (allocs p).
Definition set_cursor (c : Z) (p : parser) : parser :=
  mk_parser (context p) (remaining p) (input p) c (available p) (core p) (core_length p)
    (limit p) (capture p) (output p) (metrics p) (values p) (output_values p) (error p) (errno p) (allocs p).
Definition set_core (b : cbuf) (l : Z) (p : parser) : parser :=
  mk_parser (context p) (remaining p) (input p) (cursor p) (available p) b l
    (limit p) (capture p) (output p) (metrics p) (values p) (output_values p) (error p) (errno p) (allocs p).
Definition set_allocs (a : list bool) (p : parser) : parser :=
  mk_parser (context p) (remaining p) (input p) (cursor p) (available p) (core p) (core_length p)
    (limit p) (capture p) (output p) (metrics p) (values p) (output_values p) (error p) (errno p) a.
(** The effect of the callback on its context and [errno]. *)
Definition set_context (c : Ctx) (e : Z) (p : parser) : parser :=
  mk_parser c (remaining p) (input p) (cursor p) (available p) (core p) (core_length p)
    (limit p) (capture p) (output p) (metrics p) (values p) (output_values p) (error p) e (allocs p).
(** A new chunk in the input buffer. *)
Definition set_chunk (r : Z) (bs : list Z) (n : Z) (p : parser) : parser :=
  mk_parser (context p) r bs 0 n (core p) (core_length p)
    (limit p) (capture p) (output p) (metrics p) (values p) (output_values p) (error p) (errno p) (allocs p).

Definition PM := CM parser.

(** [struct decoded]; [key] is the caller's array of 128 bytes, or NULL. *)
Record decoded := mk_decoded {
  key : option cbuf;
  dlength : Z;
  output_text : bool;
  is_key : bool }.

Definition empty_output : iperf_server_output :=
  mk_output None 0 0 IPERF_OUTPUT_MISSING IPERF_OUTPUT_NONE IPERF_OUTPUT_REASON_NONE 0.

(** [free] and [memset]. *)
Definition iperf_clear_server_output (o : iperf_server_output) : iperf_server_output := empty_output.

(** ** Reading and emitting bytes *)

Context (read : Ctx -> Z -> read_result Ctx).

Definition fail (e : Z) : PM bool :=
  modify (fun p => if error p =? 0 then set_parser_error e p else p) ;;;
  ret false.

(** [p->input[p->cursor]] *)
Definition at_cursor : PM Z := fun p =>
  match input p !! Z.to_nat (cursor p) with
  | Some c => Ret (c, p)
  | None => UB
  end.

Definition peek : PM Z :=
  p <- get ;;
  if negb (error p =? 0) then ret (-1)
  else if cursor p =? available p then
    if remaining p =? 0 then ret (-1)
    else
      let count := if remaining p <? 4096 then remaining p else 4096 in
      let r := read (context p) count in
      modify (set_context (r_ctx r) (r_errno r)) ;;;
      if (r_n r <=? 0) || (count <? r_n r) then
        fail (if (r_n r <? 0) && negb (r_errno r =? 0) then r_errno r else EPROTO) ;;;
        ret (-1)
      else
        modify (fun p => set_metrics
          (mk_metrics (u64 (bytes_read (metrics p) + r_n r)) (core_json_bytes (metrics p))
             (core_values (metrics p)) (maximum_depth (metrics p)) (peak_buffer_capacity (metrics p)))
          (set_chunk (u32 (remaining p - r_n r)) (r_bytes r) (r_n r) p)) ;;;
        at_cursor
  else at_cursor.

Definition discard_output (st : iperf_output_state) : PM unit :=
  modify (fun p => set_output
    (mk_output None 0 (observed_bytes (output p)) st (out_format (output p)) (out_reason (output p))
       (observed_bytes_complete (output p))) p).

Definition set_reason (r : iperf_output_reason) : PM unit :=
  modify (fun p => set_output
    (mk_output (out_value (output p)) (out_length (output p)) (observed_bytes (output p)) (out_state (output p))
       (out_format (output p)) r (observed_bytes_complete (output p))) p).

(** Stores [bs] at [output->value + output->length] and advances the length. *)
Definition append_output (bs : list Z) : PM unit := fun p =>
  let o := output p in
  match out_value o with
  | None => UB
  | Some b =>
      match buf_write b (out_length o) bs with
      | None => UB
      | Some b => Ret (tt, set_output (mk_output (Some b) (out_length o + zlen bs) (observed_bytes o)
                         (out_state o) (out_format o) (out_reason o) (observed_bytes_complete o)) p)
      end
  end.

Definition append_core (byte : Z) : PM unit := fun p =>
  match buf_poke (core p) (core_length p) byte with
  | None => UB
  | Some b => Ret (tt, set_core b (core_length p + 1) p)
  end.

Definition add_observed (n : Z) : PM unit :=
  modify (fun p => set_output
    (mk_output (out_value (output p)) (out_length (output p)) (u64 (observed_bytes (output p) + n))
       (out_state (output p)) (out_format (output p)) (out_reason (output p)) (observed_bytes_complete (output p))) p).

Definition emit (byte : Z) : PM bool :=
  p <- get ;;
  match capture p with
  | CORE =>
      if core_length p =? IPERF_RESULT_CORE_MAX_BYTES then fail EFBIG
      else append_core byte ;;; ret true
  | OUTPUT_JSON =>
      add_observed 1 ;;;
      (if decide (out_state (output p) = IPERF_OUTPUT_COMPLETE) then
         if out_length (output p) =? limit p then
           discard_output IPERF_OUTPUT_DISCARDED ;;;
           set_reason IPERF_OUTPUT_BYTE_LIMIT
         else append_output [byte]
       else ret tt) ;;;
      ret true
  | DISCARD => ret true
  end.

Definition advance_cursor : PM unit := modify (fun p => set_cursor (cursor p + 1) p).

Definition take : PM Z :=
  c <- peek ;;
  if c <? 0 then fail EPROTO ;;; ret (-1)
  else
    advance_cursor ;;;
    ok <- emit c ;;
    ret (if ok then c else -1).

Definition expect (expected : Z) : PM bool :=
  c <- take ;;
  if c =? expected then ret true else fail EPROTO.

Fixpoint whitespace (fuel : nat) : PM unit :=
  c <- peek ;;
  if (c =? c_space) || (c =? c_tab) || (c =? c_cr) || (c =? c_nl) then
    match fuel with
    | O => out_of_fuel
    | S fuel => advance_cursor ;;; whitespace fuel
    end
  else ret tt.

(** ** Strings *)

(** Returns the success flag and the updated [*destination]. *)
Definition decoded_scalar (destination : option decoded) (scalar : Z) : PM (bool * option decoded) :=
  match destination with
  | None => ret (true, None)
  | Some d =>
      if is_key d && (scalar =? 0) then ok <- fail EPROTO ;; ret (ok, Some d)
      else
        let bytes := utf8_encode scalar in
        match key d with
        | Some k =>
            if (scalar =? 0) || (127 <? dlength d + zlen bytes) then
              ok <- fail (if scalar =? 0 then EPROTO else EFBIG) ;; ret (ok, Some d)
            else
              match buf_write k (dlength d) bytes with
              | None => undefined
              | Some k => ret (true, Some (mk_decoded (Some k) (dlength d + zlen bytes)
                                             (output_text d) (is_key d)))
              end
        | None =>
            if output_text d then
              add_observed (zlen bytes) ;;;
              (if scalar =? 0 then
                 discard_output IPERF_OUTPUT_INVALID ;;;
                 set_reason IPERF_OUTPUT_INVALID_DATA
               else
                 p <- get ;;
                 if decide (out_state (output p) = IPERF_OUTPUT_COMPLETE) then
                   if limit p <? out_length (output p) + zlen bytes then
                     modify (fun p => set_output
                       (mk_output (out_value (output p)) (out_length (output p)) (observed_bytes (output p))
                          IPERF_OUTPUT_TRUNCATED (out_format (output p)) IPERF_OUTPUT_BYTE_LIMIT
                          (observed_bytes_complete (output p))) p)
                   else append_output bytes
                 else ret tt) ;;;
              ret (true, Some d)
            else ret (true, Some d)
        end
  end.

(** The digit a character stands for. *)
Definition hex_digit (c : Z) : option Z :=
  if (c_0 <=? c) && (c <=? c_9) then Some (c - c_0)
  else if (c_a <=? c) && (c <=? c_f) then Some (c - c_a + 10)
  else if (c_A <=? c) && (c <=? c_F) then Some (c - c_A + 10)
  else None.

(** The loop of [hex4] with [i] iterations to go. *)
Fixpoint hex4_loop (i : nat) (result : Z) : PM (bool * Z) :=
  match i with
  | O => ret (true, result)
  | S i =>
      c <- take ;;
      match hex_digit c with
      | Some digit => hex4_loop i (Z.lor (u32 (Z.shiftl result 4)) digit)
      | None => ok <- fail EPROTO ;; ret (ok, result)
      end
  end.

Definition hex4 : PM (bool * Z) := hex4_loop 4 0.

(** The continuation bytes of a UTF-8 sequence. *)
Fixpoint utf8_following (following : nat) (scalar : Z) : PM (bool * Z) :=
  match following with
  | O => ret (true, scalar)
  | S following =>
      c <- take ;;
      if (c <? 128) || (191 <? c) then ok <- fail EPROTO ;; ret (ok, scalar)
      else utf8_following following (Z.lor (u32 (Z.shiftl scalar 6)) (Z.land c 63))
  end.

(** The scalar after a backslash; the flag is false after a failure. *)
Definition escaped_scalar : PM (bool * Z) :=
  c <- take ;;
  if (c =? c_quote) || (c =? c_bslash) || (c =? c_slash) then ret (true, c)
  else if c =? c_b then ret (true, c_bs)
  else if c =? c_f then ret (true, c_ff)
  else if c =? c_n then ret (true, c_nl)
  else if c =? c_r then ret (true, c_cr)
  else if c =? c_t then ret (true, c_tab)
  else if c =? c_u then
    r <- hex4 ;;
    let '(ok, scalar) := r in
    if negb ok then ret (false, scalar)
    else if (55296 <=? scalar) && (scalar <=? 56319) then
      ok <- expect c_bslash ;;
      if negb ok then ret (false, scalar) else
      ok <- expect c_u ;;
      if negb ok then ret (false, scalar) else
      r <- hex4 ;;
      let '(ok, low) := r in
      if negb ok then ret (false, scalar)
      else if (low <? 56320) || (57343 <? low) then ok <- fail EPROTO ;; ret (ok, scalar)
      else ret (true, u32 (65536 + Z.shiftl (scalar - 55296) 10 + low - 56320))
    else if (56320 <=? scalar) && (scalar <=? 57343) then ok <- fail EPROTO ;; ret (ok, scalar)
    else ret (true, scalar)
  else ok <- fail EPROTO ;; ret (ok, 0).

(** The scalar of a multi-byte UTF-8 sequence that starts with [c]. *)
Definition utf8_scalar (c : Z) : PM (bool * Z) :=
  let go (following : nat) (first minimum : Z) :=
    r <- utf8_following following first ;;
    let '(ok, scalar) := r in
    if negb ok then ret (false, scalar)
    else if (scalar <? minimum) || (1114111 <? scalar) ||
            ((55296 <=? scalar) && (scalar <=? 57343))
    then ok <- fail EPROTO ;; ret (ok, scalar)
    else ret (true, scalar) in
  if (194 <=? c) && (c <=? 223) then go 1%nat (Z.land c 31) 128
  else if (224 <=? c) && (c <=? 239) then go 2%nat (Z.land c 15) 2048
  else if (240 <=? c) && (c <=? 244) then go 3%nat (Z.land c 7) 65536
  else ok <- fail EPROTO ;; ret (ok, 0).

Fixpoint string_loop (fuel : nat) (destination : option decoded) : PM (bool * option decoded) :=
  p <- get ;;
  if negb (error p =? 0) then ret (false, destination)
  else
    match fuel with
    | O => out_of_fuel
    | S fuel =>
        c <- take ;;
        if c =? c_quote then ret (true, destination)
        else if c <? 32 then ok <- fail EPROTO ;; ret (ok, destination)
        else
          r <- (if c =? c_bslash then escaped_scalar
                else if c <? 128 then ret (true, c)
                else utf8_scalar c) ;;
          let '(ok, scalar) := r in
          if negb ok then ret (false, destination)
          else
            r <- decoded_scalar destination scalar ;;
            let '(ok, destination) := r in
            if negb ok then ret (false, destination) else string_loop fuel destination
    end.

Definition string (fuel : nat) (destination : option decoded) : PM (bool * option decoded) :=
  ok <- expect c_quote ;;
  if negb ok then ret (false, destination) else string_loop fuel destination.

(** ** Numbers *)

Definition digit (c : Z) : bool := (c_0 <=? c) && (c <=? c_9).

(** [do { take(p); if (++count > maximum) return fail(p, EPROTO); } while (digit(peek(p)));]
    The flag is false after the failure. *)
Fixpoint digits (fuel : nat) (count : Z) : PM (bool * Z) :=
  take ;;;
  let count := count + 1 in
  if IPERF_RESULT_MAX_NUMBER_LENGTH <? count then ok <- fail EPROTO ;; ret (ok, count)
  else
    c <- peek ;;
    if digit c then
      match fuel with O => out_of_fuel | S fuel => digits fuel count end
    else ret (true, count).

(** The four parts of [number]: the sign, the integer, the fraction and the
    exponent.  Each returns the count of characters after it. *)
Definition number_sign : PM Z :=
  c <- peek ;;
  if c =? c_minus then take ;;; ret 1 else ret 0.

Definition number_int (fuel : nat) (count : Z) : PM (bool * Z) :=
  c <- peek ;;
  if c =? c_0 then take ;;; ret (true, count + 1)
  else if (c <? c_1) || (c_9 <? c) then ok <- fail EPROTO ;; ret (ok, count)
  else digits fuel count.

Definition number_frac (fuel : nat) (count : Z) : PM (bool * Z) :=
  c <- peek ;;
  if c =? c_dot then
    take ;;;
    c <- peek ;;
    if negb (digit c) then ok <- fail EPROTO ;; ret (ok, count + 1)
    else digits fuel (count + 1)
  else ret (true, count).

Definition number_exp_sign (count : Z) : PM Z :=
  c <- peek ;;
  if (c =? c_plus) || (c =? c_minus) then take ;;; ret (count + 1) else ret count.

Definition number_exp (fuel : nat) (count : Z) : PM (bool * Z) :=
  c <- peek ;;
  if (c =? c_e) || (c =? c_E) then
    take ;;;
    count <- number_exp_sign (count + 1) ;;
    c <- peek ;;
    if negb (digit c) then ok <- fail EPROTO ;; ret (ok, count)
    else digits fuel count
  else ret (true, count).

Definition number (fuel : nat) : PM bool :=
  count <- number_sign ;;
  r <- number_int fuel count ;;
  let '(ok, count) := r in
  if negb ok then ret false else
  r <- number_frac fuel count ;;
  let '(ok, count) := r in
  if negb ok then ret false else
  r <- number_exp fuel count ;;
  let '(ok, count) := r in
  if negb ok then ret false else
  gets (fun p => error p =? 0).

(** ** Values *)

Fixpoint literal (l : list Z) : PM bool :=
  match l with
  | [] => ret true
  | c :: l => ok <- expect c ;; if negb ok then ret false else literal l
  end.

Definition key_destination : option decoded := Some (mk_decoded None 0 false true).

(** The loop over the elements of an array or the members of an object; [rec]
    reads one value. *)
Fixpoint elements (rec : PM bool) (fuel : nat) (object : bool) (close : Z) : PM bool :=
  ok <- (if object then
           r <- string fuel key_destination ;;
           if negb r.1 then ret false
           else whitespace fuel ;;; expect c_colon
         else ret true) ;;
  if negb ok then ret false else
  ok <- rec ;;
  if negb ok then ret false else
  whitespace fuel ;;;
  c <- peek ;;
  if c =? close then expect close else
  ok <- expect c_comma ;;
  if negb ok then ret false else
  whitespace fuel ;;;
  match fuel with O => out_of_fuel | S fuel => elements rec fuel object close end.

(** The limits checked when a value starts. *)
Definition enter_value (depth : Z) : PM bool :=
  p <- get ;;
  if IPERF_RESULT_MAX_DEPTH <? depth then fail EFBIG else
  modify (set_values (values p + 1)) ;;;
  if IPERF_RESULT_MAX_VALUES <? values p + 1 then fail EFBIG else
  modify (fun p => if maximum_depth (metrics p) <? depth
    then set_metrics (mk_metrics (bytes_read (metrics p)) (core_json_bytes (metrics p))
           (core_values (metrics p)) depth (peak_buffer_capacity (metrics p))) p
    else p) ;;;
  ok <- (if decide (capture p = CORE) then
           modify (fun p => set_metrics (mk_metrics (bytes_read (metrics p)) (core_json_bytes (metrics p))
             (core_values (metrics p) + 1) (maximum_depth (metrics p)) (peak_buffer_capacity (metrics p))) p) ;;;
           n <- gets (fun p => core_values (metrics p)) ;;
           if IPERF_RESULT_CORE_MAX_VALUES <? n then fail EFBIG else ret true
         else ret true) ;;
  if negb ok then ret false else
  (if decide (capture p = OUTPUT_JSON) then
     modify (fun p => set_output_values (output_values p + 1) p) ;;;
     p <- get ;;
     if (IPERF_RESULT_CORE_MAX_VALUES <? output_values p) &&
        bool_decide (out_state (output p) = IPERF_OUTPUT_COMPLETE) then
       discard_output IPERF_OUTPUT_DISCARDED ;;;
       set_reason IPERF_OUTPUT_NODE_LIMIT
     else ret tt
   else ret tt) ;;;
  ret true.

Definition lit_true : list Z := Eval vm_compute in bytes_of "true"%string.
Definition lit_false : list Z := Eval vm_compute in bytes_of "false"%string.
Definition lit_null : list Z := Eval vm_compute in bytes_of "null"%string.

(** [levels] bounds the nesting, [fuel] every loop. *)
Fixpoint value (levels fuel : nat) (depth : Z) (destination : option decoded) : PM bool :=
  ok <- enter_value depth ;;
  if negb ok then ret false else
  match levels with
  | O => out_of_fuel
  | S levels =>
      whitespace fuel ;;;
      c <- peek ;;
      if c =? c_quote then r <- string fuel destination ;; ret r.1
      else if (c =? c_minus) || digit c then number fuel
      else if (c =? c_t) || (c =? c_f) || (c =? c_n) then
        literal (if c =? c_t then lit_true else if c =? c_f then lit_false else lit_null)
      else if negb (c =? c_lbrack) && negb (c =? c_lbrace) then fail EPROTO
      else
        let object := c =? c_lbrace in
        let close := if object then c_rbrace else c_rbrack in
        take ;;;
        whitespace fuel ;;;
        c <- peek ;;
        if c =? close then expect close
        else elements (value levels fuel (depth + 1) None) fuel object close
  end.

(** ** The root object *)

Fixpoint emit_all (l : list Z) : PM bool :=
  match l with
  | [] => ret true
  | c :: l => ok <- emit c ;; if negb ok then ret false else emit_all l
  end.

Definition hex_char (d : Z) : Z := if d <? 10 then c_0 + d else c_a + (d - 10).

(** What [core_key] emits for one byte of a key. *)
Definition escape_key_byte (s : Z) : list Z :=
  if (s =? c_quote) || (s =? c_bslash) then [c_bslash; s]
  else if s <? 32 then
    [c_bslash; c_u; c_0; c_0; hex_char (Z.shiftr s 4); hex_char (Z.land s 15)]
  else [s].

Fixpoint core_key_loop (s : list Z) : PM bool :=
  match s with
  | [] => ret true
  | c :: s => ok <- emit_all (escape_key_byte c) ;; if negb ok then ret false else core_key_loop s
  end.

Definition core_key (k : list Z) : PM bool :=
  ok <- emit c_quote ;;
  if negb ok then ret false else
  ok <- core_key_loop (cstr k) ;;
  if negb ok then ret false else
  ok <- emit c_quote ;;
  if negb ok then ret false else emit c_colon.

(** The outcome of the next [malloc]. *)
Definition malloc : PM bool :=
  a <- gets allocs ;;
  match a with
  | [] => ret true
  | b :: a => modify (set_allocs a) ;;; ret b
  end.

Definition begin_output (f : iperf_output_format) : PM bool :=
  modify (fun p => set_output (mk_output None 0 0 IPERF_OUTPUT_COMPLETE f
    IPERF_OUTPUT_REASON_NONE 1) p) ;;;
  ok <- malloc ;;
  if negb ok then fail ENOMEM else
  modify (fun p => set_output (mk_output (Some (mk_cbuf (limit p + 1) [])) (out_length (output p))
    (observed_bytes (output p)) (out_state (output p)) (out_format (output p)) (out_reason (output p))
    (observed_bytes_complete (output p))) p) ;;;
  modify (fun p => set_metrics (mk_metrics (bytes_read (metrics p)) (core_json_bytes (metrics p))
    (core_values (metrics p)) (maximum_depth (metrics p))
    (IPERF_RESULT_CORE_MAX_BYTES + limit p + 2)) p) ;;;
  modify (set_output_values 0) ;;;
  ret true.

Definition unique_keys : list (list Z) := Eval vm_compute in map bytes_of
  ["cpu_util_total"; "cpu_util_user"; "cpu_util_system"; "sender_has_retransmits"; "streams";
   "congestion_used"; "server_output_text"; "server_output_json"; "iperf_swift_server_output"]%string.

Definition key_json : list Z := Eval vm_compute in bytes_of "server_output_json"%string.
Definition key_text : list Z := Eval vm_compute in bytes_of "server_output_text"%string.

(** The bits of [seen] after the key [k], or nothing for a duplicate; [i] is
    the index of the first element of [unique]. *)
Fixpoint mark_seen (unique : list (list Z)) (i : Z) (k : list Z) (seen : Z) : option Z :=
  match unique with
  | [] => Some seen
  | u :: unique =>
      if strcaseeq k u then
        if Z.testbit seen i then None
        else mark_seen unique (i + 1) k (Z.lor seen (Z.shiftl 1 i))
      else mark_seen unique (i + 1) k seen
  end.

Definition max_levels : nat := 65.

(** One optional output: [json] selects the member, the other is text. *)
Definition output_member (fuel : nat) (json : bool) : PM bool :=
  ok <- begin_output (if json then IPERF_OUTPUT_JSON else IPERF_OUTPUT_TEXT) ;;
  if negb ok then ret false else
  c <- peek ;;
  let valid_type := c =? (if json then c_lbrace else c_quote) in
  (if valid_type then ret tt
   else
     discard_output IPERF_OUTPUT_INVALID ;;;
     set_reason IPERF_OUTPUT_INVALID_DATA ;;;
     modify (fun p => set_output (mk_output (out_value (output p)) (out_length (output p))
       (observed_bytes (output p)) (out_state (output p)) (out_format (output p)) (out_reason (output p)) 0) p)) ;;;
  modify (set_capture (if json && valid_type then OUTPUT_JSON else DISCARD)) ;;;
  value max_levels fuel 1
    (if negb json && valid_type then Some (mk_decoded None 0 true false) else None).

(** One measurement field, copied to the core document. *)
Definition core_member (fuel : nat) (k : list Z) (core_fields : Z) : PM bool :=
  modify (set_capture CORE) ;;;
  ok <- (if core_fields =? 0 then ret true else emit c_comma) ;;
  if negb ok then ret false else
  ok <- core_key k ;;
  if negb ok then ret false else value max_levels fuel 1 None.

(** The members of the root object up to its closing brace. *)
Fixpoint root_loop (fuel : nat) (seen core_fields : Z) (seen_json : bool) : PM bool :=
  r <- string fuel (Some (mk_decoded (Some (mk_cbuf 128 [])) 0 false true)) ;;
  let '(ok, d) := r in
  if negb ok then ret false else
  let k := match d with
           | Some (mk_decoded (Some b) _ _ _) => cstr (data b)
           | _ => []
           end in
  match mark_seen unique_keys 0 k seen with
  | None => fail EPROTO
  | Some seen =>
      whitespace fuel ;;;
      ok <- expect c_colon ;;
      if negb ok then ret false else
      whitespace fuel ;;;
      let json := strcaseeq k key_json in
      let text := strcaseeq k key_text in
      ok <- (if json || (text && negb seen_json) then output_member fuel json
             else if text then value max_levels fuel 1 None
             else core_member fuel k core_fields) ;;
      if negb ok then ret false else
      let core_fields := if json || text then core_fields else core_fields + 1 in
      let seen_json := seen_json || json in
      modify (set_capture DISCARD) ;;;
      whitespace fuel ;;;
      c <- peek ;;
      if c =? c_rbrace then ret true else
      ok <- expect c_comma ;;
      if negb ok then ret false else
      whitespace fuel ;;;
      match fuel with
      | O => out_of_fuel
      | S fuel => root_loop fuel seen core_fields seen_json
      end
  end.

Definition root (fuel : nat) : PM bool :=
  modify (set_capture DISCARD) ;;;
  whitespace fuel ;;;
  ok <- expect c_lbrace ;;
  if negb ok then ret false else
  modify (set_capture CORE) ;;;
  ok <- emit c_lbrace ;;
  if negb ok then ret false else
  modify (set_capture DISCARD) ;;;
  whitespace fuel ;;;
  c <- peek ;;
  ok <- (if c =? c_rbrace then ret true else root_loop fuel 0 0 false) ;;
  if negb ok then ret false else
  ok <- expect c_rbrace ;;
  if negb ok then ret false else
  modify (set_capture CORE) ;;;
  ok <- emit c_rbrace ;;
  if negb ok then ret false else
  modify (set_capture DISCARD) ;;;
  whitespace fuel ;;;
  c <- peek ;;
  e <- gets error ;;
  if (c <? 0) && (e =? 0) then ret true else fail EPROTO.

(** ** The entry point *)

(** The result, and what the caller's output, metrics, [errno] and read context
    hold afterwards. *)
Record read_outcome := mk_outcome {
  ro_result : option cJSON;
  ro_output : option iperf_server_output;
  ro_metrics : option iperf_result_read_metrics;
  ro_errno : Z;
  ro_context : Ctx }.

Definition with_state (st : iperf_output_state) (o : iperf_server_output) : iperf_server_output :=
  mk_output (out_value o) (out_length o) (observed_bytes o) st (out_format o) (out_reason o)
    (observed_bytes_complete o).
Definition with_reason (r : iperf_output_reason) (o : iperf_server_output) : iperf_server_output :=
  mk_output (out_value o) (out_length o) (observed_bytes o) (out_state o) (out_format o) r
    (observed_bytes_complete o).

(** The end of the function: clears the output unless there is a result. *)
Definition finish (result : option cJSON) (p : parser) : read_outcome :=
  match result with
  | Some _ => mk_outcome result (Some (output p)) (Some (metrics p)) 0 (context p)
  | None =>
      let o := with_reason
        (if error p =? ENOMEM then IPERF_OUTPUT_ALLOCATION_FAILURE
         else if error p =? EPROTO then IPERF_OUTPUT_INVALID_DATA
         else IPERF_OUTPUT_READ_FAILURE)
        (with_state IPERF_OUTPUT_INVALID (iperf_clear_server_output (output p))) in
      mk_outcome None (Some o) (Some (metrics p))
        (if error p =? 0 then EPROTO else error p) (context p)
  end.

(** [if (output->value) output->value[output->length] = 0;] *)
Definition terminate_output (o : iperf_server_output) : option iperf_server_output :=
  match out_value o with
  | None => Some o
  | Some b =>
      match buf_poke b (out_length o) 0 with
      | None => None
      | Some b => Some (mk_output (Some b) (out_length o) (observed_bytes o) (out_state o)
                    (out_format o) (out_reason o) (observed_bytes_complete o))
      end
  end.

(** After a successful scan: the terminators, the metrics and cJSON.
    [parse_alloc] answers the allocations of cJSON. *)
Definition parse_core (parse_alloc : nat -> bool) (p : parser) : outcome read_outcome :=
  match buf_poke (core p) (core_length p) 0 with
  | None => UB
  | Some core =>
      let m := mk_metrics (bytes_read (metrics p)) (core_length p) (core_values (metrics p))
                 (maximum_depth (metrics p)) (peak_buffer_capacity (metrics p)) in
      match terminate_output (output p) with
      | None => UB
      | Some o =>
        match Parse.run_parse (data core) (core_length p + 1) parse_alloc true with
        | Ret (Some j, _) => Ret (finish (Some j) (set_output o (set_metrics m p)))
        | Ret (None, oom) =>
            let p := set_output o (set_metrics m p) in
            Ret (finish None (if error p =? 0 then set_parser_error (if oom then ENOMEM else EPROTO) p else p))
        | UB => UB
        | OutOfFuel => OutOfFuel
        end
      end
  end.

End Parser.

(** [read_function], [out] and [met] may be NULL; [core_alloc] is the outcome of
    the allocation of the core buffer, [allocs] of the later ones. *)
Definition iperf_read_bounded_results {Ctx} (frame_length output_limit : Z)
    (read_function : option (Ctx -> Z -> read_result Ctx)) (ctx : Ctx)
    (out : option iperf_server_output) (met : option iperf_result_read_metrics)
    (err : Z) (core_alloc : bool) (allocs : list bool) (parse_alloc : nat -> bool) :
    outcome read_outcome :=
  match read_function, out, met with
  | Some read, Some o, Some m =>
      if (output_limit =? 0) || (IPERF_OUTPUT_MAX_BYTES <? output_limit) then
        Ret (mk_outcome None (Some (with_state IPERF_OUTPUT_INVALID o)) met EINVAL ctx)
      else if (frame_length =? 0) || (IPERF_RESULT_FRAME_MAX_BYTES <? frame_length) then
        Ret (mk_outcome None
          (Some (with_reason IPERF_OUTPUT_BYTE_LIMIT (with_state IPERF_OUTPUT_INVALID o))) met EFBIG ctx)
      else if negb core_alloc then
        Ret (mk_outcome None
          (Some (with_reason IPERF_OUTPUT_ALLOCATION_FAILURE (with_state IPERF_OUTPUT_INVALID o)))
          met ENOMEM ctx)
      else
        let m := mk_metrics (bytes_read m) (core_json_bytes m) (core_values m) (maximum_depth m)
                   (IPERF_RESULT_CORE_MAX_BYTES + 1) in
        let p := mk_parser ctx frame_length [] 0 0 (mk_cbuf (IPERF_RESULT_CORE_MAX_BYTES + 1) []) 0
                   output_limit DISCARD o m 0 0 0 err allocs in
        match root read (S (Z.to_nat frame_length)) p with
        | Ret (true, p) => parse_core parse_alloc p
        | Ret (false, p) => Ret (finish None p)
        | UB => UB
        | OutOfFuel => OutOfFuel
        end
  | _, _, _ =>
      Ret (mk_outcome None
        (match out with Some o => Some (with_state IPERF_OUTPUT_INVALID o) | None => None end)
        met EINVAL ctx)
  end.

End Scanner.
