(* ===== verification/ScannerSpec.v ===== *)
(** * The scanner meets its specification

    Total-correctness specifications of the functions of [iperf_bounded_output.c]
    for every reader that delivers the bytes of some stream in order (in chunks
    of its choice, failing whenever it likes): no function leaves a buffer or
    loops forever, and each success means that the consumed bytes are in the
    grammar and that their compact form was emitted. *)

From S2P Require Import Prelude Bytes JsonGrammar BoundedOutput.
Import Scanner.
Local Open Scope c_scope.
#[local] Opaque IPERF_OUTPUT_MAX_BYTES IPERF_RESULT_CORE_MAX_BYTES
  IPERF_RESULT_CORE_MAX_VALUES IPERF_RESULT_MAX_VALUES.

(** ** Readers *)

(** What the scanner relies on: a successful call returns the next bytes of the
    stream, between one and [count] of them. *)
Class StreamReader {Ctx : Type} (read : Ctx -> Z -> read_result Ctx) (stream_of : Ctx -> list Z) : Prop := {
  reader_bytes ctx count :
    1 <= count ->
    let r := read ctx count in
    1 <= r_n r <= count ->
    zlen (r_bytes r) = r_n r /\ Forall byte_ok (r_bytes r) /\
    stream_of ctx = r_bytes r ++ stream_of (r_ctx r) }.

(** A frame: its declared length, what the reader has to offer at its start, and
    an invariant of the reader's context. *)
Record framing (Ctx : Type) := mk_framing {
  fr_length :> Z;
  fr_origin : list Z;
  fr_inv : Ctx -> Prop }.
Arguments mk_framing {Ctx}.
Arguments fr_length {Ctx}.
Arguments fr_origin {Ctx}.
Arguments fr_inv {Ctx}.

(** A declared length that the caller accepts, and an invariant of every call. *)
Class FrameOk {Ctx : Type} (read : Ctx -> Z -> read_result Ctx) (frame : framing Ctx) : Prop := {
  frame_ok : 0 <= frame <= IPERF_RESULT_FRAME_MAX_BYTES;
  frame_inv ctx count : fr_inv frame ctx -> fr_inv frame (r_ctx (read ctx count)) }.

Section Spec.
Context {Ctx : Type} (read : Ctx -> Z -> read_result Ctx) (stream_of : Ctx -> list Z).
Context `{!StreamReader read stream_of}.
Context (frame : framing Ctx) `{!FrameOk read frame}.

Abbreviation parser := (@parser Ctx).
Abbreviation PM := (@PM Ctx).

(** ** The invariant *)

(** Without a buffer the output is empty, and not complete. *)
Definition output_inv (lim : Z) (o : iperf_server_output) (err : Z) : Prop :=
  match out_value o with
  | Some b =>
      cap b = lim + 1 /\ zlen (data b) = out_length o /\ out_length o <= lim /\
      (out_state o = IPERF_OUTPUT_COMPLETE \/ out_state o = IPERF_OUTPUT_TRUNCATED)
  | None => out_length o = 0 /\ (out_state o = IPERF_OUTPUT_COMPLETE -> err <> 0)
  end.

Record inv (p : parser) : Prop := {
  i_cursor : 0 <= cursor p <= available p;
  i_input : zlen (input p) = available p;
  i_bytes : Forall byte_ok (input p);
  i_remaining : 0 <= remaining p;
  i_read : bytes_read (metrics p) + remaining p = frame;
  i_nonneg : 0 <= bytes_read (metrics p);
  i_core : zlen (data (core p)) = core_length p;
  i_core_max : core_length p <= IPERF_RESULT_CORE_MAX_BYTES;
  i_core_cap : cap (core p) = IPERF_RESULT_CORE_MAX_BYTES + 1;
  i_core_values : error p = 0 -> 0 <= core_values (metrics p) <= IPERF_RESULT_CORE_MAX_VALUES;
  i_depth : maximum_depth (metrics p) <= IPERF_RESULT_MAX_DEPTH;
  i_limit : 1 <= limit p <= IPERF_OUTPUT_MAX_BYTES;
  i_peak : peak_buffer_capacity (metrics p) <= IPERF_RESULT_CORE_MAX_BYTES + limit p + 2;
  i_json : core_json_bytes (metrics p) <= IPERF_RESULT_CORE_MAX_BYTES;
  i_output : output_inv (limit p) (output p) (error p);
  i_context : fr_inv frame (context p);
  i_unread : error p = 0 -> exists c, zlen c = bytes_read (metrics p) /\ fr_origin frame = c ++ stream_of (context p) }.

(** The bytes still to come, and an upper bound on their number. *)
Definition pending (p : parser) : list Z := drop (Z.to_nat (cursor p)) (input p).
Definition stream (p : parser) : list Z :=
  pending p ++ firstn (Z.to_nat (remaining p)) (stream_of (context p)).
Definition read_budget (p : parser) : Z := remaining p + available p - cursor p.

(** ** What has been emitted *)

Definition odata (o : iperf_server_output) : list Z :=
  match out_value o with Some b => data b | None => [] end.

(** The output after the text scalar [v]. *)
Definition deliver1 (lim : Z) (o : iperf_server_output) (v : Z) : iperf_server_output :=
  let bytes := utf8_encode v in
  let obs := u64 (observed_bytes o + zlen bytes) in
  if v =? 0 then
    mk_output None 0 obs IPERF_OUTPUT_INVALID (out_format o) IPERF_OUTPUT_INVALID_DATA
      (observed_bytes_complete o)
  else if decide (out_state o = IPERF_OUTPUT_COMPLETE) then
    if lim <? out_length o + zlen bytes then
      mk_output (out_value o) (out_length o) obs IPERF_OUTPUT_TRUNCATED (out_format o)
        IPERF_OUTPUT_BYTE_LIMIT (observed_bytes_complete o)
    else
      mk_output ((fun b => mk_cbuf (cap b) (data b ++ bytes)) <$> out_value o)
        (out_length o + zlen bytes) obs (out_state o) (out_format o) (out_reason o)
        (observed_bytes_complete o)
  else
    mk_output (out_value o) (out_length o) obs (out_state o) (out_format o) (out_reason o)
      (observed_bytes_complete o).

Definition deliver (lim : Z) (vs : list Z) (o : iperf_server_output) : iperf_server_output :=
  foldl (deliver1 lim) o vs.

(** The JSON output from [o] to [o'] while the bytes [e] were emitted: complete
    output grows, until a limit discards it for good. *)
Definition json_grows (lim : Z) (e : list Z) (o o' : iperf_server_output) : Prop :=
  out_format o' = out_format o /\
  (out_state o <> IPERF_OUTPUT_COMPLETE -> out_state o' = out_state o /\ out_reason o' = out_reason o) /\
  (out_state o = IPERF_OUTPUT_COMPLETE ->
     out_state o' = IPERF_OUTPUT_COMPLETE /\ odata o' = odata o ++ e \/
     out_state o' = IPERF_OUTPUT_DISCARDED /\
     (out_reason o' = IPERF_OUTPUT_BYTE_LIMIT /\ lim < zlen (odata o) + zlen e \/
      out_reason o' = IPERF_OUTPUT_NODE_LIMIT)).

(** From [p] to [p'] the bytes [e] were emitted, to the core document or to the
    JSON output as long as that is complete, and the scalars [t] delivered to
    the text output. *)
Definition emitted (p : parser) (e t : list Z) (p' : parser) : Prop :=
  data (core p') = data (core p) ++ (if decide (capture p = CORE) then e else []) /\
  (capture p <> OUTPUT_JSON -> output p' = deliver (limit p) t (output p)) /\
  (capture p = OUTPUT_JSON -> json_grows (limit p) e (output p) (output p')).

(** What every function guarantees, success or not. *)
Record step (p p' : parser) : Prop := {
  s_inv : inv p';
  s_left : read_budget p' <= read_budget p;
  s_capture : capture p' = capture p;
  s_limit : limit p' = limit p;
  s_error : error p <> 0 -> error p' = error p }.

(** A successful run that consumed [c], emitted [e] and delivered [t]. *)
Record done (p : parser) (c e t : list Z) (p' : parser) : Prop := {
  d_stream : stream p = c ++ stream p';
  d_emitted : emitted p e t p';
  d_error : error p' = 0;
  d_left : read_budget p' = read_budget p - zlen c }.

Lemma step_refl p : inv p -> step p p.
Proof. by split. Qed.

Lemma step_trans p1 p2 p3 : step p1 p2 -> step p2 p3 -> step p1 p3.
Proof.
  intros [] []. split; [done|lia|congruence|congruence|]. intros.
  rewrite s_error1; [auto|]. rewrite s_error0; auto.
Qed.

(** An error persists. *)
Lemma step_error p p' : step p p' -> error p <> 0 -> error p' <> 0.
Proof. intros S H. rewrite (s_error _ _ S H). done. Qed.

Lemma json_grows_refl lim o : json_grows lim [] o o.
Proof. repeat split; auto. intros. left. by rewrite app_nil_r. Qed.

Lemma json_grows_trans lim e1 e2 o1 o2 o3 :
  json_grows lim e1 o1 o2 -> json_grows lim e2 o2 o3 -> json_grows lim (e1 ++ e2) o1 o3.
Proof.
  intros (F1 & N1 & C1) (F2 & N2 & C2). split; [congruence|]. split.
  - intros H. destruct (N1 H) as [E1 R1]. rewrite <- E1, <- R1. apply N2. congruence.
  - intros H. rewrite zlen_app. pose proof (zlen_nonneg e2). destruct (C1 H) as [[E1 D1]|[E1 R1]].
    + destruct (C2 E1) as [[E2 D2]|[E2 R2]].
      * left. by rewrite D2, D1, app_assoc.
      * right. split; [done|]. rewrite D1, zlen_app in R2. destruct R2; [left|by right]. split; [tauto|lia].
    + destruct (N2 ltac:(congruence)) as [E2 R2]. right. split; [congruence|]. rewrite R2.
      destruct R1; [left|by right]. split; [tauto|lia].
Qed.

Lemma emitted_same p p' : core p' = core p -> output p' = output p -> emitted p [] [] p'.
Proof.
  intros Hc Ho. unfold emitted. rewrite Hc, Ho. split; [by case_decide; rewrite app_nil_r|].
  split; [done|]. intros _. apply json_grows_refl.
Qed.

Lemma done_refl p : error p = 0 -> done p [] [] [] p.
Proof. intros. split; [done|by apply emitted_same|done|]. rewrite zlen_nil. lia. Qed.

Lemma done_trans p1 p2 p3 c1 c2 e1 e2 t1 t2 :
  step p1 p2 -> done p1 c1 e1 t1 p2 -> done p2 c2 e2 t2 p3 ->
  done p1 (c1 ++ c2) (e1 ++ e2) (t1 ++ t2) p3.
Proof.
  intros S [A1 (B1 & T1 & C1) D1 E1] [A2 (B2 & T2 & C2) D2 E2].
  pose proof (s_capture _ _ S) as Ec. pose proof (s_limit _ _ S) as El.
  split; [by rewrite A1, A2, app_assoc| |done|rewrite zlen_app; lia]. split_and!.
  - rewrite B2, B1, Ec, <- app_assoc. destruct (decide (capture p1 = CORE)); by rewrite ?app_nil_r.
  - intros Hc. rewrite T2, T1, El by congruence. unfold deliver. by rewrite foldl_app.
  - rewrite Ec, El in C2. intros H. eapply json_grows_trans; [by apply C1|by apply C2].
Qed.

(** The trailing part consumed nothing that counts. *)
Lemma done_trans_l p1 p2 p3 c e t :
  step p1 p2 -> done p1 [] [] [] p2 -> done p2 c e t p3 -> done p1 c e t p3.
Proof. intros S D1 D2. exact (done_trans _ _ _ _ _ _ _ _ _ S D1 D2). Qed.

Lemma done_trans_r p1 p2 p3 c e t :
  step p1 p2 -> done p1 c e t p2 -> done p2 [] [] [] p3 -> done p1 c e t p3.
Proof.
  intros S D1 D2. pose proof (done_trans _ _ _ _ _ _ _ _ _ S D1 D2) as D.
  by rewrite !app_nil_r in D.
Qed.

Lemma pending_left p : inv p -> zlen (pending p) = available p - cursor p.
Proof.
  intros I. pose proof (i_cursor _ I). pose proof (i_input _ I). unfold pending, zlen in *.
  rewrite length_drop. lia.
Qed.

Lemma budget_nonneg p : inv p -> 0 <= read_budget p.
Proof. intros []. unfold read_budget. lia. Qed.

(** ** Bytes *)

Lemma fail_spec e p : inv p -> e <> 0 ->
  wp (fail e) (fun ok p' => step p p' /\ ok = false /\ error p' <> 0) p.
Proof.
  intros I He. unfold fail. wp_step. wp_step. wp_step.
  destruct (Z.eqb_spec (error p) 0) as [H0|H0]; [|by split; [apply step_refl|]].
  split; [|done]. split; [|unfold read_budget; simpl; lia|done..].
  destruct I. split; simpl; try done.
  unfold output_inv in *. destruct (out_value (output p)); [done|]. naive_solver.
Qed.

(** A failed read leaves a context that is not used again. *)
Lemma fail_read_spec e k x p : inv p -> fr_inv frame k -> error p = 0 -> e <> 0 ->
  wp (fail e) (fun ok p' => step p p' /\ ok = false /\ error p' <> 0) (set_context k x p).
Proof.
  intros I Hk H0 He. unfold fail. wp_step. wp_step. wp_step. simpl. rewrite H0. simpl.
  split; [|done]. split; [|unfold read_budget; simpl; lia|done|done|simpl; congruence].
  destruct I. split; simpl; try done.
  unfold output_inv in *. destruct (out_value (output p)); [done|]. naive_solver.
Qed.

(** The next byte is in the buffer. *)
Definition ready (p : parser) (c : Z) : Prop := exists rest, pending p = c :: rest.

Lemma ready_stream p c : ready p c -> exists rest, stream p = c :: rest.
Proof. intros [r E]. unfold stream. rewrite E. by eexists. Qed.

Lemma at_cursor_spec p : inv p -> cursor p < available p ->
  wp at_cursor (fun c p' => p' = p /\ byte_ok c /\ ready p c) p.
Proof.
  intros I H. pose proof (i_cursor _ I). pose proof (i_input _ I). unfold at_cursor, wp.
  destruct (input p !! Z.to_nat (cursor p)) as [c|] eqn:E.
  - split; [done|]. split.
    + eapply Forall_lookup_1; [apply (i_bytes _ I)|done].
    + exists (drop (S (Z.to_nat (cursor p))) (input p)). unfold pending. by apply drop_S.
  - apply lookup_ge_None in E. unfold zlen in *. lia.
Qed.

(** The end of the frame, an error, or a byte that stays. *)
Definition peeked (p : parser) (c : Z) (p' : parser) : Prop :=
  step p p' /\
  (c = -1 /\ error p' <> 0 \/
   c = -1 /\ done p [] [] [] p' /\ read_budget p' = 0 \/
   byte_ok c /\ done p [] [] [] p' /\ ready p' c).

Lemma peek_spec p : inv p -> wp (peek read) (peeked p) p.
Proof.
  intros I. unfold peek, peeked. wp_step. wp_step.
  destruct (Z.eqb_spec (error p) 0) as [H0|H0]; simpl.
  2:{ wp_step. auto using step_refl. }
  destruct (Z.eqb_spec (cursor p) (available p)) as [Hc|Hc].
  2:{ eapply wp_mono; [apply at_cursor_spec; [done|]; pose proof (i_cursor _ I); lia|].
      intros c p' (-> & ? & ?). auto 10 using step_refl, done_refl. }
  destruct (Z.eqb_spec (remaining p) 0) as [Hr|Hr].
  { wp_step. split; [by apply step_refl|]. right; left. split; [done|].
    split; [by apply done_refl|]. unfold read_budget. lia. }
  cbv zeta. set (count := if _ <? 4096 then _ else _).
  assert (1 <= count <= remaining p) as Hcount
    by (subst count; pose proof (i_remaining _ I); case_Z; lia).
  set (r := read (context p) count). wp_step. wp_step.
  destruct ((r_n r <=? 0) || (count <? r_n r)) eqn:Hn.
  { wp_step. eapply wp_mono; [apply fail_read_spec; [done|apply (frame_inv (FrameOk := FrameOk0)), (i_context _ I)|done|]|].
    - case_match eqn:E; [|done]. apply andb_true_iff in E as [_ E].
      by apply negb_true_iff, Z.eqb_neq in E.
    - intros ok p' (S & _ & He). wp_step. auto. }
  apply orb_false_iff in Hn as [Hn1 Hn2]. apply Z.leb_gt in Hn1. apply Z.ltb_ge in Hn2.
  destruct (reader_bytes (context p) count ltac:(lia)) as (Hl & Hb & Hs); [fold r; lia|].
  fold r in Hl, Hb, Hs. wp_step. wp_step.
  set (p1 := set_metrics _ _). pose proof (frame_ok (frame := frame)) as Hframe.
  pose proof (frame_inv (frame := frame) (context p) count (i_context _ I)) as Hctx. fold r in Hctx.
  assert (u32 (remaining p - r_n r) = remaining p - r_n r) as Hu.
  { apply wrapu_small. destruct I. unfold IPERF_RESULT_FRAME_MAX_BYTES in *. lia. }
  assert (u64 (bytes_read (metrics p) + r_n r) = bytes_read (metrics p) + r_n r) as Hv.
  { apply wrapu_small. destruct I. unfold IPERF_RESULT_FRAME_MAX_BYTES in *. lia. }
  assert (inv p1) as I1.
  { destruct (i_unread _ I H0) as (c & Hc1 & Hc2). destruct I. split; simpl; rewrite ?Hu, ?Hv; try done; try lia.
    intros _. exists (c ++ r_bytes r). rewrite zlen_app, Hc1, Hl. split; [done|]. by rewrite Hc2, Hs, app_assoc. }
  assert (step p p1) as S1.
  { split; try done. unfold read_budget. simpl. rewrite Hu. lia. }
  eapply wp_mono; [apply at_cursor_spec; [done|simpl; lia]|].
  intros c p' (-> & ? & ?). split; [done|]. right; right. split; [done|]. split; [|done].
  split; [|by apply emitted_same|done|].
  - unfold stream, pending. subst p1. simpl. rewrite Hu, Hs, drop_0.
    rewrite drop_ge by (pose proof (i_input _ I); unfold zlen in *; lia). simpl.
    rewrite firstn_app. f_equal.
    + apply firstn_all2. unfold zlen in *. lia.
    + f_equal. unfold zlen in *. lia.
  - unfold read_budget. simpl. rewrite Hu. unfold zlen. simpl. lia.
Qed.

(** The outcome of a function that returns a success flag. *)
Definition result (p : parser) (G : list Z -> list Z -> list Z -> Prop) (ok : bool) (p' : parser) : Prop :=
  step p p' /\
  (ok = false /\ error p' <> 0 \/ ok = true /\ exists c e t, done p c e t p' /\ G c e t).

Lemma append_core_spec c p : inv p -> capture p = CORE -> error p = 0 ->
  core_length p <> IPERF_RESULT_CORE_MAX_BYTES ->
  wp (append_core c) (fun _ p' => step p p' /\ done p [] [c] [] p') p.
Proof.
  intros I Hc He Hm. unfold append_core, wp. pose proof (i_core_max _ I).
  rewrite <- (i_core _ I), buf_poke_push by (rewrite (i_core _ I), (i_core_cap _ I); lia).
  assert (core_length p + 1 <= IPERF_RESULT_CORE_MAX_BYTES) by lia. split.
  - split; [|unfold read_budget; simpl; lia|done..]. destruct I. split; simpl; try done; [|lia].
    rewrite zlen_app, zlen_cons, zlen_nil. lia.
  - split; [done| |done|]; [|unfold read_budget; simpl; rewrite zlen_nil; lia].
    split; [simpl; by rewrite decide_True|]. split; [done|]. by rewrite Hc.
Qed.

Lemma step_set_output p o :
  inv p -> output_inv (limit p) o (error p) -> step p (set_output o p).
Proof.
  intros I Ho. split; [|unfold read_budget; simpl; lia|done..]. destruct I. by split.
Qed.

(** A change of the output while it captures JSON. *)
Lemma done_set_output p o e :
  error p = 0 -> capture p = OUTPUT_JSON -> json_grows (limit p) e (output p) o ->
  done p [] e [] (set_output o p).
Proof.
  intros He Hc Hg. split; [done| |done|unfold read_budget; simpl; rewrite zlen_nil; lia].
  split; [simpl; by rewrite decide_False, app_nil_r by congruence|]. split; [congruence|auto].
Qed.

(** The JSON output after a byte. *)
Lemma emit_output_spec c p : inv p -> capture p = OUTPUT_JSON -> error p = 0 ->
  wp (emit c) (fun ok p' => step p p' /\ ok = true /\ done p [] [c] [] p') p.
Proof.
  intros I Hc He. unfold emit. wp_step. wp_step. rewrite Hc.
  pose proof (i_output _ I) as Ho. unfold output_inv in Ho.
  wp_step. unfold add_observed. wp_step. wp_step.
  destruct (decide (out_state (output p) = IPERF_OUTPUT_COMPLETE)) as [Hs|Hs].
  2:{ wp_step. wp_step. split; [by apply step_set_output|]. split; [done|].
      apply done_set_output; [done..|]. split; [done|]. split; [done|congruence]. }
  destruct (out_value (output p)) as [b|] eqn:Eb; [|naive_solver].
  destruct Ho as (Hcap & Hlen & Hmax & _).
  assert (odata (output p) = data b) as Hd by (unfold odata; by rewrite Eb).
  destruct (Z.eqb_spec (out_length (output p)) (limit p)) as [Hl|Hl].
  { unfold discard_output, set_reason. wp_step. wp_step. wp_step. wp_step.
    split; [apply (step_set_output p); [done|by split]|]. split; [done|].
    apply (done_set_output p); [done..|]. split; [done|]. split; [congruence|]. intros _. right.
    split; [done|]. left. split; [done|]. rewrite Hd. autorewrite with zlen. lia. }
  unfold append_output, wp. simpl. rewrite <- Hlen, buf_poke_push by lia.
  split; [apply (step_set_output p); [done|]|split; [done|apply (done_set_output p); [done..|]]].
  - unfold output_inv. simpl. autorewrite with zlen. split; [done|]. split; [lia|]. split; [lia|auto].
  - split; [done|]. split; [congruence|]. intros _. left. split; [done|]. by rewrite Hd.
Qed.

Lemma emit_spec c p : inv p -> error p = 0 ->
  wp (emit c) (result p (fun w e t => w = [] /\ e = [c] /\ t = [])) p.
Proof.
  intros I He. destruct (capture p) eqn:Hc.
  - unfold emit. wp_step. wp_step. rewrite Hc. wp_step. split; [by apply step_refl|]. right.
    split; [done|]. exists [], [c], []. split; [|done]. split; [done| |done|rewrite zlen_nil; lia].
    split; [by rewrite decide_False, app_nil_r by congruence|]. split; [done|]. congruence.
  - unfold emit. wp_step. wp_step. rewrite Hc.
    destruct (Z.eqb_spec (core_length p) IPERF_RESULT_CORE_MAX_BYTES) as [E|E].
    + eapply wp_mono; [by apply fail_spec|]. intros ok p' (? & -> & ?). by split; [|left].
    + wp_step. eapply wp_mono; [by apply append_core_spec|]. intros _ p' [S D]. wp_step.
      split; [done|]. right. eauto 10.
  - eapply wp_mono; [by apply emit_output_spec|]. intros ok p' (? & -> & ?).
    split; [done|]. right. eauto 10.
Qed.

Lemma advance_step p c : inv p -> ready p c -> step p (set_cursor (cursor p + 1) p).
Proof.
  intros I [r E]. pose proof (pending_left _ I) as Hl. rewrite E, zlen_cons in Hl.
  pose proof (zlen_nonneg r). split; [|unfold read_budget; simpl; lia|done..].
  destruct I. split; simpl; try done. lia.
Qed.

Lemma advance_done p c : inv p -> error p = 0 -> ready p c ->
  done p [c] [] [] (set_cursor (cursor p + 1) p).
Proof.
  intros I He [r E]. split; [|by apply emitted_same|done|unfold read_budget; simpl; rewrite zlen_cons, zlen_nil; lia].
  unfold stream. rewrite E. unfold pending in *. simpl. f_equal. f_equal.
  pose proof (i_cursor _ I). rewrite Z2Nat.inj_add, <- drop_drop, E by lia. done.
Qed.

(** A byte that was consumed, or an error. *)
Definition taken (p : parser) (c : Z) (p' : parser) : Prop :=
  step p p' /\ (c = -1 /\ error p' <> 0 \/ byte_ok c /\ done p [c] [c] [] p').

Lemma take_spec p : inv p -> wp (take read) (taken p) p.
Proof.
  intros I. unfold take. wp_step. eapply wp_mono; [by apply peek_spec|].
  intros c p1 [S [[-> He]|[(-> & D & Hl)|(Hb & D & Hr)]]].
  1,2: simpl; wp_step; eapply wp_mono; [by apply fail_spec; [apply (s_inv _ _ S)|]|];
    intros ok p2 (S2 & -> & He2); wp_step; split; [by eapply step_trans|by left].
  rewrite (proj2 (Z.ltb_ge c 0)) by (destruct Hb; lia). wp_step. unfold advance_cursor. wp_step.
  set (p2 := set_cursor _ p1). pose proof (d_error _ _ _ _ _ D) as He.
  pose proof (advance_step _ _ (s_inv _ _ S) Hr) as S2.
  pose proof (advance_done _ _ (s_inv _ _ S) He Hr) as D2. fold p2 in S2, D2. wp_step.
  eapply wp_mono; [apply emit_spec; [apply (s_inv _ _ S2)|done]|].
  intros ok p3 [S3 [[-> He3]|[-> (w & e & t & D3 & -> & -> & ->)]]]; wp_step.
  - split; [|by left]. eauto using step_trans.
  - split; [eauto using step_trans|]. right. split; [done|].
    eapply (done_trans_l p p1); [done|done|]. exact (done_trans p1 p2 p3 [c] [] [] [c] [] [] S2 D2 D3).
Qed.

(** The byte that [peek] showed is the one taken. *)
Lemma done_ready p c c' e t p' : ready p c -> done p [c'] e t p' -> c' = c.
Proof. intros Hr D. destruct (ready_stream _ _ Hr) as [r E]. rewrite (d_stream _ _ _ _ _ D) in E. by simplify_eq/=. Qed.

Lemma take_ready_spec p c : inv p -> ready p c ->
  wp (take read) (fun c' p' => step p p' /\ (c' = -1 /\ error p' <> 0 \/ c' = c /\ done p [c] [c] [] p')) p.
Proof.
  intros I Hr. eapply wp_mono; [by apply take_spec|].
  intros c' p' [S [?|[Hb D]]]; split; auto. right.
  pose proof (done_ready _ _ _ _ _ _ Hr D) as ->. done.
Qed.

(** Sequencing after a success flag. *)
Lemma wp_seq {A} p (m : PM bool) (K : PM A) G Q (f : A) :
  wp m (result p G) p ->
  (forall p', step p p' -> error p' <> 0 -> Q f p') ->
  (forall p' c e t, step p p' -> done p c e t p' -> G c e t -> wp K Q p') ->
  wp (ok <- m ;; if negb ok then ret f else K) Q p.
Proof.
  intros Hm Hf Hk. wp_step. eapply wp_mono; [exact Hm|].
  intros ok p' [S [[-> He]|[-> (c & e & t & D & H)]]]; simpl; [by apply Hf|by eapply Hk].
Qed.

Lemma fail_result e p G : inv p -> e <> 0 -> wp (fail e) (result p G) p.
Proof.
  intros I He. eapply wp_mono; [by apply fail_spec|]. intros ok p' (S & -> & H).
  split; [done|by left].
Qed.

Definition exactly (w : list Z) : list Z -> list Z -> list Z -> Prop :=
  fun c e t => c = w /\ e = w /\ t = [].

Lemma expect_spec x p : inv p -> 0 <= x -> wp (expect read x) (result p (exactly [x])) p.
Proof.
  intros I Hx. unfold expect. wp_step. eapply wp_mono; [by apply take_spec|].
  intros c p' [S [[-> He]|[Hb D]]].
  - rewrite (proj2 (Z.eqb_neq _ _)) by lia.
    eapply wp_mono; [by apply fail_spec; [apply (s_inv _ _ S)|]|]. intros ok p2 (S2 & -> & H2).
    split; [by eapply step_trans|by left].
  - destruct (Z.eqb_spec c x) as [->|].
    + wp_step. split; [done|]. right. split; [done|]. exists [x], [x], []. done.
    + eapply wp_mono; [by apply fail_spec; [apply (s_inv _ _ S)|]|]. intros ok p2 (S2 & -> & H2).
      split; [by eapply step_trans|by left].
Qed.

(** The next byte is not a blank. *)
Definition settled (p : parser) : Prop := forall x rest, stream p = x :: rest -> ~ blank x.

Lemma budget_stream p : inv p -> read_budget p = 0 -> stream p = [].
Proof.
  intros I Hb. pose proof (i_cursor _ I). pose proof (i_remaining _ I). unfold read_budget in Hb.
  unfold stream, pending. replace (remaining p) with 0 by lia. simpl. rewrite app_nil_r.
  apply drop_ge. pose proof (i_input _ I). unfold zlen in *. lia.
Qed.

Lemma whitespace_spec fuel p : inv p -> read_budget p < Z.of_nat fuel ->
  wp (whitespace read fuel)
    (fun _ p' => step p p' /\ (error p' <> 0 \/ exists w, blanks w /\ done p w [] [] p' /\ settled p')) p.
Proof.
  revert p. induction fuel as [|fuel IH]; intros p I Hf; [pose proof (budget_nonneg _ I); lia|].
  simpl. wp_step. eapply wp_mono; [by apply peek_spec|].
  intros c p1 [S [[-> He]|[(-> & D & Hl)|(Hb & D & Hr)]]]; simpl.
  - wp_step. auto.
  - wp_step. split; [done|]. right. exists []. split; [constructor|]. split; [done|].
    intros x rest E. rewrite (budget_stream _ (s_inv _ _ S) Hl) in E. done.
  - match goal with |- wp (if ?b then _ else _) _ _ => destruct b eqn:Ew end.
    2:{ wp_step. split; [done|]. right. exists []. split; [constructor|]. split; [done|].
        intros x rest E. destruct (ready_stream _ _ Hr) as [rest' E']. rewrite E in E'. simplify_eq.
        rewrite !orb_false_iff, !Z.eqb_neq in Ew. unfold blank. lia. }
    unfold advance_cursor. wp_step. wp_step. pose proof (d_error _ _ _ _ _ D) as He.
    pose proof (advance_step _ _ (s_inv _ _ S) Hr) as S2.
    pose proof (advance_done _ _ (s_inv _ _ S) He Hr) as D2.
    eapply wp_mono; [apply IH; [apply (s_inv _ _ S2)|]|].
    { pose proof (s_left _ _ S). pose proof (d_left _ _ _ _ _ D2) as H2.
      rewrite zlen_cons, zlen_nil in H2. lia. }
    intros _ p3 [S3 H3]. split; [eauto using step_trans|].
    destruct H3 as [H3|(w & Hw & D3 & Hn)]; [auto|]. right. exists (c :: w). split; [|split; [|done]].
    + constructor; [|done]. unfold blank. rewrite !orb_true_iff, !Z.eqb_eq in Ew. tauto.
    + eapply (done_trans_l p p1); [done..|].
      exact (done_trans p1 _ p3 [c] w [] [] [] [] S2 D2 D3).
Qed.

(** ** Strings *)

(** The outcome of a function that returns a flag with a value. *)
Definition yields {A} (p : parser) (G : list Z -> list Z -> A -> Prop) (r : bool * A) (p' : parser) : Prop :=
  step p p' /\
  (r.1 = false /\ error p' <> 0 \/ r.1 = true /\ exists c t, done p c c t p' /\ G c t r.2).

Lemma yields_fail {A} e p0 p (a : A) G : step p0 p -> e <> 0 ->
  wp (ok <- fail e ;; ret (ok, a)) (yields p0 G) p.
Proof.
  intros S He. wp_step. eapply wp_mono; [by apply fail_spec; [apply (s_inv _ _ S)|]|].
  intros ok p' (S' & -> & H). wp_step. split; [by eapply step_trans|by left].
Qed.

Lemma hex4_loop_spec i l v p : inv p -> error p = 0 -> hexes l v -> (length l + i <= 4)%nat ->
  wp (hex4_loop read i v)
    (yields p (fun c t v' => length c = i /\ t = [] /\ hexes (l ++ c) v')) p.
Proof.
  revert l v p. induction i as [|i IH]; intros l v p I He Hv Hl; simpl.
  { wp_step. split; [by apply step_refl|]. right. split; [done|]. exists [], [].
    split; [by apply done_refl|]. by rewrite app_nil_r. }
  wp_step. eapply wp_mono; [by apply take_spec|]. intros c p1 [S [[-> H1]|[Hb D]]].
  { by apply yields_fail. }
  destruct (hex_digit c) as [d|] eqn:Ed; [|by apply yields_fail].
  assert (0 <= d < 16) as Hd by (by apply (hexval_range c)).
  assert (Z.lor (u32 (Z.shiftl v 4)) d = v * 16 + d) as ->.
  { pose proof (hexes_range _ _ Hv) as Hr.
    assert (16 ^ zlen l <= 16 ^ 3) by (apply Z.pow_le_mono_r; unfold zlen; lia).
    rewrite wrapu_small, lor_shiftl by (rewrite ?Z.shiftl_mul_pow2 by lia; lia). lia. }
  eapply wp_mono; [apply (IH (l ++ [c])); [apply (s_inv _ _ S)|apply (d_error _ _ _ _ _ D)| |]|].
  - by constructor.
  - rewrite length_app. simpl. lia.
  - intros r p2 [S2 [?|(E2 & c2 & t2 & D2 & Hl2 & -> & Hx)]].
    { split; [by eapply step_trans|by left]. }
    split; [by eapply step_trans|]. right. split; [done|]. exists (c :: c2), [].
    split; [exact (done_trans p p1 p2 [c] c2 [c] c2 [] [] S D D2)|]. rewrite <- app_assoc in Hx.
    simpl. auto.
Qed.

Lemma hex4_spec p : inv p -> error p = 0 ->
  wp (hex4 read) (yields p (fun c t v => t = [] /\ hex4s c v)) p.
Proof.
  intros I He. eapply wp_mono; [by apply (hex4_loop_spec 4 [] 0); [..|constructor|simpl; lia]|].
  intros r p' [S [?|(? & c & t & D & ? & -> & ?)]]; split; auto.
  right. split; [done|]. exists c, []. done.
Qed.

Lemma utf8_following_spec n v p : inv p -> error p = 0 ->
  wp (utf8_following read n v)
    (yields p (fun c t v' => t = [] /\ length c = n /\ continued v c v')) p.
Proof.
  revert v p. induction n as [|n IH]; intros v p I He; simpl.
  { wp_step. split; [by apply step_refl|]. right. split; [done|]. exists [], [].
    split; [by apply done_refl|]. split; [done|]. split; [done|constructor]. }
  wp_step. eapply wp_mono; [by apply take_spec|]. intros c p1 [S [[-> H1]|[Hb D]]].
  { by apply yields_fail. }
  destruct ((c <? 128) || (191 <? c)) eqn:Ec; [by apply yields_fail|].
  apply orb_false_iff in Ec as [E1%Z.ltb_ge E2%Z.ltb_ge].
  eapply wp_mono; [apply IH; [apply (s_inv _ _ S)|apply (d_error _ _ _ _ _ D)]|].
  intros r p2 [S2 [?|(? & c2 & t2 & D2 & -> & Hl2 & Hx)]].
  { split; [by eapply step_trans|by left]. }
  split; [by eapply step_trans|]. right. split; [done|]. exists (c :: c2), [].
  split; [exact (done_trans p p1 p2 [c] c2 [c] c2 [] [] S D D2)|]. split; [done|].
  split; [simpl; lia|]. by constructor; [lia|].
Qed.

(** Continues a [yields] goal after a step with outcome [done]. *)
Lemma yields_trans {A} p p1 c1 t1 G (r : bool * A) p2 H :
  step p p1 -> done p c1 c1 t1 p1 -> yields p1 H r p2 ->
  (forall c t v, H c t v -> G (c1 ++ c) (t1 ++ t) v) -> yields p G r p2.
Proof.
  intros S D [S2 [?|(E & c & t & D2 & Hx)]] HG; (split; [by eapply step_trans|]); [by left|].
  right. split; [done|]. exists (c1 ++ c), (t1 ++ t). split; [by eapply done_trans|auto].
Qed.

Lemma yields_ret {A} p p1 (G : list Z -> list Z -> A -> Prop) c t a :
  step p p1 -> done p c c t p1 -> G c t a -> wp (ret (true, a)) (yields p G) p1.
Proof. intros S D H. wp_step. split; [done|]. right. eauto 10. Qed.

Lemma utf8_scalar_spec c p : inv p -> error p = 0 ->
  wp (utf8_scalar read c) (yields p (fun l t v => t = [] /\ multibyte (c :: l) v)) p.
Proof.
  intros I He. unfold utf8_scalar. cbv zeta.
  assert (forall n first minimum,
    (forall l v, length l = n -> continued first l v -> minimum <= v <= 1114111 -> ~ surrogate v ->
       multibyte (c :: l) v) ->
    wp (r <- utf8_following read n first ;;
        let '(ok, scalar) := r in
        if negb ok then ret (false, scalar)
        else if (scalar <? minimum) || (1114111 <? scalar) || ((55296 <=? scalar) && (scalar <=? 57343))
        then ok <- fail EPROTO ;; ret (ok, scalar) else ret (true, scalar))
      (yields p (fun l t v => t = [] /\ multibyte (c :: l) v)) p) as Go.
  { intros n first minimum HG. wp_step. eapply wp_mono; [by apply utf8_following_spec|].
    intros [ok v] p1 [S [[E He1]|(E & l & t & D & -> & Hl & Hc)]]; simpl in E; subst ok; simpl.
    { wp_step. split; [done|by left]. }
    match goal with |- wp (if ?b then _ else _) _ _ => destruct b eqn:Eb end; [by apply yields_fail|].
    rewrite !orb_false_iff, andb_false_iff, !Z.ltb_ge, !Z.leb_gt in Eb. simpl in Hc.
    eapply yields_ret; [done..|]. split; [done|]. apply HG; try done; unfold surrogate; lia. }
  destruct ((194 <=? c) && (c <=? 223)) eqn:E2; [|destruct ((224 <=? c) && (c <=? 239)) eqn:E3;
    [|destruct ((240 <=? c) && (c <=? 244)) eqn:E4; [|apply yields_fail; [by apply step_refl|done]]]].
  all: rewrite andb_true_iff, !Z.leb_le in *; apply Go; intros; by constructor.
Qed.

(** The second half of a surrogate pair. *)
Lemma escape_pair_spec l1 v p : inv p -> error p = 0 -> hex4s l1 v -> high_surrogate v ->
  wp (ok <- expect read c_bslash ;; if negb ok then ret (false, v) else
      ok <- expect read c_u ;; if negb ok then ret (false, v) else
      r <- hex4 read ;;
      let '(ok, low) := r in
      if negb ok then ret (false, v)
      else if (low <? 56320) || (57343 <? low) then ok <- fail EPROTO ;; ret (ok, v)
      else ret (true, u32 (65536 + Z.shiftl (v - 55296) 10 + low - 56320)))
    (yields p (fun c t v' => t = [] /\ jchar (c_bslash :: c_u :: l1 ++ c) v')) p.
Proof.
  intros I He Hl1 Hv. eapply wp_seq; [by apply expect_spec| |].
  { intros p' S E. split; [done|by left]. }
  intros p1 ? ? ? S1 D1 (-> & -> & ->). eapply wp_seq.
  { apply expect_spec; [apply (s_inv _ _ S1)|lia]. }
  { intros p' S E. split; [by eapply step_trans|by left]. }
  intros p2 ? ? ? S2 D2 (-> & -> & ->).
  pose proof (step_trans _ _ _ S1 S2) as S12. pose proof (done_trans _ _ _ _ _ _ _ _ _ S1 D1 D2) as D12.
  wp_step. eapply wp_mono; [apply hex4_spec; [apply (s_inv _ _ S2)|apply (d_error _ _ _ _ _ D2)]|].
  intros [ok low] p3 [S3 [[E He3]|(E & l & t & D3 & -> & Hl)]]; simpl in *; subst ok; simpl.
  { wp_step. split; [by eapply step_trans|by left]. }
  pose proof (step_trans _ _ _ S12 S3) as S13. pose proof (done_trans _ _ _ _ _ _ _ _ _ S12 D12 D3) as D13.
  destruct ((low <? 56320) || (57343 <? low)) eqn:El; [by apply yields_fail|].
  rewrite orb_false_iff, !Z.ltb_ge in El. eapply yields_ret; [done..|]. split; [done|].
  by apply (jchar_pair l1 v l low).
Qed.

Lemma escaped_scalar_spec p : inv p -> error p = 0 ->
  wp (escaped_scalar read) (yields p (fun l t v => t = [] /\ jchar (c_bslash :: l) v)) p.
Proof.
  intros I He. unfold escaped_scalar. wp_step. eapply wp_mono; [by apply take_spec|].
  intros c p1 [S [[-> H1]|[Hb D]]]; [by apply yields_fail|].
  destruct (escape_scalar c) as [v|] eqn:Ev.
  { pose proof (jchar_escape _ _ Ev) as Hj. unfold escape_scalar in Ev.
    repeat case_match; simplify_eq; by eapply yields_ret. }
  unfold escape_scalar in Ev. repeat (case_match; try done).
  2:{ by apply yields_fail. }
  assert (c = c_u) as -> by lia. wp_step.
  eapply wp_mono; [apply hex4_spec; [apply (s_inv _ _ S)|apply (d_error _ _ _ _ _ D)]|].
  intros [ok v] p3 [S3 [[E He3]|(E & l & t & D3 & -> & Hl)]]; simpl in *; subst ok; simpl.
  { wp_step. split; [by eapply step_trans|by left]. }
  pose proof (step_trans _ _ _ S S3) as S13. pose proof (done_trans _ _ _ _ _ _ _ _ _ S D D3) as D13.
  destruct ((55296 <=? v) && (v <=? 56319)) eqn:Eh.
  { rewrite andb_true_iff, !Z.leb_le in Eh. eapply wp_mono.
    { apply (escape_pair_spec l); [apply (s_inv _ _ S3)|apply (d_error _ _ _ _ _ D3)|done|done]. }
    intros r p4 Y. eapply yields_trans; [exact S13|exact D13|exact Y|]. intros c t v' [-> Hj].
    simpl. by rewrite <- ?app_assoc in *. }
  destruct ((56320 <=? v) && (v <=? 57343)) eqn:Ew; [by apply yields_fail|].
  rewrite andb_false_iff, !Z.leb_gt in Eh, Ew. eapply yields_ret; [done..|]. split; [done|].
  apply jchar_unicode; [done|]. unfold surrogate. lia.
Qed.

(** ** Where the scalars of a string go *)

Definition key_bytes (d : decoded) : list Z := match key d with Some k => data k | None => [] end.

Definition dest_wf (d : decoded) : Prop :=
  match key d with
  | Some k => cap k = 128 /\ zlen (data k) = dlength d /\ dlength d <= 127
  | None => True
  end.

(** The scalars a destination delivers to the text output. *)
Definition text_of (dest : option decoded) (vs : list Z) : list Z :=
  match dest with
  | Some d => match key d with Some _ => [] | None => if output_text d then vs else [] end
  | None => []
  end.

Definition dest_ok (dest : option decoded) (p : parser) : Prop :=
  match dest with
  | Some d => dest_wf d /\ (key d = None -> output_text d = true -> is_key d = false /\ capture p <> OUTPUT_JSON)
  | None => True
  end.

(** The destination after the scalars [vs]. *)
Definition dest_after (dest : option decoded) (vs : list Z) (dest' : option decoded) : Prop :=
  match dest, dest' with
  | None, None => True
  | Some d, Some d' =>
      dest_wf d' /\ output_text d' = output_text d /\ is_key d' = is_key d /\
      (is_key d = true -> Forall (fun v => v <> 0) vs) /\
      match key d with
      | Some k => is_Some (key d') /\ key_bytes d' = data k ++ concat (utf8_encode <$> vs)
      | None => key d' = None
      end
  | _, _ => False
  end.

Lemma dest_after_refl dest p : dest_ok dest p -> dest_after dest [] dest.
Proof.
  destruct dest as [d|]; [|done]. intros [Hw _]. repeat split; try done.
  unfold key_bytes. destruct (key d) as [k|]; [|done]. split; [eauto|]. by rewrite app_nil_r.
Qed.

Lemma dest_after_trans d1 d2 d3 vs ws :
  dest_after d1 vs d2 -> dest_after d2 ws d3 -> dest_after d1 (vs ++ ws) d3.
Proof.
  destruct d1 as [d1|], d2 as [d2|], d3 as [d3|]; try done.
  intros (W2 & T2 & K2 & Z2 & H2) (W3 & T3 & K3 & Z3 & H3).
  split; [done|]. split; [congruence|]. split; [congruence|]. split.
  { intros Hk. apply Forall_app. split; [auto|]. apply Z3. congruence. }
  unfold key_bytes in *. destruct (key d1) as [k|].
  - destruct H2 as [[k2 E2] H2]. rewrite E2 in *. destruct H3 as [[k3 E3] H3]. rewrite E3 in *.
    split; [eauto|]. by rewrite H3, H2, fmap_app, concat_app, app_assoc.
  - by rewrite H2 in H3.
Qed.

Lemma text_of_after d1 d2 vs ws : dest_after d1 vs d2 -> text_of d2 ws = text_of d1 ws.
Proof.
  destruct d1 as [d1|], d2 as [d2|]; try done. intros (_ & T & _ & _ & H). unfold text_of.
  destruct (key d1); [by destruct H as [[? ->] _]|]. by rewrite H, T.
Qed.

Lemma dest_ok_after d1 d2 vs p p' :
  dest_ok d1 p -> dest_after d1 vs d2 -> step p p' -> dest_ok d2 p'.
Proof.
  destruct d1 as [d1|], d2 as [d2|]; try done. intros [W H1] (W2 & T & Ek & _ & H) S.
  split; [done|]. rewrite (s_capture _ _ S), Ek. intros Hk Ht. apply H1; [|congruence].
  destruct (key d1); [|done]. by destruct H as [[? E] _]; rewrite E in Hk.
Qed.

Lemma text_of_app d vs ws : text_of d (vs ++ ws) = text_of d vs ++ text_of d ws.
Proof. unfold text_of. repeat case_match; done. Qed.

Lemma text_of_nil d : text_of d [] = [].
Proof. unfold text_of. repeat case_match; done. Qed.

(** A scalar for the text output. *)
Lemma deliver1_inv lim o v :
  output_inv lim o 0 -> output_inv lim (deliver1 lim o v) 0.
Proof.
  unfold output_inv, deliver1. intros Ho. destruct (Z.eqb_spec v 0); [done|].
  case_decide as Hs; [|done]. case_Z; simpl.
  - destruct (out_value o); [|naive_solver]. naive_solver.
  - destruct (out_value o) as [b|]; [|naive_solver]. simpl. rewrite zlen_app.
    destruct Ho as (? & ? & ? & _). split; [done|]. split; [lia|]. split; [lia|]. auto.
Qed.

Lemma deliver_step p v :
  inv p -> error p = 0 -> step p (set_output (deliver1 (limit p) (output p) v) p).
Proof.
  intros I He. apply step_set_output; [done|]. rewrite He. apply deliver1_inv. rewrite <- He.
  apply (i_output _ I).
Qed.

Lemma deliver_done p v :
  error p = 0 -> capture p <> OUTPUT_JSON ->
  done p [] [] [v] (set_output (deliver1 (limit p) (output p) v) p).
Proof.
  intros He Hc. split; [done| |done|unfold read_budget; simpl; rewrite zlen_nil; lia].
  split; [by case_decide; rewrite app_nil_r|]. done.
Qed.

Lemma decoded_text_spec d v p : inv p -> error p = 0 -> key d = None -> output_text d = true ->
  is_key d = false -> capture p <> OUTPUT_JSON ->
  wp (decoded_scalar (Some d) v)
    (fun r p' => r = (true, Some d) /\ step p p' /\ done p [] [] [v] p') p.
Proof.
  intros I He Hk Ht Hi Hc. unfold decoded_scalar. rewrite Hi, Hk, Ht. cbn [andb].
  pose proof (deliver_step p v I He) as S. pose proof (deliver_done p v He Hc) as D.
  pose proof (i_output _ I) as Ho. unfold output_inv in Ho.
  unfold deliver1 in S, D. unfold add_observed. wp_step. wp_step. wp_step.
  destruct (Z.eqb_spec v 0).
  { unfold discard_output, set_reason. wp_step. wp_step. wp_step. wp_step. done. }
  wp_step. wp_step. cbn [output set_output out_state limit out_length].
  destruct (decide (out_state (output p) = IPERF_OUTPUT_COMPLETE)) as [Hs|].
  2:{ wp_step. wp_step. done. }
  destruct (limit p <? _) eqn:El.
  { wp_step. wp_step. done. }
  destruct (out_value (output p)) as [b|] eqn:Eb; [|naive_solver].
  destruct Ho as (Hcap & Hlen & Hmax & _). apply Z.ltb_ge in El.
  unfold append_output, wp. cbn [output set_output out_value out_length].
  rewrite <- Hlen, buf_write_push by lia. rewrite Hlen. done.
Qed.

Definition scalar_post (p : parser) (dest : option decoded) (v : Z)
    (r : bool * option decoded) (p' : parser) : Prop :=
  step p p' /\
  (r.1 = false /\ error p' <> 0 \/
   r.1 = true /\ done p [] [] (text_of dest [v]) p' /\ dest_after dest [v] r.2).

Lemma decoded_scalar_spec dest v p : inv p -> error p = 0 -> dest_ok dest p ->
  wp (decoded_scalar dest v) (scalar_post p dest v) p.
Proof.
  intros I He Hd. destruct dest as [d|].
  2:{ simpl. wp_step. split; [by apply step_refl|]. right. split; [done|]. split; [by apply done_refl|done]. }
  destruct Hd as [Hw Ht]. destruct (key d) as [k|] eqn:Hk.
  - unfold decoded_scalar. destruct (is_key d && (v =? 0)) eqn:E0; [|].
    { wp_step. eapply wp_mono; [by apply fail_spec|]. intros ok p' (S & -> & H). wp_step. by split; [|left]. }
    rewrite Hk. unfold dest_wf in Hw. rewrite Hk in Hw. destruct Hw as (Hc & Hl & Hm).
    destruct ((v =? 0) || (127 <? dlength d + zlen (utf8_encode v))) eqn:E1.
    { wp_step. eapply wp_mono; [apply fail_spec; [done|by case_match]|].
      intros ok p' (S & -> & H). wp_step. by split; [|left]. }
    apply orb_false_iff in E1 as [E2%Z.eqb_neq E3%Z.ltb_ge].
    rewrite <- Hl, buf_write_push by lia. wp_step. split; [by apply step_refl|]. right.
    split; [done|]. unfold text_of. rewrite Hk. split; [by apply done_refl|]. simpl. unfold dest_wf, key_bytes.
    rewrite Hk. simpl. rewrite zlen_app, app_nil_r. repeat split; try done; try lia; eauto.
  - destruct (output_text d) eqn:Eo.
    + destruct (Ht eq_refl eq_refl) as [Hi Hc]. eapply wp_mono; [by apply decoded_text_spec|].
      intros r p' (-> & S & D). split; [done|]. right. split; [done|]. unfold text_of. rewrite Hk, Eo.
      split; [done|]. simpl. rewrite Hk, Hi. by repeat split.
    + unfold decoded_scalar. destruct (is_key d && (v =? 0)) eqn:E0.
      { wp_step. eapply wp_mono; [by apply fail_spec|]. intros ok p' (S & -> & H). wp_step. by split; [|left]. }
      rewrite Hk, Eo. wp_step. split; [by apply step_refl|]. right. split; [done|].
      unfold text_of. rewrite Hk, Eo. split; [by apply done_refl|]. simpl. rewrite Hk.
      repeat split; try done. intros Hi. rewrite Hi in E0. constructor; [by apply Z.eqb_neq|done].
Qed.

Lemma string_loop_spec fuel dest p : inv p -> error p = 0 -> dest_ok dest p -> read_budget p < Z.of_nat fuel ->
  wp (string_loop read fuel dest)
    (yields p (fun c t dest' => exists body vs,
       c = body ++ [c_quote] /\ jchars body vs /\ t = text_of dest vs /\ dest_after dest vs dest')) p.
Proof.
  revert dest p. induction fuel as [|fuel IH]; intros dest p I He Hd Hf;
    [pose proof (budget_nonneg _ I); lia|].
  simpl. wp_step. wp_step. rewrite He. simpl. wp_step. eapply wp_mono; [by apply take_spec|].
  intros c p1 [S [[-> H1]|[Hb D]]]; [by apply yields_fail|].
  destruct (Z.eqb_spec c c_quote) as [->|Hq].
  { eapply yields_ret; [done..|]. exists [], []. rewrite text_of_nil.
    repeat split; try done; [constructor|by eapply dest_after_refl]. }
  destruct (Z.ltb_spec c 32) as [|H32]; [by apply yields_fail|].
  pose proof (s_inv _ _ S) as I1. pose proof (d_error _ _ _ _ _ D) as He1.
  wp_step. eapply (wp_mono _ (yields p1 (fun l t v => t = [] /\ jchar (c :: l) v))).
  { destruct (Z.eqb_spec c c_bslash) as [->|Hs]; [by apply escaped_scalar_spec|].
    destruct (Z.ltb_spec c 128).
    - eapply (yields_ret _ _ _ [] []); [by apply step_refl|by apply done_refl|]. split; [done|].
      by constructor.
    - eapply wp_mono; [by apply utf8_scalar_spec|]. intros r p2 [S2 H2]. split; [done|].
      destruct H2 as [?|(? & l & t & ? & -> & ?)]; [by left|]. right. split; [done|].
      exists l, []. split; [done|]. split; [done|by constructor]. }
  intros [ok v] p2 [S2 [[E2 H2]|(E2 & l & t & D2 & -> & Hj)]]; simpl in *; subst ok; simpl.
  { wp_step. split; [by eapply step_trans|by left]. }
  pose proof (step_trans _ _ _ S S2) as S12. pose proof (done_trans _ _ _ _ _ _ _ _ _ S D D2) as D12.
  wp_step. eapply wp_mono.
  { apply decoded_scalar_spec; [apply (s_inv _ _ S2)|apply (d_error _ _ _ _ _ D2)|].
    eapply dest_ok_after; [done| |done]. by eapply dest_after_refl. }
  intros [ok dest2] p3 [S3 [[E3 H3]|(E3 & D3 & Ha)]]; simpl in *; subst ok; simpl.
  { wp_step. split; [by eapply step_trans|by left]. }
  pose proof (step_trans _ _ _ S12 S3) as S13. pose proof (done_trans _ _ _ _ _ _ _ _ _ S12 D12 D3) as D13.
  rewrite app_nil_r in D13. eapply wp_mono.
  { apply (IH dest2); [apply (s_inv _ _ S3)|apply (d_error _ _ _ _ _ D3)| |].
    - by eapply dest_ok_after.
    - pose proof (d_left _ _ _ _ _ D). pose proof (s_left _ _ S2). pose proof (s_left _ _ S3).
      rewrite zlen_cons, zlen_nil in *. lia. }
  intros r p4 Y. eapply yields_trans; [exact S13|exact D13|exact Y|].
  intros cs ts d3 (body & vs & -> & Hb2 & -> & Ha2). exists ((c :: l) ++ body), (v :: vs).
  split; [by rewrite <- !app_assoc|]. split; [by constructor|].
  rewrite (text_of_after _ _ _ _ Ha). split; [by destruct dest as [[[?|] ? [] ?]|]|].
  exact (dest_after_trans _ _ _ [v] vs Ha Ha2).
Qed.

Lemma string_spec fuel dest p : inv p -> dest_ok dest p -> read_budget p < Z.of_nat fuel ->
  wp (string read fuel dest)
    (yields p (fun c t dest' => exists vs, jstr c vs /\ t = text_of dest vs /\ dest_after dest vs dest')) p.
Proof.
  intros I Hd Hf. unfold string. eapply wp_seq; [by apply expect_spec| |].
  { intros p' S E. split; [done|by left]. }
  intros p1 ? ? ? S D (-> & -> & ->). eapply wp_mono.
  { apply string_loop_spec; [apply (s_inv _ _ S)|apply (d_error _ _ _ _ _ D)| |].
    - eapply dest_ok_after; [done| |done]. by eapply dest_after_refl.
    - pose proof (s_left _ _ S). lia. }
  intros r p2 Y. eapply yields_trans; [exact S|exact D|exact Y|].
  intros c t d2 (body & vs & -> & Hj & -> & Ha). exists vs. split; [|done]. exists body. done.
Qed.

(** ** Numbers *)

(** A part of a number: an error, or the characters read and counted. *)
Definition part (p : parser) (G : list Z -> Prop) (count : Z) (r : bool * Z) (p' : parser) : Prop :=
  step p p' /\
  (error p' <> 0 \/ r.1 = true /\ exists l, done p l l [] p' /\ G l /\ r.2 = count + zlen l).

Lemma part_error p0 p G count r : step p0 p -> error p <> 0 -> part p0 G count r p.
Proof. intros S He. by split; [|left]. Qed.

Lemma fail_part e p0 p G count n : step p0 p -> e <> 0 ->
  wp (ok <- fail e ;; ret (ok, n)) (part p0 G count) p.
Proof.
  intros S He. wp_step. eapply wp_mono; [by apply fail_spec; [apply (s_inv _ _ S)|]|].
  intros ok p' (S' & -> & H). wp_step. apply part_error; [by eapply step_trans|done].
Qed.

Lemma digit_spec c : digit c = true <-> jdigit c.
Proof. unfold digit, jdigit. rewrite andb_true_iff, !Z.leb_le. done. Qed.

Definition run_of (count : Z) (l : list Z) : Prop :=
  l <> [] /\ Forall jdigit l /\ count + zlen l <= IPERF_RESULT_MAX_NUMBER_LENGTH.

(** The next byte, unless an error occurred, satisfies [P]. *)
Definition next_is (P : Z -> Prop) (p : parser) : Prop :=
  error p = 0 -> exists c, ready p c /\ P c.

Lemma digits_spec fuel count p : inv p -> read_budget p < Z.of_nat fuel -> next_is jdigit p ->
  wp (digits read fuel count) (part p (run_of count) count) p.
Proof.
  revert count p. induction fuel as [|fuel IH]; intros count p I Hf Hn;
    [pose proof (budget_nonneg _ I); lia|].
  cbn [digits]. wp_step. eapply wp_mono; [by apply take_spec|]. intros c p1 [S H]. cbv zeta.
  destruct (Z.ltb_spec IPERF_RESULT_MAX_NUMBER_LENGTH (count + 1)); [by apply fail_part|].
  wp_step. eapply wp_mono; [apply peek_spec, (s_inv _ _ S)|]. intros c2 p2 [S2 H2].
  pose proof (step_trans _ _ _ S S2) as S12.
  destruct H as [[-> He]|[Hb D]].
  { pose proof (step_error _ _ S2 He) as He2.
    destruct H2 as [[-> _]|[(_ & D & _)|(_ & D & _)]]; [|by destruct D..].
    simpl. wp_step. by apply part_error. }
  assert (jdigit c) as Hc.
  { destruct (Hn) as (c' & Hr & Hj).
    - destruct (Z.eq_dec (error p) 0) as [|E]; [done|]. destruct D as [_ _ De _].
      by destruct (step_error _ _ S E).
    - by rewrite (done_ready _ _ _ _ _ _ Hr D). }
  destruct (digit c2) eqn:Ed.
  - destruct H2 as [[-> _]|[(-> & _)|(Hb2 & D2 & Hr2)]]; [done..|].
    pose proof (done_trans_r _ _ _ _ _ _ S D D2) as D12.
    eapply wp_mono; [apply (IH (count + 1)); [apply (s_inv _ _ S2)| |]|].
    + pose proof (d_left _ _ _ _ _ D12) as Hl. rewrite zlen_cons, zlen_nil in Hl. lia.
    + intros _. exists c2. split; [done|by apply digit_spec].
    + intros r p3 [S3 H3]. split; [by eapply step_trans|].
      destruct H3 as [?|(? & l & D3 & (Hl1 & Hl2 & Hl3) & Hr)]; [by left|]. right. split; [done|].
      exists (c :: l). split; [exact (done_trans p p2 p3 [c] l [c] l [] [] S12 D12 D3)|].
      rewrite zlen_cons. split; [|lia]. split; [done|]. split; [by constructor|]. rewrite zlen_cons. lia.
  - wp_step. split; [done|]. destruct H2 as [[-> ?]|H2]; [by left|]. right. split; [done|].
    exists [c]. split.
    + eapply done_trans_r; [exact S|done|]. by destruct H2 as [(_ & ? & _)|(_ & ? & _)].
    + rewrite zlen_cons, zlen_nil. split; [|simpl; lia]. split; [done|].
      split; [by constructor|]. rewrite zlen_cons, zlen_nil. lia.
Qed.

(** An optional character: taken when [peek] shows it. *)
Lemma take_shown_spec p0 c p : step p0 p -> done p0 [] [] [] p -> ready p c ->
  wp (take read) (fun _ p' => step p0 p' /\ (error p' <> 0 \/ done p0 [c] [c] [] p')) p.
Proof.
  intros S D Hr. eapply wp_mono; [by apply take_ready_spec; [apply (s_inv _ _ S)|]|].
  intros c' p' [S' [[_ H]|[-> D']]]; (split; [by eapply step_trans|]); [by left|].
  right. by eapply done_trans_l.
Qed.

Lemma number_sign_spec p : inv p ->
  wp (number_sign read) (fun n p' => step p p' /\
    (error p' <> 0 \/ exists s, (s = [] \/ s = [c_minus]) /\ done p s s [] p' /\ n = zlen s)) p.
Proof.
  intros I. unfold number_sign. wp_step. eapply wp_mono; [by apply peek_spec|].
  intros c p1 [S H]. destruct (Z.eqb_spec c c_minus) as [->|].
  - destruct H as [[]|[[]|(_ & D & Hr)]]; [done..|]. wp_step.
    eapply wp_mono; [by eapply take_shown_spec|]. intros _ p2 [S2 H2]. wp_step. split; [done|].
    destruct H2; [by left|]. right. exists [c_minus]. auto.
  - wp_step. split; [done|]. destruct H as [[]|H]; [by left|]. right. exists [].
    split; [auto|]. split; [|done]. by destruct H as [(_ & ? & _)|(_ & ? & _)].
Qed.

Lemma number_int_spec fuel count p : inv p -> read_budget p < Z.of_nat fuel ->
  wp (number_int read fuel count)
    (part p (fun l => jint l /\ (count <= 1 -> count + zlen l <= IPERF_RESULT_MAX_NUMBER_LENGTH)) count) p.
Proof.
  intros I Hf. unfold number_int. wp_step. eapply wp_mono; [by apply peek_spec|].
  intros c p1 [S H]. destruct (Z.eqb_spec c c_0) as [->|Hc0].
  - destruct H as [[]|[[]|(_ & D & Hr)]]; [done..|]. wp_step.
    eapply wp_mono; [by eapply take_shown_spec|]. intros _ p2 [S2 H2]. wp_step. split; [done|].
    destruct H2 as [|D2]; [by left|]. right. split; [done|]. exists [c_0]. split; [done|].
    rewrite zlen_cons, zlen_nil. unfold IPERF_RESULT_MAX_NUMBER_LENGTH. simpl. split; [|lia].
    split; [constructor|lia].
  - destruct ((c <? c_1) || (c_9 <? c)) eqn:E; [by apply fail_part|].
    rewrite orb_false_iff, !Z.ltb_ge in E. destruct H as [[]|[[]|(_ & D & Hr)]]; [lia..|].
    eapply wp_mono.
    { apply digits_spec; [apply (s_inv _ _ S)|pose proof (s_left _ _ S); lia|].
      intros _. exists c. split; [done|]. unfold jdigit. lia. }
    intros r p2 [S2 H2]. split; [by eapply step_trans|].
    destruct H2 as [?|(? & l & D2 & (Hn & Hl & Hm) & Hr2)]; [by left|]. right. split; [done|].
    exists l. split; [by eapply done_trans_l|]. split; [|done]. split; [|done].
    destruct l as [|c' l]; [done|]. inversion_clear Hl. constructor; [|done].
    destruct (ready_stream _ _ Hr) as [rest Hs]. rewrite (d_stream _ _ _ _ _ D2) in Hs.
    simplify_eq/=. lia.
Qed.

(** Digits after a character that has just been read. *)
Lemma digits_after_spec fuel count n w p0 p : step p0 p -> read_budget p < Z.of_nat fuel ->
  error p <> 0 \/ done p0 w w [] p /\ n = count + zlen w ->
  wp (c <- peek read ;; if negb (digit c) then ok <- fail EPROTO ;; ret (ok, n) else digits read fuel n)
    (part p0 (fun l => exists ds, l = w ++ ds /\ run_of (count + zlen w) ds) count) p.
Proof.
  intros S Hf H. wp_step. eapply wp_mono; [apply peek_spec, (s_inv _ _ S)|].
  intros c p1 [S1 H1]. pose proof (step_trans _ _ _ S S1) as S01.
  destruct (digit c) eqn:Ed; simpl; [|by apply fail_part].
  destruct H1 as [[-> _]|[(-> & _)|(_ & D1 & Hr)]]; [done..|].
  destruct H as [He|[D ->]]; [by destruct (step_error _ _ S1 He); destruct D1|].
  eapply wp_mono.
  { apply digits_spec; [apply (s_inv _ _ S1)|pose proof (s_left _ _ S1); lia|].
    intros _. exists c. split; [done|by apply digit_spec]. }
  intros r p2 [S2 H2]. split; [by eapply step_trans|].
  destruct H2 as [?|(? & l & D2 & Hl & Hr2)]; [by left|]. right. split; [done|].
  exists (w ++ l). split; [|rewrite zlen_app; split; [eauto|lia]].
  eapply (done_trans p0 p p2 w l w l [] []); [done..|]. by eapply done_trans_l.
Qed.

Lemma peeked_part p c p' G count : peeked p c p' -> G [] -> part p G count (true, count) p'.
Proof.
  intros [S H] HG. split; [done|]. destruct H as [[]|H]; [by left|]. right. split; [done|].
  exists []. rewrite zlen_nil. split; [|split; [done|simpl; lia]].
  by destruct H as [(_ & ? & _)|(_ & ? & _)].
Qed.

Lemma run_of_digits n c l : run_of n (c :: l) -> Forall jdigit (c :: l).
Proof. by intros (_ & ? & _). Qed.

Definition within (count : Z) (G : list Z -> Prop) (l : list Z) : Prop :=
  G l /\ (count <= IPERF_RESULT_MAX_NUMBER_LENGTH -> count + zlen l <= IPERF_RESULT_MAX_NUMBER_LENGTH).

Lemma part_mono p (G H : list Z -> Prop) count r p' :
  part p G count r p' -> (forall l, G l -> H l) -> part p H count r p'.
Proof.
  intros [S Hp] HG. split; [done|]. destruct Hp as [|(? & l & ? & ? & ?)]; [by left|].
  right. split; [done|]. eauto 10.
Qed.

Lemma number_frac_spec fuel count p : inv p -> read_budget p < Z.of_nat fuel ->
  wp (number_frac read fuel count) (part p (within count jfrac) count) p.
Proof.
  intros I Hf. unfold number_frac. wp_step. eapply wp_mono; [by apply peek_spec|].
  intros c p1 Hp. destruct (Z.eqb_spec c c_dot) as [->|].
  2:{ wp_step. eapply peeked_part; [done|]. split; [constructor|rewrite zlen_nil; lia]. }
  destruct Hp as [S [[]|[[]|(_ & D & Hr)]]]; [done..|]. wp_step.
  eapply wp_mono; [by eapply take_shown_spec|]. intros _ p2 [S2 H2].
  eapply wp_mono; [apply (digits_after_spec _ count _ [c_dot] p); [done| |]|].
  { pose proof (s_left _ _ S2). lia. }
  { destruct H2; auto. }
  intros r p3 Hp. eapply part_mono; [done|]. intros l (ds & -> & Hd).
  destruct ds as [|d ds]; [by destruct Hd|]. split.
  - constructor. by eapply run_of_digits.
  - destruct Hd as (_ & _ & Hd). rewrite zlen_app. lia.
Qed.

Lemma number_exp_sign_spec n p : inv p ->
  wp (number_exp_sign read n) (fun n' p' => step p p' /\
    (error p' <> 0 \/ exists s, (s = [] \/ s = [c_plus] \/ s = [c_minus]) /\ done p s s [] p' /\ n' = n + zlen s)) p.
Proof.
  intros I. unfold number_exp_sign. wp_step. eapply wp_mono; [by apply peek_spec|].
  intros c p1 [S H]. destruct ((c =? c_plus) || (c =? c_minus)) eqn:E.
  - rewrite orb_true_iff, !Z.eqb_eq in E. destruct H as [[]|[[]|(_ & D & Hr)]]; [lia..|]. wp_step.
    eapply wp_mono; [by eapply take_shown_spec|]. intros _ p2 [S2 H2]. wp_step. split; [done|].
    destruct H2; [by left|]. right. exists [c]. destruct E as [-> | ->]; auto.
  - wp_step. split; [done|]. destruct H as [[]|H]; [by left|]. right. exists [].
    split; [auto|]. split; [|rewrite zlen_nil; lia]. by destruct H as [(_ & ? & _)|(_ & ? & _)].
Qed.

Lemma number_exp_spec fuel count p : inv p -> read_budget p < Z.of_nat fuel ->
  wp (number_exp read fuel count) (part p (within count jexp) count) p.
Proof.
  intros I Hf. unfold number_exp. wp_step. eapply wp_mono; [by apply peek_spec|].
  intros c p1 Hp. destruct ((c =? c_e) || (c =? c_E)) eqn:E.
  2:{ wp_step. eapply peeked_part; [done|]. split; [constructor|rewrite zlen_nil; lia]. }
  rewrite orb_true_iff, !Z.eqb_eq in E. destruct Hp as [S [[]|[[]|(_ & D & Hr)]]]; [lia..|]. wp_step.
  eapply wp_mono; [by eapply take_shown_spec|]. intros _ p2 [S2 H2].
  wp_step. eapply wp_mono; [apply number_exp_sign_spec, (s_inv _ _ S2)|]. intros n p3 [S3 H3].
  pose proof (step_trans _ _ _ S2 S3) as S23.
  assert (error p3 <> 0 \/ exists s, (s = [] \/ s = [c_plus] \/ s = [c_minus]) /\
    done p (c :: s) (c :: s) [] p3 /\ n = count + zlen (c :: s)) as H.
  { destruct H2 as [He|D2]; [left; exact (step_error _ _ S3 He)|]. destruct H3 as [|(s & Hs & D3 & ->)]; [by left|].
    right. exists s. split; [done|]. rewrite zlen_cons. split; [|lia].
    exact (done_trans p p2 p3 [c] s [c] s [] [] S2 D2 D3). }
  assert (read_budget p3 < Z.of_nat fuel) by (pose proof (s_left _ _ S23); lia).
  assert (exists s, (s = [] \/ s = [c_plus] \/ s = [c_minus]) /\
    (error p3 <> 0 \/ done p (c :: s) (c :: s) [] p3 /\ n = count + zlen (c :: s))) as (s & Hs & Hn).
  { destruct H as [|(s & ? & ?)]; [exists []|exists s]; auto. }
  eapply wp_mono; [apply (digits_after_spec _ count _ (c :: s) p); done|].
  intros r p4 Hp. eapply part_mono; [done|]. intros l (ds & -> & Hd).
  destruct ds as [|d ds]; [by destruct Hd|]. split.
  - rewrite <- app_comm_cons. constructor; [done|done|by eapply run_of_digits].
  - destruct Hd as (_ & _ & Hd). rewrite zlen_app. lia.
Qed.

(** Sequencing the parts of a number. *)
Lemma wp_part {A} p0 p w count (m : PM (bool * Z)) (G : list Z -> Prop) (K : Z -> PM A) (f : A) Q :
  step p0 p -> error p <> 0 \/ done p0 w w [] p /\ count = zlen w ->
  wp m (part p G count) p ->
  (forall p', step p0 p' -> error p' <> 0 -> Q f p') ->
  (forall l n p', step p0 p' -> step p p' -> error p' <> 0 \/ (done p0 (w ++ l) (w ++ l) [] p' /\ n = zlen (w ++ l)) ->
     error p' <> 0 \/ G l -> wp (K n) Q p') ->
  wp (r <- m ;; let '(ok, n) := r in if negb ok then ret f else K n) Q p.
Proof.
  intros S H Hm Hf Hk. wp_step. eapply wp_mono; [exact Hm|]. intros [ok n] p' [S' H']. simpl in H'.
  pose proof (step_trans _ _ _ S S') as S0. destruct ok; simpl.
  - assert (error p <> 0 -> error p' <> 0) as He by (by apply step_error).
    destruct H' as [E|(_ & l & D' & HG & ->)]; [by eapply (Hk []); auto|].
    eapply (Hk l); [done|done| |auto]. destruct H as [|[D ->]]; [auto|]. right.
    rewrite zlen_app. split; [|done]. exact (done_trans _ _ _ _ _ _ _ _ _ S D D').
  - wp_step. apply Hf; [done|]. by destruct H' as [|(? & _)].
Qed.

Lemma number_spec fuel p : inv p -> read_budget p < Z.of_nat fuel ->
  wp (number read fuel) (result p (fun c e t => jnumber c /\ e = c /\ t = [])) p.
Proof.
  intros I Hf. unfold number. wp_step. eapply wp_mono; [by apply number_sign_spec|].
  intros n p1 [S1 H1].
  assert (exists s, (s = [] \/ s = [c_minus]) /\
    (error p1 <> 0 \/ done p s s [] p1 /\ n = zlen s)) as (s & Hs & H1').
  { destruct H1 as [|(s & ? & ?)]; [exists []|exists s]; auto. }
  assert (zlen s <= 1) by (destruct Hs as [-> | ->]; done).
  eapply wp_part; [exact S1|exact H1'| | |].
  { apply number_int_spec; [apply (s_inv _ _ S1)|pose proof (s_left _ _ S1); lia]. }
  { intros p' S E. split; [done|by left]. }
  intros i n2 p2 S2 T2 H2 Hi. eapply wp_part; [exact S2|exact H2| | |].
  { apply number_frac_spec; [apply (s_inv _ _ S2)|pose proof (s_left _ _ S2); lia]. }
  { intros p' S E. split; [done|by left]. }
  intros f n3 p3 S3 T3 H3 Hf3. eapply wp_part; [exact S3|exact H3| | |].
  { apply number_exp_spec; [apply (s_inv _ _ S3)|pose proof (s_left _ _ S3); lia]. }
  { intros p' S E. split; [done|by left]. }
  intros e n4 p4 S4 T4 H4 He. wp_step. split; [done|].
  destruct (Z.eqb_spec (error p4) 0) as [E4|E4]; [|by left]. right. split; [done|].
  destruct H4 as [|[D4 _]]; [done|]. eexists _, _, _. split; [exact D4|]. split; [|done].
  destruct He as [|[He Hm4]]; [done|].
  assert (error p3 = 0) as E3 by (destruct (Z.eq_dec (error p3) 0); [done|by destruct (step_error _ _ T4)]).
  assert (error p2 = 0) as E2 by (destruct (Z.eq_dec (error p2) 0); [done|by destruct (step_error _ _ T3)]).
  assert (error p1 = 0) as E1 by (destruct (Z.eq_dec (error p1) 0); [done|by destruct (step_error _ _ T2)]).
  destruct H1' as [|[_ ->]], Hi as [|[Hi Hm2]], H2 as [|[_ ->]], Hf3 as [|[Hf3 Hm3]], H3 as [|[_ ->]]; try done.
  exists s, i, f, e. rewrite <- !app_assoc. repeat (split; [done|]).
  rewrite !zlen_app in *. unfold IPERF_RESULT_MAX_NUMBER_LENGTH in *. lia.
Qed.

(** ** Values *)

Lemma literal_spec l p : inv p -> error p = 0 -> Forall (fun c => 0 <= c) l ->
  wp (literal read l) (result p (exactly l)) p.
Proof.
  intros I He Hl. revert p I He. induction Hl as [|c l Hc Hl IH]; intros p I He; simpl.
  { wp_step. split; [by apply step_refl|]. right. split; [done|]. exists [], [], [].
    split; [by apply done_refl|done]. }
  eapply wp_seq; [by apply expect_spec| |].
  { intros p' S E. split; [done|by left]. }
  intros p1 ? ? ? S D (-> & -> & ->).
  eapply wp_mono; [apply IH; [apply (s_inv _ _ S)|apply (d_error _ _ _ _ _ D)]|].
  intros ok p2 [S2 H2]. split; [by eapply step_trans|].
  destruct H2 as [|(? & ? & ? & ? & D2 & -> & -> & ->)]; [by left|]. right. split; [done|].
  exists (c :: l), (c :: l), []. split; [exact (done_trans p p1 p2 [c] l [c] l [] [] S D D2)|done].
Qed.

(** Counters that change nothing the scanner reads or writes. *)
Record same_io (p p' : parser) : Prop := {
  io_context : context p' = context p;
  io_remaining : remaining p' = remaining p;
  io_input : input p' = input p;
  io_cursor : cursor p' = cursor p;
  io_available : available p' = available p;
  io_core : core p' = core p;
  io_core_length : core_length p' = core_length p;
  io_limit : limit p' = limit p;
  io_capture : capture p' = capture p;
  io_output : output p' = output p;
  io_error : error p' = error p }.

Definition metrics_ok (p : parser) : Prop :=
  bytes_read (metrics p) + remaining p = frame /\ 0 <= bytes_read (metrics p) /\
  (error p = 0 -> 0 <= core_values (metrics p) <= IPERF_RESULT_CORE_MAX_VALUES) /\
  maximum_depth (metrics p) <= IPERF_RESULT_MAX_DEPTH /\
  peak_buffer_capacity (metrics p) <= IPERF_RESULT_CORE_MAX_BYTES + limit p + 2 /\
  core_json_bytes (metrics p) <= IPERF_RESULT_CORE_MAX_BYTES.

Lemma inv_metrics p : inv p -> metrics_ok p.
Proof. by intros []. Qed.

Lemma step_same p p' : inv p -> same_io p p' -> metrics_ok p' -> step p p'.
Proof.
  intros I [] (M1 & M2 & M3 & M4 & M5 & M6). split; [|unfold read_budget|congruence..].
  - destruct I. split; try congruence; try done. intros He.
    assert (bytes_read (metrics p') = bytes_read (metrics p)) as -> by lia.
    rewrite io_context0. apply i_unread0. congruence.
  - rewrite io_remaining0, io_available0, io_cursor0. lia.
Qed.

Lemma done_same p p' : error p = 0 -> same_io p p' -> done p [] [] [] p'.
Proof.
  intros He []. split; [|by apply emitted_same|congruence|].
  - unfold stream, pending. by rewrite io_input0, io_cursor0, io_remaining0, io_context0.
  - unfold read_budget. rewrite io_remaining0, io_available0, io_cursor0, zlen_nil. lia.
Qed.

(** [enter_value] returns true only within the limits. *)
Definition entered (p : parser) (depth : Z) (ok : bool) (p' : parser) : Prop :=
  step p p' /\
  (ok = false /\ error p' <> 0 \/
   ok = true /\ depth <= IPERF_RESULT_MAX_DEPTH /\ (error p = 0 -> done p [] [] [] p')).

(** The last step of [enter_value]: the limit on the values of the output. *)
Lemma enter_output_spec p : inv p -> capture p = OUTPUT_JSON ->
  wp (modify (fun p => set_output_values (output_values p + 1) p) ;;;
      p <- get ;;
      if (IPERF_RESULT_CORE_MAX_VALUES <? output_values p) &&
         bool_decide (out_state (output p) = IPERF_OUTPUT_COMPLETE)
      then discard_output IPERF_OUTPUT_DISCARDED ;;; set_reason IPERF_OUTPUT_NODE_LIMIT
      else ret tt)
    (fun _ p' => step p p' /\ (error p = 0 -> done p [] [] [] p')) p.
Proof.
  intros I Hc. wp_step. wp_step. set (p1 := set_output_values _ p).
  assert (same_io p p1) as Hs by done.
  assert (step p p1) as S1 by (apply step_same; [done|done|exact (inv_metrics p I)]).
  assert (error p = 0 -> done p [] [] [] p1) as D1 by (intros; by apply done_same).
  wp_step. wp_step. case_match eqn:E; [|by wp_step].
  unfold discard_output, set_reason. wp_step. wp_step. wp_step.
  assert (step p1 (set_output (mk_output None 0 (observed_bytes (output p1)) IPERF_OUTPUT_DISCARDED
    (out_format (output p1)) IPERF_OUTPUT_NODE_LIMIT (observed_bytes_complete (output p1))) p1)) as S2.
  { apply step_set_output; [apply (s_inv _ _ S1)|]. done. }
  split; [by eapply step_trans|]. intros He. eapply done_trans_l; [exact S1|by apply D1|].
  apply andb_true_iff in E as [_ E%bool_decide_eq_true].
  apply (done_set_output p1); [done..|]. split; [done|]. split; [done|]. intros _. right. auto.
Qed.

(** The limit on the values of the core document. *)
Lemma enter_core_spec p : inv p ->
  wp (modify (fun p => set_metrics (mk_metrics (bytes_read (metrics p)) (core_json_bytes (metrics p))
        (core_values (metrics p) + 1) (maximum_depth (metrics p)) (peak_buffer_capacity (metrics p))) p) ;;;
      n <- gets (fun p => core_values (metrics p)) ;;
      if IPERF_RESULT_CORE_MAX_VALUES <? n then fail EFBIG else ret true)
    (fun ok p' => step p p' /\
       (ok = false /\ error p' <> 0 \/ ok = true /\ (error p = 0 -> done p [] [] [] p'))) p.
Proof.
  intros I. wp_step. wp_step. set (p1 := set_metrics _ p). wp_step. wp_step.
  destruct (inv_metrics _ I) as (M1 & M2 & M3 & M4 & M5 & M6).
  assert (same_io p p1) as Hs by done.
  destruct (Z.ltb_spec IPERF_RESULT_CORE_MAX_VALUES (core_values (metrics p1))) as [Hv|Hv].
  - unfold fail. wp_step. wp_step. wp_step. destruct (Z.eqb_spec (error p1) 0) as [E|E].
    + split; [|by left]. split; [|unfold read_budget; simpl; lia|done..].
      destruct I. split; simpl; try done. unfold output_inv in *.
      destruct (out_value (output p)); [done|]. naive_solver.
    + split; [|by left]. apply step_same; [done..|]. repeat split; try done; by intros.
  - wp_step. split; [|right; split; [done|]; intros; by apply done_same].
    apply step_same; [done..|]. split; [done|]. split; [done|]. split; [|done].
    intros E. specialize (M3 E). simpl in *. lia.
Qed.

Lemma enter_value_spec depth p : inv p -> wp (enter_value depth) (entered p depth) p.
Proof.
  intros I. unfold enter_value. wp_step. wp_step.
  destruct (Z.ltb_spec IPERF_RESULT_MAX_DEPTH depth) as [|Hd].
  { eapply wp_mono; [by apply fail_spec|]. intros ok p' (S & -> & He). by split; [|left]. }
  wp_step. wp_step. set (p1 := set_values _ p).
  assert (step p p1) as S1 by (apply step_same; [done|done|exact (inv_metrics p I)]).
  assert (error p = 0 -> done p [] [] [] p1) as D1 by (intros; by apply done_same).
  destruct (Z.ltb_spec IPERF_RESULT_MAX_VALUES (values p + 1)).
  { eapply wp_mono; [by apply fail_spec; [apply (s_inv _ _ S1)|]|].
    intros ok p' (S & -> & He). split; [by eapply step_trans|by left]. }
  wp_step. wp_step. set (p2 := if _ <? _ then _ else p1).
  assert (same_io p1 p2) as IO2 by (unfold p2; by case_match).
  assert (step p1 p2) as S2.
  { apply step_same; [apply (s_inv _ _ S1)|done|].
    pose proof (inv_metrics _ (s_inv _ _ S1)) as (? & ? & ? & ? & ? & ?).
    unfold p2. case_match; repeat (split; [done|]); done. }
  assert (error p1 = 0 -> done p1 [] [] [] p2) as D2 by (intros; by apply done_same).
  assert (step p p2) as S02 by (by eapply step_trans).
  assert (error p = 0 -> done p [] [] [] p2) as D02.
  { intros He. eapply done_trans_l; [exact S1|auto|auto]. }
  wp_step. eapply (wp_mono _ (fun ok p' => step p p' /\
    (ok = false /\ error p' <> 0 \/ ok = true /\ (error p = 0 -> done p [] [] [] p')))).
  { destruct (decide (capture p = CORE)); [|wp_step; auto].
    eapply wp_mono; [apply enter_core_spec, (s_inv _ _ S02)|]. intros ok p3 [S3 H3].
    split; [by eapply step_trans|]. destruct H3 as [|[-> D3]]; [by left|]. right. split; [done|].
    intros He. eapply done_trans_l; [exact S02|auto|]. apply D3. by destruct (D02 He). }
  intros ok p3 [S3 [[-> He]|[-> D3]]]; simpl.
  { wp_step. by split; [|left]. }
  wp_step. destruct (decide (capture p = OUTPUT_JSON)) as [Hc|].
  - eapply wp_mono; [apply enter_output_spec; [apply (s_inv _ _ S3)|by rewrite (s_capture _ _ S3)]|].
    intros _ p4 [S4 D4]. wp_step. split; [by eapply step_trans|]. right. split; [done|]. split; [lia|].
    intros He. eapply done_trans_l; [exact S3|auto|]. apply D4. by destruct (D3 He).
  - wp_step. wp_step. split; [done|]. right. auto.
Qed.

Lemma done_error_before p c e t p' : step p p' -> done p c e t p' -> error p = 0.
Proof.
  intros S D. destruct (Z.eq_dec (error p) 0) as [|E]; [done|].
  destruct (step_error _ _ S E). by destruct D.
Qed.

(** An error so far, or [c] was consumed and [e] emitted, with [H] true of them. *)
Definition sofar (p0 : parser) (c e : list Z) (p : parser) : Prop :=
  step p0 p /\ (error p <> 0 \/ done p0 c e [] p).

Lemma sofar_done p0 c e p c' e' t' p' :
  sofar p0 c e p -> step p p' -> done p c' e' t' p' -> sofar p0 (c ++ c') (e ++ e') p' \/ t' <> [].
Proof.
  intros [S H] S' D. destruct t'; [|by right]. left. split; [by eapply step_trans|]. right.
  destruct H as [H|H]; [by destruct H; eapply done_error_before|].
  exact (done_trans _ _ _ _ _ _ _ _ _ S H D).
Qed.

Lemma sofar_step p0 c e p p' : sofar p0 c e p -> step p p' -> step p0 p'.
Proof. intros [S _] S'. by eapply step_trans. Qed.

Lemma sofar_seq {A} p0 c e p (m : PM bool) (K : PM A) G Q (f : A) :
  sofar p0 c e p -> wp m (result p G) p ->
  (forall p', step p0 p' -> error p' <> 0 -> Q f p') ->
  (forall p' c' e' t', sofar p0 (c ++ c') (e ++ e') p' \/ t' <> [] -> read_budget p' + zlen c' <= read_budget p ->
     error p' = 0 -> G c' e' t' -> wp K Q p') ->
  wp (ok <- m ;; if negb ok then ret f else K) Q p.
Proof.
  intros Hs Hm Hf Hk. eapply wp_seq; [exact Hm| |].
  - intros p' S E. apply Hf; [|done]. by eapply sofar_step.
  - intros p' c' e' t' S D HG. eapply Hk; [by eapply sofar_done| |by destruct D|done].
    pose proof (d_left _ _ _ _ _ D). lia.
Qed.

Lemma sofar_whitespace {A} p0 c e p fuel (K : PM A) Q :
  sofar p0 c e p -> read_budget p < Z.of_nat fuel ->
  (forall p' w, sofar p0 (c ++ w) e p' -> blanks w -> step p p' -> wp K Q p') ->
  wp (whitespace read fuel ;;; K) Q p.
Proof.
  intros [S H] Hf Hk. wp_step. eapply wp_mono; [by apply whitespace_spec; [apply (s_inv _ _ S)|]|].
  intros _ p' [S' H']. pose proof (step_trans _ _ _ S S') as S0. destruct H' as [H'|(w & Hw & D & _)].
  - apply (Hk p' []); [|by constructor|done]. split; [done|by left].
  - eapply (Hk p' w); [|done|done]. split; [done|]. right.
    destruct H as [H|H]; [by destruct H; eapply done_error_before|].
    rewrite <- (app_nil_r e). exact (done_trans _ _ _ _ _ _ _ _ _ S H D).
Qed.

(** [peek] shows [x] only without an error. *)
Lemma sofar_peek {A} p0 c e p (K : Z -> PM A) Q :
  sofar p0 c e p ->
  (forall p' x, sofar p0 c e p' -> step p p' -> (0 <= x -> ready p' x /\ error p' = 0 /\ byte_ok x) ->
     (error p' <> 0 -> x = -1) -> (x = -1 \/ 0 <= x) -> (x = -1 -> error p' = 0 -> read_budget p' = 0) ->
     wp (K x) Q p') ->
  wp (x <- peek read ;; K x) Q p.
Proof.
  intros Hs Hk. pose proof Hs as [S H]. wp_step.
  eapply wp_mono; [by apply peek_spec, (s_inv _ _ S)|]. intros x p' [S' H'].
  pose proof (step_trans _ _ _ S S') as S0.
  assert (sofar p0 c e p') as Hs'.
  { split; [done|]. destruct H as [H|H]; [left; exact (step_error _ _ S' H)|].
    destruct H' as [[_ ?]|[(_ & D & _)|(_ & D & _)]]; [by left|right..]; exact (done_trans_r _ _ _ _ _ _ S H D). }
  destruct H' as [[-> He]|[(-> & D & Hl)|(Hb & D & Hr)]].
  - apply (Hk p' (-1)); auto; try lia; done.
  - apply (Hk p' (-1)); auto; try lia.
  - pose proof (d_error _ _ _ _ _ D) as He. destruct Hb. apply (Hk p' x); auto; try lia; done.
Qed.

(** What [expect] at the end of a function adds. *)
Lemma sofar_expect p0 c e p x (G : list Z -> list Z -> list Z -> Prop) :
  sofar p0 c e p -> 0 <= x -> G (c ++ [x]) (e ++ [x]) [] ->
  wp (expect read x) (result p0 G) p.
Proof.
  intros Hs Hx HG. pose proof Hs as [S H]. eapply wp_mono; [by apply expect_spec; [apply (s_inv _ _ S)|]|].
  intros ok p' [S' H']. split; [by eapply step_trans|].
  destruct H' as [|(-> & ? & ? & ? & D & -> & -> & ->)]; [by left|]. right. split; [done|].
  destruct (sofar_done _ _ _ _ _ _ _ _ Hs S' D) as [[_ [E|D']]|]; [by destruct D| |done]. eauto 10.
Qed.

Definition valued (h : nat) (c e t : list Z) : Prop :=
  exists w v, blanks w /\ c = w ++ v /\ jval h v e /\ t = [].

(** The rest of the elements after blanks, up to the closing character. *)
Definition elements_post (h : nat) (object : bool) (c e t : list Z) : Prop :=
  exists cs es, c = cs ++ [close_char object] /\ e = es ++ [close_char object] /\ t = [] /\
    forall w0, blanks w0 -> jitems (jval h) object (w0 ++ cs) es.

(** A key and its colon. *)
Definition key_post (object : bool) (c e t : list Z) : Prop :=
  t = [] /\ if object then exists k w, jkey k /\ blanks w /\ c = k ++ w ++ [c_colon] /\ e = k ++ [c_colon]
            else c = [] /\ e = [].

(** A success flag where the success may still hide an error of [whitespace]. *)
Definition flagged (p : parser) (G : list Z -> list Z -> Prop) (ok : bool) (p' : parser) : Prop :=
  step p p' /\ (ok = false /\ error p' <> 0 \/ ok = true /\ exists c e, sofar p c e p' /\ G c e).

Lemma key_spec (object : bool) fuel p : inv p -> read_budget p < Z.of_nat fuel ->
  wp (if object then
        r <- string read fuel key_destination ;;
        if negb r.1 then ret false else whitespace read fuel ;;; expect read c_colon
      else ret true) (flagged p (fun c e => key_post object c e [])) p.
Proof.
  intros I Hf. destruct object.
  2:{ wp_step. pose proof (step_refl _ I) as S. split; [done|]. right. split; [done|]. exists [], [].
      split; [|done]. split; [done|]. destruct (Z.eq_dec (error p) 0); auto using done_refl. }
  wp_step. eapply wp_mono; [by apply string_spec|].
  intros r p1 [S1 [[-> E1]|(-> & k & t & D1 & vs & Hk & -> & Ha)]]; simpl.
  { wp_step. by split; [|left]. }
  eapply (sofar_whitespace p k k).
  { split; [done|by right]. }
  { pose proof (s_left _ _ S1). lia. }
  intros p2 w H2 Hw _.
  eapply wp_mono; [apply (sofar_expect p (k ++ w) k _ _ (key_post true) H2); [lia|]|].
  - split; [done|]. exists k, w. split; [|by rewrite <- app_assoc]. exists vs. split; [done|].
    destruct (r.2); [|done]. destruct Ha as (_ & _ & _ & Ha & _). by apply Ha.
  - intros ok p3 [S3 H3]. split; [done|]. destruct H3 as [|(-> & c & e & t & D3 & G)]; [by left|].
    right. split; [done|]. pose proof G as [-> _]. exists c, e. split; [|done]. split; [done|by right].
Qed.

Lemma elements_spec rec h L object fuel p :
  (forall p, inv p -> read_budget p < L -> wp rec (result p (valued h)) p) ->
  inv p -> read_budget p < Z.of_nat fuel -> read_budget p < L ->
  wp (elements read rec fuel object (close_char object)) (result p (elements_post h object)) p.
Proof.
  intros Hrec. revert p. induction fuel as [|fuel IH]; intros p I Hf HL;
    [pose proof (budget_nonneg _ I); lia|].
  cbn [elements]. wp_step. eapply wp_mono; [by apply key_spec|].
  intros ok p1 [S1 [[-> E1]|(-> & ck & ek & H1 & _ & Hk)]]; cbn [negb].
  { wp_step. by split; [|left]. }
  pose proof (s_left _ _ S1) as L1.
  eapply sofar_seq; [exact H1|apply Hrec; [apply (s_inv _ _ S1)|lia]| |].
  { intros p' S E. by split; [|left]. }
  intros p2 cv ev tv H2 L2 E2 (w & v & Hw & -> & Hv & ->). destruct H2 as [H2|]; [|done].
  pose proof (zlen_nonneg (w ++ v)) as Lz.
  eapply sofar_whitespace; [exact H2|lia|]. intros p3 w2 H3 Hw2 S3.
  eapply sofar_peek; [exact H3|]. intros p4 x H4 S4 _ _ _ _.
  pose proof (s_left _ _ S3) as L3. pose proof (s_left _ _ S4) as L4.
  assert (exists w1 it, blanks w1 /\ (ck ++ (w ++ v)) = w1 ++ it /\ jitem (jval h) object it (ek ++ ev)) as (w1 & it & Hw1 & Ec & Hit).
  { destruct object.
    - destruct Hk as (k & wk & Hk & Hwk & -> & ->). exists [], (k ++ wk ++ c_colon :: w ++ v).
      split; [constructor|]. split; [by rewrite <- !app_assoc|]. rewrite <- app_assoc. by constructor.
    - destruct Hk as [-> ->]. exists w, v. split; [done|]. split; [done|]. by constructor. }
  rewrite Ec in *. destruct (Z.eqb_spec x (close_char object)) as [->|].
  { eapply sofar_expect; [done|by destruct object|]. eexists _, _. split; [done|]. split; [done|].
    split; [done|]. intros w0 Hw0. rewrite <- !app_assoc, (app_assoc w0).
    constructor; [by apply Forall_app|done|done]. }
  eapply sofar_seq; [exact H4|apply expect_spec; [|lia]| |].
  { by destruct H4 as [[] _]. }
  { intros p' S E. by split; [|left]. }
  intros p5 ? ? ? H5 L5 E5 (-> & -> & ->). destruct H5 as [H5|]; [|done].
  rewrite zlen_cons, zlen_nil in L5.
  eapply sofar_whitespace; [exact H5|lia|]. intros p6 w3 H6 Hw3 S6.
  pose proof (s_left _ _ S6) as L6.
  eapply wp_mono; [apply IH; [by destruct H6 as [[] _]|lia|lia]|].
  intros ok p7 [S7 H7]. pose proof (sofar_step _ _ _ _ _ H6 S7) as S07. split; [done|].
  destruct H7 as [|(-> & ? & ? & ? & D7 & cs & es & -> & -> & -> & Hcs)]; [by left|]. right. split; [done|].
  destruct (sofar_done _ _ _ _ _ _ _ _ H6 S7 D7) as [[_ [E7|D07]]|]; [by destruct D7| |done].
  eexists _, _, _. split; [exact D07|].
  exists ((w1 ++ it) ++ w2 ++ [c_comma] ++ w3 ++ cs), ((ek ++ ev) ++ [c_comma] ++ es).
  split; [by rewrite <- !app_assoc|]. split; [by rewrite <- !app_assoc|]. split; [done|].
  intros w0 Hw0. rewrite <- (app_assoc w1), (app_assoc w0). simpl.
  apply jitems_more; [by apply Forall_app|done|done|]. by apply Hcs.
Qed.

(** The value, and the scalars it delivers when it is a string. *)
Definition value_post (dest : option decoded) (h : nat) (c e t : list Z) : Prop :=
  exists w v vs, blanks w /\ c = w ++ v /\ jval h v e /\ t = text_of dest vs /\
    (jstr v vs /\ e = v \/ vs = [] /\ head v <> Some c_quote).

Lemma value_post_valued h c e t : value_post None h c e t -> valued h c e t.
Proof. intros (w & v & vs & ? & ? & ? & -> & _). by exists w, v. Qed.

Lemma sofar_result p0 w p (m : PM bool) G (H : list Z -> list Z -> list Z -> Prop) :
  sofar p0 w [] p -> wp m (result p G) p ->
  (forall c e t p', done p c e t p' -> G c e t -> H (w ++ c) e t) -> wp m (result p0 H) p.
Proof.
  intros [S Hs] Hm HG. eapply wp_mono; [exact Hm|]. intros ok p' [S' H'].
  split; [by eapply step_trans|]. destruct H' as [|(-> & c & e & t & D & Hc)]; [by left|].
  right. split; [done|]. exists (w ++ c), e, t. split; [|eauto].
  destruct Hs as [E|D0]; [by destruct E; eapply done_error_before|].
  exact (done_trans p0 p p' w c [] e [] t S D0 D).
Qed.

(** A value that does not start with a quote. *)
Lemma plain_value p0 w x p (m : PM bool) dest h :
  sofar p0 w [] p -> blanks w -> ready p x -> x <> c_quote ->
  wp m (result p (fun c e t => jval h c e /\ t = [])) p -> wp m (result p0 (value_post dest h)) p.
Proof.
  intros Hs Hw Hr Hx Hm. eapply sofar_result; [exact Hs|exact Hm|].
  intros c e t p' D (Hv & ->). exists w, c, []. split; [done|]. split; [done|]. split; [done|].
  rewrite text_of_nil. split; [done|]. right. split; [done|].
  destruct (ready_stream _ _ Hr) as [rest E]. rewrite (d_stream _ _ _ _ _ D) in E.
  destruct c; simplify_eq/=; congruence.
Qed.

Lemma jval_token h t : jtoken t -> jval h t t.
Proof. intros Ht. destruct h; left; done. Qed.

Lemma literal_tokens x : x = c_t \/ x = c_f \/ x = c_n ->
  let l := if x =? c_t then lit_true else if x =? c_f then lit_false else lit_null in
  jliteral l /\ Forall (fun c => 0 <= c) l.
Proof. unfold jliteral. intros [-> |[-> | ->]]; (split; [by simpl; auto|]); repeat constructor; lia. Qed.

(** An array or object, after its opening character was seen. *)
Lemma container_spec rec h fuel object p :
  (forall p, inv p -> read_budget p < Z.of_nat fuel -> wp rec (result p (valued h)) p) ->
  inv p -> error p = 0 -> read_budget p < Z.of_nat fuel -> ready p (open_char object) ->
  wp (take read ;;; whitespace read fuel ;;;
      c <- peek read ;;
      if c =? close_char object then expect read (close_char object)
      else elements read rec fuel object (close_char object))
    (result p (fun c e t => jval (S h) c e /\ t = [])) p.
Proof.
  intros Hrec I He Hf Hr. wp_step.
  eapply wp_mono; [by eapply take_shown_spec; [apply step_refl|apply done_refl|]|].
  intros x0 p1 H1. change (sofar p [open_char object] [open_char object] p1) in H1.
  assert (step p p1) as S1 by (by destruct H1). pose proof (s_left _ _ S1) as L1.
  eapply sofar_whitespace; [exact H1|lia|]. intros p2 w H2 Hw S2. pose proof (s_left _ _ S2) as L2.
  eapply sofar_peek; [exact H2|]. intros p3 x H3 S3 _ _ _ _. pose proof (s_left _ _ S3) as L3.
  destruct (Z.eqb_spec x (close_char object)) as [->|].
  - eapply sofar_expect; [exact H3|by destruct object|]. split; [|done]. right. exists object. left.
    exists w. done.
  - eapply wp_mono; [apply (elements_spec rec h (Z.of_nat fuel)); [done|by destruct H3 as [[] _]|lia|lia]|].
    intros ok p4 [S4 H4]. pose proof (sofar_step _ _ _ _ _ H3 S4) as S04. split; [done|].
    destruct H4 as [|(-> & ? & ? & ? & D4 & cs & es & -> & -> & -> & Hcs)]; [by left|].
    right. split; [done|].
    destruct (sofar_done _ _ _ _ _ _ _ _ H3 S4 D4) as [[_ [E4|D04]]|]; [by destruct D4| |done].
    eexists _, _, _. split; [exact D04|]. split; [|done]. right. exists object. right.
    exists (w ++ cs), es. split; [by apply Hcs|]. simpl. by rewrite <- app_assoc.
Qed.

Lemma value_spec levels fuel depth dest p :
  inv p -> read_budget p < Z.of_nat fuel -> dest_ok dest p -> 66 <= depth + Z.of_nat levels -> 1 <= depth ->
  wp (value read levels fuel depth dest) (result p (value_post dest (Z.to_nat (65 - depth)))) p.
Proof.
  revert depth dest p. induction levels as [|levels IH]; intros depth dest p I Hf Hd Hl H1; simpl.
  all: wp_step; eapply wp_mono; [by apply enter_value_spec|].
  all: intros ok p1 [S1 [[-> E1]|(-> & Hm & D1)]]; cbn [negb]; [by wp_step; split; [|left]|].
  all: unfold IPERF_RESULT_MAX_DEPTH in Hm.
  { lia. }
  assert (sofar p [] [] p1) as Hs1.
  { split; [done|]. destruct (Z.eq_dec (error p) 0); [auto|]. left. by apply (step_error _ _ S1). }
  pose proof (s_left _ _ S1) as L1.
  eapply sofar_whitespace; [exact Hs1|lia|]. intros p2 w Hs2 Hw S2. pose proof (s_left _ _ S2) as L2.
  eapply sofar_peek; [exact Hs2|]. intros p3 x Hs3 S3 Hx Hxe Hx1 _. pose proof (s_left _ _ S3) as L3.
  simpl in Hs3. assert (inv p3) as I3 by (by destruct (Hs3) as [[] _]).
  destruct (Z.eqb_spec x c_quote) as [->|Hq].
  { destruct (Hx ltac:(lia)) as (Hr & E3 & _).
    eapply (sofar_result _ _ _ _ (fun c e t => e = c /\ exists vs, jstr c vs /\ t = text_of dest vs));
      [exact Hs3| |].
    - wp_step. eapply wp_mono; [apply (string_spec fuel dest); [done| |lia]|].
      { destruct dest as [d|]; [|done]. destruct Hd as [Hd1 Hd2]. split; [done|].
        intros. destruct Hs3 as [[] _]. rewrite s_capture0. auto. }
      intros r p4 [S4 [[-> E4]|(-> & c & t & D4 & Hc)]]; wp_step; (split; [done|]); [by left|].
      right. split; [done|]. exists c, c, t. split; [done|]. naive_solver.
    - intros c e t p' _ (-> & vs & Hj & ->). exists w, c, vs. split; [done|]. split; [done|].
      split; [apply jval_token; left; eauto|]. split; [done|]. left. done. }
  destruct (Z.eq_dec x (-1)) as [->|Hn1].
  { simpl. destruct Hs3 as [S03 _]. eapply wp_mono; [by apply fail_spec|].
    intros ok p4 (S4 & -> & E4). split; [by eapply step_trans|by left]. }
  destruct (Hx ltac:(lia)) as (Hr & E3 & Hb).
  destruct ((x =? c_minus) || digit x) eqn:En.
  { eapply plain_value; [done..|]. eapply wp_mono; [apply number_spec; [done|lia]|].
    intros ok p4 [S4 H4]. split; [done|]. destruct H4 as [|(-> & c & e & t & D & Hj & -> & ->)]; [by left|].
    right. split; [done|]. exists c, c, []. split; [done|]. split; [|done].
    apply jval_token. right. by left. }
  destruct ((x =? c_t) || (x =? c_f) || (x =? c_n)) eqn:Et.
  { rewrite !orb_true_iff, !Z.eqb_eq in Et. destruct (literal_tokens x) as [Hj Hp]; [tauto|].
    eapply plain_value; [done..|]. eapply wp_mono; [by apply literal_spec|].
    intros ok p4 [S4 H4]. split; [done|]. destruct H4 as [|(-> & c & e & t & D & -> & -> & ->)]; [by left|].
    right. split; [done|]. eexists _, _, []. split; [done|]. split; [|done].
    apply jval_token. right. by right. }
  destruct (negb (x =? c_lbrack) && negb (x =? c_lbrace)) eqn:Eo.
  { destruct Hs3 as [S03 _]. eapply wp_mono; [by apply fail_spec|].
    intros ok p4 (S4 & -> & E4). split; [by eapply step_trans|by left]. }
  eapply plain_value; [done..|].
  replace (Z.to_nat (65 - depth)) with (S (Z.to_nat (65 - (depth + 1)))) by lia.
  assert (x = open_char (x =? c_lbrace)) as Ex.
  { destruct (Z.eqb_spec x c_lbrace) as [->|]; [done|]. simpl in *.
    destruct (Z.eqb_spec x c_lbrack) as [->|]; [done|]. done. }
  apply (container_spec _ _ fuel (x =? c_lbrace)); try done; [|lia|by rewrite <- Ex].
  intros p4 I4 Hf4. eapply wp_mono; [apply IH; [done..|lia|lia]|].
  intros ok p5 [S5 H5]. split; [done|]. destruct H5 as [|(-> & c & e & t & D & Hv)]; [by left|].
  right. split; [done|]. exists c, e, t. split; [done|]. by apply value_post_valued.
Qed.
End Spec.

#[global] Arguments s_inv {Ctx stream_of frame p p'}.
#[global] Arguments s_left {Ctx stream_of frame p p'}.
#[global] Arguments s_capture {Ctx stream_of frame p p'}.
#[global] Arguments s_limit {Ctx stream_of frame p p'}.
#[global] Arguments d_stream {Ctx stream_of p c e t p'}.
#[global] Arguments d_emitted {Ctx stream_of p c e t p'}.
#[global] Arguments d_error {Ctx stream_of p c e t p'}.
#[global] Arguments d_left {Ctx stream_of p c e t p'}.
