(* ===== verification/CJsonSpec.v ===== *)
(** * cJSON accepts the compact grammar

    Every compact text of the grammar is parsed by [cJSON_ParseWithLengthOpts]
    to the tree it denotes, without leaving the buffer or the strings it
    allocates; the only possible failure is an allocation that fails. *)

From S2P Require Import Prelude Bytes Double JsonGrammar CJson.
Import Parse.
Local Open Scope c_scope.

(** ** What a text denotes *)

(** The C string a list of scalars becomes. *)
Definition text_of_scalars (vs : list Z) : list Z := cstr (concat (utf8_encode <$> vs)).

Definition literal_node (t : list Z) (j : cJSON) : Prop :=
  t = txt_null /\ j = Node cJSON_NULL [] None 0 D_zero None \/
  t = txt_false /\ j = Node cJSON_False [] None 0 D_zero None \/
  t = txt_true /\ j = Node cJSON_True [] None 1 D_zero None.

Definition token_node (t : list Z) (j : cJSON) : Prop :=
  (exists vs, jstr t vs /\ j = Node cJSON_String [] (Some (text_of_scalars vs)) 0 D_zero None) \/
  (jnumber t /\ j = Node cJSON_Number [] None (saturate (strtod t).1) (strtod t).1 None) \/
  literal_node t j.

Section Items.
Context (val : list Z -> cJSON -> Prop).

Inductive item_node : bool -> list Z -> cJSON -> Prop :=
| item_element e j : val e j -> item_node false e j
| item_member k vs e j : jstr k vs -> val e j ->
    item_node true (k ++ c_colon :: e) (set_jstring (Some (text_of_scalars vs)) j).

Inductive items_nodes (object : bool) : list Z -> list cJSON -> Prop :=
| items_one e j : item_node object e j -> items_nodes object e [j]
| items_more e j es js : item_node object e j -> items_nodes object es js ->
    items_nodes object (e ++ c_comma :: es) (j :: js).
End Items.

Definition container_type (object : bool) : Z := if object then cJSON_Object else cJSON_Array.

(** The tree [j] of the compact text [e], nested at most [h] deep. *)
Fixpoint tree (h : nat) (e : list Z) (j : cJSON) : Prop :=
  token_node e j \/
  match h with
  | O => False
  | S h => exists object,
      (e = [open_char object; close_char object] /\ j = Node (container_type object) [] None 0 D_zero None) \/
      (exists es js, items_nodes (tree h) object es js /\
         e = open_char object :: es ++ [close_char object] /\
         j = Node (container_type object) js None 0 D_zero None)
  end.

(** ** Numbers: [strtod] uses the whole text *)

Lemma take_digits_app acc n ds l :
  Forall jdigit ds -> match l with [] => True | c :: _ => is_digit c = false end ->
  exists m, take_digits acc n (ds ++ l) = (m, (n + length ds)%nat, l).
Proof.
  intros Hd Hl. revert acc n. induction Hd as [|d ds Hd _ IH]; intros acc n; simpl.
  - exists acc. rewrite Nat.add_0_r. destruct l as [|c l]; simpl; [done|]. by rewrite Hl.
  - unfold is_digit. unfold jdigit in Hd.
    rewrite (proj2 (Z.leb_le c_0 d)), (proj2 (Z.leb_le d c_9)) by lia. simpl.
    destruct (IH (acc * 10 + (d - c_0)) (S n)) as [m E]. exists m. rewrite E. do 2 f_equal. lia.
Qed.

Lemma take_exponent_jexp e : jexp e -> (take_exponent e).2 = length e.
Proof.
  destruct 1 as [|e s c l He Hs Hd]; [done|]. simpl.
  replace ((e =? c_e) || (e =? c_E)) with true by (destruct He as [-> | ->]; done).
  assert (take_sign (s ++ c :: l) = (bool_decide (s = [c_minus]), length s, c :: l)) as ->.
  { assert (jdigit c) as Hc by (by inversion Hd). unfold jdigit in Hc.
    destruct Hs as [-> |[-> | ->]]; simpl; try done.
    rewrite (proj2 (Z.eqb_neq c c_minus)), (proj2 (Z.eqb_neq c c_plus)) by lia. done. }
  destruct (take_digits_app 0 0 (c :: l) [] Hd I) as [m E]. rewrite app_nil_r in E. rewrite E. simpl.
  rewrite length_app. simpl. lia.
Qed.

Lemma jexp_not_digit e : jexp e -> match e with [] => True | c :: _ => is_digit c = false end.
Proof. destruct 1 as [|e s c l [-> | ->] _ _]; done. Qed.

Lemma jfrac_exp_head f e : jfrac f -> jexp e ->
  match f ++ e with [] => True | c :: _ => is_digit c = false end.
Proof. destruct 1; [apply jexp_not_digit|done]. Qed.

Lemma jint_digits_all i : jint i -> Forall jdigit i /\ i <> [].
Proof.
  destruct 1 as [|c l Hc Hl]; (split; [|done]); constructor; try done; unfold jdigit; lia.
Qed.

(** The integer, fraction and exponent after the sign. *)
Lemma strtod_jnumber t : jnumber t -> (strtod t).2 = length t /\ t <> [].
Proof.
  intros (s & i & f & e & -> & Hs & Hi & Hf & He & _). destruct (jint_digits_all i Hi) as [Hd Hn].
  split; [|by destruct s, i]. unfold strtod.
  assert (take_sign (s ++ i ++ f ++ e) = (bool_decide (s = [c_minus]), length s, i ++ f ++ e)) as ->.
  { destruct Hs as [-> | ->]; [|done]. destruct Hd as [|c l Hc _]; [done|]. simpl. unfold jdigit in Hc.
    rewrite (proj2 (Z.eqb_neq c c_minus)), (proj2 (Z.eqb_neq c c_plus)) by lia. done. }
  destruct (take_digits_app 0 0 i (f ++ e) Hd (jfrac_exp_head f e Hf He)) as [m ->].
  pose proof (take_exponent_jexp e He) as Hx. simpl (0 + _)%nat.
  assert (length i <> 0%nat) as Hli by (by destruct i).
  destruct Hf as [|c l Hl].
  - simpl. replace (match e with [] => _ | _ :: _ => _ end)
      with (m, length i, 0%nat, e) by (destruct He as [|? ? ? ? [-> | ->] _ _]; done).
    destruct (length i) eqn:El; [done|]. destruct (take_exponent e). simpl in *.
    rewrite !length_app, El. simpl. lia.
  - simpl. destruct (take_digits_app m 0 (c :: l) e Hl (jexp_not_digit e He)) as [m2 E].
    simpl in E. rewrite E. destruct (length i + S (length l))%nat eqn:El; [lia|].
    destruct (take_exponent e). simpl in *. rewrite !length_app. simpl. rewrite length_app. simpl. lia.
Qed.

(** ** Escapes: both decoders build the same bytes *)

Lemma cont_byte x : 0 <= x < 256 -> Z.land (Z.lor x 128) 191 = 128 + x mod 64.
Proof.
  intros Hx.
  assert (forallb (fun n => Z.land (Z.lor (Z.of_nat n) 128) 191 =? 128 + Z.of_nat n mod 64) (seq 0 256) = true) as H
    by (vm_compute; reflexivity).
  rewrite forallb_forall in H. specialize (H (Z.to_nat x) ltac:(apply in_seq; lia)).
  rewrite Z2Nat.id in H by lia. by apply Z.eqb_eq.
Qed.

Lemma u8_mod64 x : u8 x mod 64 = x mod 64.
Proof. unfold wrapu. apply Z.mod_mod_divide. by exists 4. Qed.

Lemma codepoint_utf8_encode v : 0 <= v <= 1114111 -> codepoint_utf8 v = utf8_encode v.
Proof.
  intros Hv. rewrite utf8_encode_arith by lia. unfold codepoint_utf8. cbv zeta.
  rewrite !cont_byte by (apply (wrapu_range 8); lia). rewrite !u8_mod64, !Z.shiftr_div_pow2 by lia.
  change (2 ^ 6) with 64. change (2 ^ 12) with 4096. change (2 ^ 18) with 262144.
  assert (forall k n x, 0 <= n -> 0 <= x < 2 ^ n -> 0 <= k * 2 ^ n + x < 256 ->
    Z.land (Z.lor x (k * 2 ^ n)) 255 = k * 2 ^ n + x) as Hlead.
  { intros k n x Hn Hx Hk. rewrite Z.lor_comm, lor_add by lia. rewrite (land_mod _ 8) by lia.
    apply Z.mod_small. lia. }
  destruct (Z.ltb_spec v 128), (Z.leb_spec v 127); try lia.
  { rewrite (land_mod _ 7) by lia. by rewrite Z.mod_small by lia. }
  destruct (Z.ltb_spec v 2048), (Z.leb_spec v 2047); try lia.
  { rewrite (Hlead 6 5); [done|lia| |]; Z.to_euclidean_division_equations; lia. }
  destruct (Z.ltb_spec v 65536), (Z.leb_spec v 65535); try lia.
  { rewrite (Hlead 14 4); [done|lia| |]; Z.to_euclidean_division_equations; lia. }
  rewrite (Hlead 30 3); [done|lia| |]; Z.to_euclidean_division_equations; lia.
Qed.

Lemma hex4_digit_hexval c : hex4_digit c = hexval c.
Proof.
  unfold hex4_digit, hexval. destruct ((c_0 <=? c) && (c <=? c_9)); [done|].
  destruct ((c_A <=? c) && (c <=? c_F)) eqn:E1, ((c_a <=? c) && (c <=? c_f)) eqn:E2; try done.
  - rewrite !andb_true_iff, !Z.leb_le in *. lia.
  - f_equal. lia.
  - f_equal. lia.
Qed.

Lemma simple_escape_scalar c v : escape_scalar c = Some v -> simple_escape c = Some v /\ 0 <= v <= 127.
Proof.
  unfold escape_scalar, simple_escape. intros H.
  destruct (Z.eqb_spec c c_b), (Z.eqb_spec c c_f), (Z.eqb_spec c c_n), (Z.eqb_spec c c_r), (Z.eqb_spec c c_t);
    subst; simpl in *; try lia; try (simplify_eq; split; [done|lia]).
  destruct ((c =? c_quote) || (c =? c_bslash) || (c =? c_slash)) eqn:E; [|done]. simplify_eq.
  rewrite !orb_true_iff, !Z.eqb_eq in E. split; [done|lia].
Qed.

Lemma encode_ascii v : 0 <= v <= 127 -> utf8_encode v = [v].
Proof. intros. rewrite utf8_encode_arith, (proj2 (Z.leb_le v 127)) by lia. done. Qed.

(** The scalar of a surrogate pair, as each decoder computes it. *)
Lemma pair_scalar v1 v2 : high_surrogate v1 -> low_surrogate v2 ->
  65536 + Z.lor (Z.shiftl (Z.land v1 1023) 10) (Z.land v2 1023) =
  u32 (65536 + Z.shiftl (v1 - 55296) 10 + v2 - 56320).
Proof.
  unfold high_surrogate, low_surrogate. intros H1 H2. rewrite !(land_mod _ 10) by lia.
  change (2 ^ 10) with 1024.
  replace (v1 mod 1024) with (v1 - 55296) by (apply (Z.mod_unique _ _ 54); lia).
  replace (v2 mod 1024) with (v2 - 56320) by (apply (Z.mod_unique _ _ 55); lia).
  rewrite lor_shiftl, Z.shiftl_mul_pow2, wrapu_small by lia. lia.
Qed.

(** ** The buffer *)

Section Buffer.
Context (content : list Z) (alloc : nat -> bool).
#[local] Abbreviation blength := (zlen content).

(** The text from an index on, and from the offset on. *)
Definition text_at (i : Z) (r : list Z) : Prop := exists pre, content = pre ++ r /\ i = zlen pre.
Definition at_text (b : parse_buffer) (r : list Z) : Prop := text_at (offset b) r.

Lemma text_at_move i l r : text_at i (l ++ r) -> text_at (i + zlen l) r.
Proof. intros (pre & E & ->). exists (pre ++ l). by rewrite <- app_assoc, zlen_app. Qed.

Lemma text_at_index i c r b : text_at i (c :: r) -> at_index content i b = Ret (c, b).
Proof.
  intros (pre & E & ->). unfold at_index. pose proof (zlen_nonneg pre).
  rewrite (proj2 (Z.ltb_ge _ _)) by lia. unfold zlen. rewrite Nat2Z.id, E.
  by rewrite lookup_app_r, Nat.sub_diag by lia.
Qed.

Lemma text_at_next i c r : text_at i (c :: r) -> text_at (i + 1) r.
Proof. apply (text_at_move i [c] r). Qed.

Lemma text_at_end i r : text_at i r -> blength = i + zlen r.
Proof. intros (pre & Ec & ->). by rewrite Ec, zlen_app. Qed.

Lemma at_text_lookup b r i c : at_text b r -> 0 <= i -> r !! Z.to_nat i = Some c ->
  forall b', at_index content (offset b + i) b' = Ret (c, b').
Proof.
  intros (pre & E & ->) Hi Hr b'. unfold at_index. pose proof (zlen_nonneg pre).
  rewrite (proj2 (Z.ltb_ge _ _)) by lia. rewrite E, lookup_app_r by (unfold zlen; lia).
  replace (Z.to_nat (zlen pre + i) - length pre)%nat with (Z.to_nat i) by (unfold zlen; lia). by rewrite Hr.
Qed.

Lemma at_text_end b r : at_text b r -> blength = offset b + zlen r.
Proof. intros (pre & Ec & ->). by rewrite Ec, zlen_app. Qed.

Lemma at_text_nonneg b r : at_text b r -> 0 <= offset b.
Proof. intros (pre & _ & ->). apply zlen_nonneg. Qed.

Lemma at_text_move b l r b' : at_text b (l ++ r) -> offset b' = offset b + zlen l -> at_text b' r.
Proof. intros (pre & Ec & E) Eo. exists (pre ++ l). by rewrite <- app_assoc, zlen_app, <- E. Qed.

Lemma at_text_same b b' r : at_text b r -> offset b' = offset b -> at_text b' r.
Proof. intros (pre & Ec & E) Eo. exists pre. by rewrite Eo. Qed.

Lemma can_access_spec i b r : at_text b r -> can_access blength i b = Ret (i <? zlen r, b).
Proof.
  intros H. unfold can_access, gets. rewrite (at_text_end _ _ H). do 2 f_equal.
  destruct (Z.ltb_spec (offset b + i) (offset b + zlen r)), (Z.ltb_spec i (zlen r)); lia.
Qed.

Lemma here_spec b c r : at_text b (c :: r) -> here content b = Ret (c, b).
Proof.
  intros H. pose proof (at_text_lookup b _ 0 c H ltac:(lia) eq_refl b) as E.
  unfold here, bind, gets. by rewrite Z.add_0_r in E.
Qed.

Lemma here_is_spec x b c r : at_text b (c :: r) -> here_is content blength x b = Ret (c =? x, b).
Proof.
  intros H. unfold here_is, bind. rewrite (can_access_spec 0 b _ H).
  rewrite (proj2 (Z.ltb_lt 0 _)) by (rewrite zlen_cons; pose proof (zlen_nonneg r); lia).
  by rewrite (here_spec _ _ _ H).
Qed.

(** No blanks to skip. *)
Lemma skip_none ws b c r : at_text b (c :: r) -> 32 < c ->
  buffer_skip_whitespace content blength ws b = Ret (tt, b).
Proof.
  intros H Hc. assert (can_access blength 0 b = Ret (true, b)) as Ha.
  { rewrite (can_access_spec 0 b _ H). rewrite zlen_cons. pose proof (zlen_nonneg r). do 2 f_equal.
    apply Z.ltb_lt. lia. }
  unfold buffer_skip_whitespace, bind. rewrite Ha. simpl.
  assert (skip_loop content blength ws b = Ret (tt, b)) as ->.
  { destruct ws; simpl; unfold bind; rewrite Ha, (here_spec _ _ _ H), (proj2 (Z.leb_gt c 32)) by lia; done. }
  unfold gets. rewrite (at_text_end _ _ H), zlen_cons. pose proof (zlen_nonneg r).
  rewrite (proj2 (Z.eqb_neq _ _)) by lia. done.
Qed.

(** [strncmp] against a literal. *)
Fixpoint starts (l r : list Z) : bool :=
  match l, r with
  | [], _ => true
  | _, [] => false
  | c :: l, x :: r => (x =? c) && starts l r
  end.

Lemma same_text_spec l r i b : zlen l <= zlen r ->
  (forall j c, r !! j = Some c -> at_index content (i + Z.of_nat j) b = Ret (c, b)) ->
  same_text content i l b = Ret (starts l r, b).
Proof.
  revert r i. induction l as [|c l IH]; intros [|x r] i Hl Hi; simpl; try done.
  unfold bind. pose proof (Hi 0%nat x eq_refl) as E. rewrite Z.add_0_r in E. rewrite E.
  destruct (Z.eqb_spec x c) as [->|]; [|done]. simpl. apply IH.
  - rewrite !zlen_cons in Hl. lia.
  - intros j y Hy. specialize (Hi (S j) y Hy). by replace (i + 1 + Z.of_nat j) with (i + Z.of_nat (S j)) by lia.
Qed.

Lemma starts_short l r : zlen r < zlen l -> starts l r = false.
Proof.
  revert r. induction l as [|c l IH]; intros r H.
  - rewrite zlen_nil in H. pose proof (zlen_nonneg r). lia.
  - destruct r as [|x r]; [done|]. rewrite !zlen_cons in H. simpl. rewrite IH by lia. apply andb_false_r.
Qed.

Lemma looking_at_spec l b r : at_text b r -> looking_at content blength l b = Ret (starts l r, b).
Proof.
  intros H. unfold looking_at, bind, can_read, gets. rewrite (at_text_end _ _ H).
  destruct (Z.leb_spec (offset b + zlen l) (offset b + zlen r)).
  - apply same_text_spec; [lia|]. intros j c Hj. apply (at_text_lookup b r (Z.of_nat j)); [done|lia|].
    by rewrite Nat2Z.id.
  - rewrite starts_short by lia. done.
Qed.

Lemma starts_app l r : starts l (l ++ r) = true.
Proof. induction l as [|c l IH]; simpl; [done|]. by rewrite Z.eqb_refl, IH. Qed.

Lemma starts_head c l x r : x <> c -> starts (c :: l) (x :: r) = false.
Proof. intros H. simpl. by rewrite (proj2 (Z.eqb_neq _ _)). Qed.

(** ** Results *)

(** The item and the offset after it, or a failed allocation. *)
Definition parsed {A} (b : parse_buffer) (e : list Z) (P : A -> Prop) (r : option A) (b' : parse_buffer) : Prop :=
  r = None /\ oom b' = true \/
  exists a, r = Some a /\ P a /\ offset b' = offset b + zlen e /\ depth b' = depth b.

Definition allocated (ok : bool) (b b' : parse_buffer) : Prop :=
  offset b' = offset b /\ depth b' = depth b /\ (ok = false -> oom b' = true).

Lemma allocate_spec b : wp (allocate alloc) (fun ok b' => allocated ok b b') b.
Proof.
  unfold allocate. wp_step. wp_step. cbv zeta. wp_step. wp_step. wp_step. split; [done|]. split; [done|].
  intros E. simpl. by rewrite E, orb_true_r.
Qed.

(** ** Numbers *)

Lemma number_char_jdigit c : jdigit c -> number_char c = true.
Proof. unfold jdigit, number_char, is_digit. intros. by rewrite (proj2 (Z.leb_le c_0 c)), (proj2 (Z.leb_le c c_9)) by lia. Qed.

Lemma jnumber_number_char t : jnumber t -> Forall (fun c => number_char c = true) t.
Proof.
  intros (s & i & f & e & -> & Hs & Hi & Hf & He & _). destruct (jint_digits_all i Hi) as [Hd _].
  assert (forall l, Forall jdigit l -> Forall (fun c => number_char c = true) l) as D.
  { intros l Hl. eapply Forall_impl; [exact Hl|]. apply number_char_jdigit. }
  repeat apply Forall_app_2; auto.
  - by destruct Hs as [-> | ->]; repeat constructor.
  - destruct Hf; constructor; auto.
  - destruct He as [|x s' c l He Hs' Hl]; constructor; [by destruct He as [-> | ->]|].
    apply Forall_app_2; [|auto]. by destruct Hs' as [-> |[-> | ->]]; repeat constructor.
Qed.

Lemma number_text_spec n t x r b i :
  (forall j c, (t ++ x :: r) !! j = Some c -> at_index content (offset b + i + Z.of_nat j) b = Ret (c, b)) ->
  offset b + i + zlen (t ++ x :: r) <= blength ->
  Forall (fun c => number_char c = true) t -> number_char x = false -> (length t <= n)%nat ->
  number_text content blength n i b = Ret (t, b).
Proof.
  revert n i. induction t as [|c t IH]; intros n i Hi Hb Ht Hx Hn.
  - destruct n; [done|]. simpl. unfold bind, can_access, gets.
    pose proof (zlen_nonneg r). simpl in Hb. rewrite zlen_cons in Hb.
    rewrite (proj2 (Z.ltb_lt _ _)) by lia. pose proof (Hi 0%nat x eq_refl) as E.
    rewrite Z.add_0_r in E. by rewrite E, Hx.
  - destruct n as [|n]; [simpl in Hn; lia|]. simpl. unfold bind, can_access, gets.
    pose proof (zlen_nonneg (t ++ x :: r)) as Hz. simpl in Hb. rewrite zlen_cons in Hb.
    rewrite (proj2 (Z.ltb_lt _ _)) by lia. pose proof (Hi 0%nat c eq_refl) as E.
    rewrite Z.add_0_r in E. inversion_clear Ht as [|? ? Hc Ht']. rewrite E, Hc.
    rewrite (IH n (i + 1)); try done; [|lia|simpl in Hn; lia].
    intros j y Hj. specialize (Hi (S j) y Hj).
    by replace (offset b + (i + 1) + Z.of_nat j) with (offset b + i + Z.of_nat (S j)) by lia.
Qed.

(** The characters that may follow a value in a compact text. *)
Definition follows (x : Z) : Prop := x = c_comma \/ x = c_rbrack \/ x = c_rbrace \/ x = 0.

Lemma follows_number x : follows x -> number_char x = false.
Proof. by intros [-> |[-> |[-> | ->]]]. Qed.

Lemma parse_number_spec t x r b : jnumber t -> at_text b (t ++ x :: r) -> follows x ->
  wp (parse_number content blength)
    (parsed b t (fun j => j = Node cJSON_Number [] None (saturate (strtod t).1) (strtod t).1 None)) b.
Proof.
  intros Ht Hb Hx. destruct (strtod_jnumber t Ht) as [Hu Hn]. unfold parse_number, wp, bind.
  rewrite (number_text_spec 63 t x r b 0); try done.
  - destruct (strtod t) as [d used] eqn:Es. simpl in Hu. subst used.
    destruct t as [|c t]; [done|]. cbn [length]. right.
    by exists (Node cJSON_Number [] None (saturate d) d None).
  - intros j c Hj. rewrite Z.add_0_r. apply (at_text_lookup b (t ++ x :: r) (Z.of_nat j)); [done|lia|]. by rewrite Nat2Z.id.
  - rewrite (at_text_end _ _ Hb). lia.
  - by apply jnumber_number_char.
  - by apply follows_number.
  - destruct Ht as (? & ? & ? & ? & -> & _ & _ & _ & _ & Hl). unfold zlen in Hl. lia.
Qed.

(** ** Strings: finding the end *)

Definition plain (c : Z) : Prop := c <> c_quote /\ c <> c_bslash.

Lemma string_end_plain fuel i sk c r b : text_at i (c :: r) -> plain c ->
  string_end content blength (S fuel) i sk b = string_end content blength fuel (i + 1) sk b.
Proof.
  intros H [H1 H2]. cbn [string_end]. pose proof (text_at_end _ _ H) as E. rewrite zlen_cons in E.
  pose proof (zlen_nonneg r). rewrite (proj2 (Z.ltb_lt i _)) by lia. unfold bind.
  rewrite (text_at_index _ _ _ _ H), (proj2 (Z.eqb_neq _ _) H1), (proj2 (Z.eqb_neq _ _) H2). done.
Qed.

Lemma string_end_escape fuel i sk c r b : text_at i (c_bslash :: c :: r) ->
  string_end content blength (S fuel) i sk b = string_end content blength fuel (i + 2) (sk + 1) b.
Proof.
  intros H. cbn [string_end]. pose proof (text_at_end _ _ H) as E. rewrite !zlen_cons in E.
  pose proof (zlen_nonneg r). rewrite (proj2 (Z.ltb_lt i _)) by lia. unfold bind.
  rewrite (text_at_index _ _ _ _ H). simpl. by rewrite (proj2 (Z.leb_gt _ _)) by lia.
Qed.

Lemma string_end_plains l fuel i sk r b : text_at i (l ++ r) -> Forall plain l ->
  string_end content blength (length l + fuel) i sk b = string_end content blength fuel (i + zlen l) sk b.
Proof.
  intros H Hl. revert i H. induction Hl as [|c l Hc _ IH]; intros i H.
  { by rewrite zlen_nil, Z.add_0_r. }
  simpl length. rewrite Nat.add_succ_l, (string_end_plain _ _ _ c (l ++ r)) by done.
  rewrite IH by (by apply (text_at_next _ c)). rewrite zlen_cons. f_equal. lia.
Qed.

Lemma hexval_plain c d : hexval c = Some d -> plain c.
Proof. intros H. split; intros ->; by vm_compute in H. Qed.

Lemma hex4s_plain l v : hex4s l v -> Forall plain l.
Proof.
  intros H. apply hex4s_inv in H as (a & b & c & d & da & db & dc & dd & -> & Ha & Hb & Hc & Hd & _).
  repeat constructor; by eapply hexval_plain.
Qed.

Lemma encode_high v : 128 <= v <= 1114111 -> Forall (fun b => 128 <= b) (utf8_encode v).
Proof.
  intros Hv. rewrite utf8_encode_arith by lia. rewrite (proj2 (Z.leb_gt v 127)) by lia.
  pose proof (Z.mod_pos_bound v 64 ltac:(lia)). pose proof (Z.mod_pos_bound (v / 64) 64 ltac:(lia)).
  pose proof (Z.mod_pos_bound (v / 4096) 64 ltac:(lia)).
  assert (0 <= v / 64 /\ 0 <= v / 4096 /\ 0 <= v / 262144) by (repeat split; apply Z.div_pos; lia).
  repeat case_match; repeat constructor; lia.
Qed.

Lemma multibyte_plain l v : multibyte l v -> Forall plain l.
Proof.
  intros H. apply multibyte_encode in H as (-> & [Hr _] & Hv).
  eapply Forall_impl; [apply encode_high; lia|]. intros c Hc. simpl in Hc. unfold plain. lia.
Qed.

(** One character: [sk] backslashes are skipped, and its encoding fits in what
    the others leave. *)
Lemma string_end_jchar l v : jchar l v -> exists sk steps,
  (steps <= length l)%nat /\ 0 <= sk /\ zlen (utf8_encode v) <= zlen l - sk /\
  forall fuel i skipped r b, text_at i (l ++ r) ->
    string_end content blength (steps + fuel) i skipped b =
    string_end content blength fuel (i + zlen l) (skipped + sk) b.
Proof.
  intros Hj. pose proof (utf8_encode_length v) as Hlen.
  destruct Hj as [c Hc H1 H2|c v Hv|l v Hv Hs|l1 v1 l2 v2 Hh1 H1 Hh2 H2|l v Hv].
  - exists 0, 1%nat. split; [done|]. split; [done|]. split.
    { unfold utf8_encode. rewrite (proj2 (Z.leb_le c 127)) by lia. done. }
    intros. rewrite (string_end_plain _ _ _ c r) by done. by rewrite Z.add_0_r.
  - exists 1, 1%nat. split; [simpl; lia|]. split; [done|]. split.
    { assert (v <= 127) as Hv' by (unfold escape_scalar in Hv; repeat case_match; simplify_eq; lia).
      unfold utf8_encode. rewrite (proj2 (Z.leb_le v 127) Hv'). done. }
    intros. by rewrite (string_end_escape _ _ _ c r).
  - pose proof (hex4s_plain _ _ Hv) as Hp. destruct Hv as [Hl Hv].
    assert (zlen l = 4) as Hz by (unfold zlen; by rewrite Hl).
    assert (zlen (utf8_encode v) <= 3) as H3.
    { apply hexes_range in Hv. rewrite Hz in Hv. unfold utf8_encode. repeat case_match; unfold zlen; simpl; lia. }
    exists 1, (1 + length l)%nat. rewrite !zlen_cons, Hz. split; [simpl; lia|]. split; [done|]. split; [lia|].
    intros. rewrite <- Nat.add_assoc. simpl plus at 1. rewrite (string_end_escape _ _ _ c_u (l ++ r)) by done.
    rewrite (string_end_plains l _ _ _ r) by (try done; by apply (text_at_move i [c_bslash; c_u])).
    rewrite Hz. f_equal. lia.
  - pose proof (hex4s_plain _ _ Hh1) as Hp1. pose proof (hex4s_plain _ _ Hh2) as Hp2.
    destruct Hh1 as [Hl1 _], Hh2 as [Hl2 _].
    assert (zlen l1 = 4) as Hz1 by (unfold zlen; by rewrite Hl1).
    assert (zlen l2 = 4) as Hz2 by (unfold zlen; by rewrite Hl2).
    exists 2, (1 + (length l1 + (1 + length l2)))%nat.
    rewrite !zlen_cons, zlen_app, !zlen_cons, Hz1, Hz2. split; [simpl; rewrite length_app; simpl; lia|].
    split; [done|]. split; [lia|]. intros fuel i skipped r b Hi. rewrite <- !Nat.add_assoc.
    simpl plus at 1. simpl in Hi. rewrite <- app_assoc in Hi.
    rewrite (string_end_escape _ _ _ c_u (l1 ++ (c_bslash :: c_u :: l2) ++ r)) by done.
    apply (text_at_move i [c_bslash; c_u]) in Hi.
    rewrite (string_end_plains l1 _ _ _ ((c_bslash :: c_u :: l2) ++ r)) by done.
    apply text_at_move in Hi. simpl plus at 1.
    rewrite (string_end_escape _ _ _ c_u (l2 ++ r)) by done.
    apply (text_at_move _ [c_bslash; c_u]) in Hi.
    rewrite (string_end_plains l2 _ _ _ r) by done.
    rewrite Hz1, Hz2. f_equal; lia.
  - exists 0, (length l). split; [done|]. split; [done|].
    destruct (multibyte_encode _ _ Hv) as (-> & _ & _). split; [lia|]. intros.
    rewrite (string_end_plains _ _ _ _ r); [by rewrite Z.add_0_r|done|by eapply multibyte_plain].
Qed.

(** ** Strings: copying *)

Lemma push_spec out l (b : parse_buffer) : zlen (data out) + zlen l <= cap out ->
  push out l b = Ret (mk_cbuf (cap out) (data out ++ l), b).
Proof. intros H. unfold push. by rewrite buf_write_push. Qed.

Lemma parse_hex4_spec l v i r b : hex4s l v -> text_at i (l ++ r) -> parse_hex4 content i b = Ret (v, b).
Proof.
  intros H Hi. apply hex4s_inv in H as (a1 & a2 & a3 & a4 & d1 & d2 & d3 & d4 & -> & H1 & H2 & H3 & H4 & ->).
  pose proof (hexval_range _ _ H1). pose proof (hexval_range _ _ H2). pose proof (hexval_range _ _ H3).
  pose proof (hexval_range _ _ H4). simpl in Hi. unfold parse_hex4. cbn [parse_hex4_loop]. unfold bind.
  rewrite (text_at_index _ _ _ _ Hi), hex4_digit_hexval, H1. apply text_at_next in Hi.
  rewrite (text_at_index _ _ _ _ Hi), hex4_digit_hexval, H2. apply text_at_next in Hi.
  rewrite (text_at_index _ _ _ _ Hi), hex4_digit_hexval, H3. apply text_at_next in Hi.
  rewrite (text_at_index _ _ _ _ Hi), hex4_digit_hexval, H4. unfold ret. do 2 f_equal.
  rewrite !Z.shiftl_mul_pow2 by lia.
  repeat match goal with |- context [u32 ?x] =>
    lazymatch x with context [u32 _] => fail | _ => rewrite (wrapu_small 32 x) by lia end end. lia.
Qed.

Lemma string_copy_plain fuel i e c r out b : text_at i (c :: r) -> i < e -> c <> c_bslash ->
  zlen (data out) + 1 <= cap out ->
  string_copy content (S fuel) i e out b =
  string_copy content fuel (i + 1) e (mk_cbuf (cap out) (data out ++ [c])) b.
Proof.
  intros H Hi Hc Hcap. cbn [string_copy]. rewrite (proj2 (Z.ltb_lt i e)) by lia. unfold bind at 1.
  rewrite (text_at_index _ _ _ _ H), (proj2 (Z.eqb_neq _ _) Hc). simpl. unfold bind.
  by rewrite push_spec by (rewrite zlen_cons, zlen_nil; lia).
Qed.

Lemma string_copy_plains l fuel i e r out b : text_at i (l ++ r) -> i + zlen l <= e -> Forall plain l ->
  zlen (data out) + zlen l <= cap out ->
  string_copy content (length l + fuel) i e out b =
  string_copy content fuel (i + zlen l) e (mk_cbuf (cap out) (data out ++ l)) b.
Proof.
  intros H He Hl. revert i out H He. induction Hl as [|c l [_ Hc] _ IH]; intros i out H He Hcap.
  { rewrite zlen_nil, Z.add_0_r, app_nil_r. by destruct out. }
  rewrite zlen_cons in *. pose proof (zlen_nonneg l). simpl length.
  rewrite Nat.add_succ_l, (string_copy_plain _ _ _ c (l ++ r)) by (done || lia).
  rewrite IH; simpl; [|by apply (text_at_next _ c)|lia|rewrite zlen_app, zlen_cons, zlen_nil; lia].
  rewrite <- app_assoc. f_equal. lia.
Qed.

(** The escapes with a code point. *)
Lemma utf16_literal_spec l v i e r b : jchar (c_bslash :: c_u :: l) v -> text_at i (c_bslash :: c_u :: l ++ r) ->
  i + zlen (c_bslash :: c_u :: l) <= e ->
  utf16_literal_to_utf8 content i e b = Ret (Some (zlen (c_bslash :: c_u :: l), utf8_encode v), b).
Proof.
  intros Hj Hi He. unfold utf16_literal_to_utf8. inversion Hj as [| |l' v' Hv Hs|l1 v1 l2 v2 H1 Hh H2 Hl|l' v' Hm]; subst.
  - match goal with H : escape_scalar _ = Some _ |- _ => by vm_compute in H end.
  - destruct (hex4s_inv _ _ Hv) as (? & ? & ? & ? & ? & ? & ? & ? & -> & _).
    rewrite (proj2 (Z.ltb_ge _ _)) by (unfold zlen in *; simpl in *; lia).
    apply (text_at_move i [c_bslash; c_u]) in Hi. unfold bind at 1.
    rewrite (parse_hex4_spec _ v (i + 2) r b Hv Hi).
    pose proof (jchar_scalar _ _ Hj) as [Hr _]. unfold surrogate in Hs.
    repeat match goal with |- context [if ?c then _ else _] =>
      destruct c eqn:?; [rewrite andb_true_iff, !Z.leb_le in *; lia|] end.
    by rewrite codepoint_utf8_encode.
  - destruct (hex4s_inv _ _ H1) as (a1 & a2 & a3 & a4 & ? & ? & ? & ? & -> & _).
    destruct (hex4s_inv _ _ H2) as (? & ? & ? & ? & ? & ? & ? & ? & -> & _).
    rewrite (proj2 (Z.ltb_ge _ _)) by (unfold zlen in *; simpl in *; lia).
    apply (text_at_move i [c_bslash; c_u]) in Hi. unfold bind at 1.
    rewrite (parse_hex4_spec _ v1 (i + 2) _ b H1 Hi). apply (text_at_move _ [a1; a2; a3; a4]) in Hi.
    unfold high_surrogate, low_surrogate in *.
    destruct ((56320 <=? v1) && (v1 <=? 57343)) eqn:E1; [rewrite andb_true_iff, !Z.leb_le in *; lia|].
    replace ((55296 <=? v1) && (v1 <=? 56319)) with true
      by (symmetry; rewrite andb_true_iff, !Z.leb_le; lia). cbv zeta.
    rewrite (proj2 (Z.ltb_ge _ _)) by (unfold zlen in *; simpl in *; lia). unfold bind.
    replace (i + 6) with (i + zlen [c_bslash; c_u] + zlen [a1; a2; a3; a4]) by (unfold zlen; simpl; lia).
    rewrite (text_at_index _ _ _ _ Hi). simpl. apply text_at_next in Hi.
    rewrite (text_at_index _ _ _ _ Hi). simpl. apply text_at_next in Hi.
    rewrite (parse_hex4_spec _ v2 _ r b H2) by (by replace (i + zlen [c_bslash; c_u] + zlen [a1; a2; a3; a4] + 2)
      with (i + zlen [c_bslash; c_u] + zlen [a1; a2; a3; a4] + 1 + 1) by lia).
    destruct ((v2 <? 56320) || (57343 <? v2)) eqn:E2; [rewrite orb_true_iff, !Z.ltb_lt in *; lia|].
    unfold ret. rewrite pair_scalar by done. by rewrite codepoint_utf8_encode by apply (jchar_scalar _ _ Hj).
  - apply multibyte_plain in Hm. inversion_clear Hm as [|? ? [_ Hm']]. done.
Qed.

Lemma string_copy_jchar l v : jchar l v -> exists steps, (steps <= length l)%nat /\
  forall fuel i e r out b, text_at i (l ++ r) -> i + zlen l <= e ->
    zlen (data out) + zlen (utf8_encode v) <= cap out ->
    string_copy content (steps + fuel) i e out b =
    string_copy content fuel (i + zlen l) e (mk_cbuf (cap out) (data out ++ utf8_encode v)) b.
Proof.
  intros Hj.
  assert (forall t, l = c_bslash :: c_u :: t -> exists steps, (steps <= length l)%nat /\
    forall fuel i e r out b, text_at i (l ++ r) -> i + zlen l <= e ->
      zlen (data out) + zlen (utf8_encode v) <= cap out ->
      string_copy content (steps + fuel) i e out b =
      string_copy content fuel (i + zlen l) e (mk_cbuf (cap out) (data out ++ utf8_encode v)) b) as Hu.
  { intros t ->. exists 1%nat. split; [simpl; lia|]. intros fuel i e r out b Hi He Hcap.
    cbn [string_copy Nat.add]. pose proof (zlen_nonneg t).
    rewrite (proj2 (Z.ltb_lt i e)) by (rewrite !zlen_cons in He; lia). unfold bind.
    rewrite (text_at_index i c_bslash (c_u :: t ++ r)) by done. cbn [negb].
    rewrite Z.eqb_refl. cbn [negb].
    rewrite (proj2 (Z.ltb_ge (e - i) 1)) by (rewrite !zlen_cons in He; lia).
    rewrite (text_at_index (i + 1) c_u (t ++ r)) by (by apply (text_at_next i c_bslash)).
    change (simple_escape c_u) with (@None Z). rewrite Z.eqb_refl. cbv beta iota.
    rewrite (utf16_literal_spec t v i e r b) by done. by rewrite push_spec. }
  destruct Hj as [c Hc H1 H2|c v Hv|l v Hv Hs|l1 v1 l2 v2 Hh1 H1 Hh2 H2|l v Hv]; [| |by eapply Hu..|].
  - exists 1%nat. split; [done|]. intros fuel i e r out b Hi He Hcap. rewrite encode_ascii in * by lia.
    rewrite zlen_cons, zlen_nil in *. by rewrite (string_copy_plain _ _ _ c r) by (done || lia).
  - destruct (simple_escape_scalar _ _ Hv) as [Hse Hr].
    exists 1%nat. split; [simpl; lia|]. intros fuel i e r out b Hi He Hcap.
    rewrite encode_ascii in * by lia. rewrite !zlen_cons, zlen_nil in He. rewrite zlen_cons, zlen_nil in Hcap.
    cbn [string_copy Nat.add]. rewrite (proj2 (Z.ltb_lt i e)) by lia. unfold bind.
    rewrite (text_at_index i c_bslash (c :: r)) by done. rewrite Z.eqb_refl. cbn [negb].
    rewrite (proj2 (Z.ltb_ge (e - i) 1)) by lia.
    rewrite (text_at_index (i + 1) c r) by (by apply (text_at_next i c_bslash)). rewrite Hse.
    rewrite push_spec by (rewrite zlen_cons, zlen_nil; lia). done.
  - destruct (multibyte_encode _ _ Hv) as (-> & _ & _). exists (length (utf8_encode v)). split; [done|].
    intros fuel i e r out b Hi He Hcap.
    by rewrite (string_copy_plains _ _ _ _ r) by (try done; by eapply multibyte_plain).
Qed.

(** A whole body: where it ends, how much it needs, and what is copied. *)
Lemma string_end_jchars body vs : jchars body vs -> exists sk steps,
  (steps <= length body)%nat /\ 0 <= sk /\ zlen (concat (utf8_encode <$> vs)) <= zlen body - sk /\
  forall fuel i skipped r b, text_at i (body ++ r) ->
    string_end content blength (steps + fuel) i skipped b =
    string_end content blength fuel (i + zlen body) (skipped + sk) b.
Proof.
  induction 1 as [|l v ls vs Hj _ (sk2 & n2 & Hn2 & Hs2 & Hz2 & H2)].
  { exists 0, 0%nat. split; [done|]. split; [done|]. split; [done|]. intros.
    by rewrite zlen_nil, !Z.add_0_r. }
  destruct (string_end_jchar l v Hj) as (sk1 & n1 & Hn1 & Hs1 & Hz1 & H1).
  exists (sk1 + sk2), (n1 + n2)%nat. rewrite length_app. split; [lia|]. split; [lia|].
  rewrite fmap_cons. cbn [concat]. rewrite !zlen_app. split; [lia|]. intros fuel i skipped r b Hi. rewrite <- app_assoc in Hi.
  rewrite <- Nat.add_assoc, (H1 _ _ _ (ls ++ r)) by done. apply text_at_move in Hi.
  rewrite (H2 _ _ _ r) by done. f_equal; lia.
Qed.

Lemma string_copy_jchars body vs : jchars body vs -> exists steps, (steps <= length body)%nat /\
  forall fuel i e r out b, text_at i (body ++ r) -> i + zlen body <= e ->
    zlen (data out) + zlen (concat (utf8_encode <$> vs)) <= cap out ->
    string_copy content (steps + fuel) i e out b =
    string_copy content fuel (i + zlen body) e
      (mk_cbuf (cap out) (data out ++ concat (utf8_encode <$> vs))) b.
Proof.
  induction 1 as [|l v ls vs Hj _ (n2 & Hn2 & H2)].
  { exists 0%nat. split; [done|]. intros. rewrite zlen_nil, Z.add_0_r. simpl. rewrite app_nil_r.
    by destruct out. }
  destruct (string_copy_jchar l v Hj) as (n1 & Hn1 & H1).
  exists (n1 + n2)%nat. rewrite length_app. split; [lia|]. intros fuel i e r out b Hi He Hcap.
  rewrite fmap_cons in *. cbn [concat] in *. rewrite !zlen_app in *. pose proof (zlen_nonneg ls).
  pose proof (zlen_nonneg (concat (utf8_encode <$> vs))). rewrite <- app_assoc in Hi.
  rewrite <- Nat.add_assoc, (H1 _ _ _ (ls ++ r)) by (done || lia). apply text_at_move in Hi.
  rewrite (H2 _ _ _ r); simpl; [|done|lia|rewrite zlen_app; lia].
  rewrite <- app_assoc. f_equal. lia.
Qed.

Lemma parse_string_spec k vs r b fuel : jstr k vs -> at_text b (k ++ r) -> (length content <= fuel)%nat ->
  wp (parse_string content blength alloc fuel) (parsed b k (fun s => s = text_of_scalars vs)) b.
Proof.
  intros (body & -> & Hj) Hb Hf. simpl in Hb. rewrite <- app_assoc in Hb. simpl in Hb.
  destruct (string_end_jchars body vs Hj) as (sk & n1 & Hn1 & Hsk & Hz & H1).
  destruct (string_copy_jchars body vs Hj) as (n2 & Hn2 & H2).
  assert (length body < fuel)%nat as Hlt.
  { pose proof (at_text_end _ _ Hb) as E. pose proof (at_text_nonneg _ _ Hb). unfold zlen in E.
    simpl in E. rewrite length_app in E. simpl in E. lia. }
  assert (text_at (offset b + 1) (body ++ c_quote :: r)) as Hb1 by (by apply (text_at_next _ c_quote)).
  pose proof (text_at_move _ _ _ Hb1) as Hb2. pose proof (text_at_end _ _ Hb2) as Hend.
  rewrite zlen_cons in Hend. pose proof (zlen_nonneg r). pose proof (zlen_nonneg body).
  unfold parse_string. wp_step. wp_step. wp_step. unfold wp at 1. rewrite (text_at_index _ _ _ b Hb). simpl negb.
  cbn iota. wp_step. unfold wp at 1.
  pose proof (H1 (fuel - n1)%nat (offset b + 1) 0 (c_quote :: r) b Hb1) as E1.
  replace (n1 + (fuel - n1))%nat with fuel in E1 by lia. rewrite E1. clear E1.
  assert (string_end content blength (fuel - n1) (offset b + 1 + zlen body) (0 + sk) b =
    Ret (Some (offset b + 1 + zlen body, sk), b)) as ->.
  { destruct (fuel - n1)%nat; cbn [string_end]; rewrite (proj2 (Z.ltb_lt _ _)) by lia; unfold bind;
      by rewrite (text_at_index _ _ _ _ Hb2). }
  cbv zeta. wp_step. eapply wp_mono; [apply allocate_spec|]. intros ok b1 (E1 & E2 & E3).
  destruct ok; cbn [negb].
  2:{ unfold set_offset. wp_step. wp_step. wp_step. left. auto. }
  wp_step. unfold wp at 1.
  pose proof (H2 (fuel - n2)%nat (offset b + 1) (offset b + 1 + zlen body) (c_quote :: r)
    (mk_cbuf (offset b + 1 + zlen body - offset b - sk + 1) []) b1 Hb1 ltac:(lia)
    ltac:(simpl; rewrite zlen_nil; lia)) as E4.
  replace (n2 + (fuel - n2))%nat with fuel in E4 by lia. rewrite E4. clear E4.
  assert (forall o, string_copy content (fuel - n2) (offset b + 1 + zlen body) (offset b + 1 + zlen body) o b1 =
    Ret (true, offset b + 1 + zlen body, o, b1)) as ->.
  { intros o. destruct (fuel - n2)%nat; cbn [string_copy]; by rewrite Z.ltb_irrefl. }
  cbn [negb]. wp_step. unfold wp at 1. rewrite push_spec.
  2:{ simpl. autorewrite with zlen. lia. }
  unfold set_offset. wp_step. wp_step. wp_step. right. eexists. split; [done|]. simpl. split.
  - unfold text_of_scalars. generalize (concat (utf8_encode <$> vs)). intros l.
    induction l as [|x l IH]; simpl; [done|]. case_match; [done|]. by rewrite IH.
  - split; [rewrite zlen_cons, zlen_app, zlen_cons, zlen_nil; lia|done].
Qed.

(** ** Values *)

(** What a value can start with. *)
Definition starter (y : Z) : Prop := 32 < y < 128 /\ y <> c_rbrack /\ y <> c_rbrace.

Lemma jtoken_head t : jtoken t -> exists y r, t = y :: r /\ starter y.
Proof.
  unfold starter.
  intros [(vs & body & -> & _)|[Hn|[-> |[-> | ->]]]]; try (eexists _, _; split; [done|lia]).
  destruct Hn as (s & i & f & e & -> & Hs & Hi & _).
  destruct Hs as [-> | ->]; [|by eexists _, _; split; [done|lia]].
  destruct Hi as [|c l Hc _]; eexists _, _; (split; [done|]); lia.
Qed.

Lemma token_node_jtoken t j : token_node t j -> jtoken t.
Proof.
  intros [(vs & H & _)|[[H _]|H]]; [left; by exists vs|right; by left|right; right].
  unfold jliteral. destruct H as [[-> _]|[[-> _]|[-> _]]]; auto.
Qed.

Lemma tree_head h e j : tree h e j -> exists y r, e = y :: r /\ starter y.
Proof.
  destruct h; simpl; (intros [Ht|H]; [by eapply jtoken_head, token_node_jtoken|]); [done|].
  destruct H as ([] & [[-> _]|(es & js & _ & -> & _)]); eexists _, _; (split; [done|]); unfold starter, open_char; lia.
Qed.

Lemma jstr_head k vs : jstr k vs -> exists r, k = c_quote :: r.
Proof. intros (body & -> & _). by eexists. Qed.

Lemma item_node_head h object e j : item_node (tree h) object e j -> exists y r, e = y :: r /\ starter y.
Proof.
  destruct 1 as [e j H|k vs e j Hk _]; [by eapply tree_head|].
  destruct (jstr_head _ _ Hk) as [r ->]. eexists _, _. split; [done|]. unfold starter. lia.
Qed.

Lemma items_nodes_head h object es js : items_nodes (tree h) object es js -> exists y r, es = y :: r /\ starter y.
Proof. destruct 1 as [e j H|e j es js H _]; destruct (item_node_head _ _ _ _ H) as (y & r & -> & Hy); by eexists _, _. Qed.

(** Sequencing after a parsed piece. *)
Lemma parsed_bind {A B} b e (P : A -> Prop) (m : BM (option A)) (K : option A -> BM (option B)) Q :
  wp m (parsed b e P) b ->
  (forall b', oom b' = true -> wp (K None) Q b') ->
  (forall a b', P a -> offset b' = offset b + zlen e -> depth b' = depth b -> wp (K (Some a)) Q b') ->
  wp (r <- m ;; K r) Q b.
Proof.
  intros Hm Hn Hs. wp_step. eapply wp_mono; [exact Hm|].
  intros r b' [[-> Ho]|(a & -> & Ha & Ho & Hd)]; auto.
Qed.

Lemma skip_spec {A} ws b c r (K : BM A) Q : at_text b (c :: r) -> 32 < c -> wp K Q b ->
  wp (buffer_skip_whitespace content blength ws ;;; K) Q b.
Proof. intros H Hc HK. wp_step. unfold wp at 1. by rewrite (skip_none ws b c r). Qed.

Lemma here_bind {A} x b c r (K : bool -> BM A) Q : at_text b (c :: r) -> wp (K (c =? x)) Q b ->
  wp (y <- here_is content blength x ;; K y) Q b.
Proof. intros H HK. wp_step. unfold wp at 1. by rewrite (here_is_spec x b c r). Qed.

Lemma allocate_bind {A} b (K : BM (option A)) Q :
  (forall b', oom b' = true -> Q None b') ->
  (forall b', offset b' = offset b -> depth b' = depth b -> wp K Q b') ->
  wp (ok <- allocate alloc ;; if negb ok then ret None else K) Q b.
Proof.
  intros Hn HK. wp_step. eapply wp_mono; [apply allocate_spec|]. intros [] b' (E1 & E2 & E3); simpl.
  - by apply HK.
  - wp_step. auto.
Qed.

Lemma add_offset_bind {A} n b (K : BM A) Q :
  (forall b', offset b' = offset b + n -> depth b' = depth b -> oom b' = oom b -> wp K Q b') ->
  wp (add_offset n ;;; K) Q b.
Proof. intros HK. wp_step. unfold add_offset. wp_step. by apply HK. Qed.

Lemma add_depth_bind {A} n b (K : BM A) Q :
  (forall b', offset b' = offset b -> depth b' = depth b + n -> oom b' = oom b -> wp K Q b') ->
  wp (add_depth n ;;; K) Q b.
Proof. intros HK. wp_step. unfold add_depth. wp_step. by apply HK. Qed.

(** What the loops return. *)
Definition looped (b : parse_buffer) (items js : list cJSON) (es : list Z) (r : option (list cJSON)) (b' : parse_buffer) : Prop :=
  r = None /\ oom b' = true \/
  r = Some (items ++ js) /\ offset b' = offset b + 1 + zlen es /\ depth b' = depth b.

(** [rec] parses the values nested at most [h] deep. *)
Definition parses (rec : BM (option cJSON)) (h : nat) (d : Z) : Prop :=
  forall e j b x r, tree h e j -> at_text b (e ++ x :: r) -> follows x -> depth b = d ->
    wp rec (parsed b e (fun j' => j' = j)) b.

Lemma array_loop_spec rec h d ws es js items b y x r fuel :
  parses rec h d -> items_nodes (tree h) false es js ->
  at_text b (y :: es ++ x :: r) -> x = c_rbrack -> depth b = d -> (length es <= fuel)%nat ->
  wp (array_loop content blength alloc rec fuel ws items) (looped b items js es) b.
Proof.
  intros Hrec Hi Hb -> Hd. revert items b y fuel Hb Hd.
  induction Hi as [e j He|e j es js He _ IH]; intros items b y fuel Hb Hd Hf.
  all: destruct (item_node_head _ _ _ _ He) as (z & t & Ez & [Hz _] & _).
  all: inversion He as [e' j' Hv|]; subst e' j'.
  all: destruct fuel as [|fuel]; [subst e; rewrite ?length_app in Hf; simpl in Hf; lia|]; cbn [array_loop].
  all: apply allocate_bind; [by left|]; intros b1 E1 D1.
  all: apply add_offset_bind; intros b2 E2 D2 _.
  - assert (at_text b2 (e ++ c_rbrack :: r)) as Hb2.
    { apply (at_text_move b [y]); [done|]. rewrite zlen_cons, zlen_nil. lia. }
    eapply skip_spec; [by rewrite Ez in Hb2|done|].
    eapply parsed_bind; [eapply Hrec; [exact Hv|exact Hb2|by right; left|congruence]| |].
    { intros b3 Ho. wp_step. by left. }
    intros ? b3 -> E3 D3. pose proof (at_text_move _ _ _ _ Hb2 E3) as Hb3.
    eapply skip_spec; [done|lia|]. eapply here_bind; [done|]. simpl. wp_step. right. split; [done|]. lia.
  - rewrite <- app_assoc in Hb. simpl in Hb. assert (at_text b2 (e ++ c_comma :: es ++ c_rbrack :: r)) as Hb2.
    { apply (at_text_move b [y]); [done|]. rewrite zlen_cons, zlen_nil. lia. }
    eapply skip_spec; [by rewrite Ez in Hb2|done|].
    eapply parsed_bind; [eapply Hrec; [exact Hv|exact Hb2|by left|congruence]| |].
    { intros b3 Ho. wp_step. by left. }
    intros ? b3 -> E3 D3. pose proof (at_text_move _ _ _ _ Hb2 E3) as Hb3.
    eapply skip_spec; [done|lia|]. eapply here_bind; [done|]. simpl.
    eapply wp_mono; [eapply IH; [exact Hb3|congruence|]|].
    { rewrite length_app in Hf. simpl in Hf. lia. }
    intros q b4 [?|(-> & E4 & D4)]; [by left|]. right.
    split; [by rewrite <- app_assoc|]. rewrite zlen_app, zlen_cons. split; [lia|congruence].
Qed.

Lemma object_loop_spec rec h d ws es js items b y x r fuel :
  parses rec h d -> items_nodes (tree h) true es js -> (length content <= ws)%nat ->
  at_text b (y :: es ++ x :: r) -> x = c_rbrace -> depth b = d -> (length es <= fuel)%nat ->
  wp (object_loop content blength alloc rec fuel ws items) (looped b items js es) b.
Proof.
  intros Hrec Hi Hws Hb -> Hd. revert items b y fuel Hb Hd.
  induction Hi as [e j He|e j es js He _ IH]; intros items b y fuel Hb Hd Hf.
  all: inversion He as [|k vs ev jv Hk Hv]; subst e j.
  all: destruct (jstr_head _ _ Hk) as (t & Ek); destruct (tree_head _ _ _ Hv) as (z & tz & Ez & [Hz _] & _).
  all: destruct fuel as [|fuel]; [rewrite ?length_app in Hf; simpl in Hf; lia|]; cbn [object_loop].
  all: apply allocate_bind; [by left|]; intros b1 E1 D1.
  all: apply add_offset_bind; intros b2 E2 D2 _.
  - rewrite <- app_assoc in Hb. simpl in Hb.
    assert (at_text b2 (k ++ c_colon :: ev ++ c_rbrace :: r)) as Hb2.
    { apply (at_text_move b [y]); [done|]. rewrite zlen_cons, zlen_nil. lia. }
    eapply skip_spec; [by rewrite Ek in Hb2|lia|].
    eapply parsed_bind; [by eapply parse_string_spec| |].
    { intros b3 Ho. wp_step. by left. }
    intros s b3 -> E3 D3. pose proof (at_text_move _ _ _ _ Hb2 E3) as Hb3.
    eapply skip_spec; [done|lia|]. eapply here_bind; [done|]. simpl.
    apply add_offset_bind; intros b4 E4 D4 _.
    assert (at_text b4 (ev ++ c_rbrace :: r)) as Hb4 by (by apply (at_text_move b3 [c_colon])).
    eapply skip_spec; [by rewrite Ez in Hb4|done|].
    eapply parsed_bind; [eapply Hrec; [exact Hv|exact Hb4|by right; right; left|congruence]| |].
    { intros b5 Ho. wp_step. by left. }
    intros ? b5 -> E5 D5. pose proof (at_text_move _ _ _ _ Hb4 E5) as Hb5.
    eapply skip_spec; [done|lia|]. eapply here_bind; [done|]. simpl. wp_step. right.
    split; [done|]. rewrite zlen_app, zlen_cons. lia.
  - rewrite <- !app_assoc in Hb. simpl in Hb.
    assert (at_text b2 (k ++ c_colon :: ev ++ c_comma :: es ++ c_rbrace :: r)) as Hb2.
    { apply (at_text_move b [y]); [done|]. rewrite zlen_cons, zlen_nil. lia. }
    eapply skip_spec; [by rewrite Ek in Hb2|lia|].
    eapply parsed_bind; [by eapply parse_string_spec| |].
    { intros b3 Ho. wp_step. by left. }
    intros s b3 -> E3 D3. pose proof (at_text_move _ _ _ _ Hb2 E3) as Hb3.
    eapply skip_spec; [done|lia|]. eapply here_bind; [done|]. simpl.
    apply add_offset_bind; intros b4 E4 D4 _.
    assert (at_text b4 (ev ++ c_comma :: es ++ c_rbrace :: r)) as Hb4 by (by apply (at_text_move b3 [c_colon])).
    eapply skip_spec; [by rewrite Ez in Hb4|done|].
    eapply parsed_bind; [eapply Hrec; [exact Hv|exact Hb4|by left|congruence]| |].
    { intros b5 Ho. wp_step. by left. }
    intros ? b5 -> E5 D5. pose proof (at_text_move _ _ _ _ Hb4 E5) as Hb5.
    eapply skip_spec; [done|lia|]. eapply here_bind; [done|]. simpl.
    eapply wp_mono; [eapply IH; [exact Hb5|congruence|]|].
    { rewrite !length_app in Hf. simpl in Hf. lia. }
    intros q b6 [?|(-> & E6 & D6)]; [by left|]. right.
    split; [by rewrite <- app_assoc|]. rewrite !zlen_app, !zlen_cons. split; [lia|congruence].
Qed.

Definition open_test (object : bool) : BM bool :=
  if object then here_is content blength c_lbrace else c <- here content ;; ret (c =? c_lbrack).

Lemma open_bind {A} object b r (K : bool -> BM A) Q : at_text b (open_char object :: r) ->
  wp (K true) Q b -> wp (y <- open_test object ;; K y) Q b.
Proof.
  intros H HK. wp_step. unfold wp at 1, open_test. destruct object.
  - by rewrite (here_is_spec c_lbrace b (open_char true) r).
  - unfold bind. by rewrite (here_spec b (open_char false) r).
Qed.

(** A container: empty, or around its items. *)
Definition container_tree (h : nat) (object : bool) (e : list Z) (js : list cJSON) : Prop :=
  (e = [open_char object; close_char object] /\ js = []) \/
  (exists es, items_nodes (tree h) object es js /\ e = open_char object :: es ++ [close_char object]).

Lemma container_value h object e js b x r ws loop :
  container_tree h object e js -> at_text b (e ++ x :: r) -> depth b < CJSON_NESTING_LIMIT ->
  (forall es b' r', items_nodes (tree h) object es js ->
     at_text b' (open_char object :: es ++ close_char object :: r') -> depth b' = depth b + 1 ->
     wp loop (looped b' [] js es) b') ->
  wp (Parse.container content blength ws (container_type object) (open_test object) (close_char object) loop)
    (parsed b e (fun j => j = Node (container_type object) js None 0 D_zero None)) b.
Proof.
  intros He Hb Hd Hloop. unfold Parse.container. wp_step. wp_step.
  rewrite (proj2 (Z.leb_gt CJSON_NESTING_LIMIT (depth b))) by lia.
  apply add_depth_bind; intros b1 E1 D1 _. pose proof (at_text_same _ _ _ Hb E1) as Hb1.
  assert (32 < close_char object) as Hcl by (by destruct object).
  destruct He as [[-> ->]|(es & Hi & ->)].
  - eapply open_bind; [exact Hb1|]. cbn [negb].
    apply add_offset_bind; intros b2 E2 D2 _. pose proof (at_text_move b1 [open_char object] _ b2 Hb1 E2) as Hb2.
    eapply skip_spec; [exact Hb2|done|]. eapply here_bind; [exact Hb2|]. rewrite Z.eqb_refl.
    apply add_depth_bind; intros b3 E3 D3 _. apply add_offset_bind; intros b4 E4 D4 _. wp_step. right.
    eexists. split; [done|]. split; [done|]. rewrite !zlen_cons, zlen_nil. split; lia.
  - simpl in Hb1. rewrite <- app_assoc in Hb1. simpl in Hb1.
    eapply open_bind; [exact Hb1|]. cbn [negb].
    apply add_offset_bind; intros b2 E2 D2 _. pose proof (at_text_move b1 [open_char object] _ b2 Hb1 E2) as Hb2.
    destruct (items_nodes_head _ _ _ _ Hi) as (y & t & Ey & [Hy1 _] & Hy2 & Hy3). rewrite Ey in Hb2. simpl in Hb2.
    eapply skip_spec; [exact Hb2|done|]. eapply here_bind; [exact Hb2|].
    rewrite (proj2 (Z.eqb_neq y (close_char object))) by (by destruct object).
    wp_step. unfold wp at 1. rewrite (can_access_spec 0 b2 _ Hb2).
    rewrite (proj2 (Z.ltb_lt 0 _)) by (rewrite zlen_cons; pose proof (zlen_nonneg (t ++ close_char object :: x :: r)); lia).
    cbn [negb]. apply add_offset_bind; intros b3 E3 D3 _.
    assert (at_text b3 (open_char object :: es ++ close_char object :: x :: r)) as Hb3
      by (eapply at_text_same; [exact Hb1|lia]).
    wp_step. eapply wp_mono; [eapply Hloop; [exact Hi|exact Hb3|lia]|].
    intros q b4 [[-> Ho]|(-> & E4 & D4)]; [wp_step; by left|].
    assert (at_text b4 (close_char object :: x :: r)) as Hb4.
    { apply (at_text_move b3 (open_char object :: es)); [done|]. rewrite zlen_cons. lia. }
    eapply here_bind; [exact Hb4|]. rewrite Z.eqb_refl.
    apply add_depth_bind; intros b5 E5 D5 _. apply add_offset_bind; intros b6 E6 D6 _. wp_step. right.
    eexists. split; [done|]. split; [done|]. rewrite zlen_cons, zlen_app, zlen_cons, zlen_nil. split; lia.
Qed.

Lemma looking_bind {A} l b r (K : bool -> BM A) Q : at_text b r -> wp (K (starts l r)) Q b ->
  wp (y <- looking_at content blength l ;; K y) Q b.
Proof. intros H HK. wp_step. unfold wp at 1. by rewrite (looking_at_spec l b r). Qed.

Lemma tree_token h t j : token_node t j -> tree h t j.
Proof. destruct h; by left. Qed.

(** The three literals are found at once. *)
Lemma parse_literal levels fuel b e j r : literal_node e j -> at_text b (e ++ r) ->
  wp (parse_value content blength alloc levels fuel) (parsed b e (fun j' => j' = j)) b.
Proof.
  intros He Hb. destruct levels; cbn [parse_value].
  all: destruct He as [[-> ->]|[[-> ->]|[-> ->]]]; simpl in Hb.
  all: eapply looking_bind; [exact Hb|simpl].
  all: try (eapply looking_bind; [exact Hb|simpl]).
  all: try (eapply looking_bind; [exact Hb|simpl]).
  all: apply add_offset_bind; intros b1 E1 D1 _; wp_step; right; eexists; split; [done|].
  all: split; [done|by rewrite E1].
Qed.

(** The other values, by their first character. *)
Lemma parse_other levels fuel b y r Q : at_text b (y :: r) -> y <> c_n -> y <> c_f -> y <> c_t ->
  wp (if y =? c_quote then
        s <- parse_string content blength alloc fuel ;;
        ret (match s with
             | Some s => Some (Node cJSON_String [] (Some s) 0 D_zero None)
             | None => None
             end)
      else if (y =? c_minus) || is_digit y then parse_number content blength
      else if y =? c_lbrack then parse_array content blength alloc (parse_value content blength alloc levels fuel) fuel
      else if y =? c_lbrace then parse_object content blength alloc (parse_value content blength alloc levels fuel) fuel
      else ret None) Q b ->
  wp (parse_value content blength alloc (S levels) fuel) Q b.
Proof.
  intros Hb H1 H2 H3 HQ. cbn [parse_value].
  eapply looking_bind; [exact Hb|]. unfold txt_null at 1. rewrite starts_head by done.
  eapply looking_bind; [exact Hb|]. unfold txt_false at 1. rewrite starts_head by done.
  eapply looking_bind; [exact Hb|]. unfold txt_true at 1. rewrite starts_head by done.
  eapply here_bind; [exact Hb|]. destruct (y =? c_quote); [exact HQ|].
  wp_step. unfold wp at 1. rewrite (can_access_spec 0 b _ Hb).
  rewrite (proj2 (Z.ltb_lt 0 _)) by (rewrite zlen_cons; pose proof (zlen_nonneg r); lia). cbn [negb].
  wp_step. unfold wp at 1. by rewrite (here_spec b _ r Hb).
Qed.

Lemma parsed_mono {A} b e (P P' : A -> Prop) r b' :
  parsed b e P r b' -> (forall a, P a -> P' a) -> parsed b e P' r b'.
Proof. intros [?|(a & Ha & HP & Ho)] Hm; [by left|]. right. exists a. auto. Qed.

Lemma parse_token levels fuel b e j x r : (length content <= fuel)%nat -> token_node e j -> at_text b (e ++ x :: r) ->
  follows x -> wp (parse_value content blength alloc (S levels) fuel) (parsed b e (fun j' => j' = j)) b.
Proof.
  intros Hf [(vs & Hs & ->)|[[Hn ->]|Hl]] Hb Hx; [| |by eapply parse_literal].
  - destruct (jstr_head _ _ Hs) as [t Et]. pose proof Hb as Hb'. rewrite Et in Hb'. simpl in Hb'.
    eapply parse_other; [exact Hb'|done..|]. simpl.
    eapply parsed_bind; [by eapply parse_string_spec| |].
    + intros b1 Ho. wp_step. by left.
    + intros s b1 -> E D. wp_step. right. by eexists.
  - destruct (jtoken_head e) as (y & t & Ey & Hy); [by right; left|].
    assert ((y =? c_minus) || is_digit y = true) as Hd.
    { destruct Hn as (s & i & f & x' & -> & Hs & Hi & _). destruct (jint_digits_all i Hi) as [Hi' Hn].
      destruct Hs as [-> | ->]; simpl in Ey.
      - destruct i as [|c i]; [done|]. simpl in Ey. injection Ey as -> _. inversion_clear Hi' as [|? ? Hc _].
        unfold jdigit in Hc. unfold is_digit. rewrite (proj2 (Z.leb_le c_0 y)), (proj2 (Z.leb_le y c_9)) by lia.
        apply orb_true_r.
      - by injection Ey as <- _. }
    assert (y = c_minus \/ jdigit y) as Hy'.
    { unfold is_digit in Hd. rewrite orb_true_iff, Z.eqb_eq, andb_true_iff, !Z.leb_le in Hd. done. }
    unfold jdigit in Hy'. pose proof Hb as Hb'. rewrite Ey in Hb'. simpl in Hb'.
    eapply parse_other; [exact Hb'|lia..|]. rewrite (proj2 (Z.eqb_neq y c_quote)), Hd by lia.
    by eapply parse_number_spec.
Qed.

Lemma parse_value_spec levels fuel h : (length content <= fuel)%nat -> (h < levels)%nat ->
  forall d, 0 <= d -> d + Z.of_nat h <= CJSON_NESTING_LIMIT ->
  parses (parse_value content blength alloc levels fuel) h d.
Proof.
  intros Hf. revert levels. induction h as [|h IH]; intros levels Hl d Hd0 Hd e j b x r Hv Hb Hx Ed.
  all: destruct levels as [|levels]; [lia|].
  - destruct Hv as [Ht|[]]. by eapply parse_token.
  - destruct Hv as [Ht|(object & Hv)]; [by eapply parse_token|].
    assert (exists js, container_tree h object e js /\ j = Node (container_type object) js None 0 D_zero None) as (js & Hc & ->).
    { unfold container_tree. destruct Hv as [[-> ->]|(es & js & Hi & -> & ->)]; eexists; (split; [|done]); [by left|right; by exists es]. }
    assert (exists t, e = open_char object :: t) as [t Et].
    { destruct Hc as [[-> _]|(es & _ & ->)]; by eexists. }
    pose proof Hb as Hb'. rewrite Et in Hb'. simpl in Hb'.
    assert (forall es b' r', at_text b' (open_char object :: es ++ close_char object :: r') -> (length es <= fuel)%nat) as Hes.
    { intros es b' r' Hb2. pose proof (at_text_end _ _ Hb2) as E. pose proof (at_text_nonneg _ _ Hb2).
      unfold zlen in E. simpl in E. rewrite length_app in E. lia. }
    assert (parses (parse_value content blength alloc levels fuel) h (d + 1)) as Hrec by (apply IH; lia).
    eapply parse_other; [exact Hb'|by destruct object..|]. destruct object; simpl.
    + eapply (container_value h true); [exact Hc|exact Hb|lia|].
      intros es b' r' Hi Hb2 Hd2. eapply object_loop_spec; [exact Hrec|exact Hi|done|exact Hb2|done|lia|by eapply Hes].
    + eapply (container_value h false); [exact Hc|exact Hb|lia|].
      intros es b' r' Hi Hb2 Hd2. eapply array_loop_spec; [exact Hrec|exact Hi|exact Hb2|done|lia|by eapply Hes].
Qed.

(** ** The document *)

Lemma bom_bind {A} b y r (K : BM A) Q : at_text b (y :: r) -> y < 128 -> wp K Q b ->
  wp (skip_utf8_bom content blength ;;; K) Q b.
Proof.
  intros Hb Hy HK. wp_step. unfold skip_utf8_bom. wp_step. unfold wp at 1.
  rewrite (can_access_spec 4 b _ Hb). destruct (Z.ltb_spec 4 (zlen (y :: r))); [|by wp_step].
  wp_step. wp_step. wp_step. unfold wp at 1. rewrite (same_text_spec [239; 187; 191] (y :: r)).
  - rewrite starts_head by lia. by wp_step.
  - unfold zlen in *. simpl in *. lia.
  - intros j c Hj. apply (at_text_lookup b (y :: r) (Z.of_nat j)); [done|lia|]. by rewrite Nat2Z.id.
Qed.

(** The blank skipping at the end moves over the NUL and back. *)
Lemma skip_nul ws b : at_text b [0] -> (1 <= ws)%nat ->
  wp (buffer_skip_whitespace content blength ws) (fun _ b' => offset b' = offset b /\ oom b' = oom b) b.
Proof.
  intros Hb Hw. pose proof (at_text_end _ _ Hb) as E. change (zlen [0]) with 1 in E.
  assert (can_access blength 0 b = Ret (true, b)) as Ha by (by rewrite (can_access_spec 0 b _ Hb)).
  unfold buffer_skip_whitespace. wp_step. unfold wp at 1. rewrite Ha. cbn [negb].
  destruct ws as [|ws]; [lia|]. cbn [skip_loop]. wp_step. wp_step. unfold wp at 1. rewrite Ha. cbv beta iota.
  wp_step. unfold wp at 1. rewrite (here_spec b 0 [] Hb). cbn [Z.leb Z.compare].
  apply add_offset_bind; intros b1 E1 D1 O1.
  assert (skip_loop content blength ws b1 = Ret (tt, b1)) as Hs.
  { destruct ws; cbn [skip_loop]; unfold bind, can_access, gets; by rewrite (proj2 (Z.ltb_ge _ _)) by lia. }
  unfold wp at 1. rewrite Hs. wp_step. wp_step. rewrite (proj2 (Z.eqb_eq _ _)) by lia.
  unfold add_offset. wp_step. simpl. split; [lia|done].
Qed.

Lemma parse_opts_spec h e j b rnt : tree h e j -> (h <= 1000)%nat -> at_text b (e ++ [0]) -> offset b = 0 -> depth b = 0 ->
  wp (cJSON_ParseWithLengthOpts content blength alloc rnt)
    (fun r b' => r = Some j \/ r = None /\ oom b' = true) b.
Proof.
  intros Hv Hh Hb Ho Hd. destruct (tree_head _ _ _ Hv) as (y & t & Ey & Hy & _).
  pose proof (at_text_end _ _ Hb) as El. rewrite zlen_app, Ho in El. change (zlen [0]) with 1 in El.
  pose proof (zlen_nonneg e). unfold cJSON_ParseWithLengthOpts. rewrite (proj2 (Z.eqb_neq _ 0)) by lia. cbv zeta.
  assert (length content <= Z.to_nat blength)%nat as Hf by (unfold zlen; lia).
  apply allocate_bind; [by right|]. intros b1 E1 D1. pose proof (at_text_same _ _ _ Hb E1) as Hb1.
  assert (at_text b1 (y :: t ++ [0])) as Hb1' by (by rewrite Ey in Hb1).
  eapply bom_bind; [exact Hb1'|lia|]. eapply skip_spec; [exact Hb1'|lia|].
  eapply (parsed_bind _ e (fun j' => j' = j)).
  - eapply (parse_value_spec max_levels (Z.to_nat blength) h Hf ltac:(unfold max_levels; lia) 0);
      [lia|unfold CJSON_NESTING_LIMIT; lia|exact Hv|exact Hb1|by right; right; right|congruence].
  - intros b2 Hm. wp_step. by right.
  - intros ? b2 -> E2 D2. destruct rnt; [|wp_step; by left]. pose proof (at_text_move _ _ _ _ Hb1 E2) as Hb2. wp_step.
    eapply wp_mono; [eapply skip_nul; [exact Hb2|lia]|]. intros _ b3 [E3 _].
    pose proof (at_text_same _ _ _ Hb2 E3) as Hb3. wp_step. wp_step.
    rewrite (proj2 (Z.leb_gt _ _)) by lia. wp_step. unfold wp at 1. rewrite (here_spec b3 0 [] Hb3).
    cbn [Z.eqb]. wp_step. by left.
Qed.
End Buffer.

(** The whole document, with its terminating NUL inside the declared length. *)
Lemma parse_tree h e j alloc rnt : tree h e j -> (h <= 1000)%nat ->
  exists r o, run_parse (e ++ [0]) (zlen (e ++ [0])) alloc rnt = Ret (r, o) /\ (r = Some j \/ r = None /\ o = true).
Proof.
  intros Hv Hh. assert (at_text (e ++ [0]) (mk_pb 0 0 0 false) (e ++ [0])) as Hb by (by exists []).
  pose proof (parse_opts_spec (e ++ [0]) alloc h e j _ rnt Hv Hh Hb eq_refl eq_refl) as W.
  unfold run_parse. apply wp_returns in W as (r & b' & E & W). rewrite E. by exists r, (oom b').
Qed.

(** Every compact text denotes a tree. *)
Lemma jtoken_node t : jtoken t -> exists j, token_node t j.
Proof.
  intros [(vs & H)|[H|H]].
  - eexists. left. by exists vs.
  - eexists. right. by left.
  - destruct H as [-> |[-> | ->]]; eexists; right; right; [right; right|right; left|left]; done.
Qed.

Lemma jval_tree h : forall c e, jval h c e -> exists j, tree h e j.
Proof.
  induction h as [|h IH]; intros c e [[Ht ->]|H].
  - destruct (jtoken_node c Ht) as [j Hj]. exists j. by left.
  - done.
  - destruct (jtoken_node c Ht) as [j Hj]. exists j. by left.
  - destruct H as (object & [(w & _ & _ & ->)|(cs & es & Hi & _ & ->)]).
    { eexists. right. exists object. by left. }
    assert (forall c e, jitem (jval h) object c e -> exists j, item_node (tree h) object e j) as Hitem.
    { destruct 1 as [c' e Hv|k w1 w2 c' e (vs & Hk & _) _ _ Hv]; destruct (IH _ _ Hv) as [j Hj]; eexists; by econstructor. }
    assert (exists js, items_nodes (tree h) object es js) as [js Hjs].
    { induction Hi as [w1 w2 c' e _ _ He|w1 w2 c' e cs es _ _ He _ [js Hjs]]; destruct (Hitem _ _ He) as [j Hj]; eexists; by econstructor. }
    eexists. right. exists object. right. by exists es, js.
Qed.

Lemma parse_document h c e alloc : jval h c e -> (h <= 1000)%nat ->
  exists r o, run_parse (e ++ [0]) (zlen (e ++ [0])) alloc true = Ret (r, o) /\
    (r = None -> o = true) /\ forall j, r = Some j -> tree h e j.
Proof.
  intros Hv Hh. destruct (jval_tree h c e Hv) as [j Hj]. destruct (parse_tree h e j alloc true Hj Hh) as (r & o & E & H).
  exists r, o. split; [done|]. destruct H as [->|[-> ->]]; (split; [done|]); intros; by simplify_eq.
Qed.

(** C4: cJSON parses every compact JSON text nested at most 1000 deep to the tree
    it denotes, reading nothing outside the buffer and storing nothing outside
    the strings it allocates; it fails only if an allocation does. *)
Theorem cjson_parses_compact h c e alloc (Hv : jval h c e) (Hh : (h <= 1000)%nat) :
  exists r o, run_parse (e ++ [0]) (zlen (e ++ [0])) alloc true = Ret (r, o) /\
    (r = None -> o = true) /\ forall j, r = Some j -> tree h e j.
Proof. by eapply parse_document. Qed.

(** The text [{"a":true}]. *)
Definition sample_object : list Z := [123; 34; 97; 34; 58; 116; 114; 117; 101; 125].

Lemma cjson_parses_compact_witness :
  exists r o, run_parse (sample_object ++ [0]) (zlen (sample_object ++ [0])) (fun _ => true) true = Ret (r, o) /\
    (r = None -> o = true) /\ forall j, r = Some j -> tree 1 sample_object j.
Proof.
  refine (cjson_parses_compact 1 sample_object sample_object (fun _ => true) _ _); [|lia].
  right. exists true. right. exists [34; 97; 34; 58; 116; 114; 117; 101], [34; 97; 34; 58; 116; 114; 117; 101].
  split; [|split; reflexivity].
  apply (jitems_one _ _ [] [] [34; 97; 34; 58; 116; 114; 117; 101]); [constructor|constructor|].
  apply (jitem_member _ [34; 97; 34] [] [] [116; 114; 117; 101] [116; 114; 117; 101]); [|constructor|constructor|].
  - exists [97]. split; [|repeat constructor; discriminate]. exists [97]. split; [reflexivity|].
    apply (jchars_cons [97] 97 [] []); [constructor; lia|constructor].
  - left. split; [|reflexivity]. right. right. left. reflexivity.
Defined.

(** With a declared length that ends right after a comma in an object, cJSON
    reads the byte behind the buffer ([parse_string] has no bounds check). *)
Theorem cjson_overreads_after_comma :
  run_parse (firstn 7 (123 :: 34 :: 97 :: 34 :: 58 :: 49 :: 44 :: [])) 7 (fun _ => true) false = UB.
Proof. vm_compute. reflexivity. Qed.
