(* ===== verification/CJsonRoundTrip.v ===== *)
(** * cJSON reads back what it prints

    The compact text of an item denotes the item (with numbers read from their
    text), so that parsing what was printed gives the item back; integers of up
    to 53 bits come back unchanged. *)

From S2P Require Import Prelude Bytes Double JsonGrammar NumberText CJson CJsonTree CJsonTreeSpec CJsonPrint CJsonPrintSpec CJsonSpec.

(** ** Strings *)

Definition utf8_text (s : list Z) : Prop :=
  exists vs, s = concat (utf8_encode <$> vs) /\ Forall scalar_value vs /\ nonzero vs.

Lemma hexval_hex d : 0 <= d < 16 -> hexval (hex_char d) = Some d.
Proof.
  intros H. unfold hex_char, hexval. destruct (Z.ltb_spec d 10).
  - rewrite (proj2 (Z.leb_le _ _)), (proj2 (Z.leb_le _ _)) by lia. cbn [andb]. f_equal. lia.
  - rewrite (proj2 (Z.leb_gt _ c_9)), andb_false_r by lia.
    rewrite (proj2 (Z.leb_le _ _)), (proj2 (Z.leb_le _ c_f)) by lia. cbn [andb]. f_equal. lia.
Qed.

Lemma escape_high l : Forall (fun b => 128 <= b) l -> concat (escape <$> l) = l.
Proof.
  induction 1 as [|c l Hc _ IH]; [done|]. cbn [fmap list_fmap concat]. rewrite IH, escape_plain; [done|].
  unfold escape_extra. repeat (rewrite (proj2 (Z.eqb_neq c _)) by lia). by rewrite (proj2 (Z.ltb_ge c 32)) by lia.
Qed.

(** What is printed for one scalar is one character of a string literal. *)
Lemma escape_jchar v : scalar_value v -> v <> 0 -> jchar (concat (escape <$> utf8_encode v)) v.
Proof.
  intros [Hr Hs] H0. destruct (Z.leb_spec v 127) as [Hv|Hv].
  - rewrite encode_ascii by lia. cbn [fmap list_fmap concat]. rewrite app_nil_r. unfold escape.
    destruct ((31 <? v) && negb (v =? c_quote) && negb (v =? c_bslash)) eqn:E.
    { rewrite !andb_true_iff, !negb_true_iff, !Z.eqb_neq, Z.ltb_lt in E. constructor; lia. }
    destruct (Z.eqb_spec v c_bslash) as [->|]; [by apply jchar_escape|]. destruct (Z.eqb_spec v c_quote) as [->|]; [by apply jchar_escape|].
    destruct (Z.eqb_spec v c_bs) as [->|]; [by apply jchar_escape|]. destruct (Z.eqb_spec v c_ff) as [->|]; [by apply jchar_escape|].
    destruct (Z.eqb_spec v c_nl) as [->|]; [by apply jchar_escape|]. destruct (Z.eqb_spec v c_cr) as [->|]; [by apply jchar_escape|].
    destruct (Z.eqb_spec v c_tab) as [->|]; [by apply jchar_escape|].
    pose proof (Z.mod_pos_bound v 16 ltac:(lia)). pose proof (Z.div_mod v 16 ltac:(lia)).
    assert (0 <= v / 16 < 16) by (split; [apply Z.div_pos|apply Z.div_lt_upper_bound]; lia).
    apply (jchar_unicode [c_0; c_0; hex_char (v / 16); hex_char (v mod 16)]); [|done]. split; [done|].
    replace v with (((0 * 16 + 0) * 16 + v / 16) * 16 + v mod 16) at 3 by lia.
    apply (hexes_snoc [c_0; c_0; hex_char (v / 16)]); [|by apply hexval_hex].
    apply (hexes_snoc [c_0; c_0]); [|by apply hexval_hex].
    apply (hexes_snoc [c_0] 0 c_0 0); [|done]. apply (hexes_snoc [] 0 c_0 0); [constructor|done].
  - rewrite escape_high by (apply encode_high; lia). apply jchar_multi. apply encode_multibyte; [done|lia].
Qed.

Lemma utf8_text_cstr vs : Forall scalar_value vs -> nonzero vs -> cstr (concat (utf8_encode <$> vs)) = concat (utf8_encode <$> vs).
Proof. intros Hs Hz. apply cstr_encoded; [|done]. eapply Forall_impl; [exact Hs|]. by intros v [[? _] _]. Qed.

(** The literal printed for a text, and the text it is read as. *)
Lemma string_text_jstr s : utf8_text s -> exists vs, jstr (string_text (Some s)) vs /\ text_of_scalars vs = s.
Proof.
  intros (vs & -> & Hs & Hz). exists vs. unfold text_of_scalars. rewrite utf8_text_cstr by done. split; [|done].
  cbn [string_text]. rewrite utf8_text_cstr by done. eexists. split; [done|].
  induction Hs as [|v vs Hv _ IH]; [constructor|]. inversion_clear Hz. rewrite fmap_cons. cbn [concat].
  rewrite fmap_app, concat_app. constructor; [by apply escape_jchar|auto].
Qed.

(** ** Numbers *)

Lemma number_chars_jnumber i d : wf_number i d -> is_nan_or_inf d = false -> jnumber (number_chars i d).
Proof.
  intros [Hi [Hd|Hv]] E; [congruence|]. unfold number_chars. rewrite E.
  assert (forall P, 1 <= P <= 17 -> jnumber (fmt_g P d)) as Hg.
  { intros P HP. destruct (fmt_g_jnumber P d HP Hv) as [Hj _]; [destruct d; try done; eauto|done]. }
  destruct (D_eqb d (D_of_Z i)); [apply (fmt_d_jnumber i 19); lia|].
  cbv zeta. destruct (strtod (fmt_g 15 d)) as [test [|n]]; [by apply Hg|]. destruct (compare_double test d); by apply Hg.
Qed.

(** ** Items *)

(** The number a text is read as. *)
Definition reread_number (i : Z) (d : double) : cJSON :=
  if is_nan_or_inf d then Node cJSON_NULL [] None 0 D_zero None
  else number_node (strtod (number_chars i d)).1.

(** What the compact text of an item is read as. *)
Fixpoint reread (j : cJSON) : cJSON :=
  let 'Node t c v i d _ := j in
  let t := Z.land t 255 in
  if t =? cJSON_NULL then Node cJSON_NULL [] None 0 D_zero None
  else if t =? cJSON_False then Node cJSON_False [] None 0 D_zero None
  else if t =? cJSON_True then Node cJSON_True [] None 1 D_zero None
  else if t =? cJSON_Number then reread_number i d
  else if t =? cJSON_String then Node cJSON_String [] (Some (default [] v)) 0 D_zero None
  else if t =? cJSON_Array then Node cJSON_Array (reread <$> c) None 0 D_zero None
  else Node cJSON_Object ((fun x => set_jstring (Some (default [] (jstring x))) (reread x)) <$> c) None 0 D_zero None.

Definition wire_type (t : Z) : Prop :=
  t = cJSON_NULL \/ t = cJSON_False \/ t = cJSON_True \/ t = cJSON_Number \/ t = cJSON_String \/ t = cJSON_Array \/ t = cJSON_Object.

(** The items of documents: known types, numbers a C program can hold, UTF-8 text. *)
Inductive document : cJSON -> Prop :=
| document_node t c v i d s :
    wire_type (Z.land t 255) -> wf_number i d -> utf8_text (default [] v) -> utf8_text (default [] s) -> Forall document c ->
    document (Node t c v i d s).

Lemma utf8_text_bytes s : utf8_text s -> Forall byte_ok s.
Proof.
  intros (vs & -> & _). induction vs as [|v vs IH]; [constructor|]. apply Forall_app. split; [apply utf8_encode_ok|done].
Qed.

Lemma document_wf j : document j -> wf_item j.
Proof.
  induction j as [t c v i d s IH] using cJSON_children_ind. intros Hd. inversion_clear Hd. constructor; [done|by apply utf8_text_bytes..|].
  rewrite Forall_forall in *. auto.
Qed.

Lemma document_printable j : document j -> printable j = true.
Proof.
  induction j as [t c v i d s IH] using cJSON_children_ind. intros Hd. inversion_clear Hd as [? ? ? ? ? ? Ht _ _ _ Hc].
  assert (forallb printable c = true) as Ec.
  { apply forallb_forall. intros x Hx%list_elem_of_In. rewrite Forall_forall in *. auto. }
  cbn [printable]. cbv zeta. destruct Ht as [-> |[-> |[-> |[-> |[-> |[-> | ->]]]]]]; done.
Qed.

Lemma string_text_default v : utf8_text (default [] v) -> exists vs, jstr (string_text v) vs /\ text_of_scalars vs = default [] v.
Proof.
  destruct v as [s|]; [apply string_text_jstr|]. intros _. exists []. split; [|done]. exists []. split; [done|constructor].
Qed.

Section Containers.
Context (h : nat) (d : Z).

Lemma elements_text_nodes c : c <> [] -> (forall x, x ∈ c -> tree h (render false d x) (reread x)) ->
  items_nodes (tree h) false (elements_text false (render false d <$> c)) (reread <$> c).
Proof.
  induction c as [|x c IH]; intros Hne Hx; [done|]. assert (item_node (tree h) false (render false d x) (reread x)) as H1.
  { constructor. apply Hx, elem_of_cons. auto. }
  destruct c as [|y c]; [cbn; rewrite app_nil_r; by constructor|].
  apply (items_more _ _ _ _ _ _ H1). apply IH; [done|]. intros z Hz. apply Hx, elem_of_cons. auto.
Qed.

Lemma members_text_next k t kt ts : members_text false d ((k, t) :: kt :: ts) =
  (string_text k ++ c_colon :: t) ++ c_comma :: members_text false d (kt :: ts).
Proof. rewrite <- app_assoc. reflexivity. Qed.

Lemma members_text_nodes c : c <> [] ->
  (forall x, x ∈ c -> tree h (render false d x) (reread x) /\ utf8_text (default [] (jstring x))) ->
  items_nodes (tree h) true (members_text false d (member_texts false d c))
    ((fun x => set_jstring (Some (default [] (jstring x))) (reread x)) <$> c).
Proof.
  induction c as [|x c IH]; intros Hne Hx; [done|]. destruct (Hx x) as [Ht Hs]; [apply elem_of_cons; auto|].
  destruct (string_text_default _ Hs) as (vs & Hk & Ek).
  assert (item_node (tree h) true (string_text (jstring x) ++ c_colon :: render false d x)
    (set_jstring (Some (default [] (jstring x))) (reread x))) as H1 by (rewrite <- Ek; by constructor).
  destruct c as [|y c].
  - cbn. rewrite !app_nil_r. by constructor.
  - change (member_texts false d (x :: y :: c)) with ((jstring x, render false d x) :: member_texts false d (y :: c)).
    change (member_texts false d (y :: c)) with ((jstring y, render false d y) :: member_texts false d c) in *. rewrite members_text_next.
    apply (items_more _ _ _ _ _ _ H1). apply IH; [done|]. intros z Hz. apply Hx, elem_of_cons. auto.
Qed.
End Containers.

(** The compact text of a document denotes it. *)
Lemma tree_render j : forall d h, document j -> (nesting j <= h)%nat -> tree h (render false d j) (reread j).
Proof.
  induction j as [t c v i x s IH] using cJSON_children_ind. intros d h Hd Hn.
  destruct h as [|h]; [pose proof (nesting_pos (Node t c v i x s)); lia|].
  inversion_clear Hd as [? ? ? ? ? ? Ht Hw Hv _ Hc].
  assert (forall y, y ∈ c -> document y /\ tree h (render false (d + 1) y) (reread y)) as Hch.
  { intros y Hy. rewrite Forall_forall in IH, Hc. split; [by apply Hc|]. apply IH; [done|by apply Hc|].
    pose proof (nesting_child (Node t c v i x s) y Hy). lia. }
  cbn [render reread]. cbv zeta.
  destruct Ht as [-> |[-> |[-> |[-> |[-> |[-> | ->]]]]]].
  - left. right. right. by left.
  - left. right. right. right. by left.
  - left. right. right. right. by right.
  - cbn. unfold reread_number. destruct (is_nan_or_inf x) eqn:E.
    + unfold number_chars. rewrite E. left. right. right. by left.
    + left. right. left. split; [by apply number_chars_jnumber|done].
  - cbn. destruct (string_text_default _ Hv) as (vs & Hk & Ek). left. left. exists vs. split; [done|]. by rewrite Ek.
  - cbn. right. exists false. destruct c as [|y c]; [by left|]. right.
    exists (elements_text false (render false (d + 1) <$> y :: c)), (reread <$> y :: c). split; [|done].
    apply elements_text_nodes; [done|]. intros z Hz. by apply Hch.
  - cbn. right. exists true. destruct c as [|y c]; [by left|]. right. set (l := y :: c) in *.
    exists (members_text false (d + 1) (member_texts false (d + 1) l)), ((fun x => set_jstring (Some (default [] (jstring x))) (reread x)) <$> l).
    split; [|done]. apply members_text_nodes; [done|]. intros z Hz. destruct (Hch z Hz) as [Hz1 Hz2]. split; [done|]. by inversion_clear Hz1.
Qed.

(** ** Integers *)

Lemma saturate_small n : Z.abs n < 2 ^ 53 -> Parse.saturate (D_of_Z n) = n.
Proof.
  intros Hn. unfold Parse.saturate. rewrite D_trunc_of_Z by done.
  change (D_of_Z Parse.LLONG_MAX) with (S754_finite false 4503599627370496 11).
  change (D_of_Z Parse.LLONG_MIN) with (S754_finite true 4503599627370496 11).
  destruct (D_of_Z_small n Hn) as [[-> ->]|(m & e & -> & He & _ & _)]; [done|].
  unfold D_leb, SFleb. cbn [SFcompare]. destruct (n <? 0); [|].
  - by destruct (Z.compare_spec e 11); [lia| |lia].
  - by destruct (Z.compare_spec 11 e); [lia|lia|].
Qed.

Lemma number_node_small n : Z.abs n < 2 ^ 53 -> number_node (D_of_Z n) = Node cJSON_Number [] None n (D_of_Z n) None.
Proof. intros Hn. unfold number_node. by rewrite saturate_small. Qed.

Lemma D_of_Z_finite n : Z.abs n < 2 ^ 53 -> is_nan_or_inf (D_of_Z n) = false /\ D_eqb (D_of_Z n) (D_of_Z n) = true.
Proof. intros Hn. destruct (D_of_Z_small n Hn) as [[-> ->]|(m & e & -> & _)]; [done|]. split; [done|by apply D_eqb_refl]. Qed.

Lemma reread_integer n : Z.abs n < 2 ^ 53 -> reread (number_node (D_of_Z n)) = number_node (D_of_Z n).
Proof.
  intros Hn. rewrite (number_node_small n Hn). cbn. unfold reread_number, number_chars. destruct (D_of_Z_finite n Hn) as [-> ->].
  rewrite strtod_fmt_d by lia. by apply number_node_small.
Qed.

Lemma number_document n s : Z.abs n < 2 ^ 53 -> utf8_text (default [] s) -> document (set_jstring s (number_node (D_of_Z n))).
Proof.
  intros Hn Hs. rewrite number_node_small by done. constructor; [unfold wire_type; cbn; tauto| | |done|constructor].
  - split; [lia|]. right. by apply D_of_Z_valid.
  - exists []. by repeat constructor.
Qed.

(** ** The round trip *)

Lemma print_parse alloc has_reallocate j n : document j -> (nesting j <= 1000)%nat -> zlen (render false 0 j) + 2 < 2 ^ 63 ->
  exists r n', print alloc has_reallocate j false n = Ret (r, n') /\
    match r with
    | Some t => t = render false 0 j /\ forall alloc2, exists q o,
        Parse.run_parse (t ++ [0]) (zlen (t ++ [0])) alloc2 true = Ret (q, o) /\ (q = Some (reread j) \/ q = None /\ o = true)
    | None => exists k, (n <= k < n')%nat /\ alloc k = false
    end.
Proof.
  intros Hd Hn Hs. destruct (print_text_result alloc has_reallocate j false n) as (r & n' & E & H); [by apply document_wf|done|].
  exists r, n'. split; [done|]. destruct r as [t|].
  - destruct H as [_ ->]. split; [done|]. intros alloc2. apply (parse_tree (nesting j)); [|done]. by apply tree_render.
  - destruct H as [H|H]; [|done]. by rewrite document_printable in H.
Qed.

(** C5: a document (numbers a C program can hold, UTF-8 text, nesting of at
    most 1000) that is printed without formatting and parsed again gives the
    item it reads as, unless an allocation fails; integers below [2^53] in
    magnitude read as themselves. *)
Theorem print_parse_round_trip alloc has_reallocate j n (Hd : document j) (Hn : (nesting j <= 1000)%nat)
    (Hs : zlen (render false 0 j) + 2 < 2 ^ 63) :
  (exists r n', print alloc has_reallocate j false n = Ret (r, n') /\
    match r with
    | Some t => forall alloc2, exists q o,
        Parse.run_parse (t ++ [0]) (zlen (t ++ [0])) alloc2 true = Ret (q, o) /\ (q = Some (reread j) \/ q = None /\ o = true)
    | None => exists k, (n <= k < n')%nat /\ alloc k = false
    end) /\
  forall m, Z.abs m < 2 ^ 53 -> reread (number_node (D_of_Z m)) = number_node (D_of_Z m) /\ jvalueint (number_node (D_of_Z m)) = m.
Proof.
  split.
  - destruct (print_parse alloc has_reallocate j n Hd Hn Hs) as (r & n' & E & H). exists r, n'. split; [done|].
    destruct r as [t|]; [by destruct H as [_ H]|done].
  - intros m Hm. split; [by apply reread_integer|]. by rewrite number_node_small.
Qed.

Lemma ascii_text l : Forall (fun c => 0 < c < 128) l -> utf8_text l.
Proof.
  intros H. exists l. split; [|split].
  - induction H as [|c l Hc _ IH]; [done|]. rewrite fmap_cons. cbn [concat]. by rewrite <- IH, encode_ascii by lia.
  - eapply Forall_impl; [exact H|]. intros c Hc. cbn in Hc. unfold scalar_value, surrogate. lia.
  - eapply Forall_impl; [exact H|]. cbn. lia.
Qed.

Lemma print_parse_round_trip_witness :
  (exists r n', print (fun _ => true) true printed_sample false 0 = Ret (r, n') /\
    match r with
    | Some t => forall alloc2, exists q o,
        Parse.run_parse (t ++ [0]) (zlen (t ++ [0])) alloc2 true = Ret (q, o) /\ (q = Some (reread printed_sample) \/ q = None /\ o = true)
    | None => exists k, (0 <= k < n')%nat /\ true = false
    end) /\
  forall m, Z.abs m < 2 ^ 53 -> reread (number_node (D_of_Z m)) = number_node (D_of_Z m) /\ jvalueint (number_node (D_of_Z m)) = m.
Proof.
  apply (print_parse_round_trip (fun _ => true) true printed_sample 0).
  - constructor; [unfold wire_type; cbn; tauto|split; [lia|by right]|apply ascii_text; constructor|apply ascii_text; constructor|].
    apply Forall_singleton, number_document; [lia|]. apply ascii_text. repeat constructor; lia.
  - cbn. lia.
  - assert (zlen (render false 0 printed_sample) = 7) as -> by (vm_compute; reflexivity). lia.
Defined.
