(* ===== verification/CJsonSafety.v ===== *)
(** * cJSON is memory-safe on every C string

    Whatever bytes a peer sends, [cJSON_Parse] reads only the string and its
    terminating NUL, stores only into the blocks it allocated and returns.  The
    buffer is seen through a declared length whose last byte is the NUL. *)

From S2P Require Import Prelude Bytes Double CJson CJsonTree CJsonTreeSpec CJsonSpec.
Import Parse.
Local Open Scope c_scope.

(** ** Numbers: [strtod] uses no more than the text *)

Lemma take_digits_le l : forall acc n, let '(_, k, r) := take_digits acc n l in (n <= k /\ k + length r = n + length l)%nat.
Proof.
  induction l as [|c l IH]; intros acc n; simpl; [lia|].
  destruct (is_digit c); simpl; [|lia]. specialize (IH (acc * 10 + (c - c_0)) (S n)).
  destruct (take_digits _ _ _) as [[? ?] ?]. lia.
Qed.

Lemma take_sign_le l : let '(_, n, r) := take_sign l in (n + length r = length l)%nat.
Proof. destruct l as [|c l]; simpl; [done|]. destruct (c =? c_minus); [done|]. by destruct (c =? c_plus). Qed.

Lemma take_exponent_le l : ((take_exponent l).2 <= length l)%nat.
Proof.
  destruct l as [|c l]; simpl; [lia|]. destruct ((c =? c_e) || (c =? c_E)); [|simpl; lia].
  pose proof (take_sign_le l). destruct (take_sign l) as [[s ns] l'].
  pose proof (take_digits_le l' 0 0). destruct (take_digits 0 0 l') as [[m n] r]. destruct n; simpl; lia.
Qed.

Lemma strtod_le l : ((strtod l).2 <= length l)%nat.
Proof.
  unfold strtod. pose proof (take_sign_le l). destruct (take_sign l) as [[s ns] l1].
  pose proof (take_digits_le l1 0 0). destruct (take_digits 0 0 l1) as [[m1 n1] l2].
  assert (let '(_, _, nd, l3) := match l2 with
    | c :: l' =>
        if c =? c_dot then
          let '(m2, n2, l3) := take_digits m1 0 l' in
          match (n1 + n2)%nat with
          | O => (m1, n1, 0%nat, l2)
          | S _ => (m2, (n1 + n2)%nat, S n2, l3)
          end
        else (m1, n1, 0%nat, l2)
    | [] => (m1, n1, 0%nat, l2)
    end in (nd + length l3 <= length l2)%nat) as Hd.
  { destruct l2 as [|c l2]; [simpl; lia|]. destruct (c =? c_dot); [|simpl; lia].
    pose proof (take_digits_le l2 m1 0). destruct (take_digits m1 0 l2) as [[m2 n2] l3]. destruct (n1 + n2)%nat; simpl; lia. }
  destruct (match l2 with [] => _ | _ => _ end) as [[[m n] nd] l3]. pose proof (take_exponent_le l3).
  destruct n; [simpl; lia|]. destruct (take_exponent l3) as [e ne]. simpl in *. lia.
Qed.

(** ** Items that can be used

    Nested at most [h] deep, and every string item has its text. *)

Fixpoint has_texts (j : cJSON) : bool :=
  let 'Node t c v _ _ _ := j in
  (negb (Z.land t 255 =? cJSON_String) || match v with Some _ => true | None => false end) && forallb has_texts c.

Definition usable (h : nat) (j : cJSON) : Prop := (nesting j <= h)%nat /\ has_texts j = true.

Lemma usable_leaf t v i d s : (negb (Z.land t 255 =? cJSON_String) || match v with Some _ => true | None => false end) = true ->
  usable 1 (Node t [] v i d s).
Proof. intros H. split; [done|]. cbn [has_texts forallb]. by rewrite H. Qed.

Lemma usable_weaken h h' j : usable h j -> (h <= h')%nat -> usable h' j.
Proof. intros [? ?] Hh. split; [lia|done]. Qed.

Lemma usable_set_jstring h s j : usable h j -> usable h (set_jstring s j).
Proof. by destruct j. Qed.

Lemma usable_children h t js : Z.land t 255 <> cJSON_String -> Forall (usable h) js -> usable (S h) (Node t js None 0 D_zero None).
Proof.
  intros Ht H. unfold usable. cbn [nesting has_texts]. rewrite (proj2 (Z.eqb_neq _ _)) by done. cbn [negb orb andb]. split.
  - apply le_n_S. induction H as [|j js [Hj _] _ IH]; cbn [foldr]; [lia|]. by apply Nat.max_lub.
  - apply forallb_forall. intros x Hx%list_elem_of_In. rewrite Forall_forall in H. by apply H.
Qed.

Section Safety.
Context (content : list Z) (blength : Z) (alloc : nat -> bool).
Context (Hlen : blength <= zlen content).
Context (Hnul : 0 < blength -> content !! Z.to_nat (blength - 1) = Some 0).

#[local] Abbreviation byte_at i := (content !! Z.to_nat i).

(** ** Reading bytes *)

Lemma at_index_bind {A} i b (K : Z -> BM A) Q : 0 <= i < blength ->
  (forall c, byte_at i = Some c -> wp (K c) Q b) -> wp (c <- at_index content i ;; K c) Q b.
Proof.
  intros Hi HK. wp_step. unfold wp, at_index. rewrite (proj2 (Z.ltb_ge _ _)) by lia.
  destruct (lookup_lt_is_Some_2 content (Z.to_nat i)) as [c E]; [unfold zlen in *; lia|].
  rewrite E. by apply HK.
Qed.

(** A byte that is not the NUL is followed by one that can be read. *)
Lemma not_last i c : 0 <= i < blength -> byte_at i = Some c -> c <> 0 -> i + 1 < blength.
Proof.
  intros Hi E Hc. destruct (decide (i = blength - 1)) as [->|]; [|lia].
  rewrite Hnul in E by lia. congruence.
Qed.

(** ** The reader's state *)

(** The offset stays inside the declared length. *)
Definition inside (b : parse_buffer) : Prop := 0 <= offset b <= blength.

(** From [b], the reader has only moved forward. *)
Definition forward (b b' : parse_buffer) : Prop := inside b' /\ offset b <= offset b' /\ depth b' = depth b.

(** A result, at a good state unless it is a failure. *)
Definition safely {A} (P : A -> parse_buffer -> Prop) (b : parse_buffer) (r : option A) (b' : parse_buffer) : Prop :=
  match r with None => True | Some a => forward b b' /\ P a b' end.

Lemma forward_refl b : inside b -> forward b b.
Proof. unfold forward. auto with lia. Qed.

Lemma forward_trans b1 b2 b3 : forward b1 b2 -> forward b2 b3 -> forward b1 b3.
Proof. unfold forward. intros (? & ? & ?) (? & ? & ?). split; [done|]. split; [lia|congruence]. Qed.

Lemma can_access_bind {A} i b (K : bool -> BM A) Q :
  wp (K (offset b + i <? blength)) Q b -> wp (ok <- can_access blength i ;; K ok) Q b.
Proof. done. Qed.

Lemma here_is_safe {A} x b (K : bool -> BM A) Q : inside b ->
  (offset b < blength -> byte_at (offset b) = Some x -> wp (K true) Q b) -> wp (K false) Q b ->
  wp (y <- here_is content blength x ;; K y) Q b.
Proof.
  intros Hb Ht Hf. wp_step. unfold here_is. apply can_access_bind. rewrite Z.add_0_r.
  destruct (Z.ltb_spec (offset b) blength); [|by wp_step].
  unfold here. wp_step. wp_step. wp_step. eapply wp_mono; [instantiate (1 := fun c b' => b' = b /\ byte_at (offset b) = Some c)|].
  { replace (at_index content (offset b)) with (at_index content (offset b)) by done.
    unfold wp, at_index. rewrite (proj2 (Z.ltb_ge _ _)) by (unfold inside in *; lia).
    destruct (lookup_lt_is_Some_2 content (Z.to_nat (offset b))) as [c E]; [unfold zlen, inside in *; lia|]. by rewrite E. }
  intros c b' [-> E]. wp_step. destruct (Z.eqb_spec c x) as [->|]; auto.
Qed.

Lemma here_safe {A} b (K : Z -> BM A) Q : inside b -> offset b < blength ->
  (forall c, byte_at (offset b) = Some c -> wp (K c) Q b) -> wp (c <- here content ;; K c) Q b.
Proof.
  intros Hb Hl HK. wp_step. unfold here. wp_step. wp_step.
  pose proof (at_index_bind (offset b) b (fun c => K c) Q) as H. apply wp_bind_inv in H; [done|unfold inside in *; lia|done].
Qed.

Lemma same_text_safe l : forall i b, 0 <= i -> i + zlen l <= blength ->
  wp (same_text content i l) (fun _ b' => b' = b) b.
Proof.
  induction l as [|x l IH]; intros i b Hi Hl; [done|]. rewrite zlen_cons in Hl. pose proof (zlen_nonneg l).
  cbn [same_text]. apply at_index_bind; [lia|]. intros c _. destruct (c =? x); [|done]. apply IH; lia.
Qed.

Lemma looking_at_safe {A} l b (K : bool -> BM A) Q : inside b ->
  (offset b + zlen l <= blength -> wp (K true) Q b) -> wp (K false) Q b ->
  wp (y <- looking_at content blength l ;; K y) Q b.
Proof.
  intros Hb Ht Hf. wp_step. unfold looking_at, can_read. wp_step. wp_step.
  destruct (Z.leb_spec (offset b + zlen l) blength); [|by wp_step].
  wp_step. wp_step. eapply wp_mono; [apply same_text_safe; unfold inside in *; lia|]. intros [] ? ->; auto.
Qed.

(** ** Blanks *)

Lemma skip_loop_safe fuel : forall b, inside b -> blength - offset b <= Z.of_nat fuel ->
  wp (skip_loop content blength fuel) (fun _ b' => forward b b') b.
Proof.
  induction fuel as [|fuel IH]; intros b Hb Hf; cbn [skip_loop]; apply can_access_bind; rewrite Z.add_0_r.
  all: destruct (Z.ltb_spec (offset b) blength); [|wp_step; by apply forward_refl].
  { lia. }
  apply here_safe; [done..|]. intros c _. destruct (c <=? 32); [|wp_step; by apply forward_refl].
  wp_step. unfold add_offset. wp_step. eapply wp_mono; [apply IH; unfold inside in *; simpl; lia|].
  intros _ b' (? & ? & ?). simpl in *. split; [done|]. split; [lia|done].
Qed.

Lemma skip_safe {A} ws b (K : BM A) Q : inside b -> blength <= Z.of_nat ws ->
  (forall b', forward b b' -> wp K Q b') -> wp (buffer_skip_whitespace content blength ws ;;; K) Q b.
Proof.
  intros Hb Hw HK. wp_step. unfold buffer_skip_whitespace. apply can_access_bind. rewrite Z.add_0_r.
  destruct (Z.ltb_spec (offset b) blength); cbn [negb]; [|wp_step; by apply HK, forward_refl].
  wp_step. eapply wp_mono; [apply skip_loop_safe; [done|unfold inside in *; lia]|].
  intros ? b' Hm. wp_step. wp_step. destruct (Z.eqb_spec (offset b') blength); [|wp_step; by apply HK].
  unfold add_offset. wp_step. apply HK. destruct Hm as (? & ? & ?). unfold forward, inside in *. simpl. lia.
Qed.

Lemma bom_safe {A} b (K : BM A) Q : inside b -> (forall b', forward b b' -> wp K Q b') ->
  wp (skip_utf8_bom content blength ;;; K) Q b.
Proof.
  intros Hb HK. wp_step. unfold skip_utf8_bom. apply can_access_bind.
  destruct (Z.ltb_spec (offset b + 4) blength); [|wp_step; by apply HK, forward_refl].
  wp_step. wp_step. wp_step. eapply wp_mono; [apply same_text_safe; [unfold inside in *; lia|change (zlen [239; 187; 191]) with 3; lia]|].
  intros [] ? ->; [|wp_step; by apply HK, forward_refl]. unfold add_offset. wp_step. apply HK. unfold forward, inside in *. simpl. lia.
Qed.

Lemma allocate_safe b : wp (allocate alloc) (fun _ b' => offset b' = offset b /\ depth b' = depth b) b.
Proof. eapply wp_mono; [apply allocate_spec|]. by intros ok b' (? & ? & _). Qed.

(** ** Numbers *)

Lemma number_text_safe n : forall i b, inside b -> 0 <= i ->
  wp (number_text content blength n i) (fun l b' => b' = b /\ (l = [] \/ offset b + i + zlen l <= blength)) b.
Proof.
  induction n as [|n IH]; intros i b Hb Hi; cbn [number_text]; [wp_step; by auto|].
  apply can_access_bind. destruct (Z.ltb_spec (offset b + i) blength); [|wp_step; by auto].
  wp_step. wp_step. apply at_index_bind; [unfold inside in *; lia|]. intros c _. destruct (number_char c); [|wp_step; by auto].
  wp_step. eapply wp_mono; [apply IH; [done|lia]|]. intros l ? [-> Hl]. wp_step. split; [done|]. right.
  rewrite zlen_cons. destruct Hl as [->|Hl]; [change (zlen (@nil Z)) with 0|]; lia.
Qed.


Lemma parse_number_safe b : inside b -> wp (parse_number content blength) (safely (fun j _ => usable 1 j) b) b.
Proof.
  intros Hb. unfold parse_number. wp_step. eapply wp_mono; [apply number_text_safe; [done|lia]|]. intros l ? [-> Hl].
  pose proof (strtod_le l) as Hu. destruct (strtod l) as [number [|u]]; [done|]. cbn [snd] in Hu.
  unfold add_offset. wp_step. wp_step. wp_step. unfold safely, forward, inside in *. cbn [offset depth].
  destruct Hl as [->|Hl]; [simpl in Hu; lia|]. unfold zlen in Hl. split; [|done]. lia.
Qed.

(** ** The extent of a string literal *)

(** From [i], taking every backslash with the byte behind it, the closing quote
    is at [e] with [n] backslashes before it. *)
Inductive scan : Z -> Z -> Z -> Prop :=
| scan_end e : 0 <= e < blength -> byte_at e = Some c_quote -> scan e e 0
| scan_plain i e n c : 0 <= i < blength -> byte_at i = Some c -> c <> c_quote -> c <> c_bslash -> scan (i + 1) e n -> scan i e n
| scan_pair i e n : 0 <= i -> i + 1 < blength -> byte_at i = Some c_bslash -> scan (i + 2) e n -> scan i e (n + 1).

Lemma string_end_safe fuel : forall i skipped b, 0 <= i -> blength - i <= Z.of_nat fuel ->
  wp (string_end content blength fuel i skipped)
    (fun r b' => b' = b /\ match r with None => True | Some (e, s) => scan i e (s - skipped) end) b.
Proof.
  induction fuel as [|fuel IH]; intros i skipped b Hi Hf; cbn [string_end]; (destruct (Z.ltb_spec i blength); [|by wp_step]); [lia|].
  apply at_index_bind; [lia|]. intros c Hc. destruct (Z.eqb_spec c c_quote) as [->|Hq].
  { wp_step. split; [done|]. rewrite Z.sub_diag. by constructor. }
  destruct (Z.eqb_spec c c_bslash) as [->|Hs].
  - destruct (Z.leb_spec blength (i + 1)); [by wp_step|].
    eapply wp_mono; [apply IH; lia|]. intros [[e s]|] ? [-> Hr]; (split; [done|]); [|done].
    replace (s - skipped) with (s - (skipped + 1) + 1) by lia. by constructor.
  - eapply wp_mono; [apply IH; lia|]. intros [[e s]|] ? [-> Hr]; (split; [done|]); [|done].
    by apply (scan_plain _ _ _ c).
Qed.

Lemma scan_bounds i e n : scan i e n -> 0 <= i <= e /\ e < blength /\ 0 <= n /\ 2 * n <= e - i /\ byte_at e = Some c_quote.
Proof. induction 1; (split_and!; [lia..|tauto]). Qed.

(** The room left for decoded bytes at [p]: the bytes up to [e] but for the
    backslashes.  The decoder can be in the middle of a pair, or past the end. *)
Definition room (p e k : Z) : Prop :=
  0 <= p /\ ((exists n, scan p e n /\ k = e - p - n) \/ (exists n, scan (p + 1) e n /\ k = e - p - n) \/ e <= p /\ 0 <= k).

Lemma room_nonneg p e k : room p e k -> 0 <= k.
Proof. intros [Hp [(n & H & ->)|[(n & H & ->)|[_ ?]]]]; [apply scan_bounds in H; lia..|done]. Qed.

(** A byte other than a backslash costs one. *)
Lemma room_plain p e k c : room p e k -> p < e -> byte_at p = Some c -> c <> c_bslash -> room (p + 1) e (k - 1).
Proof.
  intros [Hp H] Hl Hc Hb. split; [lia|]. destruct H as [(n & H & ->)|[(n & H & ->)|[? ?]]]; [| |lia].
  - inversion H as [e' ? ?|i' e' n' c' ? ? ? ? Hs|i' e' n' ? ? ? Hs]; subst; [lia| |congruence].
    left. exists n. split; [done|lia].
  - left. exists n. split; [done|lia].
Qed.

(** Two bytes cost at least one. *)
Lemma room_two p e k : room p e k -> p < e -> exists k', room (p + 2) e k' /\ k' <= k - 1.
Proof.
  intros [Hp H] Hl. destruct H as [(n & H & ->)|[(n & H & ->)|[? ?]]]; [| |lia].
  - inversion H as [e' ? ?|i' e' n' c' ? ? ? ? Hs|i' e' n' ? ? ? Hs]; subst; [lia| |].
    + inversion Hs as [e' ? ?|i' e' n' c'' ? ? ? ? Hs'|i' e' n' ? ? ? Hs']; subst.
      * exists 0. split; [|lia]. split; [lia|]. right. right. lia.
      * exists (e - (p + 2) - n). split; [|lia]. split; [lia|]. left. exists n. by replace (p + 2) with (p + 1 + 1) by lia.
      * exists (e - (p + 2) - n'). split; [|lia]. split; [lia|]. right. left. exists n'. by replace (p + 2 + 1) with (p + 1 + 2) by lia.
    + exists (e - (p + 2) - n'). split; [|lia]. split; [lia|]. left. by exists n'.
  - pose proof (scan_bounds _ _ _ H). inversion H as [e' ? ?|i' e' n' c'' ? ? ? ? Hs'|i' e' n' ? ? ? Hs']; subst.
    + exists 0. split; [|lia]. split; [lia|]. right. right. lia.
    + exists (e - (p + 2) - n). split; [|lia]. split; [lia|]. left. exists n. by replace (p + 2) with (p + 1 + 1) by lia.
    + exists (e - (p + 2) - n'). split; [|lia]. split; [lia|]. right. left. exists n'. by replace (p + 2 + 1) with (p + 1 + 2) by lia.
Qed.

(** An even number of bytes costs at least half of it. *)
Lemma room_even m : forall p e k, room p e k -> p + 2 * Z.of_nat m <= e -> exists k', room (p + 2 * Z.of_nat m) e k' /\ k' <= k - Z.of_nat m.
Proof.
  induction m as [|m IH]; intros p e k H Hl.
  - exists k. rewrite Z.add_0_r. split; [done|lia].
  - destruct (room_two p e k H) as (k1 & H1 & ?); [lia|]. destruct (IH _ _ _ H1) as (k2 & H2 & ?); [lia|].
    exists k2. split; [|lia]. by replace (p + 2 * Z.of_nat (S m)) with (p + 2 + 2 * Z.of_nat m) by lia.
Qed.

(** ** Decoding a string literal *)

Lemma hex4_digit_range c d : hex4_digit c = Some d -> 0 <= d < 16.
Proof. unfold hex4_digit. intros H. repeat (destruct (_ && _) eqn:E in H; [rewrite andb_true_iff, !Z.leb_le in E; simplify_eq; lia|clear E]). done. Qed.

Lemma parse_hex4_loop_safe n : forall i h b, 0 <= i -> i + Z.of_nat n <= blength -> (1 <= n <= 4)%nat ->
  0 <= h <= 16 ^ (5 - Z.of_nat n) - 16 ->
  wp (parse_hex4_loop content n i h) (fun v b' => b' = b /\ 0 <= v < 65536) b.
Proof.
  induction n as [|n IH]; intros i h b Hi Hn Hm Hh; [lia|]. cbn [parse_hex4_loop].
  apply at_index_bind; [lia|]. intros c _. destruct (hex4_digit c) as [d|] eqn:Ed; [|by wp_step].
  apply hex4_digit_range in Ed. cbv zeta.
  assert (16 ^ (5 - Z.of_nat (S n)) <= 16 ^ 4) as Hp by (apply Z.pow_le_mono_r; lia). change (16 ^ 4) with 65536 in Hp.
  rewrite (wrapu_small 32 (h + d)) by lia. destruct n as [|n]; [wp_step; by split; [|lia]|].
  assert (16 ^ (5 - Z.of_nat (S n)) = 16 ^ (5 - Z.of_nat (S (S n))) * 16) as E.
  { replace (5 - Z.of_nat (S n)) with (Z.succ (5 - Z.of_nat (S (S n)))) by lia. rewrite Z.pow_succ_r by lia. lia. }
  rewrite Z.shiftl_mul_pow2 by lia. change (2 ^ 4) with 16.
  assert (16 ^ (5 - Z.of_nat (S n)) <= 16 ^ 4) by (apply Z.pow_le_mono_r; lia). change (16 ^ 4) with 65536 in *.
  rewrite wrapu_small by lia. apply IH; lia.
Qed.

Lemma parse_hex4_safe i b : 0 <= i -> i + 4 <= blength -> wp (parse_hex4 content i) (fun v b' => b' = b /\ 0 <= v < 65536) b.
Proof. intros. apply parse_hex4_loop_safe; lia. Qed.

Lemma codepoint_utf8_length v : zlen (codepoint_utf8 v) <= 4 /\ (v < 65536 -> zlen (codepoint_utf8 v) <= 3).
Proof.
  unfold codepoint_utf8. cbv zeta. destruct (v <? 128), (v <? 2048), (Z.ltb_spec v 65536);
    rewrite !zlen_cons; change (zlen (@nil Z)) with 0; lia.
Qed.

(** What an escape gives fits where it stood. *)
Definition escape_fits (p e : Z) (r : option (Z * list Z)) : Prop :=
  match r with
  | None => True
  | Some (n, l) => p + n <= e /\ (n = 6 /\ zlen l <= 3 \/ n = 12 /\ zlen l <= 4)
  end.

Lemma utf16_safe p e b : 0 <= p -> e <= blength ->
  wp (utf16_literal_to_utf8 content p e) (fun r b' => b' = b /\ escape_fits p e r) b.
Proof.
  intros Hp He. unfold utf16_literal_to_utf8. destruct (Z.ltb_spec (e - p) 6); [by wp_step|].
  wp_step. eapply wp_mono; [apply parse_hex4_safe; lia|]. intros v ? [-> Hv]. destruct (_ && _); [by wp_step|].
  destruct (_ && _).
  - cbv zeta. destruct (Z.ltb_spec (e - (p + 6)) 6); [by wp_step|].
    apply at_index_bind; [lia|]. intros c0 _. destruct (negb (c0 =? c_bslash)); [by wp_step|].
    apply at_index_bind; [lia|]. intros c1 _. destruct (negb (c1 =? c_u)); [by wp_step|].
    wp_step. eapply wp_mono; [apply parse_hex4_safe; lia|]. intros w ? [-> Hw]. destruct (_ || _); [by wp_step|].
    wp_step. split; [done|]. split; [lia|]. right. split; [done|]. apply codepoint_utf8_length.
  - wp_step. split; [done|]. split; [lia|]. left. split; [done|]. apply codepoint_utf8_length. lia.
Qed.

Lemma push_safe {A} out l (K : cbuf -> BM A) Q b : zlen (data out) + zlen l <= cap out ->
  wp (K (mk_cbuf (cap out) (data out ++ l))) Q b -> wp (out <- push out l ;; K out) Q b.
Proof. intros Hc HK. wp_step. unfold push. rewrite buf_write_push by done. by wp_step. Qed.

Lemma string_copy_safe fuel : forall p e out b k, e < blength -> room p e k -> e - p <= Z.of_nat fuel ->
  zlen (data out) + k + 1 <= cap out ->
  wp (string_copy content fuel p e out) (fun r b' => b' = b /\ (r.1.1 = true -> zlen (data r.2) + 1 <= cap r.2)) b.
Proof.
  induction fuel as [|fuel IH]; intros p e out b k He Hr Hf Hc; cbn [string_copy].
  all: pose proof (room_nonneg _ _ _ Hr); destruct Hr as [Hp Hr]; pose proof (conj Hp Hr : room p e k) as Hroom; clear Hr.
  all: destruct (Z.ltb_spec p e); [|wp_step; by split; [|simpl; lia]].
  { lia. }
  apply at_index_bind; [lia|]. intros c Ec. destruct (Z.eqb_spec c c_bslash) as [->|Hn]; cbn [negb].
  - rewrite (proj2 (Z.ltb_ge _ _)) by lia. apply at_index_bind; [lia|]. intros c1 _.
    destruct (simple_escape c1) as [x|].
    + destruct (room_two p e k Hroom) as (k' & Hk & ?); [done|]. pose proof (room_nonneg _ _ _ Hk).
      apply push_safe; [change (zlen [x]) with 1; lia|]. eapply IH; [done|exact Hk|lia|].
      cbn [data cap]. rewrite zlen_app. change (zlen [x]) with 1. lia.
    + destruct (c1 =? c_u); [|by wp_step]. wp_step. eapply wp_mono; [apply utf16_safe; lia|].
      intros [[n l]|] ? [-> Hl]; [|by wp_step]. destruct Hl as [Hl Hs].
      assert (exists k', room (p + n) e k' /\ k' <= k - zlen l) as (k' & Hk & ?).
      { destruct Hs as [[-> ?]|[-> ?]].
        - destruct (room_even 3 p e k Hroom) as (k' & Hk & ?); [lia|]. exists k'. split; [done|lia].
        - destruct (room_even 6 p e k Hroom) as (k' & Hk & ?); [lia|]. exists k'. split; [done|lia]. }
      pose proof (room_nonneg _ _ _ Hk). apply push_safe; [lia|]. eapply IH; [done|exact Hk|lia|].
      cbn [data cap]. rewrite zlen_app. lia.
  - pose proof (room_plain p e k c Hroom ltac:(done) Ec Hn) as Hk. pose proof (room_nonneg _ _ _ Hk).
    apply push_safe; [change (zlen [c]) with 1; lia|]. eapply IH; [done|exact Hk|lia|].
    cbn [data cap]. rewrite zlen_app. change (zlen [c]) with 1. lia.
Qed.

Lemma parse_string_safe fuel b : inside b -> offset b < blength -> blength <= Z.of_nat fuel ->
  wp (parse_string content blength alloc fuel) (safely (fun _ b' => offset b < offset b') b) b.
Proof.
  intros Hb Hl Hf. pose proof Hb as Hb'. unfold inside in Hb'. unfold parse_string. wp_step. wp_step.
  apply at_index_bind; [lia|]. intros c _. destruct (negb (c =? c_quote)); [done|].
  wp_step. eapply wp_mono; [apply string_end_safe; lia|]. intros [[e s]|] ? [-> Hr]; [|done].
  rewrite Z.sub_0_r in Hr. pose proof (scan_bounds _ _ _ Hr) as (? & ? & ? & ? & _). cbv zeta.
  wp_step. eapply wp_mono; [apply allocate_safe|]. intros [] b1 [E1 D1]; cbn [negb]; [|done].
  wp_step. eapply wp_mono; [eapply (string_copy_safe fuel (offset b + 1) e _ _ (e - (offset b + 1) - s)); [lia| |lia|]|].
  - split; [lia|]. left. by exists s.
  - cbn [data cap]. change (zlen (@nil Z)) with 0. lia.
  - intros [[ok i] out] ? [-> Hc]. cbn [fst snd] in Hc. destruct ok; cbn [negb]; [|done].
    apply push_safe; [change (zlen [0]) with 1; by apply Hc|]. wp_step. unfold set_offset. do 2 wp_step.
    unfold safely, forward, inside. cbn [offset depth]. split; [|lia]. split; [lia|]. split; [lia|done].
Qed.

(** ** Containers *)

(** Skipping in front of a byte that can be read ends at one that can be read. *)
Lemma skip_key_safe {A} ws b (K : BM A) Q : inside b -> blength <= Z.of_nat ws -> offset b < blength ->
  (forall b', forward b b' -> offset b' < blength -> wp K Q b') -> wp (buffer_skip_whitespace content blength ws ;;; K) Q b.
Proof.
  intros Hb Hw Hl HK. wp_step. unfold buffer_skip_whitespace. apply can_access_bind. rewrite Z.add_0_r, (proj2 (Z.ltb_lt _ _)) by lia.
  cbn [negb]. wp_step. eapply wp_mono; [apply skip_loop_safe; [done|unfold inside in *; lia]|].
  intros ? b' Hm. wp_step. wp_step. pose proof Hm as (? & ? & ?). destruct (Z.eqb_spec (offset b') blength).
  - unfold add_offset. wp_step. apply HK; unfold forward, inside in *; simpl; lia.
  - wp_step. apply HK; [done|]. unfold inside in *. lia.
Qed.

(** [rec] parses a value safely, at depth [d], to an item nested at most [h] deep. *)
Definition parses_safely (rec : BM (option cJSON)) (h : nat) (d : Z) : Prop :=
  forall b, inside b -> depth b = d -> wp rec (safely (fun j _ => usable h j) b) b.

(** A loop gives items nested at most [h] deep. *)
Definition items_safely (b : parse_buffer) (h : nat) : option (list cJSON) -> parse_buffer -> Prop :=
  safely (fun js _ => Forall (usable h) js) b.

Lemma allocate_bind_safe {A} b (K : BM (option A)) Q : (forall b', Q None b') ->
  (forall b', offset b' = offset b -> depth b' = depth b -> wp K Q b') ->
  wp (ok <- allocate alloc ;; if negb ok then ret None else K) Q b.
Proof. intros Hn HK. apply allocate_bind; auto. Qed.

Lemma safely_bind {A B} (m : BM (option A)) (K : option A -> BM (option B)) P (Q : option B -> parse_buffer -> Prop) b :
  wp m (safely P b) b -> (forall b', wp (K None) Q b') ->
  (forall a b', forward b b' -> P a b' -> wp (K (Some a)) Q b') -> wp (r <- m ;; K r) Q b.
Proof. intros Hm Hn HK. wp_step. eapply wp_mono; [exact Hm|]. intros [a|] b'; [intros [? ?]; by apply HK|by auto]. Qed.

Lemma safely_weaken {A} (P : A -> parse_buffer -> Prop) b b1 r b' : forward b b1 -> safely P b1 r b' -> safely P b r b'.
Proof. intros Hf. destruct r as [a|]; [|done]. intros [Hf' HP]. split; [by eapply forward_trans|done]. Qed.

Section Loops.
Context (rec : BM (option cJSON)) (h : nat) (d : Z) (Hrec : parses_safely rec h d) (ws : nat) (Hws : blength <= Z.of_nat ws).

(** The character in front of the next element has been read and is not the NUL. *)
Lemma array_loop_safe fuel : forall items b, inside b -> offset b + 1 < blength -> depth b = d ->
  blength - offset b <= Z.of_nat fuel -> Forall (usable h) items ->
  wp (array_loop content blength alloc rec fuel ws items) (items_safely b h) b.
Proof.
  induction fuel as [|fuel IH]; intros items b Hb Hl Hd Hf Hi; [unfold inside in *; lia|]; cbn [array_loop].
  apply allocate_bind_safe; [done|]. intros b1 E1 D1. apply add_offset_bind. intros b2 E2 D2 _.
  assert (forward b b2) as F2 by (unfold forward, inside in *; split; [lia|split; [lia|congruence]]).
  apply skip_safe; [apply F2|done|]. intros b3 F3. pose proof (forward_trans _ _ _ F2 F3) as Fb3.
  eapply safely_bind; [apply Hrec; [apply F3|destruct Fb3 as (_ & _ & ->); done]|done|]. intros j b4 F4 Hj.
  apply skip_safe; [apply F4|done|]. intros b5 F5. pose proof (forward_trans _ _ _ (forward_trans _ _ _ F3 F4) F5) as F25.
  pose proof (forward_trans _ _ _ F2 F25) as F05.
  assert (Forall (usable h) (items ++ [j])) as Hi' by (apply Forall_app_2; [done|by apply Forall_singleton]).
  apply here_is_safe; [apply F5| |by wp_step].
  intros Hl5 Hc5. pose proof (not_last _ _ (conj (proj1 (proj1 F5)) Hl5) Hc5 ltac:(done)) as Hn5.
  pose proof F05 as (? & ? & ?). eapply wp_mono; [apply IH; [done|done|congruence| |done]|].
  - destruct F25 as (_ & ? & _). lia.
  - intros r b6. by apply safely_weaken.
Qed.

Lemma object_loop_safe fuel : forall items b, inside b -> offset b + 1 < blength -> depth b = d ->
  blength - offset b <= Z.of_nat fuel -> Forall (usable h) items ->
  wp (object_loop content blength alloc rec fuel ws items) (items_safely b h) b.
Proof.
  induction fuel as [|fuel IH]; intros items b Hb Hl Hd Hf Hi; [unfold inside in *; lia|]; cbn [object_loop].
  apply allocate_bind_safe; [done|]. intros b1 E1 D1. apply add_offset_bind. intros b2 E2 D2 _.
  assert (forward b b2) as F2 by (unfold forward, inside in *; split; [lia|split; [lia|congruence]]).
  apply skip_key_safe; [apply F2|done|lia|]. intros b3 F3 Hl3. pose proof (forward_trans _ _ _ F2 F3) as Fb3.
  eapply safely_bind; [apply parse_string_safe; [apply F3|done|done]|done|]. intros k b4 F4 _.
  apply skip_safe; [apply F4|done|]. intros b5 F5.
  apply here_is_safe; [apply F5| |done]. intros Hl5 Hc5. cbn [negb].
  apply add_offset_bind. intros b6 E6 D6 _.
  assert (forward b5 b6) as F6 by (unfold forward, inside in *; split; [lia|split; [lia|congruence]]).
  apply skip_safe; [apply F6|done|]. intros b7 F7.
  pose proof (forward_trans _ _ _ (forward_trans _ _ _ (forward_trans _ _ _ F4 F5) F6) F7) as F37.
  pose proof (forward_trans _ _ _ Fb3 F37) as F07.
  eapply safely_bind; [apply Hrec; [apply F7|destruct F07 as (_ & _ & ->); done]|done|]. intros j b8 F8 Hj.
  apply skip_safe; [apply F8|done|]. intros b9 F9. cbv zeta.
  pose proof (forward_trans _ _ _ (forward_trans _ _ _ F37 F8) F9) as F39. pose proof (forward_trans _ _ _ Fb3 F39) as F09.
  assert (Forall (usable h) (items ++ [set_jstring (Some k) j])) as Hi'.
  { apply Forall_app_2; [done|]. by apply Forall_singleton, usable_set_jstring. }
  apply here_is_safe; [apply F9| |by wp_step].
  intros Hl9 Hc9. pose proof (not_last _ _ (conj (proj1 (proj1 F9)) Hl9) Hc9 ltac:(done)) as Hn9.
  pose proof F09 as (? & ? & ?). eapply wp_mono; [apply IH; [done|done|congruence| |done]|].
  - destruct F39 as (_ & ? & _), F3 as (_ & ? & _). lia.
  - intros r b10. by apply safely_weaken.
Qed.
End Loops.

Lemma container_safe ws t opened close loop h b : Z.land t 255 <> cJSON_String -> inside b -> offset b < blength -> blength <= Z.of_nat ws ->
  (forall b', wp opened (fun _ b'' => b'' = b') b' \/ offset b' <> offset b) ->
  (forall b', inside b' -> offset b' + 1 < blength -> depth b' = depth b + 1 -> wp loop (items_safely b' h) b') ->
  wp (container content blength ws t opened close loop) (safely (fun j _ => usable (S h) j) b) b.
Proof.
  intros Ht Hb Hl Hw Ho Hloop. unfold container. wp_step. wp_step. destruct (_ <=? _); [done|].
  apply add_depth_bind. intros b1 E1 D1 _. wp_step. destruct (Ho b1) as [Hw1|?]; [|congruence].
  eapply wp_mono; [exact Hw1|]. intros [] ? ->; cbn [negb]; [|done].
  apply add_offset_bind. intros b2 E2 D2 _. assert (forward b1 b2) as F2 by (unfold forward, inside in *; lia).
  apply skip_safe; [apply F2|done|]. intros b3 F3. cbv zeta.
  assert (inside b3 /\ offset b + 1 <= offset b3 /\ depth b3 = depth b + 1) as (I3 & O3 & D3).
  { destruct F3 as (? & ? & ?). split; [done|]. split; [lia|congruence]. }
  assert (forall js b', inside b' -> offset b <= offset b' -> offset b' < blength -> depth b' = depth b + 1 ->
    Forall (usable h) js ->
    wp (add_depth (-1) ;;; add_offset 1 ;;; ret (Some (Node t js None 0 D_zero None)))
      (safely (fun j _ => usable (S h) j) b) b') as Hs.
  { intros js b' I' O' L' D' Hjs. apply add_depth_bind. intros b4 E4 D4 _. apply add_offset_bind. intros b5 E5 D5 _. wp_step.
    split; [|by apply usable_children]. unfold forward, inside in *. lia. }
  apply here_is_safe; [done|intros L3 _; apply Hs; [done|lia|done|done|constructor]|].
  apply can_access_bind. rewrite Z.add_0_r. destruct (Z.ltb_spec (offset b3) blength); cbn [negb]; [|done].
  apply add_offset_bind. intros b4 E4 D4 _. assert (inside b4) as I4 by (unfold inside in *; lia).
  eapply safely_bind; [apply Hloop; [done|lia|congruence]|done|]. intros js b5 F5 Hjs.
  apply here_is_safe; [apply F5| |done]. intros L5 _. destruct F5 as (? & ? & ?). apply Hs; [done|lia|done|congruence|done].
Qed.

(** ** Values *)

Lemma literal_safe n t i b : (Z.land t 255 =? cJSON_String) = false -> inside b -> offset b + n <= blength -> 0 <= n ->
  wp (add_offset n ;;; ret (Some (Node t [] None i D_zero None))) (safely (fun j _ => usable 1 j) b) b.
Proof. intros Ht Hb Hl Hn. apply add_offset_bind. intros b1 E1 D1 _. wp_step. split; [|apply usable_leaf; by rewrite Ht]. unfold forward, inside in *. lia. Qed.

Lemma here_is_keeps x b : inside b -> wp (here_is content blength x) (fun _ b' => b' = b) b.
Proof.
  intros Hb. pose proof (here_is_safe x b ret (fun _ b' => b' = b) Hb (fun _ _ => eq_refl) eq_refl) as H.
  by apply wp_bind_inv in H.
Qed.

(** A usable item that respects the nesting limit at the reader's depth. *)
Definition shallow (b : parse_buffer) (j : cJSON) (_ : parse_buffer) : Prop :=
  Z.of_nat (nesting j) <= CJSON_NESTING_LIMIT - depth b + 1 /\ has_texts j = true.

Lemma container_limit ws t opened close loop b : Z.land t 255 <> cJSON_String -> inside b -> offset b < blength -> blength <= Z.of_nat ws ->
  (forall b', inside b' -> wp opened (fun _ b'' => b'' = b') b' \/ blength <= offset b') ->
  (forall b', depth b < CJSON_NESTING_LIMIT -> inside b' -> offset b' + 1 < blength -> depth b' = depth b + 1 ->
    wp loop (items_safely b' (Z.to_nat (CJSON_NESTING_LIMIT - depth b))) b') ->
  wp (container content blength ws t opened close loop) (safely (shallow b) b) b.
Proof.
  intros Ht Hb Hl Hw Ho Hloop. destruct (Z.leb_spec CJSON_NESTING_LIMIT (depth b)) as [Hge|Hlt].
  - unfold container. wp_step. wp_step. by rewrite (proj2 (Z.leb_le _ _)).
  - eapply wp_mono; [eapply (container_safe ws t opened close loop); [done..| |auto]|].
    + intros b'. destruct (decide (offset b' = offset b)) as [E|]; [|by right]. unfold inside in *.
      destruct (Ho b') as [|?]; [lia|by left|lia].
    + intros [j|] b1; [|done]. intros [F1 [Hj Hx]]. split; [done|]. unfold shallow. split; [lia|done].
Qed.

Lemma nested_safe fuel rec c b : blength <= Z.of_nat fuel -> inside b -> offset b < blength ->
  (depth b < CJSON_NESTING_LIMIT -> parses_safely rec (Z.to_nat (CJSON_NESTING_LIMIT - depth b)) (depth b + 1)) ->
  wp (if c =? c_lbrack then parse_array content blength alloc rec fuel
      else if c =? c_lbrace then parse_object content blength alloc rec fuel else ret None) (safely (shallow b) b) b.
Proof.
  intros Hf Hb Hl Hrec. destruct (c =? c_lbrack); [|destruct (c =? c_lbrace); [|done]]; apply container_limit; try done.
  - intros b' Hb'. destruct (Z.ltb_spec (offset b') blength); [left|by right]. by apply here_safe.
  - intros b' Hd I' L' D'. eapply array_loop_safe; [by apply Hrec|done..|unfold inside in *; lia|constructor].
  - intros b' Hb'. left. by apply here_is_keeps.
  - intros b' Hd I' L' D'. eapply object_loop_safe; [by apply Hrec|done..|unfold inside in *; lia|constructor].
Qed.

(** Containers are nested at most as deep as the limit leaves room for. *)
Lemma parse_value_safe levels fuel : blength <= Z.of_nat fuel -> forall b, inside b ->
  CJSON_NESTING_LIMIT < depth b + Z.of_nat levels -> depth b <= CJSON_NESTING_LIMIT ->
  wp (parse_value content blength alloc levels fuel) (safely (shallow b) b) b.
Proof.
  intros Hf. induction levels as [|levels IH]; intros b Hb Hlev Hd; [lia|].
  assert (forall r b', safely (fun j (_ : parse_buffer) => usable 1 j) b r b' -> safely (shallow b) b r b') as Hleaf.
  { intros [j|] b'; [|done]. intros [? [? ?]]. split; [done|]. unfold shallow. split; [lia|done]. }
  cbn [parse_value].
  do 3 (apply looking_at_safe; [done|intros; eapply wp_mono; [by apply literal_safe|exact Hleaf]|]).
  apply here_is_safe; [done| |].
  { intros Hl _. wp_step. eapply wp_mono; [by apply parse_string_safe|]. intros [s|] b1; [|done].
    intros [F1 _]. wp_step. split; [done|]. unfold shallow. cbn. split; [lia|done]. }
  apply can_access_bind. rewrite Z.add_0_r. destruct (Z.ltb_spec (offset b) blength) as [Hl|]; cbn [negb]; [|done].
  apply here_safe; [done..|]. intros c Hc. destruct (_ || _).
  { eapply wp_mono; [by apply parse_number_safe|]. intros [j|] b1; [|done]. intros [F1 [Hj Hx]]. split; [done|]. unfold shallow. split; [lia|done]. }
  apply nested_safe; [done..|]. intros Hlt b' Hb' Hd'.
  eapply wp_mono; [apply IH; [done|lia|lia]|]. intros [j|] b1; [|done]. intros [F1 [Hj Hx]]. split; [done|]. split; [lia|done].
Qed.

Lemma parse_opts_safe rnt : 0 <= blength ->
  wp (cJSON_ParseWithLengthOpts content blength alloc rnt)
    (fun r _ => match r with None => True | Some j => usable 1001 j end) (mk_pb 0 0 0 false).
Proof.
  intros Hpos. unfold cJSON_ParseWithLengthOpts. destruct (Z.eqb_spec blength 0); [by wp_step|]. cbv zeta.
  apply allocate_bind_safe; [done|]. intros b1 E1 D1. cbn [offset depth] in E1, D1.
  assert (inside b1) as I1 by (unfold inside; lia). assert (blength <= Z.of_nat (Z.to_nat blength)) as Hf by lia.
  apply bom_safe; [done|]. intros b2 F2. apply skip_safe; [apply F2|done|]. intros b3 F3.
  pose proof (forward_trans _ _ _ F2 F3) as (I3 & _ & D3).
  eapply safely_bind; [apply parse_value_safe; [done|done|rewrite D3, D1; unfold max_levels, CJSON_NESTING_LIMIT; lia|unfold CJSON_NESTING_LIMIT; lia]|done|].
  intros j b4 F4 [Hj Hx]. unfold CJSON_NESTING_LIMIT in Hj. assert (usable 1001 j) as Hn by (split; [lia|done]).
  destruct rnt; [|by wp_step]. apply skip_safe; [apply F4|done|]. intros b5 F5. wp_step. wp_step.
  destruct (Z.leb_spec blength (offset b5)); [done|]. apply here_safe; [apply F5|done|]. intros c _. by destruct (c =? 0).
Qed.

End Safety.

Create HintDb oom.

(** ** Memory that suffices

    When every allocation succeeds the reader never reports a lack of memory. *)

Section Memory.
Context (content : list Z) (blength : Z) (alloc : nat -> bool) (Halloc : forall k, alloc k = true).

Definition keeps_oom {A} (m : BM A) : Prop :=
  forall b, match m b with Ret (_, b') => oom b' = oom b | _ => True end.

Lemma keeps_oom_ret {A} (a : A) : keeps_oom (ret a).
Proof. done. Qed.

Lemma keeps_oom_bind {A B} (m : BM A) (k : A -> BM B) : keeps_oom m -> (forall a, keeps_oom (k a)) -> keeps_oom (bind m k).
Proof.
  intros Hm Hk b. unfold bind. specialize (Hm b). destruct (m b) as [[a b']| |]; [|done|done].
  specialize (Hk a b'). destruct (k a b') as [[c b'']| |]; [congruence|done|done].
Qed.

Lemma keeps_oom_gets {A} (f : parse_buffer -> A) : keeps_oom (gets f).
Proof. done. Qed.

Lemma keeps_oom_at_index i : keeps_oom (at_index content i).
Proof. intros b. unfold at_index. destruct (i <? 0); [done|]. by destruct (_ !! _). Qed.

Lemma keeps_oom_allocate : keeps_oom (allocate alloc).
Proof. intros b. cbn. by rewrite Halloc, orb_false_r. Qed.

Lemma keeps_oom_add_offset n : keeps_oom (add_offset n).
Proof. done. Qed.

Lemma keeps_oom_add_depth n : keeps_oom (add_depth n).
Proof. done. Qed.

Lemma keeps_oom_set_offset n : keeps_oom (set_offset n).
Proof. done. Qed.

Lemma keeps_oom_undefined {A} : keeps_oom (@undefined _ A).
Proof. done. Qed.

Lemma keeps_oom_fuel {A} : keeps_oom (@out_of_fuel _ A).
Proof. done. Qed.

#[local] Hint Resolve keeps_oom_ret keeps_oom_gets keeps_oom_at_index keeps_oom_allocate
  keeps_oom_add_offset keeps_oom_add_depth keeps_oom_set_offset keeps_oom_undefined keeps_oom_fuel : oom.

(** Through the structure of a computation. *)
Ltac keep_oom :=
  intros; cbv zeta;
  repeat first [ solve [eauto with oom] | apply keeps_oom_bind; [|intros] | case_match | progress cbv zeta ].

Lemma keeps_oom_can_access i : keeps_oom (can_access blength i).
Proof. done. Qed.

Lemma keeps_oom_can_read i : keeps_oom (can_read blength i).
Proof. done. Qed.

Lemma keeps_oom_here : keeps_oom (here content).
Proof. unfold here. keep_oom. Qed.

#[local] Hint Resolve keeps_oom_can_access keeps_oom_can_read keeps_oom_here : oom.

Lemma keeps_oom_here_is x : keeps_oom (here_is content blength x).
Proof. unfold here_is. keep_oom. Qed.

Lemma keeps_oom_same_text l : forall i, keeps_oom (same_text content i l).
Proof. induction l as [|x l IH]; intros i; cbn [same_text]; keep_oom. Qed.

#[local] Hint Resolve keeps_oom_here_is keeps_oom_same_text : oom.

Lemma keeps_oom_looking_at l : keeps_oom (looking_at content blength l).
Proof. unfold looking_at. keep_oom. Qed.

Lemma keeps_oom_skip_loop fuel : keeps_oom (skip_loop content blength fuel).
Proof. induction fuel as [|fuel IH]; cbn [skip_loop]; keep_oom. Qed.

#[local] Hint Resolve keeps_oom_looking_at keeps_oom_skip_loop : oom.

Lemma keeps_oom_skip ws : keeps_oom (buffer_skip_whitespace content blength ws).
Proof. unfold buffer_skip_whitespace. keep_oom. Qed.

Lemma keeps_oom_number_text n : forall i, keeps_oom (number_text content blength n i).
Proof. induction n as [|n IH]; intros i; cbn [number_text]; keep_oom. Qed.

Lemma keeps_oom_hex4_loop n : forall i h, keeps_oom (parse_hex4_loop content n i h).
Proof. induction n as [|n IH]; intros i h; cbn [parse_hex4_loop]; keep_oom. Qed.

Lemma keeps_oom_string_end fuel : forall i sk, keeps_oom (string_end content blength fuel i sk).
Proof. induction fuel as [|fuel IH]; intros i sk; cbn [string_end]; keep_oom. Qed.

Lemma keeps_oom_push out l : keeps_oom (push out l).
Proof. unfold push. keep_oom. Qed.

#[local] Hint Resolve keeps_oom_skip keeps_oom_number_text keeps_oom_hex4_loop keeps_oom_string_end keeps_oom_push : oom.

Lemma keeps_oom_utf16 p e : keeps_oom (utf16_literal_to_utf8 content p e).
Proof. unfold utf16_literal_to_utf8, parse_hex4. keep_oom. Qed.

#[local] Hint Resolve keeps_oom_utf16 : oom.

Lemma keeps_oom_string_copy fuel : forall i e out, keeps_oom (string_copy content fuel i e out).
Proof. induction fuel as [|fuel IH]; intros i e out; cbn [string_copy]; keep_oom. Qed.

#[local] Hint Resolve keeps_oom_string_copy : oom.

Lemma keeps_oom_string fuel : keeps_oom (parse_string content blength alloc fuel).
Proof. unfold parse_string. keep_oom. Qed.

Lemma keeps_oom_number : keeps_oom (parse_number content blength).
Proof. unfold parse_number. keep_oom. Qed.

#[local] Hint Resolve keeps_oom_string keeps_oom_number : oom.

Lemma keeps_oom_array rec ws : keeps_oom rec -> forall fuel items, keeps_oom (array_loop content blength alloc rec fuel ws items).
Proof. intros Hr fuel. induction fuel as [|fuel IH]; intros items; cbn [array_loop]; keep_oom. Qed.

Lemma keeps_oom_object rec ws : keeps_oom rec -> forall fuel items, keeps_oom (object_loop content blength alloc rec fuel ws items).
Proof. intros Hr fuel. induction fuel as [|fuel IH]; intros items; cbn [object_loop]; keep_oom. Qed.

#[local] Hint Resolve keeps_oom_array keeps_oom_object : oom.

Lemma keeps_oom_value fuel levels : keeps_oom (parse_value content blength alloc levels fuel).
Proof.
  induction levels as [|levels IH]; cbn [parse_value]; unfold parse_array, parse_object, container; keep_oom.
Qed.

#[local] Hint Resolve keeps_oom_value : oom.

Lemma keeps_oom_parse rnt : keeps_oom (cJSON_ParseWithLengthOpts content blength alloc rnt).
Proof. unfold cJSON_ParseWithLengthOpts, skip_utf8_bom. keep_oom. Qed.

Lemma run_parse_memory rnt q o : run_parse content blength alloc rnt = Ret (q, o) -> o = false.
Proof.
  unfold run_parse. pose proof (keeps_oom_parse rnt (mk_pb 0 0 0 false)) as H.
  destruct (cJSON_ParseWithLengthOpts _ _ _ _ _) as [[r b]| |]; [|done|done]. by intros [= _ <-].
Qed.
End Memory.

(** ** C strings *)

Lemma cstr_nul value : 0 ∈ value -> value !! length (cstr value) = Some 0.
Proof.
  induction value as [|c value IH]; intros Hin; [by apply elem_of_nil in Hin|]. cbn [cstr].
  destruct (Z.eqb_spec c 0) as [->|Hc]; [done|]. apply elem_of_cons in Hin as [?|Hin]; [congruence|]. by apply IH.
Qed.

Lemma parse_returns value alloc : 0 ∈ value ->
  exists r o, cJSON_Parse alloc value = Ret (r, o) /\ match r with None => True | Some j => usable 1001 j end.
Proof.
  intros Hin. pose proof (cstr_nul value Hin) as E. pose proof (lookup_lt_Some _ _ _ E) as Hl.
  unfold cJSON_Parse. rewrite bool_decide_true by done. unfold run_parse.
  pose proof (parse_opts_safe value (zlen (cstr value) + 1) alloc) as H.
  destruct (wp_returns _ _ _ (H ltac:(unfold zlen; lia) ltac:(intros _; by replace (Z.to_nat (zlen (cstr value) + 1 - 1)) with (length (cstr value)) by (unfold zlen; lia)) false ltac:(pose proof (zlen_nonneg (cstr value)); lia))) as (r & b & -> & Hr).
  by exists r, (oom b).
Qed.

(** C35: whatever text a C string holds, parsing it reads and stores only inside
    the string and the blocks allocated for it, returns, and gives no item or
    one nested at most 1001 deep (the nesting limit and a leaf) in which every
    string has its text. *)
Theorem cjson_parse_safe value alloc (Hin : 0 ∈ value) :
  exists r o, cJSON_Parse alloc value = Ret (r, o) /\ match r with None => True | Some j => usable 1001 j end.
Proof. by apply parse_returns. Qed.

(** A literal with an incomplete escape in front of a pair of backslashes. *)
Lemma cjson_parse_safe_witness :
  exists r o, cJSON_Parse (fun _ => true) [34; 97; 92; 117; 49; 50; 51; 92; 92; 34; 0] = Ret (r, o) /\
    match r with None => True | Some j => usable 1001 j end.
Proof. apply cjson_parse_safe. apply list_elem_of_In. vm_compute. tauto. Defined.
