(* ===== verification/IperfTest.v ===== *)
(** * The state of a test

    [struct iperf_test], [struct iperf_settings], [struct iperf_stream] and
    [struct iperf_stream_result] of [iperf.h], with the fields the parameter and
    result exchange and the state machines use, and the functions of
    [iperf_api.c] that set up and reset a test.

    An [int], also one used as a flag, is its value in [Z]; a [char *] is the C
    string or nothing for NULL; the selected protocol is its identifier. *)

From S2P Require Import Prelude Bytes Time Double.
Local Open Scope c_scope.

(** ** Constants *)

Definition Ptcp : Z := 1.
Definition Pudp : Z := 2.
Definition Psctp : Z := 12.

Definition SENDER : Z := 1.
Definition RECEIVER : Z := 0.
Definition BIDIRECTIONAL : Z := -1.

(** The roles ['c'] and ['s']. *)
Definition role_client : Z := 99.
Definition role_server : Z := 115.

Definition OMIT : Z := 0.
Definition DURATION : Z := 10.
Definition DEFAULT_UDP_BLKSIZE : Z := 1460.
Definition DEFAULT_TCP_BLKSIZE : Z := 131072.
Definition DEFAULT_PACING_TIMER : Z := 1000.
Definition MB : Z := 1048576.
Definition MAX_TCP_BUFFER : Z := 512 * MB.
Definition MAX_BLOCKSIZE : Z := MB.
Definition MIN_UDP_BLOCKSIZE : Z := 16.
Definition MAX_UDP_BLOCKSIZE : Z := 65507.
Definition MAX_TIME : Z := 86400.
Definition MAX_OMIT_TIME : Z := 600.
Definition MAX_BURST : Z := 1000.
Definition MAX_MSS : Z := 32767.
Definition MAX_STREAMS : Z := 128.
Definition MAX_PARAMS_JSON_STRING : Z := 8192.
Definition GSO_BF_MAX_SIZE : Z := MAX_UDP_BLOCKSIZE.
Definition GRO_BF_MAX_SIZE : Z := MAX_UDP_BLOCKSIZE.

Definition IEDURATION : Z := 5.
Definition IENUMSTREAMS : Z := 6.
Definition IEBLOCKSIZE : Z := 7.
Definition IEBUFSIZE : Z := 8.
Definition IEMSS : Z := 10.
Definition IENOSENDFILE : Z := 11.
Definition IEOMIT : Z := 12.
Definition IEBURST : Z := 15.
Definition IEUDPBLOCKSIZE : Z := 20.
Definition IEBADTOS : Z := 21.
Definition IETOTALRATE : Z := 27.
Definition IEUDPFILETRANSFER : Z := 34.
Definition IEMAXSERVERTESTDURATIONEXCEEDED : Z := 37.
Definition IESENDPARAMS : Z := 113.
Definition IERECVPARAMS : Z := 114.
Definition IEPACKAGERESULTS : Z := 115.
Definition IESENDRESULTS : Z := 116.
Definition IERECVRESULTS : Z := 117.
Definition IEPROTOCOL : Z := 131.
Definition IEAFFINITY : Z := 132.
Definition IESTREAMID : Z := 208.
Definition IESTREAMWRITE : Z := 205.
Definition IESTREAMREAD : Z := 206.

Definition TEST_START : Z := 1.
Definition TEST_RUNNING : Z := 2.
Definition TEST_END : Z := 4.
Definition PARAM_EXCHANGE : Z := 9.
Definition CREATE_STREAMS : Z := 10.
Definition SERVER_TERMINATE : Z := 11.
Definition CLIENT_TERMINATE : Z := 12.
Definition EXCHANGE_RESULTS : Z := 13.
Definition DISPLAY_RESULTS : Z := 14.
Definition IPERF_START : Z := 15.
Definition IPERF_DONE : Z := 16.
Definition ACCESS_DENIED : Z := -1.
Definition SERVER_ERROR : Z := -2.

(** ** Data *)

Definition text : Type := list Z.

Record iperf_settings := mk_settings {
  socket_bufsize : Z; blksize : Z; rate : Z; bitrate_limit : Z; bitrate_limit_stats_per_interval : Z;
  fqrate : Z; pacing_timer : Z; burst : Z; mss : Z; tos : Z; flowlabel : Z; bytes : Z; blocks : Z;
  dont_fragment : Z; authtoken : option text; client_username : option text; client_password : option text;
  client_rsa_pubkey : bool; skip_rx_copy : Z;
  idle_timeout : Z; rcv_timeout : iperf_time;
  gso : Z; gso_dg_size : Z; gso_bf_size : Z; gro : Z; gro_bf_size : Z }.

#[export] Instance settings_eta : Eta iperf_settings := fun s => mk_settings
  (socket_bufsize s) (blksize s) (rate s) (bitrate_limit s) (bitrate_limit_stats_per_interval s)
  (fqrate s) (pacing_timer s) (burst s) (mss s) (tos s) (flowlabel s) (bytes s) (blocks s)
  (dont_fragment s) (authtoken s) (client_username s) (client_password s) (client_rsa_pubkey s) (skip_rx_copy s)
  (idle_timeout s) (rcv_timeout s)
  (gso s) (gso_dg_size s) (gso_bf_size s) (gro s) (gro_bf_size s).

(** What the system says about a TCP connection ([TCP_CONNECTION_INFO]). *)
Record tcp_connection_info := mk_conn_info { tcpi_txretransmitpackets : Z; tcpi_snd_cwnd : Z; tcpi_srtt : Z; tcpi_rttvar : Z }.

(** The fields only UDP's intervals have, and those of TCP's. *)
Record datagram_counts := mk_datagrams {
  interval_packet_count : Z; interval_outoforder_packets : Z; interval_cnt_error : Z;
  ir_packet_count : Z; ir_jitter : double; ir_outoforder_packets : Z; ir_cnt_error : Z }.

Record segment_counts := mk_segments { interval_retrans : Z; snd_cwnd : Z; snd_wnd : Z; reorder : Z }.

(** [None] for fields that hold no value yet. *)
Record iperf_interval_results := mk_interval {
  bytes_transferred : Z; interval_start_time : iperf_time; interval_end_time : iperf_time; interval_duration : double;
  datagrams : option datagram_counts; omitted : Z; tcpConnInfo : option tcp_connection_info; segments : option segment_counts;
  rtt : Z; rttvar : Z; pmtu : Z }.

#[export] Instance interval_eta : Eta iperf_interval_results := fun i => mk_interval
  (bytes_transferred i) (interval_start_time i) (interval_end_time i) (interval_duration i)
  (datagrams i) (omitted i) (tcpConnInfo i) (segments i) (rtt i) (rttvar i) (pmtu i).

Record iperf_stream_result := mk_result {
  bytes_sent : Z; bytes_sent_omit : Z; bytes_received : Z; stream_retrans : Z;
  bytes_sent_this_interval : Z; bytes_received_this_interval : Z;
  start_time : iperf_time; end_time : iperf_time; sender_time : double; receiver_time : double;
  start_time_fixed : iperf_time; stream_prev_total_retrans : Z; stream_reorder : Z;
  stream_max_rtt : Z; stream_min_rtt : Z; stream_sum_rtt : Z; stream_count_rtt : Z;
  stream_max_snd_cwnd : Z; stream_max_snd_wnd : Z; interval_results : list iperf_interval_results }.

#[export] Instance result_eta : Eta iperf_stream_result := fun r => mk_result
  (bytes_sent r) (bytes_sent_omit r) (bytes_received r) (stream_retrans r)
  (bytes_sent_this_interval r) (bytes_received_this_interval r) (start_time r) (end_time r) (sender_time r) (receiver_time r)
  (start_time_fixed r) (stream_prev_total_retrans r) (stream_reorder r)
  (stream_max_rtt r) (stream_min_rtt r) (stream_sum_rtt r) (stream_count_rtt r)
  (stream_max_snd_cwnd r) (stream_max_snd_wnd r) (interval_results r).

(** A descriptor is its number; [buffer] is the length of the mapped memory. *)
Record iperf_stream := mk_stream {
  id : Z; sender : bool; result : iperf_stream_result;
  packet_count : Z; peer_packet_count : Z; peer_omitted_packet_count : Z; omitted_packet_count : Z;
  jitter : double; prev_transit : double; outoforder_packets : Z; omitted_outoforder_packets : Z;
  cnt_error : Z; omitted_cnt_error : Z;
  thread_created : Z; socket : Z; green_light : Z; pending_size : Z; stream_done : Z; buffer_fd : Z; buffer : Z; diskfile_fd : Z }.

#[export] Instance stream_eta : Eta iperf_stream := fun s => mk_stream
  (id s) (sender s) (result s) (packet_count s) (peer_packet_count s) (peer_omitted_packet_count s) (omitted_packet_count s)
  (jitter s) (prev_transit s) (outoforder_packets s) (omitted_outoforder_packets s) (cnt_error s) (omitted_cnt_error s)
  (thread_created s) (socket s) (green_light s) (pending_size s) (stream_done s) (buffer_fd s) (buffer s) (diskfile_fd s).

(** The counters of the whole test are [test_bytes_sent] and so on here. *)
Record iperf_test := mk_test {
  role : Z; mode : Z; sender_has_retransmits : Z; other_side_has_retransmits : Z;
  protocols : list Z; protocol : Z; state : Z;
  omit : Z; duration : Z; max_server_duration : Z; diskfile_name : option text; server_affinity : Z;
  title : option text; extra_data : option text; congestion : option text; congestion_used : option text;
  remote_congestion_used : option text;
  no_delay : Z; reverse : Z; bidirectional : Z; zerocopy : Z; get_server_output : Z; udp_counters_64bit : Z;
  repeating_payload : Z; num_streams : Z; server_output_byte_limit : Z;
  cpu_util : double * double * double; remote_cpu_util : double * double * double;
  streams : list iperf_stream; settings : iperf_settings;
  done : Z; omitting : Z; multisend : Z; stats_interval : double; ctrl_sck : Z; listener : Z; prot_listener : Z;
  test_bytes_sent : Z; test_blocks_sent : Z; test_bytes_received : Z; test_blocks_received : Z;
  bitrate_limit_stats_count : Z; bitrate_limit_intervals_traffic_bytes : list Z;
  bitrate_limit_last_interval_index : Z; bitrate_limit_exceeded : Z; reporter_interval : double }.

#[export] Instance test_eta : Eta iperf_test := fun t => mk_test
  (role t) (mode t) (sender_has_retransmits t) (other_side_has_retransmits t)
  (protocols t) (protocol t) (state t)
  (omit t) (duration t) (max_server_duration t) (diskfile_name t) (server_affinity t)
  (title t) (extra_data t) (congestion t) (congestion_used t) (remote_congestion_used t)
  (no_delay t) (reverse t) (bidirectional t) (zerocopy t) (get_server_output t) (udp_counters_64bit t)
  (repeating_payload t) (num_streams t) (server_output_byte_limit t)
  (cpu_util t) (remote_cpu_util t) (streams t) (settings t)
  (done t) (omitting t) (multisend t) (stats_interval t) (ctrl_sck t) (listener t) (prot_listener t)
  (test_bytes_sent t) (test_blocks_sent t) (test_bytes_received t) (test_blocks_received t)
  (bitrate_limit_stats_count t) (bitrate_limit_intervals_traffic_bytes t)
  (bitrate_limit_last_interval_index t) (bitrate_limit_exceeded t) (reporter_interval t).

(** A new stream's memory is zeroed. *)
Definition zero_result : iperf_stream_result :=
  mk_result 0 0 0 0 0 0 (mk_time 0 0) (mk_time 0 0) D_zero D_zero (mk_time 0 0) 0 0 0 0 0 0 0 0 [].

Definition zero_stream : iperf_stream :=
  mk_stream 0 false zero_result 0 0 0 0 D_zero D_zero 0 0 0 0 0 0 0 0 0 0 0 0.

(** A field of the settings. *)
Notation "t <|s f := v |>" := (update settings (update f (fun _ => v)) t)
  (at level 1, f at level 0, left associativity) : c_scope.

(** ** Roles, directions and protocols *)

(** On this platform; [Apple] headers without [TCP_CONNECTION_INFO] give 0. *)
Definition has_tcpinfo_retransmits : Z := 1.
Definition has_sendfile : Z := 1.

Definition check_sender_has_retransmits (t : iperf_test) : iperf_test :=
  if negb (mode t =? RECEIVER) && (protocol t =? Ptcp) && negb (has_tcpinfo_retransmits =? 0)
  then t <| sender_has_retransmits := 1 |>
  else t <| sender_has_retransmits := 0 |>.

Definition iperf_set_test_role (r : Z) (t : iperf_test) : iperf_test :=
  let t := t <| role := r |> in
  let t :=
    if reverse t =? 0 then
      if negb (bidirectional t =? 0) then t <| mode := BIDIRECTIONAL |>
      else if r =? role_client then t <| mode := SENDER |>
      else if r =? role_server then t <| mode := RECEIVER |> else t
    else if r =? role_client then t <| mode := RECEIVER |>
    else if r =? role_server then t <| mode := SENDER |> else t in
  check_sender_has_retransmits t.

Definition iperf_set_test_reverse (v : Z) (t : iperf_test) : iperf_test :=
  let t := t <| reverse := v |> in
  let t :=
    if reverse t =? 0 then
      if role t =? role_client then t <| mode := SENDER |>
      else if role t =? role_server then t <| mode := RECEIVER |> else t
    else if role t =? role_client then t <| mode := RECEIVER |>
    else if role t =? role_server then t <| mode := SENDER |> else t in
  check_sender_has_retransmits t.

Definition iperf_set_test_bidirectional (v : Z) (t : iperf_test) : iperf_test :=
  let t := t <| bidirectional := v |> in
  if negb (v =? 0) then t <| mode := BIDIRECTIONAL |> else iperf_set_test_reverse (reverse t) t.

(** The protocol, or [None] for an unknown one, which sets [IEPROTOCOL]. *)
Definition set_protocol (prot_id : Z) (t : iperf_test) : option iperf_test :=
  if existsb (Z.eqb prot_id) (protocols t) then Some (check_sender_has_retransmits (t <| protocol := prot_id |>)) else None.

(** ** A new test, and one reset for the next client *)

Definition zero_settings : iperf_settings :=
  mk_settings 0 0 0 0 0 0 0 0 0 0 0 0 0 0 None None None false 0 0 (mk_time 0 0) 0 0 0 0 0.

(** The length of the cyclic array of the last intervals' traffic. *)
Definition MAX_INTERVAL : Z := 60.

(** The zeroed memory of [iperf_new_test]; [protocol] is a null pointer. *)
Definition iperf_new_test : iperf_test :=
  mk_test 0 0 0 0 [] 0 0 0 0 0 None 0 None None None None None 0 0 0 0 0 0 0 0 0
    (D_zero, D_zero, D_zero) (D_zero, D_zero, D_zero) [] zero_settings
    0 0 0 D_zero 0 0 0 0 0 0 0 0 (repeat 0 (Z.to_nat MAX_INTERVAL)) 0 0 D_zero.

Definition iperf_defaults (t : iperf_test) : iperf_test :=
  let t := t <| omit := OMIT |> <| duration := DURATION |> <| diskfile_name := None |> <| server_affinity := -1 |>
    <| title := None |> <| extra_data := None |> <| congestion := None |> <| congestion_used := None |>
    <| remote_congestion_used := None |> <| ctrl_sck := -1 |> <| listener := -1 |> <| prot_listener := -1 |> <| other_side_has_retransmits := 0 |>
    <| reporter_interval := D_of_Z 1 |> <| stats_interval := D_of_Z 1 |> <| num_streams := 1 |> in
  let t := t <|s socket_bufsize := 0 |> <|s blksize := DEFAULT_TCP_BLKSIZE |> <|s rate := 0 |> <|s bitrate_limit := 0 |>
    <|s bitrate_limit_stats_per_interval := 0 |> <|s fqrate := 0 |> <|s pacing_timer := DEFAULT_PACING_TIMER |> <|s burst := 0 |>
    <|s gso := 0 |> <|s gso_dg_size := 0 |> <|s gso_bf_size := GSO_BF_MAX_SIZE |> <|s gro := 0 |> <|s gro_bf_size := GRO_BF_MAX_SIZE |>
    <|s mss := 0 |> <|s bytes := 0 |> <|s blocks := 0 |> <|s rcv_timeout := mk_time 120 0 |> <|s skip_rx_copy := 0 |> in
  let t := t <| zerocopy := 0 |> <| multisend := 10 |> <| streams := [] |> <| protocols := [Ptcp; Pudp] |> in
  default t (set_protocol Ptcp t).

Definition iperf_reset_test (t : iperf_test) : iperf_test :=
  let t := if negb (server_output_byte_limit t =? 0) then t <| get_server_output := 0 |> else t in
  let t := t <| streams := [] |> <| done := 0 |> <| congestion := None |> <| remote_congestion_used := None |>
    <| role := role_server |> <| mode := RECEIVER |> <| sender_has_retransmits := 0 |> in
  let t := default t (set_protocol Ptcp t) in
  let t := t <| omit := OMIT |> <| duration := DURATION |> <| server_affinity := -1 |> <| state := 0 |> <| ctrl_sck := -1 |> <| listener := -1 |> <| prot_listener := -1 |>
    <| test_bytes_sent := 0 |> <| test_blocks_sent := 0 |> <| test_bytes_received := 0 |> <| test_blocks_received := 0 |>
    <| other_side_has_retransmits := 0 |> <| bitrate_limit_stats_count := 0 |> <| bitrate_limit_last_interval_index := 0 |>
    <| bitrate_limit_exceeded := 0 |> <| bitrate_limit_intervals_traffic_bytes := repeat 0 (Z.to_nat MAX_INTERVAL) |> <| reverse := 0 |> <| bidirectional := 0 |> <| no_delay := 0 |> <| num_streams := 1 |> in
  let t := t <|s socket_bufsize := 0 |> <|s blksize := DEFAULT_TCP_BLKSIZE |> <|s rate := 0 |> <|s fqrate := 0 |> <|s burst := 0 |>
    <|s mss := 0 |> <|s tos := 0 |> <|s gso_dg_size := 0 |> <|s gso_bf_size := GSO_BF_MAX_SIZE |>
    <|s gro_bf_size := GRO_BF_MAX_SIZE |> <|s dont_fragment := 0 |> <|s skip_rx_copy := 0 |>
    <|s authtoken := None |> <|s client_username := None |> <|s client_password := None |> <|s client_rsa_pubkey := false |> in
  t <| zerocopy := 0 |> <| multisend := 10 |> <| udp_counters_64bit := 0 |> <| title := None |> <| extra_data := None |>.
