(* ===== verification/ControlChannel.v ===== *)
(** * The control connection

    [Nread] and [Nwrite] of [net.c], and the framing of JSON messages on the
    control connection, [JSON_read] and [JSON_write] of [iperf_api.c]: four
    bytes of length in network order, then the compact text.

    The operating system answers the calls made on the connection one after the
    other; every answer may be a timeout, an error or a part of what was asked. *)

From Stdlib Require Import String.
From S2P Require Import Prelude Bytes Time Double CJson CJsonTree CJsonPrint.
Local Open Scope c_scope.

Definition NET_SOFTERROR : Z := -1.
Definition NET_HARDERROR : Z := -2.
Definition nread_read_timeout : Z := 10.
Definition nread_overall_timeout : Z := 30.

Definition EINTR : Z := 4.
Definition EAGAIN : Z := 35.
Definition ENOBUFS : Z := 55.

(** ** The operating system *)

(** A call moves a number of bytes or fails with an [errno]. *)
Inductive io_answer := Moved (n : Z) | Refused (e : Z).

(** The answer of the [k]-th call, whichever it is. *)
Record system := mk_system {
  os_select : nat -> Z;
  os_read : nat -> io_answer;
  os_write : nat -> io_answer;
  os_now : nat -> iperf_time }.

(** The peer's bytes to come, ours on their way, and the calls made so far. *)
Record channel := mk_channel { ch_in : list Z; ch_out : list Z; ch_calls : nat }.

Definition NM := CM channel.

Section Channel.
Context (os : system).

Definition call {A} (f : nat -> A) : NM A := fun c => Ret (f (ch_calls c), mk_channel (ch_in c) (ch_out c) (S (ch_calls c))).

(** Takes [n] of the peer's bytes. *)
Definition take_in (n : Z) : NM (list Z) := fun c =>
  Ret (firstn (Z.to_nat n) (ch_in c), mk_channel (drop (Z.to_nat n) (ch_in c)) (ch_out c) (ch_calls c)).

Definition put_out (l : list Z) : NM unit := fun c => Ret (tt, mk_channel (ch_in c) (ch_out c ++ l) (ch_calls c)).

(** ** Reading *)

(** [read], or [recv] with [MSG_TRUNC], which may report more bytes than it
    stores: the count and the bytes stored. *)
Definition read (trunc : bool) (nleft : Z) : NM (io_answer * list Z) :=
  a <- call (os_read os) ;;
  match a with
  | Refused e => ret (Refused e, [])
  | Moved n =>
      c <- get ;;
      let r := Z.max 0 (Z.min n (Z.min (zlen (ch_in c)) (if trunc then zlen (ch_in c) else nleft))) in
      bytes <- take_in r ;;
      ret (Moved r, firstn (Z.to_nat nleft) bytes)
  end.

Definition is_transient (e : Z) : bool := (e =? EINTR) || (e =? EAGAIN).

(** The loop of [Nrecv]: [buf] is what has been stored, [ftimeout] the overall
    limit once it is set. *)
Fixpoint recv_loop (fuel : nat) (trunc : bool) (count nleft : Z) (ftimeout : iperf_time) (buf : list Z) : NM (Z * list Z) :=
  if nleft <=? 0 then ret (s32 (count - nleft), buf)
  else
    match fuel with
    | O => out_of_fuel
    | S fuel =>
        ra <- read trunc nleft ;;
        match ra.1 with
        | Refused e => if is_transient e then ret (s32 (count - nleft), buf) else ret (NET_HARDERROR, buf)
        | Moved r =>
            if r =? 0 then ret (s32 (count - nleft), buf)
            else
              let bytes_copied := if trunc && (nleft <? r) then nleft else r in
              let nleft := nleft - bytes_copied in
              let buf := buf ++ ra.2 in
              if nleft <=? 0 then recv_loop fuel trunc count nleft ftimeout buf
              else
                now <- call (os_now os) ;;
                let ftimeout := if secs ftimeout =? 0 then iperf_time_add_usecs now (nread_overall_timeout * 1000000) else ftimeout in
                if iperf_time_compare ftimeout now <? 0 then ret (s32 (count - nleft), buf)
                else
                  s <- call (os_select os) ;;
                  if s <? 0 then ret (NET_HARDERROR, buf)
                  else if s =? 0 then ret (s32 (count - nleft), buf)
                  else recv_loop fuel trunc count nleft ftimeout buf
        end
    end.

Definition Nrecv (count : Z) (trunc : bool) : NM (Z * list Z) :=
  s <- call (os_select os) ;;
  if s <? 0 then ret (NET_HARDERROR, [])
  else if s =? 0 then ret (0, [])
  else recv_loop (Z.to_nat count) trunc count count (mk_time 0 0) [].

Definition Nread (count : Z) : NM (Z * list Z) := Nrecv count false.

(** The variants that do not wait first. *)
Fixpoint recv_no_select_loop (fuel : nat) (trunc : bool) (count nleft : Z) (buf : list Z) : NM (Z * list Z) :=
  if nleft <=? 0 then ret (s32 (count - nleft), buf)
  else
    match fuel with
    | O => out_of_fuel
    | S fuel =>
        ra <- read trunc nleft ;;
        match ra.1 with
        | Refused e => if is_transient e then ret (s32 (count - nleft), buf) else ret (NET_HARDERROR, buf)
        | Moved r =>
            if r =? 0 then ret (s32 (count - nleft), buf)
            else
              let bytes_copied := if trunc && (nleft <? r) then nleft else r in
              recv_no_select_loop fuel trunc count (nleft - bytes_copied) (buf ++ ra.2)
        end
    end.

Definition Nrecv_no_select (count : Z) (trunc : bool) : NM (Z * list Z) :=
  recv_no_select_loop (Z.to_nat count) trunc count count [].

Definition Nread_no_select (count : Z) : NM (Z * list Z) := Nrecv_no_select count false.

(** ** Writing *)

(** [rest] is what is left of the buffer. *)
Fixpoint nwrite_loop (fuel : nat) (count : Z) (rest : list Z) : NM Z :=
  match rest with
  | [] => ret (s32 count)
  | _ :: _ =>
      match fuel with
      | O => out_of_fuel
      | S fuel =>
          a <- call (os_write os) ;;
          match a with
          | Refused e =>
              if is_transient e then
                if count =? zlen rest then ret NET_SOFTERROR else ret (s32 (count - zlen rest))
              else if e =? ENOBUFS then ret NET_SOFTERROR
              else ret NET_HARDERROR
          | Moved n =>
              let r := Z.max 0 (Z.min n (zlen rest)) in
              if r =? 0 then ret NET_SOFTERROR
              else
                put_out (firstn (Z.to_nat r) rest) ;;;
                nwrite_loop fuel count (drop (Z.to_nat r) rest)
          end
      end
  end.

Definition Nwrite (buf : list Z) : NM Z := nwrite_loop (length buf) (zlen buf) buf.

(** ** Messages *)

(** The allocator of the printer ([palloc], from call [n] on, with or without
    [reallocate]) and of the reader: its buffer, then the parser's items. *)
Context (palloc : nat -> bool) (has_reallocate : bool) (calloc : bool) (alloc : nat -> bool).

Definition JSON_write (json : cJSON) (n : nat) : NM Z :=
  match cJSON_PrintUnformatted palloc has_reallocate json n with
  | UB => undefined
  | OutOfFuel => out_of_fuel
  | Ret (None, _) => ret (-1)
  | Ret (Some str, _) =>
      let hsize := u32 (zlen (cstr str)) in
      r <- Nwrite (htonl hsize) ;;
      if r <? 0 then ret (-1)
      else
        r <- Nwrite (firstn (Z.to_nat hsize) str) ;;
        ret (if r <? 0 then -1 else 0)
  end.

Definition JSON_read (max_size : Z) : NM (option cJSON) :=
  h <- Nread 4 ;;
  if negb (h.1 =? 4) then ret None
  else
    let hsize := ntohl h.2 in
    if (0 <? hsize) && ((max_size =? 0) || (hsize <=? u32 max_size)) then
      let strsize := u32 (hsize + 1) in
      if strsize =? 0 then ret None
      else if negb calloc then ret None
      else
        d <- Nread hsize ;;
        if d.1 <? 0 then ret None
        else if u32 d.1 =? hsize then
          match cJSON_Parse alloc (d.2 ++ repeat 0 (Z.to_nat (strsize - zlen d.2))) with
          | Ret (json, _) => ret json
          | UB => undefined
          | OutOfFuel => out_of_fuel
          end
        else ret None
    else ret None.

End Channel.
