(* ===== verification/ControlChannelSpec.v ===== *)
(** * What the control connection guarantees

    [JSON_read] returns whatever the system and the peer do, consumes at most
    one frame, and gives an item only for a complete one; what [JSON_write]
    sends, [JSON_read] reads back. *)

From S2P Require Import Prelude Bytes Time Double JsonGrammar NumberText CJson CJsonTree CJsonTreeSpec CJsonPrint CJsonPrintSpec CJsonSpec CJsonRoundTrip CJsonSafety ControlChannel.
Local Open Scope c_scope.

Section Reading.
Context (os : system).

(** What was taken from the peer. *)
Definition took (l : list Z) (c c' : channel) : Prop := ch_in c = l ++ ch_in c' /\ ch_out c' = ch_out c.

Lemma took_trans l1 l2 c1 c2 c3 : took l1 c1 c2 -> took l2 c2 c3 -> took (l1 ++ l2) c1 c3.
Proof. intros [E1 O1] [E2 O2]. split; [by rewrite E1, E2, app_assoc|congruence]. Qed.

Lemma took_nil c c' : ch_in c' = ch_in c -> ch_out c' = ch_out c -> took [] c c'.
Proof. by intros E1 E2. Qed.

Lemma call_bind {A B} (f : nat -> A) (K : A -> NM B) Q c :
  (forall c', took [] c c' -> wp (K (f (ch_calls c))) Q c') -> wp (a <- call f ;; K a) Q c.
Proof. intros HK. wp_step. apply HK. by apply took_nil. Qed.

(** One [read] of at most [nleft] bytes. *)
Lemma read_bind {B} nleft (K : io_answer * list Z -> NM B) Q c : 0 < nleft ->
  (forall e c', took [] c c' -> wp (K (Refused e, [])) Q c') ->
  (forall l c', took l c c' -> zlen l <= nleft -> wp (K (Moved (zlen l), l)) Q c') ->
  wp (a <- read os false nleft ;; K a) Q c.
Proof.
  intros Hn Hr Hm. wp_step. unfold read. apply call_bind. intros c1 T1. destruct (os_read os (ch_calls c)) as [n|e]; [|wp_step; by apply Hr].
  wp_step. apply wp_get. cbv zeta. set (r := Z.max 0 _). pose proof (zlen_nonneg (ch_in c1)).
  assert (0 <= r <= zlen (ch_in c1) /\ r <= nleft) as [Hr1 Hr2] by lia.
  assert (zlen (firstn (Z.to_nat r) (ch_in c1)) = r) as El by (unfold zlen in *; rewrite length_firstn; lia).
  wp_step. unfold take_in, wp at 1. wp_step.
  rewrite (take_ge _ (Z.to_nat nleft)) by (unfold zlen in El; lia).
  pose proof (Hm (firstn (Z.to_nat r) (ch_in c1))) as H1. rewrite El in H1. apply H1; [|done].
  destruct T1 as [E1 O1]. split; cbn [ch_in ch_out]; [by rewrite take_drop, E1|done].
Qed.

(** The count is what was stored, or an error. *)
Definition received (count : Z) (buf : list Z) (c : channel) (r : Z * list Z) (c' : channel) : Prop :=
  exists l, took l c c' /\ r.2 = buf ++ l /\ zlen r.2 <= count /\ (r.1 = NET_HARDERROR \/ r.1 = s32 (zlen r.2)).

Lemma recv_loop_spec fuel count : forall nleft ftimeout buf c, nleft <= Z.of_nat fuel -> 0 <= nleft -> count - nleft = zlen buf ->
  wp (recv_loop os fuel false count nleft ftimeout buf) (received count buf c) c.
Proof.
  assert (forall (buf l : list Z) nleft (r : Z) c c', took l c c' -> count - nleft = zlen (buf ++ l) -> 0 <= nleft ->
    r = NET_HARDERROR \/ r = s32 (count - nleft) -> received count buf c (r, buf ++ l) c') as Hend.
  { intros buf l nleft r c c' T E Hn Hr. exists l. cbn [fst snd]. rewrite <- E. split_and!; [done|done|lia|done]. }
  assert (forall c, took [] c c) as T0 by (intros c; by apply took_nil).
  induction fuel as [|fuel IH]; intros nleft ftimeout buf c Hf Hn Hb; cbn [recv_loop].
  all: destruct (Z.leb_spec nleft 0).
  1, 3: wp_step; pose proof (Hend buf [] nleft (s32 (count - nleft)) c c (T0 c)) as He; rewrite app_nil_r in He; by apply He; auto.
  { lia. }
  apply read_bind; [lia| |].
  - intros e c1 T1. pose proof (fun r => Hend buf [] nleft r c c1 T1) as He. rewrite app_nil_r in He. cbn [fst].
    destruct (is_transient e); wp_step; apply He; auto.
  - intros l c1 T1 Hl. cbn [fst snd andb]. pose proof (zlen_nonneg l).
    assert (count - (nleft - zlen l) = zlen (buf ++ l)) as Hb1 by (rewrite zlen_app; lia).
    destruct (Z.eqb_spec (zlen l) 0) as [E0|E0].
    { destruct l; [|rewrite zlen_cons in E0; pose proof (zlen_nonneg l); lia].
      wp_step. pose proof (Hend buf [] nleft (s32 (count - nleft)) c c1 T1) as He. rewrite app_nil_r in *. by apply He; auto. }
    assert (forall ft c2, took [] c1 c2 -> wp (recv_loop os fuel false count (nleft - zlen l) ft (buf ++ l)) (received count buf c) c2) as Hrec.
    { intros ft c2 T2. eapply wp_mono; [apply IH; [lia|lia|exact Hb1]|]. intros r c3 (l' & T3 & E & Hc & Hr).
      exists (l ++ l'). split_and!; [|by rewrite E, app_assoc|done|done].
      apply (took_trans l l' c c1 c3); [done|]. by apply (took_trans [] l' c1 c2 c3). }
    assert (forall r c2, took [] c1 c2 -> r = NET_HARDERROR \/ r = s32 (count - (nleft - zlen l)) -> received count buf c (r, buf ++ l) c2) as Hstop.
    { intros r c2 T2 Hr. eapply Hend; [|exact Hb1|lia|done]. rewrite <- (app_nil_r l). by eapply took_trans. }
    cbv zeta. destruct (Z.leb_spec (nleft - zlen l) 0); [by apply Hrec|].
    apply call_bind. intros c2 T2. cbv zeta. destruct (_ <? 0); [wp_step; apply Hstop; auto|].
    apply call_bind. intros c3 T3. pose proof (took_trans [] [] _ _ _ T2 T3) as T13. cbn [app] in T13.
    destruct (_ <? 0); [wp_step; apply Hstop; auto|]. destruct (_ =? 0); [wp_step; apply Hstop; auto|]. by apply Hrec.
Qed.

Lemma Nread_spec count c : 0 <= count -> wp (Nread os count) (received count [] c) c.
Proof.
  intros Hc. unfold Nread, Nrecv. apply call_bind. intros c1 T1.
  assert (forall r, r = NET_HARDERROR \/ r = 0 -> received count [] c (r, []) c1) as He.
  { intros r Hr. exists []. cbn [fst snd app]. change (zlen (@nil Z)) with 0. split_and!; [done|done|lia|by destruct Hr as [-> | ->]; [left|right]]. }
  destruct (_ <? 0); [wp_step; auto|]. destruct (_ =? 0); [wp_step; auto|].
  eapply wp_mono; [apply (recv_loop_spec (Z.to_nat count) count); [lia|lia|rewrite Z.sub_diag; done]|].
  intros r c2 (l & T2 & H). exists l. split; [|done]. by apply (took_trans [] l c c1 c2).
Qed.

(** ** A peer that can send anything *)

(** A length the header may declare: positive and within the limit. *)
Definition admissible (max_size n : Z) : Prop := 0 < n /\ (max_size = 0 \/ n <= u32 max_size).

(** What a call of [JSON_read] leaves: it has taken at most a header, behind a
    whole one of an admissible length at most so many bytes, and an item comes
    from all of them. *)
Definition framed (alloc : nat -> bool) (max_size : Z) (c : channel) (r : option cJSON) (c' : channel) : Prop :=
  exists header text, took (header ++ text) c c' /\ zlen header <= 4 /\
    (text <> [] -> zlen header = 4 /\ admissible max_size (ntohl header) /\ zlen text <= ntohl header) /\
    forall j, r = Some j -> zlen header = 4 /\ admissible max_size (ntohl header) /\ zlen text = ntohl header /\
      exists o, cJSON_Parse alloc (text ++ [0]) = Ret (Some j, o).

Lemma u32_s32 x : u32 (s32 x) = u32 x.
Proof. unfold wrapu, wraps. rewrite Zminus_mod_idemp_l. f_equal. lia. Qed.

Lemma json_read_frame calloc alloc max_size c :
  wp (JSON_read os calloc alloc max_size) (framed alloc max_size c) c.
Proof.
  unfold JSON_read. wp_step. eapply wp_mono; [apply Nread_spec; lia|]. intros [rc h] c1 (l & T1 & Eh & Hl & Hr).
  cbn [fst snd app] in *. subst l. assert (framed alloc max_size c None c1) as Hn1 by (exists h, []; rewrite app_nil_r; by split_and!).
  destruct (Z.eqb_spec rc 4) as [->|]; cbn [negb]; [|by wp_step]. cbv zeta.
  assert (zlen h = 4) as Hh.
  { destruct Hr as [?|Hr]; [done|]. rewrite wraps_small in Hr by (pose proof (zlen_nonneg h); lia). done. }
  destruct (_ && _) eqn:E; [|by wp_step]. rewrite andb_true_iff, orb_true_iff, Z.ltb_lt, Z.eqb_eq, Z.leb_le in E.
  assert (admissible max_size (ntohl h)) as Hadm by (unfold admissible; lia). destruct E as [Hpos Hmax]. destruct (Z.eqb_spec (u32 (ntohl h + 1)) 0); [by wp_step|]. destruct calloc; cbn [negb]; [|by wp_step].
  wp_step. eapply wp_mono; [apply Nread_spec; lia|]. intros [rd d] c2 (l & T2 & Ed & Hd & Hr2).
  cbn [fst snd app] in *. subst l. pose proof (took_trans _ _ _ _ _ T1 T2) as T.
  assert (framed alloc max_size c None c2) as Hn2 by (exists h, d; by split_and!).
  destruct (Z.ltb_spec rd 0); [by wp_step|]. destruct (Z.eqb_spec (u32 rd) (ntohl h)) as [E|]; [|by wp_step].
  assert (ntohl h + 1 < 2 ^ 32 /\ zlen d = ntohl h) as [Hs Hd2].
  { pose proof (wrapu_range 32 rd ltac:(lia)) as Hu. rewrite E in Hu. pose proof (zlen_nonneg d). split.
    - destruct (decide (ntohl h = 2 ^ 32 - 1)) as [Em|]; [|lia]. rewrite Em in *. done.
    - destruct Hr2 as [-> | ->]; [done|]. rewrite u32_s32, wrapu_small in E by lia. done. }
  rewrite (wrapu_small 32 (ntohl h + 1)) by lia. replace (ntohl h + 1 - zlen d) with 1 by lia. change (repeat 0 (Z.to_nat 1)) with [0].
  destruct (parse_returns (d ++ [0]) alloc) as (q & o & Eq & _); [apply elem_of_app; right; by left|].
  rewrite Eq. wp_step. exists h, d. split_and!; [done|lia|done|]. intros j ->. split_and!; try done. by exists o.
Qed.
End Reading.

(** ** A system that keeps delivering *)

(** Every wait ends with data, every transfer moves something, and no two
    readings of the clock are further apart than a read may take. *)
Record prompt (os : system) : Prop := mk_prompt {
  prompt_select k : 0 < os_select os k;
  prompt_read k : exists n, 0 < n /\ os_read os k = Moved n;
  prompt_write k : exists n, 0 < n /\ os_write os k = Moved n;
  prompt_clock k k' : 0 <= iperf_time_compare (iperf_time_add_usecs (os_now os k) (nread_overall_timeout * 1000000)) (os_now os k') }.

Section Prompt.
Context (os : system) (Hp : prompt os).

(** The limit of a read is unset or was computed from a reading of the clock. *)
Definition limit_ok (ftimeout : iperf_time) : Prop :=
  secs ftimeout = 0 \/ exists k, ftimeout = iperf_time_add_usecs (os_now os k) (nread_overall_timeout * 1000000).

(** All of [l] is received, and nothing behind it. *)
Lemma recv_loop_prompt fuel count : forall l rest ftimeout buf c, zlen l <= Z.of_nat fuel -> ch_in c = l ++ rest ->
  limit_ok ftimeout ->
  wp (recv_loop os fuel false count (zlen l) ftimeout buf)
    (fun r c' => r = (s32 count, buf ++ l) /\ ch_in c' = rest /\ ch_out c' = ch_out c) c.
Proof.
  induction fuel as [|fuel IH]; intros l rest ftimeout buf c Hf El Hl; cbn [recv_loop]; pose proof (zlen_nonneg l).
  all: destruct (Z.leb_spec (zlen l) 0).
  1, 3: wp_step; destruct l; [|rewrite zlen_cons in *; pose proof (zlen_nonneg l); lia];
    change (zlen (@nil Z)) with 0; by rewrite Z.sub_0_r, app_nil_r.
  { lia. }
  wp_step. unfold read. apply call_bind. intros c1 [E1 O1]. destruct (prompt_read os Hp (ch_calls c)) as (n & Hpos & ->).
  wp_step. apply wp_get. cbv zeta. cbn [app] in E1. rewrite <- E1, El, zlen_app. pose proof (zlen_nonneg rest). set (r := Z.max 0 _).
  assert (0 < r <= zlen l) as Hr by lia. wp_step. unfold take_in, wp at 1. wp_step. rewrite <- E1, El. cbn [fst snd andb].
  rewrite (proj2 (Z.eqb_neq r 0)) by lia. rewrite take_app_le, drop_app_le by (unfold zlen in *; lia).
  rewrite (take_ge _ (Z.to_nat (zlen l))) by (rewrite length_firstn; unfold zlen in *; lia).
  set (l1 := firstn (Z.to_nat r) l). set (l2 := drop (Z.to_nat r) l). cbv zeta.
  assert (zlen l - r = zlen l2) as E2 by (unfold l2, zlen in *; rewrite length_drop; lia).
  rewrite E2.
  assert (forall ft c2, limit_ok ft -> ch_in c2 = l2 ++ rest -> ch_out c2 = ch_out c ->
    wp (recv_loop os fuel false count (zlen l2) ft (buf ++ l1))
      (fun r c' => r = (s32 count, buf ++ l) /\ ch_in c' = rest /\ ch_out c' = ch_out c) c2) as Hrec.
  { intros ft c2 Hft Hin Hout. eapply wp_mono; [apply (IH l2 rest); [lia|done|done]|]. intros x c3 (-> & Hi & Ho).
    rewrite <- app_assoc. unfold l1, l2. by rewrite take_drop, Ho. }
  destruct (Z.leb_spec (zlen l2) 0); [by apply Hrec|].
  apply call_bind. intros c2 [E3 O3]. cbv zeta. cbn [ch_in ch_out app] in E3, O3.
  assert (limit_ok (if secs ftimeout =? 0 then iperf_time_add_usecs (os_now os (ch_calls c1)) (nread_overall_timeout * 1000000) else ftimeout)) as Hft.
  { destruct (Z.eqb_spec (secs ftimeout) 0); [right; by eexists|done]. }
  cbn [ch_calls]. assert (0 <= iperf_time_compare (if secs ftimeout =? 0 then iperf_time_add_usecs (os_now os (ch_calls c1)) (nread_overall_timeout * 1000000) else ftimeout) (os_now os (ch_calls c1))) as Hc.
  { destruct (Z.eqb_spec (secs ftimeout) 0); [apply (prompt_clock os Hp)|]. destruct Hl as [?|[k ->]]; [done|apply (prompt_clock os Hp)]. }
  rewrite (proj2 (Z.ltb_ge _ _)) by exact Hc.
  apply call_bind. intros c3 [E4 O4]. cbn [app] in E4. pose proof (prompt_select os Hp (ch_calls c2)).
  rewrite (proj2 (Z.ltb_ge _ _)), (proj2 (Z.eqb_neq _ 0)) by lia. apply Hrec; [done|congruence|congruence].
Qed.

Lemma Nread_prompt l rest c : ch_in c = l ++ rest -> zlen l < 2 ^ 31 ->
  wp (Nread os (zlen l)) (fun r c' => r = (zlen l, l) /\ ch_in c' = rest /\ ch_out c' = ch_out c) c.
Proof.
  intros El Hl. pose proof (zlen_nonneg l). unfold Nread, Nrecv. apply call_bind. intros c1 [E1 O1]. cbn [app] in E1.
  pose proof (prompt_select os Hp (ch_calls c)). rewrite (proj2 (Z.ltb_ge _ _)), (proj2 (Z.eqb_neq _ 0)) by lia.
  eapply wp_mono; [apply (recv_loop_prompt _ _ l rest); [lia|congruence|by left]|]. intros r c2 (-> & Hi & Ho).
  rewrite wraps_small by lia. split; [done|]. split; [done|congruence].
Qed.

Lemma nwrite_loop_prompt fuel count : forall rest c, (length rest <= fuel)%nat ->
  wp (nwrite_loop os fuel count rest) (fun r c' => r = s32 count /\ ch_in c' = ch_in c /\ ch_out c' = ch_out c ++ rest) c.
Proof.
  induction fuel as [|fuel IH]; intros [|x rest] c Hf; cbn [nwrite_loop]; [wp_step; by rewrite app_nil_r|simpl in Hf; lia|wp_step; by rewrite app_nil_r|].
  apply call_bind. intros c1 [E1 O1]. cbn [app] in E1. destruct (prompt_write os Hp (ch_calls c)) as (n & Hn & ->). cbv zeta.
  set (r := Z.max 0 _). assert (0 < r <= zlen (x :: rest)) as Hr by (pose proof (zlen_cons x rest); pose proof (zlen_nonneg rest); lia).
  rewrite (proj2 (Z.eqb_neq r 0)) by lia. wp_step. unfold put_out, wp at 1.
  eapply wp_mono; [apply IH; rewrite length_drop; simpl in *; lia|]. intros v c2 (-> & Hi & Ho). cbn [ch_in ch_out] in *.
  split; [done|]. split; [congruence|]. by rewrite Ho, <- app_assoc, take_drop, O1.
Qed.

Lemma Nwrite_prompt buf c : zlen buf < 2 ^ 31 ->
  wp (Nwrite os buf) (fun r c' => r = zlen buf /\ ch_in c' = ch_in c /\ ch_out c' = ch_out c ++ buf) c.
Proof.
  intros Hb. pose proof (zlen_nonneg buf). eapply wp_mono; [by apply nwrite_loop_prompt|]. intros r c' (-> & Hr).
  by rewrite wraps_small by lia.
Qed.

(** A message whose bytes are there is read to its end. *)
Lemma json_read_prompt calloc alloc max_size text rest c : ch_in c = htonl (zlen text) ++ text ++ rest ->
  0 < zlen text < 2 ^ 31 -> max_size = 0 \/ zlen text <= max_size < 2 ^ 31 ->
  wp (JSON_read os calloc alloc max_size) (fun r c' => calloc = true ->
    ch_in c' = rest /\ exists o, cJSON_Parse alloc (text ++ [0]) = Ret (r, o)) c.
Proof.
  intros Ec Ht Hm. unfold JSON_read. wp_step. change 4 with (zlen (htonl (zlen text))) at 1.
  eapply wp_mono; [by apply (Nread_prompt _ (text ++ rest))|]. intros h c1 (-> & E1 & O1). cbn [fst snd].
  change (zlen (htonl (zlen text)) =? 4) with true. cbn [negb]. rewrite ntohl_htonl by lia. cbv zeta.
  rewrite (proj2 (Z.ltb_lt 0 _)) by lia.
  assert ((max_size =? 0) || (zlen text <=? u32 max_size) = true) as ->.
  { destruct Hm as [->|Hm]; [done|]. rewrite wrapu_small, (proj2 (Z.leb_le _ _)) by lia. by rewrite orb_true_r. }
  cbn [andb]. rewrite (wrapu_small 32 (zlen text + 1)) by lia. rewrite (proj2 (Z.eqb_neq _ 0)) by lia. destruct calloc; cbn [negb]; [|by wp_step].
  wp_step. eapply wp_mono; [apply (Nread_prompt text rest); [done|lia]|]. intros d c2 (-> & E2 & O2). cbn [fst snd].
  rewrite (proj2 (Z.ltb_ge _ 0)), wrapu_small, Z.eqb_refl by lia. replace (zlen text + 1 - zlen text) with 1 by lia.
  change (repeat 0 (Z.to_nat 1)) with [0]. destruct (parse_returns (text ++ [0]) alloc) as (q & o & Eq & _); [apply elem_of_app; right; by left|].
  rewrite Eq. wp_step. intros _. split; [done|]. by exists o.
Qed.
End Prompt.

(** ** Writing a message *)

Lemma cstr_render_all j : wf_item j -> cstr (render false 0 j) = render false 0 j.
Proof.
  intros Hw. apply cstr_nonzero. pose proof (cstr_render false 0 j [] Hw) as E. rewrite <- E. clear E.
  induction (render false 0 j ++ [0]) as [|c l IH]; cbn [cstr]; [constructor|]. destruct (Z.eqb_spec c 0); by constructor.
Qed.

(** The message is sent whole, unless an allocation of the printer fails. *)
Lemma json_write_prompt os palloc has_reallocate j n c : prompt os -> wf_item j -> printable j = true ->
  zlen (render false 0 j) + 2 < 2 ^ 31 ->
  wp (JSON_write os palloc has_reallocate j n) (fun r c' => ch_in c' = ch_in c /\
    (r = -1 /\ ch_out c' = ch_out c /\ (exists k, (n <= k)%nat /\ palloc k = false) \/
     r = 0 /\ ch_out c' = ch_out c ++ htonl (zlen (render false 0 j)) ++ render false 0 j)) c.
Proof.
  intros Hp Hw Hj Hs. unfold JSON_write, cJSON_PrintUnformatted. pose proof (zlen_nonneg (render false 0 j)).
  destruct (print_text_result palloc has_reallocate j false n Hw) as (r & n' & -> & H'); [lia|].
  destruct r as [t|]; [destruct H' as [_ ->]|destruct H' as [?|(k & [Hk _] & Ek)]; [congruence|]].
  - rewrite cstr_render_all, wrapu_small by (done || lia). cbv zeta. set (text := render false 0 j) in *.
    wp_step. eapply wp_mono; [by apply Nwrite_prompt|]. intros r c1 (-> & E1 & O1). change (zlen (htonl (zlen text)) <? 0) with false.
    cbv iota. wp_step. rewrite take_ge by (unfold zlen; lia). eapply wp_mono; [apply Nwrite_prompt; [done|lia]|]. intros r c2 (-> & E2 & O2).
    rewrite (proj2 (Z.ltb_ge _ _)) by lia. wp_step. split; [congruence|]. right. split; [done|]. by rewrite O2, O1, <- app_assoc.
  - wp_step. split; [done|]. left. split; [done|]. split; [done|]. by exists k.
Qed.

(** ** The properties *)

(** C9: [JSON_read] returns on every sequence of answers of the system and
    every input.  Whatever it gives, it has taken at most the four bytes of the
    header, more only behind a whole header that declares an admissible length,
    positive and within the limit, and then never more than that length; it
    stores nothing outside its buffer, and gives an item only when all the
    declared bytes have arrived: what those bytes parse to. *)
Theorem json_read_framed os calloc alloc max_size c :
  exists r c' header text, JSON_read os calloc alloc max_size c = Ret (r, c') /\
    ch_in c = header ++ text ++ ch_in c' /\ ch_out c' = ch_out c /\ zlen header <= 4 /\
    (text <> [] -> zlen header = 4 /\ 0 < ntohl header /\ (max_size = 0 \/ ntohl header <= u32 max_size) /\ zlen text <= ntohl header) /\
    forall j, r = Some j -> zlen header = 4 /\ 0 < ntohl header /\ (max_size = 0 \/ ntohl header <= u32 max_size) /\ zlen text = ntohl header /\
      exists o, cJSON_Parse alloc (text ++ [0]) = Ret (Some j, o).
Proof.
  destruct (wp_returns _ _ _ (json_read_frame os calloc alloc max_size c)) as (r & c' & E & header & text & [E1 E2] & H & Ht & Hj).
  exists r, c', header, text. rewrite <- app_assoc in E1. unfold admissible in *. split_and!; try done.
  - intros Hn. destruct (Ht Hn) as (? & [? ?] & ?). by split_and!.
  - intros j E3. destruct (Hj j E3) as (? & [? ?] & ? & ?). by split_and!.
Qed.

(** C34: a document sent with [JSON_write] and read with [JSON_read] is the
    document as cJSON reads its text, however the two systems cut the stream
    into pieces; the bytes behind the message stay for the next read.  Only a
    failed allocation can prevent it. *)
Theorem control_round_trip os1 os2 palloc has_reallocate calloc alloc j n max_size rest (Hp1 : prompt os1) (Hp2 : prompt os2)
    (Hd : document j) (Hn : (nesting j <= 1000)%nat) (Hs : zlen (render false 0 j) + 2 < 2 ^ 31)
    (Hm : max_size = 0 \/ zlen (render false 0 j) <= max_size < 2 ^ 31) :
  exists r c, JSON_write os1 palloc has_reallocate j n (mk_channel [] [] 0) = Ret (r, c) /\
    (r = -1 /\ (exists k, (n <= k)%nat /\ palloc k = false) \/
     r = 0 /\ exists q c', JSON_read os2 calloc alloc max_size (mk_channel (ch_out c ++ rest) [] 0) = Ret (q, c') /\
       (calloc = true -> ch_in c' = rest /\
         exists o, cJSON_Parse alloc (render false 0 j ++ [0]) = Ret (q, o) /\ (q = Some (reread j) \/ q = None /\ o = true))).
Proof.
  destruct (wp_returns _ _ _ (json_write_prompt os1 palloc has_reallocate j n (mk_channel [] [] 0) Hp1 (document_wf j Hd) (document_printable j Hd) Hs))
    as (r & c & -> & _ & H).
  exists r, c. split; [done|]. destruct H as [(-> & _ & H)|[-> Ho]]; [by left|right]. split; [done|].
  cbn [ch_out app] in Ho. rewrite Ho. set (text := render false 0 j) in *.
  pose proof (tree_render j 0 (nesting j) Hd ltac:(lia)) as Ht. fold text in Ht.
  assert (0 < zlen text < 2 ^ 31) as Hl.
  { split; [|lia]. destruct (tree_head _ _ _ Ht) as (y & t & -> & _). rewrite zlen_cons. pose proof (zlen_nonneg t). lia. }
  set (c0 := mk_channel ((htonl (zlen text) ++ text) ++ rest) [] 0).
  destruct (wp_returns _ _ _ (json_read_prompt os2 Hp2 calloc alloc max_size text rest c0 (eq_sym (app_assoc _ _ _)) Hl Hm))
    as (q & c' & -> & Hq).
  exists q, c'. split; [done|]. intros Hcalloc. destruct (Hq Hcalloc) as [Hi [o Hp]]. split; [done|]. exists o. split; [done|].
  unfold cJSON_Parse in Hp. rewrite bool_decide_true in Hp by (apply elem_of_app; right; by left).
  destruct (parse_tree (nesting j) text (reread j) alloc false Ht Hn) as (q' & o' & Ep & Hr).
  assert (zlen (cstr (text ++ [0])) + 1 = zlen (text ++ [0])) as El.
  { unfold text. rewrite cstr_render by (by apply document_wf). by rewrite zlen_app. }
  rewrite El in Hp. rewrite Hp in Ep. by simplify_eq.
Qed.

(** A system that takes the header and two bytes of the text, then is interrupted. *)
Definition interrupted : system := mk_system (fun _ => 1) (fun _ => Refused EAGAIN)
  (fun k => match k with O => Moved 4 | 1%nat => Moved 2 | _ => Refused EINTR end) (fun _ => mk_time 0 0).

(** [JSON_write] reports success for a message whose writing was cut short:
    [Nwrite] gives the partial count, and only a negative count is an error. *)
Theorem json_write_short :
  exists c, JSON_write interrupted (fun _ => true) true printed_sample 0 (mk_channel [] [] 0) = Ret (0, c) /\
    zlen (ch_out c) = 6 /\ zlen (htonl (zlen (render false 0 printed_sample)) ++ render false 0 printed_sample) = 11.
Proof. eexists. split; [vm_compute; reflexivity|]. by vm_compute. Qed.

(** A system that moves three bytes at a time. *)
Definition trickle : system := mk_system (fun _ => 1) (fun _ => Moved 3) (fun _ => Moved 3) (fun k => mk_time 5 0).

Lemma trickle_prompt : prompt trickle.
Proof. split; intros; cbn; [lia|by exists 3..|by vm_compute]. Qed.

Lemma control_round_trip_witness :
  exists r c, JSON_write trickle (fun _ => true) true printed_sample 0 (mk_channel [] [] 0) = Ret (r, c) /\
    (r = -1 /\ (exists k, (0 <= k)%nat /\ true = false) \/
     r = 0 /\ exists q c', JSON_read trickle true (fun _ => true) 8192 (mk_channel (ch_out c ++ [7]) [] 0) = Ret (q, c') /\
       (true = true -> ch_in c' = [7] /\
         exists o, cJSON_Parse (fun _ => true) (render false 0 printed_sample ++ [0]) = Ret (q, o) /\
           (q = Some (reread printed_sample) \/ q = None /\ o = true))).
Proof.
  apply (control_round_trip trickle trickle (fun _ => true) true true (fun _ => true) printed_sample 0 8192 [7]);
    [apply trickle_prompt..| | | |].
  - constructor; [unfold wire_type; cbn; tauto|split; [lia|by right]|apply ascii_text; constructor|apply ascii_text; constructor|].
    apply Forall_singleton, number_document; [lia|]. apply ascii_text. repeat constructor; lia.
  - cbn. lia.
  - assert (zlen (render false 0 printed_sample) = 7) as -> by (vm_compute; reflexivity). lia.
  - assert (zlen (render false 0 printed_sample) = 7) as -> by (vm_compute; reflexivity). lia.
Defined.
