(* ===== verification/Params.v ===== *)
(** * The exchange of test parameters

    [send_parameters] and [get_parameters] of [iperf_api.c]: the client writes
    its settings as one JSON object on the control connection, the server reads
    them, checks each one and then the test as a whole.  The printing in debug
    mode and the contents of the authentication token are left out. *)

From Stdlib Require Import String.
From S2P Require Import Prelude Bytes Time Double CJson CJsonTree CJsonPrint IperfTest ControlChannel.
Local Open Scope c_scope.

Definition key (s : string) : list Z := bytes_of s.

(** ** Sending *)

Section Build.
Context (alloc : nat -> bool).

(** [cJSON_Add...ToObject] whose result is ignored: a failed call leaves the object. *)
Definition adding (add : option cJSON -> option (list Z) -> AM (option cJSON)) (name : string) (j : cJSON) : AM cJSON :=
  r <- add (Some j) (Some (key name)) ;; ret (default j r).

Definition add_number (name : string) (n : Z) : cJSON -> AM cJSON :=
  adding (fun o s => cJSON_AddNumberToObject alloc o s (D_of_Z n)) name.
Definition add_true : string -> cJSON -> AM cJSON := adding (cJSON_AddTrueToObject alloc).
Definition add_string (name : string) (v : text) : cJSON -> AM cJSON :=
  adding (fun o s => cJSON_AddStringToObject alloc o s (Some v)) name.

Definition add_if (b : bool) (add : cJSON -> AM cJSON) (j : cJSON) : AM cJSON := if b then add j else ret j.
Definition add_nonzero (name : string) (n : Z) : cJSON -> AM cJSON := add_if (negb (n =? 0)) (add_number name n).
Definition add_text (name : string) (v : option text) : cJSON -> AM cJSON :=
  match v with Some v => add_string name v | None => ret end.

Definition sent_protocol (t : iperf_test) (j : cJSON) : AM cJSON :=
  if protocol t =? Ptcp then add_true "tcp" j
  else if protocol t =? Pudp then add_true "udp" j
  else if protocol t =? Psctp then add_true "sctp" j else ret j.

Definition sent_extent (t : iperf_test) (j : cJSON) : AM cJSON :=
  j <- add_number "omit" (omit t) j ;;
  j <- add_if (negb (server_affinity t =? -1)) (add_number "server_affinity" (server_affinity t)) j ;;
  j <- add_number "time" (duration t) j ;;
  j <- add_number "num" (bytes (settings t)) j ;;
  j <- add_number "blockcount" (blocks (settings t)) j ;;
  j <- add_nonzero "MSS" (mss (settings t)) j ;;
  j <- add_if (negb (no_delay t =? 0)) (add_true "nodelay") j ;;
  j <- add_number "parallel" (num_streams t) j ;;
  j <- add_if (negb (reverse t =? 0)) (add_true "reverse") j ;;
  add_if (negb (bidirectional t =? 0)) (add_true "bidirectional") j.

Definition sent_sizes (s : iperf_settings) (j : cJSON) : AM cJSON :=
  j <- add_nonzero "window" (socket_bufsize s) j ;;
  j <- add_nonzero "len" (blksize s) j ;;
  j <- add_nonzero "bandwidth" (rate s) j ;;
  j <- add_nonzero "fqrate" (fqrate s) j ;;
  j <- add_nonzero "pacing_timer" (pacing_timer s) j ;;
  add_nonzero "burst" (burst s) j.

Definition sent_offload (t : iperf_test) (j : cJSON) : AM cJSON :=
  if protocol t =? Pudp then
    j <- add_number "gso" (gso (settings t)) j ;;
    j <- add_number "gso_dg_size" (gso_dg_size (settings t)) j ;;
    j <- add_number "gso_bf_size" (gso_bf_size (settings t)) j ;;
    j <- add_number "gro" (gro (settings t)) j ;;
    add_number "gro_bf_size" (gro_bf_size (settings t)) j
  else ret j.

Definition sent_options (t : iperf_test) (j : cJSON) : AM cJSON :=
  j <- add_nonzero "TOS" (tos (settings t)) j ;;
  j <- add_nonzero "flowlabel" (flowlabel (settings t)) j ;;
  j <- add_text "title" (title t) j ;;
  j <- add_text "extra_data" (extra_data t) j ;;
  j <- add_text "congestion" (congestion t) j ;;
  j <- add_text "congestion_used" (congestion_used t) j ;;
  j <- add_nonzero "get_server_output" (get_server_output t) j ;;
  j <- add_nonzero "udp_counters_64bit" (udp_counters_64bit t) j ;;
  j <- add_nonzero "repeating_payload" (repeating_payload t) j ;;
  j <- add_nonzero "zerocopy" (zerocopy t) j ;;
  add_nonzero "dont_fragment" (dont_fragment (settings t)) j.

(** The token [encode_auth_setting] makes of the credentials, or its failure. *)
Context (encode_auth_setting : text -> text -> option text).

(** Its result, when all the credentials are there. *)
Definition token (t : iperf_test) : option (option text) :=
  match client_username (settings t), client_password (settings t) with
  | Some u, Some p => if client_rsa_pubkey (settings t) then Some (encode_auth_setting u p) else None
  | _, _ => None
  end.

Definition sent_token (t : iperf_test) (j : cJSON) : AM (option cJSON) :=
  match token t with
  | None => ret (Some j)
  | Some None => ret None
  | Some (Some authtoken) => j <- add_string "authtoken" authtoken j ;; ret (Some j)
  end.

(** The settings afterwards hold the token. *)
Definition store_token (t : iperf_test) : iperf_test :=
  match token t with None => t | Some r => t <|s authtoken := r |> end.

Definition IPERF_VERSION : text := key "3.22".

(** The object that is sent, or nothing, and the test afterwards. *)
Definition parameters_json (t : iperf_test) : AM (option cJSON * iperf_test) :=
  j <- cJSON_CreateObject alloc ;;
  match j with
  | None => ret (None, t)
  | Some j =>
      j <- sent_protocol t j ;;
      j <- sent_extent t j ;;
      j <- sent_sizes (settings t) j ;;
      j <- sent_offload t j ;;
      j <- sent_options t j ;;
      j <- sent_token t j ;;
      match j with
      | None => ret (None, store_token t)
      | Some j =>
          j <- add_nonzero "skip_rx_copy" (skip_rx_copy (settings t)) j ;;
          j <- add_string "client_version" IPERF_VERSION j ;;
          ret (Some j, store_token t)
      end
  end.

(** The result, the error left in [i_errno], if any, and the test. *)
Definition send_parameters (os : system) (has_reallocate : bool) (t : iperf_test) (n : nat) : NM (Z * option Z * iperf_test) :=
  match parameters_json t n with
  | UB => undefined
  | OutOfFuel => out_of_fuel
  | Ret ((None, t), _) => ret (-1, Some IESENDPARAMS, t)
  | Ret ((Some j, t), n) =>
      r <- JSON_write os alloc has_reallocate j n ;;
      ret (if r <? 0 then (-1, Some IESENDPARAMS, t) else (0, None, t))
  end.

End Build.

(** ** Receiving *)

(** The test, [i_errno], the result [r] so far, the allocations made and the
    object of [json_start], if there is one. *)
Record exchange := mk_exchange { x_test : iperf_test; x_errno : Z; x_r : Z; x_nalloc : nat; x_start : option cJSON }.

#[export] Instance exchange_eta : Eta exchange := fun x =>
  mk_exchange (x_test x) (x_errno x) (x_r x) (x_nalloc x) (x_start x).

Definition XM := CM exchange.

Definition on_test (f : iperf_test -> iperf_test) : XM unit := modify (update x_test f).
Definition iperf_set_error (e : Z) : XM unit := modify (fun x => x <| x_errno := e |>).
Definition failing (e : Z) : XM unit := modify (fun x => x <| x_errno := e |> <| x_r := -1 |>).

(** [set_protocol] whose result is ignored. *)
Definition select_protocol (prot_id : Z) : XM unit := fun x =>
  match set_protocol prot_id (x_test x) with
  | Some t => Ret (tt, x <| x_test := t |>)
  | None => Ret (tt, x <| x_errno := IEPROTOCOL |>)
  end.

Section Receive.
Context (alloc : nat -> bool) (j : cJSON).

Definition member (name : string) (expected : Z) : option cJSON := iperf_cJSON_GetObjectItemType (Some j) (key name) expected.

(** A number that has to satisfy [ok], an error otherwise. *)
Definition number_member (name : string) (ok : Z -> bool) (e : Z) (store : Z -> iperf_test -> iperf_test) : XM unit :=
  match member name cJSON_Number with
  | None => ret tt
  | Some j_p => if ok (jvalueint j_p) then on_test (store (jvalueint j_p)) else failing e
  end.

Definition flag_member (name : string) (expected : Z) (store : cJSON -> iperf_test -> iperf_test) : XM unit :=
  match member name expected with
  | None => ret tt
  | Some j_p => on_test (store j_p)
  end.

Definition strdup (s : option text) : XM (option text) := fun x =>
  match s with
  | None => UB
  | Some s => Ret (if alloc (x_nalloc x) then Some (cstr s) else None, x <| x_nalloc := S (x_nalloc x) |>)
  end.

Definition string_member (name : string) (store : option text -> iperf_test -> iperf_test) : XM unit :=
  match member name cJSON_String with
  | None => ret tt
  | Some j_p => s <- strdup (jvaluestring j_p) ;; on_test (store s)
  end.

Definition between (lo hi v : Z) : bool := (lo <=? v) && (v <=? hi).
Definition nonnegative (v : Z) : bool := 0 <=? v.

Definition receive_protocol : XM unit :=
  match member "tcp" cJSON_True with None => ret tt | Some _ => select_protocol Ptcp end ;;;
  match member "udp" cJSON_True with
  | None => ret tt
  | Some _ =>
      x <- get ;;
      match diskfile_name (x_test x) with
      | Some _ => failing IEUDPFILETRANSFER
      | None => select_protocol Pudp
      end
  end ;;;
  match member "sctp" cJSON_True with None => ret tt | Some _ => select_protocol Psctp end.

Definition receive_extent : XM unit :=
  number_member "omit" (between 0 MAX_OMIT_TIME) IEOMIT (fun v t => t <| omit := s32 v |>) ;;;
  number_member "server_affinity" (between 0 1024) IEAFFINITY (fun v t => t <| server_affinity := s32 v |>) ;;;
  number_member "time" (between 0 MAX_TIME) IEDURATION (fun v t => t <| duration := s32 v |>) ;;;
  on_test (fun t => t <|s bytes := 0 |>) ;;;
  number_member "num" nonnegative IERECVPARAMS (fun v t => t <|s bytes := u64 v |>) ;;;
  on_test (fun t => t <|s blocks := 0 |>) ;;;
  number_member "blockcount" nonnegative IERECVPARAMS (fun v t => t <|s blocks := u64 v |>) ;;;
  number_member "MSS" (between 0 MAX_MSS) IEMSS (fun v t => t <|s mss := s32 v |>) ;;;
  flag_member "nodelay" cJSON_True (fun _ t => t <| no_delay := 1 |>) ;;;
  number_member "parallel" (between 1 MAX_STREAMS) IENUMSTREAMS (fun v t => t <| num_streams := s32 v |>) ;;;
  flag_member "reverse" cJSON_True (fun _ => iperf_set_test_reverse 1) ;;;
  flag_member "bidirectional" cJSON_True (fun _ => iperf_set_test_bidirectional 1) ;;;
  number_member "window" (between 0 MAX_TCP_BUFFER) IEBUFSIZE (fun v t => t <|s socket_bufsize := s32 v |>) ;;;
  number_member "len" nonnegative IEBLOCKSIZE (fun v t => t <|s blksize := s32 v |>).

(** The datagram size of an older client, which sends none. *)
Definition derived_datagram_size (t : iperf_test) : iperf_test :=
  if (protocol t =? Pudp) && (gso (settings t) =? 1) && (gso_dg_size (settings t) =? 0) then
    let t := t <|s gso_dg_size := blksize (settings t) |> in
    if 0 <? gso_dg_size (settings t) then
      t <|s gso_bf_size := Z.quot (gso_bf_size (settings t)) (gso_dg_size (settings t)) * gso_dg_size (settings t) |>
    else t <|s gso_dg_size := DEFAULT_UDP_BLKSIZE |>
  else t.

Definition receive_offload : XM unit :=
  number_member "gso" nonnegative IERECVPARAMS (fun v t => t <|s gso := s32 v |>) ;;;
  number_member "gso_dg_size" nonnegative IERECVPARAMS (fun v t => t <|s gso_dg_size := s32 v |>) ;;;
  number_member "gso_bf_size" nonnegative IERECVPARAMS (fun v t => t <|s gso_bf_size := s32 v |>) ;;;
  on_test derived_datagram_size ;;;
  number_member "gro" (between 0 1) IERECVPARAMS (fun v t => t <|s gro := s32 v |>) ;;;
  number_member "gro_bf_size" nonnegative IERECVPARAMS (fun v t => t <|s gro_bf_size := s32 v |>).

Definition receive_rates : XM unit :=
  number_member "bandwidth" nonnegative IERECVPARAMS (fun v t => t <|s rate := u64 v |>) ;;;
  number_member "fqrate" nonnegative IERECVPARAMS (fun v t => t <|s fqrate := u64 v |>) ;;;
  number_member "pacing_timer" nonnegative IERECVPARAMS (fun v t => t <|s pacing_timer := s32 v |>) ;;;
  number_member "burst" (between 1 MAX_BURST) IEBURST (fun v t => t <|s burst := s32 v |>) ;;;
  number_member "TOS" (between 0 255) IEBADTOS (fun v t => t <|s tos := s32 v |>).

Definition nonzero_flag (j_p : cJSON) : Z := if jvalueint j_p =? 0 then 0 else 1.

Definition receive_options : XM unit :=
  string_member "title" (fun s t => t <| title := s |>) ;;;
  string_member "extra_data" (fun s t => t <| extra_data := s |>) ;;;
  string_member "congestion" (fun s t => t <| congestion := s |>) ;;;
  string_member "congestion_used" (fun s t => t <| congestion_used := s |>) ;;;
  flag_member "get_server_output" cJSON_Number (fun _ t => t <| get_server_output := 1 |>) ;;;
  flag_member "udp_counters_64bit" cJSON_Number (fun _ t => t <| udp_counters_64bit := 1 |>) ;;;
  flag_member "repeating_payload" cJSON_Number (fun _ t => t <| repeating_payload := 1 |>) ;;;
  flag_member "zerocopy" cJSON_Number (fun j_p t => t <| zerocopy := nonzero_flag j_p |>) ;;;
  flag_member "dont_fragment" cJSON_Number (fun j_p t => t <|s dont_fragment := nonzero_flag j_p |>) ;;;
  string_member "authtoken" (fun s t => t <|s authtoken := s |>) ;;;
  flag_member "skip_rx_copy" cJSON_Number (fun j_p t => t <|s skip_rx_copy := nonzero_flag j_p |>) ;;;
  on_test (fun t => if negb (mode t =? 0) && (protocol t =? Ptcp) && negb (has_tcpinfo_retransmits =? 0)
                    then t <| sender_has_retransmits := 1 |> else t).

(** The rate goes into the report, if there is one. *)
Definition report_rate : XM unit := fun x =>
  if rate (settings (x_test x)) =? 0 then Ret (tt, x)
  else
    match cJSON_AddNumberToObject alloc (x_start x) (Some (key "target_bitrate")) (D_of_Z (rate (settings (x_test x)))) (x_nalloc x) with
    | Ret (start, n) => Ret (tt, x <| x_start := match start with Some o => Some o | None => x_start x end |> <| x_nalloc := n |>)
    | UB => UB
    | OutOfFuel => OutOfFuel
    end.

(** ** The test as a whole *)

(** The products are computed on 64 bits. *)
Definition total_requested_rate (t : iperf_test) (r : Z) : Z :=
  u64 (u64 (u64 (num_streams t) * r) * (if mode t =? BIDIRECTIONAL then 2 else 1)).

Definition over_limit (t : iperf_test) (r : Z) : bool :=
  negb (bitrate_limit (settings t) =? 0) && (bitrate_limit (settings t) <? total_requested_rate t r).

Definition whole_datagrams (t : iperf_test) : iperf_test :=
  if (protocol t =? Pudp) && negb (gso (settings t) =? 0) then
    let t := t <|s gso_dg_size := blksize (settings t) |> in
    if 0 <? gso_dg_size (settings t) then
      t <|s gso_bf_size := Z.quot (gso_bf_size (settings t)) (gso_dg_size (settings t)) * gso_dg_size (settings t) |>
    else t
  else t.

Definition too_long (t : iperf_test) : bool :=
  (0 <? max_server_duration t) && ((max_server_duration t <? s32 (duration t + omit t)) || (duration t =? 0)).

Definition check_parameters : XM Z :=
  x <- get ;;
  let t := x_test x in
  if negb (protocol t =? Pudp) && (blksize (settings t) <=? 0) || (MAX_BLOCKSIZE <? blksize (settings t)) then
    iperf_set_error IEBLOCKSIZE ;;; ret (-1)
  else if (protocol t =? Pudp) && ((blksize (settings t) <? MIN_UDP_BLOCKSIZE) || (MAX_UDP_BLOCKSIZE <? blksize (settings t))) then
    iperf_set_error IEUDPBLOCKSIZE ;;; ret (-1)
  else
    on_test whole_datagrams ;;;
    when too_long t do failing IEMAXSERVERTESTDURATIONEXCEEDED ;;;
    when over_limit t (rate (settings t)) do failing IETOTALRATE ;;;
    when over_limit t (fqrate (settings t)) do failing IETOTALRATE ;;;
    if (zerocopy t =? 1) && negb (mode t =? RECEIVER) && (has_sendfile =? 0) then
      iperf_set_error IENOSENDFILE ;;; ret (-1)
    else gets x_r.

Definition apply_parameters : XM Z :=
  receive_protocol ;;;
  receive_extent ;;;
  receive_offload ;;;
  receive_rates ;;;
  receive_options ;;;
  report_rate ;;;
  check_parameters.

End Receive.

(** The message is read from the control connection; the test is untouched
    when there is none. *)
Definition get_parameters (os : system) (calloc : bool) (palloc alloc : nat -> bool) : CM (channel * exchange) Z := fun w =>
  match JSON_read os calloc palloc MAX_PARAMS_JSON_STRING w.1 with
  | UB => UB
  | OutOfFuel => OutOfFuel
  | Ret (None, c) => Ret (-1, (c, w.2 <| x_errno := IERECVPARAMS |>))
  | Ret (Some j, c) =>
      match apply_parameters alloc j (w.2 <| x_r := 0 |>) with
      | UB => UB
      | OutOfFuel => OutOfFuel
      | Ret (r, x) => Ret (r, (c, x))
      end
  end.
