(* ===== verification/ParamsSpec.v ===== *)
(** * What the server accepts

    Whatever object a client sends, [get_parameters] returns, leaves every
    setting that has a limit in its range and the others as they were told, and
    reports success only for a test that passes the checks of the server. *)

From Stdlib Require Import String.
From S2P Require Import Prelude Bytes Time Double CJson CJsonTree CJsonTreeSpec CJsonPrint CJsonSafety IperfTest ControlChannel ControlChannelSpec Params.
Local Open Scope c_scope.

(** ** Settings in range *)

Record in_range (t : iperf_test) : Prop := mk_in_range {
  r_omit : 0 <= omit t <= MAX_OMIT_TIME;
  r_affinity : -1 <= server_affinity t <= 1024;
  r_duration : 0 <= duration t <= MAX_TIME;
  r_bytes : 0 <= bytes (settings t) < 2 ^ 64;
  r_blocks : 0 <= blocks (settings t) < 2 ^ 64;
  r_mss : 0 <= mss (settings t) <= MAX_MSS;
  r_streams : 1 <= num_streams t <= MAX_STREAMS;
  r_window : 0 <= socket_bufsize (settings t) <= MAX_TCP_BUFFER;
  r_rate : 0 <= rate (settings t) < 2 ^ 64;
  r_fqrate : 0 <= fqrate (settings t) < 2 ^ 64;
  r_burst : 0 <= burst (settings t) <= MAX_BURST;
  r_tos : 0 <= tos (settings t) <= 255;
  r_gro : 0 <= gro (settings t) <= 1;
  r_zerocopy : 0 <= zerocopy t <= 1;
  r_dont_fragment : 0 <= dont_fragment (settings t) <= 1;
  r_skip_rx_copy : 0 <= skip_rx_copy (settings t) <= 1 }.

(** The direction of a server's test follows from its flags. *)
Definition direction (t : iperf_test) : Z :=
  if negb (bidirectional t =? 0) then BIDIRECTIONAL else if negb (reverse t =? 0) then SENDER else RECEIVER.

Record serving (t : iperf_test) : Prop := mk_serving {
  s_role : role t = role_server;
  s_protocols : protocol t ∈ protocols t /\ Ptcp ∈ protocols t;
  s_mode : mode t = direction t;
  s_retransmits : sender_has_retransmits t = 0 \/ sender_has_retransmits t = 1 /\ mode t <> RECEIVER }.

Definition valid (t : iperf_test) : Prop := in_range t /\ serving t.

(** ** Preservation *)

(** Only the final result matters, which is 0 or -1. *)

Definition triple (P Q : iperf_test -> Prop) (m : XM unit) : Prop :=
  forall x, P (x_test x) -> x_r x = 0 \/ x_r x = -1 ->
    wp m (fun _ x' => Q (x_test x') /\ (x_r x' = 0 \/ x_r x' = -1)) x.

Lemma triple_seq P Q R m k : triple P Q m -> triple Q R k -> triple P R (m ;;; k).
Proof. intros Hm Hk x Hx Hr. wp_step. eapply wp_mono; [by apply Hm|]. intros ? x' [H1 H2]. by apply Hk. Qed.

Lemma triple_ret P : triple P P (ret tt).
Proof. intros x Hx Hr. by wp_step. Qed.

Lemma triple_on_test (P Q : iperf_test -> Prop) f : (forall t, P t -> Q (f t)) -> triple P Q (on_test f).
Proof. intros Hf x Hx Hr. unfold on_test. wp_step. split; [by apply Hf|done]. Qed.

Lemma triple_failing P e : triple P P (failing e).
Proof. intros x Hx Hr. unfold failing. wp_step. by auto. Qed.

Lemma triple_number (P : iperf_test -> Prop) j name ok e store : (forall v t, ok v = true -> P t -> P (store v t)) ->
  triple P P (number_member j name ok e store).
Proof.
  intros H. unfold number_member. destruct (member j name cJSON_Number) as [p|]; [|apply triple_ret].
  destruct (ok (jvalueint p)) eqn:E; [apply triple_on_test; auto|apply triple_failing].
Qed.

Lemma triple_flag (P Q : iperf_test -> Prop) j name expected store : (forall t, P t -> Q t) -> (forall p t, P t -> Q (store p t)) ->
  triple P Q (flag_member j name expected store).
Proof.
  intros HPQ H. unfold flag_member. destruct (member j name expected); [apply triple_on_test; auto|].
  intros x Hx Hr. wp_step. auto.
Qed.

Lemma object_item_child j name q : cJSON_GetObjectItem (Some j) (Some name) = Some q -> q ∈ jchild j.
Proof.
  unfold cJSON_GetObjectItem, get_object_item. destruct (find_item _ _ _) as [i|]; [|done]. apply list_elem_of_lookup_2.
Qed.

Lemma member_item j name expected p : member j name expected = Some p -> cJSON_GetObjectItem (Some j) (Some (key name)) = Some p.
Proof.
  unfold member, iperf_cJSON_GetObjectItemType. destruct (cJSON_GetObjectItem _ _); [|done]. cbv zeta.
  by repeat case_match.
Qed.

Lemma member_text j name p : has_texts j = true -> member j name cJSON_String = Some p -> exists s, jvaluestring p = Some s.
Proof.
  intros Hj H. pose proof (member_item _ _ _ _ H) as E. pose proof (object_item_child _ _ _ E) as Hp.
  unfold member, iperf_cJSON_GetObjectItemType in H. rewrite E in H. cbn [Z.eqb Pos.eqb] in H.
  destruct (cJSON_IsString (Some p)) eqn:Es; [|by vm_compute in H].
  destruct j as [t c v i d s]. cbn [has_texts jchild] in *. apply andb_true_iff in Hj as [_ Hc].
  rewrite forallb_forall in Hc. apply list_elem_of_In, Hc in Hp. destruct p as [t' c' v' i' d' s']. cbn in *.
  unfold cJSON_IsString, is_type, base_type in Es. cbn [jtype] in Es. rewrite Es in Hp. destruct v' as [s0|]; [by exists s0|done].
Qed.

(** Every string item of the message has its text. *)
Lemma triple_string (P : iperf_test -> Prop) alloc j name store : has_texts j = true -> (forall s t, P t -> P (store s t)) ->
  triple P P (string_member alloc j name store).
Proof.
  intros Hj H. unfold string_member. destruct (member j name cJSON_String) as [p|] eqn:E; [|apply triple_ret].
  destruct (member_text j name p Hj E) as [s ->].
  intros x Hx Hr. unfold strdup. wp_step. unfold wp at 1. cbn [x_test x_r update].
  unfold on_test. wp_step. split; [by apply H|done].
Qed.

Lemma add_number_returns alloc o s d n : wp (cJSON_AddNumberToObject alloc o (Some s) d) (fun _ _ => True) n.
Proof.
  destruct o as [o|]; [eapply wp_mono; [apply add_created_spec; intros; apply create_spec|done]|].
  unfold cJSON_AddNumberToObject, add_created. wp_step. eapply wp_mono; [apply create_spec|]. by intros [x|] n' _.
Qed.

Lemma triple_report P alloc : triple P P (report_rate alloc).
Proof.
  intros x Hx Hr. unfold wp, report_rate. destruct (_ =? 0); [done|].
  destruct (wp_returns _ _ _ (add_number_returns alloc (x_start x) (key "target_bitrate") (D_of_Z (rate (settings (x_test x)))) (x_nalloc x)))
    as (r & n & -> & _). done.
Qed.

(** ** What an object says *)

(** Names are compared as C strings, without regard to case. *)
Definition has_name (name : string) (x : cJSON) : Prop := exists s, jstring x = Some s /\ tolower <$> cstr (key name) = tolower <$> cstr s.

(** The first member of that name is a number, or an array. *)
Definition typed_at (t : Z) (name : string) (j x : cJSON) : Prop :=
  exists before after, jchild j = before ++ x :: after /\ has_name name x /\ Forall (fun y => ~ has_name name y) before /\ Z.land (jtype x) 255 = t.

Definition number_at : string -> cJSON -> cJSON -> Prop := typed_at cJSON_Number.
Definition array_at : string -> cJSON -> cJSON -> Prop := typed_at cJSON_Array.
Definition has_number (name : string) (j : cJSON) : Prop := exists x, number_at name j x.

Lemma find_item_first name l i : find_item false (key name) l = Some i <->
  exists x before after, l = before ++ x :: after /\ has_name name x /\ Forall (fun y => ~ has_name name y) before /\ i = length before.
Proof.
  assert (forall y, case_insensitive_equal (key name) (jstring y) = true <-> has_name name y) as Hn.
  { intros y. unfold case_insensitive_equal, has_name, strcaseeq. destruct (jstring y) as [s|]; [|split; [done|by intros (? & ? & _)]].
    rewrite bool_decide_eq_true. split; [eauto|by intros (? & [= <-] & ?)]. }
  revert i. induction l as [|y l IH]; intros i; cbn [find_item].
  { split; [done|]. intros (x & [|] & after & E & _); done. }
  destruct (case_insensitive_equal (key name) (jstring y)) eqn:E.
  - apply Hn in E. split; [intros [= <-]; exists y, [], l; by split_and!|].
    intros (x & [|z before] & after & [= -> ->] & Hx & Hb & ->); [done|]. by inversion_clear Hb.
  - assert (~ has_name name y) as Hy by (by rewrite <- Hn, E). split.
    + intros H. destruct (find_item false (key name) l) as [k|]; [|done]. injection H as <-.
      destruct (proj1 (IH k) eq_refl) as (x & before & after & -> & Hx & Hb & ->). exists x, (y :: before), after. split_and!; try done. by constructor.
    + intros (x & [|z before] & after & [= -> ->] & Hx & Hb & ->); [done|]. inversion_clear Hb.
      by rewrite (proj2 (IH (length before))) by (by exists x, before, after).
Qed.

Lemma object_item_first j name x : cJSON_GetObjectItem (Some j) (Some (key name)) = Some x <->
  exists before after, jchild j = before ++ x :: after /\ has_name name x /\ Forall (fun y => ~ has_name name y) before.
Proof.
  unfold cJSON_GetObjectItem, get_object_item. split.
  - intros (i & (y & before & after & E & Hy & Hb & ->)%find_item_first & Hx)%bind_Some. rewrite E in Hx. rewrite list_lookup_middle in Hx by done.
    injection Hx as <-. by exists before, after.
  - intros (before & after & E & Hy & Hb). apply bind_Some. exists (length before). split; [apply find_item_first; by exists x, before, after|].
    rewrite E. by apply list_lookup_middle.
Qed.

Lemma member_typed t name j x : t = cJSON_Number \/ t = cJSON_Array -> member j name t = Some x <-> typed_at t name j x.
Proof.
  intros Ht. unfold member, iperf_cJSON_GetObjectItemType, typed_at. cbv zeta. split.
  - destruct (cJSON_GetObjectItem (Some j) (Some (key name))) as [y|] eqn:E; [|done]. apply object_item_first in E as (before & after & E & Hy & Hb).
    intros H. assert (base_type y = t /\ y = x) as [<- <-]; [|by exists before, after].
    destruct Ht as [-> | ->]; cbn in H; case_match; simplify_eq; (split; [by apply Z.eqb_eq|done]).
  - intros (before & after & E & Hy & Hb & Hx). rewrite (proj2 (object_item_first j name x)) by (by exists before, after).
    destruct Ht as [-> | ->]; cbn; unfold base_type; by rewrite Hx, Z.eqb_refl.
Qed.

Lemma member_number_at name j x : member j name cJSON_Number = Some x <-> number_at name j x.
Proof. apply member_typed. by left. Qed.

Lemma member_array_at name j x : member j name cJSON_Array = Some x <-> array_at name j x.
Proof. apply member_typed. by right. Qed.

Lemma number_unique name j x y : number_at name j x -> number_at name j y -> x = y.
Proof. rewrite <- !member_number_at. congruence. Qed.

Lemma has_member name j : has_number name j <-> is_Some (member j name cJSON_Number).
Proof. unfold has_number. split; intros [x Hx]; exists x; by apply member_number_at. Qed.

Lemma no_member name j : ~ has_number name j <-> member j name cJSON_Number = None.
Proof. rewrite has_member, <- eq_None_not_Some. done. Qed.

(** ** The settings without a limit *)

(** The number of that name, as an [int], if it is there and not negative;
    otherwise what was there before. *)
Definition int_told (j : cJSON) (name : string) (before after : Z) : Prop :=
  (exists x, number_at name j x /\ 0 <= jvalueint x /\ after = s32 (jvalueint x)) \/
  ~ (exists x, number_at name j x /\ 0 <= jvalueint x) /\ after = before.

(** A negative number of that name. *)
Definition negative (j : cJSON) (name : string) : Prop := exists x, number_at name j x /\ jvalueint x < 0.

(** What the message leaves in the settings without an upper limit.  Of the
    sizes of offloaded datagrams the server makes its own: whole blocks. *)
Record unlimited_told (j : cJSON) (t t' : iperf_test) (r : Z) : Prop := {
  ut_pacing : int_told j "pacing_timer" (pacing_timer (settings t)) (pacing_timer (settings t'));
  ut_gso : int_told j "gso" (gso (settings t)) (gso (settings t'));
  ut_gro : int_told j "gro_bf_size" (gro_bf_size (settings t)) (gro_bf_size (settings t'));
  ut_sizes : exists dg bf, int_told j "gso_dg_size" (gso_dg_size (settings t)) dg /\ int_told j "gso_bf_size" (gso_bf_size (settings t)) bf /\
    (protocol t' <> Pudp \/ gso (settings t') = 0 -> gso_dg_size (settings t') = dg /\ gso_bf_size (settings t') = bf) /\
    (protocol t' = Pudp -> gso (settings t') <> 0 -> r = 0 ->
      gso_dg_size (settings t') = blksize (settings t') /\ gso_bf_size (settings t') = Z.quot bf (blksize (settings t')) * blksize (settings t'));
  ut_refused : r = 0 -> Forall (fun name => ~ negative j name) ["pacing_timer"; "gso"; "gro_bf_size"; "gso_dg_size"; "gso_bf_size"]%string }.

(** A step that leaves [v] of the test as it is; an error stays. *)
Definition keeps {T} (v : iperf_test -> T) (m : XM unit) : Prop :=
  forall x, wp m (fun _ x' => v (x_test x') = v (x_test x) /\ (x_r x = -1 -> x_r x' = -1)) x.

Lemma keeps_seq {T} (v : iperf_test -> T) m k : keeps v m -> keeps v k -> keeps v (m ;;; k).
Proof.
  intros Hm Hk x. wp_step. eapply wp_mono; [apply Hm|]. intros [] x1 [E1 R1]. eapply wp_mono; [apply Hk|].
  intros _ x2 [E2 R2]. split; [congruence|auto].
Qed.

Lemma keeps_ret {T} (v : iperf_test -> T) : keeps v (ret tt).
Proof. intros x. by wp_step. Qed.

Lemma keeps_on_test {T} (v : iperf_test -> T) f : (forall t, v (f t) = v t) -> keeps v (on_test f).
Proof. intros Hf x. unfold on_test. wp_step. by split; [apply Hf|]. Qed.

Lemma keeps_failing {T} (v : iperf_test -> T) e : keeps v (failing e).
Proof. intros x. unfold failing. by wp_step. Qed.

Lemma keeps_number {T} (v : iperf_test -> T) j name ok e store : (forall n t, v (store n t) = v t) -> keeps v (number_member j name ok e store).
Proof. intros H. unfold number_member. destruct (member j name cJSON_Number); [|apply keeps_ret]. destruct (ok _); [by apply keeps_on_test|apply keeps_failing]. Qed.

Lemma keeps_flag {T} (v : iperf_test -> T) j name expected store : (forall p t, v (store p t) = v t) -> keeps v (flag_member j name expected store).
Proof. intros H. unfold flag_member. destruct (member j name expected); [by apply keeps_on_test|apply keeps_ret]. Qed.

Lemma keeps_string {T} (v : iperf_test -> T) alloc j name store : has_texts j = true -> (forall s t, v (store s t) = v t) -> keeps v (string_member alloc j name store).
Proof.
  intros Hj H. unfold string_member. destruct (member j name cJSON_String) as [p|] eqn:E; [|apply keeps_ret].
  destruct (member_text j name p Hj E) as [s ->]. intros x. unfold strdup. wp_step. unfold wp at 1. cbn [x_test x_r update].
  unfold on_test. wp_step. split; [apply H|done].
Qed.

Lemma keeps_select {T} (v : iperf_test -> T) prot_id : (forall t t', set_protocol prot_id t = Some t' -> v t' = v t) -> keeps v (select_protocol prot_id).
Proof. intros H x. unfold wp, select_protocol. destruct (set_protocol prot_id (x_test x)) as [t|] eqn:E; [|done]. cbn. split; [by apply H|done]. Qed.

Lemma keeps_report {T} (v : iperf_test -> T) alloc : keeps v (report_rate alloc).
Proof.
  intros x. unfold wp, report_rate. destruct (_ =? 0); [done|].
  destruct (wp_returns _ _ _ (add_number_returns alloc (x_start x) (key "target_bitrate") (D_of_Z (rate (settings (x_test x)))) (x_nalloc x)))
    as (r & n & -> & _). done.
Qed.

(** The settings in question, and with what the sizes depend on. *)
Definition unlimited (t : iperf_test) : Z * Z * Z * Z * Z :=
  (pacing_timer (settings t), gso (settings t), gso_dg_size (settings t), gso_bf_size (settings t), gro_bf_size (settings t)).
Definition offloaded (t : iperf_test) := (unlimited t, protocol t, blksize (settings t)).

Ltac keeps_each := repeat first [apply keeps_seq|apply keeps_number|apply keeps_flag|apply keeps_on_test|apply keeps_string|apply keeps_ret|apply keeps_report]; try done.

Lemma protocol_keeps j : keeps unlimited (receive_protocol j).
Proof.
  assert (forall prot_id, keeps unlimited (select_protocol prot_id)) as Hs.
  { intros prot_id. apply keeps_select. intros t t'. unfold set_protocol. destruct (existsb _ _); [|done]. intros [= <-].
    unfold check_sender_has_retransmits. by destruct (_ && _). }
  unfold receive_protocol. apply keeps_seq; [|apply keeps_seq].
  - destruct (member j "tcp" cJSON_True); [apply Hs|apply keeps_ret].
  - destruct (member j "udp" cJSON_True); [|apply keeps_ret]. intros x. wp_step. apply wp_get. destruct (diskfile_name (x_test x)); [apply keeps_failing|apply Hs].
  - destruct (member j "sctp" cJSON_True); [apply Hs|apply keeps_ret].
Qed.

Lemma extent_keeps j : keeps unlimited (receive_extent j).
Proof.
  unfold receive_extent. keeps_each. intros _ t. unfold iperf_set_test_reverse, check_sender_has_retransmits. by repeat case_match.
Qed.

Lemma options_keep alloc j : has_texts j = true -> keeps offloaded (receive_options alloc j).
Proof. intros Hj. unfold receive_options. keeps_each. intros t. by case_match. Qed.

(** ** The members *)

(** Before the direction is known. *)
Definition one_way (t : iperf_test) : Prop := valid t /\ bidirectional t = 0.

Lemma one_way_valid t : one_way t -> valid t.
Proof. by intros [? _]. Qed.

Lemma check_retransmits_valid t : in_range t -> role t = role_server -> protocol t ∈ protocols t /\ Ptcp ∈ protocols t -> mode t = direction t ->
  valid (check_sender_has_retransmits t).
Proof.
  intros Hi H1 H2 H3. unfold check_sender_has_retransmits. destruct (_ && _) eqn:E.
  all: split; [by destruct Hi; constructor|constructor; try done].
  - right. split; [done|]. rewrite !andb_true_iff, negb_true_iff, Z.eqb_neq in E. tauto.
  - by left.
Qed.

Lemma set_protocol_valid prot_id t t' : set_protocol prot_id t = Some t' -> one_way t -> one_way t'.
Proof.
  unfold set_protocol. destruct (existsb _ _) eqn:E; [|done]. intros [= <-] [[Hi [H1 H2 H3 H4]] Hb].
  apply existsb_exists in E as (p & Hp & ->%Z.eqb_eq). apply list_elem_of_In in Hp. split.
  - destruct H2. apply check_retransmits_valid; [by destruct Hi; constructor|done..].
  - unfold check_sender_has_retransmits. by destruct (_ && _).
Qed.

Lemma triple_select prot_id : triple one_way one_way (select_protocol prot_id).
Proof.
  intros x Hx Hr. unfold wp, select_protocol. destruct (set_protocol prot_id (x_test x)) as [t|] eqn:E; [|by split].
  split; [by eapply set_protocol_valid|done].
Qed.

Lemma reverse_valid t : one_way t -> one_way (iperf_set_test_reverse 1 t).
Proof.
  intros [[Hi [H1 H2 H3 H4]] Hb]. unfold iperf_set_test_reverse. cbn [reverse role update]. rewrite H1. cbn [Z.eqb Pos.eqb]. split.
  - apply check_retransmits_valid; [by destruct Hi; constructor|done..|]. unfold direction. cbn. by rewrite Hb.
  - unfold check_sender_has_retransmits. by destruct (_ && _).
Qed.

Lemma bidirectional_valid t : one_way t -> valid (iperf_set_test_bidirectional 1 t).
Proof.
  intros [[Hi [H1 H2 H3 H4]] Hb]. unfold iperf_set_test_bidirectional. cbn [Z.eqb negb]. split; [by destruct Hi; constructor|].
  constructor; [done|done|done|]. destruct H4 as [?|[? ?]]; [by left|by right].
Qed.

Lemma nonzero_flag_range p : 0 <= nonzero_flag p <= 1.
Proof. unfold nonzero_flag. destruct (_ =? 0); lia. Qed.

(** A store of one checked number into its field. *)
Ltac solve_range :=
  cbn; unfold MAX_OMIT_TIME, MAX_TIME, MAX_MSS, MAX_STREAMS, MAX_TCP_BUFFER, MAX_BURST, MB in *;
  first [apply nonzero_flag_range|apply wrapu_range; lia|rewrite wraps_small by lia; lia|lia].

Ltac solve_store :=
  let Hi := fresh "Hi" in let Hs := fresh "Hs" in let Hb := fresh "Hb" in
  intros;
  repeat match goal with H : one_way _ |- _ => destruct H as [H Hb]; split; [|exact Hb] end;
  match goal with H : valid _ |- _ => destruct H as [Hi Hs] end;
  unfold between, nonnegative in *; rewrite ?andb_true_iff, ?Z.leb_le in *;
  split; [destruct Hi; constructor; first [assumption|solve_range]|destruct Hs; constructor; assumption].

(** The steps of a group of members that keep [P]. *)
Ltac each_member :=
  first [apply triple_number|apply triple_flag|apply triple_on_test|apply triple_string]; try assumption; solve_store.

Lemma triple_protocol j : triple one_way one_way (receive_protocol j).
Proof.
  unfold receive_protocol. apply (triple_seq one_way one_way); [|apply (triple_seq one_way one_way)].
  - destruct (member j "tcp" cJSON_True); [apply triple_select|apply triple_ret].
  - destruct (member j "udp" cJSON_True); [|apply triple_ret]. intros x Hx Hr. wp_step. apply wp_get.
    destruct (diskfile_name (x_test x)); [by apply triple_failing|by apply triple_select].
  - destruct (member j "sctp" cJSON_True); [apply triple_select|apply triple_ret].
Qed.

Lemma triple_extent j : triple one_way valid (receive_extent j).
Proof.
  unfold receive_extent.
  do 10 (apply (triple_seq one_way one_way); [each_member|]).
  apply (triple_seq one_way one_way); [apply triple_flag; [done|intros _; apply reverse_valid]|].
  apply (triple_seq one_way valid); [apply triple_flag; [apply one_way_valid|intros _; apply bidirectional_valid]|].
  apply (triple_seq valid valid); each_member.
Qed.

Lemma valid_settings f t : (forall s, socket_bufsize (f s) = socket_bufsize s /\ rate (f s) = rate s /\ fqrate (f s) = fqrate s /\
    burst (f s) = burst s /\ mss (f s) = mss s /\ tos (f s) = tos s /\ bytes (f s) = bytes s /\ blocks (f s) = blocks s /\
    dont_fragment (f s) = dont_fragment s /\ skip_rx_copy (f s) = skip_rx_copy s /\ gro (f s) = gro s) ->
  valid t -> valid (update settings f t).
Proof.
  intros Hf [Hi Hs]. destruct (Hf (settings t)) as (E1 & E2 & E3 & E4 & E5 & E6 & E7 & E8 & E9 & E10 & E11).
  split; [destruct Hi; constructor; cbn; congruence|destruct Hs; by constructor].
Qed.

Lemma datagram_valid t : valid t -> valid (derived_datagram_size t) /\ valid (whole_datagrams t).
Proof.
  intros H. unfold derived_datagram_size, whole_datagrams. cbv zeta.
  split; (destruct (_ && _); [|done]); case_match; repeat (apply valid_settings; [done|]); done.
Qed.

Lemma triple_offload j : triple valid valid (receive_offload j).
Proof.
  unfold receive_offload. do 3 (apply (triple_seq valid valid); [each_member|]).
  apply (triple_seq valid valid); [apply triple_on_test; intros; by apply datagram_valid|].
  apply (triple_seq valid valid); each_member.
Qed.

Lemma triple_rates j : triple valid valid (receive_rates j).
Proof. unfold receive_rates. do 4 (apply (triple_seq valid valid); [each_member|]). each_member. Qed.

Lemma triple_options alloc j : has_texts j = true -> triple valid valid (receive_options alloc j).
Proof.
  intros Hj. unfold receive_options.
  do 11 (apply (triple_seq valid valid); [each_member|]).
  apply triple_on_test. intros t [Hi [H1 H2 H3 H4]]. destruct (_ && _) eqn:E; [|by split].
  split; [by destruct Hi; constructor|]. constructor; [done..|]. right. split; [done|].
  rewrite !andb_true_iff, negb_true_iff, Z.eqb_neq in E. cbn. unfold RECEIVER. tauto.
Qed.

(** ** The verdict *)

(** What a test the server runs satisfies. *)
Record accepted (t : iperf_test) : Prop := mk_accepted {
  a_block : blksize (settings t) <= MAX_BLOCKSIZE;
  a_stream_block : protocol t <> Pudp -> 0 < blksize (settings t);
  a_datagram : protocol t = Pudp -> MIN_UDP_BLOCKSIZE <= blksize (settings t) <= MAX_UDP_BLOCKSIZE;
  a_segments : protocol t = Pudp -> gso (settings t) <> 0 ->
    gso_dg_size (settings t) = blksize (settings t) /\ (gso_dg_size (settings t) | gso_bf_size (settings t));
  a_duration : 0 < max_server_duration t -> 0 < duration t /\ duration t + omit t <= max_server_duration t;
  a_rate : bitrate_limit (settings t) <> 0 -> total_requested_rate t (rate (settings t)) <= bitrate_limit (settings t);
  a_fqrate : bitrate_limit (settings t) <> 0 -> total_requested_rate t (fqrate (settings t)) <= bitrate_limit (settings t) }.

Lemma over_limit_false t r : over_limit t r = false -> bitrate_limit (settings t) <> 0 ->
  total_requested_rate t r <= bitrate_limit (settings t).
Proof.
  unfold over_limit. intros H Hl. rewrite (proj2 (Z.eqb_neq _ _) Hl) in H. cbn [negb andb] in H. by apply Z.ltb_ge in H.
Qed.

Lemma too_long_false t : in_range t -> too_long t = false -> 0 < max_server_duration t ->
  0 < duration t /\ duration t + omit t <= max_server_duration t.
Proof.
  intros Hi H Hm. pose proof (r_omit t Hi). pose proof (r_duration t Hi). unfold MAX_OMIT_TIME, MAX_TIME in *. unfold too_long in H.
  rewrite (proj2 (Z.ltb_lt _ _) Hm) in H. cbn [andb] in H. rewrite orb_false_iff, Z.ltb_ge, Z.eqb_neq in H.
  rewrite wraps_small in H by lia. lia.
Qed.

Lemma whole_datagrams_frame t : protocol (whole_datagrams t) = protocol t /\ blksize (settings (whole_datagrams t)) = blksize (settings t) /\
  gso (settings (whole_datagrams t)) = gso (settings t).
Proof. unfold whole_datagrams. destruct (_ && _); [|done]. cbv zeta. by case_match. Qed.

Lemma whole_datagrams_segments t : protocol t = Pudp -> gso (settings t) <> 0 -> 0 < blksize (settings t) ->
  gso_dg_size (settings (whole_datagrams t)) = blksize (settings t) /\
  (gso_dg_size (settings (whole_datagrams t)) | gso_bf_size (settings (whole_datagrams t))).
Proof.
  intros Hp Hg Hb. unfold whole_datagrams. rewrite Hp, Z.eqb_refl, (proj2 (Z.eqb_neq _ _) Hg). cbn [negb andb]. cbv zeta. cbn.
  rewrite (proj2 (Z.ltb_lt _ _) Hb). split; [done|]. cbn. by exists (Z.quot (gso_bf_size (settings t)) (blksize (settings t))).
Qed.

Lemma total_requested_rate_whole t r : total_requested_rate (whole_datagrams t) r = total_requested_rate t r.
Proof. unfold whole_datagrams. destruct (_ && _); [|done]. cbv zeta. by case_match. Qed.

Lemma whole_datagrams_limits t : bitrate_limit (settings (whole_datagrams t)) = bitrate_limit (settings t) /\
  rate (settings (whole_datagrams t)) = rate (settings t) /\ fqrate (settings (whole_datagrams t)) = fqrate (settings t) /\
  max_server_duration (whole_datagrams t) = max_server_duration t /\ duration (whole_datagrams t) = duration t /\
  omit (whole_datagrams t) = omit t /\ zerocopy (whole_datagrams t) = zerocopy t.
Proof. unfold whole_datagrams. destruct (_ && _); [|done]. cbv zeta. by case_match. Qed.

(** A failed check of the verdict makes the result -1. *)
Lemma when_failing_spec b e (k : XM Z) Q x :
  (b = false -> wp k Q x) -> (b = true -> wp k Q (x <| x_errno := e |> <| x_r := -1 |>)) ->
  wp (when b do failing e ;;; k) Q x.
Proof. intros Hf Ht. wp_step. destruct b; [unfold failing; wp_step; by apply Ht|wp_step; by apply Hf]. Qed.

(** The end of [check_parameters], with zerocopy supported. *)
Definition verdict (t : iperf_test) (x : exchange) : XM Z :=
  if (zerocopy t =? 1) && negb (mode t =? RECEIVER) && (has_sendfile =? 0) then iperf_set_error IENOSENDFILE ;;; ret (-1)
  else gets x_r.

Lemma no_sendfile t : (zerocopy t =? 1) && negb (mode t =? RECEIVER) && (has_sendfile =? 0) = false.
Proof. apply andb_false_r. Qed.

(** A number without an upper limit. *)
Lemma number_told {T} (v : iperf_test -> T) (f : iperf_test -> Z) j name e store x :
  (forall n t, v (store n t) = v t) -> (forall n t, f (store n t) = s32 n) ->
  wp (number_member j name nonnegative e store) (fun _ x' => v (x_test x') = v (x_test x) /\ int_told j name (f (x_test x)) (f (x_test x')) /\
    (x_r x = -1 \/ negative j name -> x_r x' = -1)) x.
Proof.
  intros Hv Hf. unfold number_member, nonnegative, int_told, negative. destruct (member j name cJSON_Number) as [p|] eqn:E.
  - apply member_number_at in E. destruct (Z.leb_spec 0 (jvalueint p)).
    + unfold on_test. wp_step. cbn. split_and!; [apply Hv|left; exists p; by rewrite Hf|].
      intros [?|(y & Hy & ?)]; [done|]. rewrite (number_unique _ _ _ _ Hy E) in *. lia.
    + unfold failing. wp_step. cbn. split_and!; [done|right|done]. split; [|done]. intros (y & Hy & ?). rewrite (number_unique _ _ _ _ Hy E) in *. lia.
  - apply no_member in E. wp_step. split_and!; [done|right|].
    + split; [|done]. intros (y & Hy & _). apply E. by exists y.
    + intros [?|(y & Hy & _)]; [done|]. exfalso. apply E. by exists y.
Qed.

(** The sizes of offloaded datagrams so far: what was told, or its whole blocks. *)
Definition sizes_told (t : iperf_test) (dg bf : Z) : Prop :=
  (protocol t <> Pudp \/ gso (settings t) = 0 -> gso_dg_size (settings t) = dg /\ gso_bf_size (settings t) = bf) /\
  (0 < blksize (settings t) -> Z.quot (gso_bf_size (settings t)) (blksize (settings t)) = Z.quot bf (blksize (settings t))).

Lemma derived_sizes t : let t' := derived_datagram_size t in
  sizes_told t' (gso_dg_size (settings t)) (gso_bf_size (settings t)) /\
  (pacing_timer (settings t'), gso (settings t'), gro_bf_size (settings t'), protocol t', blksize (settings t')) =
  (pacing_timer (settings t), gso (settings t), gro_bf_size (settings t), protocol t, blksize (settings t)).
Proof.
  intros t'. unfold t', derived_datagram_size, sizes_told. destruct (Z.eqb_spec (protocol t) Pudp) as [Ep|]; [|by split].
  destruct (Z.eqb_spec (gso (settings t)) 1) as [Eg|]; [|by split]. destruct (_ =? 0); [|by split]. cbn [andb]. cbv zeta. cbn.
  destruct (Z.ltb_spec 0 (blksize (settings t))); cbn; (split; [|done]); (split; [intros [?|?]; [done|lia]|]); intros ?; [|done].
  by rewrite Z.quot_mul by lia.
Qed.

Lemma offload_told j x :
  wp (receive_offload j) (fun _ x' => let t := x_test x in let t' := x_test x' in
    (pacing_timer (settings t'), protocol t', blksize (settings t')) = (pacing_timer (settings t), protocol t, blksize (settings t)) /\
    int_told j "gso" (gso (settings t)) (gso (settings t')) /\ int_told j "gro_bf_size" (gro_bf_size (settings t)) (gro_bf_size (settings t')) /\
    (exists dg bf, int_told j "gso_dg_size" (gso_dg_size (settings t)) dg /\ int_told j "gso_bf_size" (gso_bf_size (settings t)) bf /\ sizes_told t' dg bf) /\
    (x_r x = -1 \/ negative j "gso" \/ negative j "gso_dg_size" \/ negative j "gso_bf_size" \/ negative j "gro_bf_size" -> x_r x' = -1)) x.
Proof.
  unfold receive_offload. wp_step.
  eapply wp_mono; [apply (number_told (fun t => (pacing_timer (settings t), protocol t, blksize (settings t), gso_dg_size (settings t), gso_bf_size (settings t), gro_bf_size (settings t)))
    (fun t => gso (settings t))); done|]. intros [] x1 ([= A1 A2 A3 A4 A5 A6] & T1 & R1). wp_step.
  eapply wp_mono; [apply (number_told (fun t => (pacing_timer (settings t), protocol t, blksize (settings t), gso (settings t), gso_bf_size (settings t), gro_bf_size (settings t)))
    (fun t => gso_dg_size (settings t))); done|]. intros [] x2 ([= B1 B2 B3 B4 B5 B6] & T2 & R2). wp_step.
  eapply wp_mono; [apply (number_told (fun t => (pacing_timer (settings t), protocol t, blksize (settings t), gso (settings t), gso_dg_size (settings t), gro_bf_size (settings t)))
    (fun t => gso_bf_size (settings t))); done|]. intros [] x3 ([= C1 C2 C3 C4 C5 C6] & T3 & R3). wp_step.
  apply wp_modify. destruct (derived_sizes (x_test x3)) as [T4 [= D1 D2 D3 D4 D5]]. set (t4 := derived_datagram_size (x_test x3)) in *. wp_step.
  change (update x_test derived_datagram_size x3) with (x3 <| x_test := t4 |>). clearbody t4. set (x4 := x3 <| x_test := t4 |>).
  eapply wp_mono; [apply (keeps_number (fun t => (offloaded t, gro_bf_size (settings t))) j "gro"); done|]. unfold offloaded, unlimited. intros [] x5 ([= E1 E2 E3 E4 E5 E6 E7] & R5).
  eapply wp_mono; [apply (number_told (fun t => (pacing_timer (settings t), protocol t, blksize (settings t), gso (settings t), gso_dg_size (settings t), gso_bf_size (settings t)))
    (fun t => gro_bf_size (settings t))); done|]. intros [] x6 ([= F1 F2 F3 F4 F5 F6] & T6 & R6).
  unfold x4 in *. cbn in *. rewrite A5 in *. unfold sizes_told in *. rewrite F1, F2, F3, F4, F5, F6 in *. clear F1 F2 F3 F4 F5 F6.
  split_and!.
  - congruence.
  - congruence.
  - congruence.
  - exists (gso_dg_size (settings (x_test x3))), (gso_bf_size (settings (x_test x3))). split_and!; try congruence; rewrite ?E2, ?E3, ?E4, ?E6, ?E7; apply T4.
  - tauto.
Qed.

Lemma rates_told j x :
  wp (receive_rates j) (fun _ x' => let t := x_test x in let t' := x_test x' in
    (gso (settings t'), gso_dg_size (settings t'), gso_bf_size (settings t'), gro_bf_size (settings t'), protocol t', blksize (settings t')) =
    (gso (settings t), gso_dg_size (settings t), gso_bf_size (settings t), gro_bf_size (settings t), protocol t, blksize (settings t)) /\
    int_told j "pacing_timer" (pacing_timer (settings t)) (pacing_timer (settings t')) /\ (x_r x = -1 \/ negative j "pacing_timer" -> x_r x' = -1)) x.
Proof.
  unfold receive_rates. wp_step. eapply wp_mono; [apply (keeps_number offloaded); done|]. intros [] x1 [E1 R1].
  wp_step. eapply wp_mono; [apply (keeps_number offloaded); done|]. intros [] x2 [E2 R2]. rewrite E1 in E2. wp_step.
  eapply wp_mono; [apply (number_told (fun t => (gso (settings t), gso_dg_size (settings t), gso_bf_size (settings t), gro_bf_size (settings t), protocol t, blksize (settings t)))
    (fun t => pacing_timer (settings t))); done|]. intros [] x3 (E3 & T3 & R3).
  eapply wp_mono; [apply (keeps_seq offloaded); apply keeps_number; done|]. intros [] x4 [E4 R4].
  unfold offloaded, unlimited in *. injection E2 as B1 B2 B3 B4 B5 B6 B7. injection E4 as D1 D2 D3 D4 D5 D6 D7. injection E3 as C1 C2 C3 C4 C5 C6.
  split_and!; [congruence|by rewrite D1, <- B1|tauto].
Qed.

Lemma whole_sizes t : let t' := whole_datagrams t in
  (pacing_timer (settings t'), gso (settings t'), gro_bf_size (settings t'), protocol t', blksize (settings t')) =
  (pacing_timer (settings t), gso (settings t), gro_bf_size (settings t), protocol t, blksize (settings t)) /\
  (protocol t <> Pudp \/ gso (settings t) = 0 -> gso_dg_size (settings t') = gso_dg_size (settings t) /\ gso_bf_size (settings t') = gso_bf_size (settings t)) /\
  (protocol t = Pudp -> gso (settings t) <> 0 -> 0 < blksize (settings t) -> gso_dg_size (settings t') = blksize (settings t) /\
    gso_bf_size (settings t') = Z.quot (gso_bf_size (settings t)) (blksize (settings t)) * blksize (settings t)).
Proof.
  intros t'. unfold t', whole_datagrams. destruct (Z.eqb_spec (protocol t) Pudp) as [Ep|]; [|by split_and!].
  destruct (Z.eqb_spec (gso (settings t)) 0) as [Eg|Eg]; [by split_and!|]. cbn [negb andb]. cbv zeta. cbn.
  destruct (Z.ltb_spec 0 (blksize (settings t))); cbn; (split_and!; [done|by intros [?|?]|]); [done|intros _ _ ?; lia].
Qed.

(** The sizes that [check_parameters] leaves. *)
Definition sizes_checked (x : exchange) (r : Z) (x' : exchange) : Prop :=
  let t := x_test x in
  let t' := x_test x' in
  (pacing_timer (settings t'), gso (settings t'), gro_bf_size (settings t'), protocol t', blksize (settings t')) =
  (pacing_timer (settings t), gso (settings t), gro_bf_size (settings t), protocol t, blksize (settings t)) /\
  (protocol t <> Pudp \/ gso (settings t) = 0 -> gso_dg_size (settings t') = gso_dg_size (settings t) /\ gso_bf_size (settings t') = gso_bf_size (settings t)) /\
  (r = 0 -> x_r x <> -1 /\ (protocol t = Pudp -> gso (settings t) <> 0 -> 0 < blksize (settings t) /\ gso_dg_size (settings t') = blksize (settings t) /\
    gso_bf_size (settings t') = Z.quot (gso_bf_size (settings t)) (blksize (settings t)) * blksize (settings t))).

Lemma check_told x : wp check_parameters (sizes_checked x) x.
Proof.
  unfold sizes_checked, check_parameters. wp_step. apply wp_get. cbv zeta. set (t := x_test x) in *.
  destruct (negb (protocol t =? Pudp) && (blksize (settings t) <=? 0) || (MAX_BLOCKSIZE <? blksize (settings t)));
    [unfold iperf_set_error; wp_step; wp_step; by wp_step|].
  destruct ((protocol t =? Pudp) && _) eqn:E2; [unfold iperf_set_error; wp_step; wp_step; by wp_step|].
  rewrite andb_false_iff, orb_false_iff, Z.eqb_neq, !Z.ltb_ge in E2.
  rewrite no_sendfile. wp_step. unfold on_test. wp_step. destruct (whole_sizes t) as (W1 & W2 & W3).
  set (t1 := whole_datagrams t) in *.
  assert (forall y, x_test y = t1 -> (x_r y = x_r x \/ x_r y = -1) -> wp (gets x_r) (sizes_checked x) y) as Hend.
  { intros y Hy Hr. wp_step. unfold sizes_checked. rewrite Hy. cbv zeta. fold t. split_and!; [exact W1|exact W2|]. intros Hr0. rewrite Hr0 in Hr. split; [lia|].
    intros Hp Hg. assert (0 < blksize (settings t)) as Hb by (unfold MIN_UDP_BLOCKSIZE in *; lia). split; [done|by apply W3]. }
  apply when_failing_spec; intros Hl; (apply when_failing_spec; intros Hr1; (apply when_failing_spec; intros Hr2)).
  all: apply Hend; cbn; auto.
Qed.

(** What the whole message leaves. *)
Lemma apply_told alloc j x : has_texts j = true -> x_r x = 0 ->
  wp (apply_parameters alloc j) (fun r x' => unlimited_told j (x_test x) (x_test x') r) x.
Proof.
  intros Hj Hr. unfold apply_parameters. wp_step. eapply wp_mono; [apply protocol_keeps|]. intros [] x1 [E1 _].
  wp_step. eapply wp_mono; [apply extent_keeps|]. intros [] x2 [E2 _]. rewrite E1 in E2. clear E1 x1.
  wp_step. eapply wp_mono; [apply offload_told|]. cbv zeta. intros [] x3 ([= A1 A2 A3] & Tg & Tr & (dg & bf & Td & Tb & Ts) & R3).
  wp_step. eapply wp_mono; [apply rates_told|]. cbv zeta. intros [] x4 ([= B1 B2 B3 B4 B5 B6] & Tp & R4).
  wp_step. eapply wp_mono; [by apply options_keep|]. intros [] x5 [[= C1 C2 C3 C4 C5 C6 C7] R5].
  wp_step. eapply wp_mono; [apply (keeps_report offloaded)|]. intros [] x6 [[= D1 D2 D3 D4 D5 D6 D7] R6].
  eapply wp_mono; [apply check_told|]. unfold sizes_checked. cbv zeta. intros r x7 ([= F1 F2 F3 F4 F5] & Hs & Hok).
  injection E2 as G1 G2 G3 G4 G5. destruct Ts as [Ts1 Ts2].
  rewrite D1, D2, D3, D4, D5, D6, D7, C1, C2, C3, C4, C5, C6, C7, B1, B2, B3, B4, B5, B6 in *.
  rewrite G2, G3, G4, G5, A1, ?G1 in *. split.
  - by rewrite F1.
  - by rewrite F2.
  - by rewrite F3.
  - exists dg, bf. rewrite F2, F4, F5. split_and!; [done..| |].
    + intros H. destruct (Hs H) as [-> ->]. by apply Ts1.
    + intros H1 H2 ->. destruct (Hok eq_refl) as [_ H]. destruct (H H1 H2) as (Hb & -> & ->). by rewrite Ts2.
  - intros ->. destruct (Hok eq_refl) as [H _]. repeat constructor; intros Hneg; apply H, R6, R5; tauto.
Qed.

Lemma check_parameters_spec x : valid (x_test x) -> x_r x = 0 \/ x_r x = -1 ->
  wp check_parameters (fun r x' => valid (x_test x') /\ (r = -1 \/ r = 0 /\ accepted (x_test x'))) x.
Proof.
  intros Hv Hr. unfold check_parameters. wp_step. apply wp_get. cbv zeta. set (t := x_test x) in *.
  destruct (negb (protocol t =? Pudp) && (blksize (settings t) <=? 0) || (MAX_BLOCKSIZE <? blksize (settings t))) eqn:E1;
    [unfold iperf_set_error; wp_step; wp_step; wp_step; auto|].
  destruct ((protocol t =? Pudp) && _) eqn:E2; [unfold iperf_set_error; wp_step; wp_step; wp_step; auto|].
  rewrite no_sendfile. wp_step. unfold on_test. wp_step. pose proof (proj2 (datagram_valid t Hv)) as Hv'.
  assert (forall y, valid (x_test y) -> x_r y = -1 ->
    wp (gets x_r) (fun r x' => valid (x_test x') /\ (r = -1 \/ r = 0 /\ accepted (x_test x'))) y) as Hbad by (intros; wp_step; auto).
  apply when_failing_spec; intros Hl; (apply when_failing_spec; intros Hr1; (apply when_failing_spec; intros Hr2)).
  2-8: by apply Hbad.
  wp_step. cbn [x_test x_r update]. split; [done|]. destruct Hr as [->| ->]; [right|by left]. split; [done|].
  rewrite !orb_false_iff, !andb_false_iff, negb_false_iff, Z.eqb_eq, Z.leb_gt, Z.ltb_ge in E1.
  rewrite andb_false_iff, orb_false_iff, Z.eqb_neq, !Z.ltb_ge in E2.
  destruct (whole_datagrams_frame t) as (F1 & F2 & F3), (whole_datagrams_limits t) as (L1 & L2 & L3 & L4 & L5 & L6 & L7).
  constructor; fold t; rewrite ?total_requested_rate_whole, ?F1, ?F2, ?F3, ?L1, ?L2, ?L3, ?L4, ?L5, ?L6.
  - lia.
  - intros. lia.
  - intros. lia.
  - intros Hp Hg. apply whole_datagrams_segments; [done|done|]. unfold MIN_UDP_BLOCKSIZE in *. lia.
  - apply too_long_false; [apply Hv|done].
  - intros. by apply over_limit_false.
  - intros. by apply over_limit_false.
Qed.

Lemma apply_parameters_spec alloc j x : has_texts j = true -> one_way (x_test x) -> x_r x = 0 ->
  wp (apply_parameters alloc j) (fun r x' => valid (x_test x') /\ (r = -1 \/ r = 0 /\ accepted (x_test x'))) x.
Proof.
  intros Hj Hx Hr.
  assert (triple one_way valid (receive_protocol j ;;; receive_extent j ;;; receive_offload j ;;; receive_rates j ;;; receive_options alloc j ;;; report_rate alloc)) as T.
  { apply (triple_seq _ one_way); [apply triple_protocol|]. apply (triple_seq _ valid); [apply triple_extent|].
    apply (triple_seq _ valid); [apply triple_offload|]. apply (triple_seq _ valid); [apply triple_rates|].
    apply (triple_seq _ valid); [by apply triple_options|apply triple_report]. }
  specialize (T x Hx (or_introl Hr)). unfold apply_parameters.
  repeat (apply wp_bind_inv in T; apply wp_bind; eapply wp_mono; [exact T|clear T; intros [] ? T]).
  wp_step. eapply wp_mono; [exact T|]. intros [] x' [Hv' Hr']. by apply check_parameters_spec.
Qed.

(** ** The server between two tests *)

Lemma reset_valid t : in_range t -> Ptcp ∈ protocols t -> one_way (iperf_reset_test t).
Proof.
  intros Hi Hp. unfold iperf_reset_test, set_protocol. destruct (negb (server_output_byte_limit t =? 0)).
  all: cbv zeta; cbn [protocols update]; rewrite (proj2 (existsb_exists _ _)) by (exists Ptcp; by split; [apply list_elem_of_In|]).
  all: cbn [default]; unfold check_sender_has_retransmits; cbn [mode protocol update]; cbn [Z.eqb RECEIVER negb andb].
  all: split; [split; [|constructor; [done|by split|done|by left]]|done].
  all: destruct Hi; constructor; cbn; first [assumption|unfold MAX_OMIT_TIME, MAX_TIME, MAX_STREAMS, MAX_TCP_BUFFER, MB, OMIT, DURATION, MAX_MSS, MAX_BURST; lia].
Qed.

Lemma json_read_texts os calloc alloc max_size c :
  wp (JSON_read os calloc alloc max_size) (fun r _ => forall j, r = Some j -> has_texts j = true) c.
Proof.
  eapply wp_mono; [apply json_read_frame|]. intros r c' (h & text & _ & _ & _ & H) j Hj. destruct (H j Hj) as (_ & _ & _ & o & E).
  destruct (parse_returns (text ++ [0]) alloc) as (q & o' & E' & Hu); [apply elem_of_app; right; by left|].
  rewrite E in E'. injection E' as <- _. apply Hu.
Qed.

(** C36: a server that resets the test and reads the parameters of a client
    returns whatever bytes the client sends and however the system delivers
    them.  Every setting with a limit is in its range afterwards and the
    direction agrees with the flags; the pacing timer and the settings of UDP
    offload, which have no upper limit, are what the message says, or what the
    reset left where it says nothing or a negative number.  Success means that no
    such number was negative, that block size, datagram size, duration and the
    total rate (a product on 64 bits) passed the server's limits, and that
    offloaded datagrams are blocks. *)
Theorem get_parameters_validated os calloc palloc alloc c x (Hi : in_range (x_test x)) (Hp : Ptcp ∈ protocols (x_test x)) :
  exists q c' r x', JSON_read os calloc palloc MAX_PARAMS_JSON_STRING c = Ret (q, c') /\
    get_parameters os calloc palloc alloc (c, x <| x_test := iperf_reset_test (x_test x) |>) = Ret (r, (c', x')) /\
    in_range (x_test x') /\ serving (x_test x') /\ (r = -1 \/ r = 0 /\ accepted (x_test x')) /\
    match q with
    | Some j => unlimited_told j (iperf_reset_test (x_test x)) (x_test x') r
    | None => r = -1 /\ x_test x' = iperf_reset_test (x_test x)
    end.
Proof.
  pose proof (reset_valid _ Hi Hp) as Hone. unfold get_parameters. cbn [fst snd].
  destruct (wp_returns _ _ _ (json_read_texts os calloc palloc MAX_PARAMS_JSON_STRING c)) as (q & c' & -> & Hq).
  exists q, c'. destruct q as [j|].
  - set (x0 := _ <| x_r := 0 |>).
    destruct (wp_returns _ _ _ (apply_parameters_spec alloc j x0 (Hq j eq_refl) Hone eq_refl)) as (r & x' & E & Hv & Hr).
    pose proof (apply_told alloc j x0 (Hq j eq_refl) eq_refl) as Ht. unfold wp in Ht. rewrite E in *.
    exists r, x'. destruct Hv. by split_and!.
  - eexists _, _. split; [done|]. split; [done|]. destruct Hone as [[? ?] _]. cbn. auto.
Qed.

(** A server that has just been set up, and a system that delivers nothing. *)
Definition fresh : exchange := mk_exchange (iperf_defaults iperf_new_test) 0 0 0 None.

Lemma fresh_in_range : in_range (x_test fresh) /\ Ptcp ∈ protocols (x_test fresh).
Proof. split; [constructor; vm_compute; by split|by left]. Qed.

(** A client that sends only a pacing timer, larger than an [int]. *)
Definition pacing_message : list Z := [0; 0; 0; 27] ++ bytes_of "{'pacing_timer':4294967301}".
Definition pacing_channel : channel := mk_channel ((fun b => if b =? 39 then 34 else b) <$> pacing_message) [] 0.

Lemma get_parameters_validated_witness :
  exists q c' r x', JSON_read trickle true (fun _ => true) MAX_PARAMS_JSON_STRING pacing_channel = Ret (q, c') /\
    get_parameters trickle true (fun _ => true) (fun _ => true)
      (pacing_channel, fresh <| x_test := iperf_reset_test (x_test fresh) |>) = Ret (r, (c', x')) /\
    in_range (x_test x') /\ serving (x_test x') /\ (r = -1 \/ r = 0 /\ accepted (x_test x')) /\
    match q with
    | Some j => unlimited_told j (iperf_reset_test (x_test fresh)) (x_test x') r
    | None => r = -1 /\ x_test x' = iperf_reset_test (x_test fresh)
    end.
Proof. apply (get_parameters_validated trickle true _ _ _ fresh); apply fresh_in_range. Defined.

(** It is accepted; the timer keeps the lower bits. *)
Example pacing_wraps : exists c' x', get_parameters trickle true (fun _ => true) (fun _ => true)
    (pacing_channel, fresh <| x_test := iperf_reset_test (x_test fresh) |>) = Ret (0, (c', x')) /\ pacing_timer (settings (x_test x')) = 5.
Proof. eexists _, _. split; [vm_compute; reflexivity|]. by vm_compute. Qed.
