(* ===== verification/Message.v ===== *)
(** * Messages made of fields

    The objects of the parameter and result exchanges have one member per field,
    some of them only under a condition.  How such an object is built, that it
    is a document, and what a reader finds in it. *)

From Stdlib Require Import String.
From S2P Require Import Prelude Bytes Double JsonGrammar NumberText CJson CJsonTree CJsonTreeSpec CJsonPrint CJsonPrintSpec CJsonSpec CJsonRoundTrip CJsonSafety IperfTest ControlChannel ControlChannelSpec Params.
Local Open Scope c_scope.

(** ** The members of the message *)

(** A member, or its absence. *)
Definition field : Type := string * option va_value.

Definition true_if (b : bool) : option va_value := if b then Some (va_bool true) else None.
Definition int_if (b : bool) (n : Z) : option va_value := if b then Some (va_int64 n) else None.
Definition nonzero_int (n : Z) : option va_value := int_if (negb (n =? 0)) n.
Definition text_if (s : option text) : option va_value := (fun s => va_string (Some s)) <$> s.

Definition present (fs : list field) : list (list Z * va_value) :=
  omap (fun f : field => (fun v => (key f.1, v)) <$> f.2) fs.

Definition message (fs : list field) : cJSON := Node cJSON_Object (members (present fs)) None 0 D_zero None.

(** ** Building the message *)

Section Building.
Context (alloc : nat -> bool).

(** The step adds these members, unless an allocation fails. *)
Definition builds (m : cJSON -> AM cJSON) (fs : list field) : Prop := forall j n,
  wp (m j) (fun j' n' => (n <= n')%nat /\ (no_failure alloc n n' -> j' = set_jchild (jchild j ++ members (present fs)) j)) n.

Lemma members_app fs1 fs2 : members (fs1 ++ fs2) = members fs1 ++ members fs2.
Proof. apply fmap_app. Qed.

Lemma present_app fs1 fs2 : present (fs1 ++ fs2) = present fs1 ++ present fs2.
Proof. apply omap_app. Qed.

Lemma set_jchild_same j : set_jchild (jchild j) j = j.
Proof. by destruct j. Qed.

Lemma builds_nothing name : builds ret [(name, None)].
Proof. intros j n. split; [done|]. intros _. cbn. by rewrite app_nil_r, set_jchild_same. Qed.

Lemma builds_seq m k fs1 fs2 : builds m fs1 -> builds k fs2 -> builds (fun j => j <- m j ;; k j) (fs1 ++ fs2).
Proof.
  intros Hm Hk j n. wp_step. eapply wp_mono; [apply Hm|]. intros j1 n1 [Hn1 H1]. eapply wp_mono; [apply Hk|].
  intros j2 n2 [Hn2 H2]. split; [lia|]. intros Hf. apply (no_failure_app alloc n n1) in Hf as [Hf1 Hf2]; [|lia].
  rewrite (H2 Hf2), (H1 Hf1), present_app, members_app. destruct j. cbn. by rewrite app_assoc.
Qed.

Lemma key_cstr name : Forall (fun c => c <> 0) (key name) -> cstr (key name) = key name.
Proof. apply cstr_nonzero. Qed.

Lemma builds_adding mk name v : (forall n, wp mk (fun r n' => allocated_to alloc (value_node v) n r n') n) ->
  cstr (key name) = key name -> builds (adding (add_created alloc mk) name) [(name, Some v)].
Proof.
  intros Hmk Hk j n. unfold adding. wp_step. eapply wp_mono; [by apply add_created_spec|]. intros r n1 Hr. wp_step.
  split; [by destruct Hr|]. intros Hf. destruct r as [j'|]; [|by apply allocated_none_failure in Hr].
  destruct Hr as [_ ->]. cbn. unfold with_member. rewrite Hk, value_node_type. f_equal. f_equal. by rewrite set_same_type.
Qed.

Lemma builds_number name n : cstr (key name) = key name -> builds (add_number alloc name n) [(name, Some (va_int64 n))].
Proof. intros Hk. apply builds_adding; [|done]. intros m. apply create_spec. Qed.

Lemma builds_true name : cstr (key name) = key name -> builds (add_true alloc name) [(name, Some (va_bool true))].
Proof. intros Hk. apply builds_adding; [|done]. intros m. apply create_spec. Qed.

Lemma builds_string name s : cstr (key name) = key name -> builds (add_string alloc name s) [(name, Some (va_string (Some s)))].
Proof. intros Hk. apply builds_adding; [|done]. intros m. apply create_text_spec. Qed.

Lemma builds_true_if b name : cstr (key name) = key name -> builds (add_if b (add_true alloc name)) [(name, true_if b)].
Proof. intros Hk. destruct b; [by apply builds_true|apply builds_nothing]. Qed.

Lemma builds_int_if b name n : cstr (key name) = key name -> builds (add_if b (add_number alloc name n)) [(name, int_if b n)].
Proof. intros Hk. destruct b; [by apply builds_number|apply builds_nothing]. Qed.

Lemma builds_nonzero name n : cstr (key name) = key name -> builds (add_nonzero alloc name n) [(name, nonzero_int n)].
Proof. apply builds_int_if. Qed.

Lemma builds_text name s : cstr (key name) = key name -> builds (add_text alloc name s) [(name, text_if s)].
Proof. intros Hk. destruct s; [by apply builds_string|apply builds_nothing]. Qed.

Lemma builds_present m fs fs' : present fs = present fs' -> builds m fs -> builds m fs'.
Proof. intros E H j n. rewrite <- E. apply H. Qed.

Lemma builds_ret : builds ret [].
Proof. intros j n. split; [done|]. intros _. cbn. by rewrite app_nil_r, set_jchild_same. Qed.

End Building.

(** The steps of a group, one after the other. *)
Ltac build_step :=
  first [apply builds_nonzero; reflexivity|apply builds_text; reflexivity|apply builds_true_if; reflexivity
        |apply builds_int_if; reflexivity|apply builds_number; reflexivity|apply builds_string; reflexivity].

Ltac build_group :=
  repeat match goal with
  | |- builds _ _ (?f :: ?g :: ?fs) => apply (builds_seq _ _ _ [f] (g :: fs)); [build_step|]
  end; build_step.

(** ** Finding a member *)

(** The value of the first field of that name. *)
Fixpoint assoc (name : string) (fs : list field) : option va_value :=
  match fs with
  | [] => None
  | (s, v) :: fs => if String.eqb name s then v else assoc name fs
  end.

(** The names differ when compared without case, and none is twice. *)
Fixpoint distinct (names : list string) : bool :=
  match names with
  | [] => true
  | s :: names => forallb (fun s' => negb (strcaseeq (key s) (key s')) && negb (strcaseeq (key s') (key s))) names && distinct names
  end.

Lemma strcaseeq_refl s : strcaseeq s s = true.
Proof. unfold strcaseeq. by apply bool_decide_eq_true. Qed.

(** A member as the reader has it. *)
Definition received (f : list Z * va_value) : cJSON := set_jstring (Some f.1) (reread (value_node f.2)).
Definition received_message (fs : list field) : cJSON := Node cJSON_Object (received <$> present fs) None 0 D_zero None.

Lemma reread_set_jstring s j : reread (set_jstring s j) = reread j.
Proof. by destruct j. Qed.

Lemma reread_message fs : reread (message fs) = received_message fs.
Proof.
  unfold message, received_message. cbn. f_equal. unfold members. rewrite <- list_fmap_compose. apply list_fmap_ext. intros i [k v] _.
  unfold received. cbn [compose fst snd]. by destruct (value_node v).
Qed.

Lemma get_object_item_cons x l s t v i d n :
  cJSON_GetObjectItem (Some (Node t (x :: l) v i d s)) (Some n) =
  if case_insensitive_equal n (jstring x) then Some x else cJSON_GetObjectItem (Some (Node t l v i d s)) (Some n).
Proof.
  unfold cJSON_GetObjectItem, get_object_item. cbn [jchild find_item]. destruct (case_insensitive_equal n (jstring x)); [done|].
  by destruct (find_item false n l).
Qed.

Lemma received_name f : jstring (received f) = Some f.1.
Proof. unfold received. by destruct (reread (value_node f.2)). Qed.

Lemma lookup_cons s v fs n : cJSON_GetObjectItem (Some (received_message ((s, Some v) :: fs))) (Some n) =
  if strcaseeq n (key s) then Some (received (key s, v)) else cJSON_GetObjectItem (Some (received_message fs)) (Some n).
Proof.
  unfold received_message. change (present ((s, Some v) :: fs)) with ((key s, v) :: present fs). cbn [fmap list_fmap].
  by rewrite get_object_item_cons, received_name.
Qed.

Lemma lookup_absent name fs : forallb (fun s' => negb (strcaseeq (key name) (key s')) && negb (strcaseeq (key s') (key name))) fs.*1 = true ->
  cJSON_GetObjectItem (Some (received_message fs)) (Some (key name)) = None.
Proof.
  induction fs as [|[s [v|]] fs IH]; intros H; [done| |].
  - cbn [fmap list_fmap fst forallb] in H. rewrite !andb_true_iff, !negb_true_iff in H. destruct H as [[H1 H2] H].
    rewrite lookup_cons. rewrite H1. by apply IH.
  - apply IH. cbn [fmap list_fmap fst forallb] in H. by apply andb_true_iff in H as [_ H].
Qed.

Lemma lookup_received name fs : distinct fs.*1 = true -> name ∈ fs.*1 ->
  cJSON_GetObjectItem (Some (received_message fs)) (Some (key name)) = (fun v => received (key name, v)) <$> assoc name fs.
Proof.
  induction fs as [|[s v] fs IH]; intros Hd Hn; [by apply elem_of_nil in Hn|].
  cbn [fmap list_fmap fst distinct] in *. apply andb_true_iff in Hd as [Hf Hd]. cbn [assoc].
  destruct (String.eqb_spec name s) as [->|Hne].
  - destruct v as [v|].
    + rewrite lookup_cons. by rewrite strcaseeq_refl.
    + by apply (lookup_absent s fs).
  - apply elem_of_cons in Hn as [?|Hn]; [done|]. destruct v as [v|]; [|by apply IH].
    rewrite lookup_cons.
    rewrite forallb_forall in Hf. pose proof Hn as Hin. apply list_elem_of_In, Hf, andb_true_iff in Hin as [_ Hin%negb_true_iff].
    rewrite Hin. by apply IH.
Qed.

Section Reading.
Context (fs : list field) (Hd : distinct fs.*1 = true).
#[local] Abbreviation j := (received_message fs).

Lemma member_number name n : name ∈ fs.*1 -> assoc name fs = Some (va_int64 n) -> Z.abs n < 2 ^ 53 ->
  exists p, member j name cJSON_Number = Some p /\ jvalueint p = n.
Proof.
  intros Hn E Hs. unfold member, iperf_cJSON_GetObjectItemType. rewrite lookup_received, E by done.
  exists (received (key name, va_int64 n)). unfold received. cbn [fmap option_fmap option_map fst snd value_node].
  by rewrite reread_integer, number_node_small by done.
Qed.

Lemma member_true name : name ∈ fs.*1 -> assoc name fs = Some (va_bool true) -> exists p, member j name cJSON_True = Some p.
Proof. intros Hn E. unfold member, iperf_cJSON_GetObjectItemType. rewrite lookup_received, E by done. by eexists. Qed.

Lemma member_string name s : name ∈ fs.*1 -> assoc name fs = Some (va_string (Some s)) ->
  exists p, member j name cJSON_String = Some p /\ jvaluestring p = Some (cstr s).
Proof. intros Hn E. unfold member, iperf_cJSON_GetObjectItemType. rewrite lookup_received, E by done. by eexists. Qed.

Lemma member_none name expected : name ∈ fs.*1 -> assoc name fs = None -> member j name expected = None.
Proof. intros Hn E. unfold member, iperf_cJSON_GetObjectItemType. by rewrite lookup_received, E by done. Qed.

End Reading.

(** ** The message is a document *)

(** A number that is printed as one. *)
Definition double_fits (d : double) : Prop := is_nan_or_inf d = false /\ wf_number (Parse.saturate d) d.

Definition value_fits (v : option va_value) : Prop :=
  match v with
  | Some (va_int64 n) => Z.abs n < 2 ^ 53
  | Some (va_double d) => double_fits d
  | Some (va_string (Some s)) => utf8_text s
  | Some (va_bool _) | None => True
  | _ => False
  end.

Definition field_fits (f : field) : Prop := forallb (fun c => (0 <? c) && (c <? 128)) (key f.1) = true /\ value_fits f.2.

Lemma int_fits name b n : forallb (fun c => (0 <? c) && (c <? 128)) (key name) = true -> Z.abs n < 2 ^ 53 -> field_fits (name, int_if b n).
Proof. intros Hk Hn. split; [done|]. by destruct b. Qed.

Lemma true_fits name b : forallb (fun c => (0 <? c) && (c <? 128)) (key name) = true -> field_fits (name, true_if b).
Proof. intros Hk. split; [done|]. by destruct b. Qed.

Lemma text_fits name s : forallb (fun c => (0 <? c) && (c <? 128)) (key name) = true -> utf8_text (default [] s) -> field_fits (name, text_if s).
Proof. intros Hk Hs. split; [done|]. by destruct s. Qed.

Lemma key_text name : forallb (fun c => (0 <? c) && (c <? 128)) (key name) = true -> utf8_text (key name).
Proof.
  intros H. apply ascii_text. rewrite forallb_forall in H. apply Forall_forall. intros c Hc%list_elem_of_In.
  specialize (H c Hc). rewrite andb_true_iff, !Z.ltb_lt in H. lia.
Qed.

Lemma utf8_text_nil : utf8_text [].
Proof. exists []. by repeat constructor. Qed.

Lemma utf8_cstr s : utf8_text s -> cstr s = s.
Proof. intros (vs & -> & Hs & Hz). by apply utf8_text_cstr. Qed.

Lemma member_document name v : field_fits (name, Some v) -> document (set_jstring (Some (key name)) (value_node v)).
Proof.
  intros [Hk Hv]. apply key_text in Hk. destruct v as [b|n|d|[s|]]; cbn in Hv; try done.
  - constructor; [unfold wire_type; destruct b; cbn; tauto|split; [lia|by right]|apply utf8_text_nil|done|constructor].
  - by apply number_document.
  - constructor; [unfold wire_type; cbn; tauto|by destruct Hv|apply utf8_text_nil|done|constructor].
  - constructor; [unfold wire_type; cbn; tauto|split; [lia|by right]|cbn; by rewrite utf8_cstr|done|constructor].
Qed.

Lemma message_document fs : Forall field_fits fs -> document (message fs).
Proof.
  intros H. constructor; [unfold wire_type; cbn; tauto|split; [lia|by right]|apply utf8_text_nil|apply utf8_text_nil|].
  induction H as [|[name [v|]] fs Hf _ IH]; [constructor| |done]. constructor; [by apply member_document|done].
Qed.

Lemma message_depth fs : (nesting (message fs) <= 2)%nat.
Proof.
  cbn [message nesting]. apply le_n_S. induction fs as [|[name [v|]] fs IH]; [cbn; lia| |exact IH].
  change (members (present ((name, Some v) :: fs))) with (set_jstring (Some (key name)) (value_node v) :: members (present fs)).
  cbn [foldr]. apply Nat.max_lub; [|done]. by destruct v as [[]| | |].
Qed.

Lemma message_nesting fs : (nesting (message fs) <= 1000)%nat.
Proof. pose proof (message_depth fs). lia. Qed.

(** ** Doubles *)

(** A double as the reader has it. *)
Definition reread_double (d : double) : double := (strtod (number_chars (Parse.saturate d) d)).1.

Lemma member_double fs (Hd : distinct fs.*1 = true) name d : name ∈ fs.*1 -> assoc name fs = Some (va_double d) -> is_nan_or_inf d = false ->
  exists p, member (received_message fs) name cJSON_Number = Some p /\ jvaluedouble p = reread_double d.
Proof.
  intros Hn E Hf. unfold member, iperf_cJSON_GetObjectItemType. rewrite lookup_received, E by done.
  exists (received (key name, va_double d)). unfold received. cbn [fmap option_fmap option_map fst snd value_node number_node reread].
  change (Z.land cJSON_Number 255) with cJSON_Number. cbn [Z.eqb]. unfold reread_number. by rewrite Hf.
Qed.

(** ** Sending and receiving a document *)

(** A message on the wire. *)
Definition frame (j : cJSON) : list Z := htonl (zlen (render false 0 j)) ++ render false 0 j.

Lemma document_nonempty j : document j -> 0 < zlen (render false 0 j).
Proof.
  intros Hd. destruct (tree_head _ _ _ (tree_render j 0 (nesting j) Hd ltac:(lia))) as (y & t & -> & _). rewrite zlen_cons. pose proof (zlen_nonneg t). lia.
Qed.

Section Delivery.
Context (os : system) (Hos : prompt os) (alloc : nat -> bool) (Halloc : forall k, alloc k = true).

Lemma write_delivers has_reallocate j n c : document j -> zlen (render false 0 j) + 2 < 2 ^ 31 ->
  wp (JSON_write os alloc has_reallocate j n) (fun r c' => r = 0 /\ ch_in c' = ch_in c /\ ch_out c' = ch_out c ++ frame j) c.
Proof.
  intros Hd Hs. eapply wp_mono; [apply (json_write_prompt os alloc has_reallocate j n c Hos (document_wf _ Hd) (document_printable _ Hd) Hs)|].
  intros r c' [E [(_ & _ & k & _ & Hk)|[-> Ho]]]; [by rewrite Halloc in Hk|done].
Qed.

Lemma read_receives max_size j rest c : document j -> (nesting j <= 1000)%nat -> zlen (render false 0 j) < 2 ^ 31 ->
  max_size = 0 \/ zlen (render false 0 j) <= max_size < 2 ^ 31 -> ch_in c = frame j ++ rest ->
  wp (JSON_read os true alloc max_size) (fun r c' => r = Some (reread j) /\ ch_in c' = rest /\ ch_out c' = ch_out c) c.
Proof.
  intros Hd Hn Hs Hm Hc. unfold frame in Hc. rewrite <- app_assoc in Hc. pose proof (document_nonempty j Hd). set (text := render false 0 j) in *.
  pose proof (json_read_prompt os Hos true alloc max_size text rest c Hc ltac:(lia) Hm) as H1.
  pose proof (json_read_frame os true alloc max_size c) as H2. unfold wp in *.
  destruct (JSON_read os true alloc max_size c) as [[q c'] | |]; [|done..]. destruct (H1 eq_refl) as [Hrest [o Hq]]. destruct H2 as (header & taken & [_ Ho] & _).
  split; [|by split]. unfold cJSON_Parse in Hq. rewrite bool_decide_true in Hq by (apply elem_of_app; right; by left).
  pose proof (tree_render j 0 (nesting j) Hd ltac:(lia)) as Htree. fold text in Htree.
  destruct (parse_tree (nesting j) text (reread j) alloc false Htree Hn) as (q' & o' & Ep & Hr).
  assert (zlen (cstr (text ++ [0])) + 1 = zlen (text ++ [0])) as El.
  { unfold text. rewrite cstr_render by (by apply document_wf). by rewrite zlen_app. }
  rewrite El, Ep in Hq. injection Hq as -> ->. apply run_parse_memory in Ep; [|done]. by destruct Hr as [?|[_ ?]]; [|congruence].
Qed.
End Delivery.
