(* ===== verification/ParamsTrip.v ===== *)
(** * The server learns the client's settings

    What [send_parameters] writes and [get_parameters] reads agree: the object
    that is sent has one member per setting, and every setting that is reset
    between tests arrives as the client has it. *)

From Stdlib Require Import String.
From S2P Require Import Prelude Bytes Time Double JsonGrammar NumberText CJson CJsonTree CJsonTreeSpec CJsonPrint CJsonPrintSpec CJsonSpec CJsonRoundTrip CJsonSafety IperfTest ControlChannel ControlChannelSpec Params ParamsSpec Message.
Local Open Scope c_scope.

Definition protocol_fields (t : iperf_test) : list field :=
  [("tcp"%string, true_if (protocol t =? Ptcp)); ("udp"%string, true_if (protocol t =? Pudp));
   ("sctp"%string, true_if (protocol t =? Psctp))].

Definition extent_fields (t : iperf_test) : list field :=
  [("omit"%string, int_if true (omit t)); ("server_affinity"%string, int_if (negb (server_affinity t =? -1)) (server_affinity t));
   ("time"%string, int_if true (duration t)); ("num"%string, int_if true (bytes (settings t))); ("blockcount"%string, int_if true (blocks (settings t)));
   ("MSS"%string, nonzero_int (mss (settings t))); ("nodelay"%string, true_if (negb (no_delay t =? 0)));
   ("parallel"%string, int_if true (num_streams t)); ("reverse"%string, true_if (negb (reverse t =? 0)));
   ("bidirectional"%string, true_if (negb (bidirectional t =? 0)))].

Definition size_fields (s : iperf_settings) : list field :=
  [("window"%string, nonzero_int (socket_bufsize s)); ("len"%string, nonzero_int (blksize s)); ("bandwidth"%string, nonzero_int (rate s));
   ("fqrate"%string, nonzero_int (fqrate s)); ("pacing_timer"%string, nonzero_int (pacing_timer s)); ("burst"%string, nonzero_int (burst s))].

Definition offload_fields (t : iperf_test) : list field :=
  let udp := protocol t =? Pudp in
  [("gso"%string, int_if udp (gso (settings t))); ("gso_dg_size"%string, int_if udp (gso_dg_size (settings t)));
   ("gso_bf_size"%string, int_if udp (gso_bf_size (settings t))); ("gro"%string, int_if udp (gro (settings t)));
   ("gro_bf_size"%string, int_if udp (gro_bf_size (settings t)))].

Definition option_fields (t : iperf_test) : list field :=
  [("TOS"%string, nonzero_int (tos (settings t))); ("flowlabel"%string, nonzero_int (flowlabel (settings t)));
   ("title"%string, text_if (title t)); ("extra_data"%string, text_if (extra_data t)); ("congestion"%string, text_if (congestion t));
   ("congestion_used"%string, text_if (congestion_used t)); ("get_server_output"%string, nonzero_int (get_server_output t));
   ("udp_counters_64bit"%string, nonzero_int (udp_counters_64bit t)); ("repeating_payload"%string, nonzero_int (repeating_payload t));
   ("zerocopy"%string, nonzero_int (zerocopy t)); ("dont_fragment"%string, nonzero_int (dont_fragment (settings t)))].

Definition last_fields (encode : text -> text -> option text) (t : iperf_test) : list field :=
  [("authtoken"%string, text_if (default None (token encode t)));
   ("skip_rx_copy"%string, nonzero_int (skip_rx_copy (settings t))); ("client_version"%string, text_if (Some IPERF_VERSION))].

Definition parameter_fields (encode : text -> text -> option text) (t : iperf_test) : list field :=
  protocol_fields t ++ extent_fields t ++ size_fields (settings t) ++ offload_fields t ++ option_fields t ++ last_fields encode t.

(** ** Building the message *)

Section Building.
Context (alloc : nat -> bool).

Lemma builds_extent t : builds alloc (sent_extent alloc t) (extent_fields t).
Proof. unfold sent_extent, extent_fields. build_group. Qed.

Lemma builds_sizes s : builds alloc (sent_sizes alloc s) (size_fields s).
Proof. unfold sent_sizes, size_fields. build_group. Qed.

Lemma builds_options t : builds alloc (sent_options alloc t) (option_fields t).
Proof. unfold sent_options, option_fields. build_group. Qed.

Lemma builds_protocol t : builds alloc (sent_protocol alloc t) (protocol_fields t).
Proof.
  intros j n. unfold sent_protocol, protocol_fields.
  destruct (Z.eqb_spec (protocol t) Ptcp) as [->|]; [by apply (builds_true alloc "tcp")|].
  destruct (Z.eqb_spec (protocol t) Pudp) as [->|]; [by apply (builds_true alloc "udp")|].
  destruct (protocol t =? Psctp); [by apply (builds_true alloc "sctp")|apply builds_ret].
Qed.

Lemma builds_offload t : builds alloc (sent_offload alloc t) (offload_fields t).
Proof.
  intros j n. unfold sent_offload, offload_fields. destruct (protocol t =? Pudp); [|apply builds_ret].
  revert j n. cbn [int_if]. change (builds alloc (fun j => j <- add_number alloc "gso" (gso (settings t)) j ;;
    j <- add_number alloc "gso_dg_size" (gso_dg_size (settings t)) j ;;
    j <- add_number alloc "gso_bf_size" (gso_bf_size (settings t)) j ;;
    j <- add_number alloc "gro" (gro (settings t)) j ;; add_number alloc "gro_bf_size" (gro_bf_size (settings t)) j)
    [("gso"%string, Some (va_int64 (gso (settings t)))); ("gso_dg_size"%string, Some (va_int64 (gso_dg_size (settings t))));
     ("gso_bf_size"%string, Some (va_int64 (gso_bf_size (settings t)))); ("gro"%string, Some (va_int64 (gro (settings t))));
     ("gro_bf_size"%string, Some (va_int64 (gro_bf_size (settings t))))]). build_group.
Qed.

Definition last_steps (encode : text -> text -> option text) (t : iperf_test) (j : cJSON) : AM cJSON :=
  j <- add_text alloc "authtoken" (default None (token encode t)) j ;;
  j <- add_nonzero alloc "skip_rx_copy" (skip_rx_copy (settings t)) j ;;
  add_string alloc "client_version" IPERF_VERSION j.

Lemma builds_last encode t : builds alloc (last_steps encode t) (last_fields encode t).
Proof. unfold last_steps, last_fields. build_group. Qed.

(** The object of the client's settings, when memory and the token suffice. *)
Lemma parameters_json_spec encode t n : token encode t <> Some None ->
  wp (parameters_json alloc encode t) (fun r n' => no_failure alloc n n' ->
    r = (Some (message (parameter_fields encode t)), store_token encode t)) n.
Proof.
  intros Ht. unfold parameters_json. wp_step. eapply wp_mono; [apply create_spec|]. intros [o|] n1 H1.
  2:{ wp_step. intros Hf. by apply allocated_none_failure in H1. }
  destruct H1 as [Hn1 ->].
  assert (builds alloc (fun j => j <- sent_protocol alloc t j ;; j <- sent_extent alloc t j ;; j <- sent_sizes alloc (settings t) j ;;
    j <- sent_offload alloc t j ;; j <- sent_options alloc t j ;; last_steps encode t j) (parameter_fields encode t)) as B.
  { unfold parameter_fields. repeat (apply builds_seq; [first [apply builds_protocol|apply builds_extent|apply builds_sizes|apply builds_offload|apply builds_options]|]).
    apply builds_last. }
  specialize (B (set_jtype cJSON_Object new_item) n1).
  do 5 (apply wp_bind_inv in B; wp_step; eapply wp_mono; [exact B|clear B; intros ? ? B]).
  assert (forall K, wp (a <- add_text alloc "authtoken" (default None (token encode t)) a3 ;; K (Some a)) (fun r n' => no_failure alloc n n' ->
      r = (Some (message (parameter_fields encode t)), store_token encode t)) s'3 ->
    wp (j <- sent_token alloc encode t a3 ;; K j) (fun r n' => no_failure alloc n n' ->
      r = (Some (message (parameter_fields encode t)), store_token encode t)) s'3) as HK.
  { intros K H. unfold sent_token. destruct (token encode t) as [[x|]|]; [|done|done].
    apply wp_bind_inv in H. wp_step. wp_step. eapply wp_mono; [exact H|]. intros y m Hy. by wp_step. }
  apply HK. unfold last_steps in B. clear HK.
  apply wp_bind_inv in B. wp_step. eapply wp_mono; [exact B|clear B; intros a4 n4 B].
  apply wp_bind_inv in B. wp_step. eapply wp_mono; [exact B|clear B; intros a5 n5 B].
  wp_step. eapply wp_mono; [exact B|clear B; intros a6 n6 [Hn6 B]]. wp_step. intros Hf.
  apply (no_failure_app alloc n n1) in Hf as [_ Hf]; [|lia]. by rewrite (B Hf).
Qed.
End Building.

(** ** Reading the message *)

(** The step sets the test to [f] of it, and succeeds. *)
Definition runs (m : XM unit) (f : iperf_test -> iperf_test) : Prop := forall x, exists k start,
  m x = Ret (tt, mk_exchange (f (x_test x)) (x_errno x) (x_r x) k start).

Lemma runs_seq m k f g : runs m f -> runs k g -> runs (m ;;; k) (fun t => g (f t)).
Proof.
  intros Hm Hk x. destruct (Hm x) as (n & o & E). destruct (Hk (mk_exchange (f (x_test x)) (x_errno x) (x_r x) n o)) as (n' & o' & E').
  exists n', o'. unfold bind. by rewrite E.
Qed.

Lemma runs_ext m f g : runs m f -> (forall t, g t = f t) -> runs m g.
Proof. intros Hm Hg x. destruct (Hm x) as (k & o & ->). exists k, o. by rewrite Hg. Qed.

Lemma runs_ret g : (forall t, g t = t) -> runs (ret tt) g.
Proof. intros Hg x. exists (x_nalloc x), (x_start x). rewrite Hg. by destruct x. Qed.

Lemma runs_on_test f g : (forall t, g t = f t) -> runs (on_test f) g.
Proof. intros Hg x. exists (x_nalloc x), (x_start x). by rewrite Hg. Qed.

Section Reading.
Context (alloc : nat -> bool) (Halloc : forall k, alloc k = true) (fs : list field) (Hd : distinct fs.*1 = true).
#[local] Abbreviation j := (received_message fs).

Lemma runs_number name b n ok e store g : name ∈ fs.*1 -> assoc name fs = int_if b n -> Z.abs n < 2 ^ 53 ->
  (b = true -> ok n = true /\ forall t, g t = store n t) -> (b = false -> forall t, g t = t) ->
  runs (number_member j name ok e store) g.
Proof.
  intros Hn E Hs Ht Hf. unfold number_member. destruct b.
  - destruct (member_number fs Hd name n Hn E Hs) as (p & -> & ->). destruct (Ht eq_refl) as [-> Hg]. by apply runs_on_test.
  - rewrite member_none by done. apply runs_ret. auto.
Qed.

Lemma runs_flag_true name b store g : name ∈ fs.*1 -> assoc name fs = true_if b ->
  (b = true -> forall p t, g t = store p t) -> (b = false -> forall t, g t = t) ->
  runs (flag_member j name cJSON_True store) g.
Proof.
  intros Hn E Ht Hf. unfold flag_member. destruct b.
  - destruct (member_true fs Hd name Hn E) as [p ->]. apply runs_on_test. auto.
  - rewrite member_none by done. apply runs_ret. auto.
Qed.

Lemma runs_flag_number name b n store g : name ∈ fs.*1 -> assoc name fs = int_if b n -> Z.abs n < 2 ^ 53 ->
  (b = true -> forall p t, jvalueint p = n -> g t = store p t) -> (b = false -> forall t, g t = t) ->
  runs (flag_member j name cJSON_Number store) g.
Proof.
  intros Hn E Hs Ht Hf. unfold flag_member. destruct b.
  - destruct (member_number fs Hd name n Hn E Hs) as (p & -> & Hp). apply runs_on_test. auto.
  - rewrite member_none by done. apply runs_ret. auto.
Qed.

Lemma runs_string name s store g : name ∈ fs.*1 -> assoc name fs = text_if s ->
  (forall s', s = Some s' -> forall t, g t = store (Some (cstr s')) t) -> (s = None -> forall t, g t = t) ->
  runs (string_member alloc j name store) g.
Proof.
  intros Hn E Ht Hf. unfold string_member. destruct s as [s|].
  - destruct (member_string fs Hd name s Hn E) as (p & -> & ->). intros x. unfold bind, strdup. rewrite Halloc, cstr_idemp.
    eexists _, _. rewrite (Ht s eq_refl). reflexivity.
  - rewrite member_none by done. apply runs_ret. auto.
Qed.
End Reading.

(** ** What the server learns *)

Definition opt (b : bool) (v old : Z) : Z := if b then v else old.
Definition kept (n v old : Z) : Z := opt (negb (n =? 0)) v old.
Definition kept_text (s old : option text) : option text := match s with Some s => Some (cstr s) | None => old end.

Definition learn_extent (c t : iperf_test) : iperf_test :=
  t <| omit := s32 (omit c) |> <| server_affinity := opt (negb (server_affinity c =? -1)) (s32 (server_affinity c)) (server_affinity t) |>
    <| duration := s32 (duration c) |> <|s bytes := u64 (bytes (settings c)) |> <|s blocks := u64 (blocks (settings c)) |>
    <|s mss := kept (mss (settings c)) (s32 (mss (settings c))) (mss (settings t)) |>
    <| no_delay := opt (negb (no_delay c =? 0)) 1 (no_delay t) |> <| num_streams := s32 (num_streams c) |>.

Definition learn_direction (c t : iperf_test) : iperf_test :=
  let t := if negb (reverse c =? 0) then iperf_set_test_reverse 1 t else t in
  if negb (bidirectional c =? 0) then iperf_set_test_bidirectional 1 t else t.

Definition learn_sizes (c t : iperf_test) : iperf_test :=
  t <|s socket_bufsize := kept (socket_bufsize (settings c)) (s32 (socket_bufsize (settings c))) (socket_bufsize (settings t)) |>
    <|s blksize := kept (blksize (settings c)) (s32 (blksize (settings c))) (blksize (settings t)) |>.

Definition learn_segments (c t : iperf_test) : iperf_test :=
  let udp := protocol c =? Pudp in
  t <|s gso := opt udp (s32 (gso (settings c))) (gso (settings t)) |>
    <|s gso_dg_size := opt udp (s32 (gso_dg_size (settings c))) (gso_dg_size (settings t)) |>
    <|s gso_bf_size := opt udp (s32 (gso_bf_size (settings c))) (gso_bf_size (settings t)) |>.

Definition learn_coalescing (c t : iperf_test) : iperf_test :=
  let udp := protocol c =? Pudp in
  t <|s gro := opt udp (s32 (gro (settings c))) (gro (settings t)) |>
    <|s gro_bf_size := opt udp (s32 (gro_bf_size (settings c))) (gro_bf_size (settings t)) |>.

Definition learn_rates (c t : iperf_test) : iperf_test :=
  t <|s rate := kept (rate (settings c)) (u64 (rate (settings c))) (rate (settings t)) |>
    <|s fqrate := kept (fqrate (settings c)) (u64 (fqrate (settings c))) (fqrate (settings t)) |>
    <|s pacing_timer := kept (pacing_timer (settings c)) (s32 (pacing_timer (settings c))) (pacing_timer (settings t)) |>
    <|s burst := kept (burst (settings c)) (s32 (burst (settings c))) (burst (settings t)) |>
    <|s tos := kept (tos (settings c)) (s32 (tos (settings c))) (tos (settings t)) |>.

Definition learn_options (encode : text -> text -> option text) (c t : iperf_test) : iperf_test :=
  t <| title := kept_text (title c) (title t) |> <| extra_data := kept_text (extra_data c) (extra_data t) |>
    <| congestion := kept_text (congestion c) (congestion t) |> <| congestion_used := kept_text (congestion_used c) (congestion_used t) |>
    <| get_server_output := kept (get_server_output c) 1 (get_server_output t) |>
    <| udp_counters_64bit := kept (udp_counters_64bit c) 1 (udp_counters_64bit t) |>
    <| repeating_payload := kept (repeating_payload c) 1 (repeating_payload t) |>
    <| zerocopy := kept (zerocopy c) 1 (zerocopy t) |>
    <|s dont_fragment := kept (dont_fragment (settings c)) 1 (dont_fragment (settings t)) |>
    <|s authtoken := kept_text (default None (token encode c)) (authtoken (settings t)) |>
    <|s skip_rx_copy := kept (skip_rx_copy (settings c)) 1 (skip_rx_copy (settings t)) |>.

Definition note_retransmits (t : iperf_test) : iperf_test :=
  if negb (mode t =? 0) && (protocol t =? Ptcp) && negb (has_tcpinfo_retransmits =? 0) then t <| sender_has_retransmits := 1 |> else t.

(** Everything but the protocol. *)
Definition learn (encode : text -> text -> option text) (c t : iperf_test) : iperf_test :=
  note_retransmits (learn_options encode c (learn_rates c (learn_coalescing c (derived_datagram_size (learn_segments c
    (learn_sizes c (learn_direction c (learn_extent c t)))))))).

(** The client's settings fit the message: exact as doubles, and text as UTF-8. *)
Record sendable (encode : text -> text -> option text) (c : iperf_test) : Prop := mk_sendable {
  c_range : in_range c;
  c_bytes : bytes (settings c) < 2 ^ 53;
  c_blocks : blocks (settings c) < 2 ^ 53;
  c_rate : rate (settings c) < 2 ^ 53;
  c_fqrate : fqrate (settings c) < 2 ^ 53;
  c_blksize : 0 <= blksize (settings c) < 2 ^ 31;
  c_pacing : 0 <= pacing_timer (settings c) < 2 ^ 31;
  c_gso : 0 <= gso (settings c) < 2 ^ 31;
  c_gso_dg : 0 <= gso_dg_size (settings c) < 2 ^ 31;
  c_gso_bf : 0 <= gso_bf_size (settings c) < 2 ^ 31;
  c_gro_bf : 0 <= gro_bf_size (settings c) < 2 ^ 31;
  c_flowlabel : Z.abs (flowlabel (settings c)) < 2 ^ 53;
  c_output : Z.abs (get_server_output c) < 2 ^ 53;
  c_counters : Z.abs (udp_counters_64bit c) < 2 ^ 53;
  c_payload : Z.abs (repeating_payload c) < 2 ^ 53;
  c_token : token encode c <> Some None;
  c_texts : Forall (fun s : option text => utf8_text (default [] s))
    [title c; extra_data c; congestion c; congestion_used c; default None (token encode c)] }.

(** A skipped member leaves the test as it is. *)
Ltac unchanged t := by destruct t as [? ? ? ? ? ? ? ? ? ? ? ? ? ? ? ? ? ? ? ? ? ? ? ? ? ? ? ? ? []].

Ltac limits := unfold MAX_OMIT_TIME, MAX_TIME, MAX_MSS, MAX_STREAMS, MAX_TCP_BUFFER, MAX_BURST, MB in *.

Section Learning.
Context (encode : text -> text -> option text) (c : iperf_test) (Hc : sendable encode c).
#[local] Abbreviation fs := (parameter_fields encode c).
#[local] Abbreviation j := (received_message fs).

Lemma fields_distinct : distinct fs.*1 = true.
Proof. vm_compute. reflexivity. Qed.

Lemma named name : existsb (String.eqb name) fs.*1 = true -> name ∈ fs.*1.
Proof. intros (s & Hs & ->%String.eqb_eq)%existsb_exists. by apply list_elem_of_In. Qed.

(** A member that is read into one field. *)
Ltac learn_member :=
  pose proof (c_range _ _ Hc) as []; pose proof Hc as [];
  first
  [ eapply runs_number; [apply fields_distinct|by apply named|reflexivity|limits; lia
      |intros E; split; [unfold between, nonnegative; rewrite ?andb_true_iff, ?Z.leb_le;
          try (apply negb_true_iff, Z.eqb_neq in E); limits; lia
         |intros t; unfold kept, opt; rewrite ?E; reflexivity]
      |intros E t; try discriminate E; unfold kept, opt; rewrite E; unchanged t]
  | eapply runs_flag_true; [apply fields_distinct|by apply named|reflexivity
      |intros E p t; unfold kept, opt; rewrite ?E; reflexivity|intros E t; unfold kept, opt; rewrite E; unchanged t]
  | eapply runs_flag_number; [apply fields_distinct|by apply named|reflexivity|limits; lia
      |intros E p t Ep; unfold nonzero_flag, kept, opt; rewrite ?Ep; apply negb_true_iff in E; rewrite ?E; reflexivity
      |intros E t; unfold kept, opt; rewrite E; unchanged t]
  | eapply runs_string; [done|apply fields_distinct|by apply named|reflexivity
      |intros s E t; unfold kept_text; rewrite E; reflexivity|intros E t; unfold kept_text; rewrite E; unchanged t]
  | by apply runs_on_test ].

Ltac learn_seq g := eapply (runs_seq _ _ g); [learn_member|].
Ltac learn_last g := apply (runs_ext _ g); [learn_member|reflexivity].

Lemma runs_extent : runs (receive_extent j) (fun t => learn_sizes c (learn_direction c (learn_extent c t))).
Proof.
  unfold receive_extent. eapply runs_ext.
  { learn_seq (fun t => t <| omit := s32 (omit c) |>).
    learn_seq (fun t => t <| server_affinity := opt (negb (server_affinity c =? -1)) (s32 (server_affinity c)) (server_affinity t) |>).
    learn_seq (fun t => t <| duration := s32 (duration c) |>).
    learn_seq (fun t => t <|s bytes := 0 |>).
    learn_seq (fun t => t <|s bytes := u64 (bytes (settings c)) |>).
    learn_seq (fun t => t <|s blocks := 0 |>).
    learn_seq (fun t => t <|s blocks := u64 (blocks (settings c)) |>).
    learn_seq (fun t => t <|s mss := kept (mss (settings c)) (s32 (mss (settings c))) (mss (settings t)) |>).
    learn_seq (fun t => t <| no_delay := opt (negb (no_delay c =? 0)) 1 (no_delay t) |>).
    learn_seq (fun t => t <| num_streams := s32 (num_streams c) |>).
    eapply (runs_seq _ _ (fun t => if negb (reverse c =? 0) then iperf_set_test_reverse 1 t else t)).
    { eapply runs_flag_true; [apply fields_distinct|by apply named|reflexivity|by intros -> p t|by intros -> t]. }
    eapply (runs_seq _ _ (fun t => if negb (bidirectional c =? 0) then iperf_set_test_bidirectional 1 t else t)).
    { eapply runs_flag_true; [apply fields_distinct|by apply named|reflexivity|by intros -> p t|by intros -> t]. }
    learn_seq (fun t => t <|s socket_bufsize := kept (socket_bufsize (settings c)) (s32 (socket_bufsize (settings c))) (socket_bufsize (settings t)) |>).
    learn_last (fun t => t <|s blksize := kept (blksize (settings c)) (s32 (blksize (settings c))) (blksize (settings t)) |>). }
  intros t. reflexivity.
Qed.

Lemma runs_offload : runs (receive_offload j) (fun t => learn_coalescing c (derived_datagram_size (learn_segments c t))).
Proof.
  unfold receive_offload. eapply runs_ext.
  { learn_seq (fun t => t <|s gso := opt (protocol c =? Pudp) (s32 (gso (settings c))) (gso (settings t)) |>).
    learn_seq (fun t => t <|s gso_dg_size := opt (protocol c =? Pudp) (s32 (gso_dg_size (settings c))) (gso_dg_size (settings t)) |>).
    learn_seq (fun t => t <|s gso_bf_size := opt (protocol c =? Pudp) (s32 (gso_bf_size (settings c))) (gso_bf_size (settings t)) |>).
    learn_seq derived_datagram_size.
    learn_seq (fun t => t <|s gro := opt (protocol c =? Pudp) (s32 (gro (settings c))) (gro (settings t)) |>).
    learn_last (fun t => t <|s gro_bf_size := opt (protocol c =? Pudp) (s32 (gro_bf_size (settings c))) (gro_bf_size (settings t)) |>). }
  intros t. reflexivity.
Qed.

Lemma runs_rates : runs (receive_rates j) (learn_rates c).
Proof.
  unfold receive_rates. eapply runs_ext.
  { learn_seq (fun t => t <|s rate := kept (rate (settings c)) (u64 (rate (settings c))) (rate (settings t)) |>).
    learn_seq (fun t => t <|s fqrate := kept (fqrate (settings c)) (u64 (fqrate (settings c))) (fqrate (settings t)) |>).
    learn_seq (fun t => t <|s pacing_timer := kept (pacing_timer (settings c)) (s32 (pacing_timer (settings c))) (pacing_timer (settings t)) |>).
    learn_seq (fun t => t <|s burst := kept (burst (settings c)) (s32 (burst (settings c))) (burst (settings t)) |>).
    learn_last (fun t => t <|s tos := kept (tos (settings c)) (s32 (tos (settings c))) (tos (settings t)) |>). }
  intros t. reflexivity.
Qed.

Lemma runs_options alloc : (forall k, alloc k = true) ->
  runs (receive_options alloc j) (fun t => note_retransmits (learn_options encode c t)).
Proof.
  intros Ha. unfold receive_options. eapply runs_ext.
  { learn_seq (fun t => t <| title := kept_text (title c) (title t) |>).
    learn_seq (fun t => t <| extra_data := kept_text (extra_data c) (extra_data t) |>).
    learn_seq (fun t => t <| congestion := kept_text (congestion c) (congestion t) |>).
    learn_seq (fun t => t <| congestion_used := kept_text (congestion_used c) (congestion_used t) |>).
    learn_seq (fun t => t <| get_server_output := kept (get_server_output c) 1 (get_server_output t) |>).
    learn_seq (fun t => t <| udp_counters_64bit := kept (udp_counters_64bit c) 1 (udp_counters_64bit t) |>).
    learn_seq (fun t => t <| repeating_payload := kept (repeating_payload c) 1 (repeating_payload t) |>).
    learn_seq (fun t => t <| zerocopy := kept (zerocopy c) 1 (zerocopy t) |>).
    learn_seq (fun t => t <|s dont_fragment := kept (dont_fragment (settings c)) 1 (dont_fragment (settings t)) |>).
    learn_seq (fun t => t <|s authtoken := kept_text (default None (token encode c)) (authtoken (settings t)) |>).
    learn_seq (fun t => t <|s skip_rx_copy := kept (skip_rx_copy (settings c)) 1 (skip_rx_copy (settings t)) |>).
    learn_last note_retransmits. }
  intros t. reflexivity.
Qed.
End Learning.

Lemma parameter_fields_fit encode c : sendable encode c -> protocol c = Ptcp \/ protocol c = Pudp -> Forall field_fits (parameter_fields encode c).
Proof.
  intros Hc Hp. pose proof (c_range _ _ Hc) as []. pose proof Hc as []. rewrite !Forall_cons in *. destruct_and!.
  unfold parameter_fields, protocol_fields, extent_fields, size_fields, offload_fields, option_fields, last_fields. cbn [app].
  repeat first [apply Forall_nil_2|apply Forall_cons_2].
  all: first [apply true_fits; reflexivity|apply text_fits; [reflexivity|first [assumption|by apply (key_text "3.22")]]
    |apply int_fits; [reflexivity|limits; lia]|idtac].
Qed.

(** ** The whole exchange *)

Definition sets_protocol (c t : iperf_test) : iperf_test := check_sender_has_retransmits (t <| protocol := protocol c |>).

Lemma protocol_received encode c x : sendable encode c -> protocol c = Ptcp \/ protocol c = Pudp ->
  Ptcp ∈ protocols (x_test x) -> Pudp ∈ protocols (x_test x) -> diskfile_name (x_test x) = None -> exists k start,
  receive_protocol (received_message (parameter_fields encode c)) x =
    Ret (tt, mk_exchange (sets_protocol c (x_test x)) (x_errno x) (x_r x) k start).
Proof.
  intros Hc Hp Ht Hu Hf.
  assert (forall p y, p ∈ protocols (x_test y) -> select_protocol p y = Ret (tt, y <| x_test := check_sender_has_retransmits ((x_test y) <| protocol := p |>) |>)) as Hsel.
  { intros p y Hin. unfold select_protocol, set_protocol. rewrite (proj2 (existsb_exists _ _)); [done|].
    exists p. split; [by apply list_elem_of_In|apply Z.eqb_refl]. }
  pose proof (fields_distinct encode c) as Hd. unfold receive_protocol.
  destruct Hp as [Hp|Hp].
  - destruct (member_true _ Hd "tcp") as [p Ep]; [by apply named|cbn; by rewrite Hp|]. rewrite Ep.
    rewrite !(member_none _ Hd) by first [by apply named|cbn; by rewrite Hp].
    unfold bind at 1. rewrite (Hsel Ptcp x Ht). eexists _, _. unfold sets_protocol. rewrite Hp. reflexivity.
  - destruct (member_true _ Hd "udp") as [p Ep]; [by apply named|cbn; by rewrite Hp|]. rewrite Ep.
    rewrite !(member_none _ Hd) by first [by apply named|cbn; by rewrite Hp].
    unfold bind at 1. unfold ret at 1. unfold bind at 1. unfold bind at 1. unfold get. rewrite Hf, (Hsel Pudp x Hu).
    eexists _, _. unfold sets_protocol. rewrite Hp. reflexivity.
Qed.

Lemma report_runs alloc : runs (report_rate alloc) (fun t => t).
Proof.
  intros x. unfold report_rate. destruct (_ =? 0); [exists (x_nalloc x), (x_start x); by destruct x|].
  destruct (wp_returns _ _ _ (add_number_returns alloc (x_start x) (key "target_bitrate") (D_of_Z (rate (settings (x_test x)))) (x_nalloc x)))
    as (r & n & -> & _). by eexists _, _.
Qed.

(** Block sizes the server takes. *)
Definition block_ok (t : iperf_test) : Prop :=
  protocol t = Ptcp /\ 0 < blksize (settings t) <= MAX_BLOCKSIZE \/
  protocol t = Pudp /\ MIN_UDP_BLOCKSIZE <= blksize (settings t) <= MAX_UDP_BLOCKSIZE.

Lemma check_passes x : block_ok (x_test x) -> max_server_duration (x_test x) = 0 -> bitrate_limit (settings (x_test x)) = 0 ->
  check_parameters x = Ret (x_r x, mk_exchange (whole_datagrams (x_test x)) (x_errno x) (x_r x) (x_nalloc x) (x_start x)).
Proof.
  intros Hb Hm Hl. unfold check_parameters, bind at 1, get. cbv zeta.
  assert (negb (protocol (x_test x) =? Pudp) && (blksize (settings (x_test x)) <=? 0) || (MAX_BLOCKSIZE <? blksize (settings (x_test x))) = false) as ->.
  { unfold block_ok, MIN_UDP_BLOCKSIZE, MAX_UDP_BLOCKSIZE, MAX_BLOCKSIZE, MB in *.
    rewrite orb_false_iff, andb_false_iff, negb_false_iff, Z.eqb_eq, Z.leb_gt, Z.ltb_ge. lia. }
  assert ((protocol (x_test x) =? Pudp) && ((blksize (settings (x_test x)) <? MIN_UDP_BLOCKSIZE) || (MAX_UDP_BLOCKSIZE <? blksize (settings (x_test x)))) = false) as ->.
  { unfold block_ok in *. rewrite andb_false_iff, orb_false_iff, Z.eqb_neq, !Z.ltb_ge. destruct Hb as [[-> ?]|[-> ?]]; [by left|by right]. }
  rewrite no_sendfile. unfold too_long, over_limit. rewrite Hm, Hl. reflexivity.
Qed.

(** ** The fields afterwards *)

Lemma same_segments t : t = t <|s gso_dg_size := gso_dg_size (settings t) |> <|s gso_bf_size := gso_bf_size (settings t) |>.
Proof. unchanged t. Qed.

Lemma same_retransmits t : t = t <| sender_has_retransmits := sender_has_retransmits t |>.
Proof. unchanged t. Qed.

Lemma derived_segments t : exists a b, derived_datagram_size t = t <|s gso_dg_size := a |> <|s gso_bf_size := b |>.
Proof.
  unfold derived_datagram_size. cbv zeta. destruct (_ && _); [|eexists _, _; apply same_segments].
  destruct (_ <? _); [by eexists _, _|]. exists DEFAULT_UDP_BLKSIZE, (gso_bf_size (settings t)). unchanged t.
Qed.

Lemma whole_segments t : exists a b, whole_datagrams t = t <|s gso_dg_size := a |> <|s gso_bf_size := b |>.
Proof.
  unfold whole_datagrams. cbv zeta. destruct (_ && _); [|eexists _, _; apply same_segments].
  destruct (_ <? _); [by eexists _, _|]. exists (blksize (settings t)), (gso_bf_size (settings t)). unchanged t.
Qed.

Lemma noted_retransmits t : exists a, note_retransmits t = t <| sender_has_retransmits := a |>.
Proof. unfold note_retransmits. destruct (_ && _); [by eexists|]. eexists. apply same_retransmits. Qed.

Lemma checked_retransmits t : exists a, check_sender_has_retransmits t = t <| sender_has_retransmits := a |>.
Proof. unfold check_sender_has_retransmits. destruct (_ && _); by eexists. Qed.

(** The direction of a server that has none yet. *)
Lemma learned_direction c t : role t = role_server -> mode t = RECEIVER -> reverse t = 0 -> bidirectional t = 0 -> exists a,
  learn_direction c t = t <| reverse := opt (negb (reverse c =? 0)) 1 0 |> <| bidirectional := opt (negb (bidirectional c =? 0)) 1 0 |>
    <| mode := direction c |> <| sender_has_retransmits := a |>.
Proof.
  intros Hr Hm Hv Hb. unfold learn_direction, direction, opt. cbv zeta.
  destruct (negb (reverse c =? 0)), (negb (bidirectional c =? 0)); unfold iperf_set_test_bidirectional, iperf_set_test_reverse;
    cbn [role reverse update]; rewrite ?Hr; cbn [Z.eqb Pos.eqb role_server role_client negb].
  - destruct (checked_retransmits (t <| reverse := 1 |> <| mode := SENDER |>)) as [a ->]. by exists a.
  - destruct (checked_retransmits (t <| reverse := 1 |> <| mode := SENDER |>)) as [a ->]. exists a. rewrite <- Hb. unchanged t.
  - exists (sender_has_retransmits t). rewrite <- Hv. unchanged t.
  - exists (sender_has_retransmits t). destruct t as [? ? ? ? ? ? ? ? ? ? ? ? ? ? ? ? ? ? ? ? ? ? ? ? ? ? ? ? ? []]. cbn in *. by subst.
Qed.

Lemma reset_retransmits s : Ptcp ∈ protocols s -> exists a g, iperf_reset_test s =
  s <| get_server_output := g |> <| streams := [] |> <| done := 0 |> <| congestion := None |> <| remote_congestion_used := None |>
    <| role := role_server |> <| mode := RECEIVER |> <| sender_has_retransmits := 0 |> <| protocol := Ptcp |> <| sender_has_retransmits := a |>
    <| omit := OMIT |> <| duration := DURATION |> <| server_affinity := -1 |> <| state := 0 |> <| ctrl_sck := -1 |> <| listener := -1 |> <| prot_listener := -1 |>
    <| test_bytes_sent := 0 |> <| test_blocks_sent := 0 |> <| test_bytes_received := 0 |> <| test_blocks_received := 0 |>
    <| other_side_has_retransmits := 0 |> <| bitrate_limit_stats_count := 0 |> <| bitrate_limit_last_interval_index := 0 |>
    <| bitrate_limit_exceeded := 0 |> <| bitrate_limit_intervals_traffic_bytes := repeat 0 (Z.to_nat MAX_INTERVAL) |> <| reverse := 0 |> <| bidirectional := 0 |> <| no_delay := 0 |> <| num_streams := 1 |>
    <|s socket_bufsize := 0 |> <|s blksize := DEFAULT_TCP_BLKSIZE |> <|s rate := 0 |> <|s fqrate := 0 |> <|s burst := 0 |>
    <|s mss := 0 |> <|s tos := 0 |> <|s gso_dg_size := 0 |> <|s gso_bf_size := GSO_BF_MAX_SIZE |>
    <|s gro_bf_size := GRO_BF_MAX_SIZE |> <|s dont_fragment := 0 |> <|s skip_rx_copy := 0 |>
    <|s authtoken := None |> <|s client_username := None |> <|s client_password := None |> <|s client_rsa_pubkey := false |>
    <| zerocopy := 0 |> <| multisend := 10 |> <| udp_counters_64bit := 0 |> <| title := None |> <| extra_data := None |> /\
  g = if server_output_byte_limit s =? 0 then get_server_output s else 0.
Proof.
  intros Hp. unfold iperf_reset_test, set_protocol. destruct (Z.eqb_spec (server_output_byte_limit s) 0); cbn [negb]; cbv zeta; cbn [protocols update].
  all: rewrite (proj2 (existsb_exists _ _)) by (exists Ptcp; by split; [apply list_elem_of_In|]); cbn [default].
  all: match goal with |- context [check_sender_has_retransmits ?t] => destruct (checked_retransmits t) as [a ->] end.
  all: eexists a, _; split; [|reflexivity]; unchanged s.
Qed.

(** ** The server's test *)

(** The settings that are reset between tests are the client's; the others keep
    the old value where the client sends none. *)
Record mirrors (c s s' : iperf_test) : Prop := mk_mirrors {
  m_protocol : protocol s' = protocol c;
  m_extent : omit s' = omit c /\ duration s' = duration c /\ bytes (settings s') = bytes (settings c) /\ blocks (settings s') = blocks (settings c);
  m_affinity : server_affinity s' = server_affinity c;
  m_streams : num_streams s' = num_streams c;
  m_sizes : mss (settings s') = mss (settings c) /\ socket_bufsize (settings s') = socket_bufsize (settings c) /\ blksize (settings s') = blksize (settings c);
  m_rates : rate (settings s') = rate (settings c) /\ fqrate (settings s') = fqrate (settings c) /\
    burst (settings s') = burst (settings c) /\ tos (settings s') = tos (settings c);
  m_direction : mode s' = direction c /\ reverse s' = opt (negb (reverse c =? 0)) 1 0 /\ bidirectional s' = opt (negb (bidirectional c =? 0)) 1 0;
  m_flags : no_delay s' = kept (no_delay c) 1 0 /\ zerocopy s' = kept (zerocopy c) 1 0 /\ udp_counters_64bit s' = kept (udp_counters_64bit c) 1 0 /\
    dont_fragment (settings s') = kept (dont_fragment (settings c)) 1 0 /\ skip_rx_copy (settings s') = kept (skip_rx_copy (settings c)) 1 0;
  m_texts : title s' = title c /\ extra_data s' = extra_data c /\ congestion s' = congestion c;
  m_offload : protocol c = Pudp -> gso (settings s') = gso (settings c) /\ gro (settings s') = gro (settings c) /\ gro_bf_size (settings s') = gro_bf_size (settings c);
  m_old_texts : congestion_used s' = kept_text (congestion_used c) (congestion_used s);
  m_old : pacing_timer (settings s') = kept (pacing_timer (settings c)) (pacing_timer (settings c)) (pacing_timer (settings s)) /\
    repeating_payload s' = kept (repeating_payload c) 1 (repeating_payload s) /\
    get_server_output s' = kept (get_server_output c) 1 (if server_output_byte_limit s =? 0 then get_server_output s else 0) }.

Lemma kept_zero n : kept n n 0 = n.
Proof. unfold kept, opt. by destruct (Z.eqb_spec n 0) as [->|]. Qed.

Lemma kept_positive n old : 0 < n -> kept n n old = n.
Proof. intros H. unfold kept, opt. by rewrite (proj2 (Z.eqb_neq _ _)) by lia. Qed.

Lemma opt_same n old : opt (negb (n =? old)) n old = n.
Proof. unfold opt. by destruct (Z.eqb_spec n old) as [->|]. Qed.

Lemma kept_text_none s : utf8_text (default [] s) -> kept_text s None = s.
Proof. destruct s as [s|]; [|done]. intros H. cbn. by rewrite utf8_cstr. Qed.

(** The test of a server with a client: reset, with its sockets and state. *)
Definition at_state (l sck v : Z) (t : iperf_test) : iperf_test := t <| listener := l |> <| ctrl_sck := sck |> <| state := v |>.

Lemma at_rest s : Ptcp ∈ protocols s -> iperf_reset_test s = at_state (-1) (-1) 0 (iperf_reset_test s).
Proof.
  intros Hp. assert (forall t l k v, listener t = l -> ctrl_sck t = k -> state t = v -> t = at_state l k v t) as H.
  { intros t l k v <- <- <-. unchanged t. }
  apply H; destruct (reset_retransmits s Hp) as (a & g & -> & _); reflexivity.
Qed.

Lemma learned_mirrors encode c s l sck v : sendable encode c -> 0 < blksize (settings c) -> Ptcp ∈ protocols s ->
  (mirrors c s (whole_datagrams (learn encode c (sets_protocol c (at_state l sck v (iperf_reset_test s))))) /\
   forall t, t = whole_datagrams (learn encode c (sets_protocol c (at_state l sck v (iperf_reset_test s)))) -> listener t = l /\ ctrl_sck t = sck /\ prot_listener t = -1 /\ role t = role_server) /\
  forall t, t = learn encode c (sets_protocol c (at_state l sck v (iperf_reset_test s))) ->
    protocol t = protocol c /\ blksize (settings t) = blksize (settings c) /\
    max_server_duration t = max_server_duration s /\ bitrate_limit (settings t) = bitrate_limit (settings s).
Proof.
  intros Hc Hb Hp. pose proof (c_range _ _ Hc) as []. pose proof Hc as []. rewrite !Forall_cons in *. destruct_and!.
  destruct (reset_retransmits s Hp) as (a0 & g & -> & Hg). unfold sets_protocol, at_state.
  match goal with |- context [check_sender_has_retransmits ?t] => destruct (checked_retransmits t) as [a1 ->] end.
  unfold learn.
  match goal with |- context [learn_direction c ?t] => destruct (learned_direction c t eq_refl eq_refl eq_refl eq_refl) as [a2 ->] end.
  match goal with |- context [derived_datagram_size ?t] => destruct (derived_segments t) as (b1 & b2 & ->) end.
  match goal with |- context [note_retransmits ?t] => destruct (noted_retransmits t) as (a3 & ->) end.
  match goal with |- context [whole_datagrams ?t] => destruct (whole_segments t) as (b3 & b4 & ->) end.
  limits. split; [split|].
  - constructor; cbn; rewrite ?wraps_small, ?wrapu_small, ?kept_zero, ?(kept_positive (blksize _)), ?opt_same, ?kept_text_none by (done || lia);
      try done; [intros Hu; by rewrite Hu|by rewrite Hg].
  - by intros t ->.
  - intros t ->. cbn. by rewrite wraps_small, kept_positive by lia.
Qed.

(** What the server reads from the client's message. *)
Lemma parameters_read encode c s alloc x l sck v : sendable encode c -> (protocol c = Ptcp \/ protocol c = Pudp) -> block_ok c ->
  (forall k, alloc k = true) -> Ptcp ∈ protocols s -> Pudp ∈ protocols s -> diskfile_name s = None ->
  max_server_duration s = 0 -> bitrate_limit (settings s) = 0 -> x_test x = at_state l sck v (iperf_reset_test s) -> x_r x = 0 ->
  exists x', apply_parameters alloc (received_message (parameter_fields encode c)) x = Ret (0, x') /\ mirrors c s (x_test x') /\
    listener (x_test x') = l /\ ctrl_sck (x_test x') = sck /\ prot_listener (x_test x') = -1 /\ role (x_test x') = role_server.
Proof.
  intros Hc Hp Hb Ha Ht Hu Hf Hm Hl Hx Hr.
  assert (0 < blksize (settings c)) as Hpos by (destruct Hb as [[_ ?]|[_ ?]]; unfold MIN_UDP_BLOCKSIZE in *; lia).
  destruct (learned_mirrors encode c s l sck v Hc Hpos Ht) as [[Hmir Hsocks] Hfacts]. specialize (Hsocks _ eq_refl). specialize (Hfacts _ eq_refl). destruct Hfacts as (F1 & F2 & F3 & F4).
  destruct (protocol_received encode c x Hc Hp) as (k & start & E1).
  { rewrite Hx. destruct (reset_retransmits s Ht) as (? & ? & -> & _). exact Ht. }
  { rewrite Hx. destruct (reset_retransmits s Ht) as (? & ? & -> & _). exact Hu. }
  { rewrite Hx. destruct (reset_retransmits s Ht) as (? & ? & -> & _). exact Hf. }
  set (x1 := mk_exchange _ _ _ k start) in E1.
  destruct (runs_extent encode c Hc x1) as (k2 & start2 & E2). set (x2 := mk_exchange _ _ _ k2 start2) in E2.
  destruct (runs_offload encode c Hc x2) as (k3 & start3 & E3). set (x3 := mk_exchange _ _ _ k3 start3) in E3.
  destruct (runs_rates encode c Hc x3) as (k4 & start4 & E4). set (x4 := mk_exchange _ _ _ k4 start4) in E4.
  destruct (runs_options encode c Hc alloc Ha x4) as (k5 & start5 & E5). set (x5 := mk_exchange _ _ _ k5 start5) in E5.
  destruct (report_runs alloc x5) as (k6 & start6 & E6). set (x6 := mk_exchange _ _ _ k6 start6) in E6.
  assert (x_test x6 = learn encode c (sets_protocol c (at_state l sck v (iperf_reset_test s)))) as E7 by (rewrite <- Hx; unfold x6, x5, x4, x3, x2, x1, learn; cbn [x_test]; reflexivity).
  unfold apply_parameters, bind. rewrite E1, E2, E3, E4, E5, E6, check_passes; rewrite ?E7.
  - change (x_r x6) with (x_r x). rewrite Hr. eexists. split; [reflexivity|split; [exact Hmir|exact Hsocks]].
  - unfold block_ok in *. by rewrite F1, F2.
  - congruence.
  - congruence.
Qed.

(** The two calls, on any connection. *)
Definition parameters_frame (encode : text -> text -> option text) (c : iperf_test) : list Z := frame (message (parameter_fields encode c)).
Definition parameters_size (encode : text -> text -> option text) (c : iperf_test) : Z := zlen (render false 0 (message (parameter_fields encode c))).

Lemma parameters_sent os encode c alloc has_reallocate n ch : prompt os -> (forall k, alloc k = true) -> sendable encode c -> protocol c = Ptcp \/ protocol c = Pudp ->
  parameters_size encode c <= MAX_PARAMS_JSON_STRING ->
  wp (send_parameters alloc encode os has_reallocate c n) (fun r ch' => r = (0, None, store_token encode c) /\
    ch_in ch' = ch_in ch /\ ch_out ch' = ch_out ch ++ parameters_frame encode c) ch.
Proof.
  intros Hos Ha Hc Hp Hsize. unfold parameters_size, MAX_PARAMS_JSON_STRING in Hsize.
  destruct (wp_returns _ _ _ (parameters_json_spec alloc encode c n (c_token _ _ Hc))) as (r & n' & E1 & H1).
  specialize (H1 (fun _ _ => Ha _)). subst r. unfold send_parameters. rewrite E1. wp_step.
  eapply wp_mono; [apply (write_delivers os Hos alloc Ha has_reallocate _ n' ch (message_document _ (parameter_fields_fit encode c Hc Hp))); lia|].
  intros r ch' (-> & Hi & Ho). wp_step. by split_and!.
Qed.

Lemma parameters_taken os encode c s l sck v palloc alloc ch x rest : prompt os -> (forall k, palloc k = true) -> (forall k, alloc k = true) ->
  sendable encode c -> protocol c = Ptcp \/ protocol c = Pudp -> block_ok c -> parameters_size encode c <= MAX_PARAMS_JSON_STRING ->
  Ptcp ∈ protocols s -> Pudp ∈ protocols s -> diskfile_name s = None -> max_server_duration s = 0 -> bitrate_limit (settings s) = 0 ->
  x_test x = at_state l sck v (iperf_reset_test s) -> ch_in ch = parameters_frame encode c ++ rest ->
  wp (get_parameters os true palloc alloc) (fun r w => r = 0 /\ ch_in w.1 = rest /\ ch_out w.1 = ch_out ch /\ mirrors c s (x_test w.2) /\
    listener (x_test w.2) = l /\ ctrl_sck (x_test w.2) = sck /\ prot_listener (x_test w.2) = -1 /\ role (x_test w.2) = role_server) (ch, x).
Proof.
  intros Hos Hpa Ha Hc Hp Hb Hsize Ht Hu Hf Hm Hl Hx Hin. unfold parameters_size, MAX_PARAMS_JSON_STRING in Hsize.
  destruct (wp_returns _ _ _ (read_receives os Hos palloc Hpa MAX_PARAMS_JSON_STRING (message (parameter_fields encode c)) rest ch
    (message_document _ (parameter_fields_fit encode c Hc Hp)) (message_nesting _) ltac:(lia) ltac:(unfold MAX_PARAMS_JSON_STRING; lia) Hin)) as (q & ch' & E3 & -> & Hrest & Hout).
  rewrite reread_message in E3. set (x0 := x <| x_r := 0 |>).
  destruct (parameters_read encode c s alloc x0 l sck v Hc Hp Hb Ha Ht Hu Hf Hm Hl Hx eq_refl) as (x' & E4 & H4).
  unfold wp, get_parameters. cbn [fst snd]. rewrite E3. fold x0. rewrite E4. cbn [fst snd]. do 3 (split; [done|]). exact H4.
Qed.

(** C37: a client's test whose numbers are exact as doubles and whose texts are
    UTF-8, sent with [send_parameters] over a connection that keeps delivering,
    is taken over by a server without limits of its own: [get_parameters]
    returns 0 and its test mirrors the client's.  A setting that is reset
    between tests is the client's; pacing timer, repeating payload, server
    output and congestion control used keep the value of an earlier client
    where this one sends none. *)
Theorem parameters_round_trip os1 os2 encode c s x has_reallocate (Hp1 : prompt os1) (Hp2 : prompt os2) (Hc : sendable encode c)
    (Hp : protocol c = Ptcp \/ protocol c = Pudp) (Hb : block_ok c)
    (Hsize : zlen (render false 0 (message (parameter_fields encode c))) <= MAX_PARAMS_JSON_STRING)
    (Ht : Ptcp ∈ protocols s) (Hu : Pudp ∈ protocols s) (Hf : diskfile_name s = None)
    (Hm : max_server_duration s = 0) (Hl : bitrate_limit (settings s) = 0) (Hx : x_test x = iperf_reset_test s) :
  exists ch ch' x', send_parameters (fun _ => true) encode os1 has_reallocate c 0 (mk_channel [] [] 0) = Ret ((0, None, store_token encode c), ch) /\
    get_parameters os2 true (fun _ => true) (fun _ => true) (mk_channel (ch_out ch) [] 0, x) = Ret (0, (ch', x')) /\
    ch_in ch' = [] /\ mirrors c s (x_test x').
Proof.
  destruct (wp_returns _ _ _ (parameters_sent os1 encode c (fun _ => true) has_reallocate 0 (mk_channel [] [] 0) Hp1 (fun _ => eq_refl) Hc Hp Hsize)) as (r & ch & E1 & -> & _ & Ho).
  rewrite (at_rest s Ht) in Hx.
  destruct (wp_returns _ _ _ (parameters_taken os2 encode c s (-1) (-1) 0 (fun _ => true) (fun _ => true) (mk_channel (ch_out ch) [] 0) x [] Hp2 (fun _ => eq_refl) (fun _ => eq_refl)
    Hc Hp Hb Hsize Ht Hu Hf Hm Hl Hx ltac:(by rewrite app_nil_r))) as (r & [ch' x'] & E2 & -> & Hi & _ & H & _).
  by exists ch, ch', x'.
Qed.

(** ** Examples *)

(** A client with four streams in reverse, a rate and a title. *)
Definition sample_client : iperf_test :=
  let t := (iperf_defaults iperf_new_test) <| title := Some [116; 49] |> <| num_streams := 4 |> <|s rate := 1000000 |> in
  iperf_set_test_reverse 1 (iperf_set_test_role role_client t).

Lemma sample_sendable : sendable (fun _ _ => None) sample_client.
Proof.
  constructor; lazymatch goal with
    | |- Forall _ _ => idtac
    | |- in_range _ => constructor; vm_compute; by split
    | |- _ <> _ => done
    | |- _ => vm_compute; by split
    end.
  repeat first [apply Forall_nil_2|apply Forall_cons_2]; try apply utf8_text_nil. apply ascii_text. repeat constructor; lia.
Qed.

Lemma parameters_round_trip_witness :
  exists ch ch' x', send_parameters (fun _ => true) (fun _ _ => None) trickle true sample_client 0 (mk_channel [] [] 0) =
      Ret ((0, None, store_token (fun _ _ => None) sample_client), ch) /\
    get_parameters trickle true (fun _ => true) (fun _ => true) (mk_channel (ch_out ch) [] 0, fresh <| x_test := iperf_reset_test (x_test fresh) |>) = Ret (0, (ch', x')) /\
    ch_in ch' = [] /\ mirrors sample_client (x_test fresh) (x_test x').
Proof.
  apply (parameters_round_trip trickle trickle (fun _ _ => None) sample_client (x_test fresh)
    (fresh <| x_test := iperf_reset_test (x_test fresh) |>) true trickle_prompt trickle_prompt sample_sendable).
  - by left.
  - left. vm_compute. by split.
  - apply Z.leb_le. vm_compute. reflexivity.
  - by left.
  - right. by left.
  - reflexivity.
  - reflexivity.
  - reflexivity.
  - reflexivity.
Defined.

(** A server that allows one megabit per second, and a request for 16 streams of
    [2^60] bits per second in blocks of [2^32 + 1000] bytes. *)
Definition limited : exchange := fresh <| x_test := iperf_reset_test ((iperf_defaults iperf_new_test) <|s bitrate_limit := 1000000 |>) |>.

Definition greedy : cJSON := message
  [("tcp"%string, true_if true); ("parallel"%string, int_if true 16); ("bandwidth"%string, int_if true (2 ^ 60)); ("len"%string, int_if true (2 ^ 32 + 1000))].

(** A member ["reverse": false]. *)
Definition not_reverse : cJSON := Node cJSON_Object
  [Node cJSON_False [] None 0 D_zero (Some (key "reverse"))] None 0 D_zero None.

(** The server's limit on the total rate can be passed by: the product of
    streams and rate is computed on 64 bits and wraps, and a block length is
    checked after it lost its upper bits.  A false option is taken for a true
    one, since [iperf_cJSON_GetObjectItemType] gives both when asked for a true
    item. *)
Theorem parameter_checks_bypassed :
  (exists x', apply_parameters (fun _ => true) greedy limited = Ret (0, x') /\
    num_streams (x_test x') * rate (settings (x_test x')) = 16 * 2 ^ 60 /\
    bitrate_limit (settings (x_test x')) = 1000000 /\ blksize (settings (x_test x')) = 1000) /\
  (exists x', apply_parameters (fun _ => true) not_reverse fresh = Ret (0, x') /\ reverse (x_test x') = 1 /\ reverse (x_test fresh) = 0).
Proof. split; eexists; (split; [vm_compute; reflexivity|]); by vm_compute. Qed.
