(* ===== verification/Udp.v ===== *)
(** * UDP data

    [iperf_udp_recv] and [iperf_udp_send] of [iperf_udp.c]: the header of a
    datagram, the accounting of lost and reordered datagrams, the jitter, and
    the numbering of the datagrams of one buffer.

    The result of the system call and the memory behind [sp->buffer] after it
    are arguments; so are the readings of the clock and what another thread
    stores in [jitter] between a load and a compare-and-exchange. *)

From S2P Require Import Prelude Bytes Time Double IperfTest ControlChannel.
Local Open Scope c_scope.

(** ** The header *)

(** [ntohl] of four bytes and [be64toh] of eight. *)
Definition be64 (v : Z) : list Z := htonl (v / 2 ^ 32) ++ htonl v.

(** [memcpy] of [n] bytes from the offset [off] of the buffer. *)
Definition load_bytes (buffer : list Z) (off n : Z) : option (list Z) :=
  if (0 <=? off) && (off + n <=? zlen buffer) then Some (firstn (Z.to_nat n) (drop (Z.to_nat off) buffer)) else None.

Definition store_bytes (buffer : list Z) (off : Z) (bytes : list Z) : option (list Z) :=
  if (0 <=? off) && (off + zlen bytes <=? zlen buffer)
  then Some (firstn (Z.to_nat off) buffer ++ bytes ++ drop (Z.to_nat (off + zlen bytes)) buffer) else None.

(** The time of sending and the number of a datagram. *)
Definition header_at (counters64 : bool) (buffer : list Z) (off : Z) : option (iperf_time * Z) :=
  match load_bytes buffer off 4, load_bytes buffer (off + 4) 4, load_bytes buffer (off + 8) (if counters64 then 8 else 4) with
  | Some sec, Some usec, Some pcount => Some (mk_time (ntohl sec) (ntohl usec), ntohl pcount)
  | _, _, _ => None
  end.

Definition header (counters64 : bool) (time : iperf_time) (packet_count : Z) : list Z :=
  htonl (secs time) ++ htonl (usecs time) ++
  (if counters64 then be64 (u64 packet_count) else htonl (u32 packet_count)).

(** ** Loss and order *)

(** [pcount] is unsigned, [packet_count] and [cnt_error] are signed 64-bit. *)
Definition count_datagram (pcount : Z) (sp : iperf_stream) : iperf_stream :=
  let expected := u64 (s64 (packet_count sp + 1)) in
  if expected <=? pcount then
    let sp :=
      if expected <? pcount
      then sp <| cnt_error := s64 (cnt_error sp + u64 (pcount - 1 - u64 (packet_count sp))) |>
      else sp in
    sp <| packet_count := s64 pcount |>
  else
    let sp := sp <| outoforder_packets := s64 (outoforder_packets sp + 1) |> in
    if 0 <? cnt_error sp then sp <| cnt_error := cnt_error sp - 1 |> else sp.

(** ** Jitter *)

Definition iperf_time_in_secs (t : iperf_time) : double :=
  D_add (D_of_Z (secs t)) (D_div (D_of_Z (usecs t)) (D_of_Z 1000000)).

(** Every value another thread stores meanwhile makes the exchange fail once. *)
Fixpoint next_jitter (previous : double) (others : list double) (d : double) : double :=
  match others with
  | [] => D_add previous (D_div (D_sub d previous) (D_of_Z 16))
  | previous :: others => next_jitter previous others d
  end.

Definition measure_jitter (first : bool) (sent arrival : iperf_time) (others : list double) (sp : iperf_stream) : iperf_stream :=
  let transit := iperf_time_in_secs (iperf_time_diff arrival sent).1 in
  let sp := if first then sp <| prev_transit := transit |> else sp in
  let d := D_sub transit (prev_transit sp) in
  let d := if D_ltb d D_zero then D_opp d else d in
  sp <| prev_transit := transit |> <| jitter := next_jitter (jitter sp) others d |>.

(** ** Receiving *)

Definition min_pkt_size : Z := 12.

(** [dgram] counts the datagrams of the buffer; the clock and the other
    threads answer once for each. *)
Section Receive.
Context (counters64 : bool) (arrivals : nat -> iperf_time) (others : nat -> list double).

Fixpoint datagram_loop (fuel : nat) (dgram_sz : Z) (buffer : list Z) (off buf_sz : Z) (first : bool) (k : nat) (sp : iperf_stream) :
    outcome iperf_stream :=
  if buf_sz <? dgram_sz then Ret sp
  else if buf_sz <? min_pkt_size then Ret sp
  else if counters64 && (buf_sz <? 16) then Ret sp
  else
    match fuel with
    | O => OutOfFuel
    | S fuel =>
        match header_at counters64 buffer off with
        | None => UB
        | Some (sent_time, pcount) =>
            let sp := count_datagram pcount sp in
            let sp := measure_jitter first sent_time (arrivals k) (others k) sp in
            datagram_loop fuel dgram_sz buffer (off + dgram_sz) (buf_sz - dgram_sz) false (S k) sp
        end
    end.

(** [r] and [buffer] are what [Nrecv_no_select] gave; without GRO support
    [Nread_gro] is an error. *)
Definition iperf_udp_recv (test : iperf_test) (r : Z) (buffer : list Z) (sp : iperf_stream) : outcome (Z * iperf_stream) :=
  let r := if negb (gro (settings test) =? 0) then NET_HARDERROR else r in
  let dgram_sz := blksize (settings test) in
  if r <=? 0 then Ret (r, sp)
  else if dgram_sz <=? 0 then Ret (-1, sp)
  else if state test =? TEST_RUNNING then
    let first := bytes_received (result sp) =? 0 in
    let sp := update result (fun x => x <| bytes_received := u64 (bytes_received x + r) |>
                                        <| bytes_received_this_interval := u64 (bytes_received_this_interval x + r) |>) sp in
    match datagram_loop (Z.to_nat r) dgram_sz buffer 0 r first 0 sp with
    | Ret sp => Ret (r, sp)
    | UB => UB
    | OutOfFuel => OutOfFuel
    end
  else Ret (r, sp).

End Receive.

(** ** Sending *)

Section Send.
Context (counters64 : bool) (now : nat -> iperf_time).

(** The headers of the datagrams of one buffer. *)
Fixpoint number_loop (fuel : nat) (dgram_sz : Z) (buffer : list Z) (off buf_sz : Z) (k : nat) (sp : iperf_stream) :
    outcome (list Z * iperf_stream) :=
  if (0 <? buf_sz) && (dgram_sz <=? buf_sz) then
    match fuel with
    | O => OutOfFuel
    | S fuel =>
        let sp := sp <| packet_count := s64 (packet_count sp + 1) |> in
        match store_bytes buffer off (header counters64 (now k) (packet_count sp)) with
        | None => UB
        | Some buffer => number_loop fuel dgram_sz buffer (off + dgram_sz) (buf_sz - dgram_sz) (S k) sp
        end
    end
  else Ret (buffer, sp).

(** The datagram and buffer sizes; invalid ones turn GSO off. *)
Definition gso_sizes (test : iperf_test) : Z * Z * iperf_test :=
  let size := blksize (settings test) in
  if negb (gso (settings test) =? 0) then
    let dgram_sz := gso_dg_size (settings test) in
    let buf_sz := gso_bf_size (settings test) in
    if (dgram_sz <=? 0) || (dgram_sz <? min_pkt_size) || (buf_sz <? dgram_sz)
    then (size, size, test <|s gso := 0 |>)
    else (dgram_sz, buf_sz, test)
  else (size, size, test).

(** [written] is the result of [Nwrite] of the buffer; without GSO support
    [Nwrite_gso] is an error. *)
Definition iperf_udp_send (test : iperf_test) (buffer : list Z) (written : Z) (sp : iperf_stream) :
    outcome (Z * list Z * iperf_test * iperf_stream) :=
  let '(dgram_sz, buf_sz, test) := gso_sizes test in
  match number_loop (Z.to_nat buf_sz) dgram_sz buffer 0 buf_sz 0 sp with
  | UB => UB
  | OutOfFuel => OutOfFuel
  | Ret (buffer, sp) =>
      let r := if negb (gso (settings test) =? 0) then NET_HARDERROR else written in
      let sp := if r <=? 0 then sp <| packet_count := s64 (packet_count sp - 1) |> else sp in
      if r <? 0 then Ret (r, buffer, test, sp)
      else
        Ret (r, buffer, test,
          update result (fun x => x <| bytes_sent := u64 (bytes_sent x + r) |>
                                    <| bytes_sent_this_interval := u64 (bytes_sent_this_interval x + r) |>) sp)
  end.

End Send.
