(* ===== verification/UdpSpec.v ===== *)
(** * What UDP streams guarantee

    The header that the sender writes is the one the receiver reads; datagrams
    are numbered without gaps; and for datagrams that arrive at most once, in
    any order, the counters give the exact loss. *)

From S2P Require Import Prelude Bytes Time Double IperfTest ControlChannel ControlChannelSpec Udp.
Local Open Scope c_scope.

(** ** Loads and stores *)

Lemma load_bytes_some b off n l : load_bytes b off n = Some l ->
  0 <= off /\ off + n <= zlen b /\ l = firstn (Z.to_nat n) (drop (Z.to_nat off) b).
Proof. unfold load_bytes. destruct (Z.leb_spec 0 off), (Z.leb_spec (off + n) (zlen b)); cbn [andb]; intros [= <-]; auto. Qed.

Lemma load_app b off l1 l2 : load_bytes b off (zlen (l1 ++ l2)) = Some (l1 ++ l2) ->
  load_bytes b off (zlen l1) = Some l1 /\ load_bytes b (off + zlen l1) (zlen l2) = Some l2.
Proof.
  intros (H0 & H1 & E)%load_bytes_some. rewrite zlen_app in H1. pose proof (zlen_nonneg l1). pose proof (zlen_nonneg l2).
  assert (firstn (length l1 + length l2) (drop (Z.to_nat off) b) = l1 ++ l2) as E1.
  { rewrite E. f_equal. unfold zlen. rewrite length_app. lia. }
  rewrite <- take_take_drop in E1. apply app_inj_1 in E1 as [E1 E2].
  - unfold load_bytes. rewrite !(proj2 (Z.leb_le _ _)) by lia. cbn [andb]. unfold zlen. rewrite !Nat2Z.id. split; [by rewrite E1|].
    rewrite <- E2 at 2. rewrite drop_drop. do 3 f_equal. lia.
  - rewrite length_firstn, length_drop. unfold zlen in *. lia.
Qed.

Lemma store_some b off l b' : store_bytes b off l = Some b' ->
  zlen b' = zlen b /\ load_bytes b' off (zlen l) = Some l /\
  forall o n, 0 <= n -> o + n <= off \/ off + zlen l <= o -> load_bytes b' o n = load_bytes b o n.
Proof.
  unfold store_bytes. destruct (Z.leb_spec 0 off), (Z.leb_spec (off + zlen l) (zlen b)); cbn [andb]; intros [= <-].
  pose proof (zlen_nonneg l). set (b' := firstn _ b ++ _). assert (length (firstn (Z.to_nat off) b) = Z.to_nat off) as E0 by (rewrite length_firstn; unfold zlen in *; lia).
  assert (zlen b' = zlen b) as El by (unfold b'; rewrite !zlen_app; unfold zlen in *; rewrite E0, length_drop; lia).
  split_and!; [done| |].
  - unfold load_bytes. rewrite El, !(proj2 (Z.leb_le _ _)) by lia. cbn [andb]. f_equal. unfold b'.
    rewrite drop_app_length' by done. unfold zlen. rewrite Nat2Z.id. by rewrite take_app_length.
  - intros o n Hn Ho. unfold load_bytes. rewrite El. destruct (Z.leb_spec 0 o), (Z.leb_spec (o + n) (zlen b)); cbn [andb]; try done. f_equal.
    apply list_eq. intros i. destruct (decide (i < Z.to_nat n)%nat) as [Hi|Hi].
    + rewrite !lookup_take_lt by done. rewrite !lookup_drop. unfold b'. destruct Ho as [Ho|Ho].
      * rewrite lookup_app_l by lia. rewrite lookup_take_lt by lia. done.
      * rewrite lookup_app_r by lia. rewrite lookup_app_r by (unfold zlen in *; lia). rewrite lookup_drop. f_equal. unfold zlen in *. lia.
    + rewrite !lookup_take_ge by lia. done.
Qed.

(** ** The header *)

Lemma ntohl_app l1 l2 : ntohl (l1 ++ l2) = ntohl l1 * 256 ^ zlen l2 + ntohl l2.
Proof.
  unfold ntohl. rewrite fold_left_app. generalize (fold_left (fun v b => v * 256 + b) l1 0) as v. intros v.
  assert (forall l v, fold_left (fun v b => v * 256 + b) l v = v * 256 ^ zlen l + fold_left (fun v b => v * 256 + b) l 0) as H.
  { clear. induction l as [|b l IH]; intros v; cbn [fold_left]; [rewrite zlen_nil; lia|].
    rewrite IH, (IH (0 * 256 + b)), zlen_cons, Z.pow_add_r by (try apply zlen_nonneg; lia). lia. }
  apply H.
Qed.

Lemma ntohl_be64 v : 0 <= v < 2 ^ 64 -> ntohl (be64 v) = v.
Proof.
  intros Hv. unfold be64. rewrite ntohl_app. change (zlen (htonl v)) with 4.
  rewrite (ntohl_htonl (v / 2 ^ 32)) by (split; [apply Z.div_pos|apply Z.div_lt_upper_bound]; lia).
  assert (ntohl (htonl v) = v mod 2 ^ 32) as ->.
  { rewrite <- (ntohl_htonl (v mod 2 ^ 32)) by (apply Z.mod_pos_bound; lia). unfold ntohl, htonl. cbn [fold_left].
    pose proof (Z.div_mod v (2 ^ 32)). Z.div_mod_to_equations. lia. }
  pose proof (Z.div_mod v (2 ^ 32)). lia.
Qed.

(** The range of the counter of a header. *)
Definition counter_range (counters64 : bool) : Z := if counters64 then 2 ^ 63 else 2 ^ 32.

Lemma header_length counters64 t n : zlen (header counters64 t n) = if counters64 then 16 else 12.
Proof. destruct counters64; reflexivity. Qed.

Lemma header_decoded counters64 b off t n : time_ok t -> 0 <= n < counter_range counters64 ->
  load_bytes b off (zlen (header counters64 t n)) = Some (header counters64 t n) -> header_at counters64 b off = Some (t, n).
Proof.
  intros [Hs Hu] Hn Hl. unfold header in Hl. apply load_app in Hl as [H1 [H2 H3]%load_app].
  change (zlen (htonl (secs t))) with 4 in *. change (zlen (htonl (usecs t))) with 4 in *. unfold header_at.
  rewrite H1, H2. replace (off + 8) with (off + 4 + 4) by lia. destruct counters64; unfold counter_range in Hn.
  - change (zlen (be64 (u64 n))) with 8 in H3. rewrite H3. rewrite !ntohl_htonl, wrapu_small, ntohl_be64 by lia. by destruct t.
  - change (zlen (htonl (u32 n))) with 4 in H3. rewrite H3. rewrite wrapu_small, !ntohl_htonl by lia. by destruct t.
Qed.

Lemma header_stored counters64 b off t n b' : time_ok t -> 0 <= n < counter_range counters64 ->
  store_bytes b off (header counters64 t n) = Some b' -> header_at counters64 b' off = Some (t, n).
Proof. intros Ht Hn (_ & Hl & _)%store_some. by apply header_decoded. Qed.

(** ** Numbering *)

Lemma header_at_ext (counters64 : bool) b b' off : (forall o n : Z, 0 <= n -> off <= o -> o + n <= off + (if counters64 then 16 else 12) -> load_bytes b' o n = load_bytes b o n) ->
  header_at counters64 b' off = header_at counters64 b off.
Proof. intros H. unfold header_at. rewrite !H by (destruct counters64; lia). done. Qed.

Section Sending.
Context (counters64 : bool) (now : nat -> iperf_time).
Hypothesis now_ok : forall k, time_ok (now k).

Definition header_size : Z := if counters64 then 16 else 12.

(** The datagrams of [dgram_sz] bytes from [off] carry the times from the [k]th
    on and the numbers after [n]. *)
Definition numbered (buffer : list Z) (dgram_sz off : Z) (k : nat) (n count : Z) : Prop :=
  forall i, 0 <= i < count -> header_at counters64 buffer (off + i * dgram_sz) = Some (now (k + Z.to_nat i), n + 1 + i).

Lemma number_loop_spec dgram_sz fuel : header_size <= dgram_sz -> forall buffer off buf_sz k sp,
  buf_sz <= Z.of_nat fuel -> 0 <= buf_sz -> 0 <= off -> off + buf_sz <= zlen buffer ->
  0 <= packet_count sp -> packet_count sp + buf_sz / dgram_sz < counter_range counters64 ->
  exists buffer', number_loop counters64 now fuel dgram_sz buffer off buf_sz k sp
    = Ret (buffer', sp <| packet_count := packet_count sp + buf_sz / dgram_sz |>) /\
    zlen buffer' = zlen buffer /\ numbered buffer' dgram_sz off k (packet_count sp) (buf_sz / dgram_sz) /\
    (forall o n : Z, 0 <= n -> o + n <= off -> load_bytes buffer' o n = load_bytes buffer o n).
Proof.
  intros Hd. assert (12 <= dgram_sz) as Hd12 by (unfold header_size in Hd; destruct counters64; lia).
  assert (forall buffer off k sp buf_sz, 0 <= buf_sz < dgram_sz -> exists buffer', Ret (buffer, sp) = Ret (buffer', sp <| packet_count := packet_count sp + buf_sz / dgram_sz |>) /\
    zlen buffer' = zlen buffer /\ numbered buffer' dgram_sz off k (packet_count sp) (buf_sz / dgram_sz) /\
    (forall o n : Z, 0 <= n -> o + n <= off -> load_bytes buffer' o n = load_bytes buffer o n)) as Hend.
  { intros buffer off k sp buf_sz H. rewrite (Z.div_small buf_sz dgram_sz) by lia. exists buffer.
    split_and!; [|done|intros i; lia|done]. rewrite Z.add_0_r. by destruct sp. }
  induction fuel as [|fuel IH]; intros buffer off buf_sz k sp Hf H0 Hoff Hb Hpc Hr; cbn [number_loop].
  all: destruct (Z.ltb_spec 0 buf_sz); cbn [andb]; [|apply Hend; lia].
  1: lia.
  destruct (Z.leb_spec dgram_sz buf_sz); [|apply Hend; lia].
  assert (buf_sz / dgram_sz = (buf_sz - dgram_sz) / dgram_sz + 1) as Eq.
  { rewrite <- Z.div_add by lia. f_equal. lia. }
  pose proof (Z.div_pos (buf_sz - dgram_sz) dgram_sz ltac:(lia) ltac:(lia)).
  assert (packet_count sp + 1 < 2 ^ 63) as Hsmall by (unfold counter_range in Hr; destruct counters64; lia).
  change (packet_count (sp <| packet_count := s64 (packet_count sp + 1) |>)) with (s64 (packet_count sp + 1)).
  rewrite wraps_small by lia. set (sp1 := sp <| packet_count := packet_count sp + 1 |>).
  set (h := header counters64 (now k) (packet_count sp + 1)).
  assert (zlen h = header_size) as Hh by apply header_length.
  destruct (store_bytes buffer off h) as [buffer1|] eqn:Es.
  2:{ unfold store_bytes in Es. rewrite !(proj2 (Z.leb_le _ _)) in Es by lia. done. }
  pose proof (store_some _ _ _ _ Es) as (El & Hl & Hsame).
  apply header_stored in Es; [|done|lia].
  destruct (IH buffer1 (off + dgram_sz) (buf_sz - dgram_sz) (S k) sp1) as (buffer' & E & El' & Hn & Hs'); try (cbn; lia).
  exists buffer'. cbv zeta. rewrite E, Eq. split_and!; [|congruence| |].
  - change (packet_count sp1) with (packet_count sp + 1). rewrite <- Z.add_assoc, (Z.add_comm 1). by destruct sp.
  - intros i Hi. destruct (decide (i = 0)) as [->|].
    + rewrite (header_at_ext counters64 buffer1) by (intros; apply Hs'; unfold header_size in Hd; destruct counters64; lia).
      replace (off + 0 * dgram_sz) with off by lia. rewrite Es. rewrite Nat.add_0_r. do 2 f_equal. lia.
    + specialize (Hn (i - 1)). cbn [packet_count sp1] in Hn. replace (off + i * dgram_sz) with (off + dgram_sz + (i - 1) * dgram_sz) by lia.
      rewrite Hn by lia. do 2 f_equal; [f_equal; lia|cbn; lia].
  - intros o n Hn0 Ho. rewrite Hs' by lia. apply Hsame; lia.
Qed.

Lemma gso_sizes_whole test dgram_sz buf_sz test' : gso_sizes test = (dgram_sz, buf_sz, test') ->
  dgram_sz <= buf_sz /\ (gso (settings test') = 0 -> dgram_sz = buf_sz).
Proof.
  unfold gso_sizes. destruct (Z.eqb_spec (gso (settings test)) 0) as [E|E]; cbn [negb]; [by intros [= <- <- <-]|].
  destruct (_ || _ || _) eqn:Ev; intros [= <- <- <-]; [done|]. apply orb_false_iff in Ev as [_ Ev%Z.ltb_ge]. done.
Qed.

(** A call sends the datagrams of its buffer with the current time and the
    numbers after the last one, without gaps and inside the buffer; without
    GSO a datagram that could not be sent leaves the counter as it was, so its
    number is used again, while a failed buffer of several datagrams is only
    counted back by one. *)
Theorem udp_send_numbers test buffer written sp dgram_sz buf_sz test' :
  gso_sizes test = (dgram_sz, buf_sz, test') -> header_size <= dgram_sz -> buf_sz <= zlen buffer ->
  0 <= packet_count sp -> packet_count sp + buf_sz / dgram_sz < counter_range counters64 ->
  exists r buffer' sp', iperf_udp_send counters64 now test buffer written sp = Ret (r, buffer', test', sp') /\
    zlen buffer' = zlen buffer /\ numbered buffer' dgram_sz 0 0 (packet_count sp) (buf_sz / dgram_sz) /\
    r = (if gso (settings test') =? 0 then written else NET_HARDERROR) /\
    packet_count sp' = packet_count sp + buf_sz / dgram_sz - (if r <=? 0 then 1 else 0) /\
    (gso (settings test') = 0 -> buf_sz / dgram_sz = 1) /\
    bytes_sent (result sp') = (if r <? 0 then bytes_sent (result sp) else u64 (bytes_sent (result sp) + r)).
Proof.
  intros E Hd Hb Hpc Hr. pose proof (gso_sizes_whole _ _ _ _ E) as [Hw H1].
  assert (12 <= dgram_sz) as Hd12 by (unfold header_size in Hd; destruct counters64; lia).
  pose proof (Z.div_pos buf_sz dgram_sz ltac:(lia) ltac:(lia)) as Hq.
  destruct (number_loop_spec dgram_sz (Z.to_nat buf_sz) Hd buffer 0 buf_sz 0 sp) as (buffer' & El & Hl & Hn & _); try lia.
  unfold iperf_udp_send. rewrite E, El. set (r := if negb _ then _ else _).
  assert (r = if gso (settings test') =? 0 then written else NET_HARDERROR) as Er by (unfold r; by destruct (_ =? 0)).
  assert (gso (settings test') = 0 -> buf_sz / dgram_sz = 1) as Hone by (intros G; rewrite H1 by done; apply Z.div_same; lia).
  assert (packet_count sp + buf_sz / dgram_sz < 2 ^ 63) by (unfold counter_range in Hr; destruct counters64; lia).
  exists r, buffer'. destruct (Z.leb_spec r 0), (Z.ltb_spec r 0); eexists; split_and!; try done; try (cbn; lia).
  all: cbn; rewrite wraps_small; lia.
Qed.
End Sending.

Lemma udp_send_numbers_witness :
  exists r buffer' sp', iperf_udp_send true (fun _ => mk_time 7 8) (iperf_new_test <|s blksize := 16 |>) (repeat 0 16) 16
      (mk_stream 1 true zero_result 41 0 0 0 D_zero D_zero 0 0 0 0 0 0 0 0 0 0 0 0)
    = Ret (r, buffer', iperf_new_test <|s blksize := 16 |>, sp') /\
    zlen buffer' = zlen (repeat 0 16) /\ numbered true (fun _ => mk_time 7 8) buffer' 16 0 0 41 (16 / 16) /\
    r = (if 0 =? 0 then 16 else NET_HARDERROR) /\ packet_count sp' = 41 + 16 / 16 - (if r <=? 0 then 1 else 0) /\
    (0 = 0 -> 16 / 16 = 1) /\ bytes_sent (result sp') = (if r <? 0 then 0 else u64 (0 + r)).
Proof.
  apply (udp_send_numbers true (fun _ => mk_time 7 8) ltac:(intros ?; split; simpl; lia) (iperf_new_test <|s blksize := 16 |>) (repeat 0 16) 16
    (mk_stream 1 true zero_result 41 0 0 0 D_zero D_zero 0 0 0 0 0 0 0 0 0 0 0 0) 16 16);
    [reflexivity|done|done|done|done].
Defined.

(** ** Loss *)

(** The highest number of the datagrams, and how many came after a higher one. *)
Definition highest (seqs : list Z) : Z := foldr Z.max 0 seqs.

Fixpoint late (top : Z) (seqs : list Z) : Z :=
  match seqs with
  | [] => 0
  | n :: seqs => (if n <? top then 1 else 0) + late (Z.max top n) seqs
  end.

(** What the counters say: the highest number, the loss and the late ones. *)
Definition counts (sp : iperf_stream) : Z * Z * Z := (packet_count sp, cnt_error sp, outoforder_packets sp).

Lemma highest_app l1 l2 : highest (l1 ++ l2) = Z.max (highest l1) (highest l2).
Proof. unfold highest. induction l1 as [|n l1 IH]; cbn [app foldr]; [|lia]. enough (0 <= foldr Z.max 0 l2) by lia. clear. induction l2; cbn; lia. Qed.

Lemma highest_bound n l : n ∈ l -> n <= highest l.
Proof. induction 1 as [|? ? ? ? IH]; cbn; [lia|]. unfold highest in IH. lia. Qed.

Lemma highest_below b l : 0 < b -> Forall (fun n => n < b) l -> 0 <= highest l < b.
Proof. intros Hb. induction 1; cbn; unfold highest in *; lia. Qed.

(** Distinct positive numbers are at most as many as the highest of them. *)
Lemma distinct_fit l : NoDup l -> Forall (fun n => 1 <= n) l -> zlen l <= highest l.
Proof.
  intros Hnd Hpos. rewrite Forall_forall in Hpos. assert (0 <= highest l) by (clear; induction l; cbn; unfold highest in *; lia).
  assert (l ⊆+ seqZ 1 (highest l)) as Hsub.
  { apply NoDup_submseteq; [done|]. intros n Hn. apply elem_of_seqZ. pose proof (highest_bound _ _ Hn). specialize (Hpos _ Hn). lia. }
  apply submseteq_length in Hsub. rewrite length_seqZ in Hsub. unfold zlen. lia.
Qed.

Lemma triple_eq {A B C} (a a' : A) (b b' : B) (c c' : C) : a = a' -> b = b' -> c = c' -> (a, b, c) = (a', b', c').
Proof. by intros -> -> ->. Qed.

(** One datagram, after those numbered [seen]. *)
Lemma count_datagram_spec seen n sp ooo : NoDup (seen ++ [n]) -> Forall (fun n => 1 <= n < 2 ^ 63) (seen ++ [n]) ->
  0 <= ooo <= zlen seen -> counts sp = (highest seen, highest seen - zlen seen, ooo) ->
  counts (count_datagram n sp) = (highest (seen ++ [n]), highest (seen ++ [n]) - zlen (seen ++ [n]), ooo + (if n <? highest seen then 1 else 0)).
Proof.
  intros Hnd Hr Ho [= E1 E2 E3]. rewrite highest_app. change (highest [n]) with (Z.max n 0).
  assert (Forall (fun n => 1 <= n) (seen ++ [n])) as Hpos by (eapply Forall_impl; [exact Hr|]; cbn; lia).
  pose proof (distinct_fit _ Hnd Hpos) as Hfit. rewrite highest_app in Hfit. change (highest [n]) with (Z.max n 0) in Hfit.
  rewrite zlen_app in *. change (zlen [n]) with 1 in *. pose proof (zlen_nonneg seen).
  assert (zlen seen <= highest seen) as Hfit0.
  { apply distinct_fit; [by apply NoDup_app in Hnd as (? & _)|by apply Forall_app in Hpos as [? _]]. }
  assert (n ∉ seen) as Hn by (apply NoDup_app in Hnd as (_ & Hd & _); intros Hin; apply (Hd _ Hin), list_elem_of_singleton; done).
  assert (0 <= highest seen < 2 ^ 63) as Hh by (apply highest_below; [lia|]; apply Forall_app in Hr as [Hr _]; eapply Forall_impl; [exact Hr|]; cbn; lia).
  assert (1 <= n < 2 ^ 63) as Hn1 by (apply Forall_app in Hr as [_ Hr]; by inversion Hr).
  assert (n <> highest seen) as Hne.
  { intros E. apply Hn. revert E Hn1. clear. unfold highest. revert n. induction seen as [|m seen IH]; intros n E Hn; cbn in E; [lia|].
    destruct (Z.max_spec m (foldr Z.max 0 seen)) as [[_ Em]|[_ Em]]; rewrite Em in E; [right; by apply IH|subst; left]. }
  unfold count_datagram, counts. rewrite E1. cbv zeta.
  assert (u64 (s64 (highest seen + 1)) = highest seen + 1) as ->.
  { destruct (decide (highest seen = 2 ^ 63 - 1)) as [->|]; [reflexivity|]. rewrite wraps_small by lia. apply wrapu_small. lia. }
  destruct (Z.leb_spec (highest seen + 1) n).
  - rewrite (proj2 (Z.ltb_ge n (highest seen))) by lia. destruct (Z.ltb_spec (highest seen + 1) n).
    + cbn. rewrite E2, E3, (wrapu_small 64 (highest seen)), wrapu_small, !wraps_small by lia.
      apply triple_eq; lia.
    + cbn. rewrite E2, E3, wraps_small by lia. apply triple_eq; lia.
  - rewrite (proj2 (Z.ltb_lt n (highest seen))) by lia. cbn. rewrite E2. destruct (Z.ltb_spec 0 (highest seen - zlen seen)); [|lia].
    cbn. rewrite E1, E3, wraps_small by lia. apply triple_eq; lia.
Qed.

Section Receiving.
Context (counters64 : bool) (arrivals : nat -> nat -> iperf_time) (others : nat -> nat -> list double).
Context (test : iperf_test).

(** The datagrams of a stream, one per call. *)
Fixpoint receive_all (packets : list (list Z)) (k : nat) (sp : iperf_stream) : outcome iperf_stream :=
  match packets with
  | [] => Ret sp
  | packet :: packets =>
      match iperf_udp_recv counters64 (arrivals k) (others k) test (zlen packet) packet sp with
      | Ret (_, sp) => receive_all packets (S k) sp
      | UB => UB
      | OutOfFuel => OutOfFuel
      end
  end.

(** A call with any datagram returns: it reads only what was received. *)
Lemma datagram_loop_returns clock other dgram_sz fuel : 0 < dgram_sz -> forall buffer off buf_sz first k sp, buf_sz <= Z.of_nat fuel ->
  0 <= off -> off + buf_sz <= zlen buffer -> exists sp', datagram_loop counters64 clock other fuel dgram_sz buffer off buf_sz first k sp = Ret sp' /\ result sp' = result sp.
Proof.
  intros Hd. induction fuel as [|fuel IH]; intros buffer off buf_sz first k sp Hf Ho Hb; cbn [datagram_loop].
  all: destruct (Z.ltb_spec buf_sz dgram_sz); [by eexists|].
  1: lia.
  unfold min_pkt_size.
  destruct (Z.ltb_spec buf_sz 12); [by eexists|]. destruct (counters64 && (buf_sz <? 16)) eqn:E16; [by eexists|].
  destruct (header_at counters64 buffer off) as [[t n]|] eqn:Eh.
  - edestruct IH as (sp' & E & Er); [| | |rewrite E; eexists; split; [done|]]; [lia..|]. etransitivity; [exact Er|].
    unfold measure_jitter, count_datagram. repeat case_match; done.
  - exfalso. unfold header_at, load_bytes in Eh. rewrite !(proj2 (Z.leb_le _ _)) in Eh; [done|..]; destruct counters64; cbn [andb] in E16; try apply Z.ltb_ge in E16; lia.
Qed.

(** Whatever a datagram holds, the call reads only the [r] bytes that were
    received, returns, and adds them to the total exactly while the test runs. *)
Theorem udp_recv_returns clock other r buffer sp : r <= zlen buffer ->
  exists r' sp', iperf_udp_recv counters64 clock other test r buffer sp = Ret (r', sp') /\ r' <= Z.max 0 r /\
    bytes_received (result sp') = (if (0 <? r') && (state test =? TEST_RUNNING) then u64 (bytes_received (result sp) + r') else bytes_received (result sp)).
Proof.
  intros Hb. unfold iperf_udp_recv. set (r1 := if negb _ then _ else r). assert (r1 = NET_HARDERROR \/ r1 = r) as Hr1 by (unfold r1; destruct (negb _); auto).
  assert (r1 <= Z.max 0 r) by (unfold NET_HARDERROR in Hr1; lia). cbv zeta.
  destruct (Z.leb_spec r1 0). { exists r1, sp. by rewrite (proj2 (Z.ltb_ge 0 r1)) by lia. }
  destruct (Z.leb_spec (blksize (settings test)) 0). { exists (-1), sp. split_and!; [done|lia|done]. }
  destruct (state test =? TEST_RUNNING); [|exists r1, sp; by rewrite andb_false_r].
  destruct Hr1 as [Hr1| ->]; [unfold NET_HARDERROR in Hr1; lia|].
  edestruct datagram_loop_returns as (sp' & E & Er); [| | | |rewrite E; exists r, sp'; split_and!; [done|lia|]]; [lia..|].
  rewrite Er, (proj2 (Z.ltb_lt 0 r)) by lia. done.
Qed.

(** A buffer that is one datagram. *)
Lemma datagram_loop_one clock other dgram_sz fuel buffer first k sp t n : header_at counters64 buffer 0 = Some (t, n) ->
  (if counters64 then 16 else 12) <= dgram_sz -> (0 < fuel)%nat ->
  datagram_loop counters64 clock other fuel dgram_sz buffer 0 dgram_sz first k sp = Ret (measure_jitter first t (clock k) (other k) (count_datagram n sp)).
Proof.
  intros Eh Hd Hf. destruct fuel as [|fuel]; [lia|]. cbn [datagram_loop]. unfold min_pkt_size.
  rewrite !(proj2 (Z.ltb_ge _ _)) by (destruct counters64; lia).
  assert (counters64 && (dgram_sz <? 16) = false) as -> by (destruct counters64; [|done]; cbn [andb]; apply Z.ltb_ge; lia).
  rewrite Eh. cbv zeta. rewrite Z.sub_diag. destruct fuel; cbn [datagram_loop]; rewrite (proj2 (Z.ltb_lt 0 dgram_sz)) by (destruct counters64; lia); done.
Qed.

Lemma measure_jitter_keeps first t arrival other sp :
  counts (measure_jitter first t arrival other sp) = counts sp /\ result (measure_jitter first t arrival other sp) = result sp.
Proof. unfold measure_jitter. by destruct first. Qed.

Lemma count_datagram_keeps n sp : result (count_datagram n sp) = result sp.
Proof. unfold count_datagram. cbv zeta. by repeat case_match. Qed.

(** A datagram of the negotiated size with the number [n]. *)
Definition datagram_of (packet : list Z) (n : Z) : Prop :=
  zlen packet = blksize (settings test) /\ exists t, header_at counters64 packet 0 = Some (t, n).

Hypothesis running : state test = TEST_RUNNING.
Hypothesis no_gro : gro (settings test) = 0.
Hypothesis header_fits : (if counters64 then 16 else 12) <= blksize (settings test).

Lemma recv_datagram clock other packet n sp : datagram_of packet n ->
  exists sp', iperf_udp_recv counters64 clock other test (zlen packet) packet sp = Ret (zlen packet, sp') /\
    counts sp' = counts (count_datagram n sp) /\
    bytes_received (result sp') = u64 (bytes_received (result sp) + blksize (settings test)).
Proof.
  intros [El [t Eh]]. unfold iperf_udp_recv. rewrite no_gro, running, El. change (negb (0 =? 0)) with false. change (TEST_RUNNING =? TEST_RUNNING) with true. cbv iota.
  rewrite !(proj2 (Z.leb_gt _ _)) by (destruct counters64; lia). cbv zeta.
  rewrite (datagram_loop_one _ _ _ _ _ _ _ _ t n) by (done || destruct counters64; lia).
  eexists. split; [done|]. destruct (measure_jitter_keeps (bytes_received (result sp) =? 0) t (clock 0%nat) (other 0%nat)
    (count_datagram n (update result (fun x => x <| bytes_received := u64 (bytes_received x + blksize (settings test)) |>
       <| bytes_received_this_interval := u64 (bytes_received_this_interval x + blksize (settings test)) |>) sp))) as [-> ->].
  rewrite count_datagram_keeps. split; [|done]. unfold count_datagram, counts. cbv zeta. cbn. by repeat case_match.
Qed.

Lemma receive_all_counts : forall packets seqs seen k sp ooo, Forall2 datagram_of packets seqs ->
  NoDup (seen ++ seqs) -> Forall (fun n => 1 <= n < 2 ^ 63) (seen ++ seqs) ->
  0 <= ooo <= zlen seen -> counts sp = (highest seen, highest seen - zlen seen, ooo) -> 0 <= bytes_received (result sp) < 2 ^ 64 ->
  exists sp', receive_all packets k sp = Ret sp' /\
    counts sp' = (highest (seen ++ seqs), highest (seen ++ seqs) - zlen (seen ++ seqs), ooo + late (highest seen) seqs) /\
    bytes_received (result sp') = u64 (bytes_received (result sp) + zlen seqs * blksize (settings test)).
Proof.
  induction packets as [|packet packets IH]; intros seqs seen k sp ooo Hp Hnd Hr Ho Hc Hb; inversion Hp as [|? n ? seqs' Hn Hp']; subst.
  - exists sp. rewrite app_nil_r, Hc. cbn [late]. change (zlen (@nil Z)) with 0. rewrite wrapu_small by lia. split_and!; [done|by rewrite Z.add_0_r|lia].
  - destruct (recv_datagram (arrivals k) (others k) _ _ sp Hn) as (sp1 & E & Hc1 & Hb1). cbn [receive_all]. rewrite E.
    assert (NoDup ((seen ++ [n]) ++ seqs') /\ Forall (fun n => 1 <= n < 2 ^ 63) ((seen ++ [n]) ++ seqs')) as [Hnd1 Hr1] by (by rewrite <- app_assoc).
    pose proof (NoDup_app (seen ++ [n]) seqs') as Hsplit. apply Hsplit in Hnd1 as Hnd2. destruct Hnd2 as [Hnd2 _]. apply Forall_app in Hr1 as Hr2. destruct Hr2 as [Hr2 _].
    rewrite (count_datagram_spec seen n sp ooo) in Hc1 by done.
    assert (0 <= ooo + (if n <? highest seen then 1 else 0) <= zlen (seen ++ [n])) as Ho1 by (rewrite zlen_app; change (zlen [n]) with 1; case_match; lia).
    destruct (IH seqs' (seen ++ [n]) (S k) sp1 _ Hp' Hnd1 Hr1 Ho1 Hc1) as (sp' & E' & Hc' & Hb').
    { rewrite Hb1. apply wrapu_range. lia. }
    assert (highest (seen ++ [n]) = Z.max (highest seen) n) as Eh.
    { rewrite highest_app. change (highest [n]) with (Z.max n 0). apply Forall_app in Hr2 as [_ Hn1]. inversion Hn1; subst. lia. }
    exists sp'. split; [done|]. rewrite Hc', Hb', Hb1, Eh, <- app_assoc. cbn [app late]. split; [apply triple_eq; lia|].
    unfold wrapu. rewrite Z.add_mod_idemp_l by lia. f_equal. rewrite zlen_cons. lia.
Qed.

(** C38: when every datagram of a stream arrives at most once, in whatever order
    and with whatever losses, the counters are exact: the highest number seen, the
    number of datagrams missing below it, the number that arrived after a higher
    one, and the bytes. *)
Theorem udp_loss_exact packets seqs k sp :
  Forall2 datagram_of packets seqs -> NoDup seqs -> Forall (fun n => 1 <= n < 2 ^ 63) seqs ->
  counts sp = (0, 0, 0) -> 0 <= bytes_received (result sp) < 2 ^ 64 ->
  exists sp', receive_all packets k sp = Ret sp' /\
    packet_count sp' = highest seqs /\ cnt_error sp' = highest seqs - zlen seqs /\ outoforder_packets sp' = late 0 seqs /\
    bytes_received (result sp') = u64 (bytes_received (result sp) + zlen seqs * blksize (settings test)).
Proof.
  intros Hp Hnd Hr Hc Hb. destruct (receive_all_counts packets seqs [] k sp 0 Hp Hnd Hr) as (sp' & E & [= E1 E2 E3] & Hb'); [done..|].
  exists sp'. done.
Qed.
End Receiving.

(** A running UDP test with datagrams of 16 bytes, and a stream of it. *)
Definition small_udp_test : iperf_test := (iperf_new_test <| state := TEST_RUNNING |>) <|s blksize := 16 |>.
Definition new_stream : iperf_stream :=
  zero_stream <| id := 1 |>.

Lemma udp_recv_returns_witness :
  exists r' sp', iperf_udp_recv true (fun _ => mk_time 9 0) (fun _ => []) small_udp_test 16 (repeat 255 16) new_stream = Ret (r', sp') /\ r' <= Z.max 0 16 /\
    bytes_received (result sp') = (if (0 <? r') && (state small_udp_test =? TEST_RUNNING) then u64 (0 + r') else 0).
Proof. apply (udp_recv_returns true small_udp_test (fun _ => mk_time 9 0) (fun _ => []) 16 (repeat 255 16) new_stream). done. Defined.

Lemma udp_loss_exact_witness :
  exists sp', receive_all true (fun _ _ => mk_time 9 0) (fun _ _ => []) small_udp_test (header true (mk_time 7 0) <$> [2; 1; 5]) 0 new_stream = Ret sp' /\
    packet_count sp' = 5 /\ cnt_error sp' = 5 - 3 /\ outoforder_packets sp' = 1 /\ bytes_received (result sp') = u64 (0 + 3 * 16).
Proof.
  apply (udp_loss_exact true (fun _ _ => mk_time 9 0) (fun _ _ => []) small_udp_test eq_refl eq_refl ltac:(done) (header true (mk_time 7 0) <$> [2; 1; 5]) [2; 1; 5] 0%nat new_stream).
  - repeat constructor; exists (mk_time 7 0); reflexivity.
  - by apply (bool_decide_unpack _).
  - repeat constructor; done.
  - reflexivity.
  - split; done.
Defined.
