(* ===== verification/ScannerRoot.v ===== *)
(** * The bounded result reader as a whole

    The abstract contract of [iperf_read_bounded_results]: a frame is an object
    whose members are split into the core document and the optional server
    output.  [root] is shown to accept only such frames and to build exactly the
    core document and output that the contract names, within its limits. *)

From S2P Require Import Prelude Bytes JsonGrammar CJson BoundedOutput ScannerSpec.
Import Scanner.
Local Open Scope c_scope.
#[local] Opaque IPERF_OUTPUT_MAX_BYTES IPERF_RESULT_CORE_MAX_BYTES
  IPERF_RESULT_CORE_MAX_VALUES IPERF_RESULT_MAX_VALUES.

(** ** The contract *)

(** A member of the root object: the bytes of its decoded key, its value on the
    wire and in compact form. *)
Record root_entry := mk_member { m_key : list Z; m_text : list Z; m_compact : list Z }.

Definition is_json (m : root_entry) : bool := strcaseeq (m_key m) key_json.
Definition is_text (m : root_entry) : bool := strcaseeq (m_key m) key_text.
Definition is_core (m : root_entry) : bool := negb (is_json m || is_text m).

(** The text of one member, between commas. *)
Inductive jmember : list Z -> root_entry -> Prop :=
| jmember_intro w1 k w2 w3 v w4 vs e :
    blanks w1 -> blanks w2 -> blanks w3 -> blanks w4 ->
    jstr k vs -> Forall (fun v => v <> 0) vs -> zlen (concat (utf8_encode <$> vs)) <= 127 ->
    jval 64 v e ->
    jmember (w1 ++ k ++ w2 ++ c_colon :: w3 ++ v ++ w4) (mk_member (concat (utf8_encode <$> vs)) v e).

Inductive jmembers : list Z -> list root_entry -> Prop :=
| jmembers_one c m : jmember c m -> jmembers c [m]
| jmembers_more c m cs ms : jmember c m -> jmembers cs ms -> jmembers (c ++ c_comma :: cs) (m :: ms).

(** No two members have the same key among those the filter interprets. *)
Definition unique_members (ms : list root_entry) : Prop :=
  forall u, u ∈ unique_keys -> (length (filter (fun m => strcaseeq (m_key m) u = true) ms) <= 1)%nat.

Inductive jframe : list Z -> list root_entry -> Prop :=
| jframe_empty w1 w2 w3 :
    blanks w1 -> blanks w2 -> blanks w3 -> jframe (w1 ++ c_lbrace :: w2 ++ c_rbrace :: w3) []
| jframe_members w1 cs ms w2 :
    blanks w1 -> jmembers cs ms -> blanks w2 -> unique_members ms ->
    jframe (w1 ++ c_lbrace :: cs ++ c_rbrace :: w2) ms.

(** The core document. *)
Definition quote_key (k : list Z) : list Z := c_quote :: concat (escape_key_byte <$> cstr k) ++ [c_quote; c_colon].

Definition core_item (m : root_entry) : list Z := quote_key (m_key m) ++ m_compact m.

Fixpoint join (l : list (list Z)) : list Z :=
  match l with
  | [] => []
  | [x] => x
  | x :: l => x ++ c_comma :: join l
  end.

Definition core_items (ms : list root_entry) : list Z := join (core_item <$> filter (fun m => is_core m = true) ms).
Definition core_doc (ms : list root_entry) : list Z := c_lbrace :: core_items ms ++ [c_rbrace].

(** The optional output: JSON takes precedence over text. *)
Definition fresh (f : iperf_output_format) (lim : Z) : iperf_server_output :=
  mk_output (Some (mk_cbuf (lim + 1) [])) 0 0 IPERF_OUTPUT_COMPLETE f IPERF_OUTPUT_REASON_NONE 1.

Definition invalid_type (f : iperf_output_format) : iperf_server_output :=
  mk_output None 0 0 IPERF_OUTPUT_INVALID f IPERF_OUTPUT_INVALID_DATA 0.

Definition json_output (lim : Z) (m : root_entry) (o : iperf_server_output) : Prop :=
  if decide (head (m_text m) = Some c_lbrace)
  then json_grows lim (m_compact m) (fresh IPERF_OUTPUT_JSON lim) o
  else o = invalid_type IPERF_OUTPUT_JSON.

Definition text_output (lim : Z) (m : root_entry) (o : iperf_server_output) : Prop :=
  if decide (head (m_text m) = Some c_quote)
  then exists vs, jstr (m_text m) vs /\ o = deliver lim vs (fresh IPERF_OUTPUT_TEXT lim)
  else o = invalid_type IPERF_OUTPUT_TEXT.

Definition frame_output (lim : Z) (ms : list root_entry) (o0 o : iperf_server_output) : Prop :=
  match List.find is_json ms with
  | Some m => json_output lim m o
  | None =>
      match List.find is_text ms with
      | Some m => text_output lim m o
      | None => o = o0
      end
  end.

(** ** Facts about the contract *)

Lemma join_snoc l x : join (l ++ [x]) = if decide (l = []) then x else join l ++ c_comma :: x.
Proof.
  induction l as [|y l IH]; [done|]. rewrite decide_False by done.
  destruct l as [|z l]; [done|]. rewrite decide_False in IH by done.
  change ((y :: z :: l) ++ [x]) with (y :: ((z :: l) ++ [x])).
  transitivity (y ++ c_comma :: join ((z :: l) ++ [x])); [done|]. rewrite IH. simpl.
  by rewrite <- app_assoc.
Qed.

Definition core_count (ms : list root_entry) : Z := zlen (filter (fun m => is_core m = true) ms).

Lemma core_items_snoc ms m :
  core_items (ms ++ [m]) =
  if is_core m then core_items ms ++ (if core_count ms =? 0 then [] else [c_comma]) ++ core_item m
  else core_items ms.
Proof.
  unfold core_items, core_count. rewrite filter_app, fmap_app. unfold filter at 2, list_filter at 2.
  destruct (is_core m) eqn:E; simpl; [rewrite join_snoc|by rewrite app_nil_r].
  destruct (filter (fun m => is_core m = true) ms) as [|x l]; [done|]. rewrite decide_False by done.
  destruct (Z.eqb_spec (zlen (x :: l)) 0) as [H|]; [|done].
  rewrite zlen_cons in H. pose proof (zlen_nonneg l). lia.
Qed.

Lemma core_count_snoc ms m :
  core_count (ms ++ [m]) = if is_json m || is_text m then core_count ms else core_count ms + 1.
Proof.
  unfold core_count. rewrite filter_app, zlen_app. unfold filter at 2, list_filter at 2. unfold is_core.
  destruct (is_json m || is_text m); simpl; autorewrite with zlen; lia.
Qed.

Lemma find_snoc {A} (f : A -> bool) l x :
  List.find f (l ++ [x]) = match List.find f l with Some y => Some y | None => if f x then Some x else None end.
Proof. induction l as [|y l IH]; simpl; [done|]. by destruct (f y). Qed.

Lemma find_existsb {A} (f : A -> bool) l :
  List.find f l = None <-> existsb f l = false.
Proof. induction l as [|y l IH]; simpl; [done|]. by destruct (f y). Qed.

(** ** Duplicate keys *)

Lemma testbit_set seen i n : 0 <= i -> 0 <= n ->
  Z.testbit (Z.lor seen (Z.shiftl 1 i)) n = Z.testbit seen n || (n =? i).
Proof.
  intros Hi Hn. rewrite Z.lor_spec, Z.shiftl_1_l. f_equal. destruct (Z.eqb_spec n i) as [->|H].
  - by apply Z.pow2_bits_true.
  - by apply Z.pow2_bits_false; auto.
Qed.

Lemma mark_seen_spec unique i k seen seen' :
  0 <= i -> mark_seen unique i k seen = Some seen' ->
  (forall n, 0 <= n < i -> Z.testbit seen' n = Z.testbit seen n) /\
  (forall j u, unique !! j = Some u ->
     Z.testbit seen' (i + Z.of_nat j) = Z.testbit seen (i + Z.of_nat j) || strcaseeq k u /\
     (strcaseeq k u = true -> Z.testbit seen (i + Z.of_nat j) = false)).
Proof.
  revert i seen. induction unique as [|u unique IH]; intros i seen Hi H; simpl in H.
  { simplify_eq. done. }
  destruct (strcaseeq k u) eqn:Ek.
  - destruct (Z.testbit seen i) eqn:Eb; [done|]. destruct (IH (i + 1) _ ltac:(lia) H) as [H1 H2]. split.
    + intros n Hn. rewrite H1, testbit_set by lia.
      rewrite (proj2 (Z.eqb_neq n i)) by lia. by rewrite orb_false_r.
    + intros [|j] v Hv; simpl in Hv.
      * simplify_eq. rewrite Nat2Z.inj_0, Z.add_0_r, H1, testbit_set, Z.eqb_refl, Ek by lia.
        split; [by rewrite !orb_true_r|done].
      * replace (i + Z.of_nat (S j)) with (i + 1 + Z.of_nat j) by lia.
        destruct (H2 j v Hv) as [H3 H4]. rewrite testbit_set in H3, H4 by lia.
        rewrite (proj2 (Z.eqb_neq (i + 1 + Z.of_nat j) i)), orb_false_r in H3, H4 by lia. done.
  - destruct (IH (i + 1) _ ltac:(lia) H) as [H1 H2]. split.
    + intros n Hn. by rewrite H1 by lia.
    + intros [|j] v Hv; simpl in Hv.
      * simplify_eq. rewrite Nat2Z.inj_0, Z.add_0_r, H1, Ek by lia. split; [by rewrite orb_false_r|done].
      * replace (i + Z.of_nat (S j)) with (i + 1 + Z.of_nat j) by lia. by apply H2.
Qed.

(** The bits of [seen] after the members [ms]. *)
Definition seen_ok (ms : list root_entry) (seen : Z) : Prop :=
  forall j u, unique_keys !! j = Some u ->
    Z.testbit seen (Z.of_nat j) = existsb (fun m => strcaseeq (m_key m) u) ms.

Lemma seen_ok_nil : seen_ok [] 0.
Proof. intros j u _. by rewrite Z.testbit_0_l. Qed.

Lemma seen_snoc ms seen seen' m :
  seen_ok ms seen -> mark_seen unique_keys 0 (m_key m) seen = Some seen' ->
  seen_ok (ms ++ [m]) seen' /\
  (forall u, u ∈ unique_keys -> strcaseeq (m_key m) u = true ->
     existsb (fun m => strcaseeq (m_key m) u) ms = false).
Proof.
  intros Hs Hm. destruct (mark_seen_spec unique_keys 0 (m_key m) seen seen' ltac:(lia) Hm) as [_ H]. split.
  - intros j u Hj. destruct (H j u Hj) as [H1 _]. rewrite !Z.add_0_l in H1. rewrite H1, (Hs j u Hj), existsb_app. simpl.
    by rewrite orb_false_r.
  - intros u Hu E. apply list_elem_of_lookup_1 in Hu as [j Hj]. destruct (H j u Hj) as [_ H2]. rewrite Z.add_0_l in H2.
    rewrite <- (Hs j u Hj). by apply H2.
Qed.

Lemma unique_snoc ms m :
  unique_members ms ->
  (forall u, u ∈ unique_keys -> strcaseeq (m_key m) u = true ->
     existsb (fun m => strcaseeq (m_key m) u) ms = false) ->
  unique_members (ms ++ [m]).
Proof.
  intros Hu Hn u Hin. rewrite filter_app, length_app. unfold filter at 2, list_filter at 2.
  destruct (decide (strcaseeq (m_key m) u = true)) as [E|E]; simpl; [|specialize (Hu u Hin); lia].
  specialize (Hn u Hin E). assert (filter (fun m => strcaseeq (m_key m) u = true) ms = []) as ->; [|done].
  clear -Hn. induction ms as [|y ms IH]; [done|]. simpl in Hn. apply orb_false_iff in Hn as [H1 H2].
  rewrite filter_cons_False by congruence. auto.
Qed.

Section Root.
Context {Ctx : Type} (read : Ctx -> Z -> read_result Ctx) (stream_of : Ctx -> list Z).
Context `{!StreamReader read stream_of}.
Context (frame : framing Ctx) `{!FrameOk read frame}.

#[local] Abbreviation parser := (@parser Ctx).
#[local] Abbreviation PM := (@PM Ctx).
#[local] Abbreviation inv := (@inv Ctx stream_of frame).
#[local] Abbreviation step := (@step Ctx stream_of frame).
#[local] Abbreviation done := (@done Ctx stream_of).
#[local] Abbreviation stream := (@stream Ctx stream_of).
#[local] Abbreviation result := (@result Ctx stream_of frame).

(** ** Steps that change the capture mode *)

Record rstep (p p' : parser) : Prop := {
  r_inv : inv p';
  r_left : read_budget p' <= read_budget p;
  r_limit : limit p' = limit p;
  r_error : error p <> 0 -> error p' = error p }.

Lemma rstep_refl p : inv p -> rstep p p.
Proof. by split. Qed.

Lemma rstep_step p p1 p2 : rstep p p1 -> step p1 p2 -> rstep p p2.
Proof.
  intros [] []. split; [done|lia|congruence|]. intros H. rewrite <- r_error0 by done.
  apply s_error. by rewrite r_error0.
Qed.

Lemma rstep_capture p p1 x : rstep p p1 -> rstep p (set_capture x p1).
Proof. intros [[] ? ? ?]. split; [by split|done..]. Qed.

(** An error, or: [c] was consumed since [p0], the core document holds [K] and
    the output satisfies [O]. *)
Definition reached (p0 : parser) (c K : list Z) (O : iperf_server_output -> Prop) (p : parser) : Prop :=
  rstep p0 p /\
  (error p <> 0 \/ stream p0 = c ++ stream p /\ error p = 0 /\ data (core p) = K /\ O (output p)).

(** The change of the output by bytes [e] and scalars [t]. *)
Definition output_change (x : capture_mode) (lim : Z) (e t : list Z) (O : iperf_server_output -> Prop)
    (o' : iperf_server_output) : Prop :=
  exists o, O o /\ (x <> OUTPUT_JSON -> o' = deliver lim t o) /\ (x = OUTPUT_JSON -> json_grows lim e o o').

Lemma reached_done p0 c K O p c' e t p' :
  reached p0 c K O p -> step p p' -> done p c' e t p' ->
  reached p0 (c ++ c') (K ++ if decide (capture p = CORE) then e else [])
    (output_change (capture p) (limit p0) e t O) p'.
Proof.
  intros [R H] S D. pose proof (rstep_step _ _ _ R S) as R'. split; [done|].
  destruct H as [H|(Hs & He & Hk & Ho)]; [by destruct H; eapply done_error_before|]. right.
  destruct D as [Ds (Dc & Dt & Dj) De Dl]. split; [by rewrite Hs, Ds, app_assoc|]. split; [done|].
  split; [by rewrite Dc, Hk|]. exists (output p). rewrite <- (r_limit _ _ R). auto.
Qed.

Lemma reached_mono p0 c K O c' K' (O' : iperf_server_output -> Prop) p :
  reached p0 c K O p -> c' = c -> K' = K -> (forall o, O o -> O' o) -> reached p0 c' K' O' p.
Proof. intros [R H] -> -> HO. split; [done|]. destruct H as [|(? & ? & ? & ?)]; [by left|right; auto]. Qed.

(** While the scanner discards, nothing changes but the position. *)
Lemma reached_discard p0 c K O p c' e p' :
  reached p0 c K O p -> capture p = DISCARD -> step p p' -> done p c' e [] p' ->
  reached p0 (c ++ c') K O p'.
Proof.
  intros H Hc S D. eapply reached_mono; [by eapply reached_done|done| |].
  - by rewrite decide_False, app_nil_r by congruence.
  - intros o' (o & Ho & E & _). by rewrite E by congruence.
Qed.

Lemma reached_capture p0 c K O p x : reached p0 c K O p -> reached p0 c K O (set_capture x p).
Proof. intros [R H]. split; [by apply rstep_capture|done]. Qed.

Lemma reached_seq {A} p0 c K O p (m : PM bool) (k : PM A) G Q (f : A) :
  reached p0 c K O p -> wp m (result p G) p ->
  (forall p', rstep p0 p' -> error p' <> 0 -> Q f p') ->
  (forall p' c' e t, step p p' -> done p c' e t p' -> G c' e t ->
     reached p0 (c ++ c') (K ++ if decide (capture p = CORE) then e else [])
       (output_change (capture p) (limit p0) e t O) p' -> wp k Q p') ->
  wp (ok <- m ;; if negb ok then ret f else k) Q p.
Proof.
  intros H Hm Hf Hk. eapply (wp_seq stream_of frame); [exact Hm| |].
  - intros p' S E. apply Hf; [|done]. destruct H. by eapply rstep_step.
  - intros p' c' e t S D HG. eapply Hk; [done..|]. by eapply reached_done.
Qed.

(** [expect] while discarding. *)
Lemma reached_expect {A} p0 c K O p x (k : PM A) Q (f : A) :
  reached p0 c K O p -> capture p = DISCARD -> 0 <= x ->
  (forall p', rstep p0 p' -> error p' <> 0 -> Q f p') ->
  (forall p', reached p0 (c ++ [x]) K O p' -> capture p' = DISCARD -> error p' = 0 ->
     read_budget p' + 1 <= read_budget p -> wp k Q p') ->
  wp (ok <- expect read x ;; if negb ok then ret f else k) Q p.
Proof.
  intros H Hc Hx Hf Hk. eapply (wp_seq stream_of frame); [apply (expect_spec read stream_of frame); [by destruct H as [[] _]|done]| |].
  - intros p' S E. apply Hf; [|done]. destruct H. by eapply rstep_step.
  - intros p' c' e t S D (-> & -> & ->). apply Hk.
    + by eapply reached_discard.
    + by rewrite (s_capture S).
    + apply (d_error D).
    + pose proof (d_left D) as E. autorewrite with zlen in E. lia.
Qed.

Lemma reached_whitespace {A} p0 c K O p fuel (k : PM A) Q :
  reached p0 c K O p -> capture p = DISCARD -> read_budget p < Z.of_nat fuel ->
  (forall p' w, reached p0 (c ++ w) K O p' -> capture p' = DISCARD -> blanks w ->
     read_budget p' <= read_budget p -> (error p' = 0 -> settled stream_of p') -> wp k Q p') ->
  wp (whitespace read fuel ;;; k) Q p.
Proof.
  intros H Hc Hf Hk. pose proof H as [R _]. wp_step.
  eapply wp_mono; [by apply (whitespace_spec read stream_of frame); [apply (r_inv _ _ R)|]|]. intros _ p' [S H'].
  pose proof (s_left S). destruct H' as [E|(w & Hw & D & Hn)].
  - apply (Hk p' []); [|by rewrite (s_capture S)|constructor|done|done]. split; [by eapply rstep_step|by left].
  - apply (Hk p' w); [by eapply reached_discard|by rewrite (s_capture S)|done..].
Qed.

(** What [peek] returns says nothing after an error. *)
Lemma reached_peek {A} p0 c K O p (k : Z -> PM A) Q :
  reached p0 c K O p -> capture p = DISCARD ->
  (forall p' x, reached p0 c K O p' -> capture p' = DISCARD -> read_budget p' <= read_budget p ->
     (0 <= x -> ready p' x) -> (x < 0 -> error p' = 0 -> read_budget p' = 0) -> wp (k x) Q p') ->
  wp (x <- peek read ;; k x) Q p.
Proof.
  intros H Hc Hk. pose proof H as [R HR]. wp_step.
  eapply wp_mono; [by apply (peek_spec read stream_of frame), (r_inv _ _ R)|]. intros x p' [S H']. pose proof (s_left S) as L.
  assert (capture p' = DISCARD) as Hc' by (by rewrite (s_capture S)).
  destruct H' as [[-> E]|[(-> & D & Hl)|(Hb & D & Hr)]].
  - apply Hk; try done. split; [by eapply rstep_step|by left].
  - apply Hk; try done. rewrite <- (app_nil_r c). by eapply reached_discard.
  - apply Hk; try done; [|by destruct Hb; lia]. rewrite <- (app_nil_r c). by eapply reached_discard.
Qed.

(** ** The core document *)

(** Bytes emitted without reading, possibly after an error. *)
Definition emits (l : list Z) (c e : list Z) : Prop := c = [] /\ e = l.

#[local] Abbreviation flagged := (@flagged Ctx stream_of frame).

Lemma sofar_refl p : inv p -> sofar stream_of frame p [] [] p.
Proof.
  intros I. split; [by apply step_refl|]. destruct (Z.eq_dec (error p) 0); [right|by left].
  by apply done_refl.
Qed.

Lemma emits_nil p : inv p -> wp (ret true) (flagged p (emits [])) p.
Proof.
  intros I. wp_step. split; [by apply step_refl|]. right. split; [done|]. exists [], [].
  split; [by apply sofar_refl|done].
Qed.

Lemma emits_app p (m k : PM bool) l1 l2 :
  wp m (flagged p (emits l1)) p ->
  (forall p', step p p' -> wp k (flagged p' (emits l2)) p') ->
  wp (ok <- m ;; if negb ok then ret false else k) (flagged p (emits (l1 ++ l2))) p.
Proof.
  intros Hm Hk. wp_step. eapply wp_mono; [exact Hm|].
  intros ok p1 [S [[-> E]|(-> & ? & ? & [_ H1] & -> & ->)]]; cbn [negb].
  { wp_step. split; [done|by left]. }
  eapply wp_mono; [by apply Hk|]. intros ok p2 [S2 H2]. pose proof (step_trans _ _ _ _ _ S S2) as S12.
  split; [done|]. destruct H2 as [|(-> & ? & ? & [_ H2] & -> & ->)]; [by left|]. right. split; [done|].
  exists [], (l1 ++ l2). split; [|done]. split; [done|].
  destruct H2 as [|D2]; [by left|]. destruct H1 as [E1|D1]; [left; by apply (step_error _ _ _ _ S2)|right].
  exact (done_trans stream_of frame p p1 p2 [] [] l1 l2 [] [] S D1 D2).
Qed.

Lemma emit_emits c p : inv p -> capture p = CORE -> wp (emit c) (flagged p (emits [c])) p.
Proof.
  intros I Hc. destruct (Z.eq_dec (error p) 0) as [He|He].
  - eapply wp_mono; [by apply (emit_spec stream_of frame)|]. intros ok p' [S H]. split; [done|].
    destruct H as [|(-> & ? & ? & ? & D & -> & -> & ->)]; [by left|]. right. split; [done|].
    exists [], [c]. split; [|done]. by split; [|right].
  - unfold emit. wp_step. wp_step. rewrite Hc.
    destruct (Z.eqb_spec (core_length p) IPERF_RESULT_CORE_MAX_BYTES) as [E|E].
    { eapply wp_mono; [by apply (fail_spec stream_of frame)|]. intros ok p' (S & -> & H). by split; [|left]. }
    assert (core_length p < IPERF_RESULT_CORE_MAX_BYTES) as Hl by (pose proof (i_core_max _ _ _ I); lia).
    wp_step. unfold append_core, wp. rewrite <- (i_core _ _ _ I), buf_poke_push
      by (rewrite (i_core _ _ _ I), (i_core_cap _ _ _ I); lia).
    match goal with |- context [set_core ?b ?l p] => assert (step p (set_core b l p)) as S end.
    { split; [|unfold read_budget; simpl; lia|done..]. destruct I. split; simpl; try done; [|lia].
      autorewrite with zlen. lia. }
    split; [done|]. right. split; [done|]. exists [], [c]. split; [|done]. by split; [|left].
Qed.

Lemma emit_all_spec l p : inv p -> capture p = CORE -> wp (emit_all l) (flagged p (emits l)) p.
Proof.
  revert p. induction l as [|c l IH]; intros p I Hc; simpl; [by apply emits_nil|].
  apply (emits_app p _ _ [c] l); [by apply emit_emits|]. intros p' S.
  apply IH; [apply (s_inv S)|by rewrite (s_capture S)].
Qed.

Lemma core_key_loop_spec k p : inv p -> capture p = CORE ->
  wp (core_key_loop k) (flagged p (emits (concat (escape_key_byte <$> k)))) p.
Proof.
  revert p. induction k as [|c k IH]; intros p I Hc; simpl; [by apply emits_nil|].
  apply emits_app; [by apply emit_all_spec|]. intros p' S.
  apply IH; [apply (s_inv S)|by rewrite (s_capture S)].
Qed.

Lemma core_key_spec k p : inv p -> capture p = CORE -> wp (core_key k) (flagged p (emits (quote_key k))) p.
Proof.
  intros I Hc. unfold core_key, quote_key.
  apply (emits_app p _ _ [c_quote]); [by apply emit_emits|]. intros p1 S1.
  rewrite <- (s_capture S1) in Hc.
  apply emits_app; [by apply core_key_loop_spec; [apply (s_inv S1)|]|]. intros p2 S2.
  rewrite <- (s_capture S2) in Hc.
  apply (emits_app p2 _ _ [c_quote] [c_colon]); [by apply emit_emits; [apply (s_inv S2)|]|]. intros p3 S3.
  rewrite <- (s_capture S3) in Hc. by apply emit_emits; [apply (s_inv S3)|].
Qed.

Lemma value_root_spec fuel dest p : inv p -> read_budget p < Z.of_nat fuel -> dest_ok dest p ->
  wp (value read max_levels fuel 1 dest) (result p (value_post dest 64)) p.
Proof. intros. by apply (value_spec read stream_of frame max_levels fuel 1 dest). Qed.

(** What reading the value of a member guarantees: on success, the value [v]
    with its compact form [e] was consumed, and [Post] holds. *)
Definition member_post (p : parser) (Post : list Z -> list Z -> list Z -> parser -> Prop)
    (ok : bool) (p' : parser) : Prop :=
  rstep p p' /\
  (ok = false /\ error p' <> 0 \/
   ok = true /\ error p' = 0 /\ error p = 0 /\
     exists w v e, blanks w /\ jval 64 v e /\ stream p = (w ++ v) ++ stream p' /\ Post w v e p').

Lemma rstep_of_capture p x p' : inv p -> step (set_capture x p) p' -> rstep p p'.
Proof. intros I S. eapply rstep_step; [|exact S]. by apply rstep_capture, rstep_refl. Qed.

(** The value of a measurement field goes to the core document. *)
Lemma core_member_spec fuel k n p : inv p -> read_budget p < Z.of_nat fuel ->
  wp (core_member read fuel k n) (member_post p (fun _ _ e p' =>
    data (core p') = data (core p) ++ (if n =? 0 then [] else [c_comma]) ++ quote_key k ++ e /\
    output p' = output p)) p.
Proof.
  intros I Hf. unfold core_member. wp_step. wp_step. set (p1 := set_capture CORE p).
  assert (inv p1) as I1 by (by destruct I). change (read_budget p) with (read_budget p1) in Hf.
  wp_step. eapply (wp_mono _ (flagged p1 (emits (if n =? 0 then [] else [c_comma])))).
  { case_match; [by apply emits_nil|by apply emit_emits]. }
  intros ok p2 [S2 [[-> E2]|(-> & ? & ? & [_ H2] & -> & ->)]]; cbn [negb].
  { wp_step. split; [by eapply rstep_of_capture|by left]. }
  wp_step. eapply wp_mono; [apply core_key_spec; [apply (s_inv S2)|by rewrite (s_capture S2)]|].
  intros ok p3 [S3 H3]. pose proof (step_trans _ _ _ _ _ S2 S3) as S13. pose proof (s_left S13) as L13.
  destruct H3 as [[-> E3]|(-> & ? & ? & [_ H3] & -> & ->)]; cbn [negb].
  { wp_step. split; [by eapply rstep_of_capture|by left]. }
  eapply wp_mono; [apply value_root_spec; [apply (s_inv S3)|lia|done]|].
  intros ok p4 [S4 H4]. pose proof (step_trans _ _ _ _ _ S13 S4) as S14.
  split; [by eapply rstep_of_capture|].
  destruct H4 as [|(-> & ? & e & ? & D4 & w & v & vs & Hw & -> & Hv & -> & _)]; [by left|]. right.
  pose proof (done_error_before _ _ _ _ _ _ _ S4 D4) as E3.
  destruct H3 as [|D3]; [done|]. pose proof (done_error_before _ _ _ _ _ _ _ S3 D3) as E2.
  destruct H2 as [|D2]; [done|]. pose proof (done_error_before _ _ _ _ _ _ _ S2 D2) as E1.
  pose proof (done_trans _ _ _ _ _ _ _ _ _ _ _ S2 D2 D3) as D13.
  destruct (done_trans _ _ _ _ _ _ _ _ _ _ _ S13 D13 D4) as [Ds (Dc & Do & _) De _].
  split; [done|]. split; [done|]. split; [done|]. exists w, v, e. split; [done|]. split; [done|].
  split; [done|]. change (capture p1) with CORE in Dc. rewrite decide_True in Dc by done.
  split; [by rewrite Dc, <- app_assoc|]. by apply Do.
Qed.

(** ** The optional output *)

Lemma begin_output_spec f p : inv p ->
  wp (begin_output f) (fun ok p' =>
    step p p' /\
    (ok = false /\ error p' <> 0 \/
     ok = true /\ stream p' = stream p /\ error p' = error p /\ read_budget p' = read_budget p /\
       core p' = core p /\ output p' = fresh f (limit p))) p.
Proof.
  intros I. unfold begin_output, malloc. wp_step. wp_step. wp_step. wp_step. wp_step.
  set (p1 := set_output _ p).
  assert (forall a, wp (ok <- ret true ;; if negb ok then fail ENOMEM else
    modify (fun p => set_output (mk_output (Some (mk_cbuf (limit p + 1) [])) (out_length (output p))
      (observed_bytes (output p)) (out_state (output p)) (out_format (output p)) (out_reason (output p))
      (observed_bytes_complete (output p))) p) ;;;
    modify (fun p => set_metrics (mk_metrics (bytes_read (metrics p)) (core_json_bytes (metrics p))
      (core_values (metrics p)) (maximum_depth (metrics p))
      (IPERF_RESULT_CORE_MAX_BYTES + limit p + 2)) p) ;;;
    modify (set_output_values 0) ;;; ret true) (fun ok p' =>
    step p p' /\
    (ok = false /\ error p' <> 0 \/
     ok = true /\ stream p' = stream p /\ error p' = error p /\ read_budget p' = read_budget p /\
       core p' = core p /\ output p' = fresh f (limit p))) (set_allocs a p1)) as Hok.
  { intros a. wp_step. wp_step. cbn [negb]. wp_step. wp_step. wp_step. wp_step. wp_step. wp_step. wp_step.
    split; [|right; done]. split; [|unfold read_budget; simpl; lia|done..].
    destruct I. split; simpl; try done. unfold output_inv. simpl. rewrite zlen_nil.
    split; [done|]. split; [done|]. split; [lia|by left]. }
  destruct (allocs p1) as [|[] a] eqn:Ea.
  - destruct p as [? ? ? ? ? ? ? ? ? ? ? ? ? ? ? al]. simpl in Ea. subst al. exact (Hok []).
  - wp_step. wp_step. exact (Hok a).
  - wp_step. wp_step. wp_step. cbn [negb]. unfold fail. wp_step. wp_step. wp_step.
    destruct I. destruct (Z.eqb_spec (error (set_allocs a p1)) 0) as [E|E].
    + split; [|by left]. split; [|unfold read_budget; simpl; lia|done..]. by split.
    + split; [|by left]. split; [|unfold read_budget; simpl; lia|done..]. by split.
Qed.

(** The destination of the text output. *)
Definition text_destination : option decoded := Some (mk_decoded None 0 true false).

(** The first byte of a value after settled input is the first of the stream. *)
Lemma settled_head p w v p' :
  settled stream_of p -> blanks w -> stream p = (w ++ v) ++ stream p' -> v <> [] ->
  w = [] /\ head (stream p) = head v.
Proof.
  intros Hs Hw E Hv. destruct Hw as [|x w Hx Hw].
  - split; [done|]. rewrite E. by destruct v.
  - by destruct (Hs x (w ++ v ++ stream p')); [rewrite E; simpl; by rewrite app_assoc|].
Qed.

Definition expected_char (json : bool) : Z := if json then c_lbrace else c_quote.

Definition member_output (json : bool) (lim : Z) : root_entry -> iperf_server_output -> Prop :=
  if json then json_output lim else text_output lim.

Lemma step_set_output_any p o :
  inv p -> out_value o = None -> out_length o = 0 -> out_state o <> IPERF_OUTPUT_COMPLETE ->
  step p (set_output o p).
Proof. intros I Hv Hl Hs. apply step_set_output; [done|]. unfold output_inv. by rewrite Hv. Qed.

(** From the first byte on: the value of an output of the expected type. *)
Lemma output_value_spec fuel json k p :
  inv p -> read_budget p < Z.of_nat fuel -> capture p = DISCARD -> settled stream_of p ->
  ready p (expected_char json) -> output p = fresh (if json then IPERF_OUTPUT_JSON else IPERF_OUTPUT_TEXT) (limit p) ->
  wp (modify (set_capture (if json then OUTPUT_JSON else DISCARD)) ;;;
      value read max_levels fuel 1 (if json then None else text_destination))
    (member_post p (fun w v e p' => data (core p') = data (core p) /\
       member_output json (limit p) (mk_member k v e) (output p'))) p.
Proof.
  intros I Hf Hc Hs Hr Ho. wp_step. wp_step. set (p1 := set_capture _ p).
  assert (inv p1) as I1 by (by destruct I). change (read_budget p) with (read_budget p1) in Hf.
  eapply wp_mono; [apply value_root_spec; [done|done|by destruct json]|].
  intros ok p2 [S H]. split; [by eapply rstep_of_capture|].
  destruct H as [|(-> & ? & e & ? & D & w & v & vs & Hw & -> & Hv & -> & Hvs)]; [by left|]. right.
  pose proof (done_error_before _ _ _ _ _ _ _ S D) as E1. destruct D as [Ds (Dc & Do & Dj) De _].
  split; [done|]. split; [done|]. split; [done|]. exists w, v, e. split; [done|]. split; [done|]. split; [done|].
  destruct (settled_head p w v p2 Hs Hw Ds (jval_nonempty _ _ _ Hv)) as [-> Hh].
  destruct (ready_stream stream_of _ _ Hr) as [rest Er]. rewrite Er in Hh.
  split; [rewrite Dc, decide_False by (by destruct json); by rewrite app_nil_r|].
  destruct json; simpl in *.
  - unfold json_output. simpl. rewrite decide_True by done. rewrite <- Ho. by apply Dj.
  - unfold text_output. simpl. rewrite decide_True by done.
    destruct Hvs as [[Hj ->]|[_ Hn]]; [|done]. exists vs. split; [done|]. rewrite <- Ho. by apply Do.
Qed.

(** An output of an unexpected type is read and ignored. *)
Lemma output_invalid_spec fuel json k p :
  inv p -> read_budget p < Z.of_nat fuel ->
  (error p = 0 -> settled stream_of p /\ (forall rest, stream p <> expected_char json :: rest) /\
     output p = fresh (if json then IPERF_OUTPUT_JSON else IPERF_OUTPUT_TEXT) (limit p)) ->
  wp ((discard_output IPERF_OUTPUT_INVALID ;;;
       set_reason IPERF_OUTPUT_INVALID_DATA ;;;
       modify (fun p => set_output (mk_output (out_value (output p)) (out_length (output p))
         (observed_bytes (output p)) (out_state (output p)) (out_format (output p)) (out_reason (output p)) 0) p)) ;;;
      modify (set_capture DISCARD) ;;;
      value read max_levels fuel 1 None)
    (member_post p (fun w v e p' => data (core p') = data (core p) /\
       member_output json (limit p) (mk_member k v e) (output p'))) p.
Proof.
  intros I Hf Hr. unfold discard_output, set_reason. do 8 wp_step. set (p1 := set_capture _ _).
  set (o := mk_output None 0 (observed_bytes (output p)) IPERF_OUTPUT_INVALID (out_format (output p))
    IPERF_OUTPUT_INVALID_DATA 0).
  assert (p1 = set_capture DISCARD (set_output o p)) as Ep by done.
  assert (step p (set_output o p)) as S0 by (by apply step_set_output_any).
  assert (inv p1) as I1 by (rewrite Ep; destruct (s_inv S0); by split).
  assert (read_budget p1 = read_budget p) as Eb by (by rewrite Ep).
  eapply wp_mono; [apply value_root_spec; [done|lia|done]|].
  intros ok p2 [S H]. split.
  { apply (rstep_step p p1); [|done]. rewrite Ep. apply rstep_capture.
    apply (rstep_step p p); [by apply rstep_refl|done]. }
  destruct H as [|(-> & ? & e & ? & D & w & v & vs & Hw & -> & Hv & -> & Hvs)]; [by left|]. right.
  pose proof (done_error_before _ _ _ _ _ _ _ S D) as E1. destruct D as [Ds (Dc & Do & Dj) De _].
  assert (stream p1 = stream p) as Es by (by rewrite Ep). rewrite Es in Ds.
  rewrite Ep in Dc, Do, E1. simpl in Dc, Do, E1. rewrite app_nil_r in Dc. destruct (Hr E1) as (Hs & Hr' & Ho).
  split; [done|]. split; [done|]. split; [done|]. exists w, v, e. split; [done|]. split; [done|]. split; [done|].
  destruct (settled_head p w v p2 Hs Hw Ds (jval_nonempty _ _ _ Hv)) as [-> Hh].
  split; [done|]. rewrite (Do ltac:(done)). unfold o. rewrite Ho.
  assert (head v <> Some (expected_char json)) as Hne.
  { intros E. rewrite E in Hh. destruct (stream p) as [|x rest] eqn:Ex; [done|].
    simpl in Hh. simplify_eq. by apply (Hr' rest). }
  destruct json; simpl in *; [unfold json_output|unfold text_output]; simpl; by rewrite decide_False.
Qed.

Lemma output_member_spec fuel json k p :
  inv p -> read_budget p < Z.of_nat fuel -> capture p = DISCARD -> (error p = 0 -> settled stream_of p) ->
  wp (output_member read fuel json)
    (member_post p (fun w v e p' => data (core p') = data (core p) /\
       member_output json (limit p) (mk_member k v e) (output p'))) p.
Proof.
  intros I Hf Hc Hs. unfold output_member. wp_step. eapply wp_mono; [by apply begin_output_spec|].
  intros ok p1 [S1 [[-> E1]|(-> & Es1 & Ee1 & Eb1 & Ec1 & Eo1)]]; cbn [negb].
  { wp_step. split; [|by left]. by eapply rstep_step; [apply rstep_refl|]. }
  wp_step. eapply wp_mono; [apply (peek_spec read stream_of frame), (s_inv S1)|]. intros x p2 [S2 H2].
  pose proof (step_trans _ _ _ _ _ S1 S2) as S02. pose proof (s_left S2) as L2.
  assert (error p2 = 0 -> done p1 [] [] [] p2) as D2.
  { intros E. by destruct H2 as [[]|[(_ & ? & _)|(_ & ? & _)]]. }
  assert (rstep p p2) as R2 by (by eapply rstep_step; [apply rstep_refl|]).
  assert (capture p2 = DISCARD) as Hc2 by (by rewrite (s_capture S02)).
  assert (error p2 = 0 -> error p = 0 /\ stream p2 = stream p /\ data (core p2) = data (core p) /\
    output p2 = fresh (if json then IPERF_OUTPUT_JSON else IPERF_OUTPUT_TEXT) (limit p2)) as F.
  { intros E. pose proof (done_error_before _ _ _ _ _ _ _ S2 (D2 E)) as E1.
    destruct (D2 E) as [Ds (Dc & Do & _) _ _]. rewrite (s_capture S1), Hc in Dc, Do. simpl in Dc.
    rewrite app_nil_r in Dc. rewrite Do, (s_limit S02) by done. split; [congruence|].
    split; [by rewrite <- Es1, Ds|]. split; [congruence|]. by destruct json. }
  eapply wp_mono with (P := member_post p2 (fun w v e p' => data (core p') = data (core p2) /\
       member_output json (limit p2) (mk_member k v e) (output p'))).
  2:{ intros ok p3 [R3 H3]. split.
      - destruct R2, R3. split; [done|lia|congruence|]. intros E. rewrite r_error1; [auto|]. by rewrite r_error0.
      - destruct H3 as [|(-> & E3 & E2 & w & v & e & Hw & Hv & Es & Hk & Ho)]; [by left|]. right.
        destruct (F E2) as (E & Es2 & Ek2 & _). split; [done|]. split; [done|]. split; [done|].
        exists w, v, e. split; [done|]. split; [done|]. split; [by rewrite <- Es2|].
        split; [congruence|]. by rewrite <- (s_limit S02). }
  assert (read_budget p2 < Z.of_nat fuel) as Hf2 by lia.
  assert (error p2 = 0 -> settled stream_of p2) as Hs2.
  { intros E. destruct (F E) as (E0 & Es2 & _). intros y r. rewrite Es2. by apply Hs. }
  change (if json then c_lbrace else c_quote) with (expected_char json).
  destruct (Z.eqb_spec x (expected_char json)) as [->|Hx].
  - assert (0 <= expected_char json) by (by destruct json).
    destruct H2 as [[]|[[]|(_ & D & Hr)]]; [lia..|]. pose proof (d_error D) as E2.
    destruct (F E2) as (_ & _ & _ & Fo).
    eapply wp_mono; [|by intros a s' H']. wp_step. wp_step. rewrite andb_true_r.
    pose proof (output_value_spec fuel json k p2 (s_inv S02) Hf2 Hc2 (Hs2 E2) Hr Fo) as W.
    by destruct json.
  - replace (json && false) with false by (by destruct json).
    replace (negb json && false) with false by (by destruct json).
    apply output_invalid_spec; [apply (s_inv S02)|done|]. intros E2. destruct (F E2) as (E & Es & _ & Fo).
    split; [auto|]. split; [|done]. intros rest Er.
    destruct H2 as [[]|[(_ & D & Hl)|(Hb & D & Hr)]]; [done| |].
    + rewrite (budget_stream stream_of frame p2 (s_inv S02) Hl) in Er. done.
    + destruct (ready_stream stream_of _ _ Hr) as [r' Er']. rewrite Er' in Er. by simplify_eq.
Qed.

(** ** The members *)

(** What the members [ms] left behind, unless an error occurred. *)
Definition built (o0 : iperf_server_output) (ms : list root_entry) (p : parser) : Prop :=
  data (core p) = c_lbrace :: core_items ms /\ frame_output (limit p) ms o0 (output p).

Lemma member_post_mono p (P P' : list Z -> list Z -> list Z -> parser -> Prop) ok p' :
  member_post p P ok p' ->
  (forall w v e, error p = 0 -> P w v e p' -> P' w v e p') -> member_post p P' ok p'.
Proof.
  intros [R H] HP. split; [done|]. destruct H as [|(-> & ? & ? & w & v & e & ? & ? & ? & ?)]; [by left|].
  right. split; [done|]. split; [done|]. split; [done|]. exists w, v, e. auto.
Qed.

Lemma member_value_spec fuel k o0 ms p :
  inv p -> read_budget p < Z.of_nat fuel -> capture p = DISCARD -> (error p = 0 -> settled stream_of p) ->
  (error p = 0 -> built o0 ms p) ->
  (forall u, u ∈ unique_keys -> strcaseeq k u = true -> existsb (fun m => strcaseeq (m_key m) u) ms = false) ->
  let json := strcaseeq k key_json in
  let text := strcaseeq k key_text in
  wp (if json || (text && negb (existsb is_json ms)) then output_member read fuel json
      else if text then value read max_levels fuel 1 None
      else core_member read fuel k (core_count ms))
    (member_post p (fun w v e p' => limit p' = limit p -> built o0 (ms ++ [mk_member k v e]) p')) p.
Proof.
  intros I Hf Hc Hs Hb Hu json text.
  assert (json = true -> List.find is_json ms = None) as Nj.
  { intros Hj. apply find_existsb. apply Hu; [|done]. apply (list_elem_of_lookup_2 _ 7). done. }
  assert (text = true -> List.find is_text ms = None) as Nt.
  { intros Ht. apply find_existsb. apply Hu; [|done]. apply (list_elem_of_lookup_2 _ 6). done. }
  destruct (json || text && negb (existsb is_json ms)) eqn:Eb; [|destruct text eqn:Et].
  - eapply wp_mono; [by apply (output_member_spec fuel json k)|]. intros ok p' H.
    eapply member_post_mono; [exact H|]. clear H. intros w v e E [Hk Ho] Hl. destruct (Hb E) as [B1 B2].
    split.
    + rewrite core_items_snoc. unfold is_core, is_json, is_text. simpl. fold json text.
      replace (json || text) with true by (by destruct json, text). by rewrite Hk.
    + rewrite Hl. unfold frame_output. rewrite !find_snoc. unfold is_json at 2, is_text at 2. simpl.
      fold json text. destruct json eqn:Ej; [by rewrite Nj|]. simpl in Eb.
      apply andb_true_iff in Eb as [Et En]. rewrite negb_true_iff in En.
      rewrite (proj2 (find_existsb is_json ms) En), Nt by done. by rewrite Et.
  - apply orb_false_iff in Eb as [Ej En]. simpl in En. apply negb_false_iff in En.
    eapply wp_mono; [by apply value_root_spec|]. intros ok p' [S H].
    split; [by eapply rstep_step; [apply rstep_refl|]|].
    destruct H as [|(-> & ? & e & ? & D & w & v & vs & Hw & -> & Hv & -> & Hvs)]; [by left|]. right.
    pose proof (done_error_before _ _ _ _ _ _ _ S D) as E1. destruct D as [Ds (Dc & Do & Dj) De _].
    split; [done|]. split; [done|]. split; [done|]. exists w, v, e. split; [done|]. split; [done|]. split; [done|].
    intros Hl. destruct (Hb E1) as [B1 B2]. rewrite Hc in Dc, Do. simpl in Dc. rewrite app_nil_r in Dc. split.
    + rewrite core_items_snoc. unfold is_core, is_json, is_text. simpl. fold json text.
      rewrite Ej, Et. simpl. congruence.
    + rewrite Hl, Do by done. unfold frame_output in *. rewrite !find_snoc.
      destruct (List.find is_json ms) eqn:Ef; [done|]. apply find_existsb in Ef. congruence.
  - apply orb_false_iff in Eb as [Ej _].
    eapply wp_mono; [by apply core_member_spec|]. intros ok p' H.
    eapply member_post_mono; [exact H|]. clear H. intros w v e E [Hk Ho] Hl. destruct (Hb E) as [B1 B2].
    split.
    + rewrite core_items_snoc. unfold is_core, is_json, is_text, core_item. simpl. fold json text.
      rewrite Ej, Et. simpl. rewrite Hk, B1. done.
    + rewrite Hl, Ho. unfold frame_output in *. rewrite !find_snoc. unfold is_json at 2, is_text at 2.
      simpl. fold json text. rewrite Ej, Et. destruct (List.find is_json ms), (List.find is_text ms); done.
Qed.

(** The rest of the members after blanks, up to the closing brace. *)
Definition loop_post (o0 : iperf_server_output) (ms : list root_entry) (p : parser) (ok : bool) (p' : parser) : Prop :=
  rstep p p' /\
  (ok = false /\ error p' <> 0 \/
   ok = true /\ capture p' = DISCARD /\
     (error p' <> 0 \/ error p' = 0 /\ error p = 0 /\ exists cs ms', stream p = cs ++ stream p' /\
       unique_members (ms ++ ms') /\ built o0 (ms ++ ms') p' /\
       forall w, blanks w -> jmembers (w ++ cs) ms')).

Lemma rstep_trans p1 p2 p3 : rstep p1 p2 -> rstep p2 p3 -> rstep p1 p3.
Proof.
  intros [] []. split; [done|lia|congruence|]. intros H. rewrite <- r_error0 by done.
  apply r_error1. by rewrite r_error0.
Qed.

Lemma loop_fail o0 ms p p' : rstep p p' -> error p' <> 0 -> loop_post o0 ms p false p'.
Proof. intros R E. split; [done|by left]. Qed.

Definition root_key : option decoded := Some (mk_decoded (Some (mk_cbuf 128 [])) 0 false true).

(** The key bytes that [root_loop] takes out of the destination. *)
Definition key_of (d : option decoded) : list Z :=
  match d with Some (mk_decoded (Some b) _ _ _) => cstr (data b) | _ => [] end.

Lemma root_key_spec fuel p : inv p -> read_budget p < Z.of_nat fuel ->
  wp (string read fuel root_key) (fun r p' => step p p' /\
    (r.1 = false /\ error p' <> 0 \/
     r.1 = true /\ exists c vs, done p c c [] p' /\ jstr c vs /\ Forall (fun v => v <> 0) vs /\
       zlen (concat (utf8_encode <$> vs)) <= 127 /\ key_of r.2 = concat (utf8_encode <$> vs))) p.
Proof.
  intros I Hf. eapply wp_mono; [by apply (string_spec read stream_of frame fuel root_key)|].
  intros [ok d] p' [S H]. split; [done|]. simpl in *.
  destruct H as [|(-> & c & t & D & vs & Hj & -> & Ha)]; [by left|]. right. split; [done|].
  exists c, vs. split; [done|]. split; [done|]. destruct d as [d|]; [|done].
  destruct Ha as (Hw & _ & _ & Hz & (k & Ek) & Hk). specialize (Hz eq_refl). split; [done|].
  destruct d as [ky dl ot ik]. simpl in *. subst ky. unfold dest_wf, key_bytes in *. simpl in *.
  rewrite Hk in *. split; [lia|]. apply cstr_encoded; [|done].
  destruct Hj as (body & _ & Hj). by eapply jchars_nonneg.
Qed.

(** The end of an iteration: the member [m] of text [c] has been read. *)
Lemma loop_tail_spec fuel o0 ms m c p0 p
    (next : PM bool) :
  reached p0 c (c_lbrace :: core_items (ms ++ [m])) (frame_output (limit p0) (ms ++ [m]) o0) p ->
  capture p = DISCARD -> read_budget p < Z.of_nat fuel -> error p0 = 0 ->
  (forall w4, blanks w4 -> forall w, blanks w -> jmember (w ++ c ++ w4) m) ->
  unique_members (ms ++ [m]) ->
  (forall p', inv p' -> capture p' = DISCARD -> read_budget p' + 1 <= read_budget p ->
     (error p' = 0 -> built o0 (ms ++ [m]) p') -> wp next (loop_post o0 (ms ++ [m]) p') p') ->
  wp (whitespace read fuel ;;;
      c <- peek read ;;
      if c =? c_rbrace then ret true else
      ok <- expect read c_comma ;;
      if negb ok then ret false else
      whitespace read fuel ;;; next) (loop_post o0 ms p0) p.
Proof.
  intros H Hc Hf E0 Hm Hu Hn.
  eapply reached_whitespace; [exact H|done|done|]. intros p1 w4 H1 C1 Hw4 L1 _.
  eapply reached_peek; [exact H1|done|]. intros p2 x H2 C2 L2 _ _.
  destruct (Z.eqb_spec x c_rbrace) as [->|].
  { wp_step. destruct H2 as [R2 H2]. split; [done|]. right. split; [done|]. split; [done|].
    destruct H2 as [|(Es & E2 & B1 & B2)]; [by left|]. right. split; [done|]. split; [done|].
    exists (c ++ w4), [m]. split; [done|]. split; [done|]. split.
    - split; [done|]. by rewrite (r_limit _ _ R2).
    - intros w Hw. constructor. by apply Hm. }
  eapply reached_expect; [exact H2|done|lia|intros; by apply loop_fail|].
  intros p3 H3 C3 E3 L3.
  eapply reached_whitespace; [exact H3|done|lia|]. intros p4 w5 H4 C4 Hw5 L4 _.
  destruct H4 as [R4 H4].
  eapply wp_mono; [apply Hn; [by destruct R4|done|lia|]|].
  { intros E4. destruct H4 as [|(_ & _ & B1 & B2)]; [done|]. split; [done|]. by rewrite (r_limit _ _ R4). }
  intros ok p5 [R5 H5]. split; [by eapply rstep_trans|].
  destruct H5 as [|(-> & C5 & H5)]; [by left|]. right. split; [done|]. split; [done|].
  destruct H5 as [|(E5 & E4 & cs & ms' & Es & Hu5 & B5 & Hj)]; [by left|]. right. split; [done|]. split; [done|].
  destruct H4 as [|(Es4 & _)]; [done|]. exists ((c ++ w4) ++ [c_comma] ++ w5 ++ cs), (m :: ms').
  rewrite <- app_assoc in Hu5, B5. simpl in Hu5, B5.
  split; [by rewrite Es4, Es, <- !app_assoc|]. split; [done|]. split; [done|]. intros w Hw.
  rewrite (app_assoc w). apply jmembers_more; [by apply Hm|by apply Hj].
Qed.

Lemma root_loop_spec fuel o0 ms seen p :
  inv p -> capture p = DISCARD -> read_budget p < Z.of_nat fuel -> unique_members ms -> seen_ok ms seen ->
  (error p = 0 -> built o0 ms p) ->
  wp (root_loop read fuel seen (core_count ms) (existsb is_json ms)) (loop_post o0 ms p) p.
Proof.
  revert ms seen p. induction fuel as [|fuel IH]; intros ms seen p I Hc Hf Hu Hs Hb;
    [pose proof (budget_nonneg _ _ _ I); lia|].
  cbn [root_loop]. wp_step. eapply wp_mono; [by apply root_key_spec|].
  intros [ok d] p1 [S1 [[Eok E1]|(Eok & ck & vs & D1 & Hj & Hz & Hl & Hk)]]; simpl in Eok; try (simpl in Hk); subst ok; cbn [negb].
  { wp_step. apply loop_fail; [|done]. by eapply rstep_step; [apply rstep_refl|]. }
  fold (key_of d). rewrite Hk. set (k := concat (utf8_encode <$> vs)) in *.
  pose proof (done_error_before _ _ _ _ _ _ _ S1 D1) as E0. pose proof (s_left S1) as L1.
  assert (reached p [] (data (core p)) (eq (output p)) p) as H0.
  { split; [by apply rstep_refl|]. by right. }
  pose proof (reached_discard _ _ _ _ _ _ _ _ H0 Hc S1 D1) as H1. rewrite app_nil_l in H1.
  destruct (mark_seen unique_keys 0 k seen) as [seen'|] eqn:Em.
  2:{ eapply wp_mono; [by apply (fail_spec stream_of frame); [apply (s_inv S1)|]|]. intros ok p2 (S2 & -> & E2).
      apply loop_fail; [|done]. destruct H1 as [R1 _]. by eapply rstep_step. }
  eapply reached_whitespace; [exact H1|by rewrite (s_capture S1)|lia|]. intros p2 w2 H2 C2 Hw2 L2 _.
  eapply reached_expect; [exact H2|done|lia|intros; by apply loop_fail|]. intros p3 H3 C3 E3 L3.
  eapply reached_whitespace; [exact H3|done|lia|]. intros p4 w3 H4 C4 Hw3 L4 Hs4.
  cbv zeta. wp_step.
  destruct (seen_snoc ms seen seen' (mk_member k [] []) Hs Em) as [_ Hnew].
  assert (forall v e, seen_ok (ms ++ [mk_member k v e]) seen') as Hs'.
  { intros v e. by destruct (seen_snoc ms seen seen' (mk_member k v e) Hs Em). }
  eapply wp_mono.
  { apply (member_value_spec (S fuel) k o0 ms); [by destruct H4 as [[] _]|lia|done|done| |done].
    intros E4. destruct H4 as [R4 [|(_ & _ & B1 & B2)]]; [done|]. destruct (Hb E0) as [F1 F2].
    split; [by rewrite B1|]. by rewrite <- B2, (r_limit _ _ R4). }
  intros ok p5 [R5 H5]. destruct H5 as [[-> E5]|(-> & E5 & E4 & w & v & e & Hw & Hv & Es & Hb5)]; cbn [negb].
  { wp_step. apply loop_fail; [|done]. destruct H4. by eapply rstep_trans. }
  specialize (Hb5 (r_limit _ _ R5)). pose proof (r_left _ _ R5) as L5.
  wp_step. wp_step.
  destruct H4 as [R4 [|(Es4 & _)]]; [done|].
  eapply (loop_tail_spec (S fuel) o0 ms (mk_member k v e)
    (((ck ++ w2) ++ [c_colon]) ++ w3 ++ w ++ v) p (set_capture DISCARD p5)); try done.
  - apply reached_capture. split; [by eapply rstep_trans|]. right. destruct Hb5 as [B1 B2].
    split; [by rewrite Es4, Es, <- !app_assoc|]. split; [done|]. split; [done|].
    by rewrite (r_limit _ _ (rstep_trans _ _ _ R4 R5)) in B2.
  - change (read_budget (set_capture DISCARD p5)) with (read_budget p5). lia.
  - intros w4 Hw4 w1 Hw1. rewrite <- !app_assoc, (app_assoc w3). simpl.
    apply jmember_intro; try done. by apply Forall_app.
  - apply unique_snoc; done.
  - intros p6 I6 C6 L6 B6. change (read_budget (set_capture DISCARD p5)) with (read_budget p5) in L6.
    pose proof (IH (ms ++ [mk_member k v e]) seen' p6 I6 C6 ltac:(lia)) as W.
    rewrite core_count_snoc, existsb_app in W. unfold is_json at 2, is_text in W. simpl in W.
    rewrite orb_false_r in W. unfold is_json at 2 in W. simpl in W. apply W; try done.
    apply unique_snoc; done.
Qed.

(** A byte of the core document, outside any member. *)
Lemma reached_emit_core {A} p0 c K O p x (k : PM A) Q (f : A) :
  reached p0 c K O p -> error p = 0 ->
  (forall p', rstep p0 p' -> error p' <> 0 -> Q f p') ->
  (forall p', reached p0 c (K ++ [x]) O p' -> error p' = 0 -> read_budget p' <= read_budget p -> wp k Q p') ->
  wp (modify (set_capture CORE) ;;; ok <- emit x ;; if negb ok then ret f else k) Q p.
Proof.
  intros H He Hf Hk. wp_step. wp_step. set (p1 := set_capture CORE p).
  assert (reached p0 c K O p1) as H1 by (by apply reached_capture).
  eapply (reached_seq _ _ _ _ p1); [exact H1| |exact Hf|].
  { apply (emit_spec stream_of frame); [by destruct H1 as [[] _]|done]. }
  intros p2 c' e t S D (-> & -> & ->) H2. pose proof (s_left S). apply Hk; [|apply (d_error D)|done].
  eapply reached_mono; [exact H2|by rewrite app_nil_r|done|].
  intros o (o' & Ho & E & _). by rewrite E.
Qed.

(** A successful scan. *)
Definition scanned (p : parser) (ms : list root_entry) (p' : parser) : Prop :=
  error p' = 0 /\ read_budget p' = 0 /\ jframe (stream p) ms /\ data (core p') = core_doc ms /\
  frame_output (limit p) ms (output p) (output p').

(** The text between the braces. *)
Definition jbody (c : list Z) (ms : list root_entry) : Prop :=
  blanks c /\ ms = [] \/ jmembers c ms /\ unique_members ms.

Lemma jbody_frame w1 c ms w2 : blanks w1 -> jbody c ms -> blanks w2 ->
  jframe (((w1 ++ [c_lbrace]) ++ c) ++ [c_rbrace] ++ w2) ms.
Proof.
  intros H1 [[H2 ->]|[H2 H3]] H4; rewrite <- !app_assoc; simpl; by constructor.
Qed.

Lemma root_body_spec fuel p0 c0 p :
  reached p0 c0 [c_lbrace] (eq (output p0)) p -> capture p = DISCARD -> read_budget p < Z.of_nat fuel ->
  wp (whitespace read fuel ;;; c <- peek read ;;
      if c =? c_rbrace then ret true else root_loop read fuel 0 0 false)
    (fun ok p' => rstep p0 p' /\ read_budget p' <= read_budget p /\
      (ok = false /\ error p' <> 0 \/
       ok = true /\ capture p' = DISCARD /\ exists c ms, jbody c ms /\
         reached p0 (c0 ++ c) (c_lbrace :: core_items ms) (frame_output (limit p0) ms (output p0)) p')) p.
Proof.
  intros H Hc Hf. eapply reached_whitespace; [exact H|done|done|]. intros p1 w H1 C1 Hw L1 _.
  eapply reached_peek; [exact H1|done|]. intros p2 x H2 C2 L2 _ _. pose proof H2 as [R2 _].
  destruct (Z.eqb_spec x c_rbrace) as [->|].
  { wp_step. split; [done|]. split; [lia|]. right. split; [done|]. split; [done|]. exists w, [].
    split; [by left|]. eapply reached_mono; [exact H2|done|done|]. by intros o ->. }
  eapply wp_mono; [apply (root_loop_spec fuel (output p0) [] 0 p2); [by destruct R2|done|lia| | |]|].
  - intros u _. simpl. lia.
  - apply seen_ok_nil.
  - intros E2. by destruct H2 as [_ [|(_ & _ & B1 & B2)]].
  - intros ok p3 [R3 H3]. pose proof (r_left _ _ R3). pose proof (rstep_trans _ _ _ R2 R3) as R.
    split; [done|]. split; [lia|]. destruct H3 as [|(-> & C3 & H3)]; [by left|].
    right. split; [done|]. split; [done|].
    destruct H3 as [E3|(E3 & E2 & cs & ms & Es & Hu & [B1 B2] & Hj)].
    + exists w, []. split; [by left|]. split; [done|by left].
    + destruct H2 as [_ [|(Es2 & _)]]; [done|]. exists (w ++ cs), ms. split; [right; by auto|].
      split; [done|]. right. split; [by rewrite Es2, Es, <- !app_assoc|]. split; [done|].
      split; [done|]. by rewrite (r_limit _ _ R) in B2.
Qed.

Lemma root_spec fuel p :
  inv p -> data (core p) = [] -> read_budget p < Z.of_nat fuel ->
  wp (root read fuel) (fun ok p' => rstep p p' /\
    (ok = false /\ error p' <> 0 \/ ok = true /\ exists ms, scanned p ms p')) p.
Proof.
  intros I Hk Hf. unfold root. wp_step. wp_step.
  assert (reached p [] [] (eq (output p)) (set_capture DISCARD p)) as H0.
  { split; [by apply rstep_capture, rstep_refl|]. destruct (Z.eq_dec (error p) 0); [right|by left]. done. }
  eapply reached_whitespace; [exact H0|done|done|]. intros p1 w1 H1 C1 Hw1 L1 _.
  change (read_budget (set_capture DISCARD p)) with (read_budget p) in L1.
  eapply reached_expect; [exact H1|done|lia|intros; split; [done|by left]|]. intros p2 H2 C2 E2 L2.
  eapply reached_emit_core; [exact H2|done|intros; split; [done|by left]|]. intros p3 H3 E3 L3.
  wp_step. wp_step. apply (reached_capture _ _ _ _ _ DISCARD) in H3.
  pose proof (root_body_spec fuel p _ (set_capture DISCARD p3) H3 eq_refl
    ltac:(change (read_budget (set_capture DISCARD p3)) with (read_budget p3); lia)) as W.
  wp_step. eapply wp_mono; [exact (wp_bind_inv _ _ _ _ W)|]. clear W. intros u1 s1 W. wp_step.
  eapply wp_mono; [exact (wp_bind_inv _ _ _ _ W)|]. clear W s1. intros x s1 W. wp_step.
  eapply wp_mono; [exact W|]. clear W s1. intros ok p4 (R4 & L4 & H4).
  change (read_budget (set_capture DISCARD p3)) with (read_budget p3) in L4.
  destruct H4 as [[-> E4]|(-> & C4 & c & ms & Hc & H4)]; cbn [negb].
  { wp_step. split; [done|by left]. }
  eapply reached_expect; [exact H4|done|lia|intros; split; [done|by left]|]. intros p5 H5 C5 E5 L5.
  eapply reached_emit_core; [exact H5|done|intros; split; [done|by left]|]. intros p6 H6 E6 L6.
  wp_step. wp_step. apply (reached_capture _ _ _ _ _ DISCARD) in H6.
  eapply reached_whitespace; [exact H6|done|change (read_budget (set_capture DISCARD p6)) with (read_budget p6); lia|].
  intros p7 w2 H7 C7 Hw2 L7 _.
  eapply reached_peek; [exact H7|done|]. intros p8 y H8 C8 L8 _ Hy. wp_step. wp_step.
  pose proof H8 as [R8 H8'].
  destruct ((y <? 0) && (error p8 =? 0)) eqn:Ey.
  - rewrite andb_true_iff, Z.ltb_lt, Z.eqb_eq in Ey. destruct Ey as [Ey E8]. wp_step. split; [done|]. right.
    split; [done|]. exists ms. split; [done|]. specialize (Hy Ey E8). split; [done|].
    destruct H8' as [|(Es & _ & B1 & B2)]; [done|].
    rewrite (budget_stream stream_of frame p8 (r_inv _ _ R8) Hy), app_nil_r, <- app_assoc in Es.
    split; [|split; [by rewrite B1|done]]. rewrite Es. by apply jbody_frame.
  - eapply wp_mono; [by apply (fail_spec stream_of frame); [apply (r_inv _ _ R8)|]|]. intros ok p9 (S9 & -> & E9).
    split; [by eapply rstep_step|by left].
Qed.
End Root.
