(* ===== verification/BoundedReader.v ===== *)
(** * The contract of [iperf_read_bounded_results]

    The properties of the entry point, from the specification of the scanner
    ([ScannerRoot]) and of cJSON ([CJsonSpec]). *)

From Stdlib Require Import String.
From S2P Require Import Prelude Bytes JsonGrammar CJson CJsonSpec BoundedOutput ScannerSpec ScannerRoot.
Import Scanner.

(** ** The core document is compact JSON *)

Lemma hexval_hex_char d : 0 <= d < 16 -> hexval (hex_char d) = Some d.
Proof.
  intros Hd. assert (forallb (fun n => bool_decide (hexval (hex_char (Z.of_nat n)) = Some (Z.of_nat n))) (seq 0 16) = true)
    as H by (vm_compute; reflexivity).
  rewrite forallb_forall in H. specialize (H (Z.to_nat d) ltac:(apply in_seq; lia)).
  rewrite Z2Nat.id in H by lia. by apply bool_decide_eq_true in H.
Qed.

Lemma escape_plain_bytes l : Forall (fun b => 128 <= b) l -> concat (escape_key_byte <$> l) = l.
Proof.
  induction 1 as [|b l Hb _ IH]; [done|]. rewrite fmap_cons. cbn [concat]. rewrite IH. unfold escape_key_byte.
  rewrite (proj2 (Z.eqb_neq b c_quote)), (proj2 (Z.eqb_neq b c_bslash)), (proj2 (Z.ltb_ge b 32)) by lia. done.
Qed.

(** What [core_key] emits for one scalar is one character of a string literal. *)
Lemma escaped_jchar v : scalar_value v -> v <> 0 ->
  jchar (concat (escape_key_byte <$> utf8_encode v)) v.
Proof.
  intros [Hr Hs] H0. destruct (Z.leb_spec v 127) as [Hv|Hv].
  - rewrite encode_ascii by lia. cbn [fmap list_fmap concat]. rewrite app_nil_r. unfold escape_key_byte.
    destruct ((v =? c_quote) || (v =? c_bslash)) eqn:E.
    { apply jchar_escape. unfold escape_scalar. rewrite E. done. }
    rewrite orb_false_iff, !Z.eqb_neq in E. destruct (Z.ltb_spec v 32); [|constructor; lia].
    pose proof (Z.mod_pos_bound v 16 ltac:(lia)). pose proof (Z.div_mod v 16 ltac:(lia)).
    assert (0 <= v / 16 < 16) by (split; [apply Z.div_pos|apply Z.div_lt_upper_bound]; lia).
    apply (jchar_unicode [c_0; c_0; hex_char (Z.shiftr v 4); hex_char (Z.land v 15)]); [|done].
    rewrite Z.shiftr_div_pow2, (land_mod _ 4) by lia. change (2 ^ 4) with 16. split; [done|].
    replace v with (((0 * 16 + 0) * 16 + v / 16) * 16 + v mod 16) at 3 by lia.
    apply (hexes_snoc [c_0; c_0; hex_char (v / 16)]); [|by apply hexval_hex_char].
    apply (hexes_snoc [c_0; c_0]); [|by apply hexval_hex_char].
    apply (hexes_snoc [c_0] 0 c_0 0); [|done]. apply (hexes_snoc [] 0 c_0 0); [constructor|done].
  - rewrite escape_plain_bytes by (apply encode_high; lia). apply jchar_multi. apply encode_multibyte; [done|lia].
Qed.

Lemma escaped_jchars vs : Forall scalar_value vs -> Forall (fun v => v <> 0) vs ->
  jchars (concat (escape_key_byte <$> concat (utf8_encode <$> vs))) vs.
Proof.
  induction 1 as [|v vs Hv _ IH]; intros H0; [constructor|]. inversion_clear H0.
  rewrite fmap_cons. cbn [concat]. rewrite fmap_app, concat_app. constructor; [by apply escaped_jchar|auto].
Qed.

Lemma jchars_scalars l vs : jchars l vs -> Forall scalar_value vs.
Proof. induction 1; constructor; [by eapply jchar_scalar|done]. Qed.

(** What the grammar of frames says of each member. *)
Definition member_ok (m : root_entry) : Prop :=
  jval 64 (m_text m) (m_compact m) /\
  exists vs, m_key m = concat (utf8_encode <$> vs) /\ Forall scalar_value vs /\ Forall (fun v => v <> 0) vs.

Lemma jmembers_ok cs ms : jmembers cs ms -> Forall member_ok ms.
Proof.
  assert (forall c m, jmember c m -> member_ok m) as H.
  { destruct 1 as [w1 k w2 w3 v w4 vs e _ _ _ _ (body & _ & Hj) Hz _ Hv]. split; [done|].
    exists vs. split; [done|]. split; [by eapply jchars_scalars|done]. }
  induction 1; constructor; eauto.
Qed.

Lemma jframe_ok c ms : jframe c ms -> Forall member_ok ms.
Proof. destruct 1; [constructor|by eapply jmembers_ok]. Qed.

Lemma core_item_jitem m : member_ok m -> exists c, jitem (jval 64) true c (core_item m).
Proof.
  intros [Hv (vs & Ek & Hs & Hz)].
  assert (Forall (fun v => 0 <= v) vs) as Hn by (eapply Forall_impl; [exact Hs|]; intros v [[? _] _]; done).
  unfold core_item, quote_key. rewrite Ek, cstr_encoded by done.
  set (k := c_quote :: concat (escape_key_byte <$> concat (utf8_encode <$> vs)) ++ [c_quote]).
  exists (k ++ [] ++ c_colon :: [] ++ m_text m).
  replace ((c_quote :: _ ++ [c_quote; c_colon]) ++ m_compact m) with (k ++ c_colon :: m_compact m)
    by (unfold k; by rewrite <- !app_comm_cons, <- !app_assoc).
  apply jitem_member; [|constructor..|done]. exists vs. split; [|done].
  eexists. split; [done|]. by apply escaped_jchars.
Qed.

Lemma core_items_jitems ms : Forall member_ok ms ->
  filter (fun m => is_core m = true) ms <> [] -> exists cs, jitems (jval 64) true cs (core_items ms).
Proof.
  intros Hm. unfold core_items.
  assert (Forall member_ok (filter (fun m => is_core m = true) ms)) as Hf.
  { apply Forall_forall. intros m Hin. apply list_elem_of_filter in Hin as [_ Hin].
    rewrite Forall_forall in Hm. auto. }
  revert Hf. generalize (filter (fun m => is_core m = true) ms). clear. intros l.
  induction 1 as [|m l Hm Hl IH]; intros Hn; [done|].
  destruct (core_item_jitem m Hm) as [c Hc]. destruct l as [|m' l].
  - exists ([] ++ c ++ []). apply jitems_one; [constructor..|done].
  - destruct IH as [cs Hcs]; [done|]. exists ([] ++ c ++ [] ++ c_comma :: cs).
    apply (jitems_more (jval 64) true [] [] c (core_item m)); [constructor..|done|done].
Qed.

(** The core document of a frame is in the grammar that cJSON accepts. *)
Lemma core_doc_jval c ms : jframe c ms -> exists d, jval 65 d (core_doc ms).
Proof.
  intros Hf. apply jframe_ok in Hf. unfold core_doc.
  destruct (decide (filter (fun m => is_core m = true) ms = [])) as [E|E].
  - exists [c_lbrace; c_rbrace]. right. exists true. left. exists []. split; [constructor|].
    unfold core_items. by rewrite E.
  - destruct (core_items_jitems ms Hf E) as [cs Hcs]. eexists. right. exists true. right.
    exists cs, (core_items ms). split; [done|]. by split.
Qed.

(** ** Runs of the reader *)

Definition zero_metrics : iperf_result_read_metrics := mk_metrics 0 0 0 0 0.

(** The arguments that pass the checks at the start of the function. *)
Definition args_ok (frame_length output_limit : Z) : Prop :=
  1 <= frame_length <= IPERF_RESULT_FRAME_MAX_BYTES /\ 1 <= output_limit <= IPERF_OUTPUT_MAX_BYTES.

Section Run.
Context {Ctx : Type} (read : Ctx -> Z -> read_result Ctx) (stream_of : Ctx -> list Z).
Context `{!StreamReader read stream_of}.
Context (frame_length output_limit : Z) (ctx : Ctx) (err : Z) (allocs : list bool) (parse_alloc : nat -> bool).

(** The parser [root] starts with. *)
Definition start : parser :=
  mk_parser ctx frame_length [] 0 0 (mk_cbuf (IPERF_RESULT_CORE_MAX_BYTES + 1) []) 0
    output_limit DISCARD empty_output (mk_metrics 0 0 0 0 (IPERF_RESULT_CORE_MAX_BYTES + 1)) 0 0 0 err allocs.

(** The call of a client: cleared output and metrics, a core buffer that can be
    allocated. *)
Definition run : outcome read_outcome :=
  iperf_read_bounded_results frame_length output_limit (Some read) ctx (Some empty_output) (Some zero_metrics)
    err true allocs parse_alloc.

(** The first [frame_length] bytes the reader has to offer. *)
Definition frame_text : list Z := firstn (Z.to_nat frame_length) (stream_of ctx).

(** An invariant of the reader's context. *)
Context (P : Ctx -> Prop) (P_read : forall ctx count, P ctx -> P (r_ctx (read ctx count))) (P_ctx : P ctx).

Definition framed : framing Ctx := mk_framing frame_length (stream_of ctx) P.

Lemma run_unfold : args_ok frame_length output_limit ->
  run = match root read (S (Z.to_nat frame_length)) start with
        | Ret (true, p) => parse_core parse_alloc p
        | Ret (false, p) => Ret (finish None p)
        | UB => UB
        | OutOfFuel => OutOfFuel
        end.
Proof.
  intros [Hf Hl]. unfold run, iperf_read_bounded_results.
  rewrite (proj2 (Z.eqb_neq output_limit 0)), (proj2 (Z.ltb_ge IPERF_OUTPUT_MAX_BYTES output_limit)),
    (proj2 (Z.eqb_neq frame_length 0)), (proj2 (Z.ltb_ge IPERF_RESULT_FRAME_MAX_BYTES frame_length)) by lia.
  done.
Qed.

Lemma frame_ok_args : args_ok frame_length output_limit -> FrameOk read framed.
Proof. intros [? _]. split; [simpl; lia|exact P_read]. Qed.

Lemma start_inv : args_ok frame_length output_limit -> inv stream_of framed start.
Proof.
  intros [Hf Hl]. unfold start. split; simpl; try rewrite zlen_nil; try done; try lia.
  intros _. by exists [].
Qed.

Lemma start_stream : stream stream_of start = frame_text.
Proof. done. Qed.

(** The scan of the whole frame. *)
Lemma scan_spec : args_ok frame_length output_limit ->
  exists ok p, root read (S (Z.to_nat frame_length)) start = Ret (ok, p) /\ rstep stream_of framed start p /\
    (ok = false /\ error p <> 0 \/ ok = true /\ exists ms, scanned stream_of start ms p).
Proof.
  intros Ha. pose proof (frame_ok_args Ha) as Hfr. pose proof (start_inv Ha) as I. destruct Ha as [Hf Hl].
  pose proof (root_spec read stream_of framed (S (Z.to_nat frame_length)) start I eq_refl) as W.
  destruct (wp_returns _ _ _ (W ltac:(unfold read_budget, start; simpl; lia))) as (ok & p & E & R & H).
  by exists ok, p.
Qed.

Lemma terminate_spec lim o : output_inv lim o 0 ->
  exists o', terminate_output o = Some o' /\ out_length o' = out_length o /\ out_state o' = out_state o.
Proof.
  unfold output_inv, terminate_output. destruct (out_value o) as [b|]; [|by exists o].
  intros (Hc & Hl & Hm & _). rewrite <- Hl, buf_poke_push by lia. eexists. split; [done|]. done.
Qed.

(** After a scan, cJSON yields the tree of the core document or runs out of memory. *)
Lemma parse_core_spec ms p : rstep stream_of framed start p -> scanned stream_of start ms p ->
  exists r o, parse_core parse_alloc p = Ret
    (match r with
     | Some j => finish (Some j) (set_output o (set_metrics (mk_metrics (bytes_read (metrics p)) (core_length p)
         (core_values (metrics p)) (maximum_depth (metrics p)) (peak_buffer_capacity (metrics p))) p))
     | None => finish None (set_parser_error ENOMEM (set_output o (set_metrics (mk_metrics (bytes_read (metrics p)) (core_length p)
         (core_values (metrics p)) (maximum_depth (metrics p)) (peak_buffer_capacity (metrics p))) p)))
     end) /\
    terminate_output (output p) = Some o /\ (forall j, r = Some j -> tree 65 (core_doc ms) j).
Proof.
  intros [I _ _ _] (E0 & Eb & Hf & Ek & Ho). unfold parse_core.
  rewrite <- (i_core _ _ _ I), buf_poke_push by (rewrite (i_core _ _ _ I), (i_core_cap _ _ _ I); pose proof (i_core_max _ _ _ I); lia).
  pose proof (i_output _ _ _ I) as Hoi. rewrite E0 in Hoi. destruct (terminate_spec _ _ Hoi) as (o & Et & _). rewrite Et.
  cbn [data]. replace (zlen (data (core p)) + 1) with (zlen (data (core p) ++ [0])) by (by rewrite zlen_app).
  rewrite Ek in *. destruct (core_doc_jval _ _ Hf) as [d Hd].
  destruct (parse_document 65 d (core_doc ms) parse_alloc Hd ltac:(lia)) as (r & oom & E & Hn & Hs). rewrite E.
  exists r, o. destruct r as [j|]; [done|]. rewrite (Hn eq_refl). split; [|done].
  cbn [set_output set_metrics error]. by rewrite E0.
Qed.
End Run.

(** ** The text output *)

Lemma deliver_stopped lim vs o : out_state o = IPERF_OUTPUT_TRUNCATED -> Forall (fun v => v <> 0) vs ->
  odata (deliver lim vs o) = odata o /\ out_state (deliver lim vs o) = IPERF_OUTPUT_TRUNCATED /\
  out_length (deliver lim vs o) = out_length o.
Proof.
  intros Ho Hv. revert o Ho. induction Hv as [|v vs Hv _ IH]; intros o Ho; [done|].
  unfold deliver in *. cbn [foldl].
  assert (deliver1 lim o v = mk_output (out_value o) (out_length o) (u64 (observed_bytes o + zlen (utf8_encode v)))
    (out_state o) (out_format o) (out_reason o) (observed_bytes_complete o)) as E.
  { unfold deliver1. rewrite (proj2 (Z.eqb_neq v 0) Hv), decide_False by congruence. done. }
  destruct (IH (deliver1 lim o v)) as (H1 & H2 & H3); [by rewrite E|].
  rewrite H1, H2, H3. by rewrite E.
Qed.

Lemma deliver_complete lim vs b n obs f :
  Forall (fun v => v <> 0) vs -> n = zlen (data b) -> n <= lim ->
  let o := deliver lim vs (mk_output (Some b) n obs IPERF_OUTPUT_COMPLETE f IPERF_OUTPUT_REASON_NONE 1) in
  exists k, odata o = data b ++ concat (utf8_encode <$> firstn k vs) /\ out_length o = zlen (odata o) /\
    out_length o <= lim /\
    (out_state o = IPERF_OUTPUT_COMPLETE /\ k = length vs \/
     out_state o = IPERF_OUTPUT_TRUNCATED /\ exists v, vs !! k = Some v /\ lim < out_length o + zlen (utf8_encode v)).
Proof.
  intros Hv. revert b n obs. induction Hv as [|v vs Hv Hvs IH]; intros b n obs -> Hl o.
  { exists 0%nat. subst o. cbn. rewrite app_nil_r. repeat split; try lia. by left. }
  subst o. cbv zeta. set (X := mk_output (Some b) _ _ _ _ _ _).
  change (deliver lim (v :: vs) X) with (deliver lim vs (deliver1 lim X v)).
  destruct (Z.ltb_spec lim (zlen (data b) + zlen (utf8_encode v))) as [Ht|Ht].
  - assert (deliver1 lim X v = mk_output (Some b) (zlen (data b)) (u64 (obs + zlen (utf8_encode v)))
      IPERF_OUTPUT_TRUNCATED f IPERF_OUTPUT_BYTE_LIMIT 1) as ->.
    { unfold deliver1, X. rewrite (proj2 (Z.eqb_neq v 0) Hv). cbn. by rewrite (proj2 (Z.ltb_lt _ _) Ht). }
    match goal with |- context [deliver lim vs ?o] =>
      destruct (deliver_stopped lim vs o eq_refl Hvs) as (H1 & H2 & H3) end.
    exists 0%nat. rewrite H1, H2, H3. cbn. rewrite app_nil_r.
    split; [done|]. split; [done|]. split; [done|]. right. split; [done|]. by exists v.
  - assert (deliver1 lim X v = mk_output (Some (mk_cbuf (cap b) (data b ++ utf8_encode v)))
      (zlen (data b) + zlen (utf8_encode v)) (u64 (obs + zlen (utf8_encode v)))
      IPERF_OUTPUT_COMPLETE f IPERF_OUTPUT_REASON_NONE 1) as ->.
    { unfold deliver1, X. rewrite (proj2 (Z.eqb_neq v 0) Hv). cbn. by rewrite (proj2 (Z.ltb_ge _ _) Ht). }
    destruct (IH (mk_cbuf (cap b) (data b ++ utf8_encode v)) (zlen (data b) + zlen (utf8_encode v))
      (u64 (obs + zlen (utf8_encode v))) ltac:(cbn [data]; by rewrite zlen_app) ltac:(lia)) as (k & H1 & H2 & H3 & H4).
    exists (S k). split; [|split; [done|split; [done|]]].
    + etransitivity; [exact H1|]. cbn [data]. change (firstn (S k) (v :: vs)) with (v :: firstn k vs).
      rewrite fmap_cons. cbn [concat]. by rewrite app_assoc.
    + destruct H4 as [[? ->]|H4]; [by left|]. right. exact H4.
Qed.

(** Text output is the UTF-8 encoding of the longest run of whole scalars
    that fits the limit: complete when everything fits, otherwise truncated
    before the first scalar that does not, never inside one. *)
Theorem text_output_whole_scalars lim vs (Hlim : 1 <= lim) (Hvs : Forall (fun v => v <> 0) vs) :
  let o := deliver lim vs (fresh IPERF_OUTPUT_TEXT lim) in
  exists k, odata o = concat (utf8_encode <$> firstn k vs) /\ out_length o = zlen (odata o) /\ out_length o <= lim /\
    (out_state o = IPERF_OUTPUT_COMPLETE /\ k = length vs \/
     out_state o = IPERF_OUTPUT_TRUNCATED /\ exists v, vs !! k = Some v /\ lim < out_length o + zlen (utf8_encode v)).
Proof.
  apply (deliver_complete lim vs (mk_cbuf (lim + 1) []) 0 0 IPERF_OUTPUT_TEXT Hvs eq_refl). lia.
Qed.

Lemma text_output_whole_scalars_witness :
  let o := deliver 5 [104; 233; 8364; 120] (fresh IPERF_OUTPUT_TEXT 5) in
  out_state o = IPERF_OUTPUT_TRUNCATED /\
  exists k, odata o = concat (utf8_encode <$> firstn k [104; 233; 8364; 120]).
Proof.
  split; [vm_compute; reflexivity|].
  destruct (text_output_whole_scalars 5 [104; 233; 8364; 120] ltac:(lia)
    ltac:(repeat constructor; lia)) as (k & H & _).
  exists k. exact H.
Defined.

(** ** Total correctness and limits *)

Section Theorems.
Context {Ctx : Type} (read : Ctx -> Z -> read_result Ctx) (stream_of : Ctx -> list Z).
Context `{!StreamReader read stream_of}.

(** The limits on what a call leaves in the output and the metrics. *)
Definition limited (frame_length output_limit : Z) (ro : @read_outcome Ctx) : Prop :=
  exists o m, ro_output ro = Some o /\ ro_metrics ro = Some m /\
    out_length o <= output_limit /\
    (forall b, out_value o = Some b -> cap b = output_limit + 1 /\ zlen (data b) = out_length o + 1) /\
    bytes_read m <= frame_length /\ core_json_bytes m <= IPERF_RESULT_CORE_MAX_BYTES /\
    maximum_depth m <= IPERF_RESULT_MAX_DEPTH /\
    peak_buffer_capacity m <= IPERF_RESULT_CORE_MAX_BYTES + output_limit + 2 /\
    (ro_result ro <> None -> core_values m <= IPERF_RESULT_CORE_MAX_VALUES).

Lemma finish_none_limited frame_length origin P output_limit p :
  inv stream_of (mk_framing frame_length origin P) p -> limit p = output_limit ->
  limited frame_length output_limit (finish None p).
Proof.
  intros I Hl. unfold finish. cbv zeta. eexists _, _. split; [done|]. split; [done|]. cbn.
  destruct I; cbn [fr_length] in *. repeat (split; [done || lia|]). done.
Qed.

(** [core_json_bytes] is only written at the end. *)
Lemma early_limited frame_length output_limit e o c :
  0 <= frame_length -> 0 <= output_limit -> out_value o = None -> out_length o = 0 ->
  limited frame_length output_limit (mk_outcome None (Some o) (Some zero_metrics) e c).
Proof.
  intros Hf Hl Hv Ho. exists o, zero_metrics. split; [done|]. split; [done|]. rewrite Hv, Ho.
  unfold IPERF_RESULT_CORE_MAX_BYTES, IPERF_RESULT_MAX_DEPTH. cbn.
  split; [done|]. split; [done|]. repeat (split; [lia|]). done.
Qed.

Lemma finish_some_limited frame_length origin P output_limit j o p :
  inv stream_of (mk_framing frame_length origin P) p -> limit p = output_limit -> error p = 0 -> terminate_output (output p) = Some o ->
  limited frame_length output_limit
    (finish (Some j) (set_output o (set_metrics (mk_metrics (bytes_read (metrics p)) (core_length p)
       (core_values (metrics p)) (maximum_depth (metrics p)) (peak_buffer_capacity (metrics p))) p))).
Proof.
  intros I Hl He Ht. eexists _, _. split; [done|]. split; [done|]. cbn.
  pose proof (i_output _ _ _ I) as Ho. unfold output_inv, terminate_output in *.
  assert (out_length o <= output_limit /\
    forall b, out_value o = Some b -> cap b = output_limit + 1 /\ zlen (data b) = out_length o + 1) as [H1 H2].
  { destruct (out_value (output p)) as [b|] eqn:Eb.
    - destruct Ho as (Hc & Hn & Hm & _). rewrite <- Hn, buf_poke_push in Ht by lia. simplify_eq. cbn.
      split; [lia|]. intros b' Hb. simplify_eq. cbn. rewrite zlen_app. done.
    - simplify_eq. pose proof (i_limit _ _ _ I). rewrite Eb. split; [lia|done]. }
  split; [done|]. split; [done|]. pose proof (i_core_max _ _ _ I). destruct I; cbn [fr_length] in *.
  repeat (split; [done || lia|]). intros _. by apply i_core_values.
Qed.

Lemma call_total frame_length output_limit ctx err core_alloc allocs parse_alloc
    (Hf : 0 <= frame_length) (Hl : 0 <= output_limit) :
  exists ro,
    iperf_read_bounded_results frame_length output_limit (Some read) ctx (Some empty_output) (Some zero_metrics)
      err core_alloc allocs parse_alloc = Ret ro /\
    limited frame_length output_limit ro.
Proof.
  destruct ((output_limit =? 0) || (IPERF_OUTPUT_MAX_BYTES <? output_limit)) eqn:E1.
  { unfold iperf_read_bounded_results. rewrite E1. eexists. split; [done|]. by apply early_limited. }
  destruct ((frame_length =? 0) || (IPERF_RESULT_FRAME_MAX_BYTES <? frame_length)) eqn:E2.
  { unfold iperf_read_bounded_results. rewrite E1, E2. eexists. split; [done|]. by apply early_limited. }
  destruct core_alloc.
  2:{ unfold iperf_read_bounded_results. rewrite E1, E2. eexists. split; [done|]. by apply early_limited. }
  assert (args_ok frame_length output_limit) as Ha.
  { rewrite orb_false_iff, Z.eqb_neq, Z.ltb_ge in E1, E2. unfold args_ok. lia. }
  destruct (scan_spec read stream_of frame_length output_limit ctx err allocs (fun _ => True) (fun _ _ _ => I) I Ha) as (ok & p & E & R & H).
  pose proof (run_unfold read frame_length output_limit ctx err allocs parse_alloc Ha) as Er.
  unfold run in Er. rewrite Er, E. clear Er.
  destruct H as [[-> He]|[-> (ms & Hs)]].
  - eexists. split; [done|]. eapply (finish_none_limited _ (stream_of ctx) (fun _ => True)); [apply (r_inv _ _ _ _ R)|apply (r_limit _ _ _ _ R)].
  - destruct (parse_core_spec stream_of frame_length output_limit ctx err allocs parse_alloc (fun _ => True) ms p R Hs)
      as (r & o & E' & Et & _). rewrite E'. eexists. split; [done|]. destruct r as [j|].
    + eapply (finish_some_limited _ (stream_of ctx) (fun _ => True)); [apply (r_inv _ _ _ _ R)|apply (r_limit _ _ _ _ R)|by destruct Hs|done].
    + eexists _, _. split; [done|]. split; [done|]. cbn. pose proof (r_inv _ _ _ _ R) as I.
      pose proof (i_core_max _ _ _ I). pose proof (r_limit _ _ _ _ R) as El. simpl in El. destruct I; cbn [fr_length framed] in *. repeat (split; [done || lia|]). done.
Qed.

(** A result [ro] with the tree [j]: exactly the frame was read, no byte behind
    it; it is one JSON object [ms] without conflicting fields, [j] is the tree of
    its measurement fields and the output is its server output. *)
Definition frame_read (frame_length output_limit : Z) (ctx : Ctx) (ro : @read_outcome Ctx) (j : cJSON) : Prop :=
  exists ms o m o',
    jframe (frame_text stream_of frame_length ctx) ms /\ tree 65 (core_doc ms) j /\
    frame_output output_limit ms empty_output o /\ terminate_output o = Some o' /\
    ro_output ro = Some o' /\ ro_metrics ro = Some m /\ ro_errno ro = 0 /\
    bytes_read m = frame_length /\ core_json_bytes m = zlen (core_doc ms) /\
    exists c, zlen c = frame_length /\ stream_of ctx = c ++ stream_of (ro_context ro).

Lemma run_success frame_length output_limit ctx err allocs parse_alloc ro j
    (Ha : args_ok frame_length output_limit)
    (Hr : run read frame_length output_limit ctx err allocs parse_alloc = Ret ro)
    (Hj : ro_result ro = Some j) :
  frame_read frame_length output_limit ctx ro j.
Proof.
  unfold frame_read.
  rewrite run_unfold in Hr by done.
  destruct (scan_spec read stream_of frame_length output_limit ctx err allocs (fun _ => True) (fun _ _ _ => I) I Ha) as (ok & p & E & R & H).
  rewrite E in Hr. destruct H as [[-> He]|[-> (ms & Hs)]]; [by simplify_eq|].
  destruct (parse_core_spec stream_of frame_length output_limit ctx err allocs parse_alloc (fun _ => True) ms p R Hs)
    as (r & o & E' & Et & Hd). rewrite E' in Hr. injection Hr as <-. destruct r as [j'|]; [|done].
  cbn in Hj. simplify_eq. destruct Hs as (E0 & Eb & Hf & Ek & Ho).
  eexists ms, (output p), _, o. split; [exact Hf|]. split; [by apply Hd|]. split; [exact Ho|].
  split; [done|]. split; [done|]. split; [done|]. split; [done|]. cbn.
  pose proof (r_inv _ _ _ _ R) as I. rewrite <- (i_core _ _ _ I), Ek.
  pose proof (i_read _ _ _ I) as Hread. pose proof (i_cursor _ _ _ I). pose proof (i_remaining _ _ _ I).
  unfold read_budget in Eb. cbn [fr_length framed] in Hread. assert (bytes_read (metrics p) = frame_length) as Eall by lia.
  split; [done|]. split; [done|]. destruct (i_unread _ _ _ I E0) as (c & Hc1 & Hc2). exists c. by rewrite <- Eall.
Qed.

Lemma call_failure frame_length output_limit ctx err core_alloc allocs parse_alloc ro
    (Hr : iperf_read_bounded_results frame_length output_limit (Some read) ctx (Some empty_output)
            (Some zero_metrics) err core_alloc allocs parse_alloc = Ret ro)
    (Hj : ro_result ro = None) :
  ro_errno ro <> 0 /\ exists o, ro_output ro = Some o /\
    out_value o = None /\ out_length o = 0 /\ observed_bytes o = 0 /\ out_state o = IPERF_OUTPUT_INVALID.
Proof.
  unfold iperf_read_bounded_results in Hr.
  destruct ((output_limit =? 0) || _); [injection Hr as <-; split; [done|]; by eexists|].
  destruct ((frame_length =? 0) || _); [injection Hr as <-; split; [done|]; by eexists|].
  destruct core_alloc; cbn [negb] in Hr; [|injection Hr as <-; split; [done|]; by eexists].
  cbv zeta in Hr.
  assert (forall p : @parser Ctx, ro_errno (finish None p) <> 0 /\ exists o, ro_output (finish None p) = Some o /\
    out_value o = None /\ out_length o = 0 /\ observed_bytes o = 0 /\ out_state o = IPERF_OUTPUT_INVALID) as Hn.
  { intros p. split; [|by eexists]. cbn. by destruct (Z.eqb_spec (error p) 0). }
  destruct (root _ _ _) as [[[] p]| |]; [|assert (ro = finish None p) as -> by congruence; apply Hn|done|done].
  unfold parse_core in Hr. destruct (buf_poke _ _ _); [|done]. destruct (terminate_output _); [|done].
  destruct (Parse.run_parse _ _ _ _) as [[[j|] oom]| |]; [| |done|done].
  - assert (ro_result ro = Some j) by (by injection Hr as <-). congruence.
  - match type of Hr with Ret (finish None ?x) = _ => assert (ro = finish None x) as -> by congruence end. apply Hn.
Qed.

Lemma parse_core_context parse_alloc (p : @parser Ctx) ro :
  parse_core parse_alloc p = Ret ro -> ro_context ro = context p.
Proof.
  unfold parse_core. destruct (buf_poke _ _ _); [|done]. cbv zeta. destruct (terminate_output _); [|done].
  destruct (Parse.run_parse _ _ _ _) as [[[j|] oom]| |]; try done; intros H; injection H as <-; [done|].
  cbn. by case_match.
Qed.

(** The context a call leaves has every property that the reader's calls keep. *)
Lemma call_context (P : Ctx -> Prop) frame_length output_limit ctx err core_alloc allocs parse_alloc ro :
  0 <= frame_length -> 0 <= output_limit ->
  (forall ctx count, P ctx -> P (r_ctx (read ctx count))) -> P ctx ->
  iperf_read_bounded_results frame_length output_limit (Some read) ctx (Some empty_output) (Some zero_metrics)
    err core_alloc allocs parse_alloc = Ret ro -> P (ro_context ro).
Proof.
  intros Hf Hl HP Hctx Hr. pose proof Hr as Hr'. unfold iperf_read_bounded_results in Hr.
  destruct ((output_limit =? 0) || _) eqn:E1; [by injection Hr as <-|].
  destruct ((frame_length =? 0) || _) eqn:E2; [by injection Hr as <-|].
  destruct core_alloc; cbn [negb] in Hr; [|by injection Hr as <-]. clear Hr.
  assert (args_ok frame_length output_limit) as Ha.
  { rewrite orb_false_iff, Z.eqb_neq, Z.ltb_ge in E1, E2. unfold args_ok. lia. }
  destruct (scan_spec read stream_of frame_length output_limit ctx err allocs P HP Hctx Ha) as (ok & p & E & R & _).
  pose proof (run_unfold read frame_length output_limit ctx err allocs parse_alloc Ha) as Er.
  unfold run in Er. rewrite Er, E in Hr'.
  pose proof (i_context _ _ _ (r_inv _ _ _ _ R)) as Hp. destruct ok.
  - by rewrite (parse_core_context _ _ _ Hr').
  - injection Hr' as <-. exact Hp.
Qed.

(** C1: for every reader and every peer the call returns: no access outside a
    buffer, no endless loop, and the output, the core document, the nesting, the
    number of values and the memory stay within their limits. *)
Theorem reader_total frame_length output_limit ctx err core_alloc allocs parse_alloc
    (Hf : 0 <= frame_length) (Hl : 0 <= output_limit) :
  exists ro,
    iperf_read_bounded_results frame_length output_limit (Some read) ctx (Some empty_output) (Some zero_metrics)
      err core_alloc allocs parse_alloc = Ret ro /\
    limited frame_length output_limit ro.
Proof. by apply call_total. Qed.

(** C2: a result means that exactly the frame was read, no byte behind it, and
    that it is one well-formed JSON object without conflicting fields; the
    result is the tree of its measurement fields, and the output is its optional
    server output. *)
Theorem reader_success frame_length output_limit ctx err allocs parse_alloc ro j
    (Ha : args_ok frame_length output_limit)
    (Hr : run read frame_length output_limit ctx err allocs parse_alloc = Ret ro)
    (Hj : ro_result ro = Some j) :
  frame_read frame_length output_limit ctx ro j.
Proof. by eapply run_success. Qed.

(** C3: without a result the caller gets no part of the peer's output: the value
    is released, the state is invalid, and [errno] says why. *)
Theorem reader_failure frame_length output_limit ctx err core_alloc allocs parse_alloc ro
    (Hr : iperf_read_bounded_results frame_length output_limit (Some read) ctx (Some empty_output)
            (Some zero_metrics) err core_alloc allocs parse_alloc = Ret ro)
    (Hj : ro_result ro = None) :
  ro_errno ro <> 0 /\ exists o, ro_output ro = Some o /\
    out_value o = None /\ out_length o = 0 /\ observed_bytes o = 0 /\ out_state o = IPERF_OUTPUT_INVALID.
Proof. by eapply call_failure. Qed.

(** The scanner never hands cJSON a document that it rejects: after a
    successful scan the only failure is that memory ran out. *)
Theorem core_fails_only_to_allocate frame_length output_limit ctx err allocs parse_alloc p
    (Ha : args_ok frame_length output_limit)
    (Hs : root read (S (Z.to_nat frame_length)) (start frame_length output_limit ctx err allocs) = Ret (true, p)) :
  exists ro, parse_core parse_alloc p = Ret ro /\ (ro_result ro = None -> ro_errno ro = ENOMEM).
Proof.
  destruct (scan_spec read stream_of frame_length output_limit ctx err allocs (fun _ => True) (fun _ _ _ => I) I Ha) as (ok & p' & E & R & H).
  rewrite E in Hs. simplify_eq. destruct H as [[]|[_ (ms & H)]]; [done|].
  destruct (parse_core_spec stream_of frame_length output_limit ctx err allocs parse_alloc (fun _ => True) ms p R H)
    as (r & o & E' & _ & _). eexists. split; [exact E'|]. by destruct r.
Qed.
End Theorems.

(** ** A reader of a byte sequence

    It delivers at most [chunk] bytes at a time, and fails at the end. *)

Definition memory_read (chunk : Z) (l : list Z) (count : Z) : read_result (list Z) :=
  let n := Z.min (Z.min chunk count) (zlen l) in
  let bs := firstn (Z.to_nat n) l in
  if forallb (fun b => (0 <=? b) && (b <? 256)) bs then mk_read (drop (Z.to_nat n) l) n 0 bs
  else mk_read l (-1) EPROTO [].

#[export] Instance memory_reader chunk : StreamReader (memory_read chunk) id.
Proof.
  split. intros l count Hc. unfold memory_read. set (n := Z.min _ _). cbv zeta.
  destruct (forallb _ _) eqn:E; cbn; [|lia]. intros Hn. split; [|split].
  - unfold zlen in *. rewrite length_firstn. lia.
  - rewrite forallb_forall in E. apply Forall_forall. intros b Hb. apply list_elem_of_In in Hb.
    specialize (E b Hb). unfold byte_ok. lia.
  - by rewrite firstn_skipn.
Qed.

(** A frame with every kind of member, read three bytes at a time. *)
Definition sample_frame : list Z := Eval vm_compute in
  bytes_of "{ "%string ++ [c_quote] ++ bytes_of "streams"%string ++ [c_quote] ++ bytes_of ":[1.5, -2e3, true],"%string
  ++ [c_quote] ++ bytes_of "server_output_text"%string ++ [c_quote; c_colon; c_quote] ++ bytes_of "done \u00e9"%string
  ++ [c_quote] ++ bytes_of " }"%string.

Definition sample_run : outcome read_outcome :=
  run (memory_read 3) (zlen sample_frame) 100 sample_frame 0 [] (fun _ => true).

Definition sample_result : read_outcome :=
  match sample_run with Ret ro => ro | _ => mk_outcome None None None 0 [] end.

(** The same bytes cut off in the middle. *)
Definition cut_run : outcome read_outcome :=
  iperf_read_bounded_results (zlen sample_frame) 100 (Some (memory_read 3)) (firstn 20 sample_frame)
    (Some empty_output) (Some zero_metrics) 0 true [] (fun _ => true).

Definition cut_result : read_outcome :=
  match cut_run with Ret ro => ro | _ => mk_outcome None None None 0 [] end.

Lemma reader_total_witness :
  exists ro, sample_run = Ret ro /\ limited (zlen sample_frame) 100 ro.
Proof.
  apply (reader_total (memory_read 3) id (zlen sample_frame) 100 sample_frame 0 true [] (fun _ => true)).
  - vm_compute. discriminate.
  - vm_compute. discriminate.
Defined.

Lemma sample_args : args_ok (zlen sample_frame) 100.
Proof. vm_compute. repeat split; discriminate. Qed.

Lemma reader_success_witness :
  exists ms o, jframe sample_frame ms /\ ro_output sample_result = Some o /\ out_state o = IPERF_OUTPUT_COMPLETE.
Proof.
  destruct (reader_success (memory_read 3) id (zlen sample_frame) 100 sample_frame 0 [] (fun _ => true)
    sample_result _ sample_args ltac:(vm_compute; reflexivity) ltac:(vm_compute; reflexivity))
    as (ms & o & m & o' & H & _ & _ & _ & Ho & _).
  exists ms, o'. split; [exact H|]. split; [exact Ho|].
  assert (ro_output sample_result = Some o') as E by exact Ho. vm_compute in E. injection E as <-. reflexivity.
Defined.

Lemma reader_failure_witness : ro_errno cut_result <> 0.
Proof.
  destruct (reader_failure (memory_read 3) (zlen sample_frame) 100 (firstn 20 sample_frame) 0 true []
    (fun _ => true) cut_result ltac:(vm_compute; reflexivity) ltac:(vm_compute; reflexivity)) as [H _].
  exact H.
Defined.

Definition sample_parser : parser :=
  match root (memory_read 3) (S (Z.to_nat (zlen sample_frame)))
          (start (zlen sample_frame) 100 sample_frame 0 []) with
  | Ret (_, p) => p
  | _ => start 1 1 [] 0 []
  end.

Lemma core_fails_only_to_allocate_witness :
  exists ro, parse_core (fun _ => false) sample_parser = Ret ro /\ (ro_result ro = None -> ro_errno ro = ENOMEM).
Proof.
  apply (core_fails_only_to_allocate (memory_read 3) id (zlen sample_frame) 100 sample_frame 0 []
    (fun _ => false) sample_parser sample_args).
  vm_compute. reflexivity.
Defined.
