(* ===== verification/BoundedSocket.v ===== *)
(** * The bounded socket adapters

    [iperf_bounded_socket.c]: reading and writing one framed result on the
    control socket before an absolute deadline, with cancellation, on a file
    descriptor that is nonblocking meanwhile.

    The operating system is a script: a [tick] holds what [cancelled],
    [clock_gettime], [poll] and [recv] or [send] answer in one iteration of a
    loop, and a connection carries the ticks to come.  After the last tick the
    clock has passed the deadline: time passes, so a loop iterates finitely
    often before it does. *)

From Stdlib Require Import String Strings.Byte.
From S2P Require Import Prelude Bytes JsonGrammar CJson BoundedOutput ScannerSpec CJsonSpec ScannerRoot BoundedReader.
Import Scanner.
Local Open Scope c_scope.

(** ** The operating system *)

Definition EINTR : Z := 4.
Definition EBADF : Z := 9.
Definition EPIPE : Z := 32.
Definition EAGAIN : Z := 35.
Definition ETIMEDOUT : Z := 60.
Definition ECANCELED : Z := 89.
Definition O_NONBLOCK : Z := 4.
Definition IPERF_RESULT_READ_TIMEOUT_MS : Z := 30000.

(** A system call answers a value or fails with an [errno]. *)
Inductive answer (A : Type) := Value (a : A) | Failed (e : Z).
Arguments Value {A}.
Arguments Failed {A}.

Inductive poll_answer := Poll_failed (e : Z) | Poll_timeout | Poll_ready (invalid : bool).

Record tick := mk_tick {
  t_cancelled : bool;
  t_clock : answer (Z * Z);
  t_poll : poll_answer;
  t_io : answer Z }.

(** The control connection: the peer's bytes to come and ours sent, the file
    status flags, the script, the calls of [poll] so far as pairs of the time
    and the milliseconds to wait, and [errno]. *)
Record conn := mk_conn {
  incoming : list byte;
  sent : list Z;
  flags : Z;
  ticks : list tick;
  waits : list (Z * Z);
  errno : Z }.

Definition set_ticks (ts : list tick) (c : conn) : conn :=
  mk_conn (incoming c) (sent c) (flags c) ts (waits c) (errno c).
Definition set_incoming (bs : list byte) (c : conn) : conn :=
  mk_conn bs (sent c) (flags c) (ticks c) (waits c) (errno c).
Definition set_sent (bs : list Z) (c : conn) : conn :=
  mk_conn (incoming c) bs (flags c) (ticks c) (waits c) (errno c).
Definition set_flags (f : Z) (c : conn) : conn :=
  mk_conn (incoming c) (sent c) f (ticks c) (waits c) (errno c).
Definition set_errno (e : Z) (c : conn) : conn :=
  mk_conn (incoming c) (sent c) (flags c) (ticks c) (waits c) e.
Definition add_wait (now ms : Z) (c : conn) : conn :=
  mk_conn (incoming c) (sent c) (flags c) (ticks c) (waits c ++ [(now, ms)]) (errno c).

Definition byte_val (b : byte) : Z := Z.of_N (Byte.to_N b).
Definition bytes_to_come (c : conn) : list Z := map byte_val (incoming c).

(** ** Reading *)

Definition monotonic_ns (clock : answer (Z * Z)) : answer Z :=
  match clock with
  | Value (tv_sec, tv_nsec) => Value (u64 (u64 (u64 tv_sec * 1000000000) + u64 tv_nsec))
  | Failed e => Failed e
  end.

(** [remaining_ms < 100 ? (int)remaining_ms : 100] *)
Definition poll_ms (deadline now : Z) : Z :=
  let remaining_ms := u64 (u64 (deadline - now) + 999999) / 1000000 in
  if remaining_ms <? 100 then remaining_ms else 100.

Section Reader.
Context (deadline_ns : Z) (cancellable : bool).

Definition read_fails (e : Z) (c : conn) : read_result conn := mk_read (set_errno e c) (-1) e [].

(** What [recv] takes of the peer's bytes; the count is at most the capacity. *)
Definition receive (n capacity : Z) (c : conn) : read_result conn :=
  let count := Z.max 0 (Z.min n (Z.min capacity (zlen (incoming c)))) in
  mk_read (set_incoming (drop (Z.to_nat count) (incoming c)) c) count (errno c)
    (map byte_val (firstn (Z.to_nat count) (incoming c))).

Fixpoint read_loop (capacity : Z) (ts : list tick) (c : conn) : read_result conn :=
  match ts with
  | [] => read_fails ETIMEDOUT (set_ticks [] c)
  | t :: ts =>
      let c := set_ticks ts c in
      if cancellable && t_cancelled t then read_fails ECANCELED c
      else
        match monotonic_ns (t_clock t) with
        | Failed e => read_fails e c
        | Value now =>
            if deadline_ns <=? now then read_fails ETIMEDOUT c
            else
              let c := add_wait now (poll_ms deadline_ns now) c in
              match t_poll t with
              | Poll_failed e =>
                  if e =? EINTR then read_loop capacity ts (set_errno e c) else read_fails e c
              | Poll_timeout => read_loop capacity ts c
              | Poll_ready true => read_fails EBADF c
              | Poll_ready false =>
                  match t_io t with
                  | Failed e =>
                      if (e =? EAGAIN) || (e =? EINTR) then read_loop capacity ts (set_errno e c)
                      else read_fails e c
                  | Value n => receive n capacity c
                  end
              end
        end
  end.

Definition socket_read (c : conn) (capacity : Z) : read_result conn := read_loop capacity (ticks c) c.

(** The bytes of the header, a negative count or end of file. *)
Inductive header_result := Header (bytes : list Z) (c : conn) | No_header (count e : Z) (c : conn).

(** [while (received < sizeof(header))]: at most [fuel] calls. *)
Fixpoint read_header (fuel : nat) (received : list Z) (c : conn) : option header_result :=
  if 4 <=? zlen received then Some (Header received c)
  else
    match fuel with
    | O => None
    | S fuel =>
        let r := socket_read c (4 - zlen received) in
        if r_n r <=? 0 then Some (No_header (r_n r) (r_errno r) (r_ctx r))
        else read_header fuel (received ++ r_bytes r) (r_ctx r)
    end.
End Reader.

Definition read_failure (o : iperf_server_output) : iperf_server_output :=
  with_reason IPERF_OUTPUT_READ_FAILURE (with_state IPERF_OUTPUT_INVALID o).

Section Frame.
(** The outcomes of the parser's allocations. *)
Context (core_alloc : bool) (allocs : list bool) (parse_alloc : nat -> bool).

Definition refused (o : option iperf_server_output) (m : option iperf_result_read_metrics) (e : Z) (c : conn) :
    outcome (@read_outcome conn) :=
  Ret (mk_outcome None (read_failure <$> o) m e (set_errno e c)).

Definition read_results_socket (fd output_limit timeout_ms : Z) (cancellable : bool)
    (out : option iperf_server_output) (met : option iperf_result_read_metrics)
    (clock : answer (Z * Z)) (c : conn) : outcome (@read_outcome conn) :=
  match out, met with
  | Some _, Some _ =>
      if (output_limit =? 0) || (IPERF_OUTPUT_MAX_BYTES <? output_limit) ||
         (timeout_ms =? 0) || (IPERF_RESULT_READ_TIMEOUT_MS <? timeout_ms) || (fd <? 0)
      then refused out met (if fd <? 0 then EBADF else EINVAL) c
      else
        match monotonic_ns clock with
        | Failed e => refused out met e c
        | Value now =>
            let deadline_ns := u64 (now + u64 (timeout_ms * 1000000)) in
            match read_header deadline_ns cancellable 4 [] c with
            | None => OutOfFuel
            | Some (No_header count e c) => refused out met (if count =? 0 then EPROTO else e) c
            | Some (Header bytes c) =>
                iperf_read_bounded_results (ntohl bytes) output_limit (Some (socket_read deadline_ns cancellable)) c
                  out met (errno c) core_alloc allocs parse_alloc
            end
        end
  | _, _ => refused out met (if fd <? 0 then EBADF else EINVAL) c
  end.

(** ** The file descriptor *)

(** [fcntl] fails with an [errno] or succeeds. *)
Definition nonblocking (getfl setfl : option Z) (c : conn) : Z * conn :=
  match getfl with
  | Some e => (-1, set_errno e c)
  | None =>
      if Z.land (flags c) O_NONBLOCK =? 0 then
        match setfl with
        | Some e => (-1, set_errno e c)
        | None => (flags c, set_flags (Z.lor (flags c) O_NONBLOCK) c)
        end
      else (flags c, c)
  end.

Definition restore (saved_flags saved_errno : Z) (setfl : option Z) (c : conn) : Z * conn :=
  if Z.land saved_flags O_NONBLOCK =? 0 then
    match setfl with
    | Some e => (-1, set_errno e c)
    | None => (0, set_errno saved_errno (set_flags saved_flags c))
    end
  else (0, set_errno saved_errno c).

(** [errno] after a call of the scanner is part of its outcome. *)
Definition iperf_read_bounded_results_socket (fd output_limit timeout_ms : Z) (cancellable : bool)
    (out : option iperf_server_output) (met : option iperf_result_read_metrics)
    (clock : answer (Z * Z)) (getfl setfl resetfl : option Z) (c : conn) : outcome (@read_outcome conn) :=
  let '(saved, c) := nonblocking getfl setfl c in
  if saved <? 0 then Ret (mk_outcome None (read_failure <$> out) met (errno c) c)
  else
    match read_results_socket fd output_limit timeout_ms cancellable out met clock c with
    | Ret r =>
        let '(status, c) := restore saved (ro_errno r) resetfl (ro_context r) in
        if status <? 0 then
          Ret (mk_outcome None ((fun o => read_failure (iperf_clear_server_output o)) <$> ro_output r)
                 (ro_metrics r) (errno c) c)
        else Ret (mk_outcome (ro_result r) (ro_output r) (ro_metrics r) (errno c) c)
    | UB => UB
    | OutOfFuel => OutOfFuel
    end.
End Frame.

(** ** Writing *)

Section Writer.
Context (deadline_ns : Z) (cancellable : bool).

(** [rest] is [bytes + sent]. *)
Fixpoint write_loop (rest : list Z) (ts : list tick) (c : conn) : Z * conn :=
  match rest with
  | [] => (0, c)
  | _ :: _ =>
      match ts with
      | [] => (-1, set_errno ETIMEDOUT (set_ticks [] c))
      | t :: ts =>
          let c := set_ticks ts c in
          if cancellable && t_cancelled t then (-1, set_errno ECANCELED c)
          else
            match monotonic_ns (t_clock t) with
            | Failed e => (-1, set_errno e c)
            | Value now =>
                if deadline_ns <=? now then (-1, set_errno ETIMEDOUT c)
                else
                  let c := add_wait now (poll_ms deadline_ns now) c in
                  match t_poll t with
                  | Poll_failed e =>
                      if e =? EINTR then write_loop rest ts (set_errno e c) else (-1, set_errno e c)
                  | Poll_timeout => write_loop rest ts c
                  | Poll_ready true => (-1, set_errno EBADF c)
                  | Poll_ready false =>
                      let chunk := if zlen rest <? 4096 then zlen rest else 4096 in
                      match t_io t with
                      | Failed e =>
                          if (e =? EAGAIN) || (e =? EINTR) then write_loop rest ts (set_errno e c)
                          else (-1, set_errno e c)
                      | Value n =>
                          let count := Z.max 0 (Z.min n chunk) in
                          if count =? 0 then (-1, set_errno EPIPE c)
                          else write_loop (drop (Z.to_nat count) rest) ts
                                 (set_sent (sent c ++ firstn (Z.to_nat count) rest) c)
                      end
                  end
            end
      end
  end.

Definition socket_write (bytes : list Z) (c : conn) : Z * conn := write_loop bytes (ticks c) c.
End Writer.

(** [bytes] is NULL or holds at least [length] bytes. *)
Definition write_results_socket (fd : Z) (bytes : option (list Z)) (length timeout_ms : Z) (cancellable : bool)
    (clock : answer (Z * Z)) (c : conn) : Z * conn :=
  match bytes with
  | Some bytes =>
      if (fd <? 0) || (length =? 0) || (IPERF_RESULT_FRAME_MAX_BYTES <? length) ||
         (timeout_ms =? 0) || (IPERF_RESULT_READ_TIMEOUT_MS <? timeout_ms)
      then (-1, set_errno EINVAL c)
      else
        match monotonic_ns clock with
        | Failed e => (-1, set_errno e c)
        | Value now =>
            let deadline_ns := u64 (now + u64 (timeout_ms * 1000000)) in
            let '(status, c) := socket_write deadline_ns cancellable (htonl length) c in
            if negb (status =? 0) then (-1, c)
            else socket_write deadline_ns cancellable (firstn (Z.to_nat length) bytes) c
        end
  | None => (-1, set_errno EINVAL c)
  end.

Definition iperf_write_bounded_results_socket (fd : Z) (bytes : option (list Z)) (length timeout_ms : Z)
    (cancellable : bool) (clock : answer (Z * Z)) (getfl setfl resetfl : option Z) (c : conn) : Z * conn :=
  let '(saved, c) := nonblocking getfl setfl c in
  if saved <? 0 then (-1, c)
  else
    let '(result, c) := write_results_socket fd bytes length timeout_ms cancellable clock c in
    let '(status, c) := restore saved (errno c) resetfl c in
    (if status <? 0 then -1 else result, c).

(** ** The calls of [poll] *)

(** A wait is of 1 to 100 ms, before the deadline, and does not go a full
    millisecond past it. *)
Definition wait_ok (deadline : Z) (w : Z * Z) : Prop :=
  w.1 < deadline /\ 1 <= w.2 <= 100 /\ w.1 + (w.2 - 1) * 1000000 < deadline.

Definition deadline_ok (deadline : Z) : Prop := 0 <= deadline < 9223372036854775808.

Lemma monotonic_range a now : monotonic_ns a = Value now -> 0 <= now.
Proof.
  unfold monotonic_ns. destruct a as [[s ns]|]; [|done]. intros H. simplify_eq. apply (wrapu_range 64). lia.
Qed.

Lemma poll_ms_ok deadline now : deadline_ok deadline -> 0 <= now < deadline -> wait_ok deadline (now, poll_ms deadline now).
Proof.
  intros Hd Hn. unfold deadline_ok, wait_ok, poll_ms in *. cbn [fst snd].
  rewrite (wrapu_small 64 (deadline - now)) by lia. rewrite wrapu_small by lia.
  case_Z; Z.to_euclidean_division_equations; lia.
Qed.

(** The polls of one call: the old ones and waits that are fine. *)
Definition waited (deadline : Z) (c c' : conn) : Prop :=
  exists ws, waits c' = waits c ++ ws /\ Forall (wait_ok deadline) ws.

#[local] Instance waited_preorder deadline : PreOrder (waited deadline).
Proof.
  split.
  - intros c. exists []. by rewrite app_nil_r.
  - intros c1 c2 c3 (w1 & E1 & F1) (w2 & E2 & F2). exists (w1 ++ w2).
    rewrite E2, E1, app_assoc. split; [done|by apply Forall_app].
Qed.

Lemma waited_same deadline c c' : waits c' = waits c -> waited deadline c c'.
Proof. intros E. exists []. by rewrite app_nil_r. Qed.

Lemma waited_add deadline now c : deadline_ok deadline -> 0 <= now < deadline ->
  waited deadline c (add_wait now (poll_ms deadline now) c).
Proof.
  intros Hd Hn. eexists. split; [reflexivity|]. by apply Forall_singleton, poll_ms_ok.
Qed.

(** ** One read *)

Lemma byte_val_ok b : byte_ok (byte_val b).
Proof. unfold byte_ok, byte_val. pose proof (Byte.to_N_bounded b). lia. Qed.

(** A call of [socket_read]: the next bytes of the peer, the end of its stream
    or an error without consuming any. *)
Record read_ok (deadline capacity : Z) (c : conn) (r : read_result conn) : Prop := {
  ro_bytes : 1 <= r_n r <= capacity /\ zlen (r_bytes r) = r_n r /\ Forall byte_ok (r_bytes r) /\
      bytes_to_come c = r_bytes r ++ bytes_to_come (r_ctx r) \/
    (r_n r = 0 \/ r_n r = -1) /\ bytes_to_come (r_ctx r) = bytes_to_come c;
  ro_sent : sent (r_ctx r) = sent c;
  ro_flags : flags (r_ctx r) = flags c;
  ro_waits : deadline_ok deadline -> waited deadline c (r_ctx r) }.

Lemma read_ok_from deadline capacity c c1 r :
  bytes_to_come c1 = bytes_to_come c -> sent c1 = sent c -> flags c1 = flags c ->
  (deadline_ok deadline -> waited deadline c c1) ->
  read_ok deadline capacity c1 r -> read_ok deadline capacity c r.
Proof.
  intros E1 E2 E3 E4 []. split; try congruence. intros Hd. etransitivity; auto.
Qed.

Lemma read_fails_ok deadline capacity e c : read_ok deadline capacity c (read_fails e c).
Proof. split; try done; [auto|]. intros _. by apply waited_same. Qed.

Lemma receive_ok deadline n capacity c : read_ok deadline capacity c (receive n capacity c).
Proof.
  unfold receive. set (count := Z.max 0 _). pose proof (zlen_nonneg (incoming c)).
  assert (bytes_to_come c = map byte_val (firstn (Z.to_nat count) (incoming c)) ++
            map byte_val (drop (Z.to_nat count) (incoming c))) as E.
  { by rewrite <- map_app, firstn_skipn. }
  split; try done; [|intros _; by apply waited_same].
  cbn [r_n r_bytes r_ctx]. destruct (Z.eq_dec count 0) as [E0|E0].
  - right. split; [by left|]. unfold bytes_to_come. cbn [set_incoming incoming]. by rewrite E0.
  - left. split; [lia|]. split; [|split; [|exact E]].
    + unfold zlen in *. rewrite length_map, length_firstn. lia.
    + apply Forall_fmap, Forall_true. intros b. apply byte_val_ok.
Qed.

Lemma read_loop_ok deadline cancellable capacity ts : forall c,
  read_ok deadline capacity c (read_loop deadline cancellable capacity ts c).
Proof.
  induction ts as [|t ts IH]; intros c; cbn [read_loop].
  { eapply read_ok_from; [..|apply read_fails_ok]; try done. intros _. by apply waited_same. }
  cbv zeta. set (c1 := set_ticks ts c).
  assert (forall r, read_ok deadline capacity c1 r -> read_ok deadline capacity c r) as H1.
  { intros r. apply read_ok_from; try done. intros _. by apply waited_same. }
  destruct (cancellable && t_cancelled t); [apply H1, read_fails_ok|].
  destruct (monotonic_ns (t_clock t)) as [now|e] eqn:Enow; [|apply H1, read_fails_ok].
  apply monotonic_range in Enow.
  destruct (Z.leb_spec deadline now); [apply H1, read_fails_ok|].
  set (c2 := add_wait _ _ c1).
  assert (forall r, read_ok deadline capacity c2 r -> read_ok deadline capacity c r) as H2.
  { intros r Hr. apply H1. eapply read_ok_from; [..|exact Hr]; try done. intros Hd. by apply waited_add. }
  assert (forall e, read_ok deadline capacity c (read_loop deadline cancellable capacity ts (set_errno e c2))) as H3.
  { intros e. apply H2. eapply read_ok_from; [..|apply IH]; try done. intros _. by apply waited_same. }
  destruct (t_poll t) as [e| |[]].
  - case_match; [apply H3|apply H2, read_fails_ok].
  - apply H2, IH.
  - apply H2, read_fails_ok.
  - destruct (t_io t) as [n|e]; [apply H2, receive_ok|]. case_match; [apply H3|apply H2, read_fails_ok].
Qed.

#[export] Instance socket_reader deadline cancellable : StreamReader (socket_read deadline cancellable) bytes_to_come.
Proof.
  split. intros c count Hc r Hr. destruct (read_loop_ok deadline cancellable count (ticks c) c) as [[H|[H _]] _ _ _].
  - destruct H as (_ & H). exact H.
  - exfalso. unfold r, socket_read in Hr. lia.
Qed.

(** What every function below keeps of a connection. *)
Record kept (deadline : Z) (c c' : conn) : Prop := {
  k_sent : sent c' = sent c;
  k_flags : flags c' = flags c;
  k_waits : deadline_ok deadline -> waited deadline c c' }.

#[local] Instance kept_preorder deadline : PreOrder (kept deadline).
Proof.
  split; [intros c; by split|]. intros c1 c2 c3 [] []. split; try congruence. intros Hd. etransitivity; auto.
Qed.

Lemma socket_read_kept deadline cancellable c capacity :
  kept deadline c (r_ctx (socket_read deadline cancellable c capacity)).
Proof. destruct (read_loop_ok deadline cancellable capacity (ticks c) c). by split. Qed.

(** ** The header *)

(** Four bytes in any number of pieces, or none at all. *)
Lemma read_header_spec deadline cancellable fuel : forall received c,
  zlen received <= 4 -> 4 - zlen received <= Z.of_nat fuel -> Forall byte_ok received ->
  exists hr, read_header deadline cancellable fuel received c = Some hr /\
    match hr with
    | Header bytes c' => zlen bytes = 4 /\ Forall byte_ok bytes /\ kept deadline c c' /\
        received ++ bytes_to_come c = bytes ++ bytes_to_come c'
    | No_header n e c' => n <= 0 /\ kept deadline c c'
    end.
Proof.
  induction fuel as [|fuel IH]; intros received c Hl Hf Hb; cbn [read_header].
  - rewrite (proj2 (Z.leb_le _ _)) by lia. eexists. split; [done|]. split; [lia|]. by split.
  - destruct (Z.leb_spec 4 (zlen received)); [eexists; split; [done|]; split; [lia|]; by split|].
    cbv zeta. pose proof (socket_read_kept deadline cancellable c (4 - zlen received)) as Hk.
    destruct (read_loop_ok deadline cancellable (4 - zlen received) (ticks c) c) as [Hr _ _ _].
    fold (socket_read deadline cancellable c (4 - zlen received)) in Hr.
    set (r := socket_read _ _ _ _) in *. destruct (Z.leb_spec (r_n r) 0).
    { eexists. split; [done|]. by split. }
    destruct Hr as [(H1 & H2 & H3 & H4)|[[] _]]; [|lia..].
    destruct (IH (received ++ r_bytes r) (r_ctx r)) as (hr & E & Hhr); rewrite ?zlen_app; try lia.
    { by apply Forall_app. }
    exists hr. split; [exact E|]. destruct hr as [bytes c'|n e c'].
    + destruct Hhr as (G1 & G2 & G3 & G4). split; [done|]. split; [done|]. split; [by etransitivity|].
      by rewrite H4, app_assoc.
    + destruct Hhr as [G1 G2]. split; [done|by etransitivity].
Qed.

(** ** A frame *)

Section Frames.
Context (core_alloc : bool) (allocs : list bool) (parse_alloc : nat -> bool).

(** A result is the tree of the frame behind the header; without one the caller
    gets no output. *)
Definition frame_outcome (output_limit : Z) (c : conn) (ro : @read_outcome conn) : Prop :=
  match ro_result ro with
  | Some j => exists len c1, bytes_to_come c = htonl len ++ bytes_to_come c1 /\
      args_ok len output_limit /\ frame_read bytes_to_come len output_limit c1 ro j
  | None => exists o, ro_output ro = Some o /\ out_value o = None /\ out_length o = 0 /\
      out_state o = IPERF_OUTPUT_INVALID
  end.

Lemma refused_outcome output_limit c0 m e c : exists ro,
  refused (Some empty_output) m e c = Ret ro /\ frame_outcome output_limit c0 ro /\ ro_context ro = set_errno e c.
Proof. eexists. split; [done|]. split; [|done]. by eexists. Qed.

Lemma read_results_socket_spec fd output_limit timeout_ms cancellable clock c : 0 <= output_limit ->
  exists ro deadline,
    read_results_socket core_alloc allocs parse_alloc fd output_limit timeout_ms cancellable
      (Some empty_output) (Some zero_metrics) clock c = Ret ro /\
    frame_outcome output_limit c ro /\ kept deadline c (ro_context ro).
Proof.
  intros Hl. unfold read_results_socket.
  assert (forall e, exists ro deadline, refused (Some empty_output) (Some zero_metrics) e c = Ret ro /\
    frame_outcome output_limit c ro /\ kept deadline c (ro_context ro)) as Hrefuse.
  { intros e. destruct (refused_outcome output_limit c (Some zero_metrics) e c) as (ro & E & H & Hc).
    exists ro, 0. split; [done|]. split; [done|]. rewrite Hc. split; try done. intros _. by apply waited_same. }
  case_match; [apply Hrefuse|]. destruct (monotonic_ns clock) as [now|e]; [|apply Hrefuse]. cbv zeta.
  set (deadline := u64 _).
  destruct (read_header_spec deadline cancellable 4 [] c) as (hr & E & Hhr); try done. rewrite E.
  destruct hr as [bytes c1|n e c1].
  2:{ destruct (refused_outcome output_limit c (Some zero_metrics) (if n =? 0 then EPROTO else e) c1) as (ro & E' & H' & Hc').
      exists ro, deadline. split; [done|]. split; [done|]. rewrite Hc'. destruct Hhr as [_ Hk].
      etransitivity; [exact Hk|]. split; try done. intros _. by apply waited_same. }
  destruct Hhr as (H1 & H2 & Hk & H4). destruct (htonl_ntohl bytes H1 H2) as [Hh Hr].
  destruct (call_total (socket_read deadline cancellable) bytes_to_come (ntohl bytes) output_limit c1 (errno c1)
    core_alloc allocs parse_alloc) as (ro & Ero & _); [lia..|].
  exists ro, deadline. split; [exact Ero|]. split.
  - unfold frame_outcome. destruct (ro_result ro) as [j|] eqn:Ej.
    + assert (core_alloc = true /\ args_ok (ntohl bytes) output_limit) as [Hca Ha].
      { unfold iperf_read_bounded_results in Ero.
        destruct ((output_limit =? 0) || _) eqn:G1; [by injection Ero as <-|].
        destruct ((ntohl bytes =? 0) || _) eqn:G2; [by injection Ero as <-|].
        rewrite orb_false_iff, Z.eqb_neq, Z.ltb_ge in G1, G2. unfold args_ok. split; [|lia].
        destruct core_alloc; [done|by injection Ero as <-]. }
      rewrite Hca in Ero. exists (ntohl bytes), c1. rewrite Hh. split; [exact H4|]. split; [done|].
      eapply (run_success (socket_read deadline cancellable) bytes_to_come); [exact Ha|exact Ero|exact Ej].
    + destruct (call_failure _ _ _ _ _ _ _ _ _ Ero Ej) as (_ & o & G1 & G2 & G3 & _ & G4). by exists o.
  - etransitivity; [exact Hk|].
    eapply (call_context (socket_read deadline cancellable) bytes_to_come (fun c' => kept deadline c1 c')); [..|exact Ero]; [lia|lia| |done].
    intros c2 count Hc2. etransitivity; [exact Hc2|apply socket_read_kept].
Qed.

(** The flags are back unless [fcntl] refuses. *)
Lemma nonblocking_spec getfl setfl c : 0 <= flags c ->
  let '(saved, c') := nonblocking getfl setfl c in
  incoming c' = incoming c /\ sent c' = sent c /\
  (saved = -1 /\ flags c' = flags c \/ saved = flags c /\
   (Z.land (flags c) O_NONBLOCK <> 0 -> flags c' = flags c)).
Proof.
  intros Hf. unfold nonblocking. destruct getfl as [e|]; [by auto|].
  destruct (Z.eqb_spec (Z.land (flags c) O_NONBLOCK) 0); [|by auto].
  destruct setfl as [e'|]; [by auto|]. split; [done|]. split; [done|]. right. by split.
Qed.

Lemma restore_spec saved e setfl c f : saved = f -> (Z.land f O_NONBLOCK <> 0 -> flags c = f) ->
  let '(status, c') := restore saved e setfl c in
  incoming c' = incoming c /\ sent c' = sent c /\ (status = -1 \/ status = 0 /\ errno c' = e) /\
  (setfl = None -> flags c' = f /\ status = 0).
Proof.
  intros -> Hf. unfold restore. destruct (Z.eqb_spec (Z.land f O_NONBLOCK) 0) as [|Hn].
  - destruct setfl; [|by auto 10]. split; [done|]. split; [done|]. split; [by left|done].
  - specialize (Hf Hn). by auto 10.
Qed.

Lemma read_socket_spec fd output_limit timeout_ms cancellable clock getfl setfl resetfl c :
  0 <= output_limit -> 0 <= flags c ->
  exists ro, iperf_read_bounded_results_socket core_alloc allocs parse_alloc fd output_limit timeout_ms cancellable
      (Some empty_output) (Some zero_metrics) clock getfl setfl resetfl c = Ret ro /\
    frame_outcome output_limit c ro /\ sent (ro_context ro) = sent c /\
    (resetfl = None -> flags (ro_context ro) = flags c).
Proof.
  intros Hl Hf. unfold iperf_read_bounded_results_socket.
  pose proof (nonblocking_spec getfl setfl c Hf) as Hn. destruct (nonblocking getfl setfl c) as [saved c1].
  destruct Hn as (Hi & Hs & Hn).
  destruct (Z.ltb_spec saved 0) as [Hneg|Hpos].
  { destruct Hn as [[_ Hfl]|[-> _]]; [|lia]. eexists. split; [done|]. split; [|done]. by eexists. }
  destruct Hn as [[-> _]|[-> Hfl]]; [lia|].
  destruct (read_results_socket_spec fd output_limit timeout_ms cancellable clock c1 Hl) as (ro & deadline & E & H & []).
  rewrite E. pose proof (restore_spec (flags c) (ro_errno ro) resetfl (ro_context ro) (flags c) eq_refl) as Hr.
  destruct (restore _ _ _ _) as [status c2]. destruct Hr as (R1 & R2 & R3 & R4).
  { intros Hz. rewrite k_flags0. auto. }
  destruct (Z.ltb_spec status 0) as [Hneg|Hok].
  - eexists. split; [done|]. split; [|split; [cbn; congruence|cbn; naive_solver]].
    unfold frame_outcome. cbn [ro_result ro_output]. unfold frame_outcome in H.
    assert (exists o, ro_output ro = Some o) as (o & ->).
    { destruct (ro_result ro); [|naive_solver]. destruct H as (? & ? & _ & _ & ? & ? & ? & ? & _ & _ & _ & _ & Ho & _). eauto. }
    by eexists.
  - destruct R3 as [->|[-> R3]]; [lia|]. eexists. split; [done|].
    split; [|split; [cbn; congruence|cbn; naive_solver]].
    unfold frame_outcome in *. cbn [ro_result ro_output].
    destruct (ro_result ro) as [j|]; [|done]. destruct H as (len & c3 & H1 & H2 & ms & o & m & o' & G).
    exists len, c3. split; [|split; [done|]].
    { rewrite <- H1. unfold bytes_to_come. by rewrite Hi. }
    exists ms, o, m, o'. cbn [ro_output ro_metrics ro_errno ro_context]. unfold bytes_to_come in *.
    by rewrite R3, R1.
Qed.
End Frames.

(** ** Writing *)

(** A call of [socket_write]: what is sent is a prefix, and all of it on success. *)
Record write_ok (deadline : Z) (bytes : list Z) (c : conn) (r : Z * conn) : Prop := {
  wo_status : r.1 = 0 \/ r.1 = -1;
  wo_sent : exists l, sent r.2 = sent c ++ l /\ l `prefix_of` bytes /\ (r.1 = 0 -> l = bytes);
  wo_incoming : incoming r.2 = incoming c;
  wo_flags : flags r.2 = flags c;
  wo_waits : deadline_ok deadline -> waited deadline c r.2 }.

Lemma write_fails_ok deadline bytes e c : write_ok deadline bytes c (-1, set_errno e c).
Proof.
  split; try done; [by right| |intros _; by apply waited_same].
  exists []. rewrite app_nil_r. split; [done|]. split; [apply prefix_nil|done].
Qed.

Lemma write_ok_from deadline bytes c c1 r :
  incoming c1 = incoming c -> sent c1 = sent c -> flags c1 = flags c ->
  (deadline_ok deadline -> waited deadline c c1) ->
  write_ok deadline bytes c1 r -> write_ok deadline bytes c r.
Proof.
  intros E1 E2 E3 E4 []. split; try congruence; [by rewrite <- E2|]. intros Hd. etransitivity; auto.
Qed.

Lemma write_loop_ok deadline cancellable ts : forall rest c,
  write_ok deadline rest c (write_loop deadline cancellable rest ts c).
Proof.
  induction ts as [|t ts IH]; intros rest c; cbn [write_loop]; destruct rest as [|x rest'] eqn:Er.
  1,3: split; try done; [by left|];
    exists []; rewrite app_nil_r; split; [done|]; split; [apply prefix_nil|done].
  { eapply write_ok_from; [..|apply write_fails_ok]; try done. intros _. by apply waited_same. }
  rewrite <- Er. cbv zeta. set (c1 := set_ticks ts c).
  assert (forall r, write_ok deadline rest c1 r -> write_ok deadline rest c r) as H1.
  { intros r. apply write_ok_from; try done. intros _. by apply waited_same. }
  destruct (cancellable && t_cancelled t); [apply H1, write_fails_ok|].
  destruct (monotonic_ns (t_clock t)) as [now|e] eqn:Enow; [|apply H1, write_fails_ok].
  apply monotonic_range in Enow.
  destruct (Z.leb_spec deadline now); [apply H1, write_fails_ok|].
  set (c2 := add_wait _ _ c1).
  assert (forall r, write_ok deadline rest c2 r -> write_ok deadline rest c r) as H2.
  { intros r Hr. apply H1. eapply write_ok_from; [..|exact Hr]; try done. intros Hd. by apply waited_add. }
  assert (forall e, write_ok deadline rest c (write_loop deadline cancellable rest ts (set_errno e c2))) as H3.
  { intros e. apply H2. eapply write_ok_from; [..|apply IH]; try done. intros _. by apply waited_same. }
  destruct (t_poll t) as [e| |[]].
  - case_match; [apply H3|apply H2, write_fails_ok].
  - apply H2, IH.
  - apply H2, write_fails_ok.
  - destruct (t_io t) as [n|e]; [|case_match; [apply H3|apply H2, write_fails_ok]].
    set (count := Z.max 0 _). case_match; [apply H2, write_fails_ok|]. apply H2.
    destruct (IH (drop (Z.to_nat count) rest) (set_sent (sent c2 ++ firstn (Z.to_nat count) rest) c2))
      as [S (l & L1 & L2 & L3) I F W]. split; try done.
    exists (firstn (Z.to_nat count) rest ++ l). rewrite L1. cbn [sent set_sent]. rewrite <- app_assoc. split; [done|].
    split.
    + rewrite <- (firstn_skipn (Z.to_nat count) rest) at 2. by apply prefix_app.
    + intros Hz. by rewrite (L3 Hz), firstn_skipn.
Qed.

(** The header and the body, one after the other. *)
Lemma write_ok_app deadline b1 b2 c c1 r :
  write_ok deadline b1 c (0, c1) -> write_ok deadline b2 c1 r -> write_ok deadline (b1 ++ b2) c r.
Proof.
  intros [_ (l1 & A1 & _ & D1) I1 F1 W1] [S2 (l2 & A2 & B2 & D2) I2 F2 W2]. cbn [fst snd] in *.
  split; try congruence; [|intros Hd; etransitivity; auto].
  exists (b1 ++ l2). rewrite A2, A1, (D1 eq_refl), <- app_assoc. split; [done|].
  split; [by apply prefix_app|]. intros Hz. by rewrite (D2 Hz).
Qed.

Lemma write_ok_part deadline b1 b2 c s c1 :
  write_ok deadline b1 c (s, c1) -> write_ok deadline (b1 ++ b2) c (-1, c1).
Proof.
  intros [_ (l1 & A1 & B1 & _) I1 F1 W1]. split; try done; [by right|].
  exists l1. split; [done|]. split; [by apply prefix_app_r|done].
Qed.

Lemma write_results_ok fd bytes length timeout_ms cancellable clock c :
  exists deadline, write_ok deadline (htonl length ++ firstn (Z.to_nat length) bytes) c
    (write_results_socket fd (Some bytes) length timeout_ms cancellable clock c).
Proof.
  unfold write_results_socket. case_match; [exists 0; apply write_fails_ok|].
  destruct (monotonic_ns clock) as [now|e]; [|exists 0; apply write_fails_ok]. cbv zeta.
  set (deadline := u64 _). exists deadline.
  pose proof (write_loop_ok deadline cancellable (ticks c) (htonl length) c) as Hh.
  fold (socket_write deadline cancellable (htonl length) c) in Hh.
  destruct (socket_write deadline cancellable (htonl length) c) as [s1 c1].
  destruct (Z.eqb_spec s1 0) as [->|Hs1]; cbn [negb]; [|by eapply write_ok_part].
  eapply write_ok_app; [exact Hh|apply write_loop_ok].
Qed.

Lemma write_socket_spec fd bytes length timeout_ms cancellable clock getfl setfl resetfl c :
  0 <= flags c ->
  let r := iperf_write_bounded_results_socket fd (Some bytes) length timeout_ms cancellable clock getfl setfl resetfl c in
  (r.1 = 0 \/ r.1 = -1) /\ incoming r.2 = incoming c /\
  (exists l, sent r.2 = sent c ++ l /\ l `prefix_of` htonl length ++ firstn (Z.to_nat length) bytes /\
    (r.1 = 0 -> l = htonl length ++ firstn (Z.to_nat length) bytes)) /\
  (resetfl = None -> flags r.2 = flags c).
Proof.
  intros Hf. cbv zeta. unfold iperf_write_bounded_results_socket.
  pose proof (nonblocking_spec getfl setfl c Hf) as Hn. destruct (nonblocking getfl setfl c) as [saved c1].
  destruct Hn as (Hi & Hs & Hn).
  destruct (Z.ltb_spec saved 0) as [Hneg|Hpos].
  { destruct Hn as [[_ Hfl]|[-> _]]; [|lia]. cbn [fst snd]. split; [by right|]. split; [done|]. split; [|done].
    exists []. rewrite app_nil_r. split; [done|]. split; [apply prefix_nil|done]. }
  destruct Hn as [[-> _]|[-> Hfl]]; [lia|].
  destruct (write_results_ok fd bytes length timeout_ms cancellable clock c1) as [deadline [W1 (l & W4 & W5 & W6) W2 W3 _]].
  destruct (write_results_socket fd (Some bytes) length timeout_ms cancellable clock c1) as [result c2].
  cbn [fst snd] in *. rewrite Hs in W4.
  pose proof (restore_spec (flags c) (errno c2) resetfl c2 (flags c) eq_refl) as Hr.
  destruct (restore _ _ _ _) as [status c3]. destruct Hr as (R1 & R2 & R3 & R4).
  { intros Hz. rewrite W3. auto. }
  cbn [fst snd]. split; [destruct (status <? 0); auto|]. split; [congruence|]. split; [|naive_solver].
  exists l. rewrite R2. split; [done|]. split; [done|]. by destruct (status <? 0).
Qed.

(** ** Properties *)

(** C8: one call of the socket reader.  Whatever the system answers, the call
    returns the next one to [capacity] bytes of the peer, or zero or -1 without
    having consumed any; it polls only before the deadline, between 1 and 100
    ms at a time, and never a full millisecond past the deadline. *)
Theorem socket_read_waits deadline cancellable c capacity (Hd : deadline_ok deadline) :
  let r := socket_read deadline cancellable c capacity in
  (1 <= r_n r <= capacity /\ zlen (r_bytes r) = r_n r /\ bytes_to_come c = r_bytes r ++ bytes_to_come (r_ctx r) \/
   (r_n r = 0 \/ r_n r = -1) /\ bytes_to_come (r_ctx r) = bytes_to_come c) /\
  exists ws, waits (r_ctx r) = waits c ++ ws /\ Forall (wait_ok deadline) ws.
Proof.
  cbv zeta. unfold socket_read. destruct (read_loop_ok deadline cancellable capacity (ticks c) c) as [H _ _ W].
  split; [|exact (W Hd)]. destruct H as [(H1 & H2 & _ & H3)|H]; [left|right]; done.
Qed.

(** C6: reading a framed result from the socket.  For every behaviour of the
    system and the peer the call returns; a result is the tree of exactly the
    frame behind the four header bytes, and the next control byte is still to
    come; without a result no output is left.  The descriptor's flags are back
    unless [fcntl] refuses to restore them. *)
Theorem socket_result_framed core_alloc allocs parse_alloc fd output_limit timeout_ms cancellable clock getfl setfl resetfl c
  (Hl : 0 <= output_limit) (Hf : 0 <= flags c) :
  exists ro, iperf_read_bounded_results_socket core_alloc allocs parse_alloc fd output_limit timeout_ms cancellable
      (Some empty_output) (Some zero_metrics) clock getfl setfl resetfl c = Ret ro /\
    frame_outcome output_limit c ro /\ sent (ro_context ro) = sent c /\
    (resetfl = None -> flags (ro_context ro) = flags c).
Proof. by apply read_socket_spec. Qed.

(** Writing a framed result.  What was sent is a prefix of the header and
    the document; zero means all of it, and everything else is -1. *)
Theorem socket_write_prefix fd bytes length timeout_ms cancellable clock getfl setfl resetfl c (Hf : 0 <= flags c) :
  let r := iperf_write_bounded_results_socket fd (Some bytes) length timeout_ms cancellable clock getfl setfl resetfl c in
  (r.1 = 0 \/ r.1 = -1) /\ incoming r.2 = incoming c /\
  (exists l, sent r.2 = sent c ++ l /\ l `prefix_of` htonl length ++ firstn (Z.to_nat length) bytes /\
    (r.1 = 0 -> l = htonl length ++ firstn (Z.to_nat length) bytes)) /\
  (resetfl = None -> flags r.2 = flags c).
Proof. by apply write_socket_spec. Qed.

(** The two ends of a connection: what [w] sent and [n] more bytes are to come. *)
Lemma frame_between_spec length bytes len output_limit c1 ro j more :
  0 <= length < 4294967296 -> length = zlen bytes ->
  htonl length ++ bytes ++ more = htonl len ++ bytes_to_come c1 ->
  args_ok len output_limit -> frame_read bytes_to_come len output_limit c1 ro j ->
  exists ms, jframe bytes ms /\ tree 65 (core_doc ms) j /\ bytes_to_come (ro_context ro) = more.
Proof.
  intros Hl Hb E Ha (ms & o & m & o' & G1 & G2 & _ & _ & _ & _ & _ & _ & _ & c & Gc1 & Gc2).
  unfold args_ok, IPERF_RESULT_FRAME_MAX_BYTES in Ha. apply app_inj_1 in E as [Eh Eb]; [|done].
  assert (length = len) as El by (rewrite <- (ntohl_htonl length), <- (ntohl_htonl len), Eh by lia; done).
  exists ms. unfold frame_text in G1. rewrite <- Eb, <- El, Hb in G1.
  replace (Z.to_nat (zlen bytes)) with (List.length bytes) in G1 by (unfold zlen; lia).
  rewrite firstn_app, firstn_all, Nat.sub_diag, app_nil_r in G1. split; [done|]. split; [done|].
  rewrite <- Eb in Gc2. apply app_inj_1 in Gc2 as [_ Gc2]; [done|]. unfold zlen in *. lia.
Qed.

(** C7: the two ends agree.  A document that one end wrote successfully, read at
    the other end with more bytes behind it, in whatever pieces and with
    whatever interruptions, gives the tree of that document, and leaves the
    bytes behind it; or it gives no result. *)
Theorem socket_round_trip bytes c fd w_timeout w_cancellable w_clock w_getfl w_setfl w_resetfl
    core_alloc allocs parse_alloc output_limit r_timeout r_cancellable r_clock r_getfl r_setfl r_resetfl r more ro j
  (Hf : 0 <= flags c) (Hsize : 1 <= zlen bytes < 4294967296) (Hl : 0 <= output_limit) (Hrf : 0 <= flags r)
  (Hsent : sent c = [])
  (Hw : (iperf_write_bounded_results_socket fd (Some bytes) (zlen bytes) w_timeout w_cancellable w_clock
           w_getfl w_setfl w_resetfl c).1 = 0)
  (Hin : bytes_to_come r = sent (iperf_write_bounded_results_socket fd (Some bytes) (zlen bytes) w_timeout w_cancellable
           w_clock w_getfl w_setfl w_resetfl c).2 ++ more)
  (Hr : iperf_read_bounded_results_socket core_alloc allocs parse_alloc fd output_limit r_timeout r_cancellable
          (Some empty_output) (Some zero_metrics) r_clock r_getfl r_setfl r_resetfl r = Ret ro)
  (Hj : ro_result ro = Some j) :
  exists ms, jframe bytes ms /\ tree 65 (core_doc ms) j /\ bytes_to_come (ro_context ro) = more.
Proof.
  destruct (write_socket_spec fd bytes (zlen bytes) w_timeout w_cancellable w_clock w_getfl w_setfl w_resetfl c Hf)
    as (_ & _ & (l & A & _ & D) & _). rewrite A, Hsent, (D Hw) in Hin. clear A D Hw.
  destruct (read_socket_spec core_alloc allocs parse_alloc fd output_limit r_timeout r_cancellable r_clock r_getfl
    r_setfl r_resetfl r Hl Hrf) as (ro' & E & H & _). assert (ro' = ro) as -> by congruence.
  unfold frame_outcome in H. rewrite Hj in H. destruct H as (len & c1 & H1 & H2 & H3).
  eapply frame_between_spec; [| |rewrite <- H1, Hin|exact H2|exact H3]; [|reflexivity|]; [lia|].
  unfold zlen. by rewrite Nat2Z.id, firstn_all, app_nil_l, <- app_assoc.
Qed.

(** ** Examples *)

Definition at_ms (ms : Z) : answer (Z * Z) := Value (0, ms * 1000000).

(** A run with a signal, a timeout, a full socket buffer and partial transfers. *)
Definition sample_ticks : list tick :=
  [mk_tick false (at_ms 1) (Poll_failed EINTR) (Value 0); mk_tick false (at_ms 2) (Poll_ready false) (Value 3);
   mk_tick false (at_ms 3) Poll_timeout (Value 0); mk_tick false (at_ms 4) (Poll_ready false) (Failed EAGAIN);
   mk_tick false (at_ms 5) (Poll_ready false) (Value 50)] ++
  map (fun n => mk_tick false (at_ms (Z.of_nat n)) (Poll_ready false) (Value 50)) (seq 6 8).

Definition sample_writer : conn := mk_conn [] [] 2 sample_ticks [] 0.

Definition sample_write : Z * conn :=
  iperf_write_bounded_results_socket 7 (Some sample_frame) (zlen sample_frame) 30000 true (at_ms 0) None None None
    sample_writer.

Definition to_byte (v : Z) : byte :=
  match Byte.of_N (Z.to_N v) with Some b => b | None => x00 end.

Definition sample_reader : conn :=
  mk_conn (map to_byte (sent sample_write.2 ++ [13])) [] 2 sample_ticks [] 0.

Definition sample_read : outcome (@read_outcome conn) :=
  iperf_read_bounded_results_socket true (repeat true 20) (fun _ => true) 7 100 30000 true (Some empty_output)
    (Some zero_metrics) (at_ms 0) None None None sample_reader.

Lemma socket_read_waits_witness :
  r_n (socket_read 30000000000 true sample_reader 4) = 3 /\
  exists ws, waits (r_ctx (socket_read 30000000000 true sample_reader 4)) = waits sample_reader ++ ws /\
    Forall (wait_ok 30000000000) ws.
Proof.
  split; [vm_compute; reflexivity|].
  exact (proj2 (socket_read_waits 30000000000 true sample_reader 4 ltac:(unfold deadline_ok; lia))).
Defined.

Lemma socket_result_framed_witness :
  exists ro, sample_read = Ret ro /\ ro_result ro <> None /\ frame_outcome 100 sample_reader ro.
Proof.
  destruct (socket_result_framed true (repeat true 20) (fun _ => true) 7 100 30000 true (at_ms 0) None None None
    sample_reader ltac:(lia) ltac:(simpl; lia)) as (ro & E & H & _).
  exists ro. split; [exact E|]. split; [|exact H].
  vm_compute in E. injection E as <-. discriminate.
Defined.

Lemma socket_write_prefix_witness :
  sample_write.1 = 0 /\ flags sample_write.2 = 2.
Proof.
  split; [vm_compute; reflexivity|].
  destruct (socket_write_prefix 7 sample_frame (zlen sample_frame) 30000 true (at_ms 0) None None None sample_writer
    ltac:(simpl; lia)) as (_ & _ & _ & H). exact (H eq_refl).
Defined.

Lemma socket_round_trip_witness :
  exists ro j ms, ro_result ro = Some j /\ jframe sample_frame ms /\ tree 65 (core_doc ms) j /\
    bytes_to_come (ro_context ro) = [13].
Proof.
  assert (exists ro j,
    iperf_read_bounded_results_socket true (repeat true 20) (fun _ => true) 7 100 30000 true (Some empty_output)
      (Some zero_metrics) (at_ms 0) None None None sample_reader = Ret ro /\ ro_result ro = Some j)
    as (ro & j & E & Ej).
  { vm_compute. eexists _, _. split; reflexivity. }
  exists ro, j.
  destruct (socket_round_trip sample_frame sample_writer 7 30000 true (at_ms 0) None None None
    true (repeat true 20) (fun _ => true) 100 30000 true (at_ms 0) None None None sample_reader [13] ro j)
    as (ms & H1 & H2 & H3).
  - simpl. lia.
  - vm_compute. split; [discriminate|reflexivity].
  - lia.
  - simpl. lia.
  - reflexivity.
  - vm_compute. reflexivity.
  - vm_compute. reflexivity.
  - exact E.
  - exact Ej.
  - exists ms. repeat (split; [assumption|]). exact H3.
Defined.
