(* ===== verification/BoundedLog.v ===== *)
(** * The bounded log

    [iperf_bounded_log.c]: a log file that keeps a prefix of what is written,
    at most [limit] bytes with the marker that says it was cut.  The stdio
    stream below it is a parameter that may accept fewer bytes and fail at any
    time; [funopen]'s handle is the log itself. *)

From Stdlib Require Import String.
From S2P Require Import Prelude Bytes JsonGrammar.
Local Open Scope c_scope.

(** ** Data *)

Definition EIO : Z := 5.
Definition ENOMEM : Z := 12.
Definition EINVAL : Z := 22.
Definition EFBIG : Z := 27.

Definition marker : list Z := Eval vm_compute in (c_nl :: bytes_of "[iperf log truncated]"%string ++ [c_nl]).
Definition MARKER_SIZE : Z := Eval vm_compute in zlen marker.
Definition TAIL_SIZE : Z := MARKER_SIZE + 3.

Record iperf_log_status := mk_status {
  limit : Z;
  bytes_written : Z;
  file_bytes : Z;
  attempted : bool;
  file_size_known : bool;
  truncated : bool;
  open_errno : Z;
  write_errno : Z;
  close_errno : Z }.

Definition iperf_log_truncation_marker : list Z := marker.
Definition iperf_log_minimum_limit : Z := MARKER_SIZE.

(** What a call of [fwrite] does: the stream after it, the number of bytes it
    took, [ferror] and [errno] after it. *)
Record write_result (Sink : Type) := mk_write { w_sink : Sink; w_n : Z; w_ferror : bool; w_errno : Z }.
Arguments mk_write {Sink}.
Arguments w_sink {Sink}.
Arguments w_n {Sink}.
Arguments w_ferror {Sink}.
Arguments w_errno {Sink}.

(** [slot] after [remember_error(slot, error)]. *)
Definition remember_error (slot error : Z) : Z :=
  if slot =? 0 then (if negb (error =? 0) then error else EIO) else slot.

(** The length of the longest prefix without an incomplete final scalar.  The
    loop goes back over continuation bytes; reading outside [bytes] is refused. *)
Fixpoint lead_of (bytes : list Z) (start : nat) : option nat :=
  match start with
  | O => Some O
  | S start' =>
      match bytes !! start with
      | Some b => if Z.land b 192 =? 128 then lead_of bytes start' else Some start
      | None => None
      end
  end.

Definition width_of (lead : Z) : Z :=
  if (240 <=? lead) && (lead <=? 244) then 4
  else if (224 <=? lead) && (lead <=? 239) then 3
  else if (194 <=? lead) && (lead <=? 223) then 2 else 1.

Definition log_utf8_prefix (bytes : list Z) (count : Z) : option Z :=
  if count =? 0 then Some 0
  else
    match lead_of bytes (Z.to_nat (count - 1)) with
    | None => None
    | Some start =>
        match bytes !! start with
        | None => None
        | Some lead => Some (if count - Z.of_nat start <? width_of lead then Z.of_nat start else count)
        end
    end.

Section Log.
Context {Sink : Type} (fwrite : Sink -> list Z -> write_result Sink).

(** [struct bounded_log] with the status it points to and [errno].  [tail] is
    the used part of the array of [TAIL_SIZE] bytes. *)
Record bounded_log := mk_log {
  sink : option Sink;
  status : iperf_log_status;
  capacity : Z;
  accepted : Z;
  tail : list Z;
  errno : Z }.

Definition LM := CM bounded_log.

Definition set_status (st : iperf_log_status) (l : bounded_log) : bounded_log :=
  mk_log (sink l) st (capacity l) (accepted l) (tail l) (errno l).
Definition set_tail (t : list Z) (l : bounded_log) : bounded_log :=
  mk_log (sink l) (status l) (capacity l) (accepted l) t (errno l).
Definition set_accepted (a : Z) (l : bounded_log) : bounded_log :=
  mk_log (sink l) (status l) (capacity l) a (tail l) (errno l).
Definition set_errno (e : Z) (l : bounded_log) : bounded_log :=
  mk_log (sink l) (status l) (capacity l) (accepted l) (tail l) e.

Definition with_truncated (st : iperf_log_status) : iperf_log_status :=
  mk_status (limit st) (bytes_written st) (file_bytes st) (attempted st) (file_size_known st) true
    (open_errno st) (write_errno st) (close_errno st).
Definition with_written (n e : Z) (st : iperf_log_status) : iperf_log_status :=
  mk_status (limit st) (u64 (bytes_written st + n)) (u64 (file_bytes st + n)) (attempted st)
    (file_size_known st) (truncated st) (open_errno st) e (close_errno st).
Definition with_close_errno (e : Z) (st : iperf_log_status) : iperf_log_status :=
  mk_status (limit st) (bytes_written st) (file_bytes st) (attempted st) (file_size_known st)
    (truncated st) (open_errno st) (write_errno st) e.
Definition with_open_errno (e : Z) (st : iperf_log_status) : iperf_log_status :=
  mk_status (limit st) (bytes_written st) (file_bytes st) (attempted st) (file_size_known st)
    (truncated st) e (write_errno st) (close_errno st).

(** [errno] is saved around [fwrite]. *)
Definition write_bytes (bytes : list Z) : LM unit :=
  l <- get ;;
  match sink l with
  | Some s =>
      if (zlen bytes =? 0) || negb (write_errno (status l) =? 0) then ret tt
      else
        let r := fwrite s bytes in
        let failed := negb (w_n r =? zlen bytes) || w_ferror r in
        let e := if failed then remember_error (write_errno (status l)) (w_errno r)
                 else write_errno (status l) in
        modify (fun l => mk_log (Some (w_sink r)) (with_written (w_n r) e (status l)) (capacity l)
          (accepted l) (tail l) (errno l))
  | None => ret tt
  end.

(** [memcpy(log->tail + log->tail_size, bytes, count)] *)
Definition tail_append (bytes : list Z) : LM unit := fun l =>
  if zlen (tail l) + zlen bytes <=? TAIL_SIZE then Ret (tt, set_tail (tail l ++ bytes) l) else UB.

Definition retain_prefix (bytes : list Z) : LM unit :=
  l <- get ;;
  let tail_size := zlen (tail l) in
  let count := zlen bytes in
  let flush := if TAIL_SIZE <? tail_size + count then tail_size + count - TAIL_SIZE else 0 in
  let old := if flush <? tail_size then flush else tail_size in
  write_bytes (firstn (Z.to_nat old) (tail l)) ;;;
  modify (fun l => set_tail (drop (Z.to_nat old) (tail l)) l) ;;;
  let flush := flush - old in
  write_bytes (firstn (Z.to_nat flush) bytes) ;;;
  tail_append (drop (Z.to_nat flush) bytes).

(** [bounded_write] as [funopen] calls it; the result is its return value. *)
Definition bounded_write (bytes : list Z) (count : Z) : LM Z :=
  l <- get ;;
  if count <=? 0 then ret count
  else if truncated (status l) || negb (open_errno (status l) =? 0) || negb (write_errno (status l) =? 0)
  then ret count
  else if capacity l <? MARKER_SIZE then
    modify (fun l => set_status (with_truncated (status l)) l) ;;;
    ret count
  else
    let remaining := u64 (capacity l - accepted l) in
    let keep := if count <? remaining then count else remaining in
    retain_prefix (firstn (Z.to_nat keep) bytes) ;;;
    modify (fun l => set_accepted (u64 (accepted l + keep)) l) ;;;
    (if remaining <? count then
       modify (fun l => set_status (with_truncated (status l)) l) ;;;
       l <- get ;;
       match log_utf8_prefix (tail l) (u64 (zlen (tail l) - MARKER_SIZE)) with
       | None => undefined
       | Some prefix =>
           write_bytes (firstn (Z.to_nat prefix) (tail l)) ;;;
           write_bytes marker ;;;
           modify (set_tail [])
       end
     else ret tt) ;;;
    ret count.

(** [fclose] answers its result and [errno]. *)
Definition bounded_close (fclose : Sink -> Z * Z) : LM Z :=
  l <- get ;;
  write_bytes (tail l) ;;;
  l <- get ;;
  match sink l with
  | None => ret 0
  | Some s =>
      let '(result, e) := fclose s in
      modify (set_errno e) ;;;
      (if negb (result =? 0) then
         modify (fun l => set_status (with_close_errno (remember_error (close_errno (status l)) e) (status l)) l) ;;;
         modify (fun l => set_errno (close_errno (status l)) l)
       else ret tt) ;;;
      ret result
  end.

(** [calloc], [setvbuf] and [funopen] succeed or fail with an [errno]. *)
Definition iperf_bounded_log_wrap (s : option Sink) (existing_bytes : Z) (st : iperf_log_status)
    (err : Z) (calloc_ok : bool) (setvbuf funopen : option Z) (fclose : Sink -> Z * Z) :
    outcome (option bounded_log * iperf_log_status * Z) :=
  let st := mk_status (limit st) (bytes_written st) existing_bytes true
              (match s with Some _ => true | None => file_size_known st end)
              (truncated st) (open_errno st) (write_errno st) (close_errno st) in
  if negb calloc_ok then
    Ret (None, with_open_errno (remember_error (open_errno st) ENOMEM) st, ENOMEM)
  else
    let bad := (limit st <? MARKER_SIZE) || (limit st <? existing_bytes) in
    let st := if bad
              then with_open_errno (remember_error (open_errno st)
                     (if limit st <? existing_bytes then EFBIG else EINVAL)) st
              else st in
    let capacity := if bad then 0 else u64 (limit st - existing_bytes) in
    let st := match s, setvbuf with
              | Some _, Some e => with_open_errno (remember_error (open_errno st) e) st
              | _, _ => st
              end in
    let log := mk_log s st capacity 0 [] err in
    match funopen with
    | None => Ret (Some log, st, err)
    | Some e =>
        match bounded_close fclose log with
        | Ret (_, l) => Ret (None, with_open_errno (remember_error (open_errno (status l)) e) (status l), e)
        | UB => UB
        | OutOfFuel => OutOfFuel
        end
    end.

(** The outcome of the system calls that open the file. *)
Inductive opened :=
| Open_failed (e : Z)
| Stat_failed (e : Z)
| Not_regular
| Stream_failed (size e : Z)
| Opened (size : Z) (s : Sink).

(** The sink, the existing bytes and the status that
    [iperf_bounded_log_open] hands to [iperf_bounded_log_wrap]. *)
Definition open_sink (o : opened) (st : iperf_log_status) : option Sink * Z * iperf_log_status :=
  if attempted st && (truncated st || negb (open_errno st =? 0) || negb (write_errno st =? 0) ||
                      negb (close_errno st =? 0))
  then (None, file_bytes st, st)
  else
    let known (st : iperf_log_status) :=
      mk_status (limit st) (bytes_written st) (file_bytes st) (attempted st) true (truncated st)
        (open_errno st) (write_errno st) (close_errno st) in
    match o with
    | Open_failed e => (None, 0, with_open_errno (remember_error (open_errno st) e) st)
    | Stat_failed e => (None, 0, with_open_errno (remember_error (open_errno st) e) st)
    | Not_regular => (None, 0, with_open_errno (remember_error (open_errno st) EINVAL) st)
    | Stream_failed size e => (None, size, with_open_errno (remember_error (open_errno st) e) (known st))
    | Opened size s => (Some s, size, known st)
    end.

Definition iperf_bounded_log_open (o : opened) (st : iperf_log_status)
    (err : Z) (calloc_ok : bool) (setvbuf funopen : option Z) (fclose : Sink -> Z * Z) :=
  let '(s, existing, st) := open_sink o st in
  iperf_bounded_log_wrap s existing st err calloc_ok setvbuf funopen fclose.

(** The calls of the [FILE] between opening and closing. *)
Fixpoint write_all (chunks : list (list Z)) : LM (list Z) :=
  match chunks with
  | [] => ret []
  | c :: chunks => n <- bounded_write c (zlen c) ;; ns <- write_all chunks ;; ret (n :: ns)
  end.
End Log.

(** ** The contract *)

(** The longest prefix without an incomplete final scalar. *)
Definition utf8_cut (l : list Z) : list Z :=
  firstn (Z.to_nat (match log_utf8_prefix l (zlen l) with Some p => p | None => 0 end)) l.

(** What a log with room for [cap] bytes keeps of the text [t]. *)
Definition log_text (cap : Z) (t : list Z) : list Z :=
  if cap <? MARKER_SIZE then []
  else if zlen t <=? cap then t
  else utf8_cut (firstn (Z.to_nat (cap - MARKER_SIZE)) t) ++ marker.

Definition log_cut (cap : Z) (t : list Z) : bool :=
  if cap <? MARKER_SIZE then negb (zlen t =? 0) else cap <? zlen t.

(** What the log relies on: [fwrite] appends the bytes it says it took. *)
Class StdioSink {Sink : Type} (fwrite : Sink -> list Z -> write_result Sink) (contents : Sink -> list Z) : Prop := {
  fwrite_count s bs : 0 <= w_n (fwrite s bs) <= zlen bs;
  fwrite_appends s bs : contents (w_sink (fwrite s bs)) = contents s ++ firstn (Z.to_nat (w_n (fwrite s bs))) bs }.

(** ** Cutting at a scalar *)

Lemma zlen_firstn {A} (l : list A) n : 0 <= n -> zlen (firstn (Z.to_nat n) l) = Z.min n (zlen l).
Proof. intros Hn. unfold zlen. rewrite length_firstn. lia. Qed.

Lemma zlen_drop {A} (l : list A) n : 0 <= n -> zlen (drop (Z.to_nat n) l) = Z.max 0 (zlen l - n).
Proof. intros Hn. unfold zlen. rewrite length_drop. lia. Qed.

Lemma lead_of_le bytes n k : lead_of bytes n = Some k -> (k <= n)%nat.
Proof.
  revert k. induction n as [|n IH]; intros k H; cbn [lead_of] in H; [by simplify_eq|].
  destruct (bytes !! S n) as [b|]; [|done]. case_match; [|by simplify_eq]. specialize (IH k H). lia.
Qed.

Lemma lead_of_total bytes n : (n < length bytes)%nat -> exists k, lead_of bytes n = Some k.
Proof.
  induction n as [|n IH]; intros H; cbn [lead_of]; [eauto|].
  destruct (lookup_lt_is_Some_2 bytes (S n) H) as [b ->]. case_match; [apply IH; lia|eauto].
Qed.

Lemma utf8_prefix_total bytes count : 0 <= count <= zlen bytes ->
  exists p, log_utf8_prefix bytes count = Some p /\ 0 <= p <= count.
Proof.
  intros Hc. unfold log_utf8_prefix. destruct (Z.eqb_spec count 0) as [->|]; [exists 0; split; [done|lia]|].
  destruct (lead_of_total bytes (Z.to_nat (count - 1))) as [k Hk]; [unfold zlen in Hc; lia|]. rewrite Hk.
  apply lead_of_le in Hk. destruct (lookup_lt_is_Some_2 bytes k) as [b ->]; [unfold zlen in Hc; lia|].
  eexists. split; [done|]. case_match; lia.
Qed.

(** Only the first [count] bytes matter. *)
Lemma lead_of_app bytes more n : (n < length bytes)%nat -> lead_of (bytes ++ more) n = lead_of bytes n.
Proof.
  induction n as [|n IH]; intros H; [done|]. cbn [lead_of]. rewrite lookup_app_l by lia.
  destruct (bytes !! S n); [|done]. case_match; [apply IH; lia|done].
Qed.

Lemma utf8_prefix_app bytes more : log_utf8_prefix (bytes ++ more) (zlen bytes) = log_utf8_prefix bytes (zlen bytes).
Proof.
  unfold log_utf8_prefix. destruct (Z.eqb_spec (zlen bytes) 0); [done|].
  assert (Z.to_nat (zlen bytes - 1) < length bytes)%nat as H by (unfold zlen in *; lia).
  rewrite lead_of_app by done. destruct (lead_of bytes _) as [k|] eqn:E; [|done]. apply lead_of_le in E.
  by rewrite lookup_app_l by lia.
Qed.

Lemma land_192 b : 0 <= b < 256 -> Z.land b 192 = b / 64 * 64.
Proof.
  intros Hb.
  assert (forallb (fun n => Z.land (Z.of_nat n) 192 =? Z.of_nat n / 64 * 64) (seq 0 256) = true) as F
    by (vm_compute; reflexivity).
  rewrite forallb_forall in F. specialize (F (Z.to_nat b) ltac:(apply in_seq; lia)).
  rewrite Z2Nat.id in F by lia. by apply Z.eqb_eq in F.
Qed.

Lemma width_continuation b : Z.land b 192 = 128 -> 0 <= b < 256 -> width_of b = 1.
Proof.
  intros H Hb. rewrite land_192 in H by done.
  assert (128 <= b < 192) by (Z.to_euclidean_division_equations; lia).
  unfold width_of. repeat case_match; lia.
Qed.

Lemma width_range b : 1 <= width_of b <= 4.
Proof. unfold width_of. repeat case_match; lia. Qed.

(** Three bytes are enough to see an incomplete scalar. *)
Lemma utf8_prefix_window f a b c : Forall byte_ok [a; b; c] ->
  log_utf8_prefix (f ++ [a; b; c]) (zlen (f ++ [a; b; c])) =
  match log_utf8_prefix [a; b; c] 3 with Some p => Some (zlen f + p) | None => None end.
Proof.
  intros Hb. rewrite !Forall_cons in Hb. destruct Hb as (Ha & Hbb & Hc & _).
  set (n := length f). assert (zlen (f ++ [a; b; c]) = Z.of_nat n + 3) as -> by (unfold zlen; rewrite length_app; simpl; lia).
  assert (forall i x, [a; b; c] !! i = Some x -> (f ++ [a; b; c]) !! (n + i)%nat = Some x) as Hi.
  { intros i x H. rewrite lookup_app_r by (unfold n; lia). by replace (n + i - length f)%nat with i by (unfold n; lia). }
  pose proof (Hi 0%nat a eq_refl) as H0. pose proof (Hi 1%nat b eq_refl) as H1. pose proof (Hi 2%nat c eq_refl) as H2.
  unfold log_utf8_prefix. rewrite (proj2 (Z.eqb_neq _ 0)) by lia.
  replace (Z.to_nat (Z.of_nat n + 3 - 1)) with (S (n + 1)) by lia.
  change (Z.to_nat (3 - 1)) with 2%nat. cbn [lead_of Z.eqb].
  replace (S (n + 1)) with (n + 2)%nat by lia. rewrite H2. simpl ([a; b; c] !! 2%nat). cbn match.
  assert (zlen f = Z.of_nat n) as -> by done.
  destruct (Z.eqb_spec (Z.land c 192) 128) as [Ec|Ec].
  2:{ rewrite H2. simpl ([a; b; c] !! 2%nat). cbn match. change (3 - Z.of_nat 2) with 1.
      replace (Z.of_nat n + 3 - Z.of_nat (n + 2)) with 1 by lia. case_match; f_equal; lia. }
  replace (n + 1)%nat with (S n) by lia. cbn [lead_of]. replace (S n) with (n + 1)%nat by lia.
  rewrite H1. simpl ([a; b; c] !! 1%nat). cbn match.
  destruct (Z.eqb_spec (Z.land b 192) 128) as [Eb|Eb].
  2:{ rewrite H1. simpl ([a; b; c] !! 1%nat). cbn match. change (3 - Z.of_nat 1) with 2.
      replace (Z.of_nat n + 3 - Z.of_nat (n + 1)) with 2 by lia. case_match; f_equal; lia. }
  simpl ([a; b; c] !! 0%nat). cbn match. change (3 - Z.of_nat 0) with 3.
  destruct (Z.eqb_spec (Z.land a 192) 128) as [Ea|Ea].
  - rewrite (width_continuation a) by done. cbn [Z.ltb Z.compare].
    destruct (lead_of_total (f ++ [a; b; c]) n) as [k Hk]; [rewrite length_app; unfold n; simpl; lia|]. rewrite Hk.
    apply lead_of_le in Hk. destruct (lookup_lt_is_Some_2 (f ++ [a; b; c]) k) as [x Hx]; [rewrite length_app; unfold n in *; simpl; lia|].
    rewrite Hx. destruct (decide (k = n)) as [->|].
    + assert (x = a) as -> by (rewrite Nat.add_0_r in H0; congruence). rewrite width_continuation by done.
      rewrite (proj2 (Z.ltb_ge _ _)) by lia. done.
    + pose proof (width_range x). rewrite (proj2 (Z.ltb_ge _ _)) by lia. done.
  - assert (lead_of (f ++ [a; b; c]) n = Some n) as ->.
    { destruct n as [|m] eqn:En; [done|]. cbn [lead_of]. rewrite Nat.add_0_r in H0. rewrite H0.
      by rewrite (proj2 (Z.eqb_neq _ _) Ea). }
    rewrite Nat.add_0_r in H0. rewrite H0. replace (Z.of_nat n + 3 - Z.of_nat n) with 3 by lia.
    case_match; f_equal; lia.
Qed.

(** The shape of an encoded scalar. *)
Definition continuation (b : Z) : Prop := Z.land b 192 = 128.

Lemma utf8_encode_shape v : 0 <= v <= 1114111 ->
  exists lead cs, utf8_encode v = lead :: cs /\ ~ continuation lead /\ Forall continuation cs /\
    width_of lead = 1 + zlen cs.
Proof.
  intros Hv. rewrite utf8_encode_arith by done.
  assert (forall x, continuation (128 + x mod 64)) as Hc.
  { intros x. pose proof (Z.mod_pos_bound x 64 ltac:(lia)). unfold continuation.
    rewrite land_192 by lia. Z.to_euclidean_division_equations. lia. }
  assert (forall b, 0 <= b < 256 -> ~ 128 <= b < 192 -> ~ continuation b) as Hnc.
  { intros b Hb Hn. unfold continuation. rewrite land_192 by done. Z.to_euclidean_division_equations. lia. }
  assert (forall d, 0 < d -> 0 <= v / d <= v) by (intros d Hd; split; [apply Z.div_pos|apply Z.div_le_upper_bound]; nia).
  repeat case_match; repeat case_Z; try done; eexists _, _; (split; [reflexivity|]);
    (split; [apply Hnc; Z.to_euclidean_division_equations; lia|]);
    (split; [repeat constructor; apply Hc|]);
    unfold zlen, width_of; cbn [length]; repeat case_match; Z.to_euclidean_division_equations; lia.
Qed.

Lemma lead_back f b cs : ~ continuation b -> Forall continuation cs ->
  lead_of (f ++ b :: cs) (length f + length cs) = Some (length f).
Proof.
  intros Hb. induction cs as [|x cs IH] using rev_ind; intros Hcs; cbn [length].
  - rewrite Nat.add_0_r. destruct (length f) as [|n] eqn:En; [done|]. cbn [lead_of].
    rewrite lookup_app_r, En, Nat.sub_diag by lia. simpl. by rewrite (proj2 (Z.eqb_neq _ _) Hb).
  - apply Forall_app in Hcs as [Hcs Hx]. apply Forall_cons in Hx as [Hx _].
    rewrite length_app. cbn [length]. replace (length f + (length cs + 1))%nat with (S (length f + length cs)) by lia.
    cbn [lead_of]. rewrite lookup_app_r by lia.
    replace (S (length f + length cs) - length f)%nat with (S (length cs)) by lia. simpl.
    rewrite lookup_app_r, Nat.sub_diag by lia. simpl. rewrite (proj2 (Z.eqb_eq _ _) Hx).
    rewrite app_comm_cons, app_assoc, lead_of_app; [auto|]. rewrite length_app. simpl. lia.
Qed.

Lemma utf8_prefix_lead f b cs : ~ continuation b -> Forall continuation cs ->
  log_utf8_prefix (f ++ b :: cs) (zlen (f ++ b :: cs)) =
  Some (if 1 + zlen cs <? width_of b then zlen f else zlen (f ++ b :: cs)).
Proof.
  intros Hb Hcs. unfold log_utf8_prefix. assert (zlen (f ++ b :: cs) = zlen f + 1 + zlen cs) as El.
  { rewrite zlen_app, zlen_cons. lia. }
  rewrite El, (proj2 (Z.eqb_neq _ _)) by (unfold zlen; lia).
  replace (Z.to_nat (zlen f + 1 + zlen cs - 1)) with (length f + length cs)%nat by (unfold zlen; lia).
  rewrite lead_back by done. rewrite lookup_app_r, Nat.sub_diag by lia. simpl.
  f_equal. change (Z.of_nat (length f)) with (zlen f). replace (zlen f + 1 + zlen cs - zlen f) with (1 + zlen cs) by lia.
  done.
Qed.

Lemma utf8_cut_keep f r : log_utf8_prefix (f ++ r) (zlen (f ++ r)) = Some (zlen f) -> utf8_cut (f ++ r) = f.
Proof.
  intros E. unfold utf8_cut. rewrite E. unfold zlen.
  by rewrite Nat2Z.id, firstn_app, firstn_all, Nat.sub_diag, app_nil_r.
Qed.

Lemma utf8_cut_whole pre : Forall (fun v => 0 <= v <= 1114111) pre ->
  utf8_cut (concat (utf8_encode <$> pre)) = concat (utf8_encode <$> pre).
Proof.
  intros Hpre. destruct pre as [|v pre _] using rev_ind; [done|].
  apply Forall_app in Hpre as [_ Hv]. apply Forall_cons in Hv as [Hv _].
  destruct (utf8_encode_shape v Hv) as (b & cs & E & Hb & Hcs & Hw).
  rewrite fmap_app, concat_app. cbn [fmap list_fmap concat]. rewrite app_nil_r, E.
  set (l := concat _ ++ _). pose proof (utf8_cut_keep l []) as H. rewrite app_nil_r in H. apply H.
  unfold l. rewrite utf8_prefix_lead by done. by rewrite Hw, Z.ltb_irrefl.
Qed.

(** Cutting encoded text leaves the encoding of a run of its scalars. *)
Lemma utf8_cut_after vs : Forall (fun v => 0 <= v <= 1114111) vs ->
  forall n pre, Forall (fun v => 0 <= v <= 1114111) pre ->
  exists k, utf8_cut (concat (utf8_encode <$> pre) ++ firstn n (concat (utf8_encode <$> vs))) =
      concat (utf8_encode <$> (pre ++ firstn k vs)) /\
    (k = length vs \/ exists v, vs !! k = Some v /\ Z.of_nat n < zlen (concat (utf8_encode <$> firstn (S k) vs))).
Proof.
  induction 1 as [|v vs Hv Hvs IH]; intros n pre Hpre.
  - exists 0%nat. split; [|by left]. rewrite firstn_nil, !app_nil_r. by apply utf8_cut_whole.
  - change (utf8_encode <$> v :: vs) with (utf8_encode v :: (utf8_encode <$> vs)). cbn [concat].
    pose proof (utf8_encode_length v) as Hl. destruct (decide (length (utf8_encode v) <= n)%nat) as [Hn|Hn].
    + rewrite firstn_app, firstn_all2 by done. rewrite app_assoc.
      destruct (IH (n - length (utf8_encode v))%nat (pre ++ [v])) as (k & H1 & H2).
      { apply Forall_app. split; [done|by constructor]. }
      exists (S k). rewrite fmap_app, concat_app in H1. cbn [fmap list_fmap concat] in H1.
      rewrite app_nil_r, <- !app_assoc in H1. rewrite <- app_assoc. split; [exact H1|].
      destruct H2 as [->|(w & Hw & Hk)]; [by left|]. right. exists w. split; [done|].
      change (firstn (S (S k)) (v :: vs)) with (v :: firstn (S k) vs). rewrite fmap_cons. cbn [concat].
      rewrite zlen_app. unfold zlen in *. lia.
    + exists 0%nat. split; [|right; exists v; split; [done|]].
      2:{ cbn [firstn fmap list_fmap concat]. rewrite app_nil_r. unfold zlen in *. lia. }
      cbn [firstn]. rewrite app_nil_r. rewrite firstn_app.
      replace (n - length (utf8_encode v))%nat with 0%nat by lia. cbn [firstn]. rewrite app_nil_r.
      destruct (utf8_encode_shape v Hv) as (b & cs & E & Hb & Hcs & Hw). rewrite E in *.
      destruct n as [|n]; [cbn [firstn]; rewrite app_nil_r; by apply utf8_cut_whole|].
      cbn [firstn length] in *. apply utf8_cut_keep.
      rewrite utf8_prefix_lead; [|done|by apply Forall_take].
      assert (zlen (firstn n cs) = Z.of_nat n) as -> by (unfold zlen; rewrite length_firstn; lia).
      rewrite (proj2 (Z.ltb_lt _ _)); [done|]. unfold zlen in *. lia.
Qed.

(** ** The state while writing *)

Section Spec.
Context {Sink : Type} (fwrite : Sink -> list Z -> write_result Sink) (contents : Sink -> list Z).
Context `{!StdioSink fwrite contents}.
#[local] Abbreviation bounded_log := (@bounded_log Sink).

Definition U64_MAX : Z := 18446744073709551615.

Lemma remember_error_nonzero slot error : remember_error slot error <> 0.
Proof. unfold remember_error, EIO. repeat case_match; lia. Qed.

(** [bytes] were handed to [write_bytes]. *)
Record wrote (l : bounded_log) (bytes : list Z) (l' : bounded_log) : Prop := {
  wr_capacity : capacity l' = capacity l;
  wr_accepted : accepted l' = accepted l;
  wr_errno : errno l' = errno l;
  wr_limit : limit (status l') = limit (status l);
  wr_none : sink l' = None <-> sink l = None;
  wr_truncated : truncated (status l') = truncated (status l);
  wr_open : open_errno (status l') = open_errno (status l);
  wr_close : close_errno (status l') = close_errno (status l);
  wr_file : file_bytes (status l) <= file_bytes (status l') <= file_bytes (status l) + zlen bytes;
  wr_failed : write_errno (status l) <> 0 -> write_errno (status l') = write_errno (status l);
  wr_sink : write_errno (status l') = 0 ->
    match sink l with
    | Some s => exists s', sink l' = Some s' /\ contents s' = contents s ++ bytes /\
                  file_bytes (status l') = file_bytes (status l) + zlen bytes
    | None => sink l' = None
    end }.

Lemma wrote_trans l1 b1 l2 b2 l3 : wrote l1 b1 l2 -> wrote l2 b2 l3 -> wrote l1 (b1 ++ b2) l3.
Proof.
  intros [] []. split; try congruence; try tauto.
  - rewrite zlen_app. lia.
  - intros H. rewrite wr_failed1; [auto|]. by rewrite wr_failed0.
  - intros H. assert (write_errno (status l2) = 0) as H2.
    { destruct (Z.eq_dec (write_errno (status l2)) 0); [done|]. rewrite wr_failed1 in H; done. }
    specialize (wr_sink0 H2). specialize (wr_sink1 H). destruct (sink l1) as [s|].
    + destruct wr_sink0 as (s2 & E2 & C2 & F2). rewrite E2 in wr_sink1.
      destruct wr_sink1 as (s3 & E3 & C3 & F3). exists s3. split; [done|].
      rewrite C3, C2, zlen_app, app_assoc. split; [done|lia].
    + by rewrite wr_sink0 in wr_sink1.
Qed.

Lemma wrote_nothing l t : wrote l [] (set_tail t l).
Proof.
  split; try done.
  - simpl. rewrite zlen_nil. lia.
  - intros _. simpl. destruct (sink l); [|done]. eexists. split; [done|]. rewrite app_nil_r, zlen_nil. split; [done|lia].
Qed.

Lemma write_bytes_spec bytes l :
  0 <= file_bytes (status l) -> file_bytes (status l) + zlen bytes <= U64_MAX ->
  wp (write_bytes fwrite bytes) (fun _ l' => wrote l bytes l' /\ tail l' = tail l) l.
Proof.
  intros H0 Hmax. unfold write_bytes. wp_step. wp_step. pose proof (zlen_nonneg bytes).
  destruct (sink l) as [s|] eqn:Es.
  2:{ wp_step. split; [|done]. split; try done; [lia|]. intros _. by rewrite Es. }
  destruct ((zlen bytes =? 0) || negb (write_errno (status l) =? 0)) eqn:E.
  { wp_step. split; [|done]. split; try done; [lia|]. intros Hw. rewrite Es. exists s. split; [done|].
    rewrite Hw in E. simpl in E. rewrite orb_false_r, Z.eqb_eq in E.
    assert (bytes = []) as -> by (unfold zlen in E; destruct bytes; [done|simpl in E; lia]).
    rewrite app_nil_r, zlen_nil. split; [done|lia]. }
  apply orb_false_iff in E as [_ E%negb_false_iff%Z.eqb_eq]. cbv zeta.
  pose proof (fwrite_count s bytes) as Hn. pose proof (fwrite_appends s bytes) as Ha.
  set (r := fwrite s bytes) in *. wp_step. split; [|done].
  assert (u64 (file_bytes (status l) + w_n r) = file_bytes (status l) + w_n r) as Hu.
  { apply wrapu_small. unfold U64_MAX in Hmax. lia. }
  split; try done; simpl; rewrite ?Hu; [rewrite Es; by split|lia|]. intros Hw. rewrite Es.
  destruct (negb (w_n r =? zlen bytes) || w_ferror r) eqn:Ef; [by destruct (remember_error_nonzero _ _ Hw)|].
  apply orb_false_iff in Ef as [Ef%negb_false_iff%Z.eqb_eq _]. eexists. split; [done|].
  rewrite Ef, Ha, Ef. unfold zlen. rewrite Nat2Z.id, firstn_all. done.
Qed.

(** The number of bytes that leave the tail when [count] more arrive. *)
Definition flushed (l : bounded_log) (bytes : list Z) : Z := Z.max 0 (zlen (tail l) + zlen bytes - TAIL_SIZE).

Lemma retain_prefix_spec bytes l :
  zlen (tail l) <= TAIL_SIZE -> 0 <= file_bytes (status l) ->
  file_bytes (status l) + zlen (tail l) + zlen bytes <= U64_MAX ->
  wp (retain_prefix fwrite bytes) (fun _ l' =>
    wrote l (firstn (Z.to_nat (flushed l bytes)) (tail l ++ bytes)) l' /\
    tail l' = drop (Z.to_nat (flushed l bytes)) (tail l ++ bytes)) l.
Proof.
  intros Ht H0 Hmax. unfold retain_prefix. wp_step. wp_step. cbv zeta.
  pose proof (zlen_nonneg (tail l)). pose proof (zlen_nonneg bytes).
  assert ((if TAIL_SIZE <? zlen (tail l) + zlen bytes then zlen (tail l) + zlen bytes - TAIL_SIZE else 0) =
    flushed l bytes) as -> by (unfold flushed; case_Z; lia).
  set (f := flushed l bytes). assert (0 <= f <= zlen (tail l) + zlen bytes) as Hf by (unfold f, flushed, TAIL_SIZE, MARKER_SIZE; lia).
  set (old := if f <? zlen (tail l) then f else zlen (tail l)).
  assert (old = Z.min f (zlen (tail l))) as Ho by (unfold old; case_Z; lia). clearbody old.
  wp_step. eapply wp_mono; [apply write_bytes_spec; [done|rewrite zlen_firstn by lia; lia]|].
  intros _ l1 [W1 T1]. wp_step. wp_step. set (l2 := set_tail _ l1).
  pose proof (wrote_trans _ _ _ _ _ W1 (wrote_nothing l1 (drop (Z.to_nat old) (tail l1)))) as W2.
  fold l2 in W2. rewrite app_nil_r in W2. pose proof (wr_file _ _ _ W2) as F2. rewrite zlen_firstn in F2 by lia.
  wp_step. eapply wp_mono; [apply write_bytes_spec; [lia|rewrite zlen_firstn by lia; lia]|].
  intros _ l3 [W3 T3]. pose proof (wrote_trans _ _ _ _ _ W2 W3) as W13.
  unfold tail_append, wp. simpl in T3. rewrite T3, T1, !zlen_drop by lia.
  assert ((Z.max 0 (zlen (tail l) - old) + Z.max 0 (zlen bytes - (f - old)) <=? TAIL_SIZE) = true) as ->.
  { apply Z.leb_le. unfold f, flushed in *. lia. }
  assert (Z.to_nat f - length (tail l) = Z.to_nat (f - old))%nat as E1 by (unfold zlen in *; lia).
  split.
  - assert (firstn (Z.to_nat f) (tail l ++ bytes) =
      firstn (Z.to_nat old) (tail l) ++ firstn (Z.to_nat (f - old)) bytes) as ->.
    { rewrite firstn_app, E1. f_equal. destruct (decide (f <= zlen (tail l))).
      - by replace old with f by lia.
      - rewrite !firstn_all2; [done|unfold zlen in *; lia..]. }
    destruct W13. split; done.
  - simpl. rewrite drop_app, E1. f_equal. destruct (decide (f <= zlen (tail l))).
    + by replace old with f by lia.
    + rewrite !drop_ge; [done|unfold zlen in *; lia..].
Qed.

(** ** The invariant *)

(** The log after the text [t] was written to it: it still holds all of [t],
    it has been cut, or writing failed.  [c0] is the file before. *)
Record open_state (c0 : list Z) (ex : Z) (t : list Z) (l : bounded_log) : Prop := {
  os_fits : zlen t <= capacity l;
  os_marker : MARKER_SIZE <= capacity l \/ t = [];
  os_truncated : truncated (status l) = false;
  os_accepted : accepted l = zlen t;
  os_tail : tail l = drop (Z.to_nat (zlen t - TAIL_SIZE)) t;
  os_file : ex <= file_bytes (status l) <= ex + zlen t - zlen (tail l);
  os_contents : match sink l with
    | Some s => contents s = c0 ++ firstn (Z.to_nat (zlen t - TAIL_SIZE)) t /\
        file_bytes (status l) = ex + zlen t - zlen (tail l)
    | None => True
    end }.

Record cut_state (c0 : list Z) (ex : Z) (t : list Z) (l : bounded_log) : Prop := {
  cs_cut : log_cut (capacity l) t = true;
  cs_truncated : truncated (status l) = true;
  cs_tail : tail l = [];
  cs_contents : match sink l with Some s => contents s = c0 ++ log_text (capacity l) t | None => True end }.

Record log_state (c0 : list Z) (ex : Z) (t : list Z) (l : bounded_log) : Prop := {
  ls_existing : 0 <= ex;
  ls_capacity : 0 <= capacity l;
  ls_limit : ex + capacity l <= limit (status l) <= U64_MAX;
  ls_open : open_errno (status l) = 0;
  ls_file : ex <= file_bytes (status l) /\ file_bytes (status l) + zlen (tail l) <= ex + capacity l;
  ls_tail : zlen (tail l) <= TAIL_SIZE;
  ls_state : write_errno (status l) = 0 -> open_state c0 ex t l \/ cut_state c0 ex t l }.

(** The tail and what was flushed, as the text grows. *)
Lemma tail_grows (t c : list Z) :
  let a := Z.to_nat (zlen t - TAIL_SIZE) in
  let f := Z.to_nat (Z.max 0 (zlen (drop a t) + zlen c - TAIL_SIZE)) in
  let b := Z.to_nat (zlen (t ++ c) - TAIL_SIZE) in
  firstn a t ++ firstn f (drop a t ++ c) = firstn b (t ++ c) /\ drop f (drop a t ++ c) = drop b (t ++ c).
Proof.
  intros a f b. assert (a <= length t)%nat as Ha by (unfold a, zlen, TAIL_SIZE, MARKER_SIZE; lia).
  assert (b = a + f)%nat as ->.
  { unfold b, f, zlen. rewrite length_app, length_drop. unfold a, zlen, TAIL_SIZE, MARKER_SIZE. lia. }
  rewrite <- (firstn_skipn a t) at 3 5. rewrite <- app_assoc.
  assert (length (firstn a t) = a) as El by (rewrite length_firstn; lia).
  split.
  - rewrite (firstn_app (a + f) (firstn a t)), El, (firstn_all2 (firstn a t)) by lia. do 2 f_equal. lia.
  - rewrite (drop_app (firstn a t)), El, (drop_ge (firstn a t)) by lia. simpl. f_equal. lia.
Qed.

Lemma log_state_same c0 ex t l l' :
  log_state c0 ex t l -> sink l' = sink l -> status l' = status l -> capacity l' = capacity l ->
  accepted l' = accepted l -> tail l' = tail l -> log_state c0 ex t l'.
Proof.
  intros [] E1 E2 E3 E4 E5. split; rewrite ?E1, ?E2, ?E3, ?E4, ?E5; try done. intros H.
  destruct (ls_state0 H) as [[]|[]]; [left|right]; split; rewrite ?E1, ?E2, ?E3, ?E4, ?E5; done.
Qed.

(** More text after the cut changes nothing. *)
Lemma log_cut_more cap t c : 0 <= cap -> log_cut cap t = true ->
  log_cut cap (t ++ c) = true /\ log_text cap (t ++ c) = log_text cap t.
Proof.
  unfold log_cut, log_text. intros Hc. pose proof (zlen_nonneg t). pose proof (zlen_nonneg c). rewrite zlen_app.
  destruct (Z.ltb_spec cap MARKER_SIZE).
  - rewrite !negb_true_iff, !Z.eqb_neq. split; [lia|done].
  - rewrite !Z.ltb_lt. intros Ht. split; [lia|].
    rewrite (proj2 (Z.leb_gt (zlen t + zlen c) cap)), (proj2 (Z.leb_gt (zlen t) cap)) by lia.
    rewrite firstn_app. replace (Z.to_nat (cap - MARKER_SIZE) - length t)%nat with 0%nat by (unfold zlen, MARKER_SIZE in *; lia).
    simpl. by rewrite app_nil_r.
Qed.

(** Accepting [c] while there is room. *)
Lemma accept_spec c0 ex t c l :
  log_state c0 ex t l -> write_errno (status l) = 0 -> open_state c0 ex t l -> MARKER_SIZE <= capacity l ->
  zlen t + zlen c <= capacity l ->
  wp (retain_prefix fwrite c ;;; modify (fun l => set_accepted (u64 (accepted l + zlen c)) l))
    (fun _ l' => errno l' = errno l /\ capacity l' = capacity l /\ limit (status l') = limit (status l) /\
       (sink l' = None <-> sink l = None) /\ log_state c0 ex (t ++ c) l' /\
       (write_errno (status l') = 0 -> open_state c0 ex (t ++ c) l') /\
       tail l' = drop (Z.to_nat (zlen (t ++ c) - TAIL_SIZE)) (t ++ c) /\ truncated (status l') = false) l.
Proof.
  intros [] Hw [] Hm Hfit. pose proof (zlen_nonneg t). pose proof (zlen_nonneg c). pose proof (zlen_nonneg (tail l)).
  wp_step. eapply wp_mono; [apply retain_prefix_spec; [done|lia|]|].
  { assert (zlen (tail l) <= zlen t) by (rewrite os_tail0; unfold zlen; rewrite length_drop; lia). lia. }
  intros _ l1 [[] Et]. wp_step.
  destruct (tail_grows t c) as [G1 G2]. unfold flushed in *. rewrite os_tail0 in Et, wr_sink0, wr_file0.
  rewrite G2 in Et. set (b := Z.to_nat (zlen (t ++ c) - TAIL_SIZE)) in *.
  assert (zlen (tail l1) = Z.min (zlen (t ++ c)) TAIL_SIZE) as Hl1.
  { rewrite Et. unfold zlen, b. rewrite length_drop. unfold zlen. unfold TAIL_SIZE, MARKER_SIZE. lia. }
  assert (zlen (tail l) = Z.min (zlen t) TAIL_SIZE) as Hl.
  { rewrite os_tail0. unfold zlen. rewrite length_drop. unfold zlen. unfold TAIL_SIZE, MARKER_SIZE. lia. }
  rewrite <- os_tail0 in wr_file0, wr_sink0.
  assert (zlen (firstn (Z.to_nat (Z.max 0 (zlen (tail l) + zlen c - TAIL_SIZE))) (tail l ++ c)) =
    Z.max 0 (zlen (tail l) + zlen c - TAIL_SIZE)) as Hfl.
  { rewrite zlen_firstn, zlen_app by lia. unfold TAIL_SIZE, MARKER_SIZE. lia. }
  rewrite Hfl in wr_file0. rewrite zlen_app in *.
  assert (ex <= file_bytes (status l1) <= ex + (zlen t + zlen c) - zlen (tail l1)) as Hfile by lia.
  assert (write_errno (status l1) = 0 -> open_state c0 ex (t ++ c) (set_accepted (u64 (accepted l1 + zlen c)) l1)) as Hos.
  { intros Hw1. split; simpl; rewrite ?zlen_app; try done; try congruence; try lia.
    - rewrite wr_accepted0, os_accepted0. apply wrapu_small. unfold U64_MAX in *. lia.
    - rewrite Et. unfold b. by rewrite zlen_app.
    - specialize (wr_sink0 Hw1). destruct (sink l) as [s|]; [|by rewrite wr_sink0].
      destruct wr_sink0 as (s' & -> & Hc & Hf). destruct os_contents0 as [Hc0 Hf0].
      split; [|rewrite Hf, Hfl; lia]. rewrite Hc, Hc0, <- app_assoc. f_equal.
      rewrite os_tail0 at 2. rewrite os_tail0 at 1. rewrite G1. unfold b. by rewrite zlen_app. }
  do 4 (split; [done|]). split.
  - split; simpl; rewrite ?zlen_app; try done; try congruence; try lia.
    intros Hw1. left. by apply Hos.
  - split; [done|]. split; [done|]. simpl. congruence.
Qed.
(** What is left of the tail at the cut, and the text it completes. *)
Lemma cut_tail t cap : zlen t = cap -> MARKER_SIZE <= cap -> Forall byte_ok t ->
  let tail := drop (Z.to_nat (cap - TAIL_SIZE)) t in
  exists p, log_utf8_prefix tail (zlen tail - MARKER_SIZE) = Some p /\ 0 <= p <= zlen tail - MARKER_SIZE /\
    firstn (Z.to_nat (cap - TAIL_SIZE)) t ++ firstn (Z.to_nat p) tail =
    utf8_cut (firstn (Z.to_nat (cap - MARKER_SIZE)) t).
Proof.
  intros Hlen Hcap Hok tail. set (f := firstn (Z.to_nat (cap - TAIL_SIZE)) t).
  set (w := firstn (Z.to_nat (zlen tail - MARKER_SIZE)) tail). set (m := drop (Z.to_nat (zlen tail - MARKER_SIZE)) tail).
  assert (tail = w ++ m) as Et by (symmetry; apply firstn_skipn).
  assert (zlen tail = Z.min cap TAIL_SIZE) as Hl.
  { unfold tail, zlen in *. rewrite length_drop. unfold TAIL_SIZE, MARKER_SIZE in *. lia. }
  assert (zlen w = zlen tail - MARKER_SIZE) as Hw by (unfold w, TAIL_SIZE, MARKER_SIZE in *; rewrite zlen_firstn; lia).
  assert (firstn (Z.to_nat (cap - MARKER_SIZE)) t = f ++ w) as Efw.
  { rewrite <- (firstn_skipn (Z.to_nat (cap - TAIL_SIZE)) t) at 1. fold tail f. rewrite firstn_app.
    assert (length f = Z.to_nat (cap - TAIL_SIZE)) as Ef by (unfold f, zlen, TAIL_SIZE, MARKER_SIZE in *; rewrite length_firstn; lia).
    rewrite Ef, (firstn_all2 f) by (unfold TAIL_SIZE, MARKER_SIZE in *; lia). f_equal. unfold w. f_equal. rewrite Hl.
    unfold TAIL_SIZE, MARKER_SIZE in *. lia. }
  destruct (utf8_prefix_total w (zlen w)) as (p & Hp & Hpr); [pose proof (zlen_nonneg w); lia|].
  assert (log_utf8_prefix tail (zlen tail - MARKER_SIZE) = Some p) as Hp'.
  { rewrite <- Hw, Et. by rewrite utf8_prefix_app. }
  exists p. split; [done|]. split; [lia|].
  assert (firstn (Z.to_nat p) tail = firstn (Z.to_nat p) w) as ->.
  { rewrite Et, firstn_app. replace (Z.to_nat p - length w)%nat with 0%nat by (unfold zlen in *; lia).
    simpl. by rewrite app_nil_r. }
  rewrite Efw. unfold utf8_cut. destruct (decide (TAIL_SIZE <= cap)).
  - assert (length w = 3%nat) as Hw3 by (unfold TAIL_SIZE, MARKER_SIZE, zlen in *; lia).
    destruct w as [|x [|y [|z [|]]]] eqn:Ew; try done. rewrite utf8_prefix_window.
    + change (zlen [x; y; z]) with 3 in Hp. rewrite Hp. rewrite firstn_app.
      rewrite (firstn_all2 f) by (unfold zlen; lia). f_equal. f_equal. unfold zlen. lia.
    + rewrite <- Ew. apply Forall_take, Forall_drop, Hok.
  - assert (f = []) as ->.
    { unfold f. replace (Z.to_nat (cap - TAIL_SIZE)) with 0%nat by lia. done. }
    simpl. by rewrite Hp.
Qed.

(** A call of [funopen]'s write function. *)
Lemma bounded_write_spec c0 ex t c l :
  log_state c0 ex t l -> Forall byte_ok t -> Forall byte_ok c ->
  wp (bounded_write fwrite c (zlen c))
    (fun n l' => n = zlen c /\ errno l' = errno l /\ capacity l' = capacity l /\
       limit (status l') = limit (status l) /\ (sink l' = None <-> sink l = None) /\ log_state c0 ex (t ++ c) l') l.
Proof.
  intros HL Ht Hc. unfold bounded_write. wp_step. wp_step. pose proof HL as [].
  pose proof (zlen_nonneg t). pose proof (zlen_nonneg c). pose proof (zlen_nonneg (tail l)).
  destruct (Z.leb_spec (zlen c) 0).
  { wp_step. destruct c; [|unfold zlen in *; simpl in *; lia]. by rewrite app_nil_r. }
  destruct (truncated (status l) || _ || _) eqn:Eq.
  { wp_step. do 5 (split; [done|]). split; try done. intros Hw.
    rewrite ls_open0, Hw in Eq. simpl in Eq. rewrite !orb_false_r in Eq.
    destruct (ls_state0 Hw) as [[]|[]]; [congruence|]. right.
    destruct (log_cut_more (capacity l) t c ls_capacity0 cs_cut0) as [E1 E2]. split; try done. by rewrite E2. }
  apply orb_false_iff in Eq as [[Etr Eop]%orb_false_iff Ew%negb_false_iff%Z.eqb_eq].
  destruct (ls_state0 Ew) as [HO|[]]; [|congruence]. pose proof HO as [].
  destruct (Z.ltb_spec (capacity l) MARKER_SIZE).
  { wp_step. wp_step. wp_step. do 5 (split; [done|]). split; try done. intros _. right.
    destruct os_marker0 as [|Et]; [lia|]. rewrite Et in *. simpl in *. clear os_fits0.
    split; simpl; try done.
    - unfold log_cut. rewrite (proj2 (Z.ltb_lt _ _)) by done. apply negb_true_iff, Z.eqb_neq. lia.
    - destruct (sink l); [|done]. destruct os_contents0 as [Ec _]. rewrite Ec.
      unfold log_text. by rewrite (proj2 (Z.ltb_lt _ _)) by done. }
  cbv zeta. rewrite os_accepted0.
  assert (u64 (capacity l - zlen t) = capacity l - zlen t) as ->.
  { apply wrapu_small. unfold U64_MAX in *. lia. }
  set (keep := if zlen c <? capacity l - zlen t then zlen c else capacity l - zlen t).
  assert (keep = Z.min (zlen c) (capacity l - zlen t)) as Hk by (unfold keep; case_Z; lia). clearbody keep.
  set (d := firstn (Z.to_nat keep) c). assert (zlen d = keep) as Hd by (unfold d; rewrite zlen_firstn; lia).
  rewrite <- Hd.
  pose proof (accept_spec c0 ex t d l HL Ew HO ltac:(lia) ltac:(lia)) as Ha. apply wp_bind_inv in Ha.
  wp_step. eapply wp_mono; [exact Ha|]. clear Ha. intros u l1 Ha. wp_step. eapply wp_mono; [exact Ha|].
  clear Ha l1 u. intros _ l1 (Ee & Ecap & Elim & Enone & HL1 & HO1 & Et1 & Etr1).
  wp_step. destruct (Z.ltb_spec (capacity l - zlen t) (zlen c)) as [Hcut|Hno].
  2:{ wp_step. wp_step. assert (d = c) as Edc by (unfold d; apply firstn_all2; unfold zlen in *; lia).
      rewrite Edc in HL1, Hd. done. }
  set (t' := t ++ d) in *. assert (zlen t' = capacity l) as Ht' by (unfold t'; rewrite zlen_app; lia).
  assert (Forall byte_ok t') as Hok by (apply Forall_app; split; [done|by apply Forall_take]).
  assert (zlen (tail l1) = Z.min (capacity l) TAIL_SIZE) as Hlt.
  { rewrite Et1, Ht'. unfold zlen in *. rewrite length_drop. unfold TAIL_SIZE, MARKER_SIZE in *. lia. }
  rewrite Ht' in Et1. destruct (cut_tail t' (capacity l) Ht' ltac:(lia) Hok) as (p & Hp & Hpr & Hcutp).
  rewrite <- Et1 in Hp, Hpr, Hcutp. destruct HL1.
  wp_step. wp_step. wp_step. wp_step.
  change (tail (set_status (with_truncated (status l1)) l1)) with (tail l1).
  assert (u64 (zlen (tail l1) - MARKER_SIZE) = zlen (tail l1) - MARKER_SIZE) as ->.
  { apply wrapu_small. unfold TAIL_SIZE, MARKER_SIZE in *. lia. }
  rewrite Hp. set (l2 := set_status _ l1).
  wp_step. eapply wp_mono; [apply write_bytes_spec; simpl; [lia|rewrite zlen_firstn by lia; lia]|].
  intros _ l3 [W3 T3]. wp_step.
  pose proof (wr_file _ _ _ W3) as F3. rewrite zlen_firstn in F3 by lia. simpl in F3.
  assert (zlen marker = MARKER_SIZE) as Em by done.
  eapply wp_mono; [apply write_bytes_spec; simpl; [lia|rewrite Em; lia]|].
  intros _ l4 [W4 T4]. wp_step. wp_step.
  pose proof (wrote_trans _ _ _ _ _ W3 W4) as [].
  rewrite zlen_app, zlen_firstn, Em in wr_file0 by lia. simpl in *.
  split; [done|]. do 3 (split; [congruence|]). split; [simpl in *; tauto|].
  split; simpl; try congruence; try lia; rewrite ?zlen_nil; try lia.
  intros Hw4. right.
  assert (write_errno (status l1) = 0) as Hw1.
  { destruct (Z.eq_dec (write_errno (status l1)) 0) as [|Hne]; [done|]. rewrite (wr_failed0 Hne) in Hw4. done. }
  assert (capacity l4 = capacity l) as Ec4 by congruence.
  assert (capacity l < zlen (t ++ c)) as Hlong by (rewrite zlen_app; lia).
  assert ((capacity l <? MARKER_SIZE) = false) as Hnm by (by apply Z.ltb_ge).
  assert (firstn (Z.to_nat (capacity l - MARKER_SIZE)) (t ++ c) = firstn (Z.to_nat (capacity l - MARKER_SIZE)) t') as Ecut.
  { unfold t', d. rewrite !firstn_app. f_equal. rewrite firstn_firstn. f_equal.
    unfold zlen, MARKER_SIZE in *. lia. }
  split; simpl; try congruence; rewrite Ec4.
  - unfold log_cut. rewrite Hnm. by apply Z.ltb_lt.
  - specialize (wr_sink0 Hw4). destruct (HO1 Hw1) as [_ _ _ _ _ _ Hcont]. destruct (sink l1) as [s1|].
    2:{ by rewrite wr_sink0. }
    destruct wr_sink0 as (s' & -> & Hs' & _). destruct Hcont as [Hs1 _].
    rewrite Hs', Hs1, Ht'. unfold log_text. rewrite Hnm, (proj2 (Z.leb_gt _ _)) by done.
    rewrite Ecut, <- Hcutp. by rewrite !app_assoc.
Qed.

(** All the writes between opening and closing. *)
Lemma write_all_spec c0 ex cs : forall t l,
  log_state c0 ex t l -> Forall byte_ok t -> Forall byte_ok (concat cs) ->
  wp (write_all fwrite cs)
    (fun ns l' => ns = map zlen cs /\ errno l' = errno l /\ capacity l' = capacity l /\
       limit (status l') = limit (status l) /\ (sink l' = None <-> sink l = None) /\ log_state c0 ex (t ++ concat cs) l') l.
Proof.
  induction cs as [|c cs IH]; intros t l HL Ht Hc; cbn [write_all concat map] in *.
  - wp_step. rewrite app_nil_r. done.
  - apply Forall_app in Hc as [Hc Hcs]. wp_step.
    eapply wp_mono; [by apply bounded_write_spec|]. intros n l1 (-> & E1 & E2 & E3 & E4 & HL1). wp_step.
    eapply wp_mono; [apply (IH (t ++ c)); [done|by apply Forall_app|done]|].
    intros ns l2 (-> & F1 & F2 & F3 & F4 & HL2). wp_step. rewrite <- app_assoc in HL2.
    do 4 (split; [congruence|]). split; [tauto|done].
Qed.

(** Closing writes what the tail still holds. *)
Lemma close_text c0 ex t l :
  log_state c0 ex t l -> 
  wp (write_bytes fwrite (tail l))
    (fun _ l' => errno l' = errno l /\ limit (status l') = limit (status l) /\
       ex <= file_bytes (status l') <= limit (status l) /\
       (write_errno (status l') = 0 ->
          truncated (status l') = log_cut (capacity l) t /\
          match sink l' with
          | Some s' => contents s' = c0 ++ log_text (capacity l) t
          | None => sink l = None
          end)) l.
Proof.
  intros []. pose proof (zlen_nonneg (tail l)).
  eapply wp_mono; [apply write_bytes_spec; lia|]. intros _ l' [[] _].
  do 2 (split; [done|]). split; [lia|]. intros Hw'.
  assert (write_errno (status l) = 0) as Hw.
  { destruct (Z.eq_dec (write_errno (status l)) 0) as [|Hne]; [done|]. rewrite (wr_failed0 Hne) in Hw'. done. }
  specialize (wr_sink0 Hw'). rewrite wr_truncated0. destruct (ls_state0 Hw) as [[]|[]].
  - split.
    + rewrite os_truncated0. unfold log_cut. destruct (Z.ltb_spec (capacity l) MARKER_SIZE).
      * destruct os_marker0 as [| ->]; [lia|done].
      * symmetry. by apply Z.ltb_ge.
    + destruct (sink l) as [s|]; [|by rewrite wr_sink0]. destruct wr_sink0 as (s' & -> & -> & _).
      destruct os_contents0 as [-> _]. rewrite <- app_assoc, os_tail0, firstn_skipn. f_equal.
      unfold log_text. destruct (Z.ltb_spec (capacity l) MARKER_SIZE).
      * destruct os_marker0 as [| ->]; [lia|done].
      * by rewrite (proj2 (Z.leb_le _ _)).
  - split; [congruence|]. destruct (sink l) as [s|]; [|by rewrite wr_sink0].
    destruct wr_sink0 as (s' & -> & -> & _). by rewrite cs_tail0, app_nil_r.
Qed.
(** ** From opening to closing *)

(** A log whose status says it is not to be written to. *)
Definition disabled (l : bounded_log) : Prop :=
  truncated (status l) || negb (open_errno (status l) =? 0) || negb (write_errno (status l) =? 0) = true.

Lemma disabled_write_all cs l : disabled l -> write_all fwrite cs l = Ret (map zlen cs, l).
Proof.
  intros Hd. induction cs as [|c cs IH]; [done|]. cbn [write_all]. unfold bind at 1.
  assert (bounded_write fwrite c (zlen c) l = Ret (zlen c, l)) as ->.
  { unfold bounded_write, bind, get. destruct (zlen c <=? 0); [done|]. by rewrite Hd. }
  unfold bind. by rewrite IH.
Qed.

(** The log that [iperf_bounded_log_wrap] makes is ready or disabled. *)
Definition ready (st : iperf_log_status) : Prop :=
  truncated st = false /\ open_errno st = 0 /\ write_errno st = 0.

Lemma remember_error_keeps slot e : slot <> 0 -> remember_error slot e = slot.
Proof. unfold remember_error. intros H. by rewrite (proj2 (Z.eqb_neq _ _)). Qed.

Lemma wrap_ready s ex st err fclose :
  ready st -> 0 <= ex <= limit st -> MARKER_SIZE <= limit st <= U64_MAX ->
  exists l st', iperf_bounded_log_wrap fwrite (Some s) ex st err true None None fclose = Ret (Some l, st', err) /\
    status l = st' /\ limit st' = limit st /\ sink l = Some s /\ capacity l = limit st - ex /\ errno l = err /\
    log_state (contents s) ex [] l.
Proof.
  intros (Ht & Ho & Hw) Hex Hl. unfold iperf_bounded_log_wrap. cbv zeta. cbn [negb limit].
  rewrite (proj2 (Z.ltb_ge _ _)), (proj2 (Z.ltb_ge _ _)) by lia. cbn [orb limit].
  assert (u64 (limit st - ex) = limit st - ex) as -> by (apply wrapu_small; unfold U64_MAX in *; lia).
  eexists _, _. split; [done|]. do 5 (split; [done|]). split; simpl; rewrite ?zlen_nil; try done; try lia.
  intros _. left. split; simpl; rewrite ?zlen_nil; try done; try lia; [by right|].
  rewrite app_nil_r. split; [done|lia].
Qed.

(** The file from [iperf_bounded_log_open] to [bounded_close], with the counts
    the writes answered and the log at the end. *)
Definition log_session (o : opened) (st : iperf_log_status) (err : Z) (setvbuf : option Z)
    (fclose : Sink -> Z * Z) (cs : list (list Z)) : outcome (list Z * Z * bounded_log) :=
  match iperf_bounded_log_open fwrite o st err true setvbuf None fclose with
  | Ret (Some l, _, _) =>
      match write_all fwrite cs l with
      | Ret (ns, l) =>
          match bounded_close fwrite fclose l with
          | Ret (r, l) => Ret (ns, r, l)
          | UB => UB
          | OutOfFuel => OutOfFuel
          end
      | UB => UB
      | OutOfFuel => OutOfFuel
      end
  | _ => UB
  end.

(** [bounded_close] after its write. *)
Lemma bounded_close_spec fclose l (P : option Sink -> iperf_log_status -> Prop) :
  wp (write_bytes fwrite (tail l)) (fun _ l' => P (sink l') (status l')) l ->
  (forall k st e, P k st -> P k (with_close_errno e st)) ->
  wp (bounded_close fwrite fclose) (fun _ l' => P (sink l') (status l')) l.
Proof.
  intros Hw HP. unfold bounded_close. wp_step. wp_step. wp_step. eapply wp_mono; [exact Hw|].
  intros ? l' H. wp_step. wp_step. destruct (sink l') as [s|] eqn:Es; [|by wp_step].
  destruct (fclose s) as [r e]. wp_step. wp_step. wp_step. destruct (negb (r =? 0)).
  - wp_step. wp_step. wp_step. wp_step. simpl. by apply HP.
  - wp_step. by wp_step.
Qed.

Lemma log_session_ready s size st err fclose cs :
  ready st -> attempted st && negb (close_errno st =? 0) = false ->
  0 <= size <= limit st -> MARKER_SIZE <= limit st <= U64_MAX -> Forall byte_ok (concat cs) ->
  exists r l, log_session (Opened size s) st err None fclose cs = Ret (map zlen cs, r, l) /\
    limit (status l) = limit st /\ size <= file_bytes (status l) <= limit st /\
    (write_errno (status l) = 0 ->
       truncated (status l) = log_cut (limit st - size) (concat cs) /\
       exists s', sink l = Some s' /\ contents s' = contents s ++ log_text (limit st - size) (concat cs)).
Proof.
  intros Hr Hclose Hs Hl Hok. unfold log_session, iperf_bounded_log_open, open_sink.
  pose proof Hr as (Ht & Ho & Hw). rewrite Ht, Ho, Hw. cbn [Z.eqb negb orb]. rewrite Hclose.
  set (st' := mk_status _ _ _ _ _ _ _ _ _).
  destruct (wrap_ready s size st' err fclose) as (l & st'' & E & Est & Elim & Esink & Ecap & Eerr & HL);
    [done|done|done|].
  rewrite E. destruct (wp_returns _ _ _ (write_all_spec (contents s) size cs [] l HL ltac:(constructor) Hok))
    as (ns & l1 & E1 & -> & _ & Ecap1 & Elim1 & Enone & HL1). rewrite E1.
  pose proof (close_text (contents s) size _ l1 HL1) as Hc.
  assert (limit (status l1) = limit st) as Elim' by (rewrite Elim1, Est, Elim; done).
  assert (capacity l1 = limit st - size) as Ecap' by (rewrite Ecap1, Ecap; done).
  rewrite Elim', Ecap' in Hc.
  assert (sink l1 <> None) as Hsome by (rewrite Enone; congruence).
  destruct (wp_returns _ _ _ (bounded_close_spec fclose l1 (fun k x => limit x = limit st /\
    size <= file_bytes x <= limit st /\
    (write_errno x = 0 -> truncated x = log_cut (limit st - size) (concat cs) /\
       exists s', k = Some s' /\ contents s' = contents s ++ log_text (limit st - size) (concat cs)))
    ltac:(eapply wp_mono; [exact Hc|]; intros ? l2 (_ & H1 & H2 & H3); do 2 (split; [congruence|]);
          intros Hw2; destruct (H3 Hw2) as [H4 H5]; split; [exact H4|];
          destruct (sink l2) as [s'|]; [by exists s'|done])
    ltac:(intros k x e H; exact H))) as (r & l2 & E2 & H1 & H2 & H3).
  rewrite E2. by exists r, l2.
Qed.

(** Whatever the opening found, the log is disabled or ready. *)
Lemma wrap_spec (s : option Sink) c0 ex st err setvbuf fclose :
  0 <= ex -> 0 <= limit st <= U64_MAX -> match s with Some s => contents s = c0 | None => True end ->
  exists l, iperf_bounded_log_wrap fwrite s ex st err true setvbuf None fclose = Ret (Some l, status l, err) /\
    limit (status l) = limit st /\ file_bytes (status l) = ex /\ tail l = [] /\
    (disabled l \/ ex <= limit st /\ log_state c0 ex [] l).
Proof.
  intros Hex Hl Hc0. unfold iperf_bounded_log_wrap. cbv zeta. cbn [negb limit].
  set (bad := (limit st <? MARKER_SIZE) || (limit st <? ex)).
  match goal with |- exists l, Ret (Some ?x, _, _) = _ /\ _ => exists x end.
  split; [reflexivity|]. cbn [status tail].
  split; [destruct bad, s, setvbuf; done|]. split; [destruct bad, s, setvbuf; done|]. split; [done|].
  unfold disabled. cbn [status].
  destruct (truncated st) eqn:Et; [left; by destruct bad, s, setvbuf|].
  destruct (Z.eq_dec (write_errno st) 0) as [Ew|Ew].
  2:{ left. apply Z.eqb_neq in Ew. destruct bad, s, setvbuf; cbn; by rewrite Ew, ?orb_true_r. }
  destruct (Z.eq_dec (open_errno st) 0) as [Eo|Eo].
  2:{ left. assert (forall e, remember_error (open_errno st) e = open_errno st) as Hk.
      { intros e. by apply remember_error_keeps. }
      apply Z.eqb_neq in Eo. destruct bad, s, setvbuf; cbn; by rewrite ?Hk, ?Hk, Eo. }
  destruct bad eqn:Eb; unfold bad in Eb.
  { left. assert (forall x e, negb (remember_error x e =? 0) = true) as Hne.
    { intros x e. apply negb_true_iff, Z.eqb_neq, remember_error_nonzero. }
    destruct s, setvbuf; cbn; rewrite Hne, ?orb_true_r; done. }
  apply orb_false_iff in Eb as [H1%Z.ltb_ge H2%Z.ltb_ge].
  destruct s as [s|], setvbuf as [e|].
  { left. cbn. assert (negb (remember_error (open_errno st) e =? 0) = true) as ->; [|by rewrite ?orb_true_r].
    apply negb_true_iff, Z.eqb_neq, remember_error_nonzero. }
  all: right; split; [done|].
  all: cbn [limit]; assert (u64 (limit st - ex) = limit st - ex) as -> by (apply wrapu_small; unfold U64_MAX in *; lia).
  all: split; simpl; rewrite ?zlen_nil; try done; try lia.
  all: intros _; left; split; simpl; rewrite ?zlen_nil; try done; try lia; try (by right).
  rewrite app_nil_r. split; [done|lia].
Qed.

Lemma log_session_any (o : opened) st err setvbuf fclose cs :
  0 <= limit st <= U64_MAX -> 0 <= (open_sink o st).1.2 -> Forall byte_ok (concat cs) ->
  exists r l, log_session o st err setvbuf fclose cs = Ret (map zlen cs, r, l) /\
    (open_sink o st).1.2 <= file_bytes (status l) <= Z.max (limit st) (open_sink o st).1.2.
Proof.
  intros Hl Hex Hok. unfold log_session, iperf_bounded_log_open.
  assert (limit (open_sink o st).2 = limit st) as Elim.
  { unfold open_sink. destruct (_ && _); [done|]. by destruct o. }
  destruct (open_sink o st) as [[s ex] st']. cbn [fst snd] in *.
  destruct (wrap_spec s (match s with Some s => contents s | None => [] end) ex st' err setvbuf fclose)
    as (l & E & El & Ef & Et & [Hd|[Hle HL]]); [done|lia|by destruct s|..]; rewrite E.
  - rewrite (disabled_write_all cs l Hd).
    assert (wp (write_bytes fwrite (tail l)) (fun _ l' => ex <= file_bytes (status l') <= Z.max (limit st) ex) l) as Hw.
    { rewrite Et. unfold write_bytes. wp_step. wp_step. destruct (sink l); unfold wp; simpl; lia. }
    destruct (wp_returns _ _ _ (bounded_close_spec fclose l (fun _ x => ex <= file_bytes x <= Z.max (limit st) ex)
      Hw ltac:(intros k x e H; exact H))) as (r & l2 & -> & H).
    by exists r, l2.
  - destruct (wp_returns _ _ _ (write_all_spec _ ex cs [] l HL ltac:(constructor) Hok))
      as (ns & l1 & -> & -> & _ & Ecap1 & Elim1 & Enone & HL1).
    pose proof (close_text _ ex _ l1 HL1) as Hc.
    destruct (wp_returns _ _ _ (bounded_close_spec fclose l1 (fun _ x => ex <= file_bytes x <= Z.max (limit st) ex)
      ltac:(eapply wp_mono; [exact Hc|]; intros ? l2 (_ & H1 & H2 & _); lia)
      ltac:(intros k x e H; exact H))) as (r & l2 & -> & H).
    by exists r, l2.
Qed.
End Spec.

(** ** Properties *)

Section Theorems.
Context {Sink : Type} (fwrite : Sink -> list Z -> write_result Sink) (contents : Sink -> list Z).
Context `{!StdioSink fwrite contents}.

(** C10: logging never fails a measurement and never exceeds its limit.  However
    the file was opened, whatever [fwrite] takes or refuses, every write
    answers its full count, closing returns, and the file ends no longer than
    the limit (or than it was, if it was longer before). *)
Theorem log_session_bounded o st err setvbuf fclose cs
  (Hlimit : 0 <= limit st <= U64_MAX) (Hsize : 0 <= (open_sink o st).1.2) (Hbytes : Forall byte_ok (concat cs)) :
  exists r l, log_session fwrite o st err setvbuf fclose cs = Ret (map zlen cs, r, l) /\
    (open_sink o st).1.2 <= file_bytes (status l) <= Z.max (limit st) (open_sink o st).1.2.
Proof. by apply (log_session_any fwrite contents). Qed.

(** What the file holds.  A log opened on a file of [size] bytes with an
    error-free status appends exactly [log_text] of everything written,
    however it was split into writes: all of it when it fits, otherwise the
    longest prefix of whole scalars that leaves room for the marker, and the
    marker; [truncated] says which.  This unless a write failed, which
    [write_errno] says. *)
Theorem log_session_text s size st err fclose cs
  (Hready : ready st) (Hclose : close_errno st = 0) (Hsize : 0 <= size <= limit st)
  (Hlimit : MARKER_SIZE <= limit st <= U64_MAX) (Hbytes : Forall byte_ok (concat cs)) :
  exists r l, log_session fwrite (Opened size s) st err None fclose cs = Ret (map zlen cs, r, l) /\
    (write_errno (status l) = 0 ->
       truncated (status l) = log_cut (limit st - size) (concat cs) /\
       exists s', sink l = Some s' /\ contents s' = contents s ++ log_text (limit st - size) (concat cs)).
Proof.
  destruct (log_session_ready fwrite contents s size st err fclose cs) as (r & l & H1 & _ & _ & H2); try done.
  - rewrite Hclose. by rewrite andb_false_r.
  - by exists r, l.
Qed.
End Theorems.

(** The cut falls between scalars.  What a log keeps of encoded text is the
    encoding of its first scalars, as many as fit, then nothing or the marker,
    and never more than the room there is. *)
Theorem log_text_whole_scalars cap vs (Hcap : 0 <= cap) (Hvs : Forall scalar_value vs) :
  exists k, (log_text cap (concat (utf8_encode <$> vs)) = concat (utf8_encode <$> firstn k vs) \/
             log_text cap (concat (utf8_encode <$> vs)) = concat (utf8_encode <$> firstn k vs) ++ marker) /\
    zlen (log_text cap (concat (utf8_encode <$> vs))) <= cap /\
    (cap < MARKER_SIZE \/ k = length vs \/
     cap - MARKER_SIZE < zlen (concat (utf8_encode <$> firstn (S k) vs))).
Proof.
  assert (Forall (fun v => 0 <= v <= 1114111) vs) as Hr by (eapply Forall_impl; [exact Hvs|]; by intros v []).
  unfold log_text. destruct (Z.ltb_spec cap MARKER_SIZE); [exists 0%nat; rewrite zlen_nil; auto|].
  destruct (Z.leb_spec (zlen (concat (utf8_encode <$> vs))) cap).
  - exists (length vs). rewrite firstn_all. auto.
  - destruct (utf8_cut_after vs Hr (Z.to_nat (cap - MARKER_SIZE)) []) as (k & H1 & H2); [constructor|].
    cbn [fmap list_fmap concat app] in H1. exists k. rewrite H1. split; [by right|]. split.
    + rewrite zlen_app, <- H1. unfold utf8_cut. change (zlen marker) with MARKER_SIZE.
      unfold zlen at 1. rewrite !length_firstn. lia.
    + right. destruct H2 as [->|(v & _ & H2)]; [by left|right]. lia.
Qed.

(** ** Examples *)

(** A stream that takes everything. *)
Definition all_write (s bs : list Z) : write_result (list Z) := mk_write (s ++ bs) (zlen bs) false 0.

#[export] Instance all_write_sink : StdioSink all_write id.
Proof.
  split; intros s bs; simpl; [pose proof (zlen_nonneg bs); lia|].
  unfold zlen. by rewrite Nat2Z.id, firstn_all.
Qed.

Definition fresh_status (lim : Z) : iperf_log_status := mk_status lim 0 0 false false false 0 0 0.
Definition sample_chunks : list (list Z) := [utf8_encode 8364; bytes_of "abcdefghijklmnopqrstuvwxyz"%string; utf8_encode 8364].

Lemma log_session_bounded_witness :
  exists r l, log_session all_write (Opened 7 (repeat 46 7)) (fresh_status 40) 0 None (fun _ => (0, 0)) sample_chunks =
    Ret (map zlen sample_chunks, r, l) /\ 7 <= file_bytes (status l) <= 40.
Proof.
  destruct (log_session_bounded all_write id (Opened 7 (repeat 46 7)) (fresh_status 40) 0 None (fun _ => (0, 0)) sample_chunks)
    as (r & l & H1 & H2); [vm_compute; split; discriminate|vm_compute; discriminate| |].
  - repeat (constructor; [unfold byte_ok; vm_compute; split; [discriminate|reflexivity]|]); constructor.
  - exists r, l. split; [exact H1|exact H2].
Defined.

Lemma log_session_text_witness :
  exists r l, log_session all_write (Opened 7 (repeat 46 7)) (fresh_status 36) 0 None (fun _ => (0, 0)) sample_chunks =
    Ret (map zlen sample_chunks, r, l) /\
    sink l = Some (repeat 46 7 ++ utf8_encode 8364 ++ bytes_of "abc"%string ++ marker).
Proof.
  destruct (log_session_text all_write id (repeat 46 7) 7 (fresh_status 36) 0 (fun _ => (0, 0)) sample_chunks)
    as (r & l & H1 & H2); [done|done|vm_compute; split; discriminate|vm_compute; split; discriminate| |].
  - repeat (constructor; [unfold byte_ok; vm_compute; split; [discriminate|reflexivity]|]); constructor.
  - exists r, l. split; [exact H1|].
    destruct H2 as [_ (s' & Hs & Hc)]; [vm_compute in H1; by injection H1 as _ <-|].
    rewrite Hs. f_equal. etransitivity; [exact Hc|]. vm_compute. reflexivity.
Defined.

Lemma log_text_whole_scalars_witness :
  exists k, log_text 30 (concat (utf8_encode <$> (repeat 8364 11))) =
    concat (utf8_encode <$> firstn k (repeat 8364 11)) ++ marker.
Proof.
  destruct (log_text_whole_scalars 30 (repeat 8364 11)) as (k & [H|H] & _).
  - lia.
  - repeat constructor; unfold surrogate; lia.
  - exists 2%nat. vm_compute. reflexivity.
  - exists k. exact H.
Defined.
