(* ===== verification/OutputBudget.v ===== *)
(** * The budget of the server's output

    [iperf_output_budget.c]: the server collects its text or JSON output under a
    limit of bytes, sends it with a status next to the results, and the client
    checks that status against what it received.

    What [vsnprintf] makes of a format and its arguments is an argument: the
    text it measured and the text it wrote, or nothing for a failure.  The
    result of an allocation is [alloc] of the number of allocations before it. *)

From Stdlib Require Import String.
From S2P Require Import Prelude Bytes Double CJson CJsonTree CJsonPrint IperfTest BoundedOutput BoundedSocket.
Local Open Scope c_scope.

#[export] Instance output_eta : Eta iperf_server_output := fun o => mk_output
  (out_value o) (out_length o) (observed_bytes o) (out_state o) (out_format o) (out_reason o) (observed_bytes_complete o).

Definition UINT64_MAX : Z := 18446744073709551615.

(** The other fields of [struct iperf_test] the budget uses.  [json_intervals]
    points to a child of [json_top]. *)
Record budget := mk_budget {
  collected_server_output : iperf_server_output;
  received_server_output : iperf_server_output;
  output_read_metrics : iperf_result_read_metrics;
  output_scratch : bool;
  output_json_values : Z;
  output_json_intervals : Z;
  output_finalized : bool;
  received_server_output_ready : bool;
  output_stop_requested : bool;
  json_top : option cJSON;
  json_intervals : option nat;
  b_nalloc : nat }.

#[export] Instance budget_eta : Eta budget := fun b => mk_budget
  (collected_server_output b) (received_server_output b) (output_read_metrics b)
  (output_scratch b) (output_json_values b) (output_json_intervals b) (output_finalized b)
  (received_server_output_ready b) (output_stop_requested b) (json_top b) (json_intervals b) (b_nalloc b).

Definition BM := CM budget.

(** A field of the collected output. *)
Definition on_collected (f : iperf_server_output -> iperf_server_output) : BM unit := modify (update collected_server_output f).

(** [malloc] or an allocation of cJSON. *)
Definition with_alloc {A} (m : AM A) : BM A := fun b =>
  match m (b_nalloc b) with
  | Ret (a, n) => Ret (a, b <| b_nalloc := n |>)
  | UB => UB
  | OutOfFuel => OutOfFuel
  end.

Definition discard (reason : iperf_output_reason) (o : iperf_server_output) : iperf_server_output :=
  o <| out_value := None |> <| out_length := 0 |>
    <| out_state := if decide (reason = IPERF_OUTPUT_INVALID_DATA) then IPERF_OUTPUT_INVALID else IPERF_OUTPUT_DISCARDED |>
    <| out_reason := reason |>.

(** The result and [errno], when it is set. *)
Definition iperf_set_test_server_output_byte_limit (test : option iperf_test) (limit : Z) : Z * option Z * option iperf_test :=
  match test with
  | Some t =>
      if IPERF_OUTPUT_MAX_BYTES <? limit then (-1, Some EINVAL, test)
      else (0, None, Some (t <| server_output_byte_limit := limit |>))
  | None => (-1, Some EINVAL, test)
  end.

Definition no_metrics : iperf_result_read_metrics := mk_metrics 0 0 0 0 0.

Definition iperf_output_budget_reset (t : iperf_test) (b : budget) : budget :=
  let b := if negb (server_output_byte_limit t =? 0) then b <| json_top := None |> <| json_intervals := None |> else b in
  b <| collected_server_output := Scanner.iperf_clear_server_output (collected_server_output b) |>
    <| received_server_output := Scanner.iperf_clear_server_output (received_server_output b) |>
    <| output_read_metrics := no_metrics |> <| output_scratch := false |>
    <| output_json_values := 0 |> <| output_json_intervals := 0 |> <| output_finalized := false |>
    <| received_server_output_ready := false |>.

Definition iperf_output_stop_requested (b : budget) : bool := output_stop_requested b.

(** ** UTF-8 *)

(** The length of the sequence, its first bits and the least scalar of that length. *)
Definition lead (c : Z) : option (nat * Z * Z) :=
  if negb (c =? 0) && (c <? 128) then Some (1%nat, c, 0)
  else if (194 <=? c) && (c <=? 223) then Some (2%nat, Z.land c 31, 128)
  else if (224 <=? c) && (c <=? 239) then Some (3%nat, Z.land c 15, 2048)
  else if (240 <=? c) && (c <=? 244) then Some (4%nat, Z.land c 7, 65536)
  else None.

Fixpoint following (l : list Z) (scalar : Z) : option Z :=
  match l with
  | [] => Some scalar
  | next :: l =>
      if (next <? 128) || (191 <? next) then None
      else following l (Z.lor (u32 (Z.shiftl scalar 6)) (Z.land next 63))
  end.

(** The loop of [utf8_prefix] from [valid] on: the result and [*valid]. *)
Fixpoint utf8_loop (fuel : nat) (text : list Z) (cut : bool) (valid : Z) : outcome (bool * Z) :=
  match text with
  | [] => Ret (true, valid)
  | c :: rest =>
      match fuel with
      | O => OutOfFuel
      | S fuel =>
          match lead c with
          | None => Ret (false, valid)
          | Some (n, scalar, minimum) =>
              if (length text <? n)%nat then Ret (cut, valid)
              else
                match following (firstn (n - 1) rest) scalar with
                | None => Ret (false, valid)
                | Some scalar =>
                    if (scalar <? minimum) || (1114111 <? scalar) || ((55296 <=? scalar) && (scalar <=? 57343))
                    then Ret (false, valid)
                    else utf8_loop fuel (drop n text) cut (valid + Z.of_nat n)
                end
          end
      end
  end.

Definition utf8_prefix (text : list Z) (cut : bool) : outcome (bool * Z) := utf8_loop (length text) text cut 0.

(** ** Collecting text *)

Definition count_bytes (count : Z) (o : iperf_server_output) : iperf_server_output :=
  if UINT64_MAX - observed_bytes o <? count
  then o <| observed_bytes := UINT64_MAX |> <| observed_bytes_complete := 0 |>
  else o <| observed_bytes := u64 (observed_bytes o + count) |>.

(** [memcpy] or [vsnprintf] to the output's buffer. *)
Definition write_value (i : Z) (l : list Z) : BM unit := fun b =>
  match out_value (collected_server_output b) with
  | None => UB
  | Some v =>
      match buf_write v i l with
      | None => UB
      | Some v => on_collected (fun o => o <| out_value := Some v |>) b
      end
  end.

(** The [n] bytes from [i] on, all of them written before. *)
Definition read_value (i n : Z) : BM (list Z) := fun b =>
  match out_value (collected_server_output b) with
  | None => UB
  | Some v =>
      if (0 <=? i) && (0 <=? n) && (i + n <=? zlen (data v)) then Ret (firstn (Z.to_nat n) (drop (Z.to_nat i) (data v)), b) else UB
  end.

(** The result of a call of [vsnprintf] that produces this text. *)
Definition text_result (text : option text) : Z := match text with Some t => zlen t | None => -1 end.

(** [limit] is [test->server_output_byte_limit]. *)
Section Collect.
Context (alloc : nat -> bool) (limit : Z).

Definition begin (format : iperf_output_format) : BM bool :=
  output <- gets collected_server_output ;;
  if negb (bool_decide (out_state output = IPERF_OUTPUT_MISSING)) then ret (bool_decide (out_state output = IPERF_OUTPUT_COMPLETE))
  else
    on_collected (fun o => o <| out_format := format |>
      <| observed_bytes_complete := if decide (format = IPERF_OUTPUT_TEXT) then 1 else 0 |>) ;;;
    ok <- with_alloc (allocate alloc) ;;
    if negb ok then on_collected (discard IPERF_OUTPUT_ALLOCATION_FAILURE) ;;; ret false
    else
      on_collected (fun o => o <| out_value := Some (mk_cbuf (limit + 1) []) |>) ;;;
      write_value 0 [0] ;;;
      on_collected (fun o => o <| out_state := IPERF_OUTPUT_COMPLETE |>) ;;;
      ret true.

Definition append_format (measured written : option text) : BM unit :=
  let required := text_result measured in
  if required <? 0 then on_collected (fun o => (discard IPERF_OUTPUT_INVALID_DATA o) <| observed_bytes_complete := 0 |>)
  else
    on_collected (count_bytes required) ;;;
    output <- gets collected_server_output ;;
    if negb (bool_decide (out_state output = IPERF_OUTPUT_COMPLETE)) then ret tt
    else
      let available := limit - out_length output in
      match written with
      | Some t => write_value (out_length output) (firstn (Z.to_nat available) t ++ [0])
      | None => ret tt
      end ;;;
      if negb (text_result written =? required) then on_collected (discard IPERF_OUTPUT_INVALID_DATA)
      else
        let count := if required <? available then required else available in
        let cut := available <? required in
        text <- read_value (out_length output) count ;;
        match utf8_prefix text cut with
        | Ret (false, _) => on_collected (discard IPERF_OUTPUT_INVALID_DATA)
        | Ret (true, valid) =>
            on_collected (fun o => o <| out_length := out_length o + valid |>) ;;;
            write_value (out_length output + valid) [0] ;;;
            when cut do on_collected (fun o => o <| out_state := IPERF_OUTPUT_TRUNCATED |> <| out_reason := IPERF_OUTPUT_BYTE_LIMIT |>)
        | UB => undefined
        | OutOfFuel => out_of_fuel
        end.

Definition append (s : text) : BM unit := append_format (Some s) (Some s).

Definition iperf_output_collect_printf (prefix : option text) (measured written : option text) : BM unit :=
  finalized <- gets output_finalized ;;
  if finalized then ret tt
  else
    begin IPERF_OUTPUT_TEXT ;;;
    match prefix with Some p => append p | None => ret tt end ;;;
    append_format measured written.

End Collect.

(** ** Collecting JSON *)

(** The depth and the number of nodes of a tree. *)
Fixpoint shape (value : cJSON) (depth nodes : Z) : bool * Z * iperf_output_reason :=
  let 'Node _ children _ _ _ _ := value in
  if IPERF_RESULT_MAX_DEPTH <? depth then (false, nodes, IPERF_OUTPUT_DEPTH_LIMIT)
  else
    let nodes := u64 (nodes + 1) in
    if IPERF_RESULT_CORE_MAX_VALUES <? nodes then (false, nodes, IPERF_OUTPUT_NODE_LIMIT)
    else
      (fix loop (l : list cJSON) (nodes : Z) : bool * Z * iperf_output_reason :=
         match l with
         | [] => (true, nodes, IPERF_OUTPUT_REASON_NONE)
         | child :: l =>
             match shape child (depth + 1) nodes with
             | (true, nodes, _) => loop l nodes
             | failed => failed
             end
         end) children nodes.

(** A null pointer instead of a tree. *)
Definition shape_of (value : option cJSON) (depth nodes : Z) : bool * Z * iperf_output_reason :=
  match value with
  | None => (false, nodes, IPERF_OUTPUT_INVALID_DATA)
  | Some v => shape v depth nodes
  end.

Section Json.
Context (alloc : nat -> bool) (has_reallocate : bool) (limit : Z).

Definition scratch : BM bool :=
  ready <- gets output_scratch ;;
  if ready then ret true
  else
    ok <- with_alloc (allocate alloc) ;;
    if ok then modify (fun b => b <| output_scratch := true |>) ;;; ret true
    else on_collected (discard IPERF_OUTPUT_ALLOCATION_FAILURE) ;;; ret false.

(** [cJSON_PrintPreallocated] into the scratch buffer: the text, if it fits. *)
Definition print_scratch (item : cJSON) : BM (option (list Z)) :=
  match cJSON_PrintPreallocated alloc has_reallocate item (limit + 5) (s32 limit + 5) false with
  | Ret (ok, bytes) => ret (if ok then Some (cstr bytes) else None)
  | UB => undefined
  | OutOfFuel => out_of_fuel
  end.

Definition iperf_output_collect_interval (interval : option cJSON) : BM unit :=
  b <- get ;;
  if output_finalized b then ret tt
  else
    ok <- begin alloc limit IPERF_OUTPUT_JSON ;;
    if negb ok then ret tt
    else
      match shape_of interval 3 (output_json_values b), interval with
      | (true, nodes, _), Some item =>
          ok <- scratch ;;
          if negb ok then ret tt
          else
            text <- print_scratch item ;;
            match text with
            | None => on_collected (discard IPERF_OUTPUT_BYTE_LIMIT)
            | Some text =>
                let bytes := zlen text in
                let extra := if output_json_intervals b =? 0 then 0 else 1 in
                output <- gets collected_server_output ;;
                if (limit <? 2) || (limit - 2 <? out_length output) || (limit - 2 - out_length output <? bytes + extra)
                then on_collected (discard IPERF_OUTPUT_BYTE_LIMIT)
                else
                  when negb (extra =? 0) do write_value (out_length output) [c_comma] ;;;
                  write_value (out_length output + extra) (text ++ [0]) ;;;
                  on_collected (fun o => o <| out_length := out_length output + extra + bytes |>) ;;;
                  modify (fun b => b <| output_json_values := nodes |>
                                     <| output_json_intervals := u64 (output_json_intervals b + 1) |>)
            end
      | (_, _, reason), _ => on_collected (discard reason)
      end.

Definition raw_reference (s : list Z) : AM (option cJSON) :=
  node <- cJSON_CreateStringReference alloc (Some s) ;;
  ret (set_jtype (Z.lor cJSON_Raw cJSON_IsReference) <$> node).

Definition intervals_key : list Z := bytes_of "intervals".

(** [raw] in the place of the intervals, which are behind the other members
    afterwards: the tree with [raw], the tree with the intervals again, and
    where they are. *)
Definition with_raw (top : cJSON) (i : nat) (raw : cJSON) : AM (option cJSON * option cJSON * nat) :=
  let '(original, rest) := detach_at top (Some i) in
  printed <- cJSON_AddItemToObjectCS alloc (Some rest) (Some intervals_key) (Some raw) ;;
  match original with
  | Some o =>
      restored <- cJSON_AddItemToObjectCS alloc (Some rest) (Some intervals_key) (Some o) ;;
      ret (printed, restored, List.length (jchild rest))
  | None => ret (printed, Some rest, i)
  end.

Definition finalize_json : BM unit :=
  ok <- begin alloc limit IPERF_OUTPUT_JSON ;;
  if negb ok then ret tt else
  ok <- scratch ;;
  if negb ok then ret tt else
  b <- get ;;
  match json_top b, json_intervals b with
  | Some top, Some i =>
      if limit <? 2 then on_collected (discard IPERF_OUTPUT_BYTE_LIMIT)
      else
        let used := out_length (collected_server_output b) in
        kept <- read_value 0 used ;;
        write_value 1 kept ;;;
        write_value 0 [c_lbrack] ;;;
        write_value (used + 1) [c_rbrack] ;;;
        write_value (used + 2) [0] ;;;
        on_collected (fun o => o <| out_length := used + 2 |>) ;;;
        value <- read_value 0 (used + 3) ;;
        raw <- with_alloc (raw_reference value) ;;
        match raw with
        | None => on_collected (discard IPERF_OUTPUT_ALLOCATION_FAILURE)
        | Some raw =>
            trees <- with_alloc (with_raw top i raw) ;;
            let '(nested, restored, i) := trees in
            modify (fun b => b <| json_top := restored |> <| json_intervals := Some i |>) ;;;
            match shape_of nested 1 (output_json_values b), nested with
            | (true, _, _), Some nested =>
                text <- print_scratch nested ;;
                match text with
                | None => on_collected (discard IPERF_OUTPUT_BYTE_LIMIT)
                | Some text =>
                    let bytes := zlen text in
                    if limit <? bytes then on_collected (discard IPERF_OUTPUT_BYTE_LIMIT)
                    else
                      match utf8_prefix text false with
                      | Ret (false, _) => on_collected (discard IPERF_OUTPUT_INVALID_DATA)
                      | Ret (true, _) =>
                          write_value 0 (text ++ [0]) ;;;
                          on_collected (fun o => o <| out_length := bytes |> <| observed_bytes := bytes |>
                                                   <| observed_bytes_complete := 1 |>)
                      | UB => undefined
                      | OutOfFuel => out_of_fuel
                      end
                end
            | (_, _, reason), _ => on_collected (discard reason)
            end
        end
  | _, _ => on_collected (discard IPERF_OUTPUT_INVALID_DATA)
  end.

(** ** Sending and checking the status *)

Definition state_number (s : iperf_output_state) : Z :=
  match s with
  | IPERF_OUTPUT_MISSING => 0 | IPERF_OUTPUT_COMPLETE => 1 | IPERF_OUTPUT_TRUNCATED => 2
  | IPERF_OUTPUT_DISCARDED => 3 | IPERF_OUTPUT_INVALID => 4
  end.

Definition format_number (f : iperf_output_format) : Z :=
  match f with IPERF_OUTPUT_NONE => 0 | IPERF_OUTPUT_TEXT => 1 | IPERF_OUTPUT_JSON => 2 end.

Definition reason_number (r : iperf_output_reason) : Z :=
  match r with
  | IPERF_OUTPUT_REASON_NONE => 0 | IPERF_OUTPUT_BYTE_LIMIT => 1 | IPERF_OUTPUT_NODE_LIMIT => 2 | IPERF_OUTPUT_DEPTH_LIMIT => 3
  | IPERF_OUTPUT_INVALID_DATA => 4 | IPERF_OUTPUT_ALLOCATION_FAILURE => 5 | IPERF_OUTPUT_READ_FAILURE => 6
  end.

(** Casts of numbers that were checked to be in range. *)
Definition state_of (n : Z) : iperf_output_state :=
  if n =? 1 then IPERF_OUTPUT_COMPLETE else if n =? 2 then IPERF_OUTPUT_TRUNCATED
  else if n =? 3 then IPERF_OUTPUT_DISCARDED else if n =? 4 then IPERF_OUTPUT_INVALID else IPERF_OUTPUT_MISSING.

Definition format_of (n : Z) : iperf_output_format :=
  if n =? 1 then IPERF_OUTPUT_TEXT else if n =? 2 then IPERF_OUTPUT_JSON else IPERF_OUTPUT_NONE.

Definition reason_of (n : Z) : iperf_output_reason :=
  if n =? 1 then IPERF_OUTPUT_BYTE_LIMIT else if n =? 2 then IPERF_OUTPUT_NODE_LIMIT else if n =? 3 then IPERF_OUTPUT_DEPTH_LIMIT
  else if n =? 4 then IPERF_OUTPUT_INVALID_DATA else if n =? 5 then IPERF_OUTPUT_ALLOCATION_FAILURE
  else if n =? 6 then IPERF_OUTPUT_READ_FAILURE else IPERF_OUTPUT_REASON_NONE.

Definition status_key : list Z := bytes_of "iperf_swift_server_output".
Definition json_key : list Z := bytes_of "server_output_json".
Definition text_key : list Z := bytes_of "server_output_text".

(** The numbers of the status, until one cannot be added: the flag, and the object. *)
Fixpoint add_numbers (fields : list (string * double)) (status : cJSON) : AM (bool * cJSON) :=
  match fields with
  | [] => ret (true, status)
  | (name, v) :: fields =>
      r <- cJSON_AddNumberToObject alloc (Some status) (Some (bytes_of name)) v ;;
      match r with
      | Some status => add_numbers fields status
      | None => ret (false, status)
      end
  end.

Definition exact_total : Z := 9007199254740991.

Definition status_fields (o : iperf_server_output) : list (string * double) :=
  [("version"%string, D_of_Z 1); ("state"%string, D_of_Z (state_number (out_state o))); ("format"%string, D_of_Z (format_number (out_format o)));
   ("reason"%string, D_of_Z (reason_number (out_reason o)))] ++
  (if negb (observed_bytes_complete o =? 0) && (observed_bytes o <=? exact_total)
   then [("observed_bytes"%string, D_of_Z (observed_bytes o))] else []).

(** The status is filled in where it was added, behind the other members. *)
Definition add_status (o : iperf_server_output) (results : cJSON) : AM (Z * cJSON) :=
  status <- cJSON_CreateObject alloc ;;
  match status with
  | None => ret (-1, results)
  | Some status =>
      added <- cJSON_AddItemToObject alloc (Some results) (Some status_key) (Some status) ;;
      match added with
      | None => ret (-1, results)
      | Some added =>
          match last (jchild added) with
          | None => undefined
          | Some status =>
              r <- add_numbers (status_fields o) status ;;
              ret (if r.1 then 0 else -1, set_jchild (removelast (jchild added) ++ [r.2]) added)
          end
      end
  end.

(** The payload, which stays in the output's buffer. *)
Definition output_reference (o : iperf_server_output) (v : cbuf) : AM (option cJSON) :=
  if decide (out_format o = IPERF_OUTPUT_JSON) then raw_reference (data v)
  else cJSON_CreateStringReference alloc (Some (data v)).

Definition output_key (o : iperf_server_output) : list Z := if decide (out_format o = IPERF_OUTPUT_JSON) then json_key else text_key.

Definition add_payload (o : iperf_server_output) (results : cJSON) : AM (option cJSON) :=
  match out_value o with
  | None => ret (Some results)
  | Some v =>
      value <- output_reference o v ;;
      match value with
      | None => ret None
      | Some value => cJSON_AddItemToObjectCS alloc (Some results) (Some (output_key o)) (Some value)
      end
  end.

(** The result, and the results with what was added. *)
Definition iperf_output_add_server_results (json_output : bool) (results : cJSON) : BM (Z * cJSON) :=
  finalized <- gets output_finalized ;;
  (if finalized then ret tt
   else
     (if json_output then finalize_json else _ <- begin alloc limit IPERF_OUTPUT_TEXT ;; ret tt) ;;;
     modify (fun b => b <| output_finalized := true |>)) ;;;
  output <- gets collected_server_output ;;
  with_payload <- with_alloc (add_payload output results) ;;
  match with_payload with
  | None => ret (-1, results)
  | Some results => with_alloc (add_status output results)
  end.

Definition add_received (o : iperf_server_output) (top : cJSON) : AM cJSON :=
  r <- add_payload o top ;; ret (default top r).

Definition iperf_output_add_received_json : BM unit :=
  b <- get ;;
  match out_value (received_server_output b), json_top b with
  | None, _ => ret tt
  | Some _, None => ret tt
  | Some _, Some top => t <- with_alloc (add_received (received_server_output b) top) ;; modify (fun b => b <| json_top := Some t |>)
  end.

End Json.

(** A number that is an integer between two bounds. *)
Definition integer_between (lo hi : Z) (o : option cJSON) : option Z :=
  match o with
  | Some j =>
      if cJSON_IsNumber o && D_eqb (jvaluedouble j) (D_of_Z (jvalueint j)) && (lo <=? jvalueint j) && (jvalueint j <=? hi)
      then Some (jvalueint j) else None
  | None => None
  end.

(** A number that is 1. *)
Definition is_one (o : option cJSON) : bool :=
  cJSON_IsNumber o && match o with Some j => D_eqb (jvaluedouble j) (D_of_Z 1) | None => false end.

Definition status_member (status : cJSON) (name : string) : option cJSON :=
  cJSON_GetObjectItemCaseSensitive (Some status) (Some (bytes_of name)).

Definition status_keys : list (list Z) := bytes_of <$> ["version"; "state"; "format"; "reason"; "observed_bytes"]%string.

(** A known key is there twice: the keys seen so far are [seen]. *)
Fixpoint repeats_key (children : list cJSON) (seen : list (list Z)) : bool :=
  match children with
  | [] => false
  | child :: children =>
      match jstring child with
      | Some s =>
          if existsb (streq s) status_keys
          then existsb (streq s) seen || repeats_key children (s :: seen)
          else repeats_key children seen
      | None => repeats_key children seen
      end
  end.

(** State and reason of a peer do not fit each other. *)
Definition inconsistent (state format reason : Z) : bool :=
  (state =? 1) && negb (reason =? 0) ||
  (state =? 2) && (negb (format =? 1) || negb (reason =? 1)) ||
  (3 <=? state) && (reason =? 0).

(** [isfinite], the bounds and [floor]. *)
Definition exact_bytes (o : option cJSON) (least : Z) : option Z :=
  match o with
  | Some j =>
      let d := jvaluedouble j in
      if cJSON_IsNumber o && negb (is_nan_or_inf d) && D_leb (D_of_Z least) d && D_leb d (D_of_Z exact_total) &&
         D_eqb (D_of_Z (D_trunc d)) d
      then Some (D_trunc d) else None
  | None => None
  end.

Definition worsen (state reason : Z) (o : iperf_server_output) : iperf_server_output :=
  if negb (bool_decide (out_state o = IPERF_OUTPUT_INVALID)) && (3 <=? state)
  then (discard (reason_of reason) o) <| out_state := state_of state |>
  else if bool_decide (out_state o = IPERF_OUTPUT_COMPLETE) && (state =? 2)
  then o <| out_state := IPERF_OUTPUT_TRUNCATED |> <| out_reason := reason_of reason |>
  else o.

Definition peer_total (bytes : option cJSON) (o : iperf_server_output) : iperf_server_output :=
  match exact_bytes bytes (observed_bytes o) with
  | Some n => o <| observed_bytes := n |> <| observed_bytes_complete := 1 |>
  | None => o
  end.

Definition iperf_output_apply_peer_status (results : cJSON) (output : iperf_server_output) : iperf_server_output :=
  match cJSON_GetObjectItemCaseSensitive (Some results) (Some status_key) with
  | None => output
  | Some status =>
      let invalid := discard IPERF_OUTPUT_INVALID_DATA output in
      match integer_between 1 4 (status_member status "state"),
            integer_between 1 2 (status_member status "format"), integer_between 0 6 (status_member status "reason") with
      | Some state, Some format, Some reason =>
          if negb (cJSON_IsObject (Some status) && is_one (status_member status "version")) then invalid
          else if negb (bool_decide (out_format output = IPERF_OUTPUT_NONE)) && negb (format_number (out_format output) =? format) then invalid
          else if bool_decide (out_state output = IPERF_OUTPUT_MISSING) && (state <? 3) then invalid
          else if inconsistent state format reason then invalid
          else if repeats_key (jchild status) [] then invalid
          else
            peer_total (status_member status "observed_bytes")
              ((worsen state reason output) <| out_format := format_of format |> <| observed_bytes_complete := 0 |>)
      | _, _, _ => invalid
      end
  end.

(** ** The other uses *)

Definition results_capacity (limit : Z) : Z := IPERF_RESULT_CORE_MAX_BYTES + 6 * limit + 1024 + 5.

(** [malloc_ok] is the outcome of its allocation; the rest belongs to the socket. *)
Definition iperf_output_write_results (alloc : nat -> bool) (has_reallocate malloc_ok : bool) (limit : Z) (results : cJSON)
    (fd : Z) (clock : answer (Z * Z)) (getfl setfl resetfl : option Z) (c : conn) : outcome (Z * conn) :=
  if negb malloc_ok then Ret (-1, c)
  else
    match cJSON_PrintPreallocated alloc has_reallocate results (results_capacity limit) (s32 (results_capacity limit)) false with
    | Ret (true, bytes) =>
        Ret (iperf_write_bounded_results_socket fd (Some bytes) (u32 (zlen (cstr bytes))) IPERF_RESULT_READ_TIMEOUT_MS true clock getfl setfl resetfl c)
    | Ret (false, _) => Ret (-1, set_errno EFBIG c)
    | UB => UB
    | OutOfFuel => OutOfFuel
    end.

(** The status without the buffer, which stays with its thread. *)
Definition iperf_output_get_local_status (b : budget) : iperf_server_output := (collected_server_output b) <| out_value := None |>.

(** What is printed of the received output, if anything: JSON is laid out anew
    when memory suffices. *)
Definition iperf_output_print_received (parse_alloc alloc : nat -> bool) (has_reallocate : bool) (b : budget) : outcome (option (list Z)) :=
  let output := received_server_output b in
  match out_value output with
  | None => Ret None
  | Some v =>
      let text := cstr (data v) in
      if negb (bool_decide (out_format output = IPERF_OUTPUT_JSON)) then
        Ret (Some ([c_nl] ++ bytes_of "Server output:" ++ [c_nl] ++ text ++ [c_nl]))
      else
        let say (t : list Z) := Some ([c_nl] ++ bytes_of "Server JSON output:" ++ [c_nl] ++ t ++ [c_nl]) in
        match Parse.run_parse (data v) (out_length output) parse_alloc false with
        | Ret (None, _) => Ret (say text)
        | Ret (Some tree, _) =>
            match cJSON_Print alloc has_reallocate tree 0 with
            | Ret (printed, _) => Ret (say (default text printed))
            | UB => UB
            | OutOfFuel => OutOfFuel
            end
        | UB => UB
        | OutOfFuel => OutOfFuel
        end
  end.
