(* ===== verification/OutputBudgetSpec.v ===== *)
(** * What the output budget guarantees

    Whatever the server prints, its collected text is the longest run of whole
    UTF-8 scalars within the limit; the status of a peer can only make the
    client's view of its output worse. *)

From Stdlib Require Import String.
From S2P Require Import Prelude Bytes Double JsonGrammar NumberText CJson CJsonTree CJsonTreeSpec CJsonPrint CJsonPrintSpec CJsonRoundTrip IperfTest BoundedOutput BoundedSocket OutputBudget.
Local Open Scope c_scope.

(** ** UTF-8 *)

Definition encoded (vs : list Z) : list Z := concat (utf8_encode <$> vs).

(** Scalars of a C string. *)
Definition text_scalars : list Z -> Prop := Forall (fun v => scalar_value v /\ v <> 0).

Lemma following_continued v l w : continued v l w -> following l v = Some w.
Proof.
  induction 1 as [|v c l w Hc _ IH]; [done|]. cbn [following].
  rewrite (proj2 (Z.ltb_ge c 128)), (proj2 (Z.ltb_ge 191 c)) by lia. done.
Qed.

Lemma continued_following l : forall v w, following l v = Some w -> continued v l w.
Proof.
  induction l as [|c l IH]; intros v w; cbn [following]; [intros [= ->]; constructor|].
  destruct (Z.ltb_spec c 128); [done|]. destruct (Z.ltb_spec 191 c); [done|]. intros H1. constructor; [lia|by apply IH].
Qed.

Ltac lead_of_range c :=
  unfold lead; rewrite (proj2 (Z.eqb_neq c 0)), (proj2 (Z.ltb_ge c 128)) by lia; cbn [negb andb];
  repeat first [rewrite (proj2 (Z.leb_le _ c)) by lia|rewrite (proj2 (Z.leb_le c _)) by lia
               |rewrite (proj2 (Z.leb_gt _ c)) by lia|rewrite (proj2 (Z.leb_gt c _)) by lia]; cbn [andb].

(** The lead byte of a scalar, with the payload and the bytes behind it. *)
Lemma lead_encode v : scalar_value v -> v <> 0 -> exists c l payload minimum,
  utf8_encode v = c :: l /\ lead c = Some (S (length l), payload, minimum) /\ following l payload = Some v /\ minimum <= v.
Proof.
  intros Hv H0. destruct (Z.ltb_spec v 128) as [Hs|Hs].
  - exists v, [], v, 0. unfold utf8_encode. destruct Hv as [Hv _]. rewrite (proj2 (Z.leb_le v 127)) by lia. rewrite wrapu_small by lia.
    unfold lead. rewrite (proj2 (Z.eqb_neq v 0)), (proj2 (Z.ltb_lt v 128)) by lia. split_and!; try done. lia.
  - pose proof (encode_multibyte v Hv Hs) as Hm. inversion Hm as [c l w Hc Hl Hk Hr _ E|c l w Hc Hl Hk Hr _ E|c l w Hc Hl Hk Hr _ E]; subst w.
    all: rewrite E; apply following_continued in Hk; eexists c, l, _, _; split_and!; [done|rewrite Hl; by lead_of_range c|exact Hk|lia].
Qed.

Lemma utf8_loop_scalar fuel v rest cut valid : scalar_value v -> v <> 0 ->
  utf8_loop (S fuel) (utf8_encode v ++ rest) cut valid = utf8_loop fuel rest cut (valid + zlen (utf8_encode v)).
Proof.
  intros Hv H0. destruct (lead_encode v Hv H0) as (c & l & p & m & E & El & Ef & Hm). rewrite E. cbn [app utf8_loop]. rewrite El.
  destruct (Nat.ltb_spec (length (c :: l ++ rest)) (S (length l))) as [H|_]; [cbn [length] in H; rewrite length_app in H; lia|].
  replace (S (length l) - 1)%nat with (length l) by lia. rewrite take_app_length, Ef.
  destruct Hv as [Hr Hs]. unfold surrogate in Hs. rewrite (proj2 (Z.ltb_ge v m)), (proj2 (Z.ltb_ge 1114111 v)) by lia. cbn [orb].
  destruct (Z.leb_spec 55296 v), (Z.leb_spec v 57343); cbn [andb]; try lia.
  all: cbn [drop]; rewrite drop_app_length; do 2 f_equal; unfold zlen; cbn [length]; lia.
Qed.

(** A scalar cut short. *)
Lemma utf8_loop_cut fuel v n valid : scalar_value v -> v <> 0 -> 0 < n < zlen (utf8_encode v) ->
  utf8_loop (S fuel) (firstn (Z.to_nat n) (utf8_encode v)) true valid = Ret (true, valid).
Proof.
  intros Hv H0 Hn. destruct (lead_encode v Hv H0) as (c & l & p & m & E & El & _ & _). rewrite E in *.
  destruct (Z.to_nat n) as [|k] eqn:Ek; [lia|]. cbn [firstn utf8_loop]. rewrite El.
  destruct (Nat.ltb_spec (length (c :: firstn k l)) (S (length l))) as [_|H]; [done|].
  cbn [length] in H. rewrite length_firstn in H. unfold zlen in Hn. cbn [length] in Hn. lia.
Qed.

(** The whole scalars that fit into [n] bytes. *)
Fixpoint fitting (n : Z) (vs : list Z) : list Z :=
  match vs with
  | [] => []
  | v :: vs => if zlen (utf8_encode v) <=? n then utf8_encode v ++ fitting (n - zlen (utf8_encode v)) vs else []
  end.

Lemma encoded_cons v vs : encoded (v :: vs) = utf8_encode v ++ encoded vs.
Proof. done. Qed.

Lemma encoded_app vs1 vs2 : encoded (vs1 ++ vs2) = encoded vs1 ++ encoded vs2.
Proof. unfold encoded. by rewrite fmap_app, concat_app. Qed.

Lemma fitting_all vs : forall n, zlen (encoded vs) <= n -> fitting n vs = encoded vs.
Proof.
  induction vs as [|v vs IH]; intros n Hn; [done|]. rewrite encoded_cons, zlen_app in Hn. pose proof (zlen_nonneg (encoded vs)).
  cbn [fitting]. rewrite (proj2 (Z.leb_le _ _)) by lia. rewrite IH by lia. done.
Qed.

Lemma fitting_app vs1 vs2 : forall n, fitting n (vs1 ++ vs2) =
  if zlen (encoded vs1) <=? n then encoded vs1 ++ fitting (n - zlen (encoded vs1)) vs2 else fitting n vs1.
Proof.
  induction vs1 as [|v vs1 IH]; intros n; cbn [app fitting].
  - change (encoded []) with (@nil Z). change (zlen (@nil Z)) with 0. destruct (Z.leb_spec 0 n); [by rewrite Z.sub_0_r|].
    destruct vs2 as [|v vs2]; [done|]. cbn [fitting]. pose proof (zlen_nonneg (utf8_encode v)). by rewrite (proj2 (Z.leb_gt _ _)) by lia.
  - rewrite encoded_cons, zlen_app. pose proof (zlen_nonneg (encoded vs1)). destruct (Z.leb_spec (zlen (utf8_encode v)) n).
    + rewrite IH. destruct (Z.leb_spec (zlen (encoded vs1)) (n - zlen (utf8_encode v))), (Z.leb_spec (zlen (utf8_encode v) + zlen (encoded vs1)) n); try lia; [|done].
      rewrite <- app_assoc. do 3 f_equal. lia.
    + by rewrite (proj2 (Z.leb_gt _ _)) by lia.
Qed.

Lemma fitting_bound vs : forall n, 0 <= n -> zlen (fitting n vs) <= n.
Proof.
  induction vs as [|v vs IH]; intros n Hn; [done|]. cbn [fitting]. destruct (Z.leb_spec (zlen (utf8_encode v)) n); [|done].
  rewrite zlen_app. specialize (IH (n - zlen (utf8_encode v)) ltac:(lia)). lia.
Qed.

Lemma fitting_prefix vs : forall n, exists rest, encoded vs = fitting n vs ++ rest.
Proof.
  induction vs as [|v vs IH]; intros n; [by exists []|]. cbn [fitting]. rewrite encoded_cons. destruct (_ <=? _); [|by eexists].
  destruct (IH (n - zlen (utf8_encode v))) as [rest ->]. exists rest. by rewrite app_assoc.
Qed.

Lemma take_prefix {A} (l1 l2 : list A) n : (length l1 <= n)%nat -> firstn n (l1 ++ l2) = l1 ++ firstn (n - length l1) l2.
Proof. intros H. rewrite firstn_app. by rewrite take_ge by lia. Qed.

(** The loop on a text of which [n] bytes are there. *)
Lemma utf8_loop_text vs : text_scalars vs -> forall fuel n valid, (length (firstn (Z.to_nat n) (encoded vs)) <= fuel)%nat -> 0 <= n ->
  utf8_loop fuel (firstn (Z.to_nat n) (encoded vs)) (n <? zlen (encoded vs)) valid = Ret (true, valid + zlen (fitting n vs)).
Proof.
  induction 1 as [|v vs [Hv H0] _ IH]; intros fuel n valid Hf Hn.
  { cbn. rewrite firstn_nil. change (zlen (@nil Z)) with 0. rewrite Z.add_0_r. by destruct fuel. }
  rewrite encoded_cons in *. rewrite zlen_app. pose proof (zlen_nonneg (encoded vs)). pose proof (utf8_encode_length v) as Hl.
  cbn [fitting]. destruct (Z.leb_spec (zlen (utf8_encode v)) n) as [Hle|Hlt].
  - assert (firstn (Z.to_nat n) (utf8_encode v ++ encoded vs) = utf8_encode v ++ firstn (Z.to_nat (n - zlen (utf8_encode v))) (encoded vs)) as E.
    { rewrite take_prefix by (unfold zlen in Hle; lia). do 2 f_equal. unfold zlen. lia. }
    rewrite E in *. rewrite length_app in Hf. destruct fuel as [|fuel]; [unfold zlen in Hl; lia|].
    rewrite utf8_loop_scalar by done. rewrite zlen_app, Z.add_assoc, <- (IH fuel); [|unfold zlen in Hl; lia|lia]. f_equal.
    destruct (Z.ltb_spec n (zlen (utf8_encode v) + zlen (encoded vs))), (Z.ltb_spec (n - zlen (utf8_encode v)) (zlen (encoded vs))); try lia; done.
  - rewrite (proj2 (Z.ltb_lt n _)) by lia. change (zlen (@nil Z)) with 0. rewrite Z.add_0_r.
    rewrite take_app_le in * by (unfold zlen in Hlt; lia). destruct (Z.eq_dec n 0) as [->|]; [by destruct fuel|].
    destruct fuel as [|fuel]; [|apply utf8_loop_cut; [done|done|lia]].
    rewrite length_firstn in Hf. unfold zlen in Hlt. lia.
Qed.

Lemma utf8_prefix_text vs n : text_scalars vs -> 0 <= n ->
  utf8_prefix (firstn (Z.to_nat n) (encoded vs)) (n <? zlen (encoded vs)) = Ret (true, zlen (fitting n vs)).
Proof. intros Hv Hn. unfold utf8_prefix. by rewrite utf8_loop_text by (done || lia). Qed.

(** What the loop accepts is encoded scalars. *)
Lemma lead_decode c n p m l w : lead c = Some (n, p, m) -> length l = (n - 1)%nat -> following l p = Some w ->
  m <= w <= 1114111 -> ~ surrogate w -> c :: l = utf8_encode w /\ scalar_value w /\ w <> 0 /\ (0 < n)%nat.
Proof.
  unfold lead. intros Hl Hn Hf Hw Hs. apply continued_following in Hf.
  destruct (negb (c =? 0) && (c <? 128)) eqn:E1.
  { simplify_eq. apply andb_true_iff in E1 as [E0%negb_true_iff%Z.eqb_neq E1%Z.ltb_lt]. destruct l; [|done]. inversion Hf; subst.
    unfold utf8_encode. rewrite (proj2 (Z.leb_le w 127)), wrapu_small by lia. split_and!; [done|split; [lia|done]|done|lia]. }
  destruct ((194 <=? c) && (c <=? 223)) eqn:E2; [|destruct ((224 <=? c) && (c <=? 239)) eqn:E3; [|destruct ((240 <=? c) && (c <=? 244)) eqn:E4; [|done]]].
  all: simplify_eq; rewrite andb_true_iff, !Z.leb_le in *.
  all: assert (multibyte (c :: l) w) as Hm by (by constructor).
  all: destruct (multibyte_encode _ _ Hm) as (E & Hv & Hb); split; [done|]; split; [done|lia].
Qed.

Lemma utf8_loop_sound fuel : forall text cut valid, (length text <= fuel)%nat -> exists r k, utf8_loop fuel text cut valid = Ret (r, valid + k) /\
  0 <= k <= zlen text /\ (r = true -> cut = false -> k = zlen text) /\ exists vs, text_scalars vs /\ firstn (Z.to_nat k) text = encoded vs.
Proof.
  assert (forall (r cut : bool) (text : list Z) valid, (r = true -> cut = false -> text = []) ->
    exists (r' : bool) k, Ret (r, valid) = Ret (r', valid + k) /\ 0 <= k <= zlen text /\ (r' = true -> cut = false -> k = zlen text) /\
    exists vs, text_scalars vs /\ firstn (Z.to_nat k) text = encoded vs) as Hend.
  { intros r cut text valid Hr. exists r, 0. pose proof (zlen_nonneg text). rewrite Z.add_0_r.
    split_and!; [done|lia|lia|intros; by rewrite Hr|]. exists []. by split; [constructor|]. }
  induction fuel as [|fuel IH]; intros text cut valid Hf; (destruct text as [|c rest]; [by apply Hend|]); [cbn in Hf; lia|].
  cbn [utf8_loop]. destruct (lead c) as [[[n p] m]|] eqn:El; [|by apply Hend].
  destruct (Nat.ltb_spec (length (c :: rest)) n) as [|Hlen]; [apply Hend; by intros ->|].
  destruct (following (firstn (n - 1) rest) p) as [w|] eqn:Ew; [|by apply Hend].
  destruct ((w <? m) || (1114111 <? w) || ((55296 <=? w) && (w <=? 57343))) eqn:Er; [by apply Hend|].
  rewrite !orb_false_iff, andb_false_iff, !Z.ltb_ge, !Z.leb_gt in Er. destruct Er as [[Hm Hx] Hs].
  cbn [length] in Hlen, Hf.
  destruct (lead_decode c n p m (firstn (n - 1) rest) w El) as (E & Hv & H0 & Hn); [rewrite length_firstn; lia|done|lia|unfold surrogate; lia|].
  destruct (IH (drop n (c :: rest)) cut (valid + Z.of_nat n)) as (r & k & E' & Hk & Hall & vs & Hvs & Et); [rewrite length_drop; cbn [length]; lia|].
  exists r, (Z.of_nat n + k). rewrite E', Z.add_assoc. unfold zlen in *. rewrite length_drop in *. cbn [length] in *. split_and!; [done|lia|lia|intros Hr Hc; rewrite (Hall Hr Hc); lia|].
  exists (w :: vs). split; [by constructor|]. rewrite encoded_cons, <- E, <- Et. destruct n as [|n]; [lia|]. cbn [drop].
  replace (Z.to_nat (Z.of_nat (S n) + k)) with (S (n + Z.to_nat k)) by lia. replace (S n - 1)%nat with n by lia. cbn [firstn app]. f_equal.
  by rewrite take_take_drop.
Qed.

Lemma utf8_prefix_sound text cut : exists r k, utf8_prefix text cut = Ret (r, k) /\ 0 <= k <= zlen text /\ (r = true -> cut = false -> k = zlen text) /\
  exists vs, text_scalars vs /\ firstn (Z.to_nat k) text = encoded vs.
Proof. destruct (utf8_loop_sound (length text) text cut 0) as (r & k & E & H); [done|]. exists r, k. done. Qed.

(** ** The buffer *)

(** The buffer has the C string [t], within the limit. *)
Definition holding (limit : Z) (t : list Z) (v : cbuf) : Prop :=
  cap v = limit + 1 /\ exists rest, data v = t ++ 0 :: rest /\ zlen (data v) <= limit + 1.

Lemma holding_room limit t v : holding limit t v -> zlen t <= limit.
Proof. intros (_ & rest & Ed & Hl). rewrite Ed, zlen_app, zlen_cons in Hl. pose proof (zlen_nonneg rest). lia. Qed.

(** Text, behind it a NUL, from the end of [t1] on. *)
Lemma buf_write_text limit v t1 t2 l : data v = t1 ++ t2 -> cap v = limit + 1 -> zlen (data v) <= limit + 1 -> zlen t1 + zlen l <= limit ->
  exists v', buf_write v (zlen t1) (l ++ [0]) = Some v' /\ holding limit (t1 ++ l) v'.
Proof.
  intros Ed Ec Hd Hl. rewrite (buf_write_over (l ++ [0]) v t1 t2) by (rewrite ?zlen_app; change (zlen [0]) with 1; done || lia).
  eexists. split; [done|]. split; [done|]. exists (drop (length (l ++ [0])) t2). cbn [data]. split; [by rewrite <- !app_assoc|].
  rewrite Ed in Hd. rewrite !zlen_app in *. change (zlen [0]) with 1. unfold zlen in *. rewrite length_drop, length_app. cbn [length]. lia.
Qed.

(** Nothing but the collected output changes. *)
Definition collects (o : iperf_server_output) (b b' : budget) : Prop := b' = b <| collected_server_output := o |>.

Lemma collects_field o b : collected_server_output (b <| collected_server_output := o |>) = o.
Proof. done. Qed.

(** The states of an output with its buffer. *)
Definition output_ok (limit : Z) (o : iperf_server_output) : Prop :=
  match out_state o with
  | IPERF_OUTPUT_COMPLETE | IPERF_OUTPUT_TRUNCATED => exists v t, out_value o = Some v /\ holding limit t v /\ out_length o = zlen t
  | _ => out_value o = None /\ out_length o = 0
  end.

Lemma discard_ok limit reason o : output_ok limit (discard reason o).
Proof. unfold output_ok, discard. cbn. by case_decide. Qed.

(** ** Collecting *)

Section Collecting.
Context (alloc : nat -> bool) (limit : Z).
Hypothesis limit_ok : 0 <= limit.

Lemma wp_on_collected f Q b : Q tt (update collected_server_output f b) -> wp (on_collected f) Q b.
Proof. done. Qed.

Lemma wp_write_value i l Q b v v' : out_value (collected_server_output b) = Some v -> buf_write v i l = Some v' ->
  Q tt (update collected_server_output (fun o => o <| out_value := Some v' |>) b) -> wp (write_value i l) Q b.
Proof. intros Ev Ew H. unfold write_value, wp. by rewrite Ev, Ew. Qed.

Lemma wp_read_value i n Q b v : out_value (collected_server_output b) = Some v -> 0 <= i -> 0 <= n -> i + n <= zlen (data v) ->
  Q (firstn (Z.to_nat n) (drop (Z.to_nat i) (data v))) b -> wp (read_value i n) Q b.
Proof. intros Ev Hi Hn Hl H. unfold read_value, wp. rewrite Ev, !(proj2 (Z.leb_le _ _)) by lia. done. Qed.

(** The buffer of a new output. *)
Definition begun (format : iperf_output_format) (v : cbuf) (o : iperf_server_output) : iperf_server_output :=
  o <| out_format := format |> <| observed_bytes_complete := if decide (format = IPERF_OUTPUT_TEXT) then 1 else 0 |>
    <| out_value := Some v |> <| out_state := IPERF_OUTPUT_COMPLETE |>.

(** Only the collected output and the number of allocations change. *)
Definition same_rest (b b' : budget) : Prop :=
  b' = b <| collected_server_output := collected_server_output b' |> <| b_nalloc := b_nalloc b' |>.

Lemma same_rest_trans b1 b2 b3 : same_rest b1 b2 -> same_rest b2 b3 -> same_rest b1 b3.
Proof. unfold same_rest. intros -> ->. done. Qed.

Lemma begin_missing format b : out_state (collected_server_output b) = IPERF_OUTPUT_MISSING -> out_length (collected_server_output b) = 0 ->
  wp (begin alloc limit format) (fun r b' => same_rest b b' /\ b_nalloc b' = S (b_nalloc b) /\
    if r then exists v, holding limit [] v /\ collected_server_output b' = begun format v (collected_server_output b)
    else alloc (b_nalloc b) = false /\ output_ok limit (collected_server_output b') /\ out_state (collected_server_output b') = IPERF_OUTPUT_DISCARDED) b.
Proof.
  intros Es El. unfold begin. wp_step. apply wp_gets. rewrite Es. change (negb (bool_decide (IPERF_OUTPUT_MISSING = IPERF_OUTPUT_MISSING))) with false. cbv iota.
  wp_step. apply wp_on_collected. wp_step. unfold with_alloc, wp at 1, allocate. cbn [b_nalloc update]. destruct (alloc (b_nalloc b)) eqn:Ea; cbn [negb].
  - wp_step. apply wp_on_collected. wp_step.
    destruct (buf_write_text limit (mk_cbuf (limit + 1) []) [] [] []) as (v' & Ev & Hv); [done|done|change (zlen (data (mk_cbuf (limit + 1) []))) with 0; lia|change (zlen (@nil Z)) with 0; lia|].
    eapply wp_write_value; [done|exact Ev|]. wp_step. apply wp_on_collected. wp_step. split_and!; try done. exists v'. by split.
  - wp_step. apply wp_on_collected. wp_step. by split_and!.
Qed.

Lemma begin_safe format b : output_ok limit (collected_server_output b) ->
  wp (begin alloc limit format) (fun r b' => same_rest b b' /\ output_ok limit (collected_server_output b') /\
    (r = true -> out_state (collected_server_output b') = IPERF_OUTPUT_COMPLETE)) b.
Proof.
  intros Ho. destruct (decide (out_state (collected_server_output b) = IPERF_OUTPUT_MISSING)) as [Es|Es].
  - unfold output_ok in Ho. rewrite Es in Ho. eapply wp_mono; [apply begin_missing; [done|apply Ho]|]. intros [] b' (Hs & _ & H).
    + destruct H as (v & Hv & E). rewrite E. split_and!; [done| |done]. exists v, []. destruct Ho. by split_and!.
    + destruct H as (_ & Hok & E). split_and!; done.
  - unfold begin. wp_step. apply wp_gets. rewrite bool_decide_false by done. cbn [negb]. wp_step. split_and!; [by destruct b|done|apply bool_decide_eq_true].
Qed.

(** What appending [s] of the size [n] to the text [t] leaves. *)
Definition appended (t s : list Z) (o o' : iperf_server_output) : Prop :=
  let available := limit - zlen t in
  exists r k, utf8_prefix (firstn (Z.to_nat available) s) (available <? zlen s) = Ret (r, k) /\ 0 <= k <= Z.min available (zlen s) /\
    if r then exists v, holding limit (t ++ firstn (Z.to_nat k) s) v /\
      let o1 := (count_bytes (zlen s) o) <| out_value := Some v |> <| out_length := zlen t + k |> in
      o' = (if available <? zlen s then o1 <| out_state := IPERF_OUTPUT_TRUNCATED |> <| out_reason := IPERF_OUTPUT_BYTE_LIMIT |> else o1)
    else o' = discard IPERF_OUTPUT_INVALID_DATA (count_bytes (zlen s) o).

Lemma count_bytes_state n o : out_state (count_bytes n o) = out_state o /\ out_value (count_bytes n o) = out_value o /\
  out_length (count_bytes n o) = out_length o /\ out_format (count_bytes n o) = out_format o /\ out_reason (count_bytes n o) = out_reason o.
Proof. unfold count_bytes. by destruct (_ <? _). Qed.

Lemma append_complete m w t v b : out_state (collected_server_output b) = IPERF_OUTPUT_COMPLETE -> out_value (collected_server_output b) = Some v ->
  holding limit t v -> out_length (collected_server_output b) = zlen t -> zlen m = zlen w ->
  wp (append_format limit (Some m) (Some w)) (fun _ b' => same_rest b b' /\ b_nalloc b' = b_nalloc b /\
    appended t w (collected_server_output b) (collected_server_output b')) b.
Proof.
  intros Es Ev Hv El Em. pose proof (holding_room _ _ _ Hv). pose proof (zlen_nonneg t). pose proof (zlen_nonneg w). unfold append_format.
  cbn [text_result]. rewrite Em. rewrite (proj2 (Z.ltb_ge (zlen w) 0)) by lia. wp_step. apply wp_on_collected. wp_step. apply wp_gets.
  set (o := collected_server_output b) in *. cbn [collected_server_output update]. fold o. destruct (count_bytes_state (zlen w) o) as (Cs & Cv & Cl & _).
  rewrite Cs, Es, Cl, El. cbn [negb]. change (negb (bool_decide (IPERF_OUTPUT_COMPLETE = IPERF_OUTPUT_COMPLETE))) with false. cbv iota zeta.
  set (available := limit - zlen t). set (s := firstn (Z.to_nat available) w).
  assert (zlen s = Z.min available (zlen w)) as Els by (unfold s, zlen in *; rewrite length_firstn; lia).
  destruct Hv as (Ec & rest & Ed & Hd). destruct (buf_write_text limit v t (0 :: rest) s Ed Ec Hd) as (v1 & Ew & Hv1); [lia|].
  wp_step. eapply wp_write_value; [cbn; fold o; by rewrite Cv|exact Ew|]. rewrite Z.eqb_refl. cbn [negb].
  wp_step. assert ((if zlen w <? available then zlen w else available) = zlen s) as -> by (rewrite Els; case_Z; lia).
  destruct Hv1 as (Ec1 & rest1 & Ed1 & Hd1).
  eapply wp_read_value; [done|lia|apply zlen_nonneg|rewrite Ed1, !zlen_app, zlen_cons; pose proof (zlen_nonneg rest1); lia|].
  assert (firstn (Z.to_nat (zlen s)) (drop (Z.to_nat (zlen t)) (data v1)) = s) as ->.
  { rewrite Ed1, <- app_assoc. unfold zlen. rewrite !Nat2Z.id, drop_app_length, take_app_length. done. }
  destruct (utf8_prefix_sound s (available <? zlen w)) as (r & k & Eu & Hk & _). rewrite Eu.
  assert (0 <= k <= Z.min available (zlen w)) as Hk' by lia.
  destruct r.
  - wp_step. apply wp_on_collected. wp_step.
    assert (data v1 = (t ++ firstn (Z.to_nat k) s) ++ (drop (Z.to_nat k) s ++ 0 :: rest1)) as Ed2.
    { rewrite Ed1, <- (take_drop (Z.to_nat k) s) at 1. by rewrite <- !app_assoc. }
    assert (zlen (t ++ firstn (Z.to_nat k) s) = zlen t + k) as El2 by (rewrite zlen_app; unfold zlen in *; rewrite length_firstn; lia).
    destruct (buf_write_text limit v1 _ _ [] Ed2 Ec1 Hd1) as (v2 & Ew2 & Hv2); [rewrite El2; change (zlen (@nil Z)) with 0; lia|].
    rewrite El2 in Ew2. eapply wp_write_value; [done|exact Ew2|]. rewrite app_nil_r in Hv2.
    assert (firstn (Z.to_nat k) s = firstn (Z.to_nat k) w) as Ek by (unfold s; rewrite take_take; f_equal; lia). rewrite Ek in Hv2.
    destruct (available <? zlen w) eqn:Ecut; [apply wp_on_collected|wp_step].
    all: split_and!; [done|done|]; exists true, k; fold available s; rewrite Ecut; split_and!; [done|lia|lia|]; exists v2; split; [done|].
    all: cbn; fold o; rewrite Cl, El; reflexivity.
  - apply wp_on_collected. split_and!; [done|done|]. exists false, k. fold available s. split_and!; [done|lia|lia|]. done.
Qed.

Lemma count_bytes_ok n o : output_ok limit o -> output_ok limit (count_bytes n o).
Proof. destruct (count_bytes_state n o) as (Es & Ev & El & _). unfold output_ok. by rewrite Es, Ev, El. Qed.

Lemma appended_ok t s o o' : out_state o = IPERF_OUTPUT_COMPLETE -> appended t s o o' -> output_ok limit o'.
Proof.
  intros Es (r & k & _ & Hk & H). destruct r; [|rewrite H; apply discard_ok]. destruct H as (v & Hv & ->).
  destruct (count_bytes_state (zlen s) o) as (Cs & _). unfold output_ok. assert (zlen t + k = zlen (t ++ firstn (Z.to_nat k) s)) as El.
  { rewrite zlen_app. unfold zlen in *. rewrite length_firstn. lia. }
  destruct (_ <? _); cbn; [|rewrite Cs, Es]; by exists v, (t ++ firstn (Z.to_nat k) s).
Qed.

(** Whatever [vsnprintf] produces. *)
Lemma append_safe measured written b : output_ok limit (collected_server_output b) ->
  wp (append_format limit measured written) (fun _ b' => same_rest b b' /\ b_nalloc b' = b_nalloc b /\ output_ok limit (collected_server_output b')) b.
Proof.
  intros Ho. set (o := collected_server_output b) in *.
  destruct (decide (out_state o = IPERF_OUTPUT_COMPLETE)) as [Es|Es].
  - pose proof Ho as Ho'. unfold output_ok in Ho'. rewrite Es in Ho'. destruct Ho' as (v & t & Ev & Hv & El).
    destruct measured as [m|]; [|unfold append_format; cbn [text_result]; apply wp_on_collected; split_and!; [done|done|apply discard_ok]].
    destruct (decide (Some (zlen m) = zlen <$> written)) as [Em|Em].
    { destruct written as [w|]; [|done]. injection Em as Em. eapply wp_mono; [by eapply (append_complete m w t v)|].
      intros [] b' (Hs & Hn & Ha). split_and!; [done|done|by eapply appended_ok]. }
    unfold append_format. cbn [text_result]. pose proof (zlen_nonneg m). rewrite (proj2 (Z.ltb_ge (zlen m) 0)) by lia.
    wp_step. apply wp_on_collected. wp_step. apply wp_gets. cbn [collected_server_output update]. fold o.
    destruct (count_bytes_state (zlen m) o) as (Cs & Cv & Cl & _). rewrite Cs, Es, Cl, El. change (negb (bool_decide (IPERF_OUTPUT_COMPLETE = IPERF_OUTPUT_COMPLETE))) with false. cbv iota zeta.
    assert (negb (text_result written =? zlen m) = true) as ->.
    { destruct written as [w|]; cbn [text_result]; apply negb_true_iff, Z.eqb_neq; [|lia]. intros E. apply Em. cbn. by rewrite E. }
    wp_step. destruct written as [w|]; [|wp_step; apply wp_on_collected; split_and!; [done|done|apply discard_ok]].
    pose proof (holding_room _ _ _ Hv). destruct Hv as (Ec & rest & Ed & Hd).
    destruct (buf_write_text limit v t (0 :: rest) (firstn (Z.to_nat (limit - zlen t)) w) Ed Ec Hd) as (v1 & Ew & _); [unfold zlen in *; rewrite length_firstn; lia|].
    eapply wp_write_value; [cbn; fold o; by rewrite Cv|exact Ew|]. apply wp_on_collected. split_and!; [done|done|apply discard_ok].
  - unfold append_format. destruct (text_result measured <? 0); [apply wp_on_collected; split_and!; [done|done|apply discard_ok]|].
    wp_step. apply wp_on_collected. wp_step. apply wp_gets. cbn [collected_server_output update]. fold o.
    destruct (count_bytes_state (text_result measured) o) as (Cs & _). rewrite Cs, bool_decide_false by done. cbn [negb]. wp_step.
    split_and!; [done|done|by apply count_bytes_ok].
Qed.

Lemma collect_printf_safe prefix measured written b : output_ok limit (collected_server_output b) ->
  wp (iperf_output_collect_printf alloc limit prefix measured written) (fun _ b' => same_rest b b' /\ output_ok limit (collected_server_output b')) b.
Proof.
  intros Ho. unfold iperf_output_collect_printf. wp_step. apply wp_gets. destruct (output_finalized b); [wp_step; split; [by destruct b|done]|].
  wp_step. eapply wp_mono; [by apply begin_safe|]. intros r b1 (Hs1 & Ho1 & _). wp_step.
  assert (forall b2, same_rest b b2 -> output_ok limit (collected_server_output b2) ->
    wp (append_format limit measured written) (fun _ b' => same_rest b b' /\ output_ok limit (collected_server_output b')) b2) as Hlast.
  { intros b2 Hs2 Ho2. eapply wp_mono; [by apply append_safe|]. intros [] b3 (Hs3 & _ & Ho3). split; [by eapply same_rest_trans|done]. }
  destruct prefix as [p|]; [|wp_step; by apply Hlast]. eapply wp_mono; [by apply append_safe|]. intros [] b2 (Hs2 & _ & Ho2). apply Hlast; [by eapply same_rest_trans|done].
Qed.

(** ** Text *)

(** The scalars [vs] were printed. *)
Record texted (vs : list Z) (o : iperf_server_output) : Prop := {
  tx_buffer : exists v, out_value o = Some v /\ holding limit (fitting limit vs) v;
  tx_length : out_length o = zlen (fitting limit vs);
  tx_observed : observed_bytes o = zlen (encoded vs) /\ observed_bytes_complete o = 1;
  tx_format : out_format o = IPERF_OUTPUT_TEXT;
  tx_state : out_state o = if zlen (encoded vs) <=? limit then IPERF_OUTPUT_COMPLETE else IPERF_OUTPUT_TRUNCATED;
  tx_reason : out_reason o = if zlen (encoded vs) <=? limit then IPERF_OUTPUT_REASON_NONE else IPERF_OUTPUT_BYTE_LIMIT }.

Lemma count_bytes_exact n o : 0 <= n -> 0 <= observed_bytes o -> observed_bytes o + n < 2 ^ 64 ->
  count_bytes n o = o <| observed_bytes := observed_bytes o + n |>.
Proof. intros Hn Ho H. unfold count_bytes, UINT64_MAX. rewrite (proj2 (Z.ltb_ge _ _)) by lia. by rewrite wrapu_small by lia. Qed.

Lemma append_scalars vs ws b : text_scalars ws -> zlen (encoded (vs ++ ws)) < 2 ^ 64 -> texted vs (collected_server_output b) ->
  wp (append_format limit (Some (encoded ws)) (Some (encoded ws))) (fun _ b' => same_rest b b' /\ b_nalloc b' = b_nalloc b /\ texted (vs ++ ws) (collected_server_output b')) b.
Proof.
  intros Hws Hsize [(v & Ev & Hv) El [Eo Ec] Ef Es Er]. rewrite encoded_app, zlen_app in Hsize. set (o := collected_server_output b) in *.
  pose proof (zlen_nonneg (encoded vs)). pose proof (zlen_nonneg (encoded ws)).
  pose proof (count_bytes_exact (zlen (encoded ws)) o ltac:(lia) ltac:(lia) ltac:(lia)) as Ecount.
  destruct (Z.leb_spec (zlen (encoded vs)) limit) as [Hfit|Hfit].
  - rewrite fitting_all in Hv, El by done. eapply wp_mono; [by eapply (append_complete _ (encoded ws) (encoded vs) v)|].
    intros [] b' (Hs & Hn & r & k & Eu & Hk & Hr). split_and!; [done|done|]. rewrite utf8_prefix_text in Eu by (done || lia). simplify_eq.
    destruct Hr as (v' & Hv' & Eo'). fold o in Eo'. rewrite Ecount in Eo'.
    assert (firstn (Z.to_nat (zlen (fitting (limit - zlen (encoded vs)) ws))) (encoded ws) = fitting (limit - zlen (encoded vs)) ws) as Ek.
    { destruct (fitting_prefix ws (limit - zlen (encoded vs))) as [rest E]. rewrite E. unfold zlen. by rewrite Nat2Z.id, take_app_length. }
    assert (fitting limit (vs ++ ws) = encoded vs ++ fitting (limit - zlen (encoded vs)) ws) as Efit by (rewrite fitting_app; by rewrite (proj2 (Z.leb_le _ _))).
    rewrite Ek, <- Efit in Hv'.
    rewrite Eo'. split; rewrite ?encoded_app, ?zlen_app, ?Efit, ?zlen_app.
    all: destruct (Z.ltb_spec (limit - zlen (encoded vs)) (zlen (encoded ws))), (Z.leb_spec (zlen (encoded vs) + zlen (encoded ws)) limit); try lia; cbn.
    all: try done. all: try (by rewrite <- Efit; eauto). all: try (by rewrite Eo, Ec). all: by rewrite ?Er, ?Es.
  - unfold append_format. cbn [text_result]. rewrite (proj2 (Z.ltb_ge _ 0)) by lia. wp_step. apply wp_on_collected. wp_step. apply wp_gets.
    cbn [collected_server_output update]. fold o. rewrite Ecount. cbn [out_state update]. change (out_state (o <| observed_bytes := observed_bytes o + zlen (encoded ws) |>)) with (out_state o). rewrite Es.
    change (negb (bool_decide (IPERF_OUTPUT_TRUNCATED = IPERF_OUTPUT_COMPLETE))) with true. cbv iota. wp_step.
    split_and!; [done|done|]. cbn [collected_server_output update]. fold o. rewrite Ecount.
    split; rewrite ?fitting_app, ?encoded_app, ?zlen_app; rewrite ?(proj2 (Z.leb_gt (zlen (encoded vs)) limit)) by done; rewrite ?(proj2 (Z.leb_gt (zlen (encoded vs) + zlen (encoded ws)) limit)) by lia; cbn.
    all: eauto. by rewrite Eo, Ec.
Qed.

(** The calls that print these prefixes and texts. *)
Fixpoint print_all (ps : list (option (list Z) * list Z)) : BM unit :=
  match ps with
  | [] => ret tt
  | (p, m) :: ps =>
      iperf_output_collect_printf alloc limit (encoded <$> p) (Some (encoded m)) (Some (encoded m)) ;;;
      print_all ps
  end.

Definition said (ps : list (option (list Z) * list Z)) : list Z := concat ((fun pm => default [] pm.1 ++ pm.2) <$> ps).

Definition said_ok (ps : list (option (list Z) * list Z)) : Prop := Forall (fun pm => text_scalars (default [] pm.1) /\ text_scalars pm.2) ps.

(** The texts of one call. *)
Lemma collect_texted vs p m b : text_scalars (default [] p) -> text_scalars m -> zlen (encoded (vs ++ default [] p ++ m)) < 2 ^ 64 ->
  texted vs (collected_server_output b) ->
  wp (match encoded <$> p with Some t => append limit t | None => ret tt end ;;; append_format limit (Some (encoded m)) (Some (encoded m)))
    (fun _ b' => same_rest b b' /\ texted (vs ++ default [] p ++ m) (collected_server_output b')) b.
Proof.
  intros Hp Hm Hs Ht. rewrite app_assoc in Hs |- *. pose proof Hs as Hs'. rewrite encoded_app, zlen_app in Hs'. pose proof (zlen_nonneg (encoded m)).
  assert (forall b1, same_rest b b1 -> texted (vs ++ default [] p) (collected_server_output b1) ->
    wp (append_format limit (Some (encoded m)) (Some (encoded m))) (fun _ b' => same_rest b b' /\ texted ((vs ++ default [] p) ++ m) (collected_server_output b')) b1) as Hlast.
  { intros b1 Hr1 Ht1. eapply wp_mono; [by apply append_scalars|]. intros [] b2 (Hr2 & _ & Ht2). split; [by eapply same_rest_trans|done]. }
  wp_step. destruct p as [p|]; cbn [fmap option_fmap option_map default] in *.
  - change (Datatypes.id p) with p in *. eapply wp_mono; [apply (append_scalars vs p); [done|lia|done]|]. intros [] b' (Hr & _ & Ht'). by apply Hlast.
  - wp_step. apply Hlast; [by destruct b|]. cbn. by rewrite app_nil_r.
Qed.

Lemma begin_running format b : out_state (collected_server_output b) <> IPERF_OUTPUT_MISSING -> wp (begin alloc limit format) (fun _ b' => b' = b) b.
Proof. intros Es. unfold begin. wp_step. apply wp_gets. rewrite bool_decide_false by done. cbn [negb]. by wp_step. Qed.

Lemma same_rest_finalized b b' : same_rest b b' -> output_finalized b' = output_finalized b.
Proof. by intros ->. Qed.

Lemma said_cons p m ps : said ((p, m) :: ps) = (default [] p ++ m) ++ said ps.
Proof. done. Qed.

Lemma print_all_texted ps : said_ok ps -> forall vs b, zlen (encoded (vs ++ said ps)) < 2 ^ 64 -> output_finalized b = false ->
  texted vs (collected_server_output b) -> wp (print_all ps) (fun _ b' => texted (vs ++ said ps) (collected_server_output b')) b.
Proof.
  induction 1 as [|[p m] ps [Hp Hm] _ IH]; intros vs b Hs Hf Ht; cbn [print_all].
  { wp_step. change (said []) with (@nil Z). by rewrite app_nil_r. }
  rewrite said_cons, app_assoc in Hs |- *. pose proof Hs as Hs'. rewrite encoded_app, zlen_app in Hs'. pose proof (zlen_nonneg (encoded (said ps))).
  wp_step. unfold iperf_output_collect_printf. wp_step. apply wp_gets. rewrite Hf. wp_step. eapply wp_mono; [apply begin_running|].
  { destruct Ht as [_ _ _ _ -> _]. by destruct (_ <=? _). }
  intros r b1 ->. eapply wp_mono; [apply (collect_texted vs); [done|done|lia|done]|]. intros [] b2 [Hr2 Ht2]. apply IH; [done|by rewrite (same_rest_finalized b b2)|done].
Qed.

Lemma encoded_cstr vs rest : text_scalars vs -> cstr (encoded vs ++ 0 :: rest) = encoded vs.
Proof.
  intros Hv. assert (nonzero (encoded vs)) as Hn.
  { induction Hv as [|v vs [Hs H0] _ IH]; [constructor|]. rewrite encoded_cons. apply Forall_app. split; [|done].
    destruct (lead_encode v Hs H0) as (c & l & p & m & E & El & Ef & _). rewrite E. constructor.
    - unfold lead in El. destruct (Z.eqb_spec c 0) as [->|]; [done|done].
    - apply continued_following in Ef. clear -Ef. induction Ef; constructor; [lia|done]. }
  by apply cstr_nonzero_end.
Qed.

Lemma fitting_scalars vs : text_scalars vs -> forall n, exists vs', text_scalars vs' /\ fitting n vs = encoded vs'.
Proof.
  induction 1 as [|v vs Hv _ IH]; intros n; [exists []; by split; [constructor|]|]. cbn [fitting].
  destruct (_ <=? _); [|exists []; by split; [constructor|]]. destruct (IH (n - zlen (utf8_encode v))) as (vs' & Hvs & ->). exists (v :: vs').
  split; [by constructor|done].
Qed.

Lemma said_scalars ps : said_ok ps -> text_scalars (said ps).
Proof. induction 1 as [|[p m] ps [Hp Hm] _ IH]; [constructor|]. rewrite said_cons. apply Forall_app. split; [by apply Forall_app|done]. Qed.

(** The server's collected text is the longest run of whole scalars of what
    it printed that fits the limit, whatever the lengths of the single texts;
    it is complete exactly when all of it fits, and the total counts every byte. *)
Theorem collected_text ps b : said_ok ps -> ps <> [] -> zlen (encoded (said ps)) < 2 ^ 64 ->
  collected_server_output b = Scanner.empty_output -> output_finalized b = false -> alloc (b_nalloc b) = true ->
  wp (print_all ps) (fun _ b' => let o := collected_server_output b' in
    (exists v, out_value o = Some v /\ zlen (data v) <= limit + 1 /\ cstr (data v) = fitting limit (said ps)) /\
    out_length o = zlen (fitting limit (said ps)) /\
    observed_bytes o = zlen (encoded (said ps)) /\ observed_bytes_complete o = 1 /\ out_format o = IPERF_OUTPUT_TEXT /\
    out_state o = (if zlen (encoded (said ps)) <=? limit then IPERF_OUTPUT_COMPLETE else IPERF_OUTPUT_TRUNCATED) /\
    out_reason o = (if zlen (encoded (said ps)) <=? limit then IPERF_OUTPUT_REASON_NONE else IPERF_OUTPUT_BYTE_LIMIT)) b.
Proof.
  intros Hps Hne Hs Eo Hf Ha. pose proof (said_scalars _ Hps) as Hsaid. destruct ps as [|[p m] ps]; [done|]. inversion Hps as [|? ? [Hp Hm] Hps']; subst.
  rewrite said_cons in *. pose proof Hs as Hs'. rewrite encoded_app, zlen_app in Hs'. pose proof (zlen_nonneg (encoded (said ps))).
  cbn [print_all]. wp_step. unfold iperf_output_collect_printf. wp_step. apply wp_gets. rewrite Hf. wp_step.
  eapply wp_mono; [apply begin_missing; by rewrite Eo|]. intros r b1 (Hr1 & _ & H1). destruct r; [|by destruct H1 as [? _]; congruence].
  destruct H1 as (v & Hv & E1). rewrite Eo in E1.
  assert ((zlen (encoded []) <=? limit) = true) as E0 by (by apply Z.leb_le).
  assert (texted [] (collected_server_output b1)) as Ht1 by (rewrite E1; split; rewrite ?E0; try done; by exists v).
  eapply wp_mono; [apply (collect_texted []); [done|done|cbn [app]; lia|done]|]. intros [] b2 [Hr2 Ht2].
  eapply wp_mono; [apply (print_all_texted ps Hps' (default [] p ++ m)); [done| |done]|].
  { by rewrite (same_rest_finalized b1 b2), (same_rest_finalized b b1). }
  intros [] b3 [(v3 & Ev3 & (_ & rest & Ed3 & Hl3)) El3 [Eo3 Ec3] Ef3 Es3 Er3]. cbv zeta. split_and!; try done.
  exists v3. split_and!; [done|done|]. rewrite Ed3. destruct (fitting_scalars _ Hsaid limit) as (vs' & Hvs' & ->). by apply encoded_cstr.
Qed.
End Collecting.

Lemma collected_text_witness :
  let ps := [(Some [115; 58], [104; 233; 8364])] in
  let b := mk_budget Scanner.empty_output Scanner.empty_output no_metrics false 0 0 false false false None None 0 in
  wp (print_all (fun _ => true) 6 ps) (fun _ b' => let o := collected_server_output b' in
    (exists v, out_value o = Some v /\ zlen (data v) <= 6 + 1 /\ cstr (data v) = fitting 6 (said ps)) /\
    out_length o = zlen (fitting 6 (said ps)) /\
    observed_bytes o = zlen (encoded (said ps)) /\ observed_bytes_complete o = 1 /\ out_format o = IPERF_OUTPUT_TEXT /\
    out_state o = (if zlen (encoded (said ps)) <=? 6 then IPERF_OUTPUT_COMPLETE else IPERF_OUTPUT_TRUNCATED) /\
    out_reason o = (if zlen (encoded (said ps)) <=? 6 then IPERF_OUTPUT_REASON_NONE else IPERF_OUTPUT_BYTE_LIMIT)) b.
Proof.
  apply (collected_text (fun _ => true) 6 ltac:(lia) [(Some [115; 58], [104; 233; 8364])]
    (mk_budget Scanner.empty_output Scanner.empty_output no_metrics false 0 0 false false false None None 0)); try done.
  repeat constructor; try done; unfold surrogate; cbn; lia.
Defined.

(** ** The status of the peer *)

Lemma exact_bytes_range o least n : (forall j, o = Some j -> wf_item j) -> 0 <= least < 2 ^ 53 -> exact_bytes o least = Some n -> least <= n < 2 ^ 53.
Proof.
  intros Hw Hl H. destruct o as [j|]; [|done]. unfold exact_bytes in H. cbv zeta in H.
  destruct (cJSON_IsNumber _ && _ && _ && _ && _) eqn:E; [|done]. injection H as <-. rewrite !andb_true_iff in E. destruct E as [[[[_ Hf] H1] H2] H3].
  specialize (Hw j eq_refl). inversion Hw as [? ? ? ? ? ? [_ [Hn|Hv]]]; subst; cbn [jvaluedouble] in *; [by rewrite Hn in Hf|]. by apply D_integer_between.
Qed.

Lemma member_wf j name o x : wf_item j -> cJSON_GetObjectItemCaseSensitive (Some j) (Some name) = o -> o = Some x -> wf_item x.
Proof.
  intros Hw <- E. unfold cJSON_GetObjectItemCaseSensitive in E. apply get_object_item_child in E. destruct Hw as [t c v i d s _ _ _ Hc]. by rewrite Forall_forall in Hc; apply Hc.
Qed.

(** A state that is at least as bad, with the same output or none. *)
Definition no_better (o o' : iperf_server_output) : Prop :=
  (out_value o' = out_value o /\ out_length o' = out_length o \/
   out_value o' = None /\ out_length o' = 0 /\ 3 <= state_number (out_state o')) /\
  (out_state o <> IPERF_OUTPUT_MISSING -> state_number (out_state o) <= state_number (out_state o')) /\
  (out_state o = IPERF_OUTPUT_MISSING -> o' = o \/ 3 <= state_number (out_state o')) /\
  (out_format o <> IPERF_OUTPUT_NONE -> out_format o' = out_format o) /\
  observed_bytes o <= observed_bytes o'.

Lemma invalid_no_better o : no_better o (discard IPERF_OUTPUT_INVALID_DATA o).
Proof. split_and!; cbn; [by right|by destruct (out_state o)|by right|done|lia]. Qed.

Lemma format_number_inj f : format_of (format_number f) = f.
Proof. by destruct f. Qed.

Lemma worsen_no_better state reason format o : 1 <= state <= 4 -> (out_state o = IPERF_OUTPUT_MISSING -> 3 <= state) ->
  (out_format o <> IPERF_OUTPUT_NONE -> format_number (out_format o) = format) ->
  no_better o ((worsen state reason o) <| out_format := format_of format |> <| observed_bytes_complete := 0 |>).
Proof.
  intros Hs Hm Hf. assert (forall P : Z -> Prop, P 1 -> P 2 -> P 3 -> P 4 -> P state) as Hstate.
  { intros P P1 P2 P3 P4. destruct (decide (state = 1)) as [->|]; [done|]. destruct (decide (state = 2)) as [->|]; [done|].
    destruct (decide (state = 3)) as [->|]; [done|]. by replace state with 4 by lia. }
  assert (out_format o <> IPERF_OUTPUT_NONE -> format_of format = out_format o) as Hf' by (intros Hne; by rewrite <- (Hf Hne), format_number_inj).
  revert Hm. unfold worsen, no_better. pattern state. apply Hstate; intros Hm; destruct (out_state o) eqn:Es; try (specialize (Hm eq_refl); lia).
  all: repeat (case_bool_decide; try done); cbn; rewrite ?Es; split_and!; try done; try lia; try (by left); try (by right).
Qed.

Lemma integer_between_range lo hi o n : integer_between lo hi o = Some n -> lo <= n <= hi.
Proof.
  unfold integer_between. destruct o as [j|]; [|done]. destruct (_ && (jvalueint j <=? hi)) eqn:E; [|done]. intros [= <-].
  apply andb_true_iff in E as [E Hh%Z.leb_le]. apply andb_true_iff in E as [_ Hl%Z.leb_le]. lia.
Qed.

(** What a peer says of its output never makes the client's view of it
    better: a payload stays as it was received or is dropped, truncated or invalid
    output never becomes complete, the format that was received stays and the
    total only grows, whatever JSON the peer sends. *)
Theorem peer_status_only_worsens results o : wf_item results -> 0 <= observed_bytes o < 2 ^ 53 ->
  no_better o (iperf_output_apply_peer_status results o).
Proof.
  intros Hw Ho. unfold iperf_output_apply_peer_status.
  destruct (cJSON_GetObjectItemCaseSensitive (Some results) (Some status_key)) as [status|] eqn:Est; [|split_and!; auto; lia].
  pose proof (member_wf _ _ _ status Hw Est eq_refl) as Hws. cbv zeta.
  destruct (integer_between 1 4 _) as [state|] eqn:Es; [|apply invalid_no_better]. destruct (integer_between 1 2 _) as [format|] eqn:Ef; [|apply invalid_no_better].
  destruct (integer_between 0 6 _) as [reason|]; [|apply invalid_no_better].
  destruct (negb (cJSON_IsObject _ && _)); [apply invalid_no_better|].
  destruct (negb (bool_decide _) && negb (_ =? format)) eqn:E1; [apply invalid_no_better|].
  destruct (bool_decide _ && (state <? 3)) eqn:E2; [apply invalid_no_better|].
  destruct (inconsistent _ _ _); [apply invalid_no_better|]. destruct (repeats_key _ _); [apply invalid_no_better|].
  pose proof (integer_between_range _ _ _ _ Es) as Hs.
  pose proof (worsen_no_better state reason format o Hs) as Hb.
  set (o1 := (worsen _ _ _) <| out_format := _ |> <| observed_bytes_complete := 0 |>) in *.
  assert (no_better o o1) as Hb1.
  { apply Hb.
    - intros Em. rewrite Em in E2. change (bool_decide (IPERF_OUTPUT_MISSING = IPERF_OUTPUT_MISSING)) with true in E2. cbn [andb] in E2. by apply Z.ltb_ge in E2.
    - intros Hn. rewrite bool_decide_false in E1 by done. cbn [negb andb] in E1. by apply negb_false_iff, Z.eqb_eq in E1. }
  assert (observed_bytes o1 = observed_bytes o) as Eo by (unfold o1, worsen; by repeat case_match).
  unfold peer_total. destruct (exact_bytes _ _) as [n|] eqn:En; [|done]. rewrite Eo in En.
  apply exact_bytes_range in En; [|intros j Ej; by eapply (member_wf status)|done].
  destruct Hb1 as (H1 & H2 & H3 & H4 & _). split_and!; [done|done| |done|cbn; lia].
  intros Em. right. destruct (H3 Em) as [E|?]; [|done]. exfalso. unfold o1, worsen in E. rewrite Em in E, E2.
  change (bool_decide (IPERF_OUTPUT_MISSING = IPERF_OUTPUT_MISSING)) with true in E2. cbn [andb] in E2. apply Z.ltb_ge in E2.
  rewrite (proj2 (Z.leb_le 3 state)) in E by done. cbn in E. apply (f_equal out_state) in E. cbn in E. rewrite Em in E. unfold state_of in E. repeat case_match; done || lia.
Qed.

Lemma peer_status_only_worsens_witness :
  let number (s : string) (n : Z) := set_jstring (Some (bytes_of s)) (number_node (D_of_Z n)) in
  let status := Node cJSON_Object [number "version" 1; number "state" 2; number "format" 1; number "reason" 1; number "observed_bytes" 9]%string None 0 D_zero (Some status_key) in
  let results := Node cJSON_Object [status] None 0 D_zero None in
  let o := mk_output (Some (mk_cbuf 6 [104; 105; 0])) 2 2 IPERF_OUTPUT_COMPLETE IPERF_OUTPUT_TEXT IPERF_OUTPUT_REASON_NONE 1 in
  out_state (iperf_output_apply_peer_status results o) = IPERF_OUTPUT_TRUNCATED /\ no_better o (iperf_output_apply_peer_status results o).
Proof.
  cbv zeta. split; [vm_compute; reflexivity|]. apply peer_status_only_worsens; [|cbn; lia].
  assert (forall s n, Z.abs n < 2 ^ 53 -> Forall byte_ok s -> wf_item (set_jstring (Some s) (number_node (D_of_Z n)))) as Hn.
  { intros s n Hn Hs. rewrite number_node_small by done. constructor; [split; [lia|right; by apply D_of_Z_valid]|constructor|done|constructor]. }
  constructor; [by split; [|right]|constructor|constructor|]. apply Forall_singleton.
  constructor; [by split; [|right]|constructor|apply bytes_of_ok|].
  by repeat (apply Forall_cons; split; [apply Hn; [lia|apply bytes_of_ok]|]); apply Forall_nil.
Defined.
