(* ===== verification/OutputBudgetJson.v ===== *)
(** * The server's JSON output under the budget

    The intervals are collected one by one as text; at the end the whole
    document is printed around that text.  What is kept is the compact text of
    the document with all its intervals, or nothing. *)

From Stdlib Require Import String.
From S2P Require Import Prelude Bytes Double JsonGrammar NumberText CJson CJsonTree CJsonTreeSpec CJsonPrint CJsonPrintSpec CJsonRoundTrip IperfTest BoundedOutput BoundedSocket OutputBudget OutputBudgetSpec.
Local Open Scope c_scope.

(** ** The limits on the shape of a tree *)

Fixpoint size (j : cJSON) : Z := let 'Node _ c _ _ _ _ := j in 1 + foldr (fun x n => size x + n) 0 c.
Fixpoint height (j : cJSON) : Z := let 'Node _ c _ _ _ _ := j in 1 + foldr (fun x n => Z.max (height x) n) 0 c.

Definition sizes (l : list cJSON) : Z := foldr (fun x n => size x + n) 0 l.
Definition heights (l : list cJSON) : Z := foldr (fun x n => Z.max (height x) n) 0 l.

(** A tree at the depth [d], after [n] other nodes. *)
Definition within (d n : Z) (j : cJSON) : Prop := d + height j <= 65 /\ n + size j <= 16384.

Lemma size_pos j : 1 <= size j.
Proof.
  induction j as [t c v i x s IH] using cJSON_children_ind. cbn [size].
  enough (0 <= foldr (fun x n => size x + n) 0 c) by lia. induction IH as [|y c Hy _ IH']; cbn; lia.
Qed.

Lemma height_pos j : 1 <= height j.
Proof.
  destruct j as [t c v i x s]. cbn [height]. enough (0 <= foldr (fun x n => Z.max (height x) n) 0 c) by lia.
  induction c; cbn; lia.
Qed.

Lemma sizes_nonneg l : 0 <= sizes l.
Proof. induction l as [|j l IH]; cbn; [lia|]. pose proof (size_pos j). unfold sizes in IH. lia. Qed.

Lemma heights_nonneg l : 0 <= heights l.
Proof. induction l; cbn; unfold heights in *; lia. Qed.

Fixpoint shapes (l : list cJSON) (depth nodes : Z) : bool * Z * iperf_output_reason :=
  match l with
  | [] => (true, nodes, IPERF_OUTPUT_REASON_NONE)
  | child :: l =>
      match shape child depth nodes with
      | (true, nodes, _) => shapes l depth nodes
      | failed => failed
      end
  end.

Lemma shape_unfold t c v i x s depth nodes : shape (Node t c v i x s) depth nodes =
  if IPERF_RESULT_MAX_DEPTH <? depth then (false, nodes, IPERF_OUTPUT_DEPTH_LIMIT)
  else
    let nodes := u64 (nodes + 1) in
    if IPERF_RESULT_CORE_MAX_VALUES <? nodes then (false, nodes, IPERF_OUTPUT_NODE_LIMIT) else shapes c (depth + 1) nodes.
Proof.
  cbn [shape]. destruct (_ <? depth); [done|]. cbv zeta. destruct (_ <? _); [done|]. generalize (u64 (nodes + 1)) as n.
  induction c as [|y c IH]; intros n; [done|]. cbn [shapes]. destruct (shape y (depth + 1) n) as [[[] n'] r]; [apply IH|done].
Qed.

Definition shape_result (ok : Prop) (nodes : Z) (r : bool * Z * iperf_output_reason) : Prop :=
  match r with
  | (true, n, _) => ok /\ n = nodes
  | (false, _, reason) => ~ ok /\ reason <> IPERF_OUTPUT_REASON_NONE
  end.

Lemma shapes_spec l depth : Forall (fun j => forall n, 0 <= n <= 16384 -> shape_result (within depth n j) (n + size j) (shape j depth n)) l ->
  forall n, 0 <= n <= 16384 ->
  shape_result ((l <> [] -> depth + heights l <= 65) /\ n + sizes l <= 16384) (n + sizes l) (shapes l depth n).
Proof.
  intros Hl. induction Hl as [|j l Hj _ IH]; intros n Hn; cbn [shapes].
  { cbn. split; [split; [done|lia]|lia]. }
  change (sizes (j :: l)) with (size j + sizes l). change (heights (j :: l)) with (Z.max (height j) (heights l)).
  specialize (Hj n Hn). destruct (shape j depth n) as [[[] n'] r].
  - destruct Hj as [[Hh Hs] ->]. pose proof (size_pos j). pose proof (height_pos j). pose proof (heights_nonneg l).
    specialize (IH (n + size j) ltac:(lia)). destruct (shapes l depth (n + size j)) as [[[] m] r']; cbn in IH |- *.
    + destruct IH as [[IH1 IH2] ->]. split; [|lia]. split; [|lia]. intros _. destruct l as [|k l]; [cbn in *; lia|]. specialize (IH1 ltac:(done)). lia.
    + destruct IH as [IH1 IH2]. split; [|done]. intros [G1 G2]. apply IH1. split; [intros Hne; specialize (G1 ltac:(done)); lia|lia].
  - cbn in Hj |- *. destruct Hj as [Hj Hr]. split; [|done]. intros [G1 G2]. apply Hj. specialize (G1 ltac:(done)). pose proof (sizes_nonneg l). split; lia.
Qed.

(** [shape] accepts exactly the trees within the limits, and counts their nodes. *)
Lemma shape_spec j : forall depth n, 0 <= n <= 16384 -> shape_result (within depth n j) (n + size j) (shape j depth n).
Proof.
  induction j as [t c v i x s IH] using cJSON_children_ind. intros depth n Hn. rewrite shape_unfold. unfold IPERF_RESULT_MAX_DEPTH, IPERF_RESULT_CORE_MAX_VALUES.
  unfold within. change (size (Node t c v i x s)) with (1 + sizes c). change (height (Node t c v i x s)) with (1 + heights c).
  pose proof (sizes_nonneg c). pose proof (heights_nonneg c).
  destruct (Z.ltb_spec 64 depth); [split; [lia|done]|]. cbv zeta. rewrite wrapu_small by lia.
  destruct (Z.ltb_spec 16384 (n + 1)); [split; [lia|done]|].
  pose proof (shapes_spec c (depth + 1) ltac:(eapply Forall_impl; [exact IH|]; cbn; auto) (n + 1) ltac:(lia)) as Hs.
  destruct (shapes c (depth + 1) (n + 1)) as [[[] m] r]; cbn in Hs |- *.
  - destruct Hs as [[Hh Hs] ->]. split; [|lia]. split; [|lia]. destruct c as [|k c]; [cbn; lia|]. specialize (Hh ltac:(done)). lia.
  - destruct Hs as [Hs Hr]. split; [|done]. intros [G1 G2]. apply Hs. split; [intros _; lia|lia].
Qed.

(** ** Collecting intervals *)

Section Intervals.
Context (alloc : nat -> bool) (Halloc : forall n, alloc n = true) (has_reallocate : bool) (limit : Z).
Hypothesis limit_ok : 0 <= limit <= IPERF_OUTPUT_MAX_BYTES.

(** An item a C program can hold. *)
Definition item_ok (j : cJSON) : Prop := wf_item j /\ zlen (render false 0 j) + 2 < 2 ^ 63.

Lemma print_scratch_spec item b : item_ok item ->
  wp (print_scratch alloc has_reallocate limit item) (fun r b' => b' = b /\
    r = if printable item && (zlen (render false 0 item) <=? limit + 3) then Some (render false 0 item) else None) b.
Proof.
  intros [Hw Hs]. unfold print_scratch. assert (s32 limit = limit) as -> by (apply wraps_small; unfold IPERF_OUTPUT_MAX_BYTES in *; lia).
  destruct (print_preallocated_result alloc has_reallocate item false (limit + 5) Hw ltac:(lia) Hs) as (bytes & -> & Hb).
  assert ((zlen (render false 0 item) + 2 <=? limit + 5) = (zlen (render false 0 item) <=? limit + 3)) as E by (repeat case_Z; lia || done).
  rewrite E in *. destruct (printable item && _); wp_step; split; try done. destruct (Hb eq_refl) as [rest ->]. by rewrite cstr_render.
Qed.

Lemma scratch_spec b : wp (scratch alloc) (fun r b' => r = true /\ output_scratch b' = true /\ exists n, b' = b <| output_scratch := true |> <| b_nalloc := n |>) b.
Proof.
  unfold scratch. wp_step. apply wp_gets. destruct (output_scratch b) eqn:E.
  - wp_step. split_and!; [done|done|]. exists (b_nalloc b). destruct b. cbn in *. by subst.
  - wp_step. unfold with_alloc, wp at 1, allocate. rewrite Halloc. cbn. split_and!; [done|done|]. by exists (S (b_nalloc b)).
Qed.

Definition items_text (items : list cJSON) : list Z := elements_text false (render false 0 <$> items).

(** The intervals are within the limits of a complete document around them. *)
Definition items_fit (items : list cJSON) : Prop :=
  3 + heights items <= 65 /\ sizes items <= 16384 /\ forallb printable items = true /\ (items <> [] -> zlen (items_text items) + 2 <= limit).

Record ready (items : list cJSON) (b : budget) : Prop := {
  rd_state : out_state (collected_server_output b) = IPERF_OUTPUT_COMPLETE;
  rd_buffer : exists v, out_value (collected_server_output b) = Some v /\ holding limit (items_text items) v;
  rd_length : out_length (collected_server_output b) = zlen (items_text items);
  rd_format : out_format (collected_server_output b) = IPERF_OUTPUT_JSON;
  rd_count : output_json_intervals b = zlen items;
  rd_values : output_json_values b = sizes items;
  rd_open : output_finalized b = false;
  rd_fit : items_fit items }.

(** The output was given up. *)
Definition dropped (o : iperf_server_output) : Prop :=
  out_value o = None /\ out_length o = 0 /\ (out_state o = IPERF_OUTPUT_DISCARDED \/ out_state o = IPERF_OUTPUT_INVALID) /\ out_reason o <> IPERF_OUTPUT_REASON_NONE.

Lemma discard_dropped reason o : reason <> IPERF_OUTPUT_REASON_NONE -> dropped (discard reason o).
Proof. intros Hr. unfold dropped, discard. cbn. split_and!; try done. case_decide; auto. Qed.

Lemma elements_text_snoc ts t : elements_text false (ts ++ [t]) = elements_text false ts ++ (if decide (ts = []) then [] else [c_comma]) ++ t.
Proof.
  induction ts as [|x ts IH]; [cbn; by rewrite app_nil_r|]. cbn [app elements_text]. rewrite IH, !app_assoc. f_equal.
  destruct ts as [|y ts]; cbn [app]; [by rewrite !app_nil_r|]. by rewrite <- !app_assoc.
Qed.

Lemma items_text_snoc items j : items_text (items ++ [j]) = items_text items ++ (if decide (items = []) then [] else [c_comma]) ++ render false 0 j.
Proof. unfold items_text. rewrite fmap_app. change (render false 0 <$> [j]) with [render false 0 j]. rewrite elements_text_snoc. by destruct items. Qed.

Lemma sizes_app l1 l2 : sizes (l1 ++ l2) = sizes l1 + sizes l2.
Proof. unfold sizes. induction l1 as [|j l1 IH]; cbn [app foldr]; lia. Qed.

Lemma heights_app l1 l2 : heights (l1 ++ l2) = Z.max (heights l1) (heights l2).
Proof. pose proof (heights_nonneg l2). unfold heights in *. induction l1 as [|j l1 IH]; cbn [app foldr]; lia. Qed.

(** The document and everything but the output stay. *)
Definition keeps_document (b b' : budget) : Prop :=
  json_top b' = json_top b /\ json_intervals b' = json_intervals b /\ output_finalized b' = output_finalized b.

Lemma keeps_document_trans b1 b2 b3 : keeps_document b1 b2 -> keeps_document b2 b3 -> keeps_document b1 b3.
Proof. intros (E1 & E2 & E3) (F1 & F2 & F3). unfold keeps_document. by rewrite F1, F2, F3. Qed.

Lemma begin_ready items b : ready items b -> wp (begin alloc limit IPERF_OUTPUT_JSON) (fun r b' => r = true /\ b' = b) b.
Proof.
  intros Hr. unfold begin. wp_step. apply wp_gets. rewrite (rd_state _ _ Hr).
  change (bool_decide (IPERF_OUTPUT_COMPLETE = IPERF_OUTPUT_MISSING)) with false. cbn [negb]. by wp_step.
Qed.

(** The next call finds or makes the output of [items]. *)
Record opens (items : list cJSON) (b : budget) : Prop := {
  op_open : output_finalized b = false;
  op_values : output_json_values b = sizes items;
  op_count : output_json_intervals b = zlen items;
  op_begin : wp (begin alloc limit IPERF_OUTPUT_JSON) (fun r b' => r = true /\ ready items b' /\ keeps_document b b') b }.

Lemma ready_opens items b : ready items b -> opens items b.
Proof.
  intros Hr. split; [apply Hr..|]. eapply wp_mono; [by apply (begin_ready items)|]. intros r b' [-> ->]. by split_and!.
Qed.

Lemma fresh_opens b : collected_server_output b = Scanner.empty_output -> output_json_intervals b = 0 -> output_json_values b = 0 ->
  output_finalized b = false -> opens [] b.
Proof.
  intros Eo Ei Ev Ef. split; [done..|]. eapply wp_mono; [apply begin_missing; [lia|by rewrite Eo..]|]. intros r b' (Hs & _ & H).
  destruct r; [|destruct H as [Ha _]; by rewrite Halloc in Ha]. destruct H as (v & Hv & E). rewrite Eo in E. split_and!; [done| |by rewrite Hs].
  assert (output_json_intervals b' = 0 /\ output_json_values b' = 0 /\ output_finalized b' = false) as (? & ? & ?) by (by rewrite Hs).
  split; rewrite ?E; try done; by exists v.
Qed.

(** The output is still collected, or was given up for good reason. *)
Definition collected_or_dropped (items : list cJSON) (b b' : budget) : Prop :=
  keeps_document b b' /\ (ready items b' \/ dropped (collected_server_output b') /\ ~ items_fit items).

Lemma fit_text items j : items_fit (items ++ [j]) ->
  within 3 (sizes items) j /\ printable j = true /\ zlen (items_text items) + (if decide (items = []) then 0 else 1) + zlen (render false 0 j) + 2 <= limit.
Proof.
  intros (Hh & Hs & Hp & Ht). rewrite heights_app in Hh. rewrite sizes_app in Hs. rewrite forallb_app, andb_true_iff in Hp.
  specialize (Ht ltac:(by destruct items)). rewrite items_text_snoc, !zlen_app in Ht. cbn in Hh, Hs, Hp.
  split_and!; [unfold within; lia|by destruct Hp as [_ Hp]; rewrite andb_true_r in Hp|]. destruct (decide (items = [])); unfold zlen in *; cbn in *; lia.
Qed.

Lemma fit_snoc items j : items_fit items -> within 3 (sizes items) j -> printable j = true ->
  zlen (items_text items) + (if decide (items = []) then 0 else 1) + zlen (render false 0 j) + 2 <= limit -> items_fit (items ++ [j]).
Proof.
  intros (Hh & Hs & Hp & Ht) [Hh' Hs'] Hp' Ht'. unfold items_fit. rewrite heights_app, sizes_app, forallb_app, Hp, items_text_snoc, !zlen_app. cbn. rewrite Hp'.
  split_and!; [lia|lia|done|]. intros _. destruct (decide (items = [])); unfold zlen in *; cbn in *; lia.
Qed.

Lemma collect_interval_spec items j b : item_ok j -> opens items b ->
  wp (iperf_output_collect_interval alloc has_reallocate limit (Some j)) (fun _ b' => collected_or_dropped (items ++ [j]) b b') b.
Proof.
  intros Hj [Of Ov Oc Hbegin]. unfold iperf_output_collect_interval. wp_step. apply wp_get. rewrite Of, Ov, Oc. wp_step.
  eapply wp_mono; [exact Hbegin|]. intros r b0 (-> & Hr & Hk). cbn [negb shape_of]. clear Hbegin Of Ov Oc.
  pose proof Hr as [Es (v & Ev & Hv) El _ Ec En Ef Hfit].
  assert (forall reason b', reason <> IPERF_OUTPUT_REASON_NONE -> keeps_document b0 b' -> ~ items_fit (items ++ [j]) ->
    wp (on_collected (discard reason)) (fun _ b' => collected_or_dropped (items ++ [j]) b b') b') as Hdrop.
  { intros reason b' Hreason Hk' Hn. apply wp_on_collected. split; [by apply (keeps_document_trans b b0)|]. right. split; [by apply discard_dropped|done]. }
  pose proof (sizes_nonneg items). destruct Hfit as (Hh & Hs & Hp & Ht). assert (items_fit items) as Hfit by (by split_and!).
  pose proof (shape_spec j 3 (sizes items) ltac:(lia)) as Hshape. destruct (shape j 3 (sizes items)) as [[[] nodes] reason]; cbn in Hshape.
  2:{ destruct Hshape as [Hn Hreason]. apply Hdrop; [done|done|]. intros (Hf & _)%fit_text. by apply Hn. }
  destruct Hshape as [Hwithin ->]. wp_step. eapply wp_mono; [apply scratch_spec|]. intros r b1 (-> & _ & n & ->). cbn [negb].
  wp_step. eapply wp_mono; [by apply print_scratch_spec|]. intros r b2 [-> ->]. set (t := render false 0 j) in *.
  destruct (printable j && (zlen t <=? limit + 3)) eqn:Ep.
  2:{ apply Hdrop; [done|done|]. intros (_ & Hpj & Hl)%fit_text. fold t in Hl. rewrite Hpj in Ep. cbn [andb] in Ep. apply Z.leb_gt in Ep.
      pose proof (zlen_nonneg (items_text items)). destruct (decide _); lia. }
  apply andb_true_iff in Ep as [Hpj _]. wp_step. apply wp_gets. cbv zeta.
  assert ((if zlen items =? 0 then 0 else 1) = (if decide (items = []) then 0 else 1)) as ->.
  { destruct items; [done|]. rewrite zlen_cons. pose proof (zlen_nonneg items). by rewrite (proj2 (Z.eqb_neq _ 0)) by lia. }
  set (extra := if decide (items = []) then 0 else 1). cbn [collected_server_output update]. rewrite El.
  destruct ((limit <? 2) || (limit - 2 <? zlen (items_text items)) || (limit - 2 - zlen (items_text items) <? zlen t + extra)) eqn:Eroom.
  { apply Hdrop; [done|done|]. intros (_ & _ & Hl)%fit_text. fold extra t in Hl. pose proof (zlen_nonneg (items_text items)). pose proof (zlen_nonneg t).
    assert (0 <= extra) by (unfold extra; by destruct (decide _)). rewrite !orb_true_iff, !Z.ltb_lt in Eroom. lia. }
  rewrite !orb_false_iff, !Z.ltb_ge in Eroom. destruct Eroom as [[Hl2 Hu] Hroom].
  assert (items_fit (items ++ [j])) as Hfit' by (apply fit_snoc; [done|done|done|fold extra t; lia]).
  pose proof Hv as (Ecap & rest & Ed & Hdl).
  assert (exists v1, holding limit (items_text items ++ (if decide (items = []) then [] else [c_comma]) ++ t) v1 /\
    forall (K : BM unit) Q b1, out_value (collected_server_output b1) = Some v ->
      wp K Q (update collected_server_output (fun o => o <| out_value := Some v1 |>) b1) ->
      wp (when negb (extra =? 0) do write_value (zlen (items_text items)) [c_comma] ;;; write_value (zlen (items_text items) + extra) (t ++ [0]) ;;; K) Q b1) as (v1 & Hv1 & Hwrite).
  { unfold extra in *. destruct (decide (items = [])) as [->|Hne].
    - destruct (buf_write_text limit v (items_text []) (0 :: rest) t Ed Ecap Hdl) as (v1 & Ew & Hv1); [lia|].
      exists v1. split; [done|]. intros K Q b1 Ev1 HK. wp_step. change (negb (0 =? 0)) with false. cbv iota. wp_step. wp_step. rewrite Z.add_0_r.
      eapply wp_write_value; [exact Ev1|exact Ew|done].
    - pose proof (buf_write_over [c_comma] v (items_text items) (0 :: rest) Ed) as Ew0. change (zlen [c_comma]) with 1 in Ew0. specialize (Ew0 ltac:(lia)).
      set (v0 := mk_cbuf _ _) in Ew0. assert (data v0 = (items_text items ++ [c_comma]) ++ rest) as Ed0 by (cbn; by rewrite <- app_assoc).
      destruct (buf_write_text limit v0 (items_text items ++ [c_comma]) rest t Ed0 Ecap) as (v1 & Ew & Hv1).
      { rewrite Ed in Hdl. rewrite Ed0, !zlen_app in *. rewrite zlen_cons in Hdl. change (zlen [c_comma]) with 1. lia. }
      { rewrite zlen_app. change (zlen [c_comma]) with 1. lia. }
      rewrite zlen_app in Ew. change (zlen [c_comma]) with 1 in Ew.
      exists v1. split; [by rewrite <- app_assoc in Hv1|]. intros K Q b1 Ev1 HK. wp_step. change (negb (1 =? 0)) with true. cbv iota. eapply wp_write_value; [exact Ev1|exact Ew0|].
      wp_step. eapply wp_write_value; [done|exact Ew|done]. }
  apply Hwrite; [done|]. wp_step. apply wp_on_collected. wp_step. split; [by apply (keeps_document_trans b b0)|]. left.
  unfold t in Hv1. rewrite <- items_text_snoc in Hv1. split; cbn; try done.
  - by exists v1.
  - rewrite items_text_snoc, !zlen_app. fold t. unfold extra. destruct (decide (items = [])); unfold zlen; cbn; lia.
  - by apply Hr.
  - rewrite Ec, wrapu_small; [by rewrite zlen_app|]. destruct Hfit' as (_ & Hs' & _). pose proof (zlen_nonneg items).
    assert (zlen items <= sizes items) by (clear; induction items as [|k l IH]; [done|]; rewrite zlen_cons; cbn; pose proof (size_pos k); unfold sizes in IH; lia). lia.
  - rewrite sizes_app. cbn. lia.
Qed.

Fixpoint collect_intervals (l : list cJSON) : BM unit :=
  match l with
  | [] => ret tt
  | j :: l => iperf_output_collect_interval alloc has_reallocate limit (Some j) ;;; collect_intervals l
  end.

Lemma items_fit_prefix items more : items_fit (items ++ more) -> items_fit items.
Proof.
  induction more as [|j more IH] using rev_ind; [by rewrite app_nil_r|]. rewrite app_assoc. intros Hf. apply IH.
  destruct (fit_text _ _ Hf) as (_ & _ & Hl). destruct Hf as (Hh & Hs & Hp & _). rewrite heights_app in Hh. rewrite sizes_app in Hs.
  rewrite forallb_app, andb_true_iff in Hp. pose proof (sizes_nonneg [j]). pose proof (zlen_nonneg (render false 0 j)).
  split_and!; [lia|lia|by destruct Hp|]. intros _. destruct (decide _); lia.
Qed.

(** Output that was given up stays as it is. *)
Lemma begin_dropped b : dropped (collected_server_output b) -> wp (begin alloc limit IPERF_OUTPUT_JSON) (fun r b' => r = false /\ b' = b) b.
Proof.
  intros (_ & _ & Hs & _). unfold begin. wp_step. apply wp_gets.
  rewrite !bool_decide_false by (by destruct Hs as [-> | ->]). cbn [negb]. by wp_step.
Qed.

Lemma collect_interval_dropped j b : dropped (collected_server_output b) ->
  wp (iperf_output_collect_interval alloc has_reallocate limit j) (fun _ b' => b' = b) b.
Proof.
  intros Hd. unfold iperf_output_collect_interval. wp_step. apply wp_get. destruct (output_finalized b); wp_step; [done|].
  eapply wp_mono; [by apply begin_dropped|]. intros r b' [-> ->]. cbn [negb]. by wp_step.
Qed.

Lemma collect_intervals_dropped l b : dropped (collected_server_output b) -> wp (collect_intervals l) (fun _ b' => b' = b) b.
Proof.
  intros Hd. induction l as [|j l IH]; cbn [collect_intervals]; wp_step; [done|].
  eapply wp_mono; [by apply collect_interval_dropped|]. intros _ b' ->. exact IH.
Qed.

Lemma collected_mono items more b1 b2 b3 : keeps_document b1 b2 -> b3 = b2 -> dropped (collected_server_output b2) ->
  ~ items_fit items -> collected_or_dropped (items ++ more) b1 b3.
Proof. intros Hk -> Hd Hn. split; [done|]. right. split; [done|]. intros Hf. by apply Hn, (items_fit_prefix _ more). Qed.

Lemma collect_intervals_spec l : Forall item_ok l -> l <> [] -> forall items b, opens items b ->
  wp (collect_intervals l) (fun _ b' => collected_or_dropped (items ++ l) b b') b.
Proof.
  induction 1 as [|j l Hj _ IH]; intros Hne items b Hr; cbn [collect_intervals]; [done|]. wp_step.
  eapply wp_mono; [by apply (collect_interval_spec items)|]. intros _ b1 [Hk [Hr1|[Hd Hn]]].
  - destruct l as [|k l]; [cbn [collect_intervals]; wp_step; by split; [|left]|].
    eapply wp_mono; [by apply IH; [|apply ready_opens]|]. intros _ b2 [Hk2 H2]. rewrite <- app_assoc in H2. split; [by eapply keeps_document_trans|done].
  - eapply wp_mono; [by apply collect_intervals_dropped|]. intros _ b2 ->.
    change (items ++ j :: l) with (items ++ [j] ++ l). rewrite app_assoc. by eapply collected_mono.
Qed.

(** ** The document *)

Definition intervals_array (items : list cJSON) : cJSON := Node cJSON_Array items None 0 D_zero (Some intervals_key).

(** The intervals, at [i], have moved behind the other members. *)
Definition document (top : cJSON) (i : nat) (items : list cJSON) : cJSON :=
  set_jchild (remove_at i (jchild top) ++ [intervals_array items]) top.

(** What can be sent: the limits on shape and bytes, and UTF-8. *)
Definition sendable (j : cJSON) : Prop :=
  within 1 0 j /\ printable j = true /\ zlen (render false 0 j) <= limit /\
  exists vs, text_scalars vs /\ render false 0 j = encoded vs.

Lemma render_compact_deep j : forall d, render false d j = render false 0 j.
Proof.
  induction j as [t c v i x s IH] using cJSON_children_ind. intros d. cbn [render].
  assert (forall d, render false d <$> c = render false 0 <$> c) as Ee.
  { intros d'. apply list_fmap_ext. intros k y Hy. rewrite Forall_forall in IH. apply IH. by eapply list_elem_of_lookup_2. }
  rewrite (Ee (d + 1)), (Ee (0 + 1)).
  assert (forall d1 d2 ts, members_text false d1 ts = members_text false d2 ts) as Em.
  { intros d1 d2 ts. induction ts as [|[k u] ts IH']; cbn [members_text when_format]; [done|by rewrite IH']. }
  rewrite (Em (d + 1) (0 + 1)). cbn [when_format].
  assert ((fun y => (jstring y, render false (d + 1) y)) <$> c = (fun y => (jstring y, render false (0 + 1) y)) <$> c) as ->; [|done].
  apply list_fmap_ext. intros k y Hy. rewrite Forall_forall in IH. pose proof (IH y ltac:(by eapply list_elem_of_lookup_2)) as Ey. by rewrite (Ey (d + 1)), (Ey (0 + 1)).
Qed.

Lemma render_replace t c x y v i u s : render false 0 x = render false 0 y -> jstring x = jstring y ->
  render false 0 (Node t (c ++ [x]) v i u s) = render false 0 (Node t (c ++ [y]) v i u s).
Proof.
  intros Er En. cbn [render]. rewrite !fmap_app.
  change (render false (0 + 1) <$> [x]) with [render false (0 + 1) x]. change (render false (0 + 1) <$> [y]) with [render false (0 + 1) y].
  change ((fun x => (jstring x, render false (0 + 1) x)) <$> [x]) with [(jstring x, render false (0 + 1) x)].
  change ((fun x => (jstring x, render false (0 + 1) x)) <$> [y]) with [(jstring y, render false (0 + 1) y)].
  by rewrite !(render_compact_deep _ (0 + 1)), Er, En.
Qed.

Definition raw_item (text : list Z) : cJSON :=
  Node (Z.lor (Z.lor cJSON_Raw cJSON_IsReference) cJSON_StringIsConst) [] (Some text) 0 D_zero (Some intervals_key).

Definition intervals_text (items : list cJSON) : list Z := c_lbrack :: items_text items ++ [c_rbrack].

Lemma items_text_printed items : Forall item_ok items -> printed (items_text items).
Proof.
  intros Hi. apply elements_text_printed. apply Forall_fmap. eapply Forall_impl; [exact Hi|]. intros j [Hj _]. by apply render_printed.
Qed.

Lemma intervals_text_printed items : Forall item_ok items -> printed (intervals_text items).
Proof.
  intros Hi. unfold printed, intervals_text. constructor; [lia|]. apply Forall_app. split; [by apply items_text_printed|]. apply Forall_singleton. lia.
Qed.

Lemma intervals_array_text items d : render false d (intervals_array items) = intervals_text items.
Proof.
  rewrite render_compact_deep. cbn [render intervals_array]. change (Z.land cJSON_Array 255) with cJSON_Array. cbn [Z.eqb]. unfold intervals_text, items_text. do 3 f_equal.
  apply list_fmap_ext. intros k y _. by rewrite (render_compact_deep y (0 + 1)).
Qed.

Lemma raw_item_text items : Forall item_ok items -> render false 0 (raw_item (intervals_text items ++ [0])) = render false 0 (intervals_array items).
Proof.
  intros Hi. transitivity (intervals_text items).
  - cbn [render raw_item]. change (Z.land _ 255) with cJSON_Raw. cbn [Z.eqb]. change (intervals_text items ++ [0]) with (intervals_text items ++ 0 :: []).
    apply cstr_nonzero_end. by apply printed_nonzero, intervals_text_printed.
  - by rewrite intervals_array_text.
Qed.

Lemma remove_at_wf i l : Forall wf_item l -> Forall wf_item (remove_at i l).
Proof. intros Hl. unfold remove_at. apply Forall_app. split; [by apply Forall_take|by apply Forall_drop]. Qed.

Lemma render_object t c v k x s : Z.land t 255 = cJSON_Object -> render false 0 (Node t c v k x s) =
  [c_lbrace] ++ members_text false (0 + 1) ((fun x => (jstring x, render false (0 + 1) x)) <$> c) ++ [c_rbrace].
Proof. intros Ht. cbn [render]. by rewrite Ht. Qed.

Lemma printable_object t c v k x s : Z.land t 255 = cJSON_Object -> printable (Node t c v k x s) = forallb printable c.
Proof. intros Ht. cbn [printable]. by rewrite Ht. Qed.

(** The document around the text of the intervals, as it is printed. *)
Lemma nested_item top i items : wf_item top -> base_type top = cJSON_Object -> Forall item_ok items -> items_fit items ->
  let nested := set_jchild (remove_at i (jchild top) ++ [raw_item (intervals_text items ++ [0])]) top in
  render false 0 nested = render false 0 (document top i items) /\ wf_item nested /\
  (within 1 (sizes items) nested <-> within 1 0 (document top i items)) /\
  printable (document top i items) = printable nested && forallb printable items.
Proof.
  intros Hw Ht Hi (Hfh & _) nested. destruct top as [t c v k x s]. unfold nested, document. cbn [set_jchild jchild]. split_and!.
  - by apply render_replace; [apply raw_item_text|].
  - inversion Hw as [? ? ? ? ? ? Hn Hv Hs Hc]; subst. constructor; [done..|]. apply Forall_app. split; [by apply remove_at_wf|].
    apply Forall_singleton. constructor; [split; [lia|by right]| |by repeat constructor|constructor]. cbn [default from_option id].
    apply Forall_app. split; [|by repeat constructor]. by apply printed_bytes, intervals_text_printed.
  - unfold within. cbn [height size]. fold (sizes (remove_at i c ++ [intervals_array items])).
    fold (heights (remove_at i c ++ [intervals_array items])). fold (sizes (remove_at i c ++ [raw_item (intervals_text items ++ [0])])).
    fold (heights (remove_at i c ++ [raw_item (intervals_text items ++ [0])])). rewrite !sizes_app, !heights_app. cbn.
    fold (sizes items) (heights items). pose proof (sizes_nonneg items). pose proof (heights_nonneg items). lia.
  - rewrite !printable_object, !forallb_app by done. cbn. by rewrite !andb_true_r.
Qed.

Lemma members_text_last fmt d k t ts : zlen t <= zlen (members_text fmt d (ts ++ [(k, t)])).
Proof.
  assert (forall last, zlen t <= zlen (member_text fmt d k t last)) as Hm.
  { intros last. unfold member_text, zlen. rewrite !length_app. lia. }
  induction ts as [|[k' t'] ts IH]; cbn [app]; rewrite members_text_cons, !zlen_app.
  - specialize (Hm true). pose proof (zlen_nonneg (members_text fmt d [])). lia.
  - pose proof (zlen_nonneg (member_text fmt d k' t' (match ts ++ [(k, t)] with [] => true | _ => false end))). lia.
Qed.

Lemma document_text top i items : base_type top = cJSON_Object ->
  zlen (items_text items) + 2 <= zlen (render false 0 (document top i items)).
Proof.
  intros Ht. destruct top as [t c v k x s]. change (base_type (Node t c v k x s)) with (Z.land t 255) in Ht.
  unfold document. cbn [set_jchild jchild]. rewrite render_object, fmap_app, !zlen_app by done. cbn [fmap list_fmap].
  set (ts := _ <$> remove_at i c). set (u := render false (0 + 1) _). pose proof (members_text_last false (0 + 1) (jstring (intervals_array items)) u ts).
  change (zlen [c_lbrace]) with 1. change (zlen [c_rbrace]) with 1.
  assert (zlen u = zlen (items_text items) + 2) as Eu; [|lia].
  unfold u. rewrite intervals_array_text. unfold intervals_text. rewrite zlen_cons, zlen_app. change (zlen [c_rbrack]) with 1. lia.
Qed.

Lemma sendable_fit top i items : base_type top = cJSON_Object -> sendable (document top i items) -> items_fit items.
Proof.
  intros Ht ([Hh Hs] & Hp & Hl & _). pose proof (document_text top i items Ht). destruct top as [t c v k x s].
  change (base_type (Node t c v k x s)) with (Z.land t 255) in Ht. unfold document in Hh, Hs, Hp. cbn [set_jchild jchild size height] in Hh, Hs, Hp.
  rewrite printable_object, forallb_app, andb_true_iff in Hp by done. destruct Hp as [_ Hp]. cbn in Hp. rewrite andb_true_r in Hp.
  fold (heights (remove_at i c ++ [intervals_array items])) in Hh. fold (sizes (remove_at i c ++ [intervals_array items])) in Hs.
  rewrite heights_app in Hh. rewrite sizes_app in Hs. cbn in Hh, Hs. fold (heights items) in Hh. fold (sizes items) in Hs. pose proof (sizes_nonneg (remove_at i c)).
  split_and!; [lia|lia|done|lia].
Qed.

(** ** Closing the array *)

Lemma close_array I v : holding limit I v -> zlen I + 2 <= limit -> exists v1 v2 v3 v4,
  buf_write v 1 I = Some v1 /\ buf_write v1 0 [c_lbrack] = Some v2 /\ buf_write v2 (zlen I + 1) [c_rbrack] = Some v3 /\
  buf_write v3 (zlen I + 2) [0] = Some v4 /\ holding limit (c_lbrack :: I ++ [c_rbrack]) v4.
Proof.
  intros (Ec & rest & Ed & Hd) Hl. pose proof (zlen_nonneg I). assert (exists h r, data v = [h] ++ r) as (h & r & Eh) by (rewrite Ed; destruct I; cbn; eauto).
  eexists _, _, _. assert (zlen (data v) = 1 + zlen r) as El by (rewrite Eh, zlen_app; done).
  pose proof (buf_write_over I v [h] r Eh ltac:(change (zlen [h]) with 1; lia)) as E1. change (zlen [h]) with 1 in E1.
  pose proof (buf_write_over [c_lbrack] (mk_cbuf (cap v) ([h] ++ I ++ drop (length I) r)) [] _ eq_refl ltac:(change (zlen []) with 0; change (zlen [c_lbrack]) with 1; cbn [cap]; lia)) as E2.
  change (zlen []) with 0 in E2. cbn [app length drop cap data] in E2. rewrite drop_0 in E2.
  pose proof (buf_write_over [c_rbrack] (mk_cbuf (cap v) (c_lbrack :: I ++ drop (length I) r)) (c_lbrack :: I) _ eq_refl ltac:(rewrite zlen_cons; change (zlen [c_rbrack]) with 1; cbn [cap]; lia)) as E3.
  rewrite zlen_cons in E3. cbn [app length drop cap data] in E3. replace (1 + zlen I) with (zlen I + 1) in E3 by lia.
  set (r3 := drop 1 (drop (length I) r)) in *.
  destruct (buf_write_text limit (mk_cbuf (cap v) (c_lbrack :: I ++ c_rbrack :: r3)) (c_lbrack :: I ++ [c_rbrack]) r3 []) as (v4 & E4 & H4).
  { cbn. by rewrite <- app_assoc. }
  { done. }
  { cbn [data]. unfold zlen in *. unfold r3. cbn [length]. rewrite length_app. cbn [length]. rewrite !length_drop. lia. }
  { rewrite zlen_cons, zlen_app. change (zlen [c_rbrack]) with 1. change (zlen (@nil Z)) with 0. lia. }
  rewrite zlen_cons, zlen_app in E4. change (zlen [c_rbrack]) with 1 in E4. replace (zlen I + 1 + 1) with (zlen I + 2) in E4 by lia. rewrite app_nil_r in H4.
  exists v4. split_and!; [exact E1|exact E2|exact E3|exact E4|done].
Qed.

(** ** Printing the document *)

(** The output is exactly this text. *)
Definition holds_text (t : list Z) (o : iperf_server_output) : Prop :=
  out_state o = IPERF_OUTPUT_COMPLETE /\ (exists v, out_value o = Some v /\ holding limit t v) /\ out_length o = zlen t /\
  observed_bytes o = zlen t /\ observed_bytes_complete o = 1.

Lemma raw_reference_spec s b : wp (with_alloc (raw_reference alloc s)) (fun r b' => r = Some (Node (Z.lor cJSON_Raw cJSON_IsReference) [] (Some s) 0 D_zero None) /\
  b' = b <| b_nalloc := S (b_nalloc b) |>) b.
Proof.
  unfold wp, with_alloc, raw_reference, cJSON_CreateStringReference, create, cJSON_New_Item, allocate, bind, get. cbn. by rewrite Halloc.
Qed.

Lemma with_raw_spec top i item s b : jchild top !! i = Some item ->
  wp (with_alloc (with_raw alloc top i (Node (Z.lor cJSON_Raw cJSON_IsReference) [] (Some s) 0 D_zero None)))
    (fun r b' => (exists restored k, r = (Some (set_jchild (remove_at i (jchild top) ++ [raw_item s]) top), restored, k)) /\ b' = b) b.
Proof.
  intros Hi. destruct top as [t c v k x n]. unfold wp, with_alloc, with_raw, detach_at. cbn [jchild] in *. rewrite Hi. cbn. split; [by eauto|]. by destruct b.
Qed.

Lemma finalize_spec top i item items b : opens items b -> Forall item_ok items -> wf_item top -> base_type top = cJSON_Object ->
  json_top b = Some top -> json_intervals b = Some i -> jchild top !! i = Some item -> zlen (render false 0 (document top i items)) + 2 < 2 ^ 63 ->
  wp (finalize_json alloc has_reallocate limit) (fun _ b' =>
    sendable (document top i items) /\ holds_text (render false 0 (document top i items)) (collected_server_output b') \/
    ~ sendable (document top i items) /\ dropped (collected_server_output b')) b.
Proof.
  intros [_ _ _ Hbegin] Hitems Hw Ht Et0 Ei0 Hlook Hsize. set (T := render false 0 (document top i items)) in *.
  pose proof (document_text top i items Ht) as Hroom. fold T in Hroom. pose proof (zlen_nonneg (items_text items)) as Hu.
  assert (forall reason b', reason <> IPERF_OUTPUT_REASON_NONE -> ~ sendable (document top i items) ->
    wp (on_collected (discard reason)) (fun _ b' => sendable (document top i items) /\ holds_text T (collected_server_output b') \/
      ~ sendable (document top i items) /\ dropped (collected_server_output b')) b') as Hdrop.
  { intros reason b' Hreason Hn. apply wp_on_collected. right. split; [done|by apply discard_dropped]. }
  unfold finalize_json. wp_step. eapply wp_mono; [exact Hbegin|]. intros r b0 (-> & Hr & Ht1 & Hi1 & _). cbn [negb]. clear Hbegin.
  rewrite Et0 in Ht1. rewrite Ei0 in Hi1. rename Ht1 into Et, Hi1 into Ei. pose proof Hr as [Es (v & Ev & Hv) El _ Ec En Ef Hfit].
  wp_step. eapply wp_mono; [apply scratch_spec|]. intros r b1 (-> & _ & n & ->). cbn [negb]. wp_step. apply wp_get.
  cbn [json_top json_intervals update]. change (json_top (b0 <| output_scratch := true |> <| b_nalloc := n |>)) with (json_top b0).
  change (json_intervals (b0 <| output_scratch := true |> <| b_nalloc := n |>)) with (json_intervals b0). rewrite Et, Ei.
  destruct (Z.ltb_spec limit 2). { apply Hdrop; [done|]. intros (_ & _ & Hl & _). fold T in Hl. lia. }
  cbv zeta. cbn [collected_server_output update]. rewrite El.
  assert (zlen (items_text items) + 2 <= limit) as Hfits.
  { destruct items as [|j items]; [change (zlen (items_text [])) with 0; lia|]. apply Hfit. done. }
  destruct (close_array _ _ Hv Hfits) as (v1 & v2 & v3 & v4 & E1 & E2 & E3 & E4 & H4). pose proof Hv as (_ & rest & Ed & _).
  wp_step. eapply wp_read_value; [exact Ev|lia|lia|rewrite Ed, zlen_app, zlen_cons; pose proof (zlen_nonneg rest); lia|].
  change (Z.to_nat 0) with 0%nat. rewrite drop_0, Ed. unfold zlen at 1. rewrite Nat2Z.id, take_app_length.
  wp_step. eapply wp_write_value; [exact Ev|exact E1|]. wp_step. eapply wp_write_value; [done|exact E2|].
  wp_step. eapply wp_write_value; [done|exact E3|]. wp_step. eapply wp_write_value; [done|exact E4|]. wp_step. apply wp_on_collected.
  change (c_lbrack :: items_text items ++ [c_rbrack]) with (intervals_text items) in H4. pose proof H4 as (Ec4 & rest4 & Ed4 & Hl4).
  assert (zlen (intervals_text items) = zlen (items_text items) + 2) as Ezl.
  { unfold intervals_text. rewrite zlen_cons, zlen_app. change (zlen [c_rbrack]) with 1. lia. }
  wp_step. eapply wp_read_value; [done|lia|lia|rewrite Ed4, zlen_app, zlen_cons; pose proof (zlen_nonneg rest4); lia|].
  change (Z.to_nat 0) with 0%nat. rewrite drop_0, Ed4. replace (intervals_text items ++ 0 :: rest4) with ((intervals_text items ++ [0]) ++ rest4) by (by rewrite <- app_assoc).
  replace (Z.to_nat (zlen (items_text items) + 3)) with (length (intervals_text items ++ [0])) by (rewrite length_app; cbn [length]; unfold zlen in *; lia). rewrite take_app_length.
  wp_step. eapply wp_mono; [apply raw_reference_spec|]. intros r b2 [-> ->].
  wp_step. eapply wp_mono; [by apply (with_raw_spec top i item)|]. intros r b3 [(restored & k & ->) ->].
  destruct (nested_item top i items Hw Ht Hitems Hfit) as (Er & Hwn & Hin & Hp). set (nested := set_jchild _ top) in *.
  wp_step. apply wp_modify. cbn [output_json_values update shape_of]. rewrite En.
  assert (0 <= sizes items <= 16384) as Hsz by (split; [apply sizes_nonneg|apply Hfit]).
  pose proof (shape_spec nested 1 (sizes items) Hsz) as Hshape. destruct (shape nested 1 (sizes items)) as [[[] nodes] reason]; cbn in Hshape.
  2:{ destruct Hshape as [Hn Hreason]. apply Hdrop; [done|]. intros (Hwi & _). by apply Hn, Hin. }
  destruct Hshape as [Hwithin _]. apply Hin in Hwithin.
  wp_step. eapply wp_mono; [apply print_scratch_spec; split; [done|rewrite Er; exact Hsize]|]. intros r b4 [-> ->]. rewrite Er. fold T.
  assert (printable nested = printable (document top i items)) as -> by (rewrite Hp; destruct Hfit as (_ & _ & -> & _); by rewrite andb_true_r).
  destruct (printable (document top i items)) eqn:Epr; cbn [andb].
  2:{ apply Hdrop; [done|]. intros (_ & Hpr & _). congruence. }
  destruct (Z.leb_spec (zlen T) (limit + 3)); [|apply Hdrop; [done|intros (_ & _ & Hl & _); fold T in Hl; lia]].
  destruct (Z.ltb_spec limit (zlen T)); [apply Hdrop; [done|intros (_ & _ & Hl & _); fold T in Hl; lia]|].
  destruct (utf8_prefix_sound T false) as (r & kk & Eu & Hk & Hall & vs & Hvs & Evs). rewrite Eu. destruct r.
  2:{ apply Hdrop; [done|]. intros (_ & _ & _ & ws & Hws & Ews). fold T in Ews. pose proof (utf8_prefix_text ws (zlen (encoded ws)) Hws (zlen_nonneg _)) as Ex.
      unfold zlen in Ex at 1. rewrite Nat2Z.id, firstn_all, Z.ltb_irrefl, <- Ews in Ex. congruence. }
  specialize (Hall eq_refl eq_refl). subst kk. unfold zlen in Evs. rewrite Nat2Z.id, firstn_all in Evs.
  destruct (buf_write_text limit v4 [] (data v4) T eq_refl Ec4) as (v5 & E5 & H5); [lia|change (zlen (@nil Z)) with 0; lia|].
  wp_step. eapply wp_write_value; [done|exact E5|]. apply wp_on_collected. left. split; [by split_and!; [done|done|done|exists vs]|].
  split_and!; try done. by exists v5.
Qed.

(** The output of a new test: nothing is collected, and the document is there. *)
Record new_test (top : cJSON) (i : nat) (b : budget) : Prop := {
  nt_output : collected_server_output b = Scanner.empty_output;
  nt_count : output_json_intervals b = 0;
  nt_values : output_json_values b = 0;
  nt_open : output_finalized b = false;
  nt_top : json_top b = Some top;
  nt_intervals : json_intervals b = Some i }.

(** C19: whatever intervals the test reports, what is kept at its end is exactly
    the compact text of the document with all its intervals when that is within
    the limits of depth, nodes and bytes and in UTF-8, and nothing otherwise. *)
Theorem collected_json top i items b : Forall item_ok items -> wf_item top -> base_type top = cJSON_Object ->
  is_Some (jchild top !! i) -> zlen (render false 0 (document top i items)) + 2 < 2 ^ 63 -> new_test top i b ->
  wp (collect_intervals items ;;; finalize_json alloc has_reallocate limit) (fun _ b' =>
    sendable (document top i items) /\ holds_text (render false 0 (document top i items)) (collected_server_output b') \/
    ~ sendable (document top i items) /\ dropped (collected_server_output b')) b.
Proof.
  intros Hitems Hw Ht [item Hlook] Hsize [Eo Ec Ev Ef Et Ei]. pose proof (fresh_opens b Eo Ec Ev Ef) as Hopens.
  destruct items as [|j items]; [cbn [collect_intervals]; wp_step; wp_step; by apply (finalize_spec top i item)|].
  wp_step. eapply wp_mono; [by apply (collect_intervals_spec (j :: items) Hitems ltac:(done) [])|]. intros _ b1 [(Kt & Ki & _) [Hr|[Hd Hn]]].
  - apply (finalize_spec top i item); [by apply ready_opens|done..|by rewrite Kt|by rewrite Ki|done|done].
  - unfold finalize_json. wp_step. eapply wp_mono; [by apply begin_dropped|]. intros r b2 [-> ->]. cbn [negb]. wp_step. right. split; [|done].
    intros Hs. by apply Hn, (sendable_fit top i).
Qed.
End Intervals.

Definition sample_top : cJSON := Node cJSON_Object
  [Node cJSON_Object [] None 0 D_zero (Some (bytes_of "start")); Node cJSON_Array [] None 0 D_zero (Some intervals_key)] None 0 D_zero None.
Definition sample_interval : cJSON := Node cJSON_Object [Node cJSON_True [] None 0 D_zero (Some [111])] None 0 D_zero None.
Definition sample_test : budget := mk_budget Scanner.empty_output Scanner.empty_output no_metrics false 0 0 false false false (Some sample_top) (Some 1%nat) 0.

(** A leaf or a container in a sample. *)
Lemma sample_wf t c s : Forall byte_ok (default [] s) -> Forall wf_item c -> wf_item (Node t c None 0 D_zero s).
Proof. intros Hs Hc. constructor; [split; [lia|by right]|constructor|done|done]. Qed.

Lemma collected_json_witness :
  wp (collect_intervals (fun _ => true) true 60 [sample_interval; sample_interval] ;;; finalize_json (fun _ => true) true 60) (fun _ b' =>
    sendable 60 (document sample_top 1 [sample_interval; sample_interval]) /\
      holds_text 60 (render false 0 (document sample_top 1 [sample_interval; sample_interval])) (collected_server_output b') \/
    ~ sendable 60 (document sample_top 1 [sample_interval; sample_interval]) /\ dropped (collected_server_output b')) sample_test.
Proof.
  assert (item_ok sample_interval) as Hi.
  { split; [|by vm_compute]. apply sample_wf; [constructor|]. apply Forall_singleton. apply sample_wf; [by repeat constructor|constructor]. }
  apply (collected_json (fun _ => true) ltac:(done) true 60 ltac:(done) sample_top 1 [sample_interval; sample_interval] sample_test).
  - by repeat constructor.
  - apply sample_wf; [constructor|]. apply Forall_cons; split; [|apply Forall_singleton]; (apply sample_wf; [|constructor]).
    + by apply bytes_of_ok.
    + by apply bytes_of_ok.
  - done.
  - by eexists.
  - by vm_compute.
  - by split.
Defined.
