(* ===== verification/Results.v ===== *)
(** * The exchange of results

    [send_results], [get_results] and [iperf_exchange_results] of
    [iperf_api.c]: at the end of a test each side sends what it counted, with
    the server's output if the client wants it, and takes over what the other
    side counted.  The printing in debug mode is left out.

    The control socket is read and written in two ways: through [net.c]
    ([wr_channel]), or with an output budget through the bounded adapters
    ([wr_conn]).  A test uses one of them. *)

From Stdlib Require Import String.
From S2P Require Import Prelude Bytes Time Double CJson CJsonTree CJsonPrint IperfTest ControlChannel BoundedOutput BoundedSocket Params Udp OutputBudget.
Local Open Scope c_scope.

(** ** The object that is sent *)

Section Build.
Context (alloc : nat -> bool) (has_reallocate : bool).

Definition add_double (name : string) (d : double) : cJSON -> AM cJSON :=
  adding (fun o s => cJSON_AddNumberToObject alloc o s d) name.

Definition sent_usage (t : iperf_test) (j : cJSON) : AM cJSON :=
  let '(total, user, system) := cpu_util t in
  j <- add_double "cpu_util_total" total j ;;
  j <- add_double "cpu_util_user" user j ;;
  j <- add_double "cpu_util_system" system j ;;
  j <- add_number alloc "sender_has_retransmits" (if mode t =? RECEIVER then -1 else sender_has_retransmits t) j ;;
  add_text alloc "congestion_used" (congestion_used t) j.

(** The room for the lines, and the lines put together by [strncat]. *)
Definition lines_length (lines : list text) : Z := foldr (fun l n => zlen l + n) 0 lines.

Fixpoint join_lines (lines : list text) (buflen : Z) (output : text) : text :=
  match lines with
  | [] => output
  | line :: lines => join_lines lines (buflen - zlen line) (output ++ firstn (Z.to_nat buflen) line)
  end.

(** [strncat] into the null pointer of a failed [calloc] is undefined. *)
Definition sent_lines (lines : list text) (j : cJSON) : AM cJSON :=
  ok <- allocate alloc ;;
  if ok then add_string alloc "server_output_text" (join_lines lines (lines_length lines) []) j
  else
    match lines with
    | [] => adding (fun o s => cJSON_AddStringToObject alloc o s None) "server_output_text" j
    | _ :: _ => undefined
    end.

(** Whether the output could be added, and the object with it. *)
Definition sent_output (t : iperf_test) (json_output : bool) (lines : list text) (j : cJSON) : BM (bool * cJSON) :=
  if negb ((role t =? role_server) && negb (get_server_output t =? 0)) then ret (true, j)
  else if negb (server_output_byte_limit t =? 0) then
    r <- iperf_output_add_server_results alloc has_reallocate (server_output_byte_limit t) json_output j ;;
    ret (negb (r.1 <? 0), r.2)
  else if json_output then
    top <- gets json_top ;;
    j <- with_alloc (adding (fun o s => cJSON_AddItemReferenceToObject alloc o s top) "server_output_json" j) ;;
    ret (true, j)
  else j <- with_alloc (sent_lines lines j) ;; ret (true, j).

Definition sent_bytes (sp : iperf_stream) : Z :=
  if sender sp then u64 (bytes_sent (result sp) - bytes_sent_omit (result sp)) else bytes_received (result sp).

Definition sent_stream_retransmits (t : iperf_test) (sp : iperf_stream) : Z :=
  s32 (if sender sp && negb (sender_has_retransmits t =? 0) then stream_retrans (result sp) else -1).

Definition seconds_between (t0 t1 : iperf_time) : double := iperf_time_in_secs (iperf_time_diff t0 t1).1.

Definition sent_counters (t : iperf_test) (sp : iperf_stream) (j : cJSON) : AM cJSON :=
  j <- add_number alloc "id" (id sp) j ;;
  j <- add_number alloc "bytes" (sent_bytes sp) j ;;
  j <- add_number alloc "retransmits" (sent_stream_retransmits t sp) j ;;
  j <- add_double "jitter" (jitter sp) j ;;
  j <- add_number alloc "errors" (cnt_error sp) j ;;
  j <- add_number alloc "omitted_errors" (omitted_cnt_error sp) j ;;
  j <- add_number alloc "packets" (packet_count sp) j ;;
  j <- add_number alloc "omitted_packets" (omitted_packet_count sp) j ;;
  j <- add_double "start_time" (seconds_between (start_time (result sp)) (start_time (result sp))) j ;;
  add_double "end_time" (seconds_between (start_time (result sp)) (end_time (result sp))) j.

(** The objects of the streams; a stream without memory is left out, which is an error. *)
Fixpoint stream_objects (t : iperf_test) (sps : list iperf_stream) : AM (bool * list cJSON) :=
  match sps with
  | [] => ret (true, [])
  | sp :: sps =>
      j_stream <- cJSON_CreateObject alloc ;;
      match j_stream with
      | None => r <- stream_objects t sps ;; ret (false, r.2)
      | Some j_stream =>
          j_stream <- sent_counters t sp j_stream ;;
          r <- stream_objects t sps ;;
          ret (r.1, j_stream :: r.2)
      end
  end.

(** The children of the last member, which was added empty. *)
Definition fill_last (l : list cJSON) (j : cJSON) : cJSON :=
  match last (jchild j) with
  | None => j
  | Some a => set_jchild (removelast (jchild j) ++ [set_jchild l a]) j
  end.

(** Whether all is well, and the object with the streams. *)
Definition sent_streams (t : iperf_test) (j : cJSON) : AM (bool * cJSON) :=
  j_streams <- cJSON_CreateArray alloc ;;
  match j_streams with
  | None => ret (false, j)
  | Some j_streams =>
      added <- cJSON_AddItemToObject alloc (Some j) (Some (key "streams")) (Some j_streams) ;;
      r <- stream_objects t (streams t) ;;
      ret (r.1, match added with None => j | Some j => fill_last r.2 j end)
  end.

(** The object to send; nothing after [IEPACKAGERESULTS]. *)
Definition results_json (t : iperf_test) (json_output : bool) (lines : list text) : BM (option cJSON) :=
  j <- with_alloc (cJSON_CreateObject alloc) ;;
  match j with
  | None => ret None
  | Some j =>
      j <- with_alloc (sent_usage t j) ;;
      o <- sent_output t json_output lines j ;;
      s <- with_alloc (sent_streams t o.2) ;;
      ret (if o.1 && s.1 then Some s.2 else None)
  end.
End Build.

(** ** Taking over the other side's results *)

(** The test and where its errors go; the payload for the client. *)
Record incoming := mk_incoming { in_exchange : exchange; json_server_output : option cJSON; server_output_text : option text }.

#[export] Instance incoming_eta : Eta incoming := fun i =>
  mk_incoming (in_exchange i) (json_server_output i) (server_output_text i).

Definition IM := CM incoming.

Definition on_exchange {A} (m : XM A) : IM A := fun i =>
  match m (in_exchange i) with
  | Ret (a, x) => Ret (a, i <| in_exchange := x |>)
  | UB => UB
  | OutOfFuel => OutOfFuel
  end.

(** What the other side says about a stream. *)
Record peer_stream := mk_peer_stream {
  p_bytes : Z; p_retransmits : Z; p_jitter : double; p_errors : Z; p_packets : Z;
  p_omitted : option (Z * Z); p_times : option (double * double) }.

Definition peer_seconds (p : peer_stream) : double :=
  match p_times p with Some (start_time, end_time) => D_sub end_time start_time | None => D_zero end.

(** The receiver's counters, at the sender. *)
Definition take_receiver (p : peer_stream) (sp : iperf_stream) : iperf_stream :=
  let sp := sp <| jitter := p_jitter p |> <| cnt_error := p_errors p |> <| peer_packet_count := p_packets p |> in
  let sp := update result (fun r => r <| bytes_received := u64 (p_bytes p) |>) sp in
  let sp :=
    match p_omitted p with
    | Some (errors, packets) => sp <| omitted_cnt_error := errors |> <| peer_omitted_packet_count := packets |>
    | None =>
        let sp := sp <| peer_omitted_packet_count := omitted_packet_count sp |> in
        if 0 <? peer_omitted_packet_count sp
        then sp <| omitted_cnt_error := if 0 <? cnt_error sp then -1 else 0 |>
        else sp <| omitted_cnt_error := cnt_error sp |>
    end in
  update result (fun r => r <| receiver_time := peer_seconds p |>) sp.

(** The sender's counters, at the receiver. *)
Definition take_sender (p : peer_stream) (sp : iperf_stream) : iperf_stream :=
  let sp := sp <| peer_packet_count := p_packets p |> in
  let sp := update result (fun r => r <| bytes_sent := u64 (p_bytes p) |> <| stream_retrans := p_retransmits p |>) sp in
  let sp :=
    match p_omitted p with
    | Some (_, packets) => sp <| peer_omitted_packet_count := packets |>
    | None => sp <| peer_omitted_packet_count := peer_packet_count sp |>
    end in
  update result (fun r => r <| sender_time := peer_seconds p |>) sp.

Definition take_stream (p : peer_stream) (sp : iperf_stream) : iperf_stream :=
  if sender sp then take_receiver p sp else take_sender p sp.

(** The first stream of that number. *)
Fixpoint on_stream (sid : Z) (f : iperf_stream -> iperf_stream) (sps : list iperf_stream) : option (list iperf_stream) :=
  match sps with
  | [] => None
  | sp :: sps => if id sp =? sid then Some (f sp :: sps) else cons sp <$> on_stream sid f sps
  end.

Section Receive.
Context (alloc : nat -> bool).

(** The members of the object of a stream: its number and its counters. *)
Definition read_stream (j_stream : cJSON) : option (Z * peer_stream) :=
  let number (name : string) := member j_stream name cJSON_Number in
  match number "id"%string, number "bytes"%string, number "retransmits"%string, number "jitter"%string, number "errors"%string, number "packets"%string with
  | Some j_id, Some j_bytes, Some j_retransmits, Some j_jitter, Some j_errors, Some j_packets =>
      let times :=
        match number "start_time"%string, number "end_time"%string with
        | Some s, Some e => Some (jvaluedouble s, jvaluedouble e)
        | _, _ => None
        end in
      let stream omitted := Some (s32 (jvalueint j_id),
        mk_peer_stream (jvalueint j_bytes) (s32 (jvalueint j_retransmits)) (jvaluedouble j_jitter)
          (jvalueint j_errors) (jvalueint j_packets) omitted times) in
      match number "omitted_errors"%string, number "omitted_packets"%string with
      | Some e, Some p => stream (Some (jvalueint e, jvalueint p))
      | None, None => stream None
      | _, _ => None
      end
  | _, _, _, _, _, _ => None
  end.

Definition receive_stream (j_stream : option cJSON) : XM unit :=
  match option_bind _ _ read_stream j_stream with
  | None => failing IERECVRESULTS
  | Some (sid, p) =>
      x <- get ;;
      match on_stream sid (take_stream p) (streams (x_test x)) with
      | None => failing IESTREAMID
      | Some l => on_test (fun t => t <| streams := l |>)
      end
  end.

(** The [k] items from [i] on. *)
Fixpoint receive_streams (k : nat) (i : Z) (j_streams : cJSON) : XM unit :=
  match k with
  | O => ret tt
  | S k => receive_stream (cJSON_GetArrayItem (Some j_streams) i) ;;; receive_streams k (i + 1) j_streams
  end.

Definition store_usage (total user system : cJSON) (t : iperf_test) : iperf_test :=
  t <| remote_cpu_util := (jvaluedouble total, jvaluedouble user, jvaluedouble system) |>.

Definition store_retransmits (has_retransmits : Z) (t : iperf_test) : iperf_test :=
  if mode t =? RECEIVER then t <| sender_has_retransmits := has_retransmits |> <| other_side_has_retransmits := 0 |>
  else if mode t =? BIDIRECTIONAL then t <| other_side_has_retransmits := has_retransmits |> else t.

(** The payload is taken out of the message, or its text is copied. *)
Definition take_output (j : cJSON) : IM cJSON :=
  t <- on_exchange (gets x_test) ;;
  if negb ((server_output_byte_limit t =? 0) && (role t =? role_client) && negb (get_server_output t =? 0)) then ret j
  else
    let '(output, rest) := cJSON_DetachItemFromObject j (key "server_output_json") in
    match output with
    | Some output => modify (fun i => i <| json_server_output := Some output |>) ;;; ret rest
    | None =>
        match member j "server_output_text" cJSON_String with
        | None => ret j
        | Some output => s <- on_exchange (strdup alloc (jvaluestring output)) ;; modify (fun i => i <| server_output_text := s |>) ;;; ret j
        end
    end.

Definition take_results (j : cJSON) : IM cJSON :=
  let number (name : string) := member j name cJSON_Number in
  match number "cpu_util_total"%string, number "cpu_util_user"%string, number "cpu_util_system"%string, number "sender_has_retransmits"%string with
  | Some total, Some user, Some system, Some has_retransmits =>
      on_exchange (on_test (store_usage total user system)) ;;;
      on_exchange (on_test (store_retransmits (s32 (jvalueint has_retransmits)))) ;;;
      match member j "streams" cJSON_Array with
      | None => on_exchange (failing IERECVRESULTS) ;;; ret j
      | Some j_streams =>
          on_exchange (receive_streams (Z.to_nat (cJSON_GetArraySize (Some j_streams))) 0 j_streams) ;;;
          take_output j
      end
  | _, _, _, _ => on_exchange (failing IERECVRESULTS) ;;; ret j
  end.

Definition apply_results (j : cJSON) : IM unit :=
  j <- take_results j ;;
  match member j "congestion_used" cJSON_String with
  | None => ret tt
  | Some used =>
      s <- on_exchange (strdup alloc (jvaluestring used)) ;;
      on_exchange (on_test (fun t => t <| remote_congestion_used := s |>))
  end.
End Receive.

(** ** The two sides *)

(** The allocators and the clocks and system calls of one side. *)
Record environment := mk_environment {
  e_os : system; e_alloc : nat -> bool; e_reallocate : bool; e_calloc : bool; e_parse : nat -> bool;
  e_core : bool; e_items : list bool; e_malloc : bool;
  e_fd : Z; e_clock : answer (Z * Z); e_getfl : option Z; e_setfl : option Z; e_resetfl : option Z }.

(** One side of the control connection. *)
Record side := mk_side {
  sd_channel : channel; sd_conn : conn; sd_budget : budget; sd_incoming : incoming;
  sd_json_output : bool; sd_lines : list text }.

#[export] Instance side_eta : Eta side := fun s =>
  mk_side (sd_channel s) (sd_conn s) (sd_budget s) (sd_incoming s) (sd_json_output s) (sd_lines s).

Definition SM := CM side.

(** A step on a part of the side. *)
Definition on_part {P A} (part : side -> P) (store : P -> side -> side) (m : CM P A) : SM A := fun s =>
  match m (part s) with
  | Ret (a, p) => Ret (a, store p s)
  | UB => UB
  | OutOfFuel => OutOfFuel
  end.

Definition on_channel {A} : NM A -> SM A := on_part sd_channel (fun c s => s <| sd_channel := c |>).
Definition on_budget {A} : BM A -> SM A := on_part sd_budget (fun b s => s <| sd_budget := b |>).
Definition on_incoming {A} : IM A -> SM A := on_part sd_incoming (fun i s => s <| sd_incoming := i |>).

Definition side_test (s : side) : iperf_test := x_test (in_exchange (sd_incoming s)).
Definition side_error (e : Z) : SM unit := on_incoming (on_exchange (iperf_set_error e)).

Section Side.
Context (env : environment).

Definition write_bounded (limit : Z) (j : cJSON) : SM Z := fun s =>
  match iperf_output_write_results (e_alloc env) (e_reallocate env) (e_malloc env) limit j
          (e_fd env) (e_clock env) (e_getfl env) (e_setfl env) (e_resetfl env) (sd_conn s) with
  | Ret (r, c) => Ret (r, s <| sd_conn := c |>)
  | UB => UB
  | OutOfFuel => OutOfFuel
  end.

Definition write_results (limit : Z) (j : cJSON) : SM Z :=
  if negb (limit =? 0) then write_bounded limit j
  else
    s <- get ;;
    on_channel (JSON_write (e_os env) (e_alloc env) (e_reallocate env) j (b_nalloc (sd_budget s))).

Definition send_results : SM Z :=
  s <- get ;;
  j <- on_budget (results_json (e_alloc env) (e_reallocate env) (side_test s) (sd_json_output s) (sd_lines s)) ;;
  match j with
  | None => side_error IEPACKAGERESULTS ;;; ret (-1)
  | Some j =>
      r <- write_results (server_output_byte_limit (side_test s)) j ;;
      if r <? 0 then side_error IESENDRESULTS ;;; ret (-1) else ret 0
  end.

(** The payload the peer's status speaks about is that of the message just read. *)
Definition read_bounded (t : iperf_test) : SM (option cJSON) := fun s =>
  match iperf_read_bounded_results_socket (e_core env) (e_items env) (e_parse env) (e_fd env) (server_output_byte_limit t)
          IPERF_RESULT_READ_TIMEOUT_MS true (Some (Scanner.iperf_clear_server_output (received_server_output (sd_budget s)))) (Some no_metrics)
          (e_clock env) (e_getfl env) (e_setfl env) (e_resetfl env) (sd_conn s) with
  | Ret r =>
      let output := default Scanner.empty_output (Scanner.ro_output r) in
      let output := match Scanner.ro_result r with Some j => iperf_output_apply_peer_status j output | None => output end in
      let output :=
        if negb (role t =? role_client) || (get_server_output t =? 0) then Scanner.iperf_clear_server_output output else output in
      Ret (Scanner.ro_result r,
        s <| sd_conn := Scanner.ro_context r |>
          <| sd_budget := (sd_budget s) <| received_server_output := output |>
               <| output_read_metrics := default no_metrics (Scanner.ro_metrics r) |> <| received_server_output_ready := true |> |>)
  | UB => UB
  | OutOfFuel => OutOfFuel
  end.

Definition read_results (t : iperf_test) : SM (option cJSON) :=
  if negb (server_output_byte_limit t =? 0) then read_bounded t
  else on_channel (JSON_read (e_os env) (e_calloc env) (e_parse env) 0).

Definition get_results : SM Z :=
  s <- get ;;
  on_incoming (on_exchange (modify (fun x => x <| x_r := 0 |>))) ;;;
  j <- read_results (side_test s) ;;
  match j with
  | None => side_error IERECVRESULTS ;;; ret (-1)
  | Some j => on_incoming (apply_results (e_alloc env) j) ;;; on_incoming (on_exchange (gets x_r))
  end.

Definition iperf_exchange_results : SM Z :=
  s <- get ;;
  if role (side_test s) =? role_client then
    r <- send_results ;;
    if r <? 0 then ret (-1)
    else
      r <- get_results ;;
      ret (if r <? 0 then -1 else 0)
  else
    r <- get_results ;;
    if r <? 0 then ret (-1)
    else
      r <- send_results ;;
      ret (if r <? 0 then -1 else 0).

End Side.
