(* ===== verification/ResultsSpec.v ===== *)
(** * What a peer's results can do

    Whatever object the other side sends, only the counters of the other
    direction change, and the result says whether the object was complete.  A
    complete one is taken over: every stream gets the values that the last of
    the objects about it names. *)

From Stdlib Require Import String.
From S2P Require Import Prelude Bytes Time Double CJson CJsonTree CJsonTreeSpec CJsonPrint CJsonPrintSpec CJsonRoundTrip CJsonSpec CJsonSafety IperfTest ControlChannel ControlChannelSpec BoundedOutput BoundedReader BoundedSocket Params ParamsSpec Udp OutputBudget Results.
Local Open Scope c_scope.

(** ** What may change *)

(** A sender keeps all but the receiver's counters, a receiver all but the sender's. *)
Definition stream_confined (sp sp' : iperf_stream) : Prop :=
  sp' =
  if sender sp then
    sp <| jitter := jitter sp' |> <| cnt_error := cnt_error sp' |> <| omitted_cnt_error := omitted_cnt_error sp' |>
       <| peer_packet_count := peer_packet_count sp' |> <| peer_omitted_packet_count := peer_omitted_packet_count sp' |>
       <| result := (result sp) <| bytes_received := bytes_received (result sp') |> <| receiver_time := receiver_time (result sp') |> |>
  else
    sp <| peer_packet_count := peer_packet_count sp' |> <| peer_omitted_packet_count := peer_omitted_packet_count sp' |>
       <| result := (result sp) <| bytes_sent := bytes_sent (result sp') |> <| stream_retrans := stream_retrans (result sp') |>
                                <| sender_time := sender_time (result sp') |> |>.

Definition test_confined (t t' : iperf_test) : Prop :=
  t' = t <| remote_cpu_util := remote_cpu_util t' |> <| sender_has_retransmits := sender_has_retransmits t' |>
         <| other_side_has_retransmits := other_side_has_retransmits t' |> <| remote_congestion_used := remote_congestion_used t' |>
         <| streams := streams t' |> /\
  Forall2 stream_confined (streams t) (streams t').

Lemma stream_confined_refl sp : stream_confined sp sp.
Proof. unfold stream_confined. by destruct sp as [? [] []]. Qed.

Lemma stream_confined_trans sp1 sp2 sp3 : stream_confined sp1 sp2 -> stream_confined sp2 sp3 -> stream_confined sp1 sp3.
Proof.
  unfold stream_confined. intros E1 E2. assert (sender sp2 = sender sp1) as Es by (rewrite E1 at 1; destruct (sender sp1) eqn:Hs; cbn; by rewrite Hs).
  rewrite Es in E2. destruct (sender sp1); rewrite E2 at 1; rewrite E1; reflexivity.
Qed.

Lemma take_stream_confined p sp : stream_confined sp (take_stream p sp).
Proof.
  unfold stream_confined, take_stream, take_receiver, take_sender. destruct sp as [i [] r pc ppc popc opc j pt oo ooo ce oce]; destruct r; cbn.
  - destruct (p_omitted p) as [[]|]; cbn; [reflexivity|]. by destruct (0 <? opc); cbn; [destruct (0 <? p_errors p)|].
  - by destruct (p_omitted p) as [[]|].
Qed.

Lemma streams_confined_refl l : Forall2 stream_confined l l.
Proof. induction l; constructor; [apply stream_confined_refl|done]. Qed.

Lemma streams_confined_trans l1 l2 l3 : Forall2 stream_confined l1 l2 -> Forall2 stream_confined l2 l3 -> Forall2 stream_confined l1 l3.
Proof. intros H. revert l3. induction H; intros l3 H2; inversion H2; subst; constructor; [by eapply stream_confined_trans|auto]. Qed.

Lemma test_confined_refl t : test_confined t t.
Proof. split; [by destruct t|apply streams_confined_refl]. Qed.

Lemma test_confined_trans t1 t2 t3 : test_confined t1 t2 -> test_confined t2 t3 -> test_confined t1 t3.
Proof. intros [E1 H1] [E2 H2]. split; [rewrite E2 at 1; rewrite E1; reflexivity|by eapply streams_confined_trans]. Qed.

Lemma streams_taken t l : Forall2 stream_confined (streams t) l -> test_confined t (t <| streams := l |>).
Proof. intros H. split; [by destruct t|done]. Qed.

Lemma on_stream_confined sid p l l' : on_stream sid (take_stream p) l = Some l' -> Forall2 stream_confined l l'.
Proof.
  revert l'. induction l as [|sp l IH]; intros l' E; cbn [on_stream] in E; [done|]. destruct (id sp =? sid).
  - injection E as <-. constructor; [apply take_stream_confined|apply streams_confined_refl].
  - destruct (on_stream sid (take_stream p) l) as [l2|]; [|done]. injection E as <-. constructor; [apply stream_confined_refl|auto].
Qed.

(** The values of an [int]. *)
Definition int_ok (v : Z) : Prop := - 2 ^ 31 <= v < 2 ^ 31.

(** ** Complete results *)

(** The object is about the stream of that number. *)
Definition about_stream (sid : Z) (js : cJSON) : Prop := exists x, number_at "id" js x /\ s32 (jvalueint x) = sid.

(** A stream's object has all its numbers, the counts of the omitted time both
    or neither, and is about a stream of the test. *)
Record stream_complete (ids : list Z) (js : cJSON) : Prop := {
  sc_numbers : Forall (fun name => has_number name js) ["id"; "bytes"; "retransmits"; "jitter"; "errors"; "packets"]%string;
  sc_omitted : has_number "omitted_errors" js <-> has_number "omitted_packets" js;
  sc_known : exists sid, sid ∈ ids /\ about_stream sid js }.

(** All that is needed is there, and every stream is one of ours (of as many as
    an [int] counts). *)
Definition complete (ids : list Z) (j : cJSON) : Prop :=
  Forall (fun name => has_number name j) ["cpu_util_total"; "cpu_util_user"; "cpu_util_system"; "sender_has_retransmits"]%string /\
  exists arr, array_at "streams" j arr /\ Forall (stream_complete ids) (firstn (Z.to_nat (s32 (zlen (jchild arr)))) (jchild arr)).

Lemma stream_readable ids js : stream_complete ids js <-> exists sid p, read_stream js = Some (sid, p) /\ sid ∈ ids.
Proof.
  split.
  - intros [Hn Ho (sid & Hin & x & Hx%member_number_at & Hsid)]. rewrite !Forall_cons, !has_member in Hn.
    destruct Hn as (_ & [y1 E1] & [y2 E2] & [y3 E3] & [y4 E4] & [y5 E5] & _). rewrite !has_member in Ho.
    unfold read_stream. rewrite Hx, E1, E2, E3, E4, E5, Hsid.
    destruct (member js "omitted_errors" cJSON_Number), (member js "omitted_packets" cJSON_Number); eauto; exfalso.
    + destruct (proj1 Ho ltac:(eauto)). done.
    + destruct (proj2 Ho ltac:(eauto)). done.
  - intros (sid & p & E & Hin). unfold read_stream in E. repeat (case_match; [|done]).
    split; [rewrite !Forall_cons, !has_member; split_and!; eauto; apply Forall_nil_2| |].
    + rewrite !has_member. repeat case_match; simplify_eq; split; eauto; intros [? ?]; congruence.
    + exists sid. split; [done|]. exists c. split; [by apply member_number_at|]. repeat case_match; by simplify_eq.
Qed.

(** ** One message *)

Lemma wp_on_exchange {A} (m : XM A) Q i : wp m (fun a x => Q a (i <| in_exchange := x |>)) (in_exchange i) -> wp (on_exchange m) Q i.
Proof. unfold wp, on_exchange. by destruct (m (in_exchange i)) as [[a x] | |]. Qed.

(** The exchange goes on exactly when [P] holds; otherwise an error is set. *)
Definition verdict (P : Prop) (x x' : exchange) : Prop :=
  P /\ x_r x' = x_r x /\ x_errno x' = x_errno x \/ ~ P /\ x_r x' = -1 /\ (x_errno x' = IERECVRESULTS \/ x_errno x' = IESTREAMID).

Lemma verdict_and P Q x1 x2 x3 : verdict P x1 x2 -> verdict Q x2 x3 -> verdict (P /\ Q) x1 x3.
Proof.
  intros [(HP & R1 & E1)|(HP & R1 & E1)] [(HQ & R2 & E2)|(HQ & R2 & E2)].
  - left. split; [done|]. split; congruence.
  - right. split; [by intros [_ ?]|done].
  - right. split; [by intros [? _]|]. by rewrite R2, E2.
  - right. split; [by intros [? _]|done].
Qed.

#[export] Instance verdict_proper : Proper (iff ==> eq ==> eq ==> iff) verdict.
Proof. intros P Q H x _ <- x' _ <-. unfold verdict. by rewrite H. Qed.

Lemma array_item_at arr i : cJSON_GetArrayItem (Some arr) (Z.of_nat i) = jchild arr !! i.
Proof. unfold cJSON_GetArrayItem, get_array_item. rewrite (proj2 (Z.ltb_ge _ 0)) by lia. by rewrite Nat2Z.id. Qed.

Lemma on_stream_known sid f l : sid ∈ id <$> l <-> is_Some (on_stream sid f l).
Proof.
  induction l as [|sp l IH]; cbn [on_stream fmap list_fmap]; [split; [by intros ?%not_elem_of_nil|by intros []]|].
  rewrite elem_of_cons, IH. destruct (Z.eqb_spec (id sp) sid) as [->|Hn]; [split; eauto|].
  split; [intros [?|[l' ->]]; [done|eauto]|intros [l' E]; right]. by destruct (on_stream sid f l).
Qed.

Lemma on_stream_ids sid p l l' : on_stream sid (take_stream p) l = Some l' -> id <$> l' = id <$> l.
Proof.
  intros H%on_stream_confined. induction H as [|sp sp' l l' H _ IH]; [done|]. rewrite !fmap_cons, IH. f_equal.
  unfold stream_confined in H. rewrite H. by destruct (sender sp).
Qed.

Definition taken (x x' : exchange) : Prop := test_confined (x_test x) (x_test x').

Lemma taken_refl x : taken x x.
Proof. apply test_confined_refl. Qed.

Lemma taken_same x x' : x_test x' = x_test x -> taken x x'.
Proof. intros E. unfold taken. rewrite E. apply taken_refl. Qed.

Lemma taken_trans x1 x2 x3 : taken x1 x2 -> taken x2 x3 -> taken x1 x3.
Proof. apply test_confined_trans. Qed.

Lemma failing_spec e x : e = IERECVRESULTS \/ e = IESTREAMID -> wp (failing e) (fun _ x' => taken x x' /\ x_test x' = x_test x /\ x_r x' = -1 /\ (x_errno x' = IERECVRESULTS \/ x_errno x' = IESTREAMID)) x.
Proof. intros He. apply wp_modify. split; [by apply taken_same|done]. Qed.

Lemma receive_stream_spec js x : wp (receive_stream (Some js)) (fun _ x' => taken x x' /\ id <$> streams (x_test x') = id <$> streams (x_test x) /\
  verdict (stream_complete (id <$> streams (x_test x)) js) x x') x.
Proof.
  unfold receive_stream. cbn [option_bind]. destruct (read_stream js) as [[sid p]|] eqn:E.
  - wp_step. apply wp_get. destruct (on_stream sid (take_stream p) (streams (x_test x))) as [l|] eqn:El.
    + apply wp_modify. split_and!; [by apply streams_taken, (on_stream_confined sid p)|cbn; by apply (on_stream_ids sid p)|].
      left. split; [|done]. apply stream_readable. exists sid, p. split; [done|]. apply (on_stream_known sid (take_stream p)). by exists l.
    + eapply wp_mono; [apply failing_spec; by right|]. intros _ x' (Ht & Et & Hr & He). split_and!; [done|by rewrite Et|]. right. split_and!; [|done|done].
      intros (sid' & p' & E' & Hin)%stream_readable. rewrite E in E'. injection E' as <- <-. apply (on_stream_known sid (take_stream p)) in Hin as [? ?]. congruence.
  - eapply wp_mono; [apply failing_spec; by left|]. intros _ x' (Ht & Et & Hr & He). split_and!; [done|by rewrite Et|]. right. split_and!; [|done|done].
    intros (sid' & p' & E' & _)%stream_readable. congruence.
Qed.

Lemma receive_streams_spec k arr ids : forall i x, (i + k <= length (jchild arr))%nat -> id <$> streams (x_test x) = ids ->
  wp (receive_streams k (Z.of_nat i) arr) (fun _ x' => taken x x' /\ id <$> streams (x_test x') = ids /\
    verdict (Forall (stream_complete ids) (firstn k (drop i (jchild arr)))) x x') x.
Proof.
  induction k as [|k IH]; intros i x Hk Hids; cbn [receive_streams].
  { wp_step. split_and!; [apply taken_refl|done|]. left. by split. }
  destruct (lookup_lt_is_Some_2 (jchild arr) i ltac:(lia)) as [js Ejs]. rewrite array_item_at, Ejs.
  assert (drop i (jchild arr) = js :: drop (S i) (jchild arr)) as -> by (by apply drop_S). cbn [firstn].
  wp_step. eapply wp_mono; [apply receive_stream_spec|].
  intros _ x1 (H1 & Hids1 & Hr1). rewrite Hids in *. replace (Z.of_nat i + 1) with (Z.of_nat (S i)) by lia.
  eapply wp_mono; [apply (IH (S i)); [lia|done]|]. intros _ x2 (H2 & Hids2 & Hr2). split_and!; [by eapply taken_trans|done|].
  rewrite Forall_cons. by eapply verdict_and.
Qed.

(** ** The whole message *)

Lemma array_size_le arr : (Z.to_nat (cJSON_GetArraySize (Some arr)) <= length (jchild arr))%nat.
Proof.
  cbn [cJSON_GetArraySize]. pose proof (zlen_nonneg (jchild arr)) as H. unfold wraps. change (2 ^ (32 - 1)) with (2 ^ 31).
  destruct (Z.ltb_spec (zlen (jchild arr)) (2 ^ 31)).
  - rewrite Z.mod_small by lia. unfold zlen in *. lia.
  - pose proof (Z.mod_le (zlen (jchild arr) + 2 ^ 31) (2 ^ 32)). unfold zlen in *. lia.
Qed.

Section Message.
Context (alloc : nat -> bool).

Lemma exchange_strdup_spec o Q x : is_Some o -> (forall s, Q s (x <| x_nalloc := S (x_nalloc x) |>)) -> wp (strdup alloc o) Q x.
Proof. intros [s ->] H. apply H. Qed.

Lemma detached_children j n o rest : cJSON_DetachItemFromObject j n = (o, rest) -> forall y, y ∈ jchild rest -> y ∈ jchild j.
Proof.
  unfold cJSON_DetachItemFromObject, detach_at. intros E y Hy. repeat case_match; simplify_eq; try done.
  destruct j as [t c0 v d z m]. cbn in Hy |- *. unfold remove_at in Hy. apply elem_of_app in Hy as [Hy|Hy].
  - apply elem_of_take in Hy as (k & Hk & _). by eapply list_elem_of_lookup_2.
  - apply list_elem_of_lookup in Hy as [k Hk]. rewrite lookup_drop in Hk. by eapply list_elem_of_lookup_2.
Qed.

Lemma detached_texts j n o rest : has_texts j = true -> cJSON_DetachItemFromObject j n = (o, rest) -> has_texts rest = true.
Proof.
  intros Hj E. pose proof (detached_children j n o rest E) as Hc. unfold cJSON_DetachItemFromObject, detach_at in E.
  repeat case_match; simplify_eq; try done. destruct j as [t c0 v d z m]. cbn in Hc, Hj |- *. rewrite andb_true_iff in *. split; [apply Hj|].
  destruct Hj as [_ Hj]. rewrite forallb_forall in *. intros x Hx%list_elem_of_In. by apply Hj, list_elem_of_In, Hc.
Qed.

Lemma take_output_spec j i : has_texts j = true -> wp (take_output alloc j) (fun j' i' => has_texts j' = true /\
  taken (in_exchange i) (in_exchange i') /\ verdict True (in_exchange i) (in_exchange i')) i.
Proof.
  intros Ht. assert (has_texts j = true /\ taken (in_exchange i) (in_exchange i) /\ verdict True (in_exchange i) (in_exchange i)) as Hsame.
  { split_and!; [done|apply taken_refl|by left]. }
  unfold take_output. wp_step. apply wp_on_exchange, wp_gets. destruct (negb _); [by wp_step|].
  destruct (cJSON_DetachItemFromObject j (key "server_output_json")) as [[output|] rest] eqn:E.
  - wp_step. apply wp_modify. wp_step. split; [by eapply detached_texts|apply Hsame].
  - destruct (member j "server_output_text" cJSON_String) as [output|] eqn:Em; [|by wp_step].
    wp_step. apply wp_on_exchange. apply exchange_strdup_spec; [by apply (member_text j "server_output_text")|].
    intros s. wp_step. apply wp_modify. wp_step. split_and!; [done|by apply taken_same|by left].
Qed.

Lemma store_taken total user system v x : let t := store_retransmits (s32 v) (store_usage total user system (x_test x)) in taken x (x <| x_test := t |>).
Proof.
  intros t. unfold t, store_retransmits, store_usage, taken, test_confined. cbn.
  split; [|repeat case_match; apply streams_confined_refl]. destruct (x_test x). cbn. by repeat case_match.
Qed.

Lemma on_failing_spec (P : Prop) j i : ~ P -> has_texts j = true -> wp (on_exchange (failing IERECVRESULTS) ;;; ret j) (fun j' i' => has_texts j' = true /\
  taken (in_exchange i) (in_exchange i') /\ verdict P (in_exchange i) (in_exchange i')) i.
Proof.
  intros HP Ht. wp_step. apply wp_on_exchange. eapply wp_mono; [apply failing_spec; by left|]. intros _ x' (H & _ & Hr & He). wp_step. cbn.
  split_and!; [done|done|by right].
Qed.

Lemma incomplete ids j name : name ∈ ["cpu_util_total"; "cpu_util_user"; "cpu_util_system"; "sender_has_retransmits"]%string ->
  member j name cJSON_Number = None -> ~ complete ids j.
Proof. intros Hin E%no_member [Hn _]. rewrite Forall_forall in Hn. by apply E, Hn. Qed.

Lemma take_results_spec j i : has_texts j = true ->
  wp (take_results alloc j) (fun j' i' => has_texts j' = true /\ taken (in_exchange i) (in_exchange i') /\
    verdict (complete (id <$> streams (x_test (in_exchange i))) j) (in_exchange i) (in_exchange i')) i.
Proof.
  intros Ht. unfold take_results. set (ids := id <$> _).
  destruct (member j "cpu_util_total" cJSON_Number) as [total|] eqn:E1;
    [|by apply on_failing_spec; [apply (incomplete ids j "cpu_util_total"); [set_solver|]|]].
  destruct (member j "cpu_util_user" cJSON_Number) as [user|] eqn:E2;
    [|by apply on_failing_spec; [apply (incomplete ids j "cpu_util_user"); [set_solver|]|]].
  destruct (member j "cpu_util_system" cJSON_Number) as [system|] eqn:E3;
    [|by apply on_failing_spec; [apply (incomplete ids j "cpu_util_system"); [set_solver|]|]].
  destruct (member j "sender_has_retransmits" cJSON_Number) as [r|] eqn:E4;
    [|by apply on_failing_spec; [apply (incomplete ids j "sender_has_retransmits"); [set_solver|]|]].
  wp_step. apply wp_on_exchange, wp_modify. wp_step. apply wp_on_exchange, wp_modify.
  pose proof (store_taken total user system (jvalueint r) (in_exchange i)) as Htaken. cbv zeta in Htaken.
  set (t1 := store_retransmits _ (store_usage _ _ _ (x_test (in_exchange i)))) in *.
  set (i1 := i <| in_exchange := (in_exchange i) <| x_test := t1 |> |>) in *. match goal with |- wp _ _ ?s => change s with i1 end.
  assert (id <$> streams (x_test (in_exchange i1)) = ids) as Hids.
  { unfold i1, t1, store_retransmits, store_usage, ids. cbn. by repeat case_match. }
  assert (Forall (fun name => has_number name j) ["cpu_util_total"; "cpu_util_user"; "cpu_util_system"; "sender_has_retransmits"]%string) as Hnumbers.
  { rewrite !Forall_cons, !has_member, E1, E2, E3, E4. by split_and!; eauto. }
  destruct (member j "streams" cJSON_Array) as [arr|] eqn:E5.
  2:{ eapply wp_mono; [apply (on_failing_spec (complete ids j)); [|done]|].
      { intros (_ & arr & E%member_array_at & _). congruence. }
      intros j' i' (H1 & H2 & H3). split_and!; [done|by eapply taken_trans|done]. }
  wp_step. apply wp_on_exchange. eapply wp_mono; [apply (receive_streams_spec _ arr ids) with (i := 0%nat); [apply array_size_le|exact Hids]|].
  intros _ x2 (H2 & Hids2 & Hv2). rewrite drop_0 in Hv2. eapply wp_mono; [by apply take_output_spec|]. cbn. intros j' i3 (Ht3 & H3 & Hv3).
  split_and!; [done|by eapply taken_trans; [|eapply taken_trans]|]. pose proof (verdict_and _ _ _ _ _ Hv2 Hv3) as Hv.
  eapply verdict_proper; [|reflexivity|reflexivity|exact Hv]. unfold complete. apply member_array_at in E5 as E6. split.
  - intros (_ & arr' & E%member_array_at & Hk). rewrite E5 in E. injection E as <-. by split.
  - intros [Hk _]. split; [done|]. by exists arr.
Qed.

Lemma apply_results_spec j i : has_texts j = true ->
  wp (apply_results alloc j) (fun _ i' => taken (in_exchange i) (in_exchange i') /\
    verdict (complete (id <$> streams (x_test (in_exchange i))) j) (in_exchange i) (in_exchange i')) i.
Proof.
  intros Ht. unfold apply_results. wp_step. eapply wp_mono; [by apply take_results_spec|]. intros j' i1 (Ht1 & H1 & Hv1).
  destruct (member j' "congestion_used" cJSON_String) as [used|] eqn:E; [|by wp_step].
  wp_step. apply wp_on_exchange. apply exchange_strdup_spec; [by apply (member_text j' "congestion_used")|].
  intros s. apply wp_on_exchange, wp_modify. split; [|exact Hv1]. eapply taken_trans; [exact H1|].
  unfold taken, test_confined. cbn. split; [by destruct (x_test (in_exchange i1))|apply streams_confined_refl].
Qed.

(** C32: results are accepted exactly when they are complete: the four numbers
    and the array are there, and every object of the array has all its numbers,
    the omitted counts both or neither, and names one of the test's streams.
    Otherwise the result is -1 with [IERECVRESULTS] or [IESTREAMID]. *)
Theorem results_accepted j i (Ht : has_texts j = true) (Hr : x_r (in_exchange i) = 0) :
  wp (apply_results alloc j) (fun _ i' => let x' := in_exchange i' in
    x_r x' = 0 /\ complete (id <$> streams (x_test (in_exchange i))) j /\ x_errno x' = x_errno (in_exchange i) \/
    x_r x' = -1 /\ ~ complete (id <$> streams (x_test (in_exchange i))) j /\ (x_errno x' = IERECVRESULTS \/ x_errno x' = IESTREAMID)) i.
Proof.
  eapply wp_mono; [by apply apply_results_spec|]. intros _ i' [_ [(Hk & E1 & E2)|(Hk & E1 & E2)]]; [left|right]; split_and!; try done. congruence.
Qed.
End Message.

(** ** What a complete message leaves *)

(** The number of that name is an integer, or a floating point number, of that value. *)
Definition tells (js : cJSON) (name : string) (v : Z) : Prop := exists x, number_at name js x /\ jvalueint x = v.
Definition tells_double (js : cJSON) (name : string) (d : double) : Prop := exists x, number_at name js x /\ jvaluedouble x = d.

(** The time a peer ran a stream, if it says when that began and ended. *)
Definition tells_seconds (js : cJSON) (d : double) : Prop :=
  (exists s e, tells_double js "start_time" s /\ tells_double js "end_time" e /\ d = D_sub e s) \/
  (~ has_number "start_time" js \/ ~ has_number "end_time" js) /\ d = D_zero.

(** A sender learns what the receiver counted.  Without the counts of the
    omitted time those are its own datagrams, and all the errors if there were
    none of them; otherwise the errors are unknown (-1) if there were any. *)
Definition sender_learns (js : cJSON) (sp sp' : iperf_stream) : Prop :=
  tells_double js "jitter" (jitter sp') /\ tells js "errors" (cnt_error sp') /\ tells js "packets" (peer_packet_count sp') /\
  (exists b, tells js "bytes" b /\ bytes_received (result sp') = b mod 2 ^ 64) /\ tells_seconds js (receiver_time (result sp')) /\
  (tells js "omitted_errors" (omitted_cnt_error sp') /\ tells js "omitted_packets" (peer_omitted_packet_count sp') \/
   ~ has_number "omitted_errors" js /\ peer_omitted_packet_count sp' = omitted_packet_count sp /\
   (0 < omitted_packet_count sp -> 0 < cnt_error sp' -> omitted_cnt_error sp' = -1) /\
   (0 < omitted_packet_count sp -> cnt_error sp' <= 0 -> omitted_cnt_error sp' = 0) /\
   (omitted_packet_count sp <= 0 -> omitted_cnt_error sp' = cnt_error sp')).

(** A receiver learns what the sender counted. *)
Definition receiver_learns (js : cJSON) (sp' : iperf_stream) : Prop :=
  tells js "packets" (peer_packet_count sp') /\ (exists b, tells js "bytes" b /\ bytes_sent (result sp') = b mod 2 ^ 64) /\
  (exists r, tells js "retransmits" r /\ stream_retrans (result sp') = s32 r) /\ tells_seconds js (sender_time (result sp')) /\
  (tells js "omitted_packets" (peer_omitted_packet_count sp') \/
   ~ has_number "omitted_packets" js /\ peer_omitted_packet_count sp' = peer_packet_count sp').

Definition learns (js : cJSON) (sp sp' : iperf_stream) : Prop :=
  stream_confined sp sp' /\ if sender sp then sender_learns js sp sp' else receiver_learns js sp'.

(** The last of the objects about the stream of that number. *)
Definition last_about (objects : list cJSON) (sid : Z) (js : cJSON) : Prop :=
  exists before after, objects = before ++ js :: after /\ about_stream sid js /\ Forall (fun y => ~ about_stream sid y) after.

(** The stream at [k] is the first of its number. *)
Definition foremost (l : list iperf_stream) (k : nat) (sp : iperf_stream) : Prop :=
  l !! k = Some sp /\ forall m sp2, (m < k)%nat -> l !! m = Some sp2 -> id sp2 <> id sp.

(** Every stream follows the last object about it; without one it stays as it was. *)
Definition told (objects : list cJSON) (l l' : list iperf_stream) : Prop :=
  length l' = length l /\ forall k sp sp', l !! k = Some sp -> l' !! k = Some sp' ->
    (exists js, foremost l k sp /\ last_about objects (id sp) js /\ learns js sp sp') \/
    (foremost l k sp -> Forall (fun js => ~ about_stream (id sp) js) objects) /\ sp' = sp.

Lemma about_unique js m n : about_stream m js -> about_stream n js -> m = n.
Proof. intros (x & Hx & <-) (y & Hy & <-). by rewrite (number_unique _ _ _ _ Hx Hy). Qed.

Lemma read_about js sid p : read_stream js = Some (sid, p) -> about_stream sid js.
Proof.
  intros E. unfold read_stream in E. repeat (case_match; [|done]). exists c. split; [by apply member_number_at|]. repeat case_match; by simplify_eq.
Qed.

(** What was read of an object is what it says. *)
Record spoken (js : cJSON) (p : peer_stream) : Prop := {
  sk_bytes : tells js "bytes" (p_bytes p); sk_errors : tells js "errors" (p_errors p); sk_packets : tells js "packets" (p_packets p);
  sk_retransmits : exists r, tells js "retransmits" r /\ p_retransmits p = s32 r;
  sk_jitter : tells_double js "jitter" (p_jitter p);
  sk_times : tells_seconds js (peer_seconds p);
  sk_omitted : match p_omitted p with
    | Some (e, n) => tells js "omitted_errors" e /\ tells js "omitted_packets" n
    | None => ~ has_number "omitted_errors" js /\ ~ has_number "omitted_packets" js
    end }.

Lemma member_tells js name x : member js name cJSON_Number = Some x -> tells js name (jvalueint x) /\ tells_double js name (jvaluedouble x).
Proof. intros H%member_number_at. split; by exists x. Qed.

Lemma times_tell js s e : s = member js "start_time" cJSON_Number -> e = member js "end_time" cJSON_Number ->
  tells_seconds js (match match s, e with Some s, Some e => Some (jvaluedouble s, jvaluedouble e) | _, _ => None end with
    | Some (start_time, end_time) => D_sub end_time start_time | None => D_zero end).
Proof.
  intros Es Ee. destruct s as [s|]; [destruct e as [e|]|].
  - left. exists (jvaluedouble s), (jvaluedouble e). by split_and!; [apply member_tells|apply member_tells|].
  - right. split; [right; by apply no_member|done].
  - right. split; [left; by apply no_member|done].
Qed.

Lemma read_spoken js sid p : read_stream js = Some (sid, p) -> spoken js p.
Proof.
  intros E. unfold read_stream in E.
  destruct (member js "id" cJSON_Number) as [x1|] eqn:E1; [|done]. destruct (member js "bytes" cJSON_Number) as [x2|] eqn:E2; [|done].
  destruct (member js "retransmits" cJSON_Number) as [x3|] eqn:E3; [|done]. destruct (member js "jitter" cJSON_Number) as [x4|] eqn:E4; [|done].
  destruct (member js "errors" cJSON_Number) as [x5|] eqn:E5; [|done]. destruct (member js "packets" cJSON_Number) as [x6|] eqn:E6; [|done].
  pose proof (times_tell js _ _ eq_refl eq_refl) as Ht. set (times := match member js "start_time" cJSON_Number with Some _ => _ | None => _ end) in *.
  clearbody times. apply member_tells in E2, E3, E4, E5, E6.
  destruct (member js "omitted_errors" cJSON_Number) as [x7|] eqn:E7, (member js "omitted_packets" cJSON_Number) as [x8|] eqn:E8; try done;
    injection E as <- <-; split; cbn; try apply E2; try apply E4; try apply E5; try apply E6; try exact Ht; try (eexists; split; [apply E3|done]).
  - split; by apply member_tells.
  - split; by apply no_member.
Qed.

Lemma confined_same sp s : stream_confined sp s -> sender s = sender sp /\ id s = id sp /\ omitted_packet_count s = omitted_packet_count sp.
Proof. unfold stream_confined. intros E. rewrite E. by destruct (sender sp) eqn:Es; cbn; rewrite ?Es. Qed.

Lemma take_learns js p sp s : spoken js p -> stream_confined sp s -> learns js sp (take_stream p s).
Proof.
  intros [B E P (r & R & Er) J T O] Hc. destruct (confined_same sp s Hc) as (Es & _ & Eo). split; [eapply stream_confined_trans; [exact Hc|apply take_stream_confined]|].
  unfold take_stream. rewrite Es. destruct (sender sp).
  - unfold sender_learns, take_receiver. rewrite <- Eo. destruct (p_omitted p) as [[e n]|]; cbn.
    + split_and!; try done; [by exists (p_bytes p)|by left].
    + destruct (Z.ltb_spec 0 (omitted_packet_count s)); cbn; (split_and!; try done; [by exists (p_bytes p)|right]); (split_and!; [apply O|done|..]); try lia.
      * intros _ He. by rewrite (proj2 (Z.ltb_lt 0 (p_errors p))).
      * intros _ He. by rewrite (proj2 (Z.ltb_ge 0 (p_errors p))).
  - unfold receiver_learns, take_sender. destruct (p_omitted p) as [[e n]|]; cbn; (split_and!; try done; [by exists (p_bytes p)|by exists r|]); [left|right]; by destruct O.
Qed.

Lemma on_stream_position sid f l l' : on_stream sid f l = Some l' -> exists m s, foremost l m s /\ id s = sid /\ l' = <[m := f s]> l.
Proof.
  revert l'. induction l as [|s l IH]; intros l' E; cbn [on_stream] in E; [done|]. destruct (Z.eqb_spec (id s) sid) as [Hs|Hs].
  - injection E as <-. exists 0%nat, s. split_and!; [|done..]. split; [done|]. lia.
  - destruct (on_stream sid f l) as [l2|]; [|done]. injection E as <-. destruct (IH l2 eq_refl) as (m & s' & [Hm Hf] & <- & ->).
    exists (S m), s'. split_and!; [|done..]. split; [done|]. intros [|k] s2 Hk; [by intros [= <-]|]. apply Hf. lia.
Qed.

Lemma foremost_unique l j k sp s : foremost l j sp -> foremost l k s -> id sp = id s -> j = k.
Proof.
  intros [Hj Hfj] [Hk Hfk] E. destruct (lt_eq_lt_dec j k) as [[Hlt| ->]|Hlt]; [|done|]; exfalso; [by apply (Hfk j sp)|by apply (Hfj k s)].
Qed.

Lemma foremost_ids l l' k sp sp' : id <$> l' = id <$> l -> l !! k = Some sp -> foremost l' k sp' -> foremost l k sp /\ id sp' = id sp.
Proof.
  intros E Hk [Hk' Hf]. assert (forall m, id <$> l' !! m = id <$> l !! m) as Hm by (intros m; by rewrite <- !list_lookup_fmap, E).
  assert (id sp' = id sp) as Es by (specialize (Hm k); rewrite Hk, Hk' in Hm; by injection Hm). split; [|done]. split; [done|].
  intros m sp2 Hlt Hl. specialize (Hm m). rewrite Hl in Hm. destruct (l' !! m) as [s2|] eqn:El; [|done]. injection Hm as Hm.
  rewrite <- Es, <- Hm. by apply (Hf m).
Qed.

Lemma told_confined objects l l' : told objects l l' -> Forall2 stream_confined l l'.
Proof.
  intros [El H]. apply Forall2_same_length_lookup_2; [done|]. intros k sp sp' Hk Hk'.
  destruct (H k sp sp' Hk Hk') as [(js & _ & _ & [? _])|[_ ->]]; [done|apply stream_confined_refl].
Qed.

Lemma confined_ids l l' : Forall2 stream_confined l l' -> id <$> l' = id <$> l.
Proof. induction 1 as [|sp sp' l l' H _ IH]; [done|]. rewrite !fmap_cons, IH. f_equal. by apply confined_same. Qed.

Lemma told_refl l : told [] l l.
Proof. split; [done|]. intros k sp sp' -> [= ->]. right. split; [by constructor|done]. Qed.

(** One more object. *)
Lemma told_step objects js sid p l l1 l2 : told objects l l1 -> read_stream js = Some (sid, p) -> on_stream sid (take_stream p) l1 = Some l2 -> told (objects ++ [js]) l l2.
Proof.
  intros Ht Hr Ho. pose proof (read_about js sid p Hr) as Ha. apply read_spoken in Hr. apply on_stream_position in Ho as (m & s & Hs & Hid & ->).
  pose proof (confined_ids _ _ (told_confined _ _ _ Ht)) as Hids. destruct Ht as [El H]. split; [by rewrite length_insert|].
  intros k sp sp' Hk Hk'. destruct (decide (m = k)) as [->|Hne].
  - rewrite list_lookup_insert_eq in Hk' by (rewrite El; by apply lookup_lt_Some in Hk). injection Hk' as <-.
    destruct (foremost_ids l l1 k sp s Hids Hk Hs) as [Hf Hsp]. left. exists js. split_and!; [done| |].
    + exists objects, []. split_and!; [done|by rewrite <- Hsp, Hid|constructor].
    + apply take_learns; [done|]. destruct Hs as [Hs _]. destruct (H k sp s Hk Hs) as [(? & _ & _ & [? _])|[_ ->]]; [done|apply stream_confined_refl].
  - rewrite list_lookup_insert_ne in Hk' by done.
    assert (foremost l k sp -> ~ about_stream (id sp) js) as Hother.
    { intros Hf Hsp. apply Hne. destruct (lookup_lt_is_Some_2 l m) as [s0 Hs0]; [rewrite <- El; eapply lookup_lt_Some; apply (proj1 Hs)|].
      destruct (foremost_ids l l1 m s0 s Hids Hs0 Hs) as [Hf0 Hs1]. symmetry. apply (foremost_unique l k m sp s0 Hf Hf0).
      rewrite <- Hs1, Hid. by apply (about_unique js). }
    destruct (H k sp sp' Hk Hk') as [(j & Hf & (before & after & -> & Hj & Haft) & Hl)|[Hn ->]].
    + left. exists j. split_and!; [done| |done]. exists before, (after ++ [js]). rewrite <- app_assoc. split_and!; [done|done|].
      apply Forall_app. split; [done|]. constructor; [by apply Hother|constructor].
    + right. split; [|done]. intros Hf. apply Forall_app. split; [by apply Hn|]. constructor; [by apply Hother|constructor].
Qed.

Lemma told_known objects sid p l l1 : told objects l l1 -> sid ∈ id <$> l -> is_Some (on_stream sid (take_stream p) l1).
Proof. intros H%told_confined%confined_ids Hin. apply on_stream_known. by rewrite H. Qed.

Lemma receive_streams_told t0 arr k : forall i x l, (i + k <= length (jchild arr))%nat ->
  Forall (stream_complete (id <$> streams t0)) (firstn k (drop i (jchild arr))) -> told (firstn i (jchild arr)) (streams t0) l -> x_test x = t0 <| streams := l |> ->
  wp (receive_streams k (Z.of_nat i) arr) (fun _ x' => exists l', told (firstn (i + k) (jchild arr)) (streams t0) l' /\ x' = x <| x_test := t0 <| streams := l' |> |>) x.
Proof.
  induction k as [|k IH]; intros i x l Hk Hc Ht Hx; cbn [receive_streams].
  { wp_step. exists l. rewrite Nat.add_0_r. split; [done|]. destruct x; cbn in *; by subst. }
  destruct (lookup_lt_is_Some_2 (jchild arr) i ltac:(lia)) as [js Ejs]. rewrite array_item_at, Ejs.
  rewrite (drop_S _ js) in Hc by done. cbn [firstn] in Hc. apply Forall_cons in Hc as [Hjs Hc]. apply stream_readable in Hjs as (sid & p & Er & Hin).
  destruct (told_known _ sid p _ _ Ht Hin) as [l2 El]. wp_step. unfold receive_stream. cbn [option_bind]. rewrite Er. wp_step. apply wp_get.
  rewrite Hx. cbn [streams update]. rewrite El. apply wp_modify. replace (Z.of_nat i + 1) with (Z.of_nat (S i)) by lia.
  eapply wp_mono; [apply (IH (S i) _ l2); [lia|done| |]|].
  - rewrite (take_S_r _ _ js) by done. by eapply told_step.
  - cbn. by rewrite Hx.
  - intros _ x' (l' & Hl' & ->). exists l'. replace (i + S k)%nat with (S i + k)%nat by lia. split; [done|]. by destruct x.
Qed.

(** The test after the message; the flag of the retransmissions belongs to the
    direction in which this side receives. *)
Definition results_told (j : cJSON) (t t' : iperf_test) : Prop :=
  (exists total user system, tells_double j "cpu_util_total" total /\ tells_double j "cpu_util_user" user /\ tells_double j "cpu_util_system" system /\
    remote_cpu_util t' = (total, user, system)) /\
  (exists r, tells j "sender_has_retransmits" r /\
    sender_has_retransmits t' = (if decide (mode t = RECEIVER) then s32 r else sender_has_retransmits t) /\
    other_side_has_retransmits t' =
      (if decide (mode t = RECEIVER) then 0 else if decide (mode t = BIDIRECTIONAL) then s32 r else other_side_has_retransmits t)) /\
  exists arr, array_at "streams" j arr /\ told (firstn (Z.to_nat (s32 (zlen (jchild arr)))) (jchild arr)) (streams t) (streams t').

Section Taken.
Context (alloc : nat -> bool).

Lemma take_output_test j i : has_texts j = true -> wp (take_output alloc j) (fun j' i' => has_texts j' = true /\ x_test (in_exchange i') = x_test (in_exchange i)) i.
Proof.
  intros Ht. unfold take_output. wp_step. apply wp_on_exchange, wp_gets. destruct (negb _); [by wp_step|].
  destruct (cJSON_DetachItemFromObject j (key "server_output_json")) as [[output|] rest] eqn:E.
  - wp_step. apply wp_modify. wp_step. split; [by eapply detached_texts|done].
  - destruct (member j "server_output_text" cJSON_String) as [output|] eqn:Em; [|by wp_step].
    wp_step. apply wp_on_exchange. apply exchange_strdup_spec; [by apply (member_text j "server_output_text")|].
    intros s. wp_step. apply wp_modify. by wp_step.
Qed.

Lemma stored_told total user system v t : let t' := store_retransmits v (store_usage total user system t) in
  remote_cpu_util t' = (jvaluedouble total, jvaluedouble user, jvaluedouble system) /\ streams t' = streams t /\
  sender_has_retransmits t' = (if decide (mode t = RECEIVER) then v else sender_has_retransmits t) /\
  other_side_has_retransmits t' = (if decide (mode t = RECEIVER) then 0 else if decide (mode t = BIDIRECTIONAL) then v else other_side_has_retransmits t).
Proof.
  intros t'. unfold t', store_retransmits, store_usage. cbn. destruct (decide (mode t = RECEIVER)) as [->|H1]; [by split_and!|].
  rewrite (proj2 (Z.eqb_neq _ _) H1). destruct (decide (mode t = BIDIRECTIONAL)) as [->|H2]; [by split_and!|].
  by rewrite (proj2 (Z.eqb_neq _ _) H2).
Qed.

Lemma take_results_told j i : has_texts j = true -> complete (id <$> streams (x_test (in_exchange i))) j ->
  wp (take_results alloc j) (fun j' i' => has_texts j' = true /\ results_told j (x_test (in_exchange i)) (x_test (in_exchange i'))) i.
Proof.
  intros Ht [Hn (arr & Harr & Hc)]. rewrite !Forall_cons, !has_member in Hn. destruct Hn as ([total E1] & [user E2] & [system E3] & [r E4] & _).
  unfold take_results. rewrite E1, E2, E3, E4. apply member_tells in E1, E2, E3, E4. rewrite (proj2 (member_array_at _ _ _) Harr).
  wp_step. apply wp_on_exchange, wp_modify. wp_step. apply wp_on_exchange, wp_modify.
  destruct (stored_told total user system (s32 (jvalueint r)) (x_test (in_exchange i))) as (Hu & Hs & Ha & Hb).
  set (t1 := store_retransmits _ (store_usage _ _ _ (x_test (in_exchange i)))) in *. set (i1 := i <| in_exchange := (in_exchange i) <| x_test := t1 |> |>).
  match goal with |- wp _ _ ?s => change s with i1 end. clearbody t1.
  wp_step. apply wp_on_exchange. eapply wp_mono; [apply (receive_streams_told t1 arr _ 0 (in_exchange i1) (streams t1)); [apply array_size_le| |apply told_refl|]|].
  - by rewrite drop_0, Hs.
  - unfold i1. cbn. by destruct t1.
  - cbn beta. intros _ x2 (l' & Hl' & ->). eapply wp_mono; [by apply take_output_test|]. intros j' i3 [Ht3 E]. split; [done|]. rewrite E. cbn.
    split_and!; [|exists (jvalueint r)|exists arr].
    + exists (jvaluedouble total), (jvaluedouble user), (jvaluedouble system). cbn. split_and!; [apply E1|apply E2|apply E3|done].
    + split_and!; [apply E4|exact Ha|exact Hb].
    + split; [done|]. rewrite <- Hs. exact Hl'.
Qed.

(** C33: complete results are taken over as they were told.  Afterwards the
    peer's processor use and its flag of retransmissions are the ones in the
    message, and every stream that is the first of its number has the values of
    the last object about it, each under its name: a sender the receiver's
    jitter, errors, datagrams, bytes and time, a receiver the sender's
    datagrams, bytes, retransmissions and time.  The other streams stay as
    they were. *)
Theorem results_taken j i (Ht : has_texts j = true) (Hc : complete (id <$> streams (x_test (in_exchange i))) j) :
  wp (apply_results alloc j) (fun _ i' => results_told j (x_test (in_exchange i)) (x_test (in_exchange i'))) i.
Proof.
  unfold apply_results. wp_step. eapply wp_mono; [by apply take_results_told|]. intros j' i1 [Ht1 H1].
  destruct (member j' "congestion_used" cJSON_String) as [used|] eqn:E; [|by wp_step].
  wp_step. apply wp_on_exchange. apply exchange_strdup_spec; [by apply (member_text j' "congestion_used")|].
  intros s. by apply wp_on_exchange, wp_modify.
Qed.
End Taken.

(** ** Reading the results of the peer *)

Lemma items_nodes_texts (val : list Z -> cJSON -> Prop) object e js : (forall e j, val e j -> has_texts j = true) ->
  items_nodes val object e js -> forallb has_texts js = true.
Proof.
  intros Hv H. assert (forall e j, item_node val object e j -> has_texts j = true) as Hi.
  { intros e' j' []; [by eapply Hv|]. match goal with H : val _ ?j |- _ => apply Hv in H; by destruct j end. }
  induction H as [e j Hj|e j es js Hj _ IH]; cbn [forallb]; by rewrite (Hi _ _ Hj).
Qed.

Lemma tree_texts h : forall e j, tree h e j -> has_texts j = true.
Proof.
  assert (forall e j, token_node e j -> has_texts j = true) as Htok.
  { by intros e j [(vs & _ & ->)|[(_ & ->)|[(_ & ->)|[(_ & ->)|(_ & ->)]]]]. }
  induction h as [|h IH]; intros e j [H|H]; [by eapply Htok|done|by eapply Htok|].
  destruct H as (object & [(_ & ->)|(es & js & Hi & _ & ->)]); [by destruct object|].
  cbn [has_texts]. rewrite (items_nodes_texts (tree h) object es js IH Hi). by destruct object.
Qed.

Lemma wp_on_incoming {A} (m : IM A) Q s : wp m (fun a i => Q a (s <| sd_incoming := i |>)) (sd_incoming s) -> wp (on_incoming m) Q s.
Proof. unfold wp, on_incoming, on_part. by destruct (m (sd_incoming s)) as [[a x] | |]. Qed.

Lemma read_results_texts env t s : 0 <= server_output_byte_limit t -> 0 <= flags (sd_conn s) ->
  wp (read_results env t) (fun r s' => (forall j, r = Some j -> has_texts j = true) /\ sd_incoming s' = sd_incoming s) s.
Proof.
  intros Hl Hf. unfold read_results. destruct (Z.eqb_spec (server_output_byte_limit t) 0) as [E|Hn]; cbn [negb].
  - unfold wp, on_channel, on_part. pose proof (json_read_texts (e_os env) (e_calloc env) (e_parse env) 0 (sd_channel s)) as H. unfold wp in H.
    by destruct (JSON_read _ _ _ _ _) as [[r c] | |].
  - unfold wp, read_bounded.
    destruct (read_socket_spec (e_core env) (e_items env) (e_parse env) (e_fd env) (server_output_byte_limit t) IPERF_RESULT_READ_TIMEOUT_MS true
      (e_clock env) (e_getfl env) (e_setfl env) (e_resetfl env) (sd_conn s) Hl Hf) as (ro & E & H & _).
    change (Scanner.iperf_clear_server_output (received_server_output (sd_budget s))) with Scanner.empty_output.
    change no_metrics with BoundedReader.zero_metrics at 1. rewrite E. split; [|done].
    intros j Hj. unfold frame_outcome in H. rewrite Hj in H. destruct H as (len & c1 & _ & _ & ms & o & m & o' & _ & G2 & _). by eapply tree_texts.
Qed.

(** C31: whatever bytes a peer sends as its results, in either mode and however
    the system delivers them, [get_results] returns 0 or -1, and only the
    counters of the other direction, the peer's processor use, retransmission
    flags and congestion control change: a sender keeps what it counted as
    sent, a receiver what it counted as received. *)
Theorem get_results_confined env s (Hl : 0 <= server_output_byte_limit (side_test s)) (Hf : 0 <= flags (sd_conn s)) :
  exists r s', get_results env s = Ret (r, s') /\ (r = 0 \/ r = -1) /\ test_confined (side_test s) (side_test s').
Proof.
  assert (wp (get_results env) (fun r s' => (r = 0 \/ r = -1) /\ test_confined (side_test s) (side_test s')) s) as H.
  { unfold get_results. wp_step. apply wp_get. wp_step. apply wp_on_incoming, wp_on_exchange, wp_modify. wp_step.
    eapply wp_mono; [by apply read_results_texts|]. intros [j|] s1 [Hj E1].
    - wp_step. apply wp_on_incoming. rewrite E1.
      eapply wp_mono; [apply (apply_results_spec (e_alloc env) j); by apply Hj|].
      intros _ i' [Hc Hv]. apply wp_on_incoming, wp_on_exchange, wp_gets. split; [|exact Hc]. cbn.
      destruct Hv as [(_ & -> & _)|(_ & -> & _)]; [by left|by right].
    - unfold side_error. wp_step. apply wp_on_incoming, wp_on_exchange, wp_modify. wp_step. split; [by right|].
      unfold side_test. cbn. rewrite E1. apply test_confined_refl. }
  destruct (wp_returns _ _ _ H) as (r & s' & E & Hr). eauto.
Qed.

(** ** Examples *)

Definition sample_number (name : string) (n : Z) : cJSON := set_jstring (Some (key name)) (number_node (D_of_Z n)).
Definition sample_object (c : list cJSON) : cJSON := Node cJSON_Object c None 0 D_zero None.

Definition sample_results : cJSON := sample_object
  [sample_number "cpu_util_total" 3; sample_number "cpu_util_user" 2; sample_number "cpu_util_system" 1; sample_number "sender_has_retransmits" 1;
   Node cJSON_Array [sample_object [sample_number "id" 1; sample_number "bytes" 4096; sample_number "retransmits" (-1); sample_number "jitter" 0;
     sample_number "errors" 2; sample_number "packets" 40]] None 0 D_zero (Some (key "streams"))].

Definition sample_result : iperf_stream_result := zero_result <| bytes_sent := 5000 |>.
Definition sample_stream : iperf_stream := zero_stream <| id := 1 |> <| sender := true |> <| result := sample_result |> <| packet_count := 42 |>.
Definition sample_incoming : incoming :=
  mk_incoming (mk_exchange (iperf_new_test <| mode := SENDER |> <| streams := [sample_stream] |>) 0 0 0 None) None None.

Lemma sample_complete : complete [1] sample_results.
Proof.
  split; [rewrite !Forall_cons, !has_member; split_and!; try apply Forall_nil_2; vm_compute; by eexists|].
  eexists. split; [apply member_array_at; vm_compute; reflexivity|]. apply Forall_cons. split; [|apply Forall_nil_2].
  apply stream_readable. eexists 1, _. split; [vm_compute; reflexivity|by left].
Qed.

Lemma results_taken_witness :
  wp (apply_results (fun _ => true) sample_results) (fun _ i' => results_told sample_results (x_test (in_exchange sample_incoming)) (x_test (in_exchange i'))) sample_incoming.
Proof. apply (results_taken (fun _ => true) sample_results sample_incoming); [by vm_compute|exact sample_complete]. Defined.

Lemma results_accepted_witness :
  wp (apply_results (fun _ => true) sample_results) (fun _ i' => let x' := in_exchange i' in
    x_r x' = 0 /\ complete (id <$> streams (x_test (in_exchange sample_incoming))) sample_results /\ x_errno x' = x_errno (in_exchange sample_incoming) \/
    x_r x' = -1 /\ ~ complete (id <$> streams (x_test (in_exchange sample_incoming))) sample_results /\ (x_errno x' = IERECVRESULTS \/ x_errno x' = IESTREAMID)) sample_incoming.
Proof. by apply (results_accepted (fun _ => true) sample_results sample_incoming). Defined.

(** The message is taken over: the sender learns what arrived and keeps what it sent. *)
Example sample_taken : exists i', apply_results (fun _ => true) sample_results sample_incoming = Ret (tt, i') /\ x_r (in_exchange i') = 0 /\
  (fun sp => (bytes_sent (result sp), bytes_received (result sp), packet_count sp, peer_packet_count sp, cnt_error sp)) <$> streams (x_test (in_exchange i')) =
    [(5000, 4096, 42, 40, 2)].
Proof. eexists. split; [vm_compute; reflexivity|]. by vm_compute. Qed.

(** A peer whose header promises more than arrives. *)
Definition sample_side : side := mk_side (mk_channel [0; 0; 1; 0; c_lbrace] [] 0) (mk_conn [] [] 0 [] [] 0)
  (mk_budget Scanner.empty_output Scanner.empty_output no_metrics false 0 0 false false false None None 0) sample_incoming false [].
Definition sample_environment : environment := mk_environment interrupted (fun _ => true) true true (fun _ => true) true [] true 3 (at_ms 0) None None None.

Lemma get_results_confined_witness :
  exists r s', get_results sample_environment sample_side = Ret (r, s') /\ (r = 0 \/ r = -1) /\ test_confined (side_test sample_side) (side_test s').
Proof. by apply (get_results_confined sample_environment sample_side). Defined.
