(* ===== verification/ResultsTrip.v ===== *)
(** * Each side learns what the other counted

    What [send_results] writes and [get_results] reads agree: after the exchange
    the sender of a stream has the receiver's counters and the receiver the
    sender's, on both sides. *)

From Stdlib Require Import String.
From S2P Require Import Prelude Bytes Time Double JsonGrammar NumberText CJson CJsonTree CJsonTreeSpec CJsonPrint CJsonPrintSpec CJsonSpec CJsonRoundTrip CJsonSafety IperfTest ControlChannel ControlChannelSpec BoundedOutput BoundedSocket Params ParamsSpec Message Udp OutputBudget Results ResultsSpec.
Local Open Scope c_scope.

(** ** The message *)

Definition double_field (name : string) (d : double) : field := (name, Some (va_double d)).
Definition int_field (name : string) (n : Z) : field := (name, int_if true n).

Definition usage_fields (t : iperf_test) : list field :=
  let '(total, user, system) := cpu_util t in
  [double_field "cpu_util_total" total; double_field "cpu_util_user" user; double_field "cpu_util_system" system;
   int_field "sender_has_retransmits" (if mode t =? RECEIVER then -1 else sender_has_retransmits t);
   ("congestion_used"%string, text_if (congestion_used t))].

(** The server's text, when the client asked for it. *)
Definition output_text (t : iperf_test) (lines : list text) : option text :=
  if (role t =? role_server) && negb (get_server_output t =? 0) then Some (concat lines) else None.

Definition result_fields (t : iperf_test) (lines : list text) : list field :=
  usage_fields t ++ [("server_output_text"%string, text_if (output_text t lines))].

Definition stream_fields (t : iperf_test) (sp : iperf_stream) : list field :=
  [int_field "id" (id sp); int_field "bytes" (sent_bytes sp); int_field "retransmits" (sent_stream_retransmits t sp);
   double_field "jitter" (jitter sp); int_field "errors" (cnt_error sp); int_field "omitted_errors" (omitted_cnt_error sp);
   int_field "packets" (packet_count sp); int_field "omitted_packets" (omitted_packet_count sp);
   double_field "start_time" (seconds_between (start_time (result sp)) (start_time (result sp)));
   double_field "end_time" (seconds_between (start_time (result sp)) (end_time (result sp)))].

Definition streams_member (t : iperf_test) : cJSON :=
  Node cJSON_Array ((fun sp => message (stream_fields t sp)) <$> streams t) None 0 D_zero (Some (key "streams")).

Definition results_message (t : iperf_test) (lines : list text) : cJSON :=
  Node cJSON_Object (members (present (result_fields t lines)) ++ [streams_member t]) None 0 D_zero None.

(** ** Building it *)

Section Building.
Context (alloc : nat -> bool) (Halloc : forall n, alloc n = true) (has_reallocate : bool).

Lemma never_fails n n' : no_failure alloc n n'.
Proof. intros k _. apply Halloc. Qed.

Lemma builds_double name d : cstr (key name) = key name -> builds alloc (add_double alloc name d) [double_field name d].
Proof. intros Hk. apply builds_adding; [|done]. intros m. apply create_spec. Qed.

Lemma builds_int name n : cstr (key name) = key name -> builds alloc (add_number alloc name n) [int_field name n].
Proof. apply builds_number. Qed.

Ltac build_member := first [apply builds_double; reflexivity|apply builds_int; reflexivity|build_step].
Ltac build_members :=
  repeat match goal with
  | |- builds _ _ (?f :: ?g :: ?fs) => apply (builds_seq _ _ _ [f] (g :: fs)); [build_member|]
  end; build_member.

Lemma builds_usage t : builds alloc (sent_usage alloc t) (usage_fields t).
Proof. unfold sent_usage, usage_fields. destruct (cpu_util t) as [[total user] system]. build_members. Qed.

Lemma builds_counters t sp : builds alloc (sent_counters alloc t sp) (stream_fields t sp).
Proof. unfold sent_counters, stream_fields. build_members. Qed.

Lemma join_lines_all lines : forall out, join_lines lines (lines_length lines) out = out ++ concat lines.
Proof.
  assert (forall l, 0 <= lines_length l) as Hpos by (induction l as [|x l IH]; cbn; [lia|pose proof (zlen_nonneg x); unfold lines_length in IH; lia]).
  induction lines as [|line lines IH]; intros out; cbn [join_lines concat]; [by rewrite app_nil_r|].
  change (lines_length (line :: lines)) with (zlen line + lines_length lines). rewrite take_ge by (pose proof (Hpos lines); unfold zlen; lia).
  replace (zlen line + lines_length lines - zlen line) with (lines_length lines) by lia. by rewrite IH, app_assoc.
Qed.

Lemma builds_lines lines : builds alloc (sent_lines alloc lines) [("server_output_text"%string, text_if (Some (concat lines)))].
Proof.
  intros j n. unfold sent_lines. wp_step. unfold wp at 1, allocate. rewrite Halloc.
  eapply wp_mono; [apply (builds_string alloc "server_output_text"); reflexivity|]. rewrite join_lines_all.
  intros j' n' [Hn H]. split; [lia|]. intros _. apply H, never_fails.
Qed.

Lemma builds_runs m fs : builds alloc m fs -> forall j b,
  wp (with_alloc (m j)) (fun j' b' => j' = set_jchild (jchild j ++ members (present fs)) j /\ exists n, b' = b <| b_nalloc := n |>) b.
Proof.
  intros Hm j b. unfold wp, with_alloc. specialize (Hm j (b_nalloc b)). unfold wp in Hm. destruct (m j (b_nalloc b)) as [[j' n'] | |]; [|done..].
  destruct Hm as [_ Hm]. split; [apply Hm, never_fails|by exists n'].
Qed.

Lemma created f n : wp (create alloc f) (fun r _ => r = Some (f new_item)) n.
Proof.
  eapply wp_mono; [apply create_spec|]. intros [x|] n' H; [by destruct H as [_ ->]|]. apply allocated_none_failure in H. by destruct H; apply never_fails.
Qed.

Lemma stream_objects_spec t sps n : wp (stream_objects alloc t sps) (fun r _ => r = (true, (fun sp => message (stream_fields t sp)) <$> sps)) n.
Proof.
  revert n. induction sps as [|sp sps IH]; intros n; cbn [stream_objects]; [by wp_step|]. wp_step. eapply wp_mono; [apply created|]. intros r n1 ->.
  wp_step. eapply wp_mono; [apply builds_counters|]. intros j n2 [_ Hj]. rewrite (Hj (never_fails _ _)).
  wp_step. eapply wp_mono; [apply IH|]. intros r n3 ->. by wp_step.
Qed.

Lemma fill_last_member l x c t v i d s : fill_last l (Node t (c ++ [x]) v i d s) = Node t (c ++ [set_jchild l x]) v i d s.
Proof. unfold fill_last. cbn [jchild]. rewrite last_snoc, removelast_last. done. Qed.

Lemma sent_streams_spec t c n : wp (sent_streams alloc t (Node cJSON_Object c None 0 D_zero None))
  (fun r _ => r = (true, Node cJSON_Object (c ++ [streams_member t]) None 0 D_zero None)) n.
Proof.
  unfold sent_streams. wp_step. eapply wp_mono; [apply created|]. intros r n1 ->. wp_step.
  eapply wp_mono; [apply add_item_to_object_spec|]. intros [o|] n2 H.
  2:{ apply allocated_none_failure in H. by destruct H; apply never_fails. }
  destruct H as [_ ->]. wp_step. eapply wp_mono; [apply stream_objects_spec|]. intros r n3 ->. wp_step. cbn [fst snd].
  unfold with_member. cbn [set_jchild jchild]. by rewrite fill_last_member.
Qed.

Lemma wp_with_alloc {A} (m : AM A) Q b : wp m (fun a n => Q a (b <| b_nalloc := n |>)) (b_nalloc b) -> wp (with_alloc m) Q b.
Proof. unfold wp, with_alloc. by destruct (m (b_nalloc b)) as [[a n] | |]. Qed.

Lemma sent_output_spec t lines j b : server_output_byte_limit t = 0 -> wp (sent_output alloc has_reallocate t false lines j)
  (fun r b' => r = (true, set_jchild (jchild j ++ members (present [("server_output_text"%string, text_if (output_text t lines))])) j) /\
    exists n, b' = b <| b_nalloc := n |>) b.
Proof.
  intros El. unfold sent_output, output_text. rewrite El. cbn [negb Z.eqb].
  destruct ((role t =? role_server) && negb (get_server_output t =? 0)); cbn [negb].
  - wp_step. eapply wp_mono; [apply builds_runs, builds_lines|]. intros j' b' [-> Hb]. by wp_step.
  - wp_step. cbn. rewrite app_nil_r, set_jchild_same. split; [done|]. exists (b_nalloc b). by destruct b.
Qed.

Lemma results_json_spec t lines b : server_output_byte_limit t = 0 ->
  wp (results_json alloc has_reallocate t false lines) (fun r b' => r = Some (results_message t lines) /\ exists n, b' = b <| b_nalloc := n |>) b.
Proof.
  intros El. unfold results_json. wp_step. apply wp_with_alloc. eapply wp_mono; [apply created|]. intros r n1 ->.
  wp_step. eapply wp_mono; [apply builds_runs, builds_usage|]. intros j b2 [-> (n2 & ->)].
  wp_step. eapply wp_mono; [by apply sent_output_spec|]. intros o b3 [-> (n3 & ->)].
  wp_step. apply wp_with_alloc. cbn [fst snd].
  match goal with |- context [sent_streams alloc t ?j] => assert (j = Node cJSON_Object (members (present (result_fields t lines))) None 0 D_zero None) as -> end.
  { unfold result_fields. rewrite present_app, members_app. cbn [set_jtype new_item set_jchild jchild]. by rewrite app_nil_l. }
  eapply wp_mono; [apply sent_streams_spec|].
  intros r n4 ->. wp_step. cbn [fst snd andb]. split; [done|]. by exists n4.
Qed.
End Building.

(** ** What the reader finds *)

Definition received_streams (t : iperf_test) : cJSON :=
  Node cJSON_Array ((fun sp => received_message (stream_fields t sp)) <$> streams t) None 0 D_zero (Some (key "streams")).

Definition received_results (t : iperf_test) (lines : list text) : cJSON :=
  Node cJSON_Object ((received <$> present (result_fields t lines)) ++ [received_streams t]) None 0 D_zero None.

Lemma reread_object c : reread (Node cJSON_Object c None 0 D_zero None) =
  Node cJSON_Object ((fun x => set_jstring (Some (default [] (jstring x))) (reread x)) <$> c) None 0 D_zero None.
Proof. reflexivity. Qed.

Lemma reread_array c s : reread (Node cJSON_Array c None 0 D_zero s) = Node cJSON_Array (reread <$> c) None 0 D_zero None.
Proof. reflexivity. Qed.

Lemma reread_results t lines : reread (results_message t lines) = received_results t lines.
Proof.
  unfold results_message, received_results. pose proof (reread_message (result_fields t lines)) as E. unfold message, received_message in E.
  rewrite reread_object in *. injection E as E. rewrite fmap_app, E. do 2 f_equal.
  unfold streams_member, received_streams. cbn [fmap list_fmap jstring]. rewrite reread_array. cbn [set_jstring default from_option id].
  assert (reread <$> ((fun sp => message (stream_fields t sp)) <$> streams t) = (fun sp => received_message (stream_fields t sp)) <$> streams t) as ->; [|done].
  rewrite <- list_fmap_compose. apply list_fmap_ext. intros k sp _. apply reread_message.
Qed.

Lemma get_object_item_snoc l x t v i d s n :
  cJSON_GetObjectItem (Some (Node t (l ++ [x]) v i d s)) (Some n) =
  match cJSON_GetObjectItem (Some (Node t l v i d s)) (Some n) with
  | Some y => Some y
  | None => if case_insensitive_equal n (jstring x) then Some x else None
  end.
Proof.
  induction l as [|y l IH]; cbn [app]; rewrite get_object_item_cons; [done|]. rewrite get_object_item_cons. by destruct (case_insensitive_equal n (jstring y)).
Qed.

(** The numbers of a stream are exact as doubles, its times and jitter printed as numbers. *)
Record countable (t : iperf_test) (sp : iperf_stream) : Prop := {
  co_id : int_ok (id sp);
  co_bytes : 0 <= sent_bytes sp;
  co_ints : Forall (fun n => Z.abs n < 2 ^ 53) [sent_bytes sp; cnt_error sp; omitted_cnt_error sp; packet_count sp; omitted_packet_count sp];
  co_doubles : Forall double_fits [jitter sp; seconds_between (start_time (result sp)) (start_time (result sp));
    seconds_between (start_time (result sp)) (end_time (result sp))] }.

(** What the other side reads about a stream. *)
Definition reported_stream (t : iperf_test) (sp : iperf_stream) : peer_stream :=
  mk_peer_stream (sent_bytes sp) (sent_stream_retransmits t sp) (reread_double (jitter sp)) (cnt_error sp) (packet_count sp)
    (Some (omitted_cnt_error sp, omitted_packet_count sp))
    (Some (reread_double (seconds_between (start_time (result sp)) (start_time (result sp))),
           reread_double (seconds_between (start_time (result sp)) (end_time (result sp))))).

Lemma retransmits_int t sp : int_ok (sent_stream_retransmits t sp).
Proof. unfold sent_stream_retransmits. apply (wraps_range 32). lia. Qed.

Lemma stream_fields_distinct t sp : distinct (stream_fields t sp).*1 = true.
Proof. by vm_compute. Qed.

Lemma read_stream_received t sp : countable t sp -> read_stream (received_message (stream_fields t sp)) = Some (id sp, reported_stream t sp).
Proof.
  intros [Hi _ Hn Hd]. rewrite !Forall_cons in *. destruct Hn as (N1 & N2 & N3 & N4 & N5 & _). destruct Hd as ([D1 _] & [D2 _] & [D3 _] & _).
  pose proof (stream_fields_distinct t sp) as Hdis. pose proof (retransmits_int t sp) as Hr. unfold int_ok in Hi, Hr.
  set (fs := stream_fields t sp) in *. unfold read_stream.
  destruct (member_number fs Hdis "id" (id sp)) as (p1 & -> & V1); [by left|done|lia|].
  destruct (member_number fs Hdis "bytes" (sent_bytes sp)) as (p2 & -> & V2); [by right; left|done|lia|].
  destruct (member_number fs Hdis "retransmits" (sent_stream_retransmits t sp)) as (p3 & -> & V3); [by do 2 right; left|done|lia|].
  destruct (member_double fs Hdis "jitter" (jitter sp)) as (p4 & -> & V4); [by do 3 right; left|done|done|].
  destruct (member_number fs Hdis "errors" (cnt_error sp)) as (p5 & -> & V5); [by do 4 right; left|done|lia|].
  destruct (member_number fs Hdis "packets" (packet_count sp)) as (p6 & -> & V6); [by do 6 right; left|done|lia|].
  destruct (member_double fs Hdis "start_time" (seconds_between (start_time (result sp)) (start_time (result sp)))) as (p7 & -> & V7); [by do 8 right; left|done|done|].
  destruct (member_double fs Hdis "end_time" (seconds_between (start_time (result sp)) (end_time (result sp)))) as (p8 & -> & V8); [by do 9 right; left|done|done|].
  destruct (member_number fs Hdis "omitted_errors" (omitted_cnt_error sp)) as (p9 & -> & V9); [by do 5 right; left|done|lia|].
  destruct (member_number fs Hdis "omitted_packets" (omitted_packet_count sp)) as (p10 & -> & V10); [by do 7 right; left|done|lia|].
  rewrite V1, V2, V3, V4, V5, V6, V7, V8, V9, V10, !wraps_small by lia. done.
Qed.

(** ** All the streams *)

Definition about (ps : list (Z * peer_stream)) (sp : iperf_stream) : iperf_stream :=
  match find (fun p => p.1 =? id sp) ps with Some p => take_stream p.2 sp | None => sp end.

Lemma take_stream_id p sp : id (take_stream p sp) = id sp.
Proof. pose proof (take_stream_confined p sp) as E. unfold stream_confined in E. rewrite E. by destruct (sender sp). Qed.

Lemma on_stream_unique sid p l : NoDup (id <$> l) -> sid ∈ id <$> l -> on_stream sid (take_stream p) l = Some (about [(sid, p)] <$> l).
Proof.
  induction l as [|sp l IH]; intros Hnd Hin; [by apply elem_of_nil in Hin|]. cbn [on_stream fmap list_fmap] in *. apply NoDup_cons in Hnd as [Hn Hnd].
  unfold about at 1. cbn [find fst]. rewrite (Z.eqb_sym sid). destruct (Z.eqb_spec (id sp) sid) as [E|E].
  - do 2 f_equal. symmetry. rewrite <- (list_fmap_id l) at 2. apply list_fmap_ext. intros k sp' Hk. unfold about. cbn [find fst].
    destruct (Z.eqb_spec sid (id sp')); [|done]. exfalso. apply Hn. rewrite E. subst sid. apply list_elem_of_fmap. exists sp'. split; [done|]. by eapply list_elem_of_lookup_2.
  - apply elem_of_cons in Hin as [?|Hin]; [congruence|]. by rewrite IH.
Qed.

Lemma about_cons sid p ps sp : sid ∉ ps.*1 -> about ps (about [(sid, p)] sp) = about ((sid, p) :: ps) sp.
Proof.
  intros Hn. unfold about at 2. cbn [find fst]. unfold about at 2. cbn [find fst]. destruct (Z.eqb_spec sid (id sp)) as [E|E]; [|done].
  unfold about. rewrite take_stream_id. destruct (find _ ps) as [p'|] eqn:F; [|done]. apply find_some in F as [Hin F%Z.eqb_eq].
  exfalso. apply Hn. rewrite E, <- F. apply list_elem_of_fmap. exists p'. split; [done|]. by apply list_elem_of_In.
Qed.

Lemma about_id ps sp : id (about ps sp) = id sp.
Proof. unfold about. destruct (find _ ps); [apply take_stream_id|done]. Qed.

Lemma about_ids ps (l : list iperf_stream) : id <$> (about ps <$> l) = id <$> l.
Proof. rewrite <- list_fmap_compose. apply list_fmap_ext. intros k sp _. apply about_id. Qed.

Lemma receive_streams_received t arr k : forall i x sps, drop i (jchild arr) = (fun sp => received_message (stream_fields t sp)) <$> sps -> k = length sps ->
  Forall (countable t) sps -> NoDup (id <$> sps) -> NoDup (id <$> streams (x_test x)) -> (forall sp, sp ∈ sps -> id sp ∈ id <$> streams (x_test x)) ->
  wp (receive_streams k (Z.of_nat i) arr) (fun _ x' => x' = x <| x_test := (x_test x) <| streams := about ((fun sp => (id sp, reported_stream t sp)) <$> sps) <$> streams (x_test x) |> |>) x.
Proof.
  induction k as [|k IH]; intros i x sps Hs Hk Hc Hnd Hx Hin; (destruct sps as [|sp sps]; [|]); try done; cbn [receive_streams].
  { wp_step. cbn [fmap list_fmap]. unfold about. cbn [find]. rewrite list_fmap_id. destruct x as [[] ? ? ? ?]. done. }
  assert (jchild arr !! i = Some (received_message (stream_fields t sp))) as Ei.
  { rewrite <- (Nat.add_0_r i), <- lookup_drop, Hs. done. }
  assert (cJSON_GetArrayItem (Some arr) (Z.of_nat i) = Some (received_message (stream_fields t sp))) as ->.
  { unfold cJSON_GetArrayItem, get_array_item. rewrite (proj2 (Z.ltb_ge _ 0)) by lia. by rewrite Nat2Z.id. }
  rewrite fmap_cons in Hnd. apply NoDup_cons in Hnd as [Hn Hnd]. apply Forall_cons in Hc as [Hc1 Hc].
  wp_step. unfold receive_stream. cbn [option_bind]. rewrite read_stream_received by done. wp_step. apply wp_get.
  rewrite on_stream_unique by (try done; apply Hin; by left). apply wp_modify. cbv beta. replace (Z.of_nat i + 1) with (Z.of_nat (S i)) by lia.
  match goal with |- wp _ _ ?s => set (x1 := s) end. eapply wp_mono; [apply (IH (S i) x1 sps)|].
  - rewrite fmap_cons in Hs. rewrite <- (Nat.add_1_r i), <- drop_drop, Hs. done.
  - cbn in Hk. lia.
  - done.
  - done.
  - unfold x1. cbn. by rewrite about_ids.
  - intros sp' Hsp'. unfold x1. cbn. rewrite about_ids. apply Hin. by right.
  - intros _ x' ->. set (ps := _ <$> sps).
    assert (about ps <$> streams (x_test x1) = about ((fun sp => (id sp, reported_stream t sp)) <$> sp :: sps) <$> streams (x_test x)) as ->; [|by destruct x as [[] ? ? ? ?]].
    rewrite fmap_cons. fold ps. unfold x1. cbn [x_test update streams].
    rewrite <- list_fmap_compose. apply list_fmap_ext. intros m sp' _. unfold compose. apply about_cons.
    intros (q & E & Hq)%list_elem_of_fmap. apply list_elem_of_fmap in Hq as (sp2 & -> & Hsp2). cbn in E. apply Hn. rewrite E. apply list_elem_of_fmap. by exists sp2.
Qed.

(** ** The test afterwards *)

(** What a side knows after it read the other side's results. *)
Definition learn_streams (from : iperf_test) (l : list iperf_stream) : list iperf_stream :=
  about ((fun sp => (id sp, reported_stream from sp)) <$> streams from) <$> l.

Definition learn_results (from to : iperf_test) : iperf_test :=
  let '(total, user, system) := cpu_util from in
  let t := to <| remote_cpu_util := (reread_double total, reread_double user, reread_double system) |> in
  let t := store_retransmits (if mode from =? RECEIVER then -1 else sender_has_retransmits from) t in
  let t := t <| streams := learn_streams from (streams t) |> in
  match congestion_used from with Some used => t <| remote_congestion_used := Some used |> | None => t end.

(** The results that arrive as they were sent. *)
Record reports (t : iperf_test) (lines : list text) : Prop := {
  re_usage : let '(total, user, system) := cpu_util t in Forall double_fits [total; user; system];
  re_retransmits : int_ok (sender_has_retransmits t);
  re_congestion : utf8_text (default [] (congestion_used t));
  re_output : utf8_text (default [] (output_text t lines));
  re_streams : Forall (countable t) (streams t);
  re_ids : NoDup (id <$> streams t);
  re_count : zlen (streams t) < 2 ^ 31 }.

Lemma item_absent l n t v i d s : cJSON_GetObjectItem (Some (Node t l v i d s)) (Some n) = None -> find_item false n l = None.
Proof.
  induction l as [|x l IH]; [done|]. rewrite get_object_item_cons. cbn [find_item]. destruct (case_insensitive_equal n (jstring x)); [done|].
  intros H. by rewrite IH.
Qed.

Lemma stored_retransmits r t : exists a b, store_retransmits r t = t <| sender_has_retransmits := a |> <| other_side_has_retransmits := b |>.
Proof.
  unfold store_retransmits. destruct (mode t =? RECEIVER); [by eexists _, _|]. destruct (mode t =? BIDIRECTIONAL); eexists (sender_has_retransmits t), _; [by destruct t|].
  by instantiate (1 := other_side_has_retransmits t); destruct t.
Qed.

Section Applying.
Context (alloc : nat -> bool) (Halloc : forall n, alloc n = true) (t : iperf_test) (lines : list text) (Ht : reports t lines).
#[local] Abbreviation fs := (result_fields t lines).
#[local] Abbreviation j := (received_results t lines).

Lemma result_fields_distinct : distinct fs.*1 = true.
Proof. unfold result_fields, usage_fields. by destruct (cpu_util t) as [[? ?] ?]. Qed.

Lemma item_received name : cJSON_GetObjectItem (Some j) (Some (key name)) =
  match cJSON_GetObjectItem (Some (received_message fs)) (Some (key name)) with
  | Some y => Some y
  | None => if strcaseeq (key name) (key "streams") then Some (received_streams t) else None
  end.
Proof. apply get_object_item_snoc. Qed.

Lemma member_received name expected p : member (received_message fs) name expected = Some p -> member j name expected = Some p.
Proof.
  unfold member, iperf_cJSON_GetObjectItemType. rewrite item_received. by destruct (cJSON_GetObjectItem (Some (received_message fs)) (Some (key name))).
Qed.

Lemma member_missing name expected : cJSON_GetObjectItem (Some (received_message fs)) (Some (key name)) = None ->
  strcaseeq (key name) (key "streams") = false -> member j name expected = None.
Proof. intros E1 E2. unfold member, iperf_cJSON_GetObjectItemType. by rewrite item_received, E1, E2. Qed.

Lemma result_names : fs.*1 = ["cpu_util_total"; "cpu_util_user"; "cpu_util_system"; "sender_has_retransmits"; "congestion_used"; "server_output_text"]%string.
Proof. unfold result_fields, usage_fields. by destruct (cpu_util t) as [[? ?] ?]. Qed.

Lemma named_result name : existsb (String.eqb name) ["cpu_util_total"; "cpu_util_user"; "cpu_util_system"; "sender_has_retransmits"; "congestion_used"; "server_output_text"]%string = true ->
  name ∈ fs.*1.
Proof. rewrite result_names. intros (n & Hin & E%String.eqb_eq)%existsb_exists. subst. by apply list_elem_of_In. Qed.

Lemma member_streams : member j "streams" cJSON_Array = Some (received_streams t).
Proof.
  unfold member, iperf_cJSON_GetObjectItemType. rewrite item_received, lookup_absent by (rewrite result_names; by vm_compute). by rewrite strcaseeq_refl.
Qed.

Lemma output_json_absent : cJSON_DetachItemFromObject j (key "server_output_json") = (None, j).
Proof.
  unfold cJSON_DetachItemFromObject. pose proof (item_received "server_output_json") as E.
  rewrite lookup_absent in E by (rewrite result_names; by vm_compute). change (strcaseeq (key "server_output_json") (key "streams")) with false in E.
  cbv iota in E. unfold received_results in E. apply item_absent in E. unfold received_results. cbn [jchild]. by rewrite E.
Qed.

(** A text of the message, if it is there. *)
Lemma member_text_received name s : name ∈ fs.*1 -> assoc name fs = text_if s -> strcaseeq (key name) (key "streams") = false ->
  match s with
  | Some s => exists p, member j name cJSON_String = Some p /\ jvaluestring p = Some (cstr s)
  | None => member j name cJSON_String = None
  end.
Proof.
  intros Hn E Hs. destruct s as [s|].
  - destruct (member_string fs result_fields_distinct name s Hn E) as (p & Hp & Hv). exists p. split; [by apply member_received|done].
  - apply member_missing; [|done]. rewrite lookup_received, E; [done|apply result_fields_distinct|done].
Qed.

Lemma assoc_congestion : assoc "congestion_used" fs = text_if (congestion_used t).
Proof. unfold result_fields, usage_fields. by destruct (cpu_util t) as [[? ?] ?]. Qed.

Lemma assoc_output : assoc "server_output_text" fs = text_if (output_text t lines).
Proof. unfold result_fields, usage_fields. by destruct (cpu_util t) as [[? ?] ?]. Qed.

(** The payload the client asked for. *)
Definition wants_output (to : iperf_test) : bool :=
  (server_output_byte_limit to =? 0) && (role to =? role_client) && negb (get_server_output to =? 0).

Definition learned_output (to : iperf_test) (old : option text) : option text :=
  if wants_output to then match output_text t lines with Some s => Some s | None => old end else old.

Lemma take_output_received i : wp (take_output alloc j) (fun j' i' => j' = j /\ x_test (in_exchange i') = x_test (in_exchange i) /\
  x_r (in_exchange i') = x_r (in_exchange i) /\ x_errno (in_exchange i') = x_errno (in_exchange i) /\
  json_server_output i' = json_server_output i /\ server_output_text i' = learned_output (x_test (in_exchange i)) (server_output_text i)) i.
Proof.
  unfold take_output. wp_step. apply wp_on_exchange, wp_gets. unfold learned_output, wants_output. destruct (_ && _ && _); cbn [negb]; [|by wp_step].
  rewrite output_json_absent. pose proof (member_text_received "server_output_text" (output_text t lines) (named_result "server_output_text" eq_refl) assoc_output eq_refl) as Hm.
  pose proof (re_output _ _ Ht) as Hu. destruct (output_text t lines) as [s|].
  - destruct Hm as (p & -> & Hv). wp_step. apply wp_on_exchange. unfold wp at 1, strdup. rewrite Hv, Halloc. wp_step. apply wp_modify. wp_step.
    cbn. rewrite cstr_idemp, utf8_cstr by done. by split_and!.
  - rewrite Hm. wp_step. destruct i. by split_and!.
Qed.

Lemma usage_received : let '(total, user, system) := cpu_util t in exists p1 p2 p3 p4,
  member j "cpu_util_total" cJSON_Number = Some p1 /\ jvaluedouble p1 = reread_double total /\
  member j "cpu_util_user" cJSON_Number = Some p2 /\ jvaluedouble p2 = reread_double user /\
  member j "cpu_util_system" cJSON_Number = Some p3 /\ jvaluedouble p3 = reread_double system /\
  member j "sender_has_retransmits" cJSON_Number = Some p4 /\ jvalueint p4 = (if mode t =? RECEIVER then -1 else sender_has_retransmits t).
Proof.
  pose proof (re_usage _ _ Ht) as Hu. pose proof (re_retransmits _ _ Ht) as Hr. unfold int_ok in Hr. pose proof result_fields_distinct as Hd.
  assert (forall name d, existsb (String.eqb name) fs.*1 = true -> assoc name fs = Some (va_double d) -> double_fits d ->
    exists p, member j name cJSON_Number = Some p /\ jvaluedouble p = reread_double d) as Hdouble.
  { intros name d Hn E [Hf _]. apply existsb_exists in Hn as (n & Hin & En%String.eqb_eq). subst n. apply list_elem_of_In in Hin.
    destruct (member_double fs Hd name d Hin E Hf) as (p & Hp & Hv). exists p. split; [by apply member_received|done]. }
  destruct (member_number fs Hd "sender_has_retransmits" (if mode t =? RECEIVER then -1 else sender_has_retransmits t)) as (p4 & H4 & V4).
  { by apply named_result. } { unfold result_fields, usage_fields. by destruct (cpu_util t) as [[? ?] ?]. } { destruct (mode t =? RECEIVER); lia. }
  apply member_received in H4. rewrite result_names in Hdouble. unfold result_fields, usage_fields in Hdouble. destruct (cpu_util t) as [[total user] system].
  rewrite !Forall_cons in Hu. destruct Hu as (U1 & U2 & U3 & _).
  destruct (Hdouble "cpu_util_total"%string total eq_refl eq_refl U1) as (p1 & H1 & V1).
  destruct (Hdouble "cpu_util_user"%string user eq_refl eq_refl U2) as (p2 & H2 & V2).
  destruct (Hdouble "cpu_util_system"%string system eq_refl eq_refl U3) as (p3 & H3 & V3).
  exists p1, p2, p3, p4. by split_and!.
Qed.

Lemma apply_results_received i : NoDup (id <$> streams (x_test (in_exchange i))) ->
  (forall sp, sp ∈ streams t -> id sp ∈ id <$> streams (x_test (in_exchange i))) ->
  wp (apply_results alloc j) (fun _ i' => x_test (in_exchange i') = learn_results t (x_test (in_exchange i)) /\
    x_r (in_exchange i') = x_r (in_exchange i) /\ x_errno (in_exchange i') = x_errno (in_exchange i) /\
    json_server_output i' = json_server_output i /\ server_output_text i' = learned_output (x_test (in_exchange i)) (server_output_text i)) i.
Proof.
  intros Hnd Hin. pose proof usage_received as Hu. unfold apply_results, take_results, learn_results. destruct (cpu_util t) as [[total user] system].
  destruct Hu as (p1 & p2 & p3 & p4 & -> & V1 & -> & V2 & -> & V3 & -> & V4). rewrite member_streams.
  wp_step. wp_step. apply wp_on_exchange, wp_modify. wp_step. apply wp_on_exchange, wp_modify. cbv beta. wp_step. apply wp_on_exchange.
  assert (Z.to_nat (cJSON_GetArraySize (Some (received_streams t))) = length (streams t)) as ->.
  { pose proof (re_count _ _ Ht) as Hc. cbn [cJSON_GetArraySize received_streams jchild]. unfold zlen in *. rewrite length_fmap. rewrite wraps_small by lia. lia. }
  match goal with |- wp _ _ ?x => set (x1 := x) end.
  eapply wp_mono; [apply (receive_streams_received t (received_streams t) (length (streams t)) 0 x1 (streams t)); [done|done|apply Ht|apply Ht|..]|].
  { unfold x1, store_retransmits, store_usage. cbn. by repeat case_match. }
  { intros sp Hsp. apply Hin in Hsp. unfold x1, store_retransmits, store_usage. cbn. by repeat case_match. }
  intros _ x2 ->. eapply wp_mono; [apply take_output_received|]. intros j' i2 (-> & T2 & R2 & E2 & J2 & O2).
  pose proof (member_text_received "congestion_used" (congestion_used t) (named_result "congestion_used" eq_refl) assoc_congestion eq_refl) as Hm.
  pose proof (re_congestion _ _ Ht) as Hu.
  assert (server_output_text i2 = learned_output (x_test (in_exchange i)) (server_output_text i)) as O3.
  { rewrite O2. unfold learned_output, wants_output. cbn [in_exchange update x_test server_output_text]. unfold x1. cbn [in_exchange update x_test].
    by destruct (stored_retransmits (s32 (jvalueint p4)) (store_usage p1 p2 p3 (x_test (in_exchange i)))) as (a & b & ->). }
  assert (x_test x1 = store_retransmits (if mode t =? RECEIVER then -1 else sender_has_retransmits t)
    ((x_test (in_exchange i)) <| remote_cpu_util := (reread_double total, reread_double user, reread_double system) |>)) as Ex.
  { unfold x1, store_usage. cbn. pose proof (re_retransmits _ _ Ht) as Hr. unfold int_ok in Hr.
    rewrite V1, V2, V3, V4, wraps_small by (destruct (mode t =? RECEIVER); lia). done. }
  change (x_test (in_exchange i2) = (x_test x1) <| streams := learn_streams t (streams (x_test x1)) |>) in T2. rewrite Ex in T2.
  change (x_r (in_exchange i2) = x_r (in_exchange i)) in R2. change (x_errno (in_exchange i2) = x_errno (in_exchange i)) in E2.
  change (json_server_output i2 = json_server_output i) in J2. clear O2 Ex. clearbody x1. destruct (congestion_used t) as [used|].
  - destruct Hm as (p & -> & Hv). wp_step. apply wp_on_exchange. unfold wp at 1, strdup. rewrite Hv, Halloc.
    apply wp_on_exchange, wp_modify. cbn [in_exchange update x_test x_r x_errno json_server_output server_output_text].
    rewrite cstr_idemp, utf8_cstr by done. rewrite T2. split_and!; done.
  - rewrite Hm. wp_step. rewrite T2. split_and!; done.
Qed.
End Applying.

(** ** The message is a document *)

Lemma int_field_fits name n : forallb (fun c => (0 <? c) && (c <? 128)) (key name) = true -> Z.abs n < 2 ^ 53 -> field_fits (int_field name n).
Proof. apply int_fits. Qed.

Lemma double_field_fits name d : forallb (fun c => (0 <? c) && (c <? 128)) (key name) = true -> double_fits d -> field_fits (double_field name d).
Proof. by split. Qed.

Lemma stream_fields_fit t sp : countable t sp -> Forall field_fits (stream_fields t sp).
Proof.
  intros [Hi _ Hn Hd]. pose proof (retransmits_int t sp) as Hr. unfold int_ok in *. rewrite !Forall_cons in Hn. rewrite !Forall_cons in Hd. destruct_and!. unfold stream_fields.
  repeat first [apply Forall_nil_2|apply Forall_cons_2]; first [apply double_field_fits; [reflexivity|assumption]|apply int_field_fits; [reflexivity|lia]].
Qed.

Lemma result_fields_fit t lines : reports t lines -> Forall field_fits (result_fields t lines).
Proof.
  intros [Hu Hr Hc Ho _ _ _]. unfold int_ok in Hr. unfold result_fields, usage_fields. destruct (cpu_util t) as [[total user] system].
  rewrite !Forall_cons in Hu. destruct_and!.
  repeat first [apply Forall_nil_2|apply Forall_cons_2];
    first [apply double_field_fits; [reflexivity|assumption]|apply text_fits; [reflexivity|assumption]
      |apply int_field_fits; [reflexivity|destruct (mode t =? RECEIVER); lia]].
Qed.

Lemma results_document t lines : reports t lines -> document (results_message t lines).
Proof.
  intros Ht. pose proof (message_document _ (result_fields_fit t lines Ht)) as Hd. inversion Hd as [? ? ? ? ? ? Hw Hn _ _ Hc]; subst.
  constructor; [done|done|apply utf8_text_nil|apply utf8_text_nil|]. apply Forall_app. split; [done|]. apply Forall_singleton.
  constructor; [unfold wire_type; cbn; tauto|split; [lia|by right]|apply utf8_text_nil|by apply key_text|].
  apply Forall_fmap. eapply Forall_impl; [apply Ht|]. intros sp Hsp. by apply message_document, stream_fields_fit.
Qed.

Lemma nesting_object t c v i d s n : Forall (fun x => (nesting x <= n)%nat) c -> (nesting (Node t c v i d s) <= S n)%nat.
Proof. intros H. cbn [nesting]. apply le_n_S. induction H as [|x c Hx _ IH]; cbn [foldr]; [lia|]. by apply Nat.max_lub. Qed.

Lemma results_nesting t lines : (nesting (results_message t lines) <= 1000)%nat.
Proof.
  apply (Nat.le_trans _ 4); [|lia]. apply nesting_object. apply Forall_app. split.
  - apply Forall_fmap. apply Forall_forall. intros [k v] _. cbn. by destruct v as [[]| | |]; cbn; lia.
  - apply Forall_singleton. apply nesting_object. apply Forall_fmap, Forall_forall. intros sp _. apply message_depth.
Qed.

(** ** Sending and reading *)

(** A side whose system delivers and whose memory suffices. *)
Record reliable (env : environment) : Prop := {
  rl_os : prompt (e_os env);
  rl_alloc : forall n, e_alloc env n = true;
  rl_calloc : e_calloc env = true;
  rl_parse : forall n, e_parse env n = true }.

Section Exchange.
Context (env : environment) (Henv : reliable env).

Lemma send_results_spec s : server_output_byte_limit (side_test s) = 0 -> sd_json_output s = false -> reports (side_test s) (sd_lines s) ->
  zlen (render false 0 (results_message (side_test s) (sd_lines s))) + 2 < 2 ^ 31 ->
  wp (send_results env) (fun r s' => r = 0 /\ ch_in (sd_channel s') = ch_in (sd_channel s) /\
    ch_out (sd_channel s') = ch_out (sd_channel s) ++ frame (results_message (side_test s) (sd_lines s)) /\ sd_incoming s' = sd_incoming s /\
    sd_json_output s' = sd_json_output s /\ sd_lines s' = sd_lines s) s.
Proof.
  intros El Ej Hr Hs. unfold send_results. wp_step. apply wp_get. rewrite Ej. wp_step.
  unfold wp at 1, on_budget, on_part. pose proof (results_json_spec (e_alloc env) (rl_alloc _ Henv) (e_reallocate env) (side_test s) (sd_lines s) (sd_budget s) El) as Hj.
  unfold wp in Hj. destruct (results_json _ _ _ _ _ _) as [[j b] | |]; [|done..]. destruct Hj as [-> (n & ->)].
  unfold write_results. rewrite El. cbn [negb Z.eqb]. wp_step. wp_step. apply wp_get. unfold wp at 1, on_channel, on_part. cbn [sd_channel sd_budget update].
  pose proof (write_delivers (e_os env) (rl_os _ Henv) (e_alloc env) (rl_alloc _ Henv) (e_reallocate env) _ (b_nalloc ((sd_budget s) <| b_nalloc := n |>)) (sd_channel s) (results_document _ _ Hr) Hs) as Hw.
  unfold wp in Hw. destruct (JSON_write _ _ _ _ _ _) as [[r c'] | |]; [|done..]. destruct Hw as (-> & Hi & Ho). cbn [Z.ltb Z.compare]. wp_step. by split_and!.
Qed.

Lemma get_results_spec from lines rest s : server_output_byte_limit (side_test s) = 0 -> reports from lines ->
  zlen (render false 0 (results_message from lines)) < 2 ^ 31 -> ch_in (sd_channel s) = frame (results_message from lines) ++ rest ->
  NoDup (id <$> streams (side_test s)) -> (forall sp, sp ∈ streams from -> id sp ∈ id <$> streams (side_test s)) ->
  wp (get_results env) (fun r s' => r = 0 /\ ch_in (sd_channel s') = rest /\ ch_out (sd_channel s') = ch_out (sd_channel s) /\
    side_test s' = learn_results from (side_test s) /\ sd_json_output s' = sd_json_output s /\ sd_lines s' = sd_lines s /\
    server_output_text (sd_incoming s') = learned_output from lines (side_test s) (server_output_text (sd_incoming s))) s.
Proof.
  intros El Hr Hs Hin Hnd Hids. unfold get_results. wp_step. apply wp_get. wp_step. apply wp_on_incoming, wp_on_exchange, wp_modify.
  unfold read_results. rewrite El. cbn [negb Z.eqb]. wp_step. unfold wp at 1, on_channel, on_part. cbn [sd_channel update]. rewrite (rl_calloc _ Henv).
  pose proof (read_receives (e_os env) (rl_os _ Henv) (e_parse env) (rl_parse _ Henv) 0 _ rest (sd_channel s) (results_document _ _ Hr) (results_nesting _ _) Hs (or_introl eq_refl) Hin) as Hread.
  unfold wp in Hread. destruct (JSON_read _ _ _ _ _) as [[q c'] | |]; [|done..]. destruct Hread as (-> & Hi & Ho). rewrite reread_results.
  wp_step. apply wp_on_incoming. cbn [sd_incoming update].
  eapply wp_mono; [apply (apply_results_received (e_alloc env) (rl_alloc _ Henv) from lines Hr); [exact Hnd|exact Hids]|].
  intros _ i' (T & R & _ & _ & O). apply wp_on_incoming, wp_on_exchange, wp_gets. cbn. rewrite R. split_and!; done.
Qed.
End Exchange.

(** ** What each side learns *)

Lemma find_reported from l sp2 sp : NoDup (id <$> l) -> sp2 ∈ l -> id sp2 = id sp ->
  find (fun p => p.1 =? id sp) ((fun sp => (id sp, reported_stream from sp)) <$> l) = Some (id sp2, reported_stream from sp2).
Proof.
  intros Hnd Hin E. induction l as [|x l IH]; [by apply elem_of_nil in Hin|]. cbn [fmap list_fmap find fst]. rewrite fmap_cons in Hnd. apply NoDup_cons in Hnd as [Hn Hnd].
  apply elem_of_cons in Hin as [->|Hin].
  - by rewrite E, Z.eqb_refl.
  - destruct (Z.eqb_spec (id x) (id sp)) as [Ex|_]; [|by apply IH]. exfalso. apply Hn. rewrite Ex, <- E. apply list_elem_of_fmap. by exists sp2.
Qed.

Lemma learned_stream from l sp sp2 : NoDup (id <$> streams from) -> sp ∈ l -> sp2 ∈ streams from -> id sp2 = id sp ->
  take_stream (reported_stream from sp2) sp ∈ learn_streams from l.
Proof.
  intros Hnd Hin Hin2 E. unfold learn_streams. apply list_elem_of_fmap. exists sp. split; [|done]. unfold about. by rewrite (find_reported from _ sp2).
Qed.

Lemma learn_streams_of from to : streams (learn_results from to) = learn_streams from (streams to).
Proof.
  unfold learn_results. destruct (cpu_util from) as [[? ?] ?].
  destruct (stored_retransmits (if mode from =? RECEIVER then -1 else sender_has_retransmits from) (to <| remote_cpu_util := (reread_double d, reread_double d0, reread_double d1) |>)) as (a & b & ->).
  by destruct (congestion_used from).
Qed.

(** The stream [sp'] of one side after it has read what the other says about
    [sp2], its end of the same stream: the counters of the other direction are
    those of [sp2], and its own are those of [sp]. *)
Definition learned (from : iperf_test) (sp sp2 sp' : iperf_stream) : Prop :=
  id sp' = id sp /\ stream_confined sp sp' /\
  peer_packet_count sp' = packet_count sp2 /\ peer_omitted_packet_count sp' = omitted_packet_count sp2 /\
  if sender sp then
    bytes_received (result sp') = bytes_received (result sp2) /\ cnt_error sp' = cnt_error sp2 /\
    omitted_cnt_error sp' = omitted_cnt_error sp2 /\ jitter sp' = reread_double (jitter sp2)
  else
    bytes_sent (result sp') = u64 (bytes_sent (result sp2) - bytes_sent_omit (result sp2)) /\
    stream_retrans (result sp') = sent_stream_retransmits from sp2.

Lemma take_reported from sp sp2 : sender sp = negb (sender sp2) -> 0 <= sent_bytes sp2 < 2 ^ 64 -> learned from sp sp2 (take_stream (reported_stream from sp2) sp).
Proof.
  intros Hd Hb. split; [apply take_stream_id|]. split; [apply take_stream_confined|]. unfold sent_bytes in Hb.
  unfold take_stream, take_receiver, take_sender, reported_stream, sent_bytes. rewrite Hd in *. destruct (sender sp2) eqn:E2; cbn [negb] in *; cbn; rewrite wrapu_small by lia; by split_and!.
Qed.

(** A side's own counters, after it has read the other's. *)
Lemma confined_own sp sp' : stream_confined sp sp' -> sender sp' = sender sp /\ packet_count sp' = packet_count sp /\ omitted_packet_count sp' = omitted_packet_count sp /\
  if sender sp then bytes_sent (result sp') = bytes_sent (result sp) /\ bytes_sent_omit (result sp') = bytes_sent_omit (result sp) /\
    stream_retrans (result sp') = stream_retrans (result sp)
  else bytes_received (result sp') = bytes_received (result sp) /\ cnt_error sp' = cnt_error sp /\ omitted_cnt_error sp' = omitted_cnt_error sp /\ jitter sp' = jitter sp.
Proof. unfold stream_confined. intros E. destruct (sender sp) eqn:Hs; rewrite E; cbn; by split_and!. Qed.

(** What the other side learned about the other direction does not change what it tells. *)
Lemma learned_through from p sp sp2 sp' : sender sp = negb (sender sp2) -> learned from sp (take_stream p sp2) sp' -> learned from sp sp2 sp'.
Proof.
  intros Hd (H1 & H2 & H3 & H4 & H5). destruct (confined_own _ _ (take_stream_confined p sp2)) as (O1 & O2 & O3 & O4).
  unfold learned. rewrite Hd in *. rewrite O2 in H3. rewrite O3 in H4. unfold sent_stream_retransmits in *. rewrite O1 in H5.
  destruct (sender sp2); cbn [negb andb] in *.
  - destruct O4 as (Q1 & Q2 & Q3). rewrite Q1, Q2, Q3 in H5. done.
  - destruct O4 as (Q1 & Q2 & Q3 & Q4). rewrite Q1, Q2, Q3, Q4 in H5. done.
Qed.

Lemma countable_bytes t l sp : Forall (countable t) l -> sp ∈ l -> 0 <= sent_bytes sp < 2 ^ 64.
Proof. intros Hl Hin. rewrite Forall_forall in Hl. destruct (Hl sp Hin) as [_ Hb Hn _]. rewrite !Forall_cons in Hn. lia. Qed.

(** What a side sends after it has read the other's results is still countable. *)
Lemma about_countable from t l : Forall (countable from) (streams from) -> Forall (fun sp => double_fits (reread_double (jitter sp))) (streams from) ->
  Forall (countable t) l -> Forall (countable t) (learn_streams from l).
Proof.
  intros Hf Hj Hl. unfold learn_streams. apply Forall_fmap. eapply Forall_impl; [exact Hl|]. intros sp [Hi Hb Hn Hd]. unfold compose, about.
  destruct (find _ _) as [p|] eqn:E; [|by split]. apply find_some in E as [Hin _]. apply list_elem_of_In, list_elem_of_fmap in Hin as (sp2 & -> & Hsp2). cbn [snd].
  rewrite Forall_forall in Hf, Hj. specialize (Hf sp2 Hsp2) as [_ _ Hn2 _]. specialize (Hj sp2 Hsp2).
  rewrite !Forall_cons in Hn. rewrite !Forall_cons in Hn2. rewrite !Forall_cons in Hd. destruct_and!.
  unfold take_stream, take_receiver, take_sender, reported_stream. destruct (sender sp) eqn:E2; cbn.
  - split; cbn; unfold sent_bytes in *; cbn; rewrite ?E2 in *; try done; repeat first [apply Forall_nil_2|apply Forall_cons_2]; done.
  - split; cbn; unfold sent_bytes in *; cbn; rewrite ?E2 in *; try done; repeat first [apply Forall_nil_2|apply Forall_cons_2]; done.
Qed.

Lemma learned_results from to : exists u a b l c, learn_results from to =
  to <| remote_cpu_util := u |> <| sender_has_retransmits := a |> <| other_side_has_retransmits := b |> <| streams := l |> <| remote_congestion_used := c |> /\
  (a = sender_has_retransmits to \/ a = -1 \/ a = sender_has_retransmits from).
Proof.
  unfold learn_results. destruct (cpu_util from) as [[? ?] ?]. set (t0 := to <| remote_cpu_util := _ |>).
  set (r := if mode from =? RECEIVER then -1 else sender_has_retransmits from).
  assert (exists a b, store_retransmits r t0 = t0 <| sender_has_retransmits := a |> <| other_side_has_retransmits := b |> /\
    (a = sender_has_retransmits to \/ a = -1 \/ a = sender_has_retransmits from)) as (a & b & -> & Ha).
  { unfold store_retransmits. destruct (mode t0 =? RECEIVER).
    - exists r, 0. split; [done|]. unfold r. destruct (mode from =? RECEIVER); auto.
    - exists (sender_has_retransmits to). destruct (mode t0 =? BIDIRECTIONAL); [exists r; split; [by destruct to|auto]|].
      exists (other_side_has_retransmits to). split; [by destruct to|auto]. }
  exists (remote_cpu_util t0), a, b, (learn_streams from (streams to)), (match congestion_used from with Some used => Some used | None => remote_congestion_used to end).
  split; [|done]. destruct (congestion_used from); [reflexivity|]. unfold t0. by destruct to.
Qed.

Lemma reports_learned from lines to lines' : reports from lines -> reports to lines' ->
  Forall (fun sp => double_fits (reread_double (jitter sp))) (streams from) -> reports (learn_results from to) lines'.
Proof.
  intros Hf Ht Hj. pose proof (learn_streams_of from to) as Hs. destruct (learned_results from to) as (u & a & b & l & c & E & Ha). rewrite E in *. cbn in Hs. subst l.
  split; cbn; try apply Ht.
  - destruct Ha as [-> |[-> | ->]]; [apply Ht|unfold int_ok; lia|apply Hf].
  - assert (forall sp, countable to sp <-> countable (learn_results from to) sp) as Hc by (intros sp; split; intros [? ? ? ?]; by split).
    eapply Forall_impl; [apply (about_countable from to); [apply Hf|done|apply Ht]|]. intros sp [? ? ? ?]. by split.
  - unfold learn_streams. rewrite about_ids. apply Ht.
  - unfold learn_streams, zlen. rewrite length_fmap. apply Ht.
Qed.

(** ** Both ends of one connection *)

(** The side with these bytes of the other to read, and nothing written yet. *)
Definition reading (input : list Z) (s : side) : side := s <| sd_channel := mk_channel input [] 0 |>.

Definition written (s : side) : list Z := ch_out (sd_channel s).

(** A side that can send its results without an output budget. *)
Record sends (r : Z) (s : side) : Prop := {
  sn_role : role (side_test s) = r;
  sn_limit : server_output_byte_limit (side_test s) = 0;
  sn_json : sd_json_output s = false;
  sn_reports : reports (side_test s) (sd_lines s) }.

(** The bytes of a side's results. *)
Definition results_frame (t : iperf_test) (lines : list text) : list Z := frame (results_message t lines).
Definition results_size (t : iperf_test) (lines : list text) : Z := zlen (render false 0 (results_message t lines)).

(** What is left of a side after the exchange, but for the test. *)
Definition exchanged (c : side) (sent rest : list Z) (t : iperf_test) (c' : side) : Prop :=
  ch_in (sd_channel c') = rest /\ ch_out (sd_channel c') = ch_out (sd_channel c) ++ sent /\ side_test c' = t /\
  sd_json_output c' = sd_json_output c /\ sd_lines c' = sd_lines c.

(** The client sends first. *)
Lemma client_exchange_spec env c ts lines rest : reliable env -> sends role_client c -> reports ts lines ->
  results_size (side_test c) (sd_lines c) + 2 < 2 ^ 31 -> results_size ts lines < 2 ^ 31 ->
  ch_in (sd_channel c) = results_frame ts lines ++ rest -> (forall sp, sp ∈ streams ts -> id sp ∈ id <$> streams (side_test c)) ->
  wp (iperf_exchange_results env) (fun r c' => r = 0 /\
    exchanged c (results_frame (side_test c) (sd_lines c)) rest (learn_results ts (side_test c)) c' /\
    server_output_text (sd_incoming c') = learned_output ts lines (side_test c) (server_output_text (sd_incoming c))) c.
Proof.
  intros Henv [Hr Hl Hj Hrep] Ht Hs1 Hs2 Hin Hids. unfold iperf_exchange_results. wp_step. apply wp_get. rewrite Hr. change (role_client =? role_client) with true. cbv iota.
  wp_step. eapply wp_mono; [by apply send_results_spec|]. intros r c1 (-> & Hi & Ho & Hinc & J1 & L1). cbn [Z.ltb Z.compare].
  assert (side_test c1 = side_test c) as Ec1 by (unfold side_test; by rewrite Hinc).
  wp_step. eapply wp_mono; [apply (get_results_spec env Henv ts lines rest); rewrite ?Ec1, ?Hi; try done; apply Hrep|].
  intros r c2 (-> & Hi2 & Ho2 & T2 & J2 & L2 & O2). cbn [Z.ltb Z.compare]. wp_step. rewrite Ec1 in *. rewrite Hinc in O2. split; [done|].
  split; [|done]. unfold exchanged. rewrite Ho2, Ho. split_and!; first [done|congruence].
Qed.

Lemma learned_keeps from to : server_output_byte_limit (learn_results from to) = server_output_byte_limit to /\ role (learn_results from to) = role to /\
  get_server_output (learn_results from to) = get_server_output to /\ ctrl_sck (learn_results from to) = ctrl_sck to /\ state (learn_results from to) = state to /\
  done (learn_results from to) = done to.
Proof. destruct (learned_results from to) as (u & a & b & l & cu & -> & _). by split_and!. Qed.

(** The server reads first. *)
Lemma server_exchange_spec env s tc lines rest : reliable env -> sends role_server s -> reports tc lines ->
  Forall (fun sp => double_fits (reread_double (jitter sp))) (streams tc) ->
  results_size tc lines < 2 ^ 31 -> results_size (learn_results tc (side_test s)) (sd_lines s) + 2 < 2 ^ 31 ->
  ch_in (sd_channel s) = results_frame tc lines ++ rest -> (forall sp, sp ∈ streams tc -> id sp ∈ id <$> streams (side_test s)) ->
  wp (iperf_exchange_results env) (fun r s' => r = 0 /\
    exchanged s (results_frame (learn_results tc (side_test s)) (sd_lines s)) rest (learn_results tc (side_test s)) s') s.
Proof.
  intros Henv [Hr Hl Hj Hrep] Ht Hjit Hs1 Hs2 Hin Hids. unfold iperf_exchange_results. wp_step. apply wp_get. rewrite Hr. change (role_server =? role_client) with false. cbv iota.
  destruct (learned_keeps tc (side_test s)) as (El & _). wp_step. eapply wp_mono; [apply (get_results_spec env Henv tc lines rest); try done; apply Hrep|].
  intros r s1 (-> & Hi & Ho1 & T1 & J1 & L1 & _). cbn [Z.ltb Z.compare].
  wp_step. eapply wp_mono; [apply (send_results_spec env Henv s1); rewrite ?T1, ?J1, ?L1, ?El; try done; by apply (reports_learned tc lines)|].
  intros r s2 (-> & Hi2 & Ho2 & Hinc & J2 & L2). cbn [Z.ltb Z.compare]. wp_step. split; [done|]. rewrite T1, L1, Ho1 in Ho2.
  unfold exchanged. split_and!; [congruence|exact Ho2|unfold side_test; by rewrite Hinc|congruence..].
Qed.

(** What both sides know about a stream of the client and the server's end of it. *)
Lemma exchange_learned tc ts lines_c lines_s : reports tc lines_c -> reports ts lines_s ->
  Forall (fun sp => double_fits (reread_double (jitter sp))) (streams tc) ->
  forall sp sp2, sp ∈ streams tc -> sp2 ∈ streams ts -> id sp2 = id sp -> sender sp = negb (sender sp2) ->
    (exists sp', sp' ∈ streams (learn_results (learn_results tc ts) tc) /\ learned (learn_results tc ts) sp sp2 sp') /\
    (exists sp', sp' ∈ streams (learn_results tc ts) /\ learned tc sp2 sp sp').
Proof.
  intros Hc Hs Hj sp sp2 Hsp Hsp2 Hid Hdir. set (ts1 := learn_results tc ts). assert (reports ts1 lines_s) as Hreports1 by (by apply (reports_learned tc lines_c)).
  set (sp2' := take_stream (reported_stream tc sp) sp2). assert (sp2' ∈ streams ts1) as Hsp2'.
  { unfold ts1. rewrite learn_streams_of. apply learned_stream; [apply Hc|done|done|done]. }
  split.
  - exists (take_stream (reported_stream ts1 sp2') sp). rewrite learn_streams_of. split.
    + apply learned_stream; [apply Hreports1|done|done|]. unfold sp2'. by rewrite take_stream_id.
    + apply (learned_through ts1 (reported_stream tc sp)); [done|]. apply take_reported; [unfold sp2'; by destruct (confined_own _ _ (take_stream_confined (reported_stream tc sp) sp2)) as (-> & _)|].
      by eapply (countable_bytes _ _ _ (re_streams _ _ Hreports1)).
  - exists sp2'. split; [done|]. apply take_reported; [by rewrite Hdir, negb_involutive|]. by eapply (countable_bytes _ _ _ (re_streams _ _ Hc)).
Qed.

(** Matching streams stay matching. *)
Lemma learned_ids from to : id <$> streams (learn_results from to) = id <$> streams to.
Proof. rewrite learn_streams_of. unfold learn_streams. by rewrite about_ids. Qed.

Lemma matching_ids tc ts : (forall n, n ∈ id <$> streams tc <-> n ∈ id <$> streams ts) ->
  (forall sp, sp ∈ streams tc -> id sp ∈ id <$> streams ts) /\ (forall sp, sp ∈ streams (learn_results tc ts) -> id sp ∈ id <$> streams tc).
Proof.
  intros H. split; intros sp Hsp; apply H; [|rewrite <- (learned_ids tc)]; apply list_elem_of_fmap; by exists sp.
Qed.

(** C30: client and server run [iperf_exchange_results] on the two ends of one
    connection, with matching streams.  Both return 0, and afterwards every
    stream has, next to its own counters, those of the other end: the sender
    the bytes, errors and jitter the receiver counted, the receiver the bytes
    and retransmissions of the sender; the client has the server's output it
    asked for. *)
Theorem results_exchanged env_c env_s c s (Hc : reliable env_c) (Hs : reliable env_s)
    (Hrc : role (side_test c) = role_client) (Hrs : role (side_test s) = role_server)
    (Hlc : server_output_byte_limit (side_test c) = 0) (Hls : server_output_byte_limit (side_test s) = 0)
    (Hjc : sd_json_output c = false) (Hjs : sd_json_output s = false)
    (Hreports_c : reports (side_test c) (sd_lines c)) (Hreports_s : reports (side_test s) (sd_lines s))
    (Hjitter : Forall (fun sp => double_fits (reread_double (jitter sp))) (streams (side_test c)))
    (Hids : forall n, n ∈ id <$> streams (side_test c) <-> n ∈ id <$> streams (side_test s))
    (Hsize_c : zlen (render false 0 (results_message (side_test c) (sd_lines c))) + 2 < 2 ^ 31)
    (Hsize_s : zlen (render false 0 (results_message (learn_results (side_test c) (side_test s)) (sd_lines s))) + 2 < 2 ^ 31) :
  exists c' s', iperf_exchange_results env_c (reading (written s') c) = Ret (0, c') /\
    iperf_exchange_results env_s (reading (written c') s) = Ret (0, s') /\
    (forall sp sp2, sp ∈ streams (side_test c) -> sp2 ∈ streams (side_test s) -> id sp2 = id sp -> sender sp = negb (sender sp2) ->
      (exists sp', sp' ∈ streams (side_test c') /\ learned (side_test s') sp sp2 sp') /\
      (exists sp', sp' ∈ streams (side_test s') /\ learned (side_test c) sp2 sp sp')) /\
    (get_server_output (side_test c) <> 0 -> get_server_output (side_test s) <> 0 -> server_output_text (sd_incoming c') = Some (concat (sd_lines s))).
Proof.
  set (tc := side_test c) in *. set (ts := side_test s) in *. set (ts1 := learn_results tc ts) in *. destruct (matching_ids tc ts Hids) as [Hids_s Hids_c].
  destruct (learned_keeps tc ts) as (_ & Er1 & Eg1 & _).
  pose proof (client_exchange_spec env_c (reading (results_frame ts1 (sd_lines s)) c) ts1 (sd_lines s) []) as Wc.
  pose proof (server_exchange_spec env_s (reading (results_frame tc (sd_lines c)) s) tc (sd_lines c) []) as Ws.
  destruct (wp_returns _ _ _ (Wc Hc (Build_sends role_client (reading _ c) Hrc Hlc Hjc Hreports_c) (reports_learned _ _ _ _ Hreports_c Hreports_s Hjitter) Hsize_c
    ltac:(unfold results_size; lia) (eq_sym (app_nil_r _)) Hids_c)) as (rc & c' & Ec & -> & (_ & Hwc & Tc & _) & Oc).
  destruct (wp_returns _ _ _ (Ws Hs (Build_sends role_server (reading _ s) Hrs Hls Hjs Hreports_s) Hreports_c Hjitter ltac:(unfold results_size; lia) Hsize_s
    (eq_sym (app_nil_r _)) Hids_s)) as (rs & s' & Es & -> & (_ & Hws & Ts & _)).
  exists c', s'. unfold written. rewrite Hwc, Hws, Ts, Tc. split_and!; [exact Ec|exact Es|by apply (exchange_learned tc ts (sd_lines c) (sd_lines s))|].
  intros Hg1 Hg2. rewrite Oc. change (side_test (reading (results_frame ts1 (sd_lines s)) c)) with tc.
  unfold learned_output, wants_output, output_text, ts1. rewrite Hlc, Hrc, Er1, Eg1. fold ts. rewrite Hrs.
  rewrite (proj2 (Z.eqb_neq (get_server_output tc) 0) Hg1), (proj2 (Z.eqb_neq (get_server_output ts) 0) Hg2). done.
Qed.

(** ** An example *)

(** One stream in each direction; the receivers lost a datagram and measured jitter. *)
Definition sample_end (sending : bool) (n : Z) : iperf_stream :=
  zero_stream <| id := n |> <| sender := sending |>
    <| result := zero_result <| bytes_sent := if sending then 7300 else 0 |> <| bytes_received := if sending then 0 else 5840 |>
         <| start_time := mk_time 10 0 |> <| end_time := mk_time 11 500000 |> |>
    <| packet_count := if sending then 5 else 4 |> <| jitter := if sending then D_zero else D_div (D_of_Z 1) (D_of_Z 1000) |>
    <| cnt_error := if sending then 0 else 1 |>.

Definition sample_test (r : Z) (l : list iperf_stream) : iperf_test :=
  iperf_new_test <| role := r |> <| mode := BIDIRECTIONAL |> <| get_server_output := 1 |> <| streams := l |>
    <| cpu_util := (D_of_Z 3, D_of_Z 2, D_of_Z 1) |>.

Definition sample_state (t : iperf_test) (lines : list text) : side :=
  mk_side (mk_channel [] [] 0) (mk_conn [] [] 0 [] [] 0) (mk_budget Scanner.empty_output Scanner.empty_output no_metrics false 0 0 false false false None None 0)
    (mk_incoming (mk_exchange t 0 0 0 None) None None) false lines.

Definition sample_client_side : side := sample_state (sample_test role_client [sample_end true 1; sample_end false 2]) [].
Definition sample_server_side : side := sample_state (sample_test role_server [sample_end true 2; sample_end false 1]) [[111; 107; 10]].

Definition sample_env : environment := mk_environment trickle (fun _ => true) true true (fun _ => true) true [] true 3 (at_ms 0) None None None.

Lemma sample_reliable : reliable sample_env.
Proof. split; [apply trickle_prompt|done..]. Qed.

Lemma double_fits_valid d : is_nan_or_inf d = false -> valid_binary 53 1024 d = true -> - 2 ^ 63 <= Parse.saturate d < 2 ^ 63 -> double_fits d.
Proof. intros Hf Hv Hs. split; [done|]. split; [done|by right]. Qed.

Ltac computed := lazymatch goal with
  | |- double_fits _ => apply double_fits_valid; [by vm_compute|by vm_compute|vm_compute; split; congruence]
  | |- _ /\ _ => split; computed
  | |- _ => vm_compute; first [reflexivity|congruence|split; congruence]
  end.

Lemma sample_countable t sender n : 1 <= n <= 2 -> countable t (sample_end sender n).
Proof.
  intros Hn. assert (n = 1 \/ n = 2) as [-> | ->] by lia; destruct sender; (split; [vm_compute; by split|vm_compute; congruence|..]);
    repeat first [apply Forall_nil_2|apply Forall_cons_2]; computed.
Qed.

Lemma sample_reports r l lines : utf8_text (default [] (output_text (sample_test r l) lines)) -> Forall (countable (sample_test r l)) l -> NoDup (id <$> l) -> zlen l < 2 ^ 31 ->
  reports (sample_test r l) lines.
Proof.
  intros Hu Hl Hn Hc. split; try done.
  - cbn. repeat first [apply Forall_nil_2|apply Forall_cons_2]; computed.
  - apply utf8_text_nil.
Qed.

Lemma results_exchanged_witness :
  exists c' s', iperf_exchange_results sample_env (reading (written s') sample_client_side) = Ret (0, c') /\
    iperf_exchange_results sample_env (reading (written c') sample_server_side) = Ret (0, s') /\
    (forall sp sp2, sp ∈ streams (side_test sample_client_side) -> sp2 ∈ streams (side_test sample_server_side) -> id sp2 = id sp -> sender sp = negb (sender sp2) ->
      (exists sp', sp' ∈ streams (side_test c') /\ learned (side_test s') sp sp2 sp') /\
      (exists sp', sp' ∈ streams (side_test s') /\ learned (side_test sample_client_side) sp2 sp sp')) /\
    (get_server_output (side_test sample_client_side) <> 0 -> get_server_output (side_test sample_server_side) <> 0 ->
      server_output_text (sd_incoming c') = Some (concat (sd_lines sample_server_side))).
Proof.
  apply (results_exchanged sample_env sample_env sample_client_side sample_server_side sample_reliable sample_reliable); try reflexivity.
  - apply sample_reports; [apply utf8_text_nil| | |done].
    + repeat first [apply Forall_nil_2|apply Forall_cons_2]; apply sample_countable; lia.
    + by apply (bool_decide_unpack _); vm_compute.
  - apply sample_reports; [apply ascii_text; repeat constructor; lia| | |done].
    + repeat first [apply Forall_nil_2|apply Forall_cons_2]; apply sample_countable; lia.
    + by apply (bool_decide_unpack _); vm_compute.
  - repeat first [apply Forall_nil_2|apply Forall_cons_2]; computed.
  - intros n. change (n ∈ [1; 2] <-> n ∈ [2; 1]). set_solver.
Defined.
