(* ===== verification/Streams.v ===== *)
(** * The streams of a test

    [iperf_new_stream], [iperf_init_stream], [iperf_add_stream],
    [iperf_free_stream], [iperf_common_sockopts], [iperf_init_test] and
    [iperf_create_send_timers] of [iperf_api.c], [iperf_create_streams] of
    [iperf_client_api.c], and the part of [iperf_run_server]
    ([iperf_server_api.c]) that takes a data connection as a stream.

    The operating system's answers are arguments.  What a process holds is
    counted: blocks of memory, open descriptors, mapped pages.  The contents of
    a stream's buffer and the printing in debug mode are left out. *)

From S2P Require Import Prelude Bytes Time Double IperfTest.
Local Open Scope c_scope.

Definition IEFILE : Z := 14.
Definition IESETTOS : Z := 125.
Definition IESETCOS : Z := 126.
Definition IEINITTEST : Z := 101.
Definition IESETDONTFRAGMENT : Z := 145.
Definition IECREATESTREAM : Z := 200.
Definition IEINITSTREAM : Z := 201.

(** ** What a process holds *)

(** [p_read_set] is the test's set of descriptors to wait for, [p_shut] what has
    been shut down. *)
Record process := mk_process {
  p_test : iperf_test; p_errno : Z; p_blocks : Z; p_fds : list Z; p_pages : Z; p_read_set : list Z; p_shut : list Z }.

#[export] Instance process_eta : Eta process := fun p => 
  mk_process (p_test p) (p_errno p) (p_blocks p) (p_fds p) (p_pages p) (p_read_set p) (p_shut p).

Definition PM := CM process.

Definition set_errno (e : Z) : PM unit := modify (fun p => p <| p_errno := e |>).
Definition got_block : PM unit := modify (fun p => p <| p_blocks := p_blocks p + 1 |>).
Definition free_blocks (n : Z) : PM unit := modify (fun p => p <| p_blocks := p_blocks p - n |>).
Definition opened (fd : Z) : PM unit := modify (fun p => p <| p_fds := fd :: p_fds p |>).

(** Closing a number that is not open is an error without an effect. *)
Fixpoint without (fd : Z) (l : list Z) : list Z :=
  match l with
  | [] => []
  | x :: l => if x =? fd then l else x :: without fd l
  end.

Definition close (fd : Z) : PM unit := modify (fun p => p <| p_fds := without fd (p_fds p) |>).
Definition shutdown (fd : Z) : PM unit := modify (fun p => p <| p_shut := fd :: p_shut p |>).
Definition FD_SET (fd : Z) : PM unit := modify (fun p => p <| p_read_set := fd :: p_read_set p |>).
Definition FD_CLR (fd : Z) : PM unit := modify (fun p => p <| p_read_set := List.filter (fun x => negb (x =? fd)) (p_read_set p) |>).

Section Streams.
Context (page_size : Z).

Definition pages (len : Z) : Z := (len + page_size - 1) / page_size.
Definition mapped (len : Z) : PM unit := modify (fun p => p <| p_pages := p_pages p + pages len |>).

(** [munmap] of the first [len] bytes. *)
Definition munmap (len : Z) : PM unit := modify (fun p => p <| p_pages := p_pages p - pages len |>).

(** ** A new stream *)

(** The answers to the calls one new stream makes. *)
Record stream_answers := mk_answers {
  a_malloc : bool; a_malloc_result : bool; a_mkstemp : Z; a_unlink : Z; a_ftruncate : Z; a_mmap : bool; a_open : Z;
  a_getsockname : Z; a_getpeername : Z; a_inet : bool; a_setsockopt : Z }.

Definition iperf_init_stream (a : stream_answers) : PM Z :=
  t <- gets p_test ;;
  if a_getsockname a <? 0 then set_errno IEINITSTREAM ;;; ret (-1)
  else if a_getpeername a <? 0 then set_errno IEINITSTREAM ;;; ret (-1)
  else if (protocol t =? Pudp) && a_inet a && negb (dont_fragment (settings t) =? 0) && (a_setsockopt a <? 0)
  then set_errno IESETDONTFRAGMENT ;;; ret (-1)
  else ret 0.

(** The number of a stream after the first one is the length of the list plus two. *)
Definition iperf_add_stream (sp : iperf_stream) (t : iperf_test) : iperf_test :=
  match streams t with
  | [] => t <| streams := [sp <| id := 1 |>] |>
  | l => t <| streams := l ++ [sp <| id := 2 + zlen l |>] |>
  end.

Definition buffer_size (t : iperf_test) : Z :=
  let size := blksize (settings t) in
  let size :=
    if (protocol t =? Pudp) && negb (gso (settings t) =? 0) && (size <? gso_bf_size (settings t)) then gso_bf_size (settings t) else size in
  if (protocol t =? Pudp) && negb (gro (settings t) =? 0) && (size <? gro_bf_size (settings t)) then gro_bf_size (settings t) else size.

(** From the labels on: what a failed stream gives back. *)
Definition err_exit_free_sp : PM bool := free_blocks 1 ;;; ret false.
Definition err_exit_free_result : PM bool := free_blocks 1 ;;; err_exit_free_sp.
Definition err_exit_close_buffer (fd : Z) : PM bool := close fd ;;; err_exit_free_result.
Definition err_exit_munmap_buffer (fd : Z) : PM bool :=
  t <- gets p_test ;;
  munmap (blksize (settings t)) ;;; err_exit_close_buffer fd.
Definition err_exit_close_diskfile (diskfile fd : Z) : PM bool :=
  (when 0 <=? diskfile do close diskfile) ;;; err_exit_munmap_buffer fd.

(** The file of [-F]; -1 without one, nothing if it cannot be opened. *)
Definition open_diskfile (a : stream_answers) : PM (option Z) :=
  t <- gets p_test ;;
  match diskfile_name t with
  | None => ret (Some (-1))
  | Some _ =>
      if a_open a =? -1 then set_errno IEFILE ;;; ret None
      else opened (a_open a) ;;; ret (Some (a_open a))
  end.

(** With the memory mapped.  Filling the buffer does not fail here. *)
Definition finish_stream (a : stream_answers) (sp : iperf_stream) : PM bool :=
  diskfile <- open_diskfile a ;;
  match diskfile with
  | None => err_exit_munmap_buffer (buffer_fd sp)
  | Some diskfile =>
      r <- iperf_init_stream a ;;
      if r <? 0 then err_exit_close_diskfile diskfile (buffer_fd sp)
      else
        modify (fun p => p <| p_test := iperf_add_stream (sp <| diskfile_fd := diskfile |>) (p_test p) |>) ;;;
        ret true
  end.

(** The memory behind the buffer is an unlinked file. *)
Definition map_buffer (a : stream_answers) (s : Z) (sending : bool) : PM bool :=
  if a_mkstemp a =? -1 then set_errno IECREATESTREAM ;;; err_exit_free_result
  else
    opened (a_mkstemp a) ;;;
    if a_unlink a <? 0 then set_errno IECREATESTREAM ;;; err_exit_close_buffer (a_mkstemp a)
    else
      t <- gets p_test ;;
      if a_ftruncate a <? 0 then set_errno IECREATESTREAM ;;; err_exit_close_buffer (a_mkstemp a)
      else if negb (a_mmap a) then set_errno IECREATESTREAM ;;; err_exit_close_buffer (a_mkstemp a)
      else
        mapped (buffer_size t) ;;;
        finish_stream a (zero_stream <| sender := sending |> <| buffer_fd := a_mkstemp a |> <| buffer := buffer_size t |>
                           <| pending_size := 0 |> <| socket := s |>).

(** Whether the stream was made; it is then the last one of the test. *)
Definition iperf_new_stream (a : stream_answers) (s : Z) (sending : bool) : PM bool :=
  if negb (a_malloc a) then set_errno IECREATESTREAM ;;; ret false
  else
    got_block ;;;
    if negb (a_malloc_result a) then set_errno IECREATESTREAM ;;; err_exit_free_sp
    else got_block ;;; map_buffer a s sending.

(** The stream has been taken off the list before. *)
Definition iperf_free_stream (sp : iperf_stream) : PM unit :=
  t <- gets p_test ;;
  munmap (blksize (settings t)) ;;;
  (when 0 <=? buffer_fd sp do close (buffer_fd sp)) ;;;
  (when 0 <=? diskfile_fd sp do close (diskfile_fd sp)) ;;;
  free_blocks (zlen (interval_results (result sp))) ;;;
  free_blocks 1 ;;; free_blocks 1.

(** ** The client's streams *)

Definition stream_port (t : iperf_test) (bind_port : Z) (i : nat) (sending : bool) : Z :=
  if bind_port =? 0 then bind_port
  else
    let port := bind_port + Z.of_nat i in
    if negb sending && (mode t =? BIDIRECTIONAL) then port + num_streams t else port.

(** [connect] is the protocol's; it answers a descriptor or a negative number. *)
Section Create.
Context (connect : nat -> Z -> Z) (answers : nat -> stream_answers) (bind_port : Z).

Fixpoint create_loop (n : nat) (i : nat) (sending : bool) : PM Z :=
  match n with
  | O => ret 0
  | S n =>
      t <- gets p_test ;;
      let s := connect i (stream_port t bind_port i sending) in
      if s <? 0 then ret (-1)
      else
        opened s ;;;
        ok <- iperf_new_stream (answers i) s sending ;;
        if negb ok then close s ;;; ret (-1) else create_loop n (S i) sending
  end.

Definition iperf_create_streams (sending : bool) : PM Z :=
  t <- gets p_test ;; create_loop (Z.to_nat (num_streams t)) 0 sending.
End Create.

(** The message [CREATE_STREAMS]: in a test of both directions the sending streams come first. *)
Definition client_streams (connect : bool -> nat -> Z -> Z) (answers : bool -> nat -> stream_answers) (bind_port : Z) : PM Z :=
  t <- gets p_test ;;
  let create (sending : bool) := iperf_create_streams (connect sending) (answers sending) bind_port sending in
  if mode t =? BIDIRECTIONAL then
    r <- create true ;;
    if r <? 0 then ret (-1)
    else
      r <- create false ;;
      ret (if r <? 0 then -1 else 0)
  else
    r <- create (negb (mode t =? 0)) ;;
    ret (if r <? 0 then -1 else 0).

(** ** The server's streams *)

(** How many streams of each direction there are to be and are; [flag] has no value at first. *)
Record acceptance := mk_acceptance {
  streams_to_rec : Z; streams_to_send : Z; rec_streams_accepted : Z; send_streams_accepted : Z; flag : option Z }.

#[export] Instance acceptance_eta : Eta acceptance := fun c =>
  mk_acceptance (streams_to_rec c) (streams_to_send c) (rec_streams_accepted c) (send_streams_accepted c) (flag c).

Definition streams_number (t : iperf_test) (c : acceptance) : acceptance :=
  if mode t =? BIDIRECTIONAL then c <| streams_to_send := num_streams t |> <| streams_to_rec := num_streams t |>
  else if mode t =? RECEIVER then c <| streams_to_rec := num_streams t |> <| streams_to_send := 0 |>
  else c <| streams_to_send := num_streams t |> <| streams_to_rec := 0 |>.

Definition next_direction (c : acceptance) : acceptance :=
  if negb (rec_streams_accepted c =? streams_to_rec c) then
    c <| flag := Some 0 |> <| rec_streams_accepted := rec_streams_accepted c + 1 |>
  else if negb (send_streams_accepted c =? streams_to_send c) then
    c <| flag := Some 1 |> <| send_streams_accepted := send_streams_accepted c + 1 |>
  else c.

(** The type of service; an IPv6 socket also gets the one of IPv4, whose failure is ignored. *)
Definition iperf_common_sockopts (inet6 : bool) (setsockopt : Z) : PM Z :=
  t <- gets p_test ;;
  if tos (settings t) =? 0 then ret 0
  else if setsockopt <? 0 then set_errno (if inet6 then IESETCOS else IESETTOS) ;;; ret (-1)
  else ret 0.

(** What [accept] and the calls on the new descriptor answer. *)
Record connection := mk_connection { c_accept : Z; c_inet6 : bool; c_setsockopt : Z; c_closed : bool; c_answers : stream_answers }.

(** With the connection [s], which [accept] may have closed. *)
Definition take_connection (s : Z) (k : connection) (c : acceptance) : PM (Z * acceptance) :=
  r <- iperf_common_sockopts (c_inet6 k) (c_setsockopt k) ;;
  if r <? 0 then ret (-1, c)
  else if c_closed k then ret (0, c)
  else
    let c := next_direction c in
    match flag c with
    | None => undefined
    | Some flag_value =>
        if flag_value =? -1 then ret (0, c)
        else
          ok <- iperf_new_stream (c_answers k) s (negb (flag_value =? 0)) ;;
          if negb ok then close s ;;; ret (-1, c) else ret (0, c <| flag := Some (-1) |>)
    end.

Definition accept_stream (k : connection) (c : acceptance) : PM (Z * acceptance) :=
  if c_accept k <? 0 then ret (-1, c)
  else
    opened (c_accept k) ;;;
    (when c_closed k do close (c_accept k)) ;;;
    take_connection (c_accept k) k c.

Definition all_accepted (c : acceptance) : bool :=
  (rec_streams_accepted c =? streams_to_rec c) && (send_streams_accepted c =? streams_to_send c).

(** The data connections in the order of their arrival, until there are enough. *)
Fixpoint accept_streams (ks : list connection) (c : acceptance) : PM (Z * acceptance) :=
  match ks with
  | [] => ret (0, c)
  | k :: ks =>
      r <- accept_stream k c ;;
      if r.1 <? 0 then ret (-1, r.2)
      else if all_accepted r.2 then ret (0, r.2) else accept_streams ks r.2
  end.
End Streams.

(** ** The start of the test *)

(** The clock's answer; neither protocol's [init] can fail. *)
Definition iperf_init_test (now : option iperf_time) : PM Z :=
  match now with
  | None => set_errno IEINITTEST ;;; ret (-1)
  | Some now =>
      modify (fun p => p <| p_test := update streams (fmap (update result (fun r => r <| start_time_fixed := now |> <| start_time := now |>))) (p_test p) |>) ;;;
      ret 0
  end.

Definition iperf_create_send_timers : PM Z :=
  modify (fun p => p <| p_test := update streams (fmap (fun sp => sp <| green_light := 1 |>)) (p_test p) |>) ;;; ret 0.
