(* ===== verification/StreamsSpec.v ===== *)
(** * The streams of a test: properties

    A stream that cannot be made leaves nothing behind, one that is freed gives
    back everything but the pages of an offload buffer beyond a block; the two ends of a test number their streams alike and in
    opposite directions. *)

From S2P Require Import Prelude Bytes Time Double IperfTest Streams.
Local Open Scope c_scope.

(** ** Numbers and directions *)

(** The number of the [k]-th stream, from 0. *)
Definition stream_number (k : nat) : Z := if decide (k = O) then 1 else 2 + Z.of_nat k.

Lemma stream_number_inj k1 k2 : stream_number k1 = stream_number k2 -> k1 = k2.
Proof. unfold stream_number. repeat case_decide; lia. Qed.

Definition ends (t : iperf_test) : list (Z * bool) := (fun sp => (id sp, sender sp)) <$> streams t.

Definition numbered_ends (ds : list bool) : list (Z * bool) := imap (fun k d => (stream_number k, d)) ds.

Lemma add_stream_ends sp t ds : ends t = numbered_ends ds -> ends (iperf_add_stream sp t) = numbered_ends (ds ++ [sender sp]).
Proof.
  intros H. assert (length (streams t) = length ds) as Hl.
  { transitivity (length (ends t)); [symmetry; apply length_fmap|]. rewrite H. apply length_imap. }
  unfold numbered_ends. rewrite imap_app. fold (numbered_ends ds). rewrite <- H. unfold ends, iperf_add_stream.
  destruct (streams t) as [|sp1 l] eqn:E; cbn [streams update].
  - destruct ds; [|done]. done.
  - rewrite fmap_app. f_equal. cbn. f_equal. f_equal. unfold stream_number, zlen. rewrite decide_False; cbn in *; lia.
Qed.

Lemma numbered_ends_nodup ds : NoDup (numbered_ends ds).*1.
Proof.
  apply NoDup_alt. intros i j x Hi Hj. rewrite list_lookup_fmap in Hi, Hj. unfold numbered_ends in *. rewrite !list_lookup_imap in *.
  destruct (ds !! i), (ds !! j); cbn in *; try discriminate. simplify_eq. by apply stream_number_inj.
Qed.

(** The same numbers with the opposite directions. *)
Lemma numbered_ends_opposite ds n d d2 : (n, d) ∈ numbered_ends ds -> (n, d2) ∈ numbered_ends (negb <$> ds) -> d = negb d2.
Proof.
  intros H1 H2. apply list_elem_of_lookup in H1 as [i H1]. apply list_elem_of_lookup in H2 as [j H2].
  unfold numbered_ends in *. rewrite list_lookup_imap in H1, H2. rewrite list_lookup_fmap in H2.
  destruct (ds !! i) as [di|] eqn:Ei; [|done]. destruct (ds !! j) as [dj|] eqn:Ej; [|done]. cbn in *. simplify_eq.
  assert (i = j) as -> by (by apply stream_number_inj). simplify_eq. by rewrite negb_involutive.
Qed.

Lemma numbered_ends_ids ds : (numbered_ends (negb <$> ds)).*1 = (numbered_ends ds).*1.
Proof.
  apply list_eq. intros i. rewrite !list_lookup_fmap. unfold numbered_ends. rewrite !list_lookup_imap, list_lookup_fmap. by destruct (ds !! i).
Qed.

Lemma ends_ids t : (ends t).*1 = id <$> streams t.
Proof. unfold ends. rewrite <- list_fmap_compose. done. Qed.

(** ** What a stream holds *)

Section Resources.
Context (page_size : Z).
Abbreviation pages := (pages page_size).

(** Whole pages of a buffer larger than a block are not unmapped. *)
Definition left_mapped (t : iperf_test) : Z := pages (buffer_size t) - pages (blksize (settings t)).

(** The system answers -1 or a descriptor. *)
Definition answers_ok (a : stream_answers) : Prop := -1 <= a_mkstemp a /\ -1 <= a_open a.

Definition stream_fds (t : iperf_test) (sp : iperf_stream) : list Z :=
  match diskfile_name t with Some _ => [diskfile_fd sp; buffer_fd sp] | None => [buffer_fd sp] end.

(** The process with a stream more. *)
Definition with_stream (sp : iperf_stream) (p : process) : process :=
  p <| p_test := iperf_add_stream sp (p_test p) |> <| p_blocks := p_blocks p + 2 |>
    <| p_fds := stream_fds (p_test p) sp ++ p_fds p |> <| p_pages := p_pages p + pages (buffer_size (p_test p)) |>.

(** A process that holds as much as another, and [leak] pages more. *)
Definition holds (leak : Z) (p p' : process) : Prop :=
  p_blocks p' = p_blocks p /\ p_fds p' = p_fds p /\ p_pages p' = p_pages p + leak.

(** Whether the calls get as far as mapping the buffer. *)
Definition buffer_mapped (a : stream_answers) : bool :=
  a_malloc a && a_malloc_result a && negb (a_mkstemp a =? -1) && negb (a_unlink a <? 0) && negb (a_ftruncate a <? 0) && a_mmap a.

Definition fresh_stream (a : stream_answers) (s : Z) (sending : bool) (p : process) (sp : iperf_stream) : Prop :=
  sender sp = sending /\ socket sp = s /\ result sp = zero_result /\ buffer sp = buffer_size (p_test p) /\
  0 <= buffer_fd sp /\ (diskfile_name (p_test p) = None -> diskfile_fd sp = -1) /\ (diskfile_name (p_test p) <> None -> 0 <= diskfile_fd sp).

Definition stream_errors : list Z := [IECREATESTREAM; IEFILE; IEINITSTREAM; IESETDONTFRAGMENT].

Definition new_stream_outcome (a : stream_answers) (s : Z) (sending : bool) (p : process) (ok : bool) (p' : process) : Prop :=
  if ok then exists sp, fresh_stream a s sending p sp /\ p' = with_stream sp p
  else p_test p' = p_test p /\ holds (if buffer_mapped a then left_mapped (p_test p) else 0) p p' /\ p_errno p' ∈ stream_errors.

Lemma without_head fd l : without fd (fd :: l) = l.
Proof. cbn [without]. by rewrite Z.eqb_refl. Qed.


Lemma init_stream_spec a p : wp (iperf_init_stream a) (fun r p' => exists e, p' = p <| p_errno := e |> /\ (r = 0 /\ e = p_errno p \/ r = -1 /\ e ∈ stream_errors)) p.
Proof.
  unfold iperf_init_stream. wp_step. wp_step. destruct (a_getsockname a <? 0).
  { unfold set_errno. wp_step. wp_step. wp_step. eexists. split; [reflexivity|]. right. split; [done|]. set_solver. }
  destruct (a_getpeername a <? 0).
  { unfold set_errno. wp_step. wp_step. wp_step. eexists. split; [reflexivity|]. right. split; [done|]. set_solver. }
  destruct (_ && _).
  { unfold set_errno. wp_step. wp_step. wp_step. eexists. split; [reflexivity|]. right. split; [done|]. set_solver. }
  wp_step. exists (p_errno p). split; [by destruct p|by left].
Qed.

(** The process with the memory of a stream, and the error [e]. *)
Definition with_memory (fd e : Z) (p : process) : process :=
  p <| p_errno := e |> <| p_blocks := p_blocks p + 1 + 1 |> <| p_fds := fd :: p_fds p |> <| p_pages := p_pages p + pages (buffer_size (p_test p)) |>.

Lemma munmap_exit_spec a s sending p fd e : buffer_mapped a = true -> e ∈ stream_errors ->
  wp (err_exit_munmap_buffer page_size fd) (new_stream_outcome a s sending p) (with_memory fd e p).
Proof.
  intros Hm He. unfold err_exit_munmap_buffer, err_exit_close_buffer, err_exit_free_result, err_exit_free_sp, munmap, close, free_blocks.
  repeat wp_step. cbn -[without]. rewrite without_head. split_and!; [done|..|done]. rewrite Hm. split_and!; [cbn; lia|done|unfold left_mapped; cbn; lia].
Qed.

Lemma finish_stream_spec a s sending p sp : buffer_mapped a = true -> answers_ok a -> 0 <= buffer_fd sp -> sender sp = sending -> socket sp = s -> result sp = zero_result ->
  buffer sp = buffer_size (p_test p) ->
  wp (finish_stream page_size a sp) (new_stream_outcome a s sending p) (with_memory (buffer_fd sp) (p_errno p) p).
Proof.
  intros Hmap [Hm Ho] Hfd Hd Hs Hr Hb. unfold finish_stream, open_diskfile. repeat wp_step. change (p_test (with_memory _ _ p)) with (p_test p).
  destruct (diskfile_name (p_test p)) as [name|] eqn:En.
  - destruct (Z.eqb_spec (a_open a) (-1)).
    + unfold set_errno. repeat wp_step. apply (munmap_exit_spec a s sending p (buffer_fd sp) IEFILE Hmap). set_solver.
    + unfold opened. repeat wp_step. eapply wp_mono; [apply init_stream_spec|]. intros r p' (e & -> & [[-> ->]|[-> He]]).
      * cbn [Z.ltb Z.compare]. repeat wp_step. exists (sp <| diskfile_fd := a_open a |>). split.
        -- split_and!; try done; [congruence|intros _; cbn; lia].
        -- unfold with_stream, stream_fds, with_memory. cbn -[Z.add]. rewrite En. by replace (p_blocks p + 2) with (p_blocks p + 1 + 1) by lia.
      * cbn [Z.ltb Z.compare]. unfold err_exit_close_diskfile. wp_step. replace (0 <=? a_open a) with true by lia. unfold close. wp_step.
        cbn -[without]. rewrite without_head. by apply (munmap_exit_spec a s sending p (buffer_fd sp) e Hmap).
  - repeat wp_step. eapply wp_mono; [apply init_stream_spec|]. intros r p' (e & -> & [[-> ->]|[-> He]]).
    + cbn [Z.ltb Z.compare]. repeat wp_step. exists (sp <| diskfile_fd := -1 |>). split.
      * split_and!; try done; congruence.
      * unfold with_stream, stream_fds, with_memory. cbn -[Z.add]. rewrite En. by replace (p_blocks p + 2) with (p_blocks p + 1 + 1) by lia.
    + cbn [Z.ltb Z.compare Z.leb Pos.compare]. unfold err_exit_close_diskfile. repeat wp_step. by apply (munmap_exit_spec a s sending p (buffer_fd sp) e Hmap).
Qed.

Ltac given_back H :=
  repeat wp_step; eapply H; [unfold buffer_mapped; repeat match goal with E : _ = _ |- _ => rewrite E end; cbn [negb andb]; by rewrite ?andb_false_r|done| |done|set_solver];
  split_and!; cbn -[without]; first [lia|reflexivity|apply without_head].

Lemma new_stream_spec a s sending p : answers_ok a -> wp (iperf_new_stream page_size a s sending) (new_stream_outcome a s sending p) p.
Proof.
  intros Ha. assert (buffer_mapped a = false -> forall q e, p_test q = p_test p -> holds 0 p q -> p_errno q = e -> e ∈ stream_errors -> new_stream_outcome a s sending p false q) as Hfail.
  { intros Hm q e Ht Hh <- He. unfold new_stream_outcome. rewrite Hm. by split_and!. }
  unfold iperf_new_stream, set_errno, got_block. destruct (a_malloc a) eqn:E1; cbn [negb]; [|given_back Hfail].
  repeat wp_step. unfold err_exit_free_sp, free_blocks.
  destruct (a_malloc_result a) eqn:E2; cbn [negb]; [|given_back Hfail].
  repeat wp_step. unfold map_buffer, err_exit_close_buffer, err_exit_free_result, err_exit_free_sp, set_errno, opened, close, free_blocks.
  destruct (a_mkstemp a =? -1) eqn:E3; [given_back Hfail|].
  repeat wp_step. destruct (a_unlink a <? 0) eqn:E4;
    [given_back Hfail|].
  repeat wp_step. destruct (a_ftruncate a <? 0) eqn:E5;
    [given_back Hfail|].
  destruct (a_mmap a) eqn:E6; cbn [negb];
    [|given_back Hfail].
  unfold mapped. repeat wp_step. match goal with |- wp _ _ ?q => change q with (with_memory (a_mkstemp a) (p_errno p) p) end.
  match goal with |- wp (finish_stream _ _ ?sp) _ _ => apply (finish_stream_spec a s sending p sp) end; try done.
  - unfold buffer_mapped. by rewrite E1, E2, E3, E4, E5, E6.
  - apply Z.eqb_neq in E3. cbn. destruct Ha. lia.
Qed.




End Resources.

(** ** Both ends of a test *)

Section Ends.
Context (page_size : Z).

Lemma add_stream_frame sp t : mode (iperf_add_stream sp t) = mode t /\ num_streams (iperf_add_stream sp t) = num_streams t.
Proof. unfold iperf_add_stream. by destruct (streams t). Qed.

(** A test with these streams, otherwise like another one. *)
Definition has_ends (ds : list bool) (t t' : iperf_test) : Prop :=
  ends t' = numbered_ends ds /\ mode t' = mode t /\ num_streams t' = num_streams t.

Lemma new_stream_ends a s sending ds t p : answers_ok a -> has_ends ds t (p_test p) ->
  wp (iperf_new_stream page_size a s sending) (fun ok p' => has_ends (if ok then ds ++ [sending] else ds) t (p_test p')) p.
Proof.
  intros Ha (He & Hm & Hn). eapply wp_mono; [by apply new_stream_spec|]. intros [] p' H; unfold new_stream_outcome in H.
  - destruct H as (sp & (<- & _) & ->). cbn [p_test update with_stream]. destruct (add_stream_frame sp (p_test p)) as [E1 E2].
    split; [by apply add_stream_ends|]. unfold with_stream. cbn. by rewrite E1, E2.
  - destruct H as (-> & _). done.
Qed.

Lemma create_loop_ends connect answers bind_port sending t n : (forall i, answers_ok (answers i)) -> forall i ds p, has_ends ds t (p_test p) ->
  wp (create_loop page_size connect answers bind_port n i sending)
    (fun r p' => r = 0 /\ has_ends (ds ++ repeat sending n) t (p_test p') \/ r = -1) p.
Proof.
  intros Ha. induction n as [|n IH]; intros i ds p Hp; cbn [create_loop].
  - wp_step. left. by rewrite app_nil_r.
  - repeat wp_step. cbv zeta. destruct (_ <? 0); [wp_step; by right|]. unfold opened. repeat wp_step.
    eapply wp_mono; [apply (new_stream_ends (answers i) _ sending ds t); [done|exact Hp]|]. intros [] p' H; cbn [negb].
    + eapply wp_mono; [by apply IH|]. intros r p'' [[-> Hr]| ->]; [left|by right]. by rewrite <- app_assoc in Hr.
    + unfold close. repeat wp_step. by right.
Qed.

(** The directions of the client's streams, in the order it makes them. *)
Definition client_directions (t : iperf_test) : list bool :=
  let n := Z.to_nat (num_streams t) in
  if mode t =? BIDIRECTIONAL then repeat true n ++ repeat false n else repeat (negb (mode t =? 0)) n.

Lemma client_streams_ends connect answers bind_port p : (forall d i, answers_ok (answers d i)) -> streams (p_test p) = [] ->
  wp (client_streams page_size connect answers bind_port)
    (fun r p' => r = 0 /\ has_ends (client_directions (p_test p)) (p_test p) (p_test p') \/ r = -1) p.
Proof.
  intros Ha Hs. assert (has_ends [] (p_test p) (p_test p)) as H0 by (split; [unfold ends; by rewrite Hs|done]).
  unfold client_streams, client_directions, iperf_create_streams. repeat wp_step. destruct (mode (p_test p) =? BIDIRECTIONAL).
  - repeat wp_step. eapply wp_mono; [by apply create_loop_ends|]. intros r p1 [[-> H1]| ->]; cbn [Z.ltb Z.compare]; [|wp_step; by right].
    repeat wp_step. rewrite (proj2 (proj2 H1)). eapply wp_mono; [by apply create_loop_ends|].
    intros r p2 [[-> H2]| ->]; cbn [Z.ltb Z.compare]; wp_step; [by left|by right].
  - repeat wp_step. eapply wp_mono; [by apply create_loop_ends|]. intros r p1 [[-> H1]| ->]; cbn [Z.ltb Z.compare]; wp_step; [by left|by right].
Qed.
(** The streams accepted so far: those to receive on come first. *)
Record counted (rec send : Z) (ds : list bool) (c : acceptance) : Prop := mk_counted {
  cd_to : streams_to_rec c = rec /\ streams_to_send c = send;
  cd_rec : 0 <= rec_streams_accepted c <= rec;
  cd_send : 0 <= send_streams_accepted c <= send;
  cd_order : send_streams_accepted c = 0 \/ rec_streams_accepted c = rec;
  cd_streams : ds = repeat false (Z.to_nat (rec_streams_accepted c)) ++ repeat true (Z.to_nat (send_streams_accepted c)) }.

Lemma repeat_next {A} (x : A) n : 0 <= n -> repeat x (Z.to_nat (n + 1)) = repeat x (Z.to_nat n) ++ [x].
Proof. intros Hn. rewrite Z2Nat.inj_add by lia. apply repeat_app. Qed.

Lemma next_direction_counted rec send ds c : counted rec send ds c -> all_accepted c = false ->
  exists d : bool, flag (next_direction c) = Some (if d then 1 else 0) /\ counted rec send (ds ++ [d]) (next_direction c).
Proof.
  intros [[Hr Hs] H1 H2 H3 Hds] Hall. unfold next_direction, all_accepted in *. rewrite Hr, Hs in *.
  destruct (Z.eqb_spec (rec_streams_accepted c) rec) as [E|Hn]; cbn [negb andb] in *.
  - rewrite Hall. cbn [negb]. exists true. split; [done|]. apply Z.eqb_neq in Hall. split; cbn; try done; try lia.
    rewrite repeat_next, Hds by lia. by rewrite <- app_assoc.
  - exists false. split; [done|]. assert (send_streams_accepted c = 0) as E0 by (destruct H3; lia). split; cbn; try done; try lia.
    rewrite E0 in *. rewrite repeat_next, Hds by lia. by rewrite !app_nil_r.
Qed.

Lemma take_connection_ends rec send ds s k c t p : answers_ok (c_answers k) -> counted rec send ds c -> all_accepted c = false -> has_ends ds t (p_test p) ->
  wp (take_connection page_size s k c)
    (fun r p' => r.1 = 0 /\ (exists ds', counted rec send ds' r.2 /\ has_ends ds' t (p_test p')) \/ r.1 = -1) p.
Proof.
  intros Ha Hc Hall Hp. unfold take_connection, iperf_common_sockopts, set_errno, close.
  set (Q := fun (r : Z * acceptance) (p' : process) => _ \/ r.1 = -1). assert (forall p, has_ends ds t (p_test p) -> wp
    (if c_closed k then ret (0, c) else
      let c := next_direction c in
      match flag c with
      | None => undefined
      | Some flag_value =>
          if flag_value =? -1 then ret (0, c)
          else
            ok <- iperf_new_stream page_size (c_answers k) s (negb (flag_value =? 0)) ;;
            if negb ok then modify (fun p => p <| p_fds := without s (p_fds p) |>) ;;; ret (-1, c) else ret (0, c <| flag := Some (-1) |>)
      end) Q p) as Htake.
  { clear p Hp. intros p Hp. destruct (c_closed k); [wp_step; left; split; [done|]; by exists ds|]. cbv zeta.
    destruct (next_direction_counted rec send ds c Hc Hall) as (d & -> & Hd).
    replace ((if d then 1 else 0) =? -1) with false by (by destruct d). replace (negb ((if d then 1 else 0) =? 0)) with d by (by destruct d).
    wp_step. eapply wp_mono; [by apply (new_stream_ends (c_answers k) _ d ds t)|]. intros [] p' H; cbn [negb].
    - wp_step. left. split; [done|]. exists (ds ++ [d]). split; [|done]. destruct Hd. by split.
    - repeat wp_step. by right. }
  repeat wp_step. destruct (tos (settings (p_test p)) =? 0); [wp_step; by apply Htake|].
  destruct (_ <? 0); repeat wp_step; [by right|by apply Htake].
Qed.

Lemma accept_stream_ends rec send ds k c t p : answers_ok (c_answers k) -> counted rec send ds c -> all_accepted c = false -> has_ends ds t (p_test p) ->
  wp (accept_stream page_size k c)
    (fun r p' => r.1 = 0 /\ (exists ds', counted rec send ds' r.2 /\ has_ends ds' t (p_test p')) \/ r.1 = -1) p.
Proof.
  intros Ha Hc Hall Hp. unfold accept_stream. destruct (_ <? 0); [wp_step; by right|]. unfold opened, close. wp_step. wp_step. apply wp_bind.
  assert (forall p, has_ends ds t (p_test p) -> wp (take_connection page_size (c_accept k) k c)
    (fun r p' => r.1 = 0 /\ (exists ds', counted rec send ds' r.2 /\ has_ends ds' t (p_test p')) \/ r.1 = -1) p) as Htake.
  { clear p Hp. intros p Hp. by apply (take_connection_ends rec send ds). }
  destruct (c_closed k); wp_step; by apply Htake.
Qed.

(** The directions of the server's streams, in the order it accepts them. *)
Definition server_directions (t : iperf_test) : list bool :=
  let c := streams_number t (mk_acceptance 0 0 0 0 None) in
  repeat false (Z.to_nat (streams_to_rec c)) ++ repeat true (Z.to_nat (streams_to_send c)).

Lemma accept_streams_ends rec send t ks : Forall (fun k => answers_ok (c_answers k)) ks -> forall ds c p,
  counted rec send ds c -> all_accepted c = false -> has_ends ds t (p_test p) ->
  wp (accept_streams page_size ks c)
    (fun r p' => r.1 = 0 /\ (all_accepted r.2 = true -> has_ends (repeat false (Z.to_nat rec) ++ repeat true (Z.to_nat send)) t (p_test p')) \/ r.1 = -1) p.
Proof.
  intros Ha. induction Ha as [|k ks Hk _ IH]; intros ds c p Hc Hall Hp; cbn [accept_streams].
  - wp_step. left. split; [done|]. cbn. by rewrite Hall.
  - wp_step. eapply wp_mono; [by apply (accept_stream_ends rec send ds)|]. intros [r c'] p' [[Hr (ds' & Hc' & Hp')]|Hr]; cbn [fst snd] in *; subst r.
    + cbn [Z.ltb Z.compare]. destruct (all_accepted c') eqn:E.
      * wp_step. left. split; [done|]. intros _. destruct Hc' as [[Hr Hs] _ _ _ ->]. unfold all_accepted in E.
        apply andb_true_iff in E as [E1 E2]. apply Z.eqb_eq in E1, E2. by rewrite <- Hr, <- Hs, <- E1, <- E2.
      * by apply (IH ds').
    + cbn [Z.ltb Z.compare]. wp_step. by right.
Qed.

(** The server's mode is the opposite of the client's. *)
Definition opposite (m1 m2 : Z) : Prop :=
  m1 = BIDIRECTIONAL /\ m2 = BIDIRECTIONAL \/ m1 = SENDER /\ m2 = RECEIVER \/ m1 = RECEIVER /\ m2 = SENDER.

Lemma negb_repeat b n : negb <$> repeat b n = repeat (negb b) n.
Proof. induction n; [done|]. cbn. by f_equal. Qed.

Lemma opposite_directions tc ts : opposite (mode tc) (mode ts) -> num_streams ts = num_streams tc -> server_directions ts = negb <$> client_directions tc.
Proof.
  unfold server_directions, client_directions, streams_number. intros [[-> ->]|[[-> ->]|[-> ->]]] ->; cbn.
  - by rewrite fmap_app, !negb_repeat.
  - by rewrite negb_repeat, app_nil_r.
  - by rewrite negb_repeat.
Qed.
End Ends.

(** C20: when client and server have made the streams of a test, the client by
    connecting and the server by accepting, with denied connections in between,
    both number them alike, every number is used once, and what one end sends
    on the other end receives on. *)
Theorem streams_match page_size connect answers bind_port ks pc ps rc pc' rs c ps'
    (Hac : forall d i, answers_ok (answers d i)) (Has : Forall (fun k => answers_ok (c_answers k)) ks)
    (Hc0 : streams (p_test pc) = []) (Hs0 : streams (p_test ps) = [])
    (Hn : num_streams (p_test ps) = num_streams (p_test pc)) (Hpos : 0 < num_streams (p_test pc))
    (Hm : opposite (mode (p_test pc)) (mode (p_test ps)))
    (Ec : client_streams page_size connect answers bind_port pc = Ret (rc, pc')) (Hrc : rc = 0)
    (Es : accept_streams page_size ks (streams_number (p_test ps) (mk_acceptance 0 0 0 0 None)) ps = Ret ((rs, c), ps')) (Hrs : rs = 0)
    (Hall : all_accepted c = true) :
  id <$> streams (p_test pc') = id <$> streams (p_test ps') /\ NoDup (id <$> streams (p_test pc')) /\
  forall sp sp2, sp ∈ streams (p_test pc') -> sp2 ∈ streams (p_test ps') -> id sp2 = id sp -> sender sp = negb (sender sp2).
Proof.
  pose proof (client_streams_ends page_size connect answers bind_port pc Hac Hc0) as Hc. unfold wp in Hc. rewrite Ec, Hrc in Hc.
  destruct Hc as [[_ (Hc & _)]|]; [|done].
  set (tc := p_test pc) in *. set (ts := p_test ps) in *. set (c0 := streams_number ts _) in *.
  assert (counted (streams_to_rec c0) (streams_to_send c0) [] c0) as Hcount.
  { unfold c0, streams_number. destruct (mode ts =? BIDIRECTIONAL); [|destruct (mode ts =? RECEIVER)]; split; cbn; try done; try lia; by left. }
  assert (all_accepted c0 = false) as Hopen.
  { assert ((0 =? num_streams ts) = false) as Ez by (apply Z.eqb_neq; lia).
    unfold c0, streams_number, all_accepted. destruct (mode ts =? BIDIRECTIONAL); [|destruct (mode ts =? RECEIVER)]; cbn -[Z.eqb]; by rewrite Ez. }
  assert (has_ends [] ts ts) as H0 by (split; [unfold ends; by rewrite Hs0|done]).
  pose proof (accept_streams_ends page_size _ _ ts ks Has [] c0 ps Hcount Hopen H0) as Hs. unfold wp in Hs. rewrite Es in Hs. cbn [fst snd] in Hs.
  destruct Hs as [[_ Hs]|Hs]; [|lia]. destruct (Hs Hall) as (Hs1 & _).
  change (ends (p_test ps') = numbered_ends (server_directions ts)) in Hs1. rewrite (opposite_directions tc ts Hm Hn) in Hs1.
  split; [|split].
  - by rewrite <- !ends_ids, Hc, Hs1, numbered_ends_ids.
  - rewrite <- ends_ids, Hc. apply numbered_ends_nodup.
  - intros sp sp2 Hsp Hsp2 Hid. apply (numbered_ends_opposite (client_directions tc) (id sp)).
    + rewrite <- Hc. apply list_elem_of_fmap. by exists sp.
    + rewrite <- Hs1, <- Hid. apply list_elem_of_fmap. by exists sp2.
Qed.

(** ** Examples *)

Definition fine (fd : Z) : stream_answers := mk_answers true true fd 0 0 true (-1) 0 0 true 0.

Definition sample_process (t : iperf_test) : process := mk_process t 0 7 [3] 40 [] [].

(** Segmentation offload with buffers of 65507 bytes, and a socket that cannot be asked for its peer. *)
Definition offload_process : process :=
  sample_process ((iperf_defaults iperf_new_test) <| protocol := Pudp |> <|s gso := 1 |> <|s blksize := 1460 |>).



(** Three of the four pages stay mapped. *)
Example offload_left : left_mapped 16384 (p_test offload_process) = 3.
Proof. by vm_compute. Qed.

(** Two streams in each direction; the third connection is denied. *)
Definition bidirectional_process (r : Z) : process :=
  sample_process (iperf_new_test <| role := r |> <| mode := BIDIRECTIONAL |> <| num_streams := 2 |>).

Definition sample_connections : list connection :=
  [mk_connection 10 false 0 false (fine 20); mk_connection 11 false 0 false (fine 21); mk_connection 12 false 0 true (fine 22);
   mk_connection 12 true 0 false (fine 22); mk_connection 13 false 0 false (fine 23)].

Definition sample_create : CM process Z := client_streams 16384 (fun sending i _ => Z.of_nat i + 10) (fun sending i => fine (Z.of_nat i + 20)) 0.
Definition sample_accept : CM process (Z * acceptance) :=
  accept_streams 16384 sample_connections (streams_number (p_test (bidirectional_process role_server)) (mk_acceptance 0 0 0 0 None)).

Definition state_after {S A} (m : CM S A) (s : S) : S := match m s with Ret (_, s') => s' | _ => s end.
Definition value_after {S A} (m : CM S A) (s : S) (a : A) : A := match m s with Ret (a, _) => a | _ => a end.

Definition client_after : process := state_after sample_create (bidirectional_process role_client).
Definition server_after : process := state_after sample_accept (bidirectional_process role_server).
Definition accepted_after : acceptance := (value_after sample_accept (bidirectional_process role_server) (0, mk_acceptance 0 0 0 0 None)).2.

Example sample_ends : ends (p_test client_after) = [(1, true); (3, true); (4, false); (5, false)] /\
  ends (p_test server_after) = [(1, false); (3, false); (4, true); (5, true)].
Proof. by vm_compute. Qed.

Lemma streams_match_witness :
  id <$> streams (p_test client_after) = id <$> streams (p_test server_after) /\ NoDup (id <$> streams (p_test client_after)) /\
  forall sp sp2, sp ∈ streams (p_test client_after) -> sp2 ∈ streams (p_test server_after) -> id sp2 = id sp -> sender sp = negb (sender sp2).
Proof.
  refine (streams_match 16384 (fun sending i _ => Z.of_nat i + 10) (fun sending i => fine (Z.of_nat i + 20)) 0 sample_connections
    (bidirectional_process role_client) (bidirectional_process role_server) 0 client_after 0 accepted_after server_after _ _ eq_refl eq_refl eq_refl _ _ _ eq_refl _ eq_refl _).
  - intros d i. split; cbn; lia.
  - repeat apply Forall_cons_2; try apply Forall_nil_2; split; cbn; lia.
  - cbn. lia.
  - by left.
  - vm_compute. reflexivity.
  - vm_compute. reflexivity.
  - vm_compute. reflexivity.
Defined.
