(* ===== verification/Connect.v ===== *)
(** * Connections

    [timeout_connect], [create_socket], [netdial] and [netannounce] ([net.c]),
    the closing of a listener ([custom.c]), [iperf_tcp_accept],
    [iperf_tcp_listen], [iperf_tcp_connect] ([iperf_tcp.c]),
    [iperf_udp_buffercheck], [iperf_udp_accept], [iperf_udp_listen] and
    [iperf_udp_connect] ([iperf_udp.c]).

    The answers of the system are a class: the result of a call, the [errno] it
    leaves, the values it stores.  The addresses a lookup returns are blocks of
    the process.  Debug printing and the output in JSON are left out. *)

From S2P Require Import Prelude Bytes IperfTest Streams.
Local Open Scope c_scope.

Definition IERECVCOOKIE : Z := 106.
Definition IESENDCOOKIE : Z := 105.
Definition IESETNODELAY : Z := 122.
Definition IESETMSS : Z := 123.
Definition IESETBUF : Z := 124.
Definition IEREUSEADDR : Z := 128.
Definition IEV6ONLY : Z := 136.
Definition IESETBUF2 : Z := 141.
Definition IEBINDDEV : Z := 143.
Definition IEBINDDEVNOSUPPORT : Z := 146.
Definition IESTREAMLISTEN : Z := 202.
Definition IESTREAMCONNECT : Z := 203.
Definition IESTREAMACCEPT : Z := 204.
Definition IENONE : Z := 0.

Definition AF_UNSPEC : Z := 0.
Definition AF_INET : Z := 2.
Definition AF_INET6 : Z := 30.
Definition SOCK_STREAM : Z := 1.
Definition EINPROGRESS : Z := 36.
Definition ENOTSUP : Z := 45.
Definition ETIMEDOUT : Z := 60.
Definition EOPNOTSUPP : Z := 102.
Definition COOKIE_SIZE : Z := 37.
Definition UDP_BUFFER_EXTRA : Z := 1024.
Definition UDP_CONNECT_REPLY : Z := 0x39383736.
Definition LEGACY_UDP_CONNECT_REPLY : Z := 987654321.
Definition MAX_REVERSE_OUT_OF_ORDER_PACKETS : Z := 2.

(** ** The system *)

(** Each call a function makes, of which there is one in every run of it; only
    the buffers of a UDP socket may be set and looked at [again], with other
    answers. *)
Inductive syscall :=
| Getaddrinfo_local | Getaddrinfo | Socket | No_sigpipe | Bind_dev | Bind | Listen | Accept
| Fcntl_nonblock | Connect | Poll | Get_error | Fcntl_restore
| Set_nodelay | Set_maxseg | Set_rcvbuf (again : bool) | Set_sndbuf (again : bool) | Get_sndbuf (again : bool) | Get_rcvbuf (again : bool)
| Set_reuseaddr | Set_v6only | Set_tos | Recvfrom | Write | Nread_cookie | Nwrite_cookie.

Class answers := {
  sys : syscall -> Z;
  errno_after : syscall -> Z;
  sndbuf_actual : bool -> Z;
  rcvbuf_actual : bool -> Z;
  so_error : Z;
  ai_family : Z;
  is_inet6 : bool;
  cookie_read : list Z }.

Section Connect.
Context {os : answers}.

(** A call that fails: what is given back, the error set, if any, and -1. *)
Definition failed_call (cleanup : PM unit) (e : option Z) : PM Z :=
  cleanup ;;; match e with Some e => set_errno e | None => ret tt end ;;; ret (-1).

Definition freeaddrinfo : PM unit := free_blocks 1.

(** ** [net.c] *)

(** The result and [errno]. *)
Definition timeout_connect (timeout : Z) : Z * Z :=
  if negb (timeout =? -1) && (sys Fcntl_nonblock =? -1) then (-1, errno_after Fcntl_nonblock)
  else
    let '(ret, e) :=
      if negb (sys Connect =? 0) && (errno_after Connect =? EINPROGRESS) then
        if sys Poll =? 1 then
          if sys Get_error =? 0 then (if so_error =? 0 then 0 else -1, so_error) else (sys Get_error, errno_after Get_error)
        else if sys Poll =? 0 then (-1, ETIMEDOUT) else (-1, errno_after Poll)
      else (sys Connect, errno_after Connect) in
    if negb (timeout =? -1) && (sys Fcntl_restore =? -1) then (-1, errno_after Fcntl_restore) else (ret, e).

Definition bind_dev_error : Z :=
  if (errno_after Bind_dev =? ENOTSUP) || (errno_after Bind_dev =? EOPNOTSUPP) then IEBINDDEVNOSUPPORT else IEBINDDEV.

Definition when_failed (failed : bool) (cleanup : PM unit) (e : option Z) (k : PM Z) : PM Z := if failed then failed_call cleanup e else k.

(** With the result of the server's lookup for the caller.  Where no local
    address was looked up, freeing it has no effect. *)
Definition create_socket (type : Z) (local bind_dev : bool) (local_port : Z) : PM Z :=
  let free_local := when local do freeaddrinfo in
  when_failed (local && negb (sys Getaddrinfo_local =? 0)) (ret tt) None
    ((when local do got_block) ;;;
     when_failed (negb (sys Getaddrinfo =? 0)) free_local None
       (got_block ;;;
        let s := sys Socket in
        let free := free_local ;;; freeaddrinfo in
        when_failed (s <? 0) free None
          (opened s ;;;
           when_failed ((type =? SOCK_STREAM) && (sys No_sigpipe <? 0)) (close s ;;; free) None
             (when_failed (bind_dev && (sys Bind_dev <? 0)) (close s ;;; free) (Some bind_dev_error)
                (if local then when_failed (sys Bind <? 0) (close s ;;; free) None (freeaddrinfo ;;; ret s)
                 else if negb (local_port =? 0) then
                   when_failed (negb ((ai_family =? AF_INET) || (ai_family =? AF_INET6)) || (sys Bind <? 0)) (close s ;;; freeaddrinfo) None (ret s)
                 else ret s))))).

Definition netdial (proto : Z) (local bind_dev : bool) (local_port timeout : Z) : PM Z :=
  s <- create_socket proto local bind_dev local_port ;;
  if s <? 0 then ret (-1)
  else
    let '(r, e) := timeout_connect timeout in
    when_failed ((r <? 0) && negb (e =? EINPROGRESS)) (close s ;;; freeaddrinfo) None (freeaddrinfo ;;; ret s).

(** Whether the option is set, and to which value. *)
Definition v6only (domain : Z) : option Z :=
  if (ai_family =? AF_INET6) && ((domain =? AF_UNSPEC) || (domain =? AF_INET6)) then Some (if domain =? AF_UNSPEC then 0 else 1) else None.

Definition netannounce (domain proto : Z) (bind_dev : bool) : PM Z :=
  when_failed (negb (sys Getaddrinfo =? 0)) (ret tt) None
    (got_block ;;;
     let s := sys Socket in
     when_failed (s <? 0) freeaddrinfo None
       (opened s ;;;
        let undo := close s ;;; freeaddrinfo in
        when_failed ((proto =? SOCK_STREAM) && (sys No_sigpipe <? 0)) undo None
          (when_failed (bind_dev && (sys Bind_dev <? 0)) undo (Some bind_dev_error)
             (when_failed (sys Set_reuseaddr <? 0) undo None
                (when_failed (match v6only domain with Some _ => sys Set_v6only <? 0 | None => false end) undo None
                   (when_failed (sys Bind <? 0) undo None
                      (freeaddrinfo ;;;
                       when_failed ((proto =? SOCK_STREAM) && (sys Listen <? 0)) (close s) None (ret s)))))))).

(** ** Listeners *)

Definition iperf_close_test_listener_socket (l : Z) : PM unit :=
  if l <? 0 then ret tt
  else
    modify (fun p => p <| p_test := let t := p_test p in if listener t =? l then t <| listener := -1 |> else t |>) ;;;
    modify (fun p => p <| p_test := let t := p_test p in if prot_listener t =? l then t <| prot_listener := -1 |> else t |>) ;;;
    shutdown l ;;;
    close l.

Definition iperf_close_test_listener : PM unit :=
  t <- gets p_test ;; iperf_close_test_listener_socket (listener t).

(** ** TCP *)

(** The option is set for the other domain than in [netannounce]. *)
Definition listen_v6only (domain : Z) : option Z :=
  if (ai_family =? AF_INET6) && ((domain =? AF_UNSPEC) || (domain =? AF_INET)) then Some (if domain =? AF_UNSPEC then 0 else 1) else None.

(** The sizes the socket has, for a caller that undoes with [undo]. *)
Definition check_buffers (again : bool) (undo : PM unit) (t : iperf_test) (k : PM Z) : PM Z :=
  let too_small (actual : Z) := negb (socket_bufsize (settings t) =? 0) && (actual <? socket_bufsize (settings t)) in
  when_failed (sys (Get_sndbuf again) <? 0) undo (Some IESETBUF)
    (when_failed (too_small (sndbuf_actual again)) undo (Some IESETBUF2)
       (when_failed (sys (Get_rcvbuf again) <? 0) undo (Some IESETBUF)
          (when_failed (too_small (rcvbuf_actual again)) undo (Some IESETBUF2) k))).

Definition set_buffers (again : bool) (undo : PM unit) (t : iperf_test) (k : PM Z) : PM Z :=
  if socket_bufsize (settings t) =? 0 then k
  else when_failed (sys (Set_rcvbuf again) <? 0) undo (Some IESETBUF) (when_failed (sys (Set_sndbuf again) <? 0) undo (Some IESETBUF) k).

Definition set_tcp_options (undo : PM unit) (t : iperf_test) (k : PM Z) : PM Z :=
  when_failed (negb (no_delay t =? 0) && (sys Set_nodelay <? 0)) undo (Some IESETNODELAY)
    (when_failed (negb (mss (settings t) =? 0) && (sys Set_maxseg <? 0)) undo (Some IESETMSS) (set_buffers false undo t k)).

(** A socket with the test's options instead of the listener; [mptcp] is off. *)
Definition new_listener (domain : Z) (t : iperf_test) : PM Z :=
  FD_CLR (listener t) ;;;
  iperf_close_test_listener_socket (listener t) ;;;
  when_failed (negb (sys Getaddrinfo =? 0)) (ret tt) (Some IESTREAMLISTEN)
    (got_block ;;;
     let s := sys Socket in
     when_failed (s <? 0) freeaddrinfo (Some IESTREAMLISTEN)
       (opened s ;;;
        let undo := iperf_close_test_listener_socket s ;;; freeaddrinfo in
        when_failed (sys No_sigpipe <? 0) undo (Some IESTREAMLISTEN)
          (set_tcp_options undo t
             (when_failed (sys Set_reuseaddr <? 0) undo (Some IEREUSEADDR)
                (when_failed (match listen_v6only domain with Some _ => sys Set_v6only <? 0 | None => false end) undo (Some IEV6ONLY)
                   (when_failed (sys Bind <? 0) undo (Some IESTREAMLISTEN)
                      (freeaddrinfo ;;;
                       when_failed (sys Listen <? 0) (iperf_close_test_listener_socket s) (Some IESTREAMLISTEN)
                         (modify (fun p => p <| p_test := (p_test p) <| listener := s |> |>) ;;; ret s)))))))).

Definition iperf_tcp_listen (domain : Z) : PM Z :=
  t <- gets p_test ;;
  let special := negb (no_delay t =? 0) || negb (mss (settings t) =? 0) || negb (socket_bufsize (settings t) =? 0) in
  s <- (if special then new_listener domain t else ret (listener t)) ;;
  if special && (s <? 0) then ret (-1)
  else
    let undo := iperf_close_test_listener_socket s in
    check_buffers false undo t
      (r <- iperf_common_sockopts is_inet6 (sys Set_tos) ;;
       if r <? 0 then undo ;;; ret (-1) else ret s).

Definition iperf_tcp_connect (local bind_dev : bool) (local_port : Z) : PM Z :=
  t <- gets p_test ;;
  s <- create_socket SOCK_STREAM local bind_dev local_port ;;
  if s <? 0 then set_errno IESTREAMCONNECT ;;; ret (-1)
  else
    let undo := close s ;;; freeaddrinfo in
    set_tcp_options undo t
      (check_buffers false undo t
         (r <- iperf_common_sockopts is_inet6 (sys Set_tos) ;;
          if r <? 0 then undo ;;; ret (-1)
          else
            let '(r, e) := timeout_connect 120000 in
            when_failed ((r <? 0) && negb (e =? EINPROGRESS)) undo (Some IESTREAMCONNECT)
              (freeaddrinfo ;;;
               when_failed (sys Nwrite_cookie <? 0) (close s) (Some IESENDCOOKIE) (ret s)))).

(** [strncmp] of the test's cookie with the one read into zeroed memory. *)
Definition same_cookie (cookie : list Z) : bool :=
  bool_decide (cstr (firstn (Z.to_nat COOKIE_SIZE) cookie) = cstr (firstn (Z.to_nat COOKIE_SIZE) cookie_read)).

(** A stranger's connection is closed and its number returned all the same. *)
Definition iperf_tcp_accept (cookie : list Z) : PM Z :=
  let s := sys Accept in
  when_failed (s <? 0) (ret tt) (Some IESTREAMCONNECT)
    (opened s ;;;
     when_failed (sys No_sigpipe <? 0) (close s) (Some IESTREAMCONNECT)
       (if sys Nread_cookie <? 0 then set_errno IERECVCOOKIE ;;; close s ;;; ret (-1)
        else (when negb (same_cookie cookie) do close s) ;;; ret s)).

(** ** UDP *)

(** -1, or whether a message may not fit the buffers. *)
Definition iperf_udp_buffercheck (again : bool) : PM Z :=
  t <- gets p_test ;;
  set_buffers again (ret tt) t
    (check_buffers again (ret tt) t
       (ret (if (sndbuf_actual again <? blksize (settings t)) || (rcvbuf_actual again <? blksize (settings t)) then 1 else 0))).

(** Once more with a larger size, if it was the default one. *)
Definition grow_buffers (rc : Z) : PM Z :=
  t <- gets p_test ;;
  if (0 <? rc) && (socket_bufsize (settings t) =? 0) then
    modify (fun p => p <| p_test := (p_test p) <|s socket_bufsize := s32 (blksize (settings t) + UDP_BUFFER_EXTRA) |> |>) ;;;
    iperf_udp_buffercheck true
  else ret rc.

(** On this platform neither is available. *)
Definition iperf_udp_gso : PM unit := modify (fun p => p <| p_test := (p_test p) <|s gso := 0 |> |>).
Definition iperf_udp_gro : PM unit := modify (fun p => p <| p_test := (p_test p) <|s gro := 0 |> |>).

Definition no_offload : PM unit :=
  t <- gets p_test ;;
  (when negb (gso (settings t) =? 0) do iperf_udp_gso) ;;;
  t <- gets p_test ;;
  when negb (gro (settings t) =? 0) do iperf_udp_gro.

(** [announce] is [netannounce] with its own answers. *)
Definition iperf_udp_listen (announce : PM Z) : PM Z :=
  s <- announce ;;
  if s <? 0 then
    p <- get ;;
    (when p_errno p =? IENONE do set_errno IESTREAMLISTEN) ;;; ret (-1)
  else ret s.

Definition iperf_udp_accept (announce : PM Z) : PM Z :=
  t <- gets p_test ;;
  let s := prot_listener t in
  when_failed (sys Recvfrom <? 0) (ret tt) (Some IESTREAMACCEPT)
    (when_failed (sys Connect <? 0) (ret tt) (Some IESTREAMACCEPT)
       (rc <- iperf_udp_buffercheck false ;;
        if rc <? 0 then ret rc
        else
          rc <- grow_buffers rc ;;
          if rc <? 0 then ret rc
          else
            no_offload ;;;
            r <- iperf_common_sockopts is_inet6 (sys Set_tos) ;;
            if r <? 0 then ret (-1)
            else
              FD_CLR s ;;;
              l <- announce ;;
              modify (fun p => p <| p_test := (p_test p) <| prot_listener := l |> |>) ;;;
              if l <? 0 then
                p <- get ;;
                (when p_errno p =? IENONE do set_errno IESTREAMLISTEN) ;;; ret (-1)
              else
                FD_SET l ;;;
                when_failed (sys Write <? 0) (ret tt) (Some IESTREAMWRITE) (ret s))).

(** The datagrams that come, until one is the reply: [None] for an error.  A
    short one leaves the rest of [buf] as it was. *)
Fixpoint await_reply (datagrams : list (option (list Z))) (buf : list Z) (i limit : Z) : option (option (list Z)) :=
  match datagrams with
  | [] => None
  | None :: _ => Some None
  | Some d :: datagrams =>
      let sz := Z.min 4 (zlen d) in
      let buf := firstn (Z.to_nat sz) d ++ drop (Z.to_nat sz) buf in
      let v := ntohl (rev buf) in
      if negb (v =? UDP_CONNECT_REPLY) && negb (v =? LEGACY_UDP_CONNECT_REPLY) && (i + sz <? limit)
      then await_reply datagrams buf (i + sz) limit
      else Some (Some buf)
  end.

(** "6789" as four bytes. *)
Definition connect_message : list Z := [57; 56; 55; 54].

Definition iperf_udp_connect (dial : PM Z) (datagrams : list (option (list Z))) : PM Z :=
  s <- dial ;;
  if s <? 0 then set_errno IESTREAMCONNECT ;;; ret (-1)
  else
    let cleanup (rc : Z) := close s ;;; ret rc in
    rc <- iperf_udp_buffercheck false ;;
    if rc <? 0 then cleanup rc
    else
      no_offload ;;;
      rc <- grow_buffers rc ;;
      if rc <? 0 then cleanup rc
      else
        r <- iperf_common_sockopts is_inet6 (sys Set_tos) ;;
        if r <? 0 then cleanup (-1)
        else if sys Write <? 0 then set_errno IESTREAMWRITE ;;; cleanup (-1)
        else
          t <- gets p_test ;;
          let limit := 4 + (if reverse t =? 0 then 0 else MAX_REVERSE_OUT_OF_ORDER_PACKETS * blksize (settings t)) in
          match await_reply datagrams connect_message 0 limit with
          | None => out_of_fuel
          | Some None => set_errno IESTREAMREAD ;;; cleanup (-1)
          | Some (Some buf) =>
              let v := ntohl (rev buf) in
              if negb (v =? UDP_CONNECT_REPLY) && negb (v =? LEGACY_UDP_CONNECT_REPLY) then set_errno IESTREAMREAD ;;; cleanup (-1)
              else ret s
          end.
End Connect.
