(* ===== verification/ConnectSpec.v ===== *)
(** * No descriptor is lost

    Whatever the system answers, a connection that cannot be made leaves what
    the process holds as it was, and one that is made adds its socket. *)

From S2P Require Import Prelude Bytes IperfTest Streams StreamsSpec Connect.
Local Open Scope c_scope.

Section Spec.
Context {os : answers}.

(** The same but for the test and the error. *)
Record kept (p p' : process) : Prop := {
  k_blocks : p_blocks p' = p_blocks p;
  k_fds : p_fds p' = p_fds p;
  k_pages : p_pages p' = p_pages p;
  k_read_set : p_read_set p' = p_read_set p }.

Lemma kept_refl p : kept p p.
Proof. done. Qed.

Lemma kept_trans p1 p2 p3 : kept p1 p2 -> kept p2 p3 -> kept p1 p3.
Proof. intros [] []. split; congruence. Qed.

(** A descriptor and [n] blocks more. *)
Definition holding (s n : Z) (p p' : process) : Prop :=
  p_blocks p' = p_blocks p + n /\ p_fds p' = s :: p_fds p /\ p_pages p' = p_pages p /\ p_read_set p' = p_read_set p.

(** A call that opens [s], or fails and keeps everything. *)
Definition opens (s n : Z) (p : process) (r : Z) (p' : process) : Prop :=
  r = s /\ 0 <= s /\ holding s n p p' \/ r = -1 /\ kept p p'.

Lemma wp_when_failed b cleanup e k Q p :
  (b = true -> wp (failed_call cleanup e) Q p) -> (b = false -> wp k Q p) -> wp (when_failed b cleanup e k) Q p.
Proof. unfold when_failed. destruct b; auto. Qed.

Lemma wp_give_up cleanup e Q p :
  wp cleanup (fun _ p' => Q (-1) (match e with Some e => p' <| p_errno := e |> | None => p' end)) p -> wp (failed_call cleanup e) Q p.
Proof.
  intros H. unfold failed_call. apply wp_bind. eapply wp_mono; [exact H|]. intros [] p' HQ.
  destruct e; repeat (apply wp_bind || apply wp_ret || apply wp_modify); done.
Qed.

Ltac step := unfold set_errno, got_block, free_blocks, freeaddrinfo, opened, close, shutdown, FD_CLR, FD_SET; repeat wp_step.

Ltac finish := unfold opens, holding; cbn -[without]; rewrite ?without_head;
  first [by left; split_and!; try done; lia|by right; split; [done|split; cbn -[without]; rewrite ?without_head; try done; lia]].

Ltac settle := repeat first
  [apply wp_when_failed; intros ?|apply wp_give_up|progress step|match goal with |- wp (if ?b then _ else _) _ _ => destruct b eqn:? end].

Lemma create_socket_opens type local bind_dev local_port p :
  wp (create_socket type local bind_dev local_port) (opens (sys Socket) 1 p) p.
Proof.
  unfold create_socket. cbv zeta. destruct local, bind_dev; cbn [andb]; settle; try discriminate.
  all: repeat match goal with H : (_ <? _) = true |- _ => apply Z.ltb_lt in H | H : (_ <? _) = false |- _ => apply Z.ltb_ge in H end; try finish.
Qed.

Ltac signs := repeat match goal with
  | H : (_ <? _) = true |- _ => apply Z.ltb_lt in H
  | H : (_ <? _) = false |- _ => apply Z.ltb_ge in H
  end.

Lemma netdial_opens proto local bind_dev local_port timeout p :
  wp (netdial proto local bind_dev local_port timeout) (opens (sys Socket) 0 p) p.
Proof.
  unfold netdial. step. eapply wp_mono; [apply create_socket_opens|]. intros r p1 [(-> & Hs & H1 & H2 & H3 & H4)|[-> Hk]].
  - rewrite (proj2 (Z.ltb_ge _ _)) by done. destruct (timeout_connect timeout) as [r e]. settle; unfold opens, holding; cbn -[without]; rewrite ?H2, ?without_head.
    + right. split; [done|]. split; cbn -[without]; rewrite ?H2, ?without_head; first [done|congruence|lia].
    + left. split_and!; try done; lia.
  - rewrite (proj2 (Z.ltb_lt _ _)) by done. step. by right.
Qed.

Lemma netannounce_opens domain proto bind_dev p : wp (netannounce domain proto bind_dev) (opens (sys Socket) 0 p) p.
Proof. unfold netannounce. cbv zeta. settle; signs; finish. Qed.

(** What a step that fails leaves. *)
Definition fails_clean (undo : PM unit) (Q : Z -> process -> Prop) (p : process) : Prop :=
  forall e, wp undo (fun _ p' => Q (-1) (p' <| p_errno := e |>)) p.

Lemma wp_check_buffers again undo t k Q p : fails_clean undo Q p -> wp k Q p -> wp (check_buffers again undo t k) Q p.
Proof. intros Hu Hk. unfold check_buffers. cbv zeta. repeat (apply wp_when_failed; [intros _; apply wp_give_up; apply Hu|intros _]). done. Qed.

Lemma wp_set_buffers again undo t k Q p : fails_clean undo Q p -> wp k Q p -> wp (set_buffers again undo t k) Q p.
Proof. intros Hu Hk. unfold set_buffers. destruct (_ =? 0); [done|]. repeat (apply wp_when_failed; [intros _; apply wp_give_up; apply Hu|intros _]). done. Qed.

Lemma wp_set_tcp_options undo t k Q p : fails_clean undo Q p -> wp k Q p -> wp (set_tcp_options undo t k) Q p.
Proof.
  intros Hu Hk. unfold set_tcp_options. repeat (apply wp_when_failed; [intros _; apply wp_give_up; apply Hu|intros _]). by apply wp_set_buffers.
Qed.

Lemma wp_sockopts inet6 r Q p : (forall v e, v = 0 \/ v = -1 -> Q v (p <| p_errno := e |>)) -> wp (iperf_common_sockopts inet6 r) Q p.
Proof.
  assert (p = p <| p_errno := p_errno p |>) as E by (by destruct p).
  intros H. unfold iperf_common_sockopts. step. destruct (_ =? 0); [step; rewrite E; by apply H; left|].
  destruct (r <? 0); step; [apply H; by right|rewrite E; by apply H; left].
Qed.

Lemma tcp_connect_opens local bind_dev local_port p : wp (iperf_tcp_connect local bind_dev local_port) (opens (sys Socket) 0 p) p.
Proof.
  unfold iperf_tcp_connect. step. eapply wp_mono; [apply create_socket_opens|]. intros r p1 [(-> & Hs & H1 & H2 & H3 & H4)|[-> Hk]].
  2:{ rewrite (proj2 (Z.ltb_lt _ _)) by done. step. right. split; [done|]. by destruct Hk; split. }
  rewrite (proj2 (Z.ltb_ge _ _)) by done.
  assert (forall e p', p_fds p' = p_fds p1 -> p_blocks p' = p_blocks p1 -> p_pages p' = p_pages p1 -> p_read_set p' = p_read_set p1 ->
    wp (close (sys Socket) ;;; freeaddrinfo) (fun _ q => opens (sys Socket) 0 p (-1) (q <| p_errno := e |>) /\ opens (sys Socket) 0 p (-1) q) p') as Hundo.
  { intros e p' E1 E2 E3 E4. step. split; right; (split; [done|]; split; cbn -[without]; rewrite ?E1, ?H2, ?without_head; first [done|congruence|lia]). }
  assert (fails_clean (close (sys Socket) ;;; freeaddrinfo) (opens (sys Socket) 0 p) p1) as Hfails.
  { intros e. eapply wp_mono; [by apply (Hundo e)|]. by intros [] q [? _]. }
  apply wp_set_tcp_options; [done|]. apply wp_check_buffers; [done|]. step. apply wp_sockopts. intros v e Hv. destruct (Z.ltb_spec v 0).
  { apply wp_bind. eapply wp_mono; [by apply (Hundo 0)|]. intros [] q [_ ?]. by step. }
  destruct (timeout_connect 120000) as [r e']. apply wp_when_failed; intros _.
  { apply wp_give_up. eapply wp_mono; [by apply (Hundo IESTREAMCONNECT)|]. by intros [] q [? _]. }
  step. apply wp_when_failed; intros _; [apply wp_give_up|]; step.
  - right. split; [done|]. split; cbn -[without]; rewrite ?H2, ?without_head; first [done|congruence|lia].
  - left. split_and!; try done. unfold holding; cbn -[without]. split_and!; try done; lia.
Qed.

(** A step that keeps what the process holds and gives 0, 1 or -1. *)
Definition harmless (m : PM Z) : Prop := forall p, wp m (fun r p' => -1 <= r <= 1 /\ kept p p') p.

Lemma buffercheck_harmless again : harmless (iperf_udp_buffercheck again).
Proof.
  intros p. unfold iperf_udp_buffercheck. step.
  assert (fails_clean (ret tt) (fun r p' => -1 <= r <= 1 /\ kept p p') p) as Hf by (intros e; step; split; [lia|done]).
  apply wp_set_buffers; [done|]. apply wp_check_buffers; [done|]. step. split; [|done]. destruct (_ || _); lia.
Qed.

Lemma grow_harmless rc : -1 <= rc <= 1 -> harmless (grow_buffers rc).
Proof.
  intros Hrc p. unfold grow_buffers. step. destruct (_ && _); [|by step]. step.
  eapply wp_mono; [apply buffercheck_harmless|]. intros r p' [Hr Hk]. split; [done|]. by apply (kept_trans _ _ _ (kept_refl _) ) in Hk; destruct Hk; split.
Qed.

Lemma offload_kept p : wp no_offload (fun _ p' => kept p p') p.
Proof. unfold no_offload, iperf_udp_gso, iperf_udp_gro. step. destruct (negb _); step; destruct (negb _); by step. Qed.

Lemma udp_connect_opens local bind_dev local_port datagrams p : Exists (fun d => d = None) datagrams ->
  wp (iperf_udp_connect (netdial 2 local bind_dev local_port (-1)) datagrams) (opens (sys Socket) 0 p) p.
Proof.
  intros Hend. unfold iperf_udp_connect. step. eapply wp_mono; [apply netdial_opens|]. intros r p1 [(-> & Hs & H1 & H2 & H3 & H4)|[-> Hk]].
  2:{ rewrite (proj2 (Z.ltb_lt _ _)) by done. step. right. split; [done|]. by destruct Hk; split. }
  rewrite (proj2 (Z.ltb_ge _ _)) by done. cbv zeta.
  assert (forall rc p', -1 = rc -> kept p1 p' -> wp (close (sys Socket) ;;; ret rc) (opens (sys Socket) 0 p) p') as Hclean.
  { intros rc p' <- [E1 E2 E3 E4]. step. right. split; [done|]. split; cbn -[without]; rewrite ?E2, ?H2, ?without_head; first [done|congruence|lia]. }
  step. eapply wp_mono; [apply buffercheck_harmless|]. intros rc p2 [Hrc K2]. destruct (Z.ltb_spec rc 0); [apply Hclean; [lia|done]|].
  step. eapply wp_mono; [apply offload_kept|]. intros [] p3 K3.
  step. eapply wp_mono; [apply (grow_harmless rc); lia|]. intros rc' p4 [Hrc' K4].
  assert (kept p1 p4) as K by (by eapply kept_trans; [|exact K4]; eapply kept_trans).
  destruct (Z.ltb_spec rc' 0); [apply Hclean; [lia|done]|].
  step. apply wp_sockopts. intros v e Hv. assert (forall q e, kept p1 q -> kept p1 (q <| p_errno := e |>)) as Ke by (intros q e' []; by split).
  destruct (Z.ltb_spec v 0); [by apply Hclean; [|apply Ke]|].
  destruct (sys Write <? 0); [apply wp_bind, wp_modify, Hclean; [done|by apply Ke, Ke]|].
  step. set (limit := _ + _). clearbody limit.
  assert (exists x, await_reply datagrams connect_message 0 limit = Some x) as [x ->].
  { generalize connect_message at 1. generalize 0 as i. clear - Hend. induction Hend as [d l ->|d l Hl IH]; intros i buf; cbn [await_reply]; [by eexists|].
    destruct d as [d|]; [|by eexists]. cbv zeta. destruct (_ && _); [apply IH|by eexists]. }
  destruct x as [buf|]; [|apply wp_bind, wp_modify, Hclean; [done|by apply Ke, Ke]].
  destruct (_ && _); [apply wp_bind, wp_modify, Hclean; [done|by apply Ke, Ke]|]. step. left. destruct K as [E1 E2 E3 E4].
  split_and!; try done. unfold holding. cbn. split_and!; congruence || lia.
Qed.

(** C26: whatever the system answers to each of the calls, also when the buffers
    of a UDP socket are set and looked at once more, dialing, announcing and
    connecting, over TCP or UDP, return; a failure leaves blocks, descriptors,
    pages and the set to wait for as they were, and success adds the new socket
    and nothing else.  Over UDP the receiving of the reply ends in time, with an
    error if nothing comes. *)
Theorem connections_balanced local bind_dev local_port domain proto timeout datagrams p (Hend : Exists (fun d => d = None) datagrams) :
  Forall (fun m : PM Z => exists r p', m p = Ret (r, p') /\ opens (sys Socket) 0 p r p')
    [netdial proto local bind_dev local_port timeout; netannounce domain proto bind_dev; iperf_tcp_connect local bind_dev local_port;
     iperf_udp_connect (netdial 2 local bind_dev local_port (-1)) datagrams].
Proof.
  repeat (apply Forall_cons; split); [..|by apply Forall_nil]; apply wp_returns.
  - apply netdial_opens.
  - apply netannounce_opens.
  - apply tcp_connect_opens.
  - by apply udp_connect_opens.
Qed.

(** ** The listener of TCP *)

(** Closed and forgotten. *)
Definition closed_listener (l : Z) (p p' : process) : Prop :=
  p_blocks p' = p_blocks p /\ p_fds p' = without l (p_fds p) /\ listener (p_test p') = -1.

Lemma close_listener_spec l p : 0 <= l -> wp (iperf_close_test_listener_socket l) (fun _ p' => p_blocks p' = p_blocks p /\ p_fds p' = without l (p_fds p) /\ p_errno p' = p_errno p /\
  listener (p_test p') = (if listener (p_test p) =? l then -1 else listener (p_test p)) /\ settings (p_test p') = settings (p_test p) /\ no_delay (p_test p') = no_delay (p_test p)) p.
Proof.
  intros Hl. unfold iperf_close_test_listener_socket. rewrite (proj2 (Z.ltb_ge l 0)) by done. step. cbn -[without]. cbv zeta.
  destruct (listener (p_test p) =? l); cbn -[without]; destruct (prot_listener (p_test p) =? l); cbn -[without]; by split_and!.
Qed.

Definition special (t : iperf_test) : bool := negb (no_delay t =? 0) || negb (mss (settings t) =? 0) || negb (socket_bufsize (settings t) =? 0).

Lemma new_listener_spec domain p : 0 <= listener (p_test p) ->
  wp (new_listener domain (p_test p)) (fun r p' => r = -1 /\ closed_listener (listener (p_test p)) p p' \/
    r = sys Socket /\ 0 <= r /\ p_blocks p' = p_blocks p /\ p_fds p' = r :: without (listener (p_test p)) (p_fds p) /\ listener (p_test p') = r) p.
Proof.
  intros Hl. set (l := listener (p_test p)) in *. unfold new_listener. fold l. apply wp_bind, wp_modify. apply wp_bind.
  eapply wp_mono; [by apply close_listener_spec|]. intros [] p1 (B1 & F1 & E1 & L1 & _). cbn in L1. fold l in L1. rewrite Z.eqb_refl in L1. cbn -[without] in B1, F1. clear E1.
  apply wp_when_failed; intros _; [apply wp_give_up; step; by left|]. unfold got_block. apply wp_bind, wp_modify. cbv zeta.
  apply wp_when_failed; intros Hs; [apply wp_give_up; step; left; split; [done|]; split_and!; cbn -[without]; [lia|done|done]|].
  apply Z.ltb_ge in Hs. unfold opened. apply wp_bind, wp_modify. set (p2 := _ <| p_fds := _ |>).
  assert (p_blocks p2 = p_blocks p + 1 /\ p_fds p2 = sys Socket :: without l (p_fds p) /\ listener (p_test p2) = -1) as (B2 & F2 & L2)
    by (unfold p2; cbn -[without]; split_and!; [lia|by rewrite F1|done]). clearbody p2.
  set (Q := fun r p' => _ \/ _).
  assert (forall p', p_fds p' = sys Socket :: without l (p_fds p) -> listener (p_test p') = -1 ->
    wp (iperf_close_test_listener_socket (sys Socket)) (fun _ q => p_blocks q = p_blocks p' /\ p_fds q = without l (p_fds p) /\ listener (p_test q) = -1) p') as Hclose.
  { intros p' F L. eapply wp_mono; [by apply close_listener_spec|]. intros [] q (Bq & Fq & _ & Lq & _). rewrite F, without_head in Fq.
    rewrite L, (proj2 (Z.eqb_neq (-1) (sys Socket))) in Lq by lia. by split_and!. }
  assert (fails_clean (iperf_close_test_listener_socket (sys Socket) ;;; freeaddrinfo) Q p2) as Hundo.
  { intros e. apply wp_bind. eapply wp_mono; [by apply Hclose|]. intros [] q (Bq & Fq & Lq). step. left. split; [done|]. split_and!; cbn -[without]; [lia|done|done]. }
  apply wp_when_failed; intros _; [apply wp_give_up; apply Hundo|]. apply wp_set_tcp_options; [done|].
  repeat (apply wp_when_failed; intros _; [apply wp_give_up; apply Hundo|]).
  unfold freeaddrinfo at 1, free_blocks at 1. apply wp_bind, wp_modify. apply wp_when_failed; intros _.
  - apply wp_give_up. eapply wp_mono; [by apply Hclose|]. intros [] q (Bq & Fq & Lq). left. split; [done|]. cbn in Bq. split_and!; cbn -[without]; [lia|done|done].
  - step. right. split_and!; cbn -[without]; try done; lia.
Qed.

(** C27: the listener of the data connections.  Only a test with options for its
    sockets gets a new one, and then the old one is closed; a failure, whatever
    the cause, leaves no listener open, and no block held. *)
Theorem listener_replaced domain p (Hl : 0 <= listener (p_test p)) :
  let l := listener (p_test p) in
  exists r p', iperf_tcp_listen domain p = Ret (r, p') /\ (r = -1 /\ closed_listener l p p' \/
    r = listener (p_test p') /\ 0 <= r /\ p_blocks p' = p_blocks p /\
    (special (p_test p) = true /\ r = sys Socket /\ p_fds p' = r :: without l (p_fds p) \/ special (p_test p) = false /\ r = l /\ p_fds p' = p_fds p)).
Proof.
  intros l. apply wp_returns. unfold iperf_tcp_listen. step. fold (special (p_test p)).
  assert (forall s p1, 0 <= s -> listener (p_test p1) = s -> p_blocks p1 = p_blocks p -> without s (p_fds p1) = without l (p_fds p) ->
    forall Q, (forall q, closed_listener l p q -> Q (-1) q) -> (forall e, Q s (p1 <| p_errno := e |>)) ->
    wp (check_buffers false (iperf_close_test_listener_socket s) (p_test p)
      (r <- iperf_common_sockopts is_inet6 (sys Set_tos) ;; if r <? 0 then iperf_close_test_listener_socket s ;;; ret (-1) else ret s)) Q p1) as Hrest.
  { intros s p1 Hs Ls Bs Fs Q Hfail Hok.
    assert (forall p', p_fds p' = p_fds p1 -> listener (p_test p') = s -> p_blocks p' = p_blocks p1 -> wp (iperf_close_test_listener_socket s) (fun _ q => closed_listener l p q) p') as Hclose.
    { intros p' F L B. eapply wp_mono; [by apply close_listener_spec|]. intros [] q (Bq & Fq & _ & Lq & _). rewrite L, Z.eqb_refl in Lq. split_and!; congruence. }
    apply wp_check_buffers.
    - intros e. eapply wp_mono; [by apply Hclose|]. intros [] q (B & F & L). apply Hfail. by split_and!.
    - apply wp_bind, wp_sockopts. intros v e _. destruct (v <? 0); [|by apply wp_ret]. apply wp_bind. eapply wp_mono; [by apply Hclose|]. intros [] q Hq. apply wp_ret. by apply Hfail. }
  destruct (special (p_test p)) eqn:Hsp.
  - eapply wp_mono; [by apply new_listener_spec|]. fold l. intros r p1 [[-> Hc]|(-> & Hs & B1 & F1 & L1)]; cbn [andb].
    + rewrite (proj2 (Z.ltb_lt _ _)) by done. step. by left.
    + rewrite (proj2 (Z.ltb_ge _ _)) by done. apply Hrest; [done|done|done|by rewrite F1, without_head|by left|].
      intros e. right. cbn -[without]. split_and!; try done. left. by split_and!.
  - step. cbn [andb]. apply Hrest; [done|done|done|done|by left|]. intros e. right. cbn. split_and!; try done. right. by split_and!.
Qed.

(** ** Accepting *)

(** A data connection is taken only with the cookie of the test: then its
    socket stays open, and a connection with another cookie is closed; its
    number is returned in both cases. *)
Theorem cookie_checked cookie p (Ha : 0 <= sys Accept) (Hp : 0 <= sys No_sigpipe) (Hr : 0 <= sys Nread_cookie) :
  exists p', iperf_tcp_accept cookie p = Ret (sys Accept, p') /\
    p_fds p' = (if same_cookie cookie then [sys Accept] else []) ++ p_fds p /\ p_test p' = p_test p.
Proof.
  unfold iperf_tcp_accept, when_failed, opened, close, bind, modify, ret. rewrite !(proj2 (Z.ltb_ge _ _)) by done.
  destruct (same_cookie cookie); cbn [negb]; eexists; (split; [reflexivity|]); cbn -[without]; by rewrite ?without_head.
Qed.

End Spec.

(** ** Examples *)

(** Everything succeeds, except one call, if one is given; new descriptors are 9. *)
Definition sample_answer (bad : option syscall) (c : syscall) : Z :=
  match bad, c with
  | Some Bind, Bind | Some Connect, Connect | Some Write, Write | Some (Get_rcvbuf false), Get_rcvbuf false => -1
  | _, (Socket | Accept) => 9
  | _, _ => 0
  end.

Definition sample_os (bad : option syscall) (family : Z) (cookie : list Z) : answers :=
  {| sys := sample_answer bad; errno_after _ := 61; sndbuf_actual _ := 131072; rcvbuf_actual _ := 131072; so_error := 0;
     ai_family := family; is_inet6 := true; cookie_read := cookie |}.

Definition sample_listening : process :=
  mk_process ((iperf_defaults iperf_new_test) <| listener := 4 |> <| prot_listener := 5 |> <| no_delay := 1 |>) 0 7 [4; 5; 3] 40 [4] [].

(** The buffers of a new socket are small, and grow when they are asked to. *)
Definition growing_os : answers :=
  {| sys := sample_answer None; errno_after _ := 61; sndbuf_actual again := if again then 131072 else 1024;
     rcvbuf_actual again := if again then 131072 else 1024; so_error := 0; ai_family := 2; is_inet6 := true; cookie_read := [] |}.

(** The server's reply. *)
Definition reply_datagram : list Z := [54; 55; 56; 57].

Definition sample_datagrams_test : process :=
  sample_listening <| p_test := (p_test sample_listening) <|s blksize := 1460 |> |>.

Lemma connections_balanced_witness :
  Forall (fun m : PM Z => exists r p', m sample_datagrams_test = Ret (r, p') /\ opens 9 0 sample_datagrams_test r p')
    [netdial (os := growing_os) 1 true false 5001 1000; netannounce (os := growing_os) 0 1 false;
     iperf_tcp_connect (os := growing_os) true false 5001;
     iperf_udp_connect (os := growing_os) (netdial (os := growing_os) 2 true false 5001 (-1)) [Some [1]; Some reply_datagram; None]].
Proof. apply (connections_balanced (os := growing_os)). right. right. by left. Defined.

(** The UDP socket is too small for a datagram at first and connects with a larger buffer. *)
Example grown_buffer : exists p', iperf_udp_connect (os := growing_os) (netdial (os := growing_os) 2 true false 5001 (-1)) [Some reply_datagram; None]
    sample_datagrams_test = Ret (9, p') /\ p_fds p' = [9; 4; 5; 3] /\ socket_bufsize (settings (p_test p')) = 1460 + 1024.
Proof. eexists. split; [vm_compute; reflexivity|]. by vm_compute. Qed.

Lemma listener_replaced_witness : 0 <= listener (p_test sample_listening) /\
  exists r p', iperf_tcp_listen (os := sample_os (Some (Get_rcvbuf false)) 30 []) 0 sample_listening = Ret (r, p') /\
    (r = -1 /\ closed_listener 4 sample_listening p' \/
    r = listener (p_test p') /\ 0 <= r /\ p_blocks p' = p_blocks sample_listening /\
    (special (p_test sample_listening) = true /\ r = 9 /\ p_fds p' = r :: without 4 (p_fds sample_listening) \/
     special (p_test sample_listening) = false /\ r = 4 /\ p_fds p' = p_fds sample_listening)).
Proof. split; [done|]. apply (listener_replaced (os := sample_os (Some (Get_rcvbuf false)) 30 []) 0 sample_listening). done. Defined.

Lemma cookie_checked_witness :
  exists p', iperf_tcp_accept (os := sample_os None 2 [97; 98; 0]) [97; 99; 0] sample_listening = Ret (9, p') /\
    p_fds p' = [4; 5; 3] /\ p_test p' = p_test sample_listening.
Proof. apply (cookie_checked (os := sample_os None 2 [97; 98; 0]) [97; 99; 0] sample_listening); done. Defined.

(** An accepted UDP socket is not the listener any more when the reply cannot be
    written, and in no other field: nothing closes 5 then. *)
Example udp_accept_leaks : exists p',
  iperf_udp_accept (os := sample_os (Some Write) 2 []) (opened 9 ;;; ret 9) sample_listening = Ret (-1, p') /\
  p_fds p' = [9; 4; 5; 3] /\ listener (p_test p') = 4 /\ prot_listener (p_test p') = 9.
Proof. eexists. split; [vm_compute; reflexivity|]. by vm_compute. Qed.

(** Asked for IPv6 only, one listener refuses IPv4 and the other does not. *)
Example listeners_disagree : v6only (os := sample_os None 30 []) AF_INET6 = Some 1 /\ listen_v6only (os := sample_os None 30 []) AF_INET6 = None.
Proof. by vm_compute. Qed.

(** The number of a stranger's connection is closed, and may be another
    descriptor's by the time it is looked at. *)
Example stranger_number : exists p',
  iperf_tcp_accept (os := sample_os None 2 [98; 0]) [97; 0] sample_listening = Ret (9, p') /\ ~ In 9 (p_fds p').
Proof. eexists. split; [vm_compute; reflexivity|]. vm_compute. lia. Qed.
