(* ===== verification/Measure.v ===== *)
(** * Pacing and statistics

    [iperf_tcp_recv] and [iperf_tcp_send] ([iperf_tcp.c]), [iperf_send_mt],
    [iperf_recv_mt], [iperf_check_throttle], [iperf_check_total_rate],
    [iperf_reset_stats], [iperf_stats_callback] and [add_to_interval_list]
    ([iperf_api.c]), [tcp_info.c] as it is compiled for this platform.

    The workers of the streams and the main thread share the counters of a
    stream; both change and read them with one atomic operation after the other,
    which are definitions of their own here.  The readings of the clock and the
    answers of [getsockopt] and [nanosleep] are arguments. *)

From S2P Require Import Prelude Bytes Time Double CJsonPrint IperfTest ControlChannel Udp.
Local Open Scope c_scope.

(** ** Conversions *)

(** To an unsigned and a signed 64-bit integer; undefined out of range. *)
Definition D_to_u64 (d : double) : option Z :=
  if is_nan_or_inf d then None
  else if (0 <=? D_trunc d) && (D_trunc d <? 2 ^ 64) then Some (D_trunc d) else None.

Definition D_to_s64 (d : double) : option Z :=
  if is_nan_or_inf d then None
  else if (- 2 ^ 63 <=? D_trunc d) && (D_trunc d <? 2 ^ 63) then Some (D_trunc d) else None.

(** A [float]. *)
Definition F_of_D (d : double) : double :=
  match d with
  | S754_finite s m e => binary_normalize 24 128 (if s then Zneg m else Zpos m) e s
  | _ => d
  end.

(** ** A TCP stream *)

(** The two atomic additions of a count. *)
Definition count_sent (r : Z) : iperf_stream -> iperf_stream :=
  update result (fun x => x <| bytes_sent := u64 (bytes_sent x + r) |>).
Definition count_sent_interval (r : Z) : iperf_stream -> iperf_stream :=
  update result (fun x => x <| bytes_sent_this_interval := u64 (bytes_sent_this_interval x + r) |>).
Definition count_received (r : Z) : iperf_stream -> iperf_stream :=
  update result (fun x => x <| bytes_received := u64 (bytes_received x + r) |>).
Definition count_received_interval (r : Z) : iperf_stream -> iperf_stream :=
  update result (fun x => x <| bytes_received_this_interval := u64 (bytes_received_this_interval x + r) |>).

(** [r] is what [Nrecv_no_select] gave. *)
Definition iperf_tcp_recv (t : iperf_test) (r : Z) (sp : iperf_stream) : Z * iperf_stream :=
  if r <? 0 then (r, sp)
  else if state t =? TEST_RUNNING then (r, count_received_interval r (count_received r sp))
  else (r, sp).

(** [written] is what [Nsendfile] or [Nwrite] gave for the pending size. *)
Definition iperf_tcp_send (t : iperf_test) (written : Z -> Z) (sp : iperf_stream) : Z * iperf_stream :=
  let sp := if pending_size sp =? 0 then sp <| pending_size := blksize (settings t) |> else sp in
  let r := written (pending_size sp) in
  if r <? 0 then (r, sp)
  else (r, count_sent_interval r (count_sent r (sp <| pending_size := pending_size sp - r |>))).

(** ** Pacing *)

Definition SEC_TO_NS : Z := 1000000000.

(** Sleeps of less than a second until the time is over or one is interrupted:
    the result of the last, and what was slept. *)
Fixpoint sleep_loop (fuel : nat) (nanosleep : nat -> Z) (k : nat) (time_to_green_light : Z) : option (Z * list Z) :=
  match fuel with
  | O => None
  | S fuel =>
      let tv_nsec := if SEC_TO_NS <=? time_to_green_light then SEC_TO_NS - 1 else time_to_green_light in
      let time_to_green_light := time_to_green_light - tv_nsec in
      let r := nanosleep k in
      if (r =? 0) && (0 <? time_to_green_light) then
        match sleep_loop fuel nanosleep (S k) time_to_green_light with
        | None => None
        | Some (r, slept) => Some (r, tv_nsec :: slept)
        end
      else Some (r, [tv_nsec])
  end.

Definition sleep_fuel (time_to_green_light : Z) : nat := S (Z.to_nat (time_to_green_light / (SEC_TO_NS - 1))).

(** The rate is unsigned: so are the product with the signed [delta_bits] after
    its conversion and the quotient. *)
Definition green_light_time (delta_bits rate : Z) : option Z :=
  let product := SEC_TO_NS * delta_bits in
  if (- 2 ^ 63 <=? product) && (product <? 2 ^ 63) then Some (s64 (u64 product / rate)) else None.

(** The stream, and the sleeps made. *)
Definition iperf_check_throttle (t : iperf_test) (nowP : iperf_time) (nanosleep : nat -> Z) (sp : iperf_stream) :
    outcome (iperf_stream * list Z) :=
  let rate := rate (settings t) in
  if negb (done t =? 0) || (rate =? 0) then Ret (sp, [])
  else
    let seconds := iperf_time_in_secs (iperf_time_diff (start_time_fixed (result sp)) nowP).1 in
    let bits_sent := u64 (bytes_sent (result sp) * 8) in
    match D_to_u64 (D_div (D_of_Z bits_sent) seconds) with
    | None => UB
    | Some bits_per_second =>
        let missing_rate := s64 (u64 (rate - bits_per_second)) in
        let sp := sp <| green_light := if 0 <? missing_rate then 1 else 0 |> in
        if 0 <=? missing_rate then Ret (sp, [])
        else
          match D_to_s64 (D_sub (D_of_Z bits_sent) (D_mul seconds (D_of_Z rate))) with
          | None => UB
          | Some delta_bits =>
              match green_light_time delta_bits rate with
              | None => UB
              | Some time_to_green_light =>
                  if time_to_green_light <? 0 then Ret (sp, [])
                  else
                    match sleep_loop (sleep_fuel time_to_green_light) nanosleep 0 time_to_green_light with
                    | None => OutOfFuel
                    | Some (r, slept) => Ret (if r =? 0 then sp <| green_light := 1 |> else sp, slept)
                    end
              end
          end
    end.

(** ** The limit on the total rate *)

Definition store_at (i v : Z) (l : list Z) : option (list Z) :=
  if (0 <=? i) && (i <? zlen l) then Some (<[Z.to_nat i := v]> l) else None.

(** The sum of the first [n] elements. *)
Definition sum_first (n : Z) (l : list Z) : option Z :=
  if n <=? zlen l then Some (foldl (fun total b => u64 (total + b)) 0 (firstn (Z.to_nat n) l)) else None.

Definition iperf_check_total_rate (last_interval_bytes_transferred : Z) (t : iperf_test) : outcome iperf_test :=
  if negb (done t =? 0) || (bitrate_limit (settings t) =? 0) then Ret t
  else
    let n := bitrate_limit_stats_per_interval (settings t) in
    let index := u64 (bitrate_limit_last_interval_index t + 1) in
    let index := if u64 n <=? index then 0 else index in
    match store_at index last_interval_bytes_transferred (bitrate_limit_intervals_traffic_bytes t) with
    | None => UB
    | Some traffic =>
        let t := t <| bitrate_limit_last_interval_index := index |> <| bitrate_limit_intervals_traffic_bytes := traffic |>
                   <| bitrate_limit_stats_count := u64 (bitrate_limit_stats_count t + 1) |> in
        if bitrate_limit_stats_count t <? u64 n then Ret t
        else
          match sum_first n traffic with
          | None => UB
          | Some total_bytes =>
              let seconds := D_mul (stats_interval t) (D_of_Z n) in
              match D_to_u64 (D_div (D_of_Z (u64 (total_bytes * 8))) seconds) with
              | None => UB
              | Some bits_per_second =>
                  Ret (if bitrate_limit (settings t) <? bits_per_second then t <| bitrate_limit_exceeded := 1 |> else t)
              end
          end
    end.

(** ** The workers *)

(** What a worker sees: the test, its stream, its error. *)
Record worker := mk_worker { w_test : iperf_test; w_stream : iperf_stream; w_errno : Z }.

#[export] Instance worker_eta : Eta worker := fun w => mk_worker (w_test w) (w_stream w) (w_errno w).

Definition WM := CM worker.

Section Worker.
Context (snd rcv : nat -> WM Z) (now : nat -> iperf_time) (nanosleep : nat -> nat -> Z).

Definition throttle (nowP : iperf_time) (k : nat) : WM unit := fun w =>
  match iperf_check_throttle (w_test w) nowP (nanosleep k) (w_stream w) with
  | Ret (sp, _) => Ret (tt, w <| w_stream := sp |>)
  | UB => UB
  | OutOfFuel => OutOfFuel
  end.

Definition messages_at_once (t : iperf_test) : Z :=
  if negb (burst (settings t) =? 0) then burst (settings t)
  else if rate (settings t) =? 0 then multisend t else 1.

(** Bytes or blocks are enough; looked at before the last message only. *)
Definition enough (t : iperf_test) : bool :=
  negb (bytes (settings t) =? 0) && (bytes (settings t) <=? test_bytes_sent t) ||
  negb (blocks (settings t) =? 0) && (blocks (settings t) <=? test_blocks_sent t).

Definition count_message (r : Z) : WM unit :=
  modify (fun w => w <| w_test := (w_test w) <| test_bytes_sent := u64 (test_bytes_sent (w_test w) + r) |> |>) ;;;
  w <- get ;;
  when pending_size (w_stream w) =? 0 do
    modify (fun w => w <| w_test := (w_test w) <| test_blocks_sent := u64 (test_blocks_sent (w_test w) + 1) |> |>).

(** A negative result, or whether a message was sent: [k] counts them. *)
Fixpoint send_loop (multisend : nat) (per_message : bool) (k : nat) : WM (Z * bool) :=
  match multisend with
  | O => ret (0, negb (k =? 0)%nat)
  | S rest =>
      w <- get ;;
      if green_light (w_stream w) =? 0 then ret (0, negb (k =? 0)%nat)
      else if negb (rest =? 0)%nat && enough (w_test w) then ret (0, negb (k =? 0)%nat)
      else
        r <- snd k ;;
        if r <? 0 then
          if r =? NET_SOFTERROR then ret (0, negb (k =? 0)%nat)
          else modify (fun w => w <| w_errno := IESTREAMWRITE |>) ;;; ret (r, negb (k =? 0)%nat)
        else
          count_message r ;;;
          (when per_message do throttle (now 0) k) ;;;
          send_loop rest per_message (S k)
  end.

Definition iperf_send_mt : WM Z :=
  w <- get ;;
  let throttle_check := negb (rate (settings (w_test w)) =? 0) in
  let throttle_check_per_message := throttle_check && (burst (settings (w_test w)) =? 0) in
  r <- send_loop (Z.to_nat (messages_at_once (w_test w))) throttle_check_per_message 0 ;;
  if r.1 <? 0 then ret r.1
  else
    (when throttle_check && (negb throttle_check_per_message || negb r.2) do
       throttle (now 1) (Z.to_nat (messages_at_once (w_test w)))) ;;;
    ret 0.

(** A receive that timed out gives 0 and is not counted. *)
Definition iperf_recv_mt : WM Z :=
  r <- rcv 0 ;;
  if r <? 0 then modify (fun w => w <| w_errno := IESTREAMREAD |>) ;;; ret r
  else
    (when 0 <? r do
       modify (fun w => w <| w_test := (w_test w) <| test_bytes_received := u64 (test_bytes_received (w_test w) + r) |>
                                         <| test_blocks_received := u64 (test_blocks_received (w_test w) + 1) |> |>)) ;;;
    ret 0.

End Worker.

(** ** What the system says about a TCP connection *)

Definition has_tcpinfo : Z := 1.

(** A failed [getsockopt] leaves what was there. *)
Definition save_tcpinfo (answer : option tcp_connection_info) (irp : iperf_interval_results) : iperf_interval_results :=
  match answer with Some info => irp <| tcpConnInfo := Some info |> | None => irp end.

Definition of_connection (f : tcp_connection_info -> Z) (irp : iperf_interval_results) : option Z := f <$> tcpConnInfo irp.

Definition get_total_retransmits : iperf_interval_results -> option Z := of_connection tcpi_txretransmitpackets.
Definition get_snd_cwnd : iperf_interval_results -> option Z := of_connection tcpi_snd_cwnd.
Definition get_snd_wnd (irp : iperf_interval_results) : Z := -1.
Definition get_rtt : iperf_interval_results -> option Z := of_connection tcpi_srtt.
Definition get_rttvar : iperf_interval_results -> option Z := of_connection tcpi_rttvar.
Definition get_pmtu (irp : iperf_interval_results) : Z := -1.
Definition get_reorder (irp : iperf_interval_results) : Z := -1.

(** ** Intervals *)

(** Only the last interval is kept. *)
Definition add_to_interval_list (new : iperf_interval_results) (rp : iperf_stream_result) : iperf_stream_result :=
  rp <| interval_results := removelast (interval_results rp) ++ [new] |>.

(** Each counter of the interval is read and set to zero by one operation. *)
Definition take_sent (sp : iperf_stream) : Z * iperf_stream :=
  (bytes_sent_this_interval (result sp), update result (fun x => x <| bytes_sent_this_interval := 0 |>) sp).
Definition take_received (sp : iperf_stream) : Z * iperf_stream :=
  (bytes_received_this_interval (result sp), update result (fun x => x <| bytes_received_this_interval := 0 |>) sp).

(** The times of the interval that ends now. *)
Definition interval_times (now : iperf_time) (temp : iperf_interval_results) (sp : iperf_stream) : iperf_interval_results * iperf_stream :=
  let start := match last (interval_results (result sp)) with Some _ => end_time (result sp) | None => start_time (result sp) end in
  (temp <| interval_start_time := start |> <| interval_end_time := now |>
        <| interval_duration := F_of_D (iperf_time_in_secs (iperf_time_diff start now).1) |>,
   update result (fun x => x <| end_time := now |>) sp).

(** The round trip times of a connection, and the largest windows. *)
Definition record_connection (retrans cwnd wnd rtt_now : Z) (rp : iperf_stream_result) : iperf_stream_result :=
  let rp := rp <| stream_retrans := s64 (stream_retrans rp + s64 (retrans - stream_prev_total_retrans rp)) |> <| stream_prev_total_retrans := retrans |> in
  let rp := if stream_max_snd_cwnd rp <? cwnd then rp <| stream_max_snd_cwnd := cwnd |> else rp in
  let rp := if stream_max_snd_wnd rp <? wnd then rp <| stream_max_snd_wnd := wnd |> else rp in
  let rp := if stream_max_rtt rp <? rtt_now then rp <| stream_max_rtt := rtt_now |> else rp in
  let rp := if (stream_min_rtt rp =? 0) || (rtt_now <? stream_min_rtt rp) then rp <| stream_min_rtt := rtt_now |> else rp in
  rp <| stream_sum_rtt := s64 (stream_sum_rtt rp + rtt_now) |> <| stream_count_rtt := s32 (stream_count_rtt rp + 1) |>.

(** TCP's fields; [None] when a field without a value would be used. *)
Definition sample_connection (t : iperf_test) (answer : option tcp_connection_info) (temp : iperf_interval_results) (sp : iperf_stream) :
    option (iperf_interval_results * iperf_stream) :=
  let temp := save_tcpinfo answer temp in
  if negb (sender_has_retransmits t =? 1) then Some (temp, sp)
  else
    match get_total_retransmits temp, get_snd_cwnd temp, get_rtt temp, get_rttvar temp with
    | Some total_retrans, Some cwnd, Some rtt_now, Some rttvar_now =>
        let wnd := get_snd_wnd temp in
        let retrans := s64 (total_retrans - stream_prev_total_retrans (result sp)) in
        let temp := temp <| segments := Some (mk_segments retrans cwnd wnd (get_reorder temp)) |>
                         <| rtt := rtt_now |> <| rttvar := rttvar_now |> <| pmtu := get_pmtu temp |> in
        Some (temp, update result (fun rp => (record_connection total_retrans cwnd wnd rtt_now rp) <| stream_reorder := get_reorder temp |>) sp)
    | _, _, _, _ => None
    end.

(** The counters of datagrams are read one after the other. *)
Inductive counter := Packet_count | Jitter | Outoforder_packets | Cnt_error.

Record sample := mk_sample { sm_packets : Z; sm_jitter : double; sm_disorder : Z; sm_errors : Z }.

#[export] Instance sample_eta : Eta sample := fun x => mk_sample (sm_packets x) (sm_jitter x) (sm_disorder x) (sm_errors x).

Definition no_sample : sample := mk_sample 0 D_zero 0 0.

Definition read_counter (c : counter) (sp : iperf_stream) (sm : sample) : sample :=
  match c with
  | Packet_count => sm <| sm_packets := packet_count sp |>
  | Jitter => sm <| sm_jitter := jitter sp |>
  | Outoforder_packets => sm <| sm_disorder := outoforder_packets sp |>
  | Cnt_error => sm <| sm_errors := cnt_error sp |>
  end.

Definition sampled_counters (t : iperf_test) : list counter :=
  if protocol t =? Ptcp then [] else [Packet_count; Jitter; Outoforder_packets; Cnt_error].

(** UDP's fields, against those of the interval before. *)
Definition sample_datagrams (sm : sample) (temp : iperf_interval_results) (sp : iperf_stream) : option iperf_interval_results :=
  let since (before : datagram_counts -> Z) :=
    match last (interval_results (result sp)) with
    | None => Some 0
    | Some irp => before <$> datagrams irp
    end in
  match since ir_packet_count, since ir_outoforder_packets, since ir_cnt_error with
  | Some packets, Some disorder, Some errors =>
      Some (temp <| datagrams := Some (mk_datagrams
        (s64 (sm_packets sm - packets)) (s64 (sm_disorder sm - disorder)) (s64 (sm_errors sm - errors))
        (sm_packets sm) (sm_jitter sm) (sm_disorder sm) (sm_errors sm)) |>)
  | _, _, _ => None
  end.

(** The interval of what was taken begins where the one before ended. *)
Definition open_interval (now : iperf_time) (sent received : Z) (temp : iperf_interval_results) (sp : iperf_stream) :
    iperf_interval_results * iperf_stream :=
  interval_times now (temp <| bytes_transferred := if sender sp then sent else received |>) sp.

(** The rest of the interval, which is put into the list. *)
Definition close_interval (t : iperf_test) (answer : option tcp_connection_info) (sm : sample) (temp : iperf_interval_results) (sp : iperf_stream) :
    outcome (iperf_interval_results * iperf_stream) :=
  let sampled :=
    if protocol t =? Ptcp then if negb (has_tcpinfo =? 0) then sample_connection t answer temp sp else Some (temp, sp)
    else (fun temp => (temp, sp)) <$> sample_datagrams sm temp sp in
  match sampled with
  | None => UB
  | Some (temp, sp) => Ret (temp, update result (add_to_interval_list temp) sp)
  end.

(** One stream's interval, when nothing comes between its accesses: what both
    directions moved, the interval, the stream. *)
Definition stats_stream (t : iperf_test) (now : iperf_time) (answer : option tcp_connection_info)
    (temp : iperf_interval_results) (sp : iperf_stream) : outcome (Z * iperf_interval_results * iperf_stream) :=
  let '(sent, sp) := take_sent sp in
  let '(received, sp) := take_received sp in
  let '(temp, sp) := open_interval now sent received temp sp in
  let sm := foldl (fun sm c => read_counter c sp sm) no_sample (sampled_counters t) in
  match close_interval t answer sm temp sp with
  | Ret (temp, sp) => Ret (u64 (sent + received), temp, sp)
  | UB => UB
  | OutOfFuel => OutOfFuel
  end.

(** The clock and [getsockopt] answer once for each stream; [temp] is handed on. *)
Fixpoint stats_streams (t : iperf_test) (now : nat -> iperf_time) (answers : nat -> option tcp_connection_info) (k : nat)
    (total : Z) (temp : iperf_interval_results) (sps : list iperf_stream) : outcome (Z * list iperf_stream) :=
  match sps with
  | [] => Ret (total, [])
  | sp :: sps =>
      match stats_stream t (now k) (answers k) temp sp with
      | Ret (moved, temp, sp) =>
          match stats_streams t now answers (S k) (u64 (total + moved)) temp sps with
          | Ret (total, sps) => Ret (total, sp :: sps)
          | UB => UB
          | OutOfFuel => OutOfFuel
          end
      | UB => UB
      | OutOfFuel => OutOfFuel
      end
  end.

(** The variable on the stack; most of it has no value. *)
Definition empty_interval (t : iperf_test) : iperf_interval_results :=
  mk_interval 0 (mk_time 0 0) (mk_time 0 0) D_zero None (omitting t) None None 0 0 0.

Definition iperf_stats_callback (now : nat -> iperf_time) (answers : nat -> option tcp_connection_info) (t : iperf_test) : outcome iperf_test :=
  match stats_streams t now answers 0 0 (empty_interval t) (streams t) with
  | Ret (total_interval_bytes_transferred, sps) =>
      let t := t <| streams := sps |> in
      if role t =? role_server then iperf_check_total_rate total_interval_bytes_transferred t else Ret t
  | UB => UB
  | OutOfFuel => OutOfFuel
  end.

(** ** The end of the omitted part *)

(** The retransmissions so far; the interval is a new variable for every stream. *)
Definition omit_retransmits (t : iperf_test) (answer : option tcp_connection_info) (rp : iperf_stream_result) : option iperf_stream_result :=
  if sender_has_retransmits t =? 1 then
    match get_total_retransmits (save_tcpinfo answer (empty_interval t)) with
    | Some n => Some (rp <| stream_prev_total_retrans := n |>)
    | None => None
    end
  else Some rp.

(** The accesses to what the worker of the stream changes too, one by one. *)
Inductive reset_access :=
| Omit_packets | Omit_errors | Omit_disorder | Clear_jitter
| Omit_sent | Clear_received | Clear_sent_interval | Clear_received_interval.

Definition reset_order : list reset_access :=
  [Omit_packets; Omit_errors; Omit_disorder; Clear_jitter; Omit_sent; Clear_received; Clear_sent_interval; Clear_received_interval].

Definition reset_step (a : reset_access) (sp : iperf_stream) : iperf_stream :=
  match a with
  | Omit_packets => sp <| omitted_packet_count := packet_count sp |>
  | Omit_errors => sp <| omitted_cnt_error := cnt_error sp |>
  | Omit_disorder => sp <| omitted_outoforder_packets := outoforder_packets sp |>
  | Clear_jitter => sp <| jitter := D_zero |>
  | Omit_sent => update result (fun rp => rp <| bytes_sent_omit := bytes_sent rp |>) sp
  | Clear_received => update result (fun rp => rp <| bytes_received := 0 |>) sp
  | Clear_sent_interval => update result (fun rp => rp <| bytes_sent_this_interval := 0 |>) sp
  | Clear_received_interval => update result (fun rp => rp <| bytes_received_this_interval := 0 |>) sp
  end.

(** What only the main thread changes. *)
Definition restart_stream (t : iperf_test) (now : iperf_time) (answer : option tcp_connection_info) (sp : iperf_stream) : outcome iperf_stream :=
  match omit_retransmits t answer (result sp) with
  | None => UB
  | Some rp => Ret (sp <| result := rp <| stream_retrans := 0 |> <| start_time := now |> <| end_time := now |> |>)
  end.

(** All of it, when nothing comes between the accesses. *)
Definition reset_stream (t : iperf_test) (now : iperf_time) (answer : option tcp_connection_info) (sp : iperf_stream) : outcome iperf_stream :=
  restart_stream t now answer (foldl (fun sp a => reset_step a sp) sp reset_order).

Fixpoint reset_streams (t : iperf_test) (now : iperf_time) (answers : nat -> option tcp_connection_info) (k : nat) (sps : list iperf_stream) :
    outcome (list iperf_stream) :=
  match sps with
  | [] => Ret []
  | sp :: sps =>
      match reset_stream t now (answers k) sp, reset_streams t now answers (S k) sps with
      | Ret sp, Ret sps => Ret (sp :: sps)
      | _, _ => UB
      end
  end.

Definition iperf_reset_stats (now : iperf_time) (answers : nat -> option tcp_connection_info) (t : iperf_test) : outcome iperf_test :=
  let t := t <| test_bytes_sent := 0 |> <| test_blocks_sent := 0 |> in
  match reset_streams t now answers 0 (streams t) with
  | Ret sps => Ret (t <| streams := sps |>)
  | _ => UB
  end.
