(* ===== verification/MeasureSpec.v ===== *)
(** * Pacing and statistics: properties of the limits

    The limit on the total rate looks at the last intervals and nothing else;
    pacing sleeps for exactly the time a stream is ahead. *)

From S2P Require Import Prelude Bytes Time Double IperfTest ControlChannel Udp Measure.
Local Open Scope c_scope.

(** ** The last intervals *)

Definition sum (l : list Z) : Z := foldr Z.add 0 l.

Lemma sum_app l1 l2 : sum (l1 ++ l2) = sum l1 + sum l2.
Proof. induction l1 as [|x l1 IH]; cbn; [done|]. unfold sum in *. rewrite IH. lia. Qed.

Lemma sum_insert i b x l : l !! i = Some x -> sum (<[i:=b]> l) = sum l - x + b.
Proof.
  intros H. rewrite <- (take_drop_middle l i x) at 2 by done. rewrite insert_take_drop by (by eapply lookup_lt_Some).
  rewrite !sum_app. cbn. lia.
Qed.

Lemma u64_add_l x y : u64 (u64 x + y) = u64 (x + y).
Proof. apply Zplus_mod_idemp_l. Qed.

Lemma foldl_u64 l : forall a, 0 <= a < 2 ^ 64 -> foldl (fun total b => u64 (total + b)) a l = u64 (a + sum l).
Proof.
  induction l as [|x l IH]; intros a Ha; cbn; [by rewrite Z.add_0_r, wrapu_small|].
  rewrite IH by (apply wrapu_range; lia). rewrite u64_add_l. f_equal. unfold sum. lia.
Qed.

Lemma lookup_repeat {A} (x : A) m i : (i < m)%nat -> repeat x m !! i = Some x.
Proof. revert i. induction m as [|m IH]; intros [|i] H; cbn; [lia..|done|apply IH; lia]. Qed.

Section Window.
Context (n : nat) (Hn : (1 <= n <= 60)%nat).

(** The last [n] of a list, or all of it. *)
Definition window (bs : list Z) : list Z := drop (length bs - n) bs.

(** What falls out of the window with the next element; 0 while it fills. *)
Definition oldest (bs : list Z) : Z := if (length bs <? n)%nat then 0 else default 0 (bs !! (length bs - n)%nat).

Lemma window_step bs b : sum (window (bs ++ [b])) = sum (window bs) - oldest bs + b.
Proof.
  unfold window, oldest. rewrite length_app. cbn [length]. destruct (Nat.ltb_spec (length bs) n).
  - replace (length bs + 1 - n)%nat with 0%nat by lia. replace (length bs - n)%nat with 0%nat by lia. rewrite !drop_0, sum_app. cbn. lia.
  - destruct (lookup_lt_is_Some_2 bs (length bs - n)) as [x Hx]; [lia|]. rewrite Hx. cbn [default].
    rewrite (drop_S bs x (length bs - n)) by done. rewrite drop_app_le by lia.
    replace (length bs + 1 - n)%nat with (S (length bs - n)) by lia. rewrite sum_app. cbn. unfold sum. lia.
Qed.

(** The slot the [i]-th element is written to, from 1; a slot of the future holds 0. *)
Definition entry (bs : list Z) (i : nat) : Z := match i with O => 0 | S i => default 0 (bs !! i) end.

(** The cyclic array after the elements [bs]. *)
Record ring (bs l : list Z) : Prop := mk_ring {
  rg_length : length l = 60%nat;
  rg_slots : forall j, (j < n)%nat -> l !! ((length bs + n - j) mod n)%nat = Some (if (j <? length bs)%nat then entry bs (length bs - j) else 0);
  rg_sum : sum (firstn n l) = sum (window bs) }.

Lemma ring_empty : ring [] (repeat 0 60).
Proof.
  split; [apply repeat_length|..].
  - intros j Hj. cbn [length]. replace (j <? 0)%nat with false by done.
    pose proof (Nat.mod_upper_bound (0 + n - j) n). apply lookup_repeat. lia.
  - unfold window. cbn. rewrite drop_nil. assert (forall k, sum (firstn k (repeat 0 60)) = 0) as H; [|by rewrite H].
    intros k. generalize 60%nat as m. induction k as [|k IH]; intros [|m]; cbn; try done. by rewrite IH.
Qed.

Lemma oldest_entry bs : oldest bs = (if (n - 1 <? length bs)%nat then entry bs (length bs - (n - 1)) else 0).
Proof.
  unfold oldest, entry. destruct (Nat.ltb_spec (length bs) n), (Nat.ltb_spec (n - 1) (length bs)); try lia.
  replace (length bs - (n - 1))%nat with (S (length bs - n)) by lia. done.
Qed.

Lemma mod_cases a : (a < n + n)%nat -> (a mod n = if a <? n then a else a - n)%nat.
Proof.
  intros Ha. destruct (Nat.ltb_spec a n); [by apply Nat.mod_small|].
  replace a with (a - n + 1 * n)%nat at 1 by lia. rewrite Nat.Div0.mod_add. apply Nat.mod_small. lia.
Qed.
Lemma next_slot bs b l : ring bs l -> ring (bs ++ [b]) (<[((length bs + 1) mod n)%nat := b]> l).
Proof.
  intros [Hl Hs Hsum]. set (k := length bs) in *. assert (k + 1 + n - 0 = k + 1 + 1 * n)%nat as E0 by lia.
  pose proof (Nat.mod_upper_bound (k + 1) n ltac:(lia)) as Hi. split; [by rewrite length_insert| |].
  - intros j Hj. rewrite length_app. cbn [length]. fold k. destruct j as [|j].
    + rewrite E0, Nat.Div0.mod_add, list_lookup_insert_eq by lia.
      replace (0 <? k + 1)%nat with true by (symmetry; apply Nat.ltb_lt; lia). unfold entry.
      replace (k + 1 - 0)%nat with (S k) by lia. by rewrite (list_lookup_middle bs [] b).
    + replace (k + 1 + n - S j)%nat with (k + n - j)%nat by lia. rewrite list_lookup_insert_ne.
      * rewrite Hs by lia. destruct (Nat.ltb_spec j k), (Nat.ltb_spec (S j) (k + 1)); try lia; [|done].
        unfold entry. replace (k + 1 - S j)%nat with (k - j)%nat by lia. destruct (k - j)%nat as [|i] eqn:E; [done|].
        by rewrite lookup_app_l by (fold k; lia).
      * assert ((k + n - j) mod n = ((k + 1) mod n + (n - S j)) mod n)%nat as ->.
        { rewrite Nat.Div0.add_mod_idemp_l. f_equal. lia. }
        generalize dependent ((k + 1) mod n)%nat. intros q Hq. rewrite mod_cases by lia. destruct (Nat.ltb_spec (q + (n - S j)) n); lia.
  - rewrite take_insert_lt by lia. rewrite (sum_insert _ _ (oldest bs)).
    + by rewrite Hsum, window_step.
    + rewrite lookup_take_lt by lia. rewrite oldest_entry. fold k.
      replace (k + 1)%nat with (k + n - (n - 1))%nat at 1 by lia. apply Hs. lia.
Qed.
End Window.

(** ** The limit on the total rate *)

(** The checks of successive intervals. *)
Fixpoint check_rates (bs : list Z) (t : iperf_test) : outcome iperf_test :=
  match bs with
  | [] => Ret t
  | b :: bs =>
      match iperf_check_total_rate b t with
      | Ret t => check_rates bs t
      | UB => UB
      | OutOfFuel => OutOfFuel
      end
  end.

Lemma check_rates_snoc bs b : forall t t', check_rates bs t = Ret t' -> check_rates (bs ++ [b]) t = iperf_check_total_rate b t'.
Proof.
  induction bs as [|x bs IH]; intros t t' E; cbn in *.
  - injection E as ->. by destruct (iperf_check_total_rate b t').
  - destruct (iperf_check_total_rate x t); [by apply IH|done..].
Qed.

(** A test as it is reset for the next client, with a limit. *)
Record limited (n : Z) (t : iperf_test) : Prop := mk_limited {
  l_running : done t = 0;
  l_limit : bitrate_limit (settings t) <> 0;
  l_stats : bitrate_limit_stats_per_interval (settings t) = n;
  l_fresh : bitrate_limit_last_interval_index t = 0 /\ bitrate_limit_stats_count t = 0 /\ bitrate_limit_exceeded t = 0 /\
    bitrate_limit_intervals_traffic_bytes t = repeat 0 60 }.

(** The rate over the last intervals, in bits per second, as the code computes it. *)
Definition window_rate (t : iperf_test) (n : nat) (bs : list Z) : option Z :=
  D_to_u64 (D_div (D_of_Z (u64 (u64 (sum (window n bs)) * 8))) (D_mul (stats_interval t) (D_of_Z (Z.of_nat n)))).

(** Some full window was over the limit. *)
Definition over (t : iperf_test) (n : nat) (bs : list Z) : Prop :=
  exists k r, (n <= k <= length bs)%nat /\ window_rate t n (firstn k bs) = Some r /\ bitrate_limit (settings t) < r.

Lemma over_snoc t n bs b : over t n (bs ++ [b]) <->
  over t n bs \/ (n <= length bs + 1)%nat /\ exists r, window_rate t n (bs ++ [b]) = Some r /\ bitrate_limit (settings t) < r.
Proof.
  unfold over. rewrite length_app. cbn [length]. split.
  - intros (k & r & Hk & Hr & Hl). destruct (decide (k = length bs + 1)%nat) as [->|].
    + right. split; [lia|]. exists r. split; [|done]. rewrite firstn_all2 in Hr; [done|rewrite length_app; cbn; lia].
    + left. exists k, r. rewrite take_app_le in Hr by lia. split_and!; [lia|lia|done..].
  - intros [(k & r & Hk & Hr & Hl)|(Hk & r & Hr & Hl)].
    + exists k, r. rewrite take_app_le by lia. split_and!; [lia|lia|done..].
    + exists (length bs + 1)%nat, r. rewrite firstn_all2 by (rewrite length_app; cbn; lia). by split_and!.
Qed.

(** What changes from one check to the next. *)
Definition rated (index : Z) (l : list Z) (count e : Z) (t : iperf_test) : iperf_test :=
  t <| bitrate_limit_last_interval_index := index |> <| bitrate_limit_intervals_traffic_bytes := l |>
    <| bitrate_limit_stats_count := count |> <| bitrate_limit_exceeded := e |>.

Lemma rated_same t : rated (bitrate_limit_last_interval_index t) (bitrate_limit_intervals_traffic_bytes t) (bitrate_limit_stats_count t) (bitrate_limit_exceeded t) t = t.
Proof. by destruct t. Qed.

Lemma next_index n k : (1 <= n <= 60)%nat ->
  (if u64 (Z.of_nat n) <=? u64 (Z.of_nat (k mod n) + 1) then 0 else u64 (Z.of_nat (k mod n) + 1)) = Z.of_nat ((k + 1) mod n).
Proof.
  intros Hn. pose proof (Nat.mod_upper_bound k n ltac:(lia)) as Hq. rewrite <- (Nat.Div0.add_mod_idemp_l k 1 n).
  generalize dependent (k mod n)%nat. intros q Hq. rewrite mod_cases by lia. rewrite !wrapu_small by lia.
  destruct (Z.leb_spec (Z.of_nat n) (Z.of_nat q + 1)), (Nat.ltb_spec (q + 1) n); lia.
Qed.

Lemma check_rate_step n t bs b l e : (1 <= n <= 60)%nat -> limited (Z.of_nat n) t -> ring n bs l -> Z.of_nat (length bs) + 1 < 2 ^ 64 ->
  ((n <= length bs + 1)%nat -> window_rate t n (bs ++ [b]) <> None) ->
  exists e', iperf_check_total_rate b (rated (Z.of_nat (length bs mod n)) l (Z.of_nat (length bs)) e t) =
    Ret (rated (Z.of_nat ((length bs + 1) mod n)) (<[((length bs + 1) mod n)%nat := b]> l) (Z.of_nat (length bs + 1)) e' t) /\
    (e' = e /\ ~ ((n <= length bs + 1)%nat /\ exists r, window_rate t n (bs ++ [b]) = Some r /\ bitrate_limit (settings t) < r) \/
     e' = 1 /\ (n <= length bs + 1)%nat /\ exists r, window_rate t n (bs ++ [b]) = Some r /\ bitrate_limit (settings t) < r).
Proof.
  intros Hn [Hd Hl Hs _] Hring Hk Hrep. set (k := length bs) in *. unfold iperf_check_total_rate, rated. cbn [done settings update].
  rewrite Hd, Hs, (proj2 (Z.eqb_neq _ _) Hl). cbn [negb Z.eqb orb]. cbv zeta.
  pose proof (Nat.mod_upper_bound k n ltac:(lia)) as Hm. cbn [bitrate_limit_last_interval_index bitrate_limit_intervals_traffic_bytes bitrate_limit_stats_count update].
  set (i := ((k + 1) mod n)%nat). assert ((if u64 (Z.of_nat n) <=? u64 (Z.of_nat (k mod n) + 1) then 0 else u64 (Z.of_nat (k mod n) + 1)) = Z.of_nat i) as ->.
  { by apply next_index. }
  pose proof (Nat.mod_upper_bound (k + 1) n ltac:(lia)) as Hi. fold i in Hi. pose proof (rg_length _ _ _ Hring) as Hlen.
  pose proof (next_slot n Hn bs b l Hring) as [_ _ Hsum]. fold k i in Hsum. clearbody i. clear Hm.
  unfold store_at, zlen. rewrite Hlen. rewrite (proj2 (Z.leb_le 0 (Z.of_nat i))), (proj2 (Z.ltb_lt (Z.of_nat i) (Z.of_nat 60))) by lia. cbn [andb]. rewrite Nat2Z.id.
  rewrite (wrapu_small 64 (Z.of_nat k + 1)) by lia. replace (Z.of_nat k + 1) with (Z.of_nat (k + 1)) by lia.
  rewrite (wrapu_small 64 (Z.of_nat n)) by lia. destruct (Z.ltb_spec (Z.of_nat (k + 1)) (Z.of_nat n)).
  { exists e. split; [done|]. left. split; [done|]. intros [? _]. lia. }
  unfold sum_first, zlen. rewrite length_insert, Hlen. rewrite (proj2 (Z.leb_le (Z.of_nat n) (Z.of_nat 60))) by lia. rewrite Nat2Z.id.
  rewrite foldl_u64 by lia. rewrite Hsum, Z.add_0_l.
  change (stats_interval (update _ _ _)) with (stats_interval t). fold (window_rate t n (bs ++ [b])).
  destruct (window_rate t n (bs ++ [b])) as [r|] eqn:Er; [|by destruct Hrep; [lia|]].
  destruct (Z.ltb_spec (bitrate_limit (settings t)) r).
  - exists 1. split; [done|]. right. split_and!; [done|lia|]. by exists r.
  - exists e. split; [done|]. left. split; [done|]. intros (_ & r' & Hr' & Hlt). injection Hr' as <-. lia.
Qed.

(** C23: with at most 60 intervals to average, however many intervals are
    reported, no check leaves the cyclic array, and the limit counts as
    exceeded exactly if some run of that many successive intervals, the last
    ones at its time, was over the limit; before there are enough intervals
    nothing is checked. *)
Theorem total_rate_limited n t bs (Hn : (1 <= n <= 60)%nat) (Ht : limited (Z.of_nat n) t) (Hlen : Z.of_nat (length bs) < 2 ^ 64)
    (Hrep : forall k, (n <= k <= length bs)%nat -> window_rate t n (firstn k bs) <> None) :
  exists t', check_rates bs t = Ret t' /\ (bitrate_limit_exceeded t' = 1 \/ bitrate_limit_exceeded t' = 0) /\ (bitrate_limit_exceeded t' = 1 <-> over t n bs).
Proof.
  assert (exists l e, check_rates bs t = Ret (rated (Z.of_nat (length bs mod n)) l (Z.of_nat (length bs)) e t) /\ ring n bs l /\
    (e = 1 /\ over t n bs \/ e = 0 /\ ~ over t n bs)) as (l & e & E & _ & He).
  { induction bs as [|b bs IH] using rev_ind.
    - exists (repeat 0 60), 0. destruct Ht as [_ _ _ (H1 & H2 & H3 & H4)]. cbn [length check_rates]. split_and!.
      + pose proof (rated_same t) as E. rewrite H1, H2, H3, H4 in E. rewrite Nat.Div0.mod_0_l. f_equal. by symmetry.
      + by apply ring_empty.
      + right. split; [done|]. intros (k & r & Hk & _). cbn in Hk. lia.
    - rewrite length_app in *. cbn [length] in *. destruct IH as (l & e & E & Hring & He); [lia|..].
      { intros k Hk. specialize (Hrep k ltac:(lia)). by rewrite take_app_le in Hrep by lia. }
      destruct (check_rate_step n t bs b l e Hn Ht Hring ltac:(lia)) as (e' & E' & He').
      { intros Hk. specialize (Hrep (length bs + 1)%nat ltac:(lia)). rewrite firstn_all2 in Hrep; [done|rewrite length_app; cbn; lia]. }
      exists (<[((length bs + 1) mod n)%nat := b]> l), e'. split_and!; [|by apply next_slot|].
      + by erewrite check_rates_snoc by exact E.
      + rewrite over_snoc. destruct He' as [[-> Hno]|[-> Hyes]]; [|left; split; [done|by right]].
        destruct He as [[-> Ho]|[-> Ho]]; [left; split; [done|by left]|right; split; [done|]]. by intros [?|?]. }
  exists (rated (Z.of_nat (length bs mod n)) l (Z.of_nat (length bs)) e t). split; [done|]. cbn. destruct He as [[-> Ho]|[-> Ho]]; by split; [auto|].
Qed.

Lemma overrun_from n t : 60 < n < 2 ^ 31 -> limited n t -> forall bs k l e, 0 <= k < 60 -> zlen l = 60 -> 60 - k <= zlen bs ->
  check_rates bs (rated k l k e t) = UB.
Proof.
  intros Hn [Hd Hl Hs _]. induction bs as [|b bs IH]; intros k l e Hk Hlen Hbs; [unfold zlen in Hbs; cbn in Hbs; lia|].
  rewrite zlen_cons in Hbs. cbn [check_rates]. unfold iperf_check_total_rate, rated. cbn [done settings update].
  rewrite Hd, Hs, (proj2 (Z.eqb_neq _ _) Hl). cbn [negb Z.eqb orb]. cbv zeta. cbn [bitrate_limit_last_interval_index bitrate_limit_intervals_traffic_bytes bitrate_limit_stats_count update].
  rewrite !wrapu_small by lia. rewrite (proj2 (Z.leb_gt _ _)) by lia. unfold store_at. rewrite Hlen, (proj2 (Z.leb_le _ _)) by lia. cbn [andb].
  destruct (Z.ltb_spec (k + 1) 60); [|done]. rewrite (proj2 (Z.ltb_lt _ _)) by lia.
  match goal with |- check_rates _ ?x = _ => change x with (rated (k + 1) (<[Z.to_nat (k + 1) := b]> l) (k + 1) e t) end.
  apply IH; [lia| |lia]. unfold zlen. by rewrite length_insert.
Qed.

(** With more than 60 intervals to average, which the command line allows,
    the sixtieth check writes behind the cyclic array. *)
Theorem total_rate_overruns n t bs (Hn : 60 < n < 2 ^ 31) (Ht : limited n t) (Hbs : 60 <= zlen bs) : check_rates bs t = UB.
Proof.
  rewrite <- (rated_same t). destruct (l_fresh _ _ Ht) as (-> & -> & -> & ->). apply (overrun_from n); try done; lia.
Qed.

(** ** Examples *)

Definition sample_limited (n limit : Z) : iperf_test :=
  ((iperf_defaults iperf_new_test) <|s bitrate_limit := limit |>) <|s bitrate_limit_stats_per_interval := n |>.

(** 8 Mbit/s on average over two seconds, with one burst. *)
Lemma total_rate_limited_witness :
  exists t', check_rates [500000; 1200000; 400000; 900000] (sample_limited 2 8000000) = Ret t' /\
    (bitrate_limit_exceeded t' = 1 \/ bitrate_limit_exceeded t' = 0) /\
    (bitrate_limit_exceeded t' = 1 <-> over (sample_limited 2 8000000) 2 [500000; 1200000; 400000; 900000]).
Proof.
  apply (total_rate_limited 2 (sample_limited 2 8000000) [500000; 1200000; 400000; 900000]); [lia|by split|cbn; lia|].
  intros k [H1 H2]. cbn in H2. do 5 (destruct k as [|k]; [try lia; by vm_compute|]). lia.
Defined.

Lemma total_rate_overruns_witness : check_rates (repeat 0 60) (sample_limited 600 8000000) = UB.
Proof. apply (total_rate_overruns 600); [lia|by split|by vm_compute]. Defined.

(** ** Pacing *)

Lemma sleep_loop_spec nanosleep : forall fuel k left, 0 <= left -> left / (SEC_TO_NS - 1) < Z.of_nat fuel ->
  exists r slept, sleep_loop fuel nanosleep k left = Some (r, slept) /\ Forall (fun ns => 0 <= ns < SEC_TO_NS) slept /\
    sum slept <= left /\ (r = 0 -> sum slept = left) /\
    (r = 0 <-> forall i, (i < length slept)%nat -> nanosleep (k + i)%nat = 0).
Proof.
  unfold SEC_TO_NS. induction fuel as [|fuel IH]; intros k left Hl Hf; [pose proof (Z.div_pos left (1000000000 - 1)); lia|].
  cbn [sleep_loop]. unfold SEC_TO_NS. set (ns := if 1000000000 <=? left then _ else _).
  assert (0 <= ns < 1000000000 /\ ns <= left /\ (0 < left - ns -> ns = 1000000000 - 1)) as (Hns & Hle & Hmax) by (unfold ns; case_Z; lia).
  destruct (Z.eqb_spec (nanosleep k) 0) as [E|Hn]; cbn [andb].
  - destruct (Z.ltb_spec 0 (left - ns)) as [Hpos|Hz].
    + destruct (IH (S k) (left - ns)) as (r & slept & -> & H1 & H2 & H3 & H4); [lia| |].
      { specialize (Hmax Hpos). subst ns. replace left with ((left - (1000000000 - 1)) + 1 * (1000000000 - 1)) in Hf by lia.
        rewrite Z.div_add in Hf by lia. rewrite Hmax. lia. }
      exists r, (ns :: slept). split; [done|]. split; [by constructor|]. split; [cbn; unfold sum in *; lia|]. split; [intros Hr; specialize (H3 Hr); cbn; unfold sum in *; lia|].
      rewrite H4. split; intros H i Hi.
      * destruct i as [|i]; [by rewrite Nat.add_0_r|]. replace (k + S i)%nat with (S k + i)%nat by lia. apply H. cbn in Hi. lia.
      * replace (S k + i)%nat with (k + S i)%nat by lia. apply H. cbn. lia.
    + exists 0, [ns]. rewrite E. split; [done|]. split; [by apply Forall_singleton|]. split; [cbn; lia|]. split; [cbn; lia|]. split; [|done].
      intros _ i Hi. cbn in Hi. by replace (k + i)%nat with k by lia.
  - exists (nanosleep k), [ns]. split; [done|]. split; [by apply Forall_singleton|]. split; [cbn; lia|]. split; [done|]. split; [done|].
    intros H. specialize (H 0%nat). rewrite Nat.add_0_r in H. apply H. cbn. lia.
Qed.

Lemma D_to_u64_range d v : D_to_u64 d = Some v -> 0 <= v < 2 ^ 64.
Proof.
  unfold D_to_u64. destruct (CJsonPrint.is_nan_or_inf d); [done|].
  destruct (Z.leb_spec 0 (D_trunc d)); cbn [andb]; [|done]. destruct (Z.ltb_spec (D_trunc d) (2 ^ 64)); [|done]. intros [= <-]. lia.
Qed.

Section Throttle.
Context (t : iperf_test) (nowP : iperf_time) (nanosleep : nat -> Z) (sp : iperf_stream).

(** How long the stream has been running, what it sent, and its average rate. *)
Definition running_seconds : double := iperf_time_in_secs (iperf_time_diff (start_time_fixed (result sp)) nowP).1.
Definition sent_bits : Z := u64 (bytes_sent (result sp) * 8).
Definition average_rate : option Z := D_to_u64 (D_div (D_of_Z sent_bits) running_seconds).

(** The bits sent beyond those the rate allows. *)
Definition bits_ahead : option Z := D_to_s64 (D_sub (D_of_Z sent_bits) (D_mul running_seconds (D_of_Z (rate (settings t))))).

(** C24: pacing a running stream.  Below the target rate the stream may go on at
    once; at exactly the rate it may not.  Above it the worker sleeps, less than
    a second at a time, and if no sleep is interrupted for exactly the time the
    bits sent too early take at the rate, after which the stream may go on; an
    interrupted sleep ends the waiting without that. *)
Theorem throttle_paces bps (Hd : done t = 0) (Hr : 0 < rate (settings t) < 2 ^ 63) (Ha : average_rate = Some bps) (Hb : bps < 2 ^ 63)
    (Hahead : rate (settings t) < bps -> exists delta, bits_ahead = Some delta /\ 0 <= SEC_TO_NS * delta < 2 ^ 63) :
  exists green slept, iperf_check_throttle t nowP nanosleep sp = Ret (sp <| green_light := green |>, slept) /\
    (bps < rate (settings t) -> green = 1 /\ slept = []) /\
    (bps = rate (settings t) -> green = 0 /\ slept = []) /\
    (rate (settings t) < bps -> exists delta, bits_ahead = Some delta /\ Forall (fun ns => 0 <= ns < SEC_TO_NS) slept /\
      sum slept <= SEC_TO_NS * delta / rate (settings t) /\ (green = 0 \/ green = 1) /\
      (green = 1 <-> forall i, (i < length slept)%nat -> nanosleep i = 0) /\
      (green = 1 -> sum slept = SEC_TO_NS * delta / rate (settings t))).
Proof.
  pose proof (D_to_u64_range _ _ Ha) as Hb0.
  unfold iperf_check_throttle. rewrite Hd, (proj2 (Z.eqb_neq (rate (settings t)) 0)) by lia. cbn [negb Z.eqb orb]. cbv zeta.
  fold running_seconds sent_bits. fold average_rate. rewrite Ha.
  assert (s64 (u64 (rate (settings t) - bps)) = rate (settings t) - bps) as ->.
  { unfold wraps, wrapu. rewrite Zplus_mod_idemp_l. change (?a mod 2 ^ 64 - 2 ^ (64 - 1)) with (s64 (rate (settings t) - bps)). apply wraps_small; lia. }
  destruct (Z.leb_spec 0 (rate (settings t) - bps)) as [Hle|Hgt].
  { exists (if 0 <? rate (settings t) - bps then 1 else 0), []. split; [done|]. split_and!; intros H; [|split; [|done]|lia].
    - by rewrite (proj2 (Z.ltb_lt _ _)) by lia.
    - by rewrite (proj2 (Z.ltb_ge _ _)) by lia. }
  destruct Hahead as (delta & E & Hdelta); [lia|]. fold bits_ahead. rewrite E. unfold green_light_time.
  rewrite (proj2 (Z.leb_le _ _)), (proj2 (Z.ltb_lt _ _)) by lia. cbn [andb]. rewrite wrapu_small by lia.
  pose proof (Z.div_pos (SEC_TO_NS * delta) (rate (settings t)) ltac:(lia) ltac:(lia)) as Hq.
  pose proof (Z.div_le_upper_bound (SEC_TO_NS * delta) (rate (settings t)) (SEC_TO_NS * delta) ltac:(lia) ltac:(nia)) as Hq2.
  rewrite (wraps_small 64 (_ / _)) by lia. set (left := SEC_TO_NS * delta / rate (settings t)) in *.
  rewrite (proj2 (Z.ltb_ge left 0)) by lia.
  destruct (sleep_loop_spec nanosleep (sleep_fuel left) 0 left Hq) as (r & slept & -> & H1 & H2 & H3 & H4).
  { unfold sleep_fuel. pose proof (Z.div_pos left (SEC_TO_NS - 1) Hq). unfold SEC_TO_NS in *. lia. }
  rewrite (proj2 (Z.ltb_ge 0 (rate (settings t) - bps))) by lia. exists (if r =? 0 then 1 else 0), slept. split.
  { destruct (r =? 0); [|done]. by destruct sp. }
  split; [lia|]. split; [lia|]. intros _. exists delta. split_and!; try done.
  - destruct (r =? 0); auto.
  - rewrite <- H4. destruct (Z.eqb_spec r 0); naive_solver.
  - destruct (Z.eqb_spec r 0); [auto|done].
Qed.
End Throttle.

(** 2 Mbit in the first second at a rate of 1 Mbit/s: the worker sleeps one second, in two calls. *)
Definition paced_test : iperf_test := (iperf_defaults iperf_new_test) <|s rate := 1000000 |>.
Definition paced_stream : iperf_stream := zero_stream <| result := zero_result <| start_time_fixed := mk_time 10 0 |> <| bytes_sent := 250000 |> |>.

Lemma throttle_paces_witness :
  exists green slept, iperf_check_throttle paced_test (mk_time 11 0) (fun _ => 0) paced_stream = Ret (paced_stream <| green_light := green |>, slept) /\
    (2000000 < rate (settings paced_test) -> green = 1 /\ slept = []) /\
    (2000000 = rate (settings paced_test) -> green = 0 /\ slept = []) /\
    (rate (settings paced_test) < 2000000 -> exists delta, bits_ahead paced_test (mk_time 11 0) paced_stream = Some delta /\
      Forall (fun ns => 0 <= ns < SEC_TO_NS) slept /\ sum slept <= SEC_TO_NS * delta / rate (settings paced_test) /\ (green = 0 \/ green = 1) /\
      (green = 1 <-> forall i : nat, (i < length slept)%nat -> (fun _ => 0) i = 0) /\
      (green = 1 -> sum slept = SEC_TO_NS * delta / rate (settings paced_test))).
Proof.
  apply (throttle_paces paced_test (mk_time 11 0) (fun _ => 0) paced_stream 2000000); [done|cbn; lia|by vm_compute|lia|].
  intros _. exists 1000000. split; [by vm_compute|]. unfold SEC_TO_NS. lia.
Defined.

(** ** Bursts *)

Section Burst.
Context (r : nat -> Z) (g : nat -> iperf_stream -> iperf_stream) (now : nat -> iperf_time) (nanosleep : nat -> nat -> Z).

(** A protocol's [send] that answers [r] and changes the stream only. *)
Definition answering (k : nat) : WM Z := fun w => Ret (r k, w <| w_stream := g k (w_stream w) |>).

(** The bytes of the test after messages [k] to [m]. *)
Definition sent_between (k m : nat) : Z := sum (r <$> seq k (m - k)).

Lemma sent_between_next k m : (k < m)%nat -> sent_between k m = r k + sent_between (S k) m.
Proof. intros H. unfold sent_between. replace (m - k)%nat with (S (m - S k)) by lia. done. Qed.

(** [m] messages were sent from the [k]-th of at most [n] on. *)
Definition sent_burst (n k m : nat) (w : worker) (a : Z * bool) (w' : worker) : Prop :=
  (k <= m <= k + n)%nat /\ settings (w_test w') = settings (w_test w) /\
  u64 (test_bytes_sent (w_test w')) = u64 (test_bytes_sent (w_test w) + sent_between k m) /\
  (forall i, (k <= i < m)%nat -> 0 <= r i) /\
  (forall i, (k <= i < m)%nat -> (S i < k + n)%nat -> bytes (settings (w_test w)) <> 0 ->
    u64 (test_bytes_sent (w_test w) + sent_between k i) < bytes (settings (w_test w))) /\
  (a.1 = 0 /\ w_errno w' = w_errno w \/ a.1 = r m /\ r m < 0 /\ r m <> NET_SOFTERROR /\ w_errno w' = IESTREAMWRITE).

Lemma sent_burst_none n k w a : a.1 = 0 -> sent_burst n k k w a w.
Proof.
  intros Ha. split; [lia|]. split; [done|]. split; [unfold sent_between; by rewrite Nat.sub_diag, Z.add_0_r|].
  split; [lia|]. split; [lia|by left].
Qed.

Lemma count_message_spec x w : wp (count_message x) (fun _ w' => settings (w_test w') = settings (w_test w) /\ w_errno w' = w_errno w /\
  test_bytes_sent (w_test w') = u64 (test_bytes_sent (w_test w) + x)) w.
Proof. unfold count_message. repeat wp_step. cbn [w_stream update]. destruct (pending_size (w_stream w) =? 0); by repeat wp_step. Qed.

Lemma send_loop_spec n : forall k w, 0 <= test_bytes_sent (w_test w) < 2 ^ 64 ->
  wp (send_loop answering now nanosleep n false k) (fun a w' => exists m, sent_burst n k m w a w') w.
Proof.
  induction n as [|n IH]; intros k w Hw; cbn [send_loop]; [wp_step; exists k; by apply sent_burst_none|].
  repeat wp_step. destruct (_ =? 0); [wp_step; exists k; by apply sent_burst_none|].
  destruct (negb (n =? 0)%nat && enough (w_test w)) eqn:Ee; [wp_step; exists k; by apply sent_burst_none|].
  wp_step. unfold wp at 1, answering at 1. set (w1 := w <| w_stream := _ |>). destruct (Z.ltb_spec (r k) 0) as [Hneg|Hpos].
  - destruct (Z.eqb_spec (r k) NET_SOFTERROR); repeat wp_step; exists k.
    + by apply (sent_burst_none (S n) k w).
    + destruct (sent_burst_none (S n) k w (0, true) eq_refl) as (H1 & H2 & H3 & H4 & H5 & _).
      split; [exact H1|]. split; [exact H2|]. split; [exact H3|]. split; [exact H4|]. split; [exact H5|]. by right.
  - wp_step. eapply wp_mono; [apply count_message_spec|]. intros _ w2 (Hs & He & Hb). repeat wp_step.
    change (w_test w1) with (w_test w) in *. change (w_errno w1) with (w_errno w) in *.
    eapply wp_mono; [apply IH; rewrite Hb; apply wrapu_range; lia|]. intros a w' (m & Hm & Hs' & Hb' & Hpos' & Hlim & Ha). exists m.
    rewrite Hs in *. rewrite Hb in *. assert (sent_between k m = r k + sent_between (S k) m) as Em by (apply sent_between_next; lia).
    split; [lia|]. split; [done|]. split; [by rewrite Hb', u64_add_l, Em, Z.add_assoc|]. split; [|split].
    + intros i Hi. destruct (decide (i = k)) as [->|]; [done|]. apply Hpos'. lia.
    + intros i Hi Hlast Hbytes. destruct (decide (i = k)) as [->|].
      * unfold sent_between. rewrite Nat.sub_diag. cbn. rewrite Z.add_0_r, wrapu_small by done.
        replace (n =? 0)%nat with false in Ee by (symmetry; apply Nat.eqb_neq; lia). cbn [negb andb] in Ee. unfold enough in Ee.
        rewrite (proj2 (Z.eqb_neq _ _) Hbytes) in Ee. cbn [negb andb] in Ee. apply orb_false_iff in Ee as [Ee _]. by apply Z.leb_gt.
      * rewrite (sent_between_next k i), Z.add_assoc, <- u64_add_l by lia. apply Hlim; [lia|lia|done].
    + by rewrite He in Ha.
Qed.

(** A worker without pacing sends no more messages at once than its burst,
    counts exactly what they moved, looks at the number of bytes wanted before
    every message but the last, and reports a failed one. *)
Theorem burst_bounded w (Hr : rate (settings (w_test w)) = 0) (Hw : 0 <= test_bytes_sent (w_test w) < 2 ^ 64) :
  exists a w' m, iperf_send_mt answering now nanosleep w = Ret (a, w') /\
    Z.of_nat m <= Z.max 0 (messages_at_once (w_test w)) /\
    u64 (test_bytes_sent (w_test w')) = u64 (test_bytes_sent (w_test w) + sent_between 0 m) /\
    (forall i, (i < m)%nat -> 0 <= r i) /\
    (forall i, (i < m)%nat -> Z.of_nat (S i) < messages_at_once (w_test w) -> bytes (settings (w_test w)) <> 0 ->
      u64 (test_bytes_sent (w_test w) + sent_between 0 i) < bytes (settings (w_test w))) /\
    (a = 0 \/ a = r m /\ r m < 0 /\ w_errno w' = IESTREAMWRITE).
Proof.
  assert (wp (iperf_send_mt answering now nanosleep) (fun a w' => exists m, sent_burst (Z.to_nat (messages_at_once (w_test w))) 0 m w (a, true) w') w) as H.
  { unfold iperf_send_mt. wp_step. apply wp_get. rewrite Hr. cbn [Z.eqb negb andb]. cbv zeta. wp_step.
    eapply wp_mono; [by apply send_loop_spec|]. intros a w' (m & H). destruct (Z.ltb_spec a.1 0) as [Hneg|Hpos]; repeat wp_step; exists m.
    - destruct H as (H1 & H2 & H3 & H4 & H5 & [[E _]|H6]); [lia|]. split; [exact H1|]. split; [exact H2|]. split; [exact H3|]. split; [exact H4|]. split; [exact H5|]. by right.
    - destruct H as (H1 & H2 & H3 & H4 & H5 & [[E E2]|(E & E2 & _)]); [|lia]. split; [exact H1|]. split; [exact H2|]. split; [exact H3|]. split; [exact H4|]. split; [exact H5|]. by left. }
  destruct (wp_returns _ _ _ H) as (a & w' & E & m & (H1 & _ & H3 & H4 & H5 & H6)). exists a, w', m. split; [done|]. split; [lia|]. split; [done|].
  split; [intros i Hi; apply H4; lia|]. split; [intros i Hi Hlast; apply H5; lia|]. cbn in H6. destruct H6 as [[-> _]|(-> & ? & _ & ?)]; [by left|by right].
Qed.
End Burst.

(** Two messages are enough for 2000 bytes. *)
Definition burst_worker : worker :=
  mk_worker ((iperf_defaults iperf_new_test) <|s bytes := 2000 |>) (zero_stream <| green_light := 1 |>) 0.

Lemma burst_bounded_witness :
  exists a w' m, iperf_send_mt (answering (fun _ => 1460) (fun _ sp => sp)) (fun _ => mk_time 0 0) (fun _ _ => 0) burst_worker = Ret (a, w') /\
    Z.of_nat m <= Z.max 0 (messages_at_once (w_test burst_worker)) /\
    u64 (test_bytes_sent (w_test w')) = u64 (test_bytes_sent (w_test burst_worker) + sent_between (fun _ => 1460) 0 m) /\
    (forall i : nat, (i < m)%nat -> 0 <= (fun _ => 1460) i) /\
    (forall i, (i < m)%nat -> Z.of_nat (S i) < messages_at_once (w_test burst_worker) -> bytes (settings (w_test burst_worker)) <> 0 ->
      u64 (test_bytes_sent (w_test burst_worker) + sent_between (fun _ => 1460) 0 i) < bytes (settings (w_test burst_worker))) /\
    (a = 0 \/ a = (fun _ => 1460) m /\ (fun _ => 1460) m < 0 /\ w_errno w' = IESTREAMWRITE).
Proof. apply (burst_bounded (fun _ => 1460) (fun _ sp => sp) (fun _ => mk_time 0 0) (fun _ _ => 0) burst_worker); [done|cbn; lia]. Defined.

Example burst_sample : exists w', iperf_send_mt (answering (fun _ => 1460) (fun _ sp => sp)) (fun _ => mk_time 0 0) (fun _ _ => 0) burst_worker = Ret (0, w') /\
  test_bytes_sent (w_test w') = 2920 /\ test_blocks_sent (w_test w') = 2.
Proof. eexists. split; [vm_compute; reflexivity|]. by vm_compute. Qed.
