(* ===== verification/StatsSpec.v ===== *)
(** * Statistics: properties

    The worker of a stream and the main thread take turns in any order, one
    atomic access each: the worker counts what it moved, first in the total and
    then in the interval, and datagrams; the main thread ends intervals and the
    omitted part.  Whenever the main thread is between two of its tasks, the
    intervals since the start, or since the end of the omitted part, account for
    everything that was counted, but for what the worker counted between the
    accesses of the reset. *)

From stdpp Require Import relations.
From S2P Require Import Prelude Bytes Time Double IperfTest Udp Measure MeasureSpec.
Local Open Scope c_scope.

(** ** A stream and the two threads *)

(** What the main thread is about to do with the stream. *)
Inductive phase :=
| Idle
| Taken_sent (sent : Z)
| Taken (sent received : Z)
| Sampling (temp : iperf_interval_results) (rest : list counter) (sm : sample)
| Resetting (rest : list reset_access).

(** [flight] is what the worker has counted in the total only; [since] holds the
    intervals since the start or the last reset; [seen] the packets and errors
    read last.  Of the last reset: [raced] was counted between the access that
    begins the total anew and the one that begins the interval anew, [tr_late]
    was in flight at the latter; [tr_base] is the last interval and [seen_base]
    what had been read before it. *)
Record track := mk_track {
  stream : iperf_stream; flight : option Z; main : phase; since : list iperf_interval_results;
  raced : Z; tr_late : Z; seen : Z * Z; seen_base : Z * Z; tr_base : option iperf_interval_results }.

#[export] Instance track_eta : Eta track := fun x =>
  mk_track (stream x) (flight x) (main x) (since x) (raced x) (tr_late x) (seen x) (seen_base x) (tr_base x).

Definition count_total (r : Z) (sp : iperf_stream) : iperf_stream := if sender sp then count_sent r sp else count_received r sp.
Definition count_interval (r : Z) (sp : iperf_stream) : iperf_stream :=
  if sender sp then count_sent_interval r sp else count_received_interval r sp.

(** The counters of datagrams, which only the worker changes. *)
Definition count_datagrams (packets errors disorder : Z) (j p : double) (sp : iperf_stream) : iperf_stream :=
  sp <| packet_count := packets |> <| cnt_error := errors |> <| outoforder_packets := disorder |> <| jitter := j |> <| prev_transit := p |>.

(** By the direction of the stream: the access of the reset that begins the
    total anew, and the one that begins the interval anew. *)
Definition opens (sp : iperf_stream) (a : reset_access) : bool :=
  match a with Omit_sent => sender sp | Clear_received => negb (sender sp) | _ => false end.
Definition closes (sp : iperf_stream) (a : reset_access) : bool :=
  match a with Clear_sent_interval => sender sp | Clear_received_interval => negb (sender sp) | _ => false end.

Definition racing (x : track) : bool :=
  match main x with Resetting rest => existsb (closes (stream x)) rest | _ => false end.

(** The counters of datagrams that were read. *)
Definition see (c : counter) (sp : iperf_stream) (seen : Z * Z) : Z * Z :=
  match c with
  | Packet_count => (packet_count sp, seen.2)
  | Cnt_error => (seen.1, cnt_error sp)
  | _ => seen
  end.

Inductive turn (t : iperf_test) (x : track) : track -> Prop :=
| turn_total r : flight x = None ->
    turn t x (x <| stream := count_total r (stream x) |> <| flight := Some r |> <| raced := if racing x then raced x + r else raced x |>)
| turn_interval r : flight x = Some r ->
    turn t x (x <| stream := count_interval r (stream x) |> <| flight := None |>)
| turn_datagrams packets errors disorder j p :
    turn t x (x <| stream := count_datagrams packets errors disorder j p (stream x) |>)
| turn_take_sent sent sp : main x = Idle -> take_sent (stream x) = (sent, sp) ->
    turn t x (x <| stream := sp |> <| main := Taken_sent sent |>)
| turn_take_received sent received sp : main x = Taken_sent sent -> take_received (stream x) = (received, sp) ->
    turn t x (x <| stream := sp |> <| main := Taken sent received |>)
| turn_open now sent received temp temp' sp : main x = Taken sent received -> open_interval now sent received temp (stream x) = (temp', sp) ->
    turn t x (x <| stream := sp |> <| main := Sampling temp' (sampled_counters t) no_sample |>)
| turn_read c rest sm temp : main x = Sampling temp (c :: rest) sm ->
    turn t x (x <| main := Sampling temp rest (read_counter c (stream x) sm) |> <| seen := see c (stream x) (seen x) |>)
| turn_close answer sm temp new sp : main x = Sampling temp [] sm -> close_interval t answer sm temp (stream x) = Ret (new, sp) ->
    turn t x (x <| stream := sp |> <| main := Idle |> <| since := since x ++ [new] |>)
| turn_reset : main x = Idle ->
    turn t x (x <| main := Resetting reset_order |> <| since := [] |> <| seen_base := seen x |> <| tr_base := last (interval_results (result (stream x))) |>)
| turn_access a rest : main x = Resetting (a :: rest) ->
    turn t x (x <| stream := reset_step a (stream x) |> <| main := Resetting rest |>
      <| raced := if opens (stream x) a then 0 else raced x |> <| tr_late := if closes (stream x) a then default 0 (flight x) else tr_late x |>)
| turn_restart now answer sp : main x = Resetting [] -> restart_stream t now answer (stream x) = Ret sp ->
    turn t x (x <| stream := sp |> <| main := Idle |>).

(** ** The invariant *)

(** What was counted since the start or the reset, by the direction of the stream. *)
Definition counted_total (sp : iperf_stream) : Z :=
  if sender sp then bytes_sent (result sp) - bytes_sent_omit (result sp) else bytes_received (result sp).
Definition counted_interval (sp : iperf_stream) : Z :=
  if sender sp then bytes_sent_this_interval (result sp) else bytes_received_this_interval (result sp).

(** Intervals one after the other from [start] to [stop]. *)
Fixpoint consecutive (start : iperf_time) (l : list iperf_interval_results) (stop : iperf_time) : Prop :=
  match l with
  | [] => start = stop
  | i :: l => interval_start_time i = start /\ consecutive (interval_end_time i) l stop
  end.

(** The datagrams of an interval, and those counted at its end. *)
Definition packets_in (i : iperf_interval_results) : Z := default 0 (interval_packet_count <$> datagrams i).
Definition errors_in (i : iperf_interval_results) : Z := default 0 (interval_cnt_error <$> datagrams i).
Definition packets_at (i : option iperf_interval_results) : Z := default 0 (i ← i; ir_packet_count <$> datagrams i).
Definition errors_at (i : option iperf_interval_results) : Z := default 0 (i ← i; ir_cnt_error <$> datagrams i).
Definition retransmitted (i : iperf_interval_results) : Z := default 0 (interval_retrans <$> segments i).

(** Equal up to whole turns of a 64-bit counter. *)
Definition cong (a b : Z) : Prop := exists k, a = b + k * 2 ^ 64.

Lemma cong_u64 a b : cong a b -> u64 a = u64 b.
Proof. intros [k ->]. apply Z_mod_plus_full. Qed.

Lemma u64_cong a : exists k, u64 a = a + k * 2 ^ 64.
Proof. exists (- (a / 2 ^ 64)). unfold wrapu. rewrite Z.mod_eq by lia. lia. Qed.

Lemma s64_cong a : exists k, s64 a = a + k * 2 ^ 64.
Proof. destruct (u64_cong (a + 2 ^ 63)) as [k E]. exists k. unfold wraps, wrapu in *. change (64 - 1) with 63. rewrite E. lia. Qed.

(** The interval before the next one. *)
Definition before (l : list iperf_interval_results) (base : option iperf_interval_results) : option iperf_interval_results :=
  match last l with Some i => Some i | None => base end.

#[export] Instance counter_eq_dec : EqDecision counter.
Proof. solve_decision. Defined.

(** What the main thread has taken and not yet put into an interval. *)
Definition taken_bytes (x : track) : Z :=
  match main x with
  | Taken_sent sent => if sender (stream x) then sent else 0
  | Taken sent received => if sender (stream x) then sent else received
  | Sampling temp _ _ => bytes_transferred temp
  | _ => 0
  end.

Definition balanced (x : track) : Prop :=
  cong (sum (bytes_transferred <$> since x) + taken_bytes x + counted_interval (stream x) + default 0 (flight x) + raced x) (counted_total (stream x) + tr_late x).

(** In a reset the total begins anew first, then the interval. *)
Definition bytes_inv (x : track) : Prop :=
  match main x with
  | Resetting rest => since x = [] /\ (exists k, rest = drop k reset_order) /\
      (existsb (opens (stream x)) rest = false -> existsb (closes (stream x)) rest = true -> cong (counted_total (stream x)) (raced x)) /\
      (existsb (closes (stream x)) rest = false -> balanced x)
  | _ => balanced x
  end.

(** Where the next interval begins, or the one that is being made began. *)
Definition times_inv (x : track) : Prop :=
  let rp := result (stream x) in
  match main x with
  | Resetting _ => True
  | Sampling temp _ _ => consecutive (start_time rp) (since x) (interval_start_time temp) /\ interval_end_time temp = end_time rp
  | _ => (since x = [] -> interval_results rp = [] \/ end_time rp = start_time rp) /\ (since x <> [] -> consecutive (start_time rp) (since x) (end_time rp))
  end.

Definition last_before (x : track) : option iperf_interval_results := before (since x) (tr_base x).

(** A counter is still to be read for the interval that is being made. *)
Definition seen_inv (t : iperf_test) (x : track) : Prop :=
  match main x with
  | Sampling _ rest sm => (exists k, rest = drop k (sampled_counters t)) /\
      (if bool_decide (Packet_count ∈ rest) then packets_at (last_before x) = (seen x).1 else sm_packets sm = (seen x).1) /\
      (if bool_decide (Cnt_error ∈ rest) then errors_at (last_before x) = (seen x).2 else sm_errors sm = (seen x).2)
  | _ => packets_at (last_before x) = (seen x).1 /\ errors_at (last_before x) = (seen x).2
  end.

Record accounts (t : iperf_test) (x : track) : Prop := mk_accounts {
  ac_bytes : bytes_inv x;
  ac_times : times_inv x;
  ac_kept : interval_results (result (stream x)) = option_list (last_before x);
  ac_datagrams : protocol t <> Ptcp -> Forall (fun i => is_Some (datagrams i)) (option_list (last_before x));
  ac_seen : protocol t <> Ptcp -> seen_inv t x;
  ac_base : protocol t <> Ptcp -> packets_at (tr_base x) = (seen_base x).1 /\ errors_at (tr_base x) = (seen_base x).2;
  ac_packets : protocol t <> Ptcp -> cong (sum (packets_in <$> since x)) (packets_at (last_before x) - packets_at (tr_base x));
  ac_errors : protocol t <> Ptcp -> cong (sum (errors_in <$> since x)) (errors_at (last_before x) - errors_at (tr_base x));
  ac_retrans : protocol t = Ptcp -> sender_has_retransmits t = 1 -> match main x with Resetting _ => True | _ => cong (sum (retransmitted <$> since x)) (stream_retrans (result (stream x))) end }.

(** What the end of an interval does to a stream. *)
Record closed (t : iperf_test) (sm : sample) (temp : iperf_interval_results) (sp : iperf_stream) (new : iperf_interval_results) (sp' : iperf_stream) : Prop := mk_closed {
  cl_interval : (bytes_transferred new, interval_start_time new, interval_end_time new) = (bytes_transferred temp, interval_start_time temp, interval_end_time temp);
  cl_bytes : counted_interval sp' = counted_interval sp /\ counted_total sp' = counted_total sp;
  cl_times : end_time (result sp') = end_time (result sp) /\ start_time (result sp') = start_time (result sp);
  cl_kept : interval_results (result sp') = removelast (interval_results (result sp)) ++ [new];
  cl_datagrams : protocol t <> Ptcp -> exists d, datagrams new = Some d /\
    interval_packet_count d = s64 (sm_packets sm - packets_at (last (interval_results (result sp)))) /\ ir_packet_count d = sm_packets sm /\
    interval_cnt_error d = s64 (sm_errors sm - errors_at (last (interval_results (result sp)))) /\ ir_cnt_error d = sm_errors sm;
  cl_segments : protocol t = Ptcp -> sender_has_retransmits t = 1 -> exists s, segments new = Some s /\
    stream_retrans (result sp') = s64 (stream_retrans (result sp) + interval_retrans s) }.

Lemma record_connection_frame retrans cwnd wnd r rp : let rp' := record_connection retrans cwnd wnd r rp in
  stream_retrans rp' = s64 (stream_retrans rp + s64 (retrans - stream_prev_total_retrans rp)) /\
  (bytes_sent rp', bytes_sent_omit rp', bytes_received rp', bytes_sent_this_interval rp', bytes_received_this_interval rp', start_time rp', end_time rp', interval_results rp') =
  (bytes_sent rp, bytes_sent_omit rp, bytes_received rp, bytes_sent_this_interval rp, bytes_received_this_interval rp, start_time rp, end_time rp, interval_results rp).
Proof.
  unfold record_connection. cbv zeta. split.
  - repeat match goal with |- context [if ?b then _ else _] => destruct b end; reflexivity.
  - repeat match goal with |- context [if ?b then _ else _] => destruct b end; reflexivity.
Qed.

Lemma sample_connection_ended t answer temp sp temp' sp' : sample_connection t answer temp sp = Some (temp', sp') ->
  (bytes_transferred temp', interval_start_time temp', interval_end_time temp') = (bytes_transferred temp, interval_start_time temp, interval_end_time temp) /\
  sender sp' = sender sp /\
  (bytes_sent (result sp'), bytes_sent_omit (result sp'), bytes_received (result sp'), bytes_sent_this_interval (result sp'), bytes_received_this_interval (result sp'), start_time (result sp'), end_time (result sp'), interval_results (result sp')) =
  (bytes_sent (result sp), bytes_sent_omit (result sp), bytes_received (result sp), bytes_sent_this_interval (result sp), bytes_received_this_interval (result sp), start_time (result sp), end_time (result sp), interval_results (result sp)) /\
  (sender_has_retransmits t = 1 -> exists s, segments temp' = Some s /\ stream_retrans (result sp') = s64 (stream_retrans (result sp) + interval_retrans s)).
Proof.
  unfold sample_connection. destruct (Z.eqb_spec (sender_has_retransmits t) 1) as [E|Hn]; cbn [negb].
  - set (saved := save_tcpinfo answer temp).
    assert ((bytes_transferred saved, interval_start_time saved, interval_end_time saved) = (bytes_transferred temp, interval_start_time temp, interval_end_time temp)) as Es.
    { unfold saved, save_tcpinfo. by destruct answer. }
    destruct (get_total_retransmits saved) as [retrans|]; [|done]. destruct (get_snd_cwnd saved) as [cwnd|]; [|done].
    destruct (get_rtt saved) as [r|]; [|done]. destruct (get_rttvar saved) as [rv|]; [|done]. intros [= <- <-].
    destruct (record_connection_frame retrans cwnd (get_snd_wnd saved) r (result sp)) as [Er Ef].
    revert Er Ef. cbn [result update sender]. generalize (record_connection retrans cwnd (get_snd_wnd saved) r (result sp)). intros rp' Er Ef. split; [exact Es|]. split; [done|]. split; [exact Ef|].
    intros _. eexists. split; [reflexivity|]. exact Er.
  - intros [= <- <-]. split; [unfold save_tcpinfo; by destruct answer|]. done.
Qed.

Lemma sample_datagrams_ended sm temp sp temp' : sample_datagrams sm temp sp = Some temp' ->
  (bytes_transferred temp', interval_start_time temp', interval_end_time temp') = (bytes_transferred temp, interval_start_time temp, interval_end_time temp) /\
  exists d, datagrams temp' = Some d /\
    interval_packet_count d = s64 (sm_packets sm - packets_at (last (interval_results (result sp)))) /\ ir_packet_count d = sm_packets sm /\
    interval_cnt_error d = s64 (sm_errors sm - errors_at (last (interval_results (result sp)))) /\ ir_cnt_error d = sm_errors sm.
Proof.
  unfold sample_datagrams, packets_at, errors_at. destruct (last (interval_results (result sp))) as [irp|]; cbn.
  - destruct (datagrams irp) as [d|]; cbn; [|done]. intros [= <-]. split; [done|]. eexists. split; [reflexivity|]. done.
  - intros [= <-]. split; [done|]. eexists. split; [reflexivity|]. done.
Qed.

Lemma close_interval_closed t answer sm temp sp new sp' : close_interval t answer sm temp sp = Ret (new, sp') -> closed t sm temp sp new sp'.
Proof.
  unfold close_interval. change (has_tcpinfo =? 0) with false. cbn [negb]. destruct (Z.eqb_spec (protocol t) Ptcp) as [Ep|Ep].
  - destruct (sample_connection t answer temp sp) as [[temp3 sp3]|] eqn:E; [|done]. intros [= <- <-].
    apply sample_connection_ended in E as (Et & Es & Er & Hseg). injection Er as Er1 Er2 Er3 Er4 Er5 Er6 Er7 Er8. split; try done.
    + unfold counted_interval, counted_total. cbn [result update sender add_to_interval_list bytes_sent bytes_sent_omit bytes_received bytes_sent_this_interval bytes_received_this_interval].
      by rewrite Es, Er1, Er2, Er3, Er4, Er5.
    + cbn [result update add_to_interval_list interval_results]. by rewrite Er8.
  - destruct (sample_datagrams sm temp sp) as [temp3|] eqn:E; [|done]. cbn [fmap option_fmap option_map]. intros [= <- <-].
    apply sample_datagrams_ended in E as (Et & Hd). by split.
Qed.

Lemma before_snoc l i b : before (l ++ [i]) b = Some i.
Proof. unfold before. by rewrite last_snoc. Qed.

Lemma last_option_list {A} (o : option A) : last (option_list o) = o /\ removelast (option_list o) = [].
Proof. by destruct o. Qed.

Lemma consecutive_snoc start l i stop : consecutive start l (interval_start_time i) -> interval_end_time i = stop -> consecutive start (l ++ [i]) stop.
Proof. revert start. induction l as [|j l IH]; intros start H E; cbn in *; [done|]. destruct H as [H1 H2]. split; [done|]. by apply IH. Qed.

Lemma sum_snoc {A} (f : A -> Z) l i : sum (f <$> (l ++ [i])) = sum (f <$> l) + f i.
Proof. rewrite fmap_app, sum_app. cbn. lia. Qed.

(** The worker leaves everything of the intervals alone. *)
Lemma worker_accounts t x sp' f' r' : accounts t x -> sender sp' = sender (stream x) ->
  (interval_results (result sp'), end_time (result sp'), start_time (result sp'), stream_retrans (result sp')) =
  (interval_results (result (stream x)), end_time (result (stream x)), start_time (result (stream x)), stream_retrans (result (stream x))) ->
  (racing x = false -> r' = raced x /\ cong (counted_interval sp' + default 0 f' + counted_total (stream x)) (counted_interval (stream x) + default 0 (flight x) + counted_total sp')) ->
  (racing x = true -> cong (counted_total sp' + raced x) (counted_total (stream x) + r')) ->
  accounts t (x <| stream := sp' |> <| flight := f' |> <| raced := r' |>).
Proof.
  destruct x as [sp f m l r late sn sb b]. unfold racing. intros [H1 H2 H3 H4 H5 H6 H7 H8 H9] Es E Hn Hr.
  unfold bytes_inv, times_inv, seen_inv, last_before, balanced, taken_bytes in *. cbn in *. injection E as E1 E2 E3 E4.
  split; unfold bytes_inv, times_inv, seen_inv, last_before, balanced, taken_bytes; cbn; try done; rewrite ?E1, ?E2, ?E3, ?E4; try done.
  rewrite ?Es. destruct m as [|sent|sent received|temp rest sm|rest].
  1-4: destruct (Hn eq_refl) as [-> [k Hk]]; destruct H1 as [k1 H1]; exists (k1 + k); lia.
  destruct H1 as (Hl & Hk & H1 & H2'). assert (forall a, opens sp' a = opens sp a /\ closes sp' a = closes sp a) as Ha.
  { intros a. unfold opens, closes. by rewrite Es. }
  assert (existsb (opens sp') rest = existsb (opens sp) rest /\ existsb (closes sp') rest = existsb (closes sp) rest) as [-> ->].
  { clear -Ha. induction rest as [|a rest [I1 I2]]; [done|]. cbn. by rewrite I1, I2, (proj1 (Ha a)), (proj2 (Ha a)). }
  split_and!; [done|done| |].
  - intros Ho Hc. destruct (H1 Ho Hc) as [k1 E]. destruct (Hr Hc) as [k2 E']. exists (k1 + k2). lia.
  - intros Hc. destruct (Hn Hc) as [-> [k E]]. destruct (H2' Hc) as [k1 E']. exists (k1 + k). lia.
Qed.

Lemma counted_after_total r sp : sender (count_total r sp) = sender sp /\ counted_interval (count_total r sp) = counted_interval sp /\
  cong (counted_total (count_total r sp)) (counted_total sp + r).
Proof.
  unfold count_total, count_sent, count_received, counted_interval, counted_total. destruct (sender sp) eqn:Es; cbn; rewrite Es; cbn; (split_and!; [done|done|]).
  - destruct (u64_cong (bytes_sent (result sp) + r)) as [k ->]. exists k. lia.
  - destruct (u64_cong (bytes_received (result sp) + r)) as [k ->]. exists k. lia.
Qed.

Lemma counted_after_interval r sp : sender (count_interval r sp) = sender sp /\ counted_total (count_interval r sp) = counted_total sp /\
  cong (counted_interval (count_interval r sp)) (counted_interval sp + r).
Proof.
  unfold count_interval, count_sent_interval, count_received_interval, counted_interval, counted_total. destruct (sender sp) eqn:Es; cbn; rewrite Es; cbn; (split_and!; [done|done|]).
  - destruct (u64_cong (bytes_sent_this_interval (result sp) + r)) as [k ->]. exists k. lia.
  - destruct (u64_cong (bytes_received_this_interval (result sp) + r)) as [k ->]. exists k. lia.
Qed.

Lemma count_frames r sp : let parts sp := (interval_results (result sp), end_time (result sp), start_time (result sp), stream_retrans (result sp)) in
  parts (count_total r sp) = parts sp /\ parts (count_interval r sp) = parts sp.
Proof. cbn. unfold count_total, count_interval, count_sent, count_received, count_sent_interval, count_received_interval. by destruct (sender sp). Qed.

Lemma total_accounts t x r : flight x = None -> accounts t x ->
  accounts t (x <| stream := count_total r (stream x) |> <| flight := Some r |> <| raced := if racing x then raced x + r else raced x |>).
Proof.
  intros Hf H. destruct (counted_after_total r (stream x)) as (E1 & E2 & [k E3]). apply worker_accounts; try done; [apply count_frames| |].
  - intros ->. split; [done|]. rewrite Hf, E2. cbn. exists (- k). lia.
  - intros ->. exists k. lia.
Qed.

Lemma interval_accounts t x r : flight x = Some r -> accounts t x -> accounts t (x <| stream := count_interval r (stream x) |> <| flight := None |>).
Proof.
  intros Hf H. destruct (counted_after_interval r (stream x)) as (E1 & E2 & [k E3]).
  assert (x <| stream := count_interval r (stream x) |> <| flight := None |> = x <| stream := count_interval r (stream x) |> <| flight := None |> <| raced := raced x |>) as -> by (by destruct x).
  apply worker_accounts; try done; [apply count_frames| |].
  - intros _. split; [done|]. rewrite Hf, E2. cbn. exists k. lia.
  - intros _. exists 0. lia.
Qed.

Lemma datagrams_accounts t x packets errors disorder j p : accounts t x -> accounts t (x <| stream := count_datagrams packets errors disorder j p (stream x) |>).
Proof.
  intros H. set (sp := count_datagrams _ _ _ _ _ _).
  assert (x <| stream := sp |> = x <| stream := sp |> <| flight := flight x |> <| raced := raced x |>) as -> by (by destruct x).
  apply worker_accounts; try done; intros _; [split; [done|]|]; exists 0; unfold sp, counted_interval, counted_total; cbn; lia.
Qed.

Ltac unfold_inv := unfold bytes_inv, times_inv, seen_inv, last_before, balanced, taken_bytes in *.

Lemma take_sent_accounts t x sent sp : main x = Idle -> take_sent (stream x) = (sent, sp) -> accounts t x ->
  accounts t (x <| stream := sp |> <| main := Taken_sent sent |>).
Proof.
  destruct x as [sp0 f m l r late sn sb b]. cbn. intros -> [= <- <-] [H1 H2 H3 H4 H5 H6 H7 H8 H9]. unfold_inv. cbn in *.
  split; unfold_inv; cbn; try done. destruct H1 as [k H1]. exists k. unfold counted_interval, counted_total in *. cbn. destruct (sender sp0); lia.
Qed.

Lemma take_received_accounts t x sent received sp : main x = Taken_sent sent -> take_received (stream x) = (received, sp) -> accounts t x ->
  accounts t (x <| stream := sp |> <| main := Taken sent received |>).
Proof.
  destruct x as [sp0 f m l r late sn sb b]. cbn. intros -> [= <- <-] [H1 H2 H3 H4 H5 H6 H7 H8 H9]. unfold_inv. cbn in *.
  split; unfold_inv; cbn; try done. destruct H1 as [k H1]. exists k. unfold counted_interval, counted_total in *. cbn. destruct (sender sp0); lia.
Qed.

Lemma open_accounts t x now sent received temp temp' sp : main x = Taken sent received -> open_interval now sent received temp (stream x) = (temp', sp) -> accounts t x ->
  accounts t (x <| stream := sp |> <| main := Sampling temp' (sampled_counters t) no_sample |>).
Proof.
  destruct x as [sp0 f m l r late sn sb b]. cbn. intros -> [= <- <-] [H1 H2 H3 H4 H5 H6 H7 H8 H9]. unfold_inv. cbn in *.
  split; unfold_inv; cbn; try done.
  - split; [|done]. rewrite H3. destruct (last_option_list (before l b)) as [-> _]. unfold before. destruct l as [|i l] using rev_ind.
    + cbn. destruct b; [|done]. destruct (proj1 H2 eq_refl) as [E|E]; [|done]. by rewrite E in H3.
    + rewrite last_snoc. apply H2. by destruct l.
  - intros Hp. split; [by exists 0%nat|]. unfold sampled_counters. rewrite (proj2 (Z.eqb_neq _ _) Hp). exact (H5 Hp).
Qed.

Lemma read_accounts t x c rest sm temp : main x = Sampling temp (c :: rest) sm -> accounts t x ->
  accounts t (x <| main := Sampling temp rest (read_counter c (stream x) sm) |> <| seen := see c (stream x) (seen x) |>).
Proof.
  destruct x as [sp0 f m l r late sn sb b]. cbn. intros -> [H1 H2 H3 H4 H5 H6 H7 H8 H9]. unfold_inv. cbn in *.
  split; unfold_inv; cbn; try done. intros Hp. destruct (H5 Hp) as ((k & Hk) & Hpk & Her). unfold sampled_counters in *. rewrite (proj2 (Z.eqb_neq _ _) Hp) in *.
  split; [exists (S k); by rewrite <- (Nat.add_1_r k), <- drop_drop, <- Hk|].
  destruct k as [|[|[|[|k]]]]; cbn in Hk; try (by destruct k); injection Hk as -> ->; done.
Qed.

Lemma close_accounts t x answer sm temp new sp : main x = Sampling temp [] sm -> close_interval t answer sm temp (stream x) = Ret (new, sp) -> accounts t x ->
  accounts t (x <| stream := sp |> <| main := Idle |> <| since := since x ++ [new] |>).
Proof.
  destruct x as [sp0 f m l r late sn sb b]. cbn. intros -> E%close_interval_closed [H1 H2 H3 H4 H5 H6 H7 H8 H9]. unfold_inv. cbn -[sum packets_at errors_at] in *.
  destruct E as [[= I1 I2 I3] [B1 B2] [T1 T2] K D S]. rewrite H3 in *. destruct (last_option_list (before l b)) as [El Er]. rewrite El, Er in *.
  change (accounts t (mk_track sp f Idle (l ++ [new]) r late sn sb b)).
  split; unfold_inv; cbn [stream flight main since raced tr_late seen seen_base tr_base]; rewrite ?before_snoc, ?sum_snoc.
  - destruct H1 as [k H1]. exists k. rewrite B1, B2, I1. lia.
  - split; [intros E; by destruct l|]. intros _. rewrite T1, T2. apply consecutive_snoc; [rewrite I2; apply H2|]. rewrite I3. apply H2.
  - done.
  - intros Hp. destruct (D Hp) as (d & Ed & _). apply Forall_singleton. by exists d.
  - intros Hp. destruct (D Hp) as (d & Ed & _ & Ea & _ & Eb). destruct (H5 Hp) as (_ & S1 & S2). cbn in *. rewrite Ed. cbn. by rewrite Ea, Eb.
  - done.
  - intros Hp. destruct (D Hp) as (d & Ed & Ep & Ea & _). destruct (H7 Hp) as [k' ->]. unfold packets_in. rewrite Ed. cbn. rewrite Ed. cbn. rewrite Ep, Ea.
    destruct (s64_cong (sm_packets sm - packets_at (before l b))) as [k2 ->]. exists (k' + k2). lia.
  - intros Hp. destruct (D Hp) as (d & Ed & _ & _ & Ep & Ea). destruct (H8 Hp) as [k' ->]. unfold errors_in. rewrite Ed. cbn. rewrite Ed. cbn. rewrite Ep, Ea.
    destruct (s64_cong (sm_errors sm - errors_at (before l b))) as [k2 ->]. exists (k' + k2). lia.
  - intros Hp Hr. destruct (S Hp Hr) as (s & Es & ->). destruct (H9 Hp Hr) as [k' ->]. unfold retransmitted. rewrite Es. cbn.
    destruct (s64_cong (stream_retrans (result sp0) + interval_retrans s)) as [k2 ->]. exists (k' - k2). lia.
Qed.

Lemma reset_accounts t x : main x = Idle -> accounts t x ->
  accounts t (x <| main := Resetting reset_order |> <| since := [] |> <| seen_base := seen x |> <| tr_base := last (interval_results (result (stream x))) |>).
Proof.
  destruct x as [sp0 f m l r late sn sb b]. cbn. intros -> [H1 H2 H3 H4 H5 H6 H7 H8 H9]. unfold_inv. cbn in *.
  rewrite H3. destruct (last_option_list (before l b)) as [-> _]. split; unfold_inv; cbn; try done.
  - split_and!; [done|by exists 0%nat| |]; unfold opens, closes; cbn; by destruct (sender sp0).
  - intros _. exists 0. cbn. lia.
  - intros _. exists 0. cbn. lia.
Qed.

Lemma access_frame a sp : let parts sp := (sender sp, interval_results (result sp)) in parts (reset_step a sp) = parts sp.
Proof. by destruct a. Qed.

Lemma access_accounts t x a rest : main x = Resetting (a :: rest) -> accounts t x ->
  accounts t (x <| stream := reset_step a (stream x) |> <| main := Resetting rest |>
    <| raced := if opens (stream x) a then 0 else raced x |> <| tr_late := if closes (stream x) a then default 0 (flight x) else tr_late x |>).
Proof.
  destruct x as [sp0 f m l r late sn sb b]. cbn. intros -> [H1 H2 H3 H4 H5 H6 H7 H8 H9]. unfold_inv. cbn in *.
  pose proof (access_frame a sp0) as [= F1 F2]. destruct H1 as (-> & (k & Hk) & Ho & Hc).
  split; unfold_inv; cbn; rewrite ?F2; try done. split; [done|].
  split; [exists (S k); by rewrite <- (Nat.add_1_r k), <- drop_drop, <- Hk|].
  unfold counted_total, counted_interval, opens, closes in *. rewrite !F1.
  destruct k as [|[|[|[|[|[|[|[|k]]]]]]]]; cbn in Hk; try (by destruct k); injection Hk as -> ->; cbn in *;
    destruct (sender sp0) eqn:Es; cbn in *; rewrite ?Es; cbn; (split; [intros H H'|intros H]);
    try done; try (by apply Ho); try (by apply Hc); try (exists 0; lia).
  all: destruct (Ho eq_refl eq_refl) as [k E]; exists (- k); lia.
Qed.

Lemma restart_accounts t x now answer sp : main x = Resetting [] -> restart_stream t now answer (stream x) = Ret sp -> accounts t x ->
  accounts t (x <| stream := sp |> <| main := Idle |>).
Proof.
  destruct x as [sp0 f m l r late sn sb b]. cbn. intros ->. unfold restart_stream. destruct (omit_retransmits t answer (result sp0)) as [rp|] eqn:Eo; [|done].
  intros [= <-] [H1 H2 H3 H4 H5 H6 H7 H8 H9]. unfold_inv. cbn in *. destruct H1 as (-> & _ & _ & Hc). specialize (Hc eq_refl).
  assert ((bytes_sent rp, bytes_sent_omit rp, bytes_received rp, bytes_sent_this_interval rp, bytes_received_this_interval rp, interval_results rp) =
    (bytes_sent (result sp0), bytes_sent_omit (result sp0), bytes_received (result sp0), bytes_sent_this_interval (result sp0), bytes_received_this_interval (result sp0),
     interval_results (result sp0))) as [= R1 R2 R3 R4 R5 R6].
  { unfold omit_retransmits in Eo. destruct (_ =? 1); [destruct (get_total_retransmits _); [|done]|]; by injection Eo as <-. }
  split; unfold_inv; cbn; try done.
  - unfold counted_interval, counted_total in *. cbn. by rewrite R1, R2, R3, R4, R5.
  - split; [by right|done].
  - by rewrite R6.
  - intros _ _. exists 0. cbn. lia.
Qed.

Lemma turn_accounts t x x' : turn t x x' -> accounts t x -> accounts t x'.
Proof.
  intros []; [by apply total_accounts|by apply interval_accounts|by apply datagrams_accounts|by apply take_sent_accounts|by apply take_received_accounts|
    by eapply open_accounts|by apply read_accounts|by eapply close_accounts|by apply reset_accounts|by apply access_accounts|by eapply restart_accounts].
Qed.

(** ** Accounting *)

(** A stream before the test: nothing counted, no interval. *)
Definition unused (sp : iperf_stream) : Prop :=
  interval_results (result sp) = [] /\ counted_total sp = 0 /\ counted_interval sp = 0 /\ stream_retrans (result sp) = 0.

Definition at_start (sp : iperf_stream) : track := mk_track sp None Idle [] 0 0 (0, 0) (0, 0) None.

Lemma start_accounts t sp : unused sp -> accounts t (at_start sp).
Proof.
  intros (H1 & H2 & H3 & H4). split; unfold_inv; cbn; try done.
  - exists 0. rewrite H2, H3. lia.
  - split; [by left|done].
  - intros _. exists 0. cbn. lia.
  - intros _. exists 0. cbn. lia.
  - intros _ _. exists 0. rewrite H4. lia.
Qed.

Lemma reachable_accounts t sp x : unused sp -> rtc (turn t) (at_start sp) x -> accounts t x.
Proof. intros H Hx. apply (start_accounts t) in H. induction Hx as [|x y z Hxy _ IH]; [done|]. by apply IH, (turn_accounts t x). Qed.

(** The values of the interval before are there when the next one needs them. *)
Lemma close_defined t answer sm temp sp : protocol t <> Ptcp ->
  (forall i, last (interval_results (result sp)) = Some i -> is_Some (datagrams i)) -> exists r, close_interval t answer sm temp sp = Ret r.
Proof.
  intros Hp Hd. unfold close_interval. rewrite (proj2 (Z.eqb_neq _ _) Hp). unfold sample_datagrams.
  destruct (last (interval_results (result sp))) as [i|]; [|by eexists]. destruct (Hd i eq_refl) as [d ->]. by eexists.
Qed.

(** C22: whatever turns the worker of a stream and the main thread take, one
    access at a time, when the main thread is between two tasks the bytes of the
    intervals since the start, or the end of the omitted part, together with
    those of the running interval, of a count in flight and of what the worker
    counted while the reset was between its accesses, are the bytes counted in
    total, and what was in flight at that end; the intervals follow each other
    without a gap, from that time on; for UDP their datagrams and losses add up
    to the counters as they were read last, less what had been read before the
    reset; for TCP their retransmissions add up to the stream's.  The end of an
    interval of UDP never misses a value. *)
Theorem intervals_account t sp x (Hsp : unused sp) (Hx : rtc (turn t) (at_start sp) x) :
  (main x = Idle ->
    u64 (sum (bytes_transferred <$> since x) + counted_interval (stream x) + default 0 (flight x) + raced x) = u64 (counted_total (stream x) + tr_late x) /\
    (since x <> [] -> consecutive (start_time (result (stream x))) (since x) (end_time (result (stream x)))) /\
    (protocol t <> Ptcp ->
      u64 (sum (packets_in <$> since x)) = u64 ((seen x).1 - (seen_base x).1) /\ u64 (sum (errors_in <$> since x)) = u64 ((seen x).2 - (seen_base x).2)) /\
    (protocol t = Ptcp -> sender_has_retransmits t = 1 -> u64 (sum (retransmitted <$> since x)) = u64 (stream_retrans (result (stream x))))) /\
  (protocol t <> Ptcp -> forall temp sm answer, main x = Sampling temp [] sm -> exists r, close_interval t answer sm temp (stream x) = Ret r).
Proof.
  destruct (reachable_accounts t sp x Hsp Hx) as [H1 H2 H3 H4 H5 H6 H7 H8 H9]. split.
  - intros Hi. unfold bytes_inv, times_inv, seen_inv, balanced, taken_bytes in *. rewrite Hi in *. rewrite Z.add_0_r in H1.
    split; [by apply cong_u64|]. split; [apply H2|]. split; [|intros Hp Hr; by apply cong_u64, H9].
    intros Hp. destruct (H5 Hp) as [<- <-], (H6 Hp) as [<- <-]. split; [by apply cong_u64, H7|by apply cong_u64, H8].
  - intros Hp temp sm answer _. apply close_defined; [done|]. intros i Hi. rewrite H3 in Hi. destruct (last_option_list (last_before x)) as [E _]. rewrite E in Hi.
    specialize (H4 Hp). rewrite Hi in H4. exact (proj1 (Forall_singleton _ i) H4).
Qed.

(** ** Without interruption

    What [iperf_stats_callback] and [iperf_reset_stats] do to a stream whose
    worker is not running are turns of the main thread alone. *)

Lemma turn_to t x y z : turn t x y -> y = z -> rtc (turn t) x z.
Proof. intros H <-. by apply rtc_once. Qed.

Lemma rtc_to {A} (R : A -> A -> Prop) x y z : rtc R x y -> y = z -> rtc R x z.
Proof. by intros H <-. Qed.

Lemma stats_turns t now answer temp moved new sp sp' f l r late sn sb b : stats_stream t now answer temp sp = Ret (moved, new, sp') ->
  rtc (turn t) (mk_track sp f Idle l r late sn sb b)
    (mk_track sp' f Idle (l ++ [new]) r late (if protocol t =? Ptcp then sn else (packet_count sp, cnt_error sp)) sb b).
Proof.
  unfold stats_stream. destruct (take_sent sp) as [sent sp1] eqn:E1. destruct (take_received sp1) as [received sp2] eqn:E2.
  destruct (open_interval now sent received temp sp2) as [temp3 sp3] eqn:E3. destruct (close_interval t answer _ temp3 sp3) as [[new' sp4]| |] eqn:E4; [|done..]. intros [= _ <- <-].
  assert (packet_count sp3 = packet_count sp /\ cnt_error sp3 = cnt_error sp) as [Ep Ee].
  { injection E1 as _ <-. injection E2 as _ <-. by injection E3 as _ <-. }
  etransitivity; [eapply turn_to; [by apply turn_take_sent|reflexivity]|]. etransitivity; [eapply turn_to; [by eapply turn_take_received|reflexivity]|].
  etransitivity; [eapply turn_to; [by eapply turn_open|reflexivity]|]. revert E4. unfold sampled_counters. destruct (protocol t =? Ptcp); intros E4; rewrite <- ?Ep, <- ?Ee.
  - eapply turn_to; [by eapply turn_close|reflexivity].
  - do 4 (etransitivity; [eapply turn_to; [by eapply turn_read|reflexivity]|]). eapply turn_to; [by eapply turn_close|reflexivity].
Qed.

Lemma access_turns t order rest f l sn sb b : forall sp r late,
  rtc (turn t) (mk_track sp f (Resetting (order ++ rest)) l r late sn sb b)
    (mk_track (foldl (fun sp a => reset_step a sp) sp order) f (Resetting rest) l
      (if existsb (opens sp) order then 0 else r) (if existsb (closes sp) order then default 0 f else late) sn sb b).
Proof.
  induction order as [|a order IH]; intros sp r late; [apply rtc_refl|].
  etransitivity; [apply (turn_to t _ _ (mk_track (reset_step a sp) f (Resetting (order ++ rest)) l (if opens sp a then 0 else r) (if closes sp a then default 0 f else late) sn sb b)
    (turn_access t (mk_track sp f (Resetting (a :: order ++ rest)) l r late sn sb b) a (order ++ rest) eq_refl)); reflexivity|].
  etransitivity; [apply IH|]. cbn [existsb foldl]. pose proof (access_frame a sp) as [= Es _].
  assert (existsb (opens (reset_step a sp)) order = existsb (opens sp) order /\ existsb (closes (reset_step a sp)) order = existsb (closes sp) order) as [-> ->].
  { unfold opens, closes. by rewrite Es. }
  by destruct (opens sp a), (closes sp a), (existsb (opens sp) order), (existsb (closes sp) order).
Qed.

(** The reset begins, and ends. *)
Lemma begin_turn t sp f l r late sn sb b :
  rtc (turn t) (mk_track sp f Idle l r late sn sb b) (mk_track sp f (Resetting reset_order) [] r late sn sn (last (interval_results (result sp)))).
Proof. apply (turn_to t _ _ _ (turn_reset t (mk_track sp f Idle l r late sn sb b) eq_refl)). reflexivity. Qed.

Lemma restart_turn t now answer sp sp' f l r late sn sb b : restart_stream t now answer sp = Ret sp' ->
  rtc (turn t) (mk_track sp f (Resetting []) l r late sn sb b) (mk_track sp' f Idle l r late sn sb b).
Proof. intros E. apply (turn_to t _ _ _ (turn_restart t (mk_track sp f (Resetting []) l r late sn sb b) now answer sp' eq_refl E)). reflexivity. Qed.

Lemma reset_turns t now answer sp sp' f l r late sn sb b : reset_stream t now answer sp = Ret sp' ->
  rtc (turn t) (mk_track sp f Idle l r late sn sb b) (mk_track sp' f Idle [] 0 (default 0 f) sn sn (last (interval_results (result sp)))).
Proof.
  intros E. etransitivity; [apply begin_turn|]. etransitivity; [apply (access_turns t reset_order [])|].
  assert (existsb (opens sp) reset_order = true /\ existsb (closes sp) reset_order = true) as [-> ->] by (unfold opens, closes; cbn; by destruct (sender sp)).
  by apply (restart_turn t now answer).
Qed.

(** ** Examples *)

Definition udp_test : iperf_test := (iperf_defaults iperf_new_test) <| protocol := Pudp |>.
Definition udp_stream : iperf_stream := zero_stream <| id := 1 |> <| result := zero_result <| start_time := mk_time 10 0 |> |>.

(** A receiving UDP stream: the interval ends between the two counts of a datagram. *)
Definition stats_after (now : iperf_time) (sp : iperf_stream) : Z * iperf_interval_results * iperf_stream :=
  match stats_stream udp_test now None (empty_interval udp_test) sp with Ret r => r | _ => (0, empty_interval udp_test, sp) end.

Definition second_1 := stats_after (mk_time 11 0) (count_datagrams 1 0 0 D_zero D_zero (count_total 1460 udp_stream)).
Definition second_2 := stats_after (mk_time 12 0) (count_datagrams 3 1 0 D_zero D_zero (count_interval 1460 (count_total 1460 (count_interval 1460 second_1.2)))).

Definition two_seconds : track := mk_track second_2.2 None Idle [second_1.1.2; second_2.1.2] 0 0 (3, 1) (0, 0) None.


(** The turns of the worker. *)
Lemma total_turn t r sp m l rc late sn sb b : let x := mk_track sp None m l rc late sn sb b in
  rtc (turn t) x (mk_track (count_total r sp) (Some r) m l (if racing x then rc + r else rc) late sn sb b).
Proof. intros x. apply (turn_to t _ _ _ (turn_total t x r eq_refl)). reflexivity. Qed.

Lemma interval_turn t r sp m l rc late sn sb b : rtc (turn t) (mk_track sp (Some r) m l rc late sn sb b) (mk_track (count_interval r sp) None m l rc late sn sb b).
Proof. apply (turn_to t _ _ _ (turn_interval t (mk_track sp (Some r) m l rc late sn sb b) r eq_refl)). reflexivity. Qed.

Lemma datagrams_turn t packets errors disorder j p sp f m l rc late sn sb b :
  rtc (turn t) (mk_track sp f m l rc late sn sb b) (mk_track (count_datagrams packets errors disorder j p sp) f m l rc late sn sb b).
Proof. apply (turn_to t _ _ _ (turn_datagrams t (mk_track sp f m l rc late sn sb b) packets errors disorder j p)). reflexivity. Qed.

Lemma two_seconds_reachable : rtc (turn udp_test) (at_start udp_stream) two_seconds.
Proof.
  etransitivity; [apply (total_turn _ 1460)|]. etransitivity; [apply (datagrams_turn _ 1 0 0 D_zero D_zero)|].
  etransitivity; [apply (stats_turns _ (mk_time 11 0) None (empty_interval udp_test) second_1.1.1 second_1.1.2 _ second_1.2); by vm_compute|].
  etransitivity; [apply interval_turn|]. etransitivity; [apply (total_turn _ 1460)|]. etransitivity; [apply interval_turn|].
  etransitivity; [apply (datagrams_turn _ 3 1 0 D_zero D_zero)|].
  eapply rtc_to; [apply (stats_turns udp_test (mk_time 12 0) None (empty_interval udp_test) second_2.1.1 second_2.1.2 _ second_2.2)|]; by vm_compute.
Qed.

Example two_seconds_bytes : bytes_transferred <$> since two_seconds = [0; 2920] /\ packets_in <$> since two_seconds = [1; 2].
Proof. by vm_compute. Qed.

(** A sending stream counts 1000 bytes while the reset has taken the omitted
    total and has not cleared the interval yet: they are in the total and in no
    interval. *)
Definition tcp_test : iperf_test := iperf_defaults iperf_new_test.
Definition tcp_sender : iperf_stream := zero_stream <| id := 1 |> <| sender := true |> <| result := zero_result |>.

Definition raced_sender : iperf_stream :=
  let sp := foldl (fun sp a => reset_step a sp) tcp_sender (firstn 5 reset_order) in
  let sp := foldl (fun sp a => reset_step a sp) (count_interval 1000 (count_total 1000 sp)) (drop 5 reset_order) in
  match restart_stream tcp_test (mk_time 10 0) None sp with Ret sp => sp | _ => sp end.

Example reset_loses_bytes : exists x, rtc (turn tcp_test) (at_start tcp_sender) x /\ main x = Idle /\ stream x = raced_sender /\
  counted_total raced_sender = 1000 /\ counted_interval raced_sender = 0 /\ since x = [] /\ flight x = None /\ raced x = 1000.
Proof.
  eexists. split.
  - etransitivity; [apply begin_turn|]. etransitivity; [apply (access_turns _ (firstn 5 reset_order) (drop 5 reset_order))|].
    etransitivity; [apply (total_turn _ 1000)|]. etransitivity; [apply interval_turn|].
    etransitivity; [apply (access_turns _ (drop 5 reset_order) [])|]. apply (restart_turn _ (mk_time 10 0) None _ raced_sender). by vm_compute.
  - by vm_compute.
Qed.

Lemma intervals_account_witness :
  (main two_seconds = Idle ->
    u64 (sum (bytes_transferred <$> since two_seconds) + counted_interval (stream two_seconds) + default 0 (flight two_seconds) + raced two_seconds) =
      u64 (counted_total (stream two_seconds) + tr_late two_seconds) /\
    (since two_seconds <> [] -> consecutive (start_time (result (stream two_seconds))) (since two_seconds) (end_time (result (stream two_seconds)))) /\
    (protocol udp_test <> Ptcp ->
      u64 (sum (packets_in <$> since two_seconds)) = u64 ((seen two_seconds).1 - (seen_base two_seconds).1) /\
      u64 (sum (errors_in <$> since two_seconds)) = u64 ((seen two_seconds).2 - (seen_base two_seconds).2)) /\
    (protocol udp_test = Ptcp -> sender_has_retransmits udp_test = 1 ->
      u64 (sum (retransmitted <$> since two_seconds)) = u64 (stream_retrans (result (stream two_seconds))))) /\
  (protocol udp_test <> Ptcp -> forall temp sm answer, main two_seconds = Sampling temp [] sm ->
    exists r, close_interval udp_test answer sm temp (stream two_seconds) = Ret r).
Proof. apply (intervals_account udp_test udp_stream two_seconds); [by split_and!|apply two_seconds_reachable]. Defined.
