(* ===== verification/DiskFile.v ===== *)
(** * Sending and receiving a file

    [diskfile_send] and [diskfile_recv] of [iperf_api.c], which the option [-F]
    puts before the [send] and [recv] of TCP ([iperf_tcp.c]), with the contents
    of the stream's buffer. *)

From S2P Require Import Prelude Bytes.
Local Open Scope c_scope.

(** The rest of the file, the first [blksize] bytes of the buffer, the fields of
    the stream, the test's [done], and the bytes on the connection. *)
Record transfer := mk_transfer {
  file : list Z; contents : list Z; diskfile_left : Z; pending : Z; transfer_done : Z; sent : list Z }.

#[export] Instance transfer_eta : Eta transfer := fun x =>
  mk_transfer (file x) (contents x) (diskfile_left x) (pending x) (transfer_done x) (sent x).

Section Send.
Context (blksize : Z).

(** [read] of [n] bytes to the start of the buffer; [answer] is at least what it gives. *)
Definition read_file (answer n : Z) (x : transfer) : Z * transfer :=
  if answer <? 0 then (-1, x)
  else
    let r := Z.min answer (Z.min n (zlen (file x))) in
    (r, x <| contents := firstn (Z.to_nat r) (file x) ++ drop (Z.to_nat r) (contents x) |> <| file := drop (Z.to_nat r) (file x) |>).

(** Enough data to fill the buffer; what is in it then. *)
Definition fill_buffer (answer : Z) (x : transfer) : Z * transfer :=
  if (diskfile_left x <? blksize) && (transfer_done x =? 0) then
    let '(r, x) := read_file answer (blksize - diskfile_left x) x in
    let buffer_left := diskfile_left x + r in
    let x := if negb (buffer_left =? blksize) then x <| pending := buffer_left |> else x in
    (buffer_left, if buffer_left =? 0 then x <| transfer_done := 1 |> else x)
  else (diskfile_left x, x).

(** [iperf_tcp_send]; [written] gives the result of the write. *)
Definition tcp_send (written : Z -> Z) (x : transfer) : Z * transfer :=
  let x := if pending x =? 0 then x <| pending := blksize |> else x in
  let r := written (pending x) in
  if r <? 0 then (r, x)
  else (r, x <| pending := pending x - r |> <| sent := sent x ++ firstn (Z.to_nat r) (contents x) |>).

(** [memcpy] of the last bytes to the front, which must not overlap. *)
Definition shift_left (x : transfer) : option transfer :=
  let n := diskfile_left x in
  if negb (n =? 0) && (n <? blksize) then
    if (0 <=? n) && (n <=? blksize - n)
    then Some (x <| contents := drop (Z.to_nat (blksize - n)) (contents x) ++ drop (Z.to_nat n) (contents x) |>)
    else None
  else Some x.

Definition diskfile_send (answer : Z) (written : Z -> Z) (x : transfer) : outcome (Z * transfer) :=
  let '(buffer_left, x) := fill_buffer answer x in
  if negb (transfer_done x =? 0) || (buffer_left =? 0) then Ret (0, x <| transfer_done := 1 |>)
  else
    let '(r, x) := tcp_send written x in
    if r <? 0 then Ret (r, x)
    else
      match shift_left (x <| diskfile_left := buffer_left - r |>) with
      | Some x => Ret (r, x)
      | None => UB
      end.
End Send.

(** What was received goes to the file; the result of [write] is ignored. *)
Definition diskfile_recv (r : Z) (bytes : list Z) (disk : list Z) : Z * list Z :=
  (r, if 0 <? r then disk ++ firstn (Z.to_nat r) bytes else disk).

(** ** Whole transfers *)

(** Calls of a sender whose reads and writes are complete. *)
Fixpoint send_calls (blksize : Z) (n : nat) (x : transfer) : outcome transfer :=
  match n with
  | O => Ret x
  | S n =>
      match diskfile_send blksize (zlen (file x)) (fun pending => pending) x with
      | Ret (_, x) => send_calls blksize n x
      | UB => UB
      | OutOfFuel => OutOfFuel
      end
  end.

(** Calls of a receiver, one for each part. *)
Definition receive_calls (parts : list (list Z)) : list Z := foldl (fun disk part => (diskfile_recv (zlen part) part disk).2) [] parts.

Definition start_transfer (f buf : list Z) : transfer := mk_transfer f buf 0 0 0 [].

(** ** Properties *)

(** Between two calls of such a sender, with [rest] of the file to go. *)
Record midway (blksize : Z) (rest done_part : list Z) (x : transfer) : Prop := mk_midway {
  b_file : file x = rest;
  b_buffer : zlen (contents x) = blksize;
  b_idle : diskfile_left x = 0 /\ pending x = 0 /\ transfer_done x = 0;
  b_sent : sent x = done_part }.

Lemma send_block blksize rest out x : 0 < blksize -> midway blksize rest out x -> rest <> [] ->
  exists x', diskfile_send blksize (zlen rest) (fun n => n) x = Ret (Z.min blksize (zlen rest), x') /\
    midway blksize (drop (Z.to_nat blksize) rest) (out ++ firstn (Z.to_nat blksize) rest) x'.
Proof.
  intros Hb [Hf Hl (H1 & H2 & H3) Hs] Hne. assert (0 < zlen rest) as Hpos by (destruct rest; [done|]; rewrite zlen_cons; pose proof (zlen_nonneg rest); lia).
  unfold diskfile_send, fill_buffer. rewrite H1, H3. rewrite (proj2 (Z.ltb_lt 0 blksize)) by lia. cbn [Z.eqb andb].
  unfold read_file. rewrite (proj2 (Z.ltb_ge (zlen rest) 0)) by lia. rewrite Hf, Z.sub_0_r.
  set (r := Z.min (zlen rest) (Z.min blksize (zlen rest))). assert (r = Z.min blksize (zlen rest)) as Er by lia. assert (0 < r) by lia.
  cbn [diskfile_left update]. rewrite H1, Z.add_0_l. rewrite (proj2 (Z.eqb_neq r 0)) by lia.
  set (x1 := _ <| file := _ |>). set (x2 := if negb (r =? blksize) then _ else x1).
  assert (transfer_done x2 = 0 /\ contents x2 = contents x1 /\ file x2 = file x1 /\ sent x2 = out /\ diskfile_left x2 = 0 /\
    (if pending x2 =? 0 then blksize else pending x2) = r) as (E1 & E2 & E3 & E4 & E5 & E6).
  { unfold x2, x1. destruct (Z.eqb_spec r blksize) as [E|Hn]; cbn; rewrite ?H1, ?H2, ?H3, ?Hs; [by split_and!|].
    rewrite (proj2 (Z.eqb_neq r 0)) by lia. by split_and!. }
  rewrite E1. cbn [Z.eqb negb orb]. unfold tcp_send.
  set (x3 := if pending x2 =? 0 then x2 <| pending := blksize |> else x2).
  assert (pending x3 = r /\ transfer_done x3 = 0 /\ contents x3 = contents x1 /\ file x3 = file x1 /\ sent x3 = out) as (F1 & F2 & F3 & F4 & F5).
  { unfold x3. destruct (pending x2 =? 0); cbn; by split_and!. }
  rewrite F1, <- Er. rewrite (proj2 (Z.ltb_ge r 0)) by lia. cbv beta iota. unfold shift_left. rewrite ?(proj2 (Z.ltb_ge r 0)) by lia. cbn [diskfile_left update]. rewrite Z.sub_diag. cbn [Z.eqb negb andb].
  eexists. split; [reflexivity|].
  assert (firstn (Z.to_nat r) rest = firstn (Z.to_nat blksize) rest /\ drop (Z.to_nat r) rest = drop (Z.to_nat blksize) rest) as [T1 T2].
  { destruct (Z.le_gt_cases blksize (zlen rest)); [by replace r with blksize by lia|]. unfold zlen in *.
    rewrite !firstn_all2, !skipn_all2 by lia. done. }
  split; cbn -[firstn drop].
  - rewrite F4. unfold x1. cbn -[drop]. exact T2.
  - rewrite F3. unfold x1. cbn -[firstn drop]. rewrite zlen_app. unfold zlen in *. rewrite length_firstn, length_drop. lia.
  - by split_and!.
  - rewrite F3, F5. unfold x1. cbn -[firstn drop]. rewrite firstn_app, firstn_firstn, Nat.min_id. rewrite length_firstn.
    replace (Z.to_nat r - Nat.min (Z.to_nat r) (length rest))%nat with 0%nat by (unfold zlen in *; lia). rewrite firstn_O, app_nil_r. by rewrite T1.
Qed.

Lemma send_end blksize out x : 0 < blksize -> midway blksize [] out x ->
  exists x', diskfile_send blksize 0 (fun n => n) x = Ret (0, x') /\ transfer_done x' = 1 /\ sent x' = out.
Proof.
  intros Hb [Hf Hl (H1 & H2 & H3) Hs]. unfold diskfile_send, fill_buffer, read_file. rewrite H1, H3. rewrite (proj2 (Z.ltb_lt 0 blksize)) by lia.
  cbn [Z.eqb andb]. cbn -[firstn drop Z.eqb Z.sub Z.min zlen]. rewrite Hf. change (zlen (@nil Z)) with 0.
  replace (Z.min 0 (Z.min (blksize - 0) 0)) with 0 by lia. rewrite H1, Z.add_0_l. rewrite (proj2 (Z.eqb_neq 0 blksize)), Z.eqb_refl by lia. cbn [negb transfer_done update Z.eqb orb].
  eexists. split; [reflexivity|]. by split.
Qed.

Lemma send_calls_spec blksize : 0 < blksize -> forall k rest out x, (length rest <= k)%nat -> midway blksize rest out x ->
  exists n x', (n <= S k)%nat /\ send_calls blksize n x = Ret x' /\ transfer_done x' = 1 /\ sent x' = out ++ rest.
Proof.
  intros Hb. induction k as [|k IH]; intros rest out x Hk Hx.
  - destruct rest; [|cbn in Hk; lia]. destruct (send_end _ _ _ Hb Hx) as (x' & E & Hd & Hs). exists 1%nat, x'. split; [lia|].
    cbn [send_calls]. rewrite (b_file _ _ _ _ Hx). change (zlen []) with 0. rewrite E. by rewrite app_nil_r.
  - destruct rest as [|b rest].
    + destruct (send_end _ _ _ Hb Hx) as (x' & E & Hd & Hs). exists 1%nat, x'. split; [lia|].
      cbn [send_calls]. rewrite (b_file _ _ _ _ Hx). change (zlen []) with 0. rewrite E. by rewrite app_nil_r.
    + destruct (send_block blksize (b :: rest) out x Hb Hx ltac:(done)) as (x1 & E & Hx1).
      assert (length (drop (Z.to_nat blksize) (b :: rest)) <= k)%nat as Hlen by (rewrite length_drop; cbn [length] in *; lia).
      destruct (IH _ _ _ Hlen Hx1) as (n & x' & Hn & En & Hd & Hs). exists (S n), x'. split; [lia|].
      cbn [send_calls]. rewrite (b_file _ _ _ _ Hx), E. split; [done|]. split; [done|]. by rewrite Hs, <- app_assoc, take_drop.
Qed.

Lemma receive_calls_concat parts : receive_calls parts = concat parts.
Proof.
  unfold receive_calls. assert (forall disk, foldl (fun disk part => (diskfile_recv (zlen part) part disk).2) disk parts = disk ++ concat parts) as H; [|apply H].
  induction parts as [|part parts IH]; intros disk; cbn; [by rewrite app_nil_r|]. rewrite IH. destruct (Z.ltb_spec 0 (zlen part)) as [H|H].
  - unfold zlen. by rewrite Nat2Z.id, firstn_all, app_assoc.
  - destruct part; [done|]. rewrite zlen_cons in H. pose proof (zlen_nonneg part). lia.
Qed.

(** C25: with complete reads and writes a file of any length arrives whole: after
    at most one call for every byte and one more, the sender is done, it has
    sent exactly the file, and a receiver that gets those bytes in any parts has
    written exactly the file. *)
Theorem file_copied blksize f buf (Hb : 0 < blksize) (Hbuf : zlen buf = blksize) :
  exists n x, (n <= S (length f))%nat /\ send_calls blksize n (start_transfer f buf) = Ret x /\ transfer_done x = 1 /\ sent x = f /\
    forall parts, concat parts = sent x -> receive_calls parts = f.
Proof.
  destruct (send_calls_spec blksize Hb (length f) f [] (start_transfer f buf) ltac:(done)) as (n & x & Hn & E & Hd & Hs); [by split|].
  exists n, x. split; [done|]. split; [done|]. split; [done|]. split; [done|]. intros parts Hp. by rewrite receive_calls_concat, Hp, Hs.
Qed.

Lemma file_copied_witness :
  exists n x, (n <= 6)%nat /\ send_calls 4 n (start_transfer [1; 2; 3; 4; 5] [0; 0; 0; 0]) = Ret x /\ transfer_done x = 1 /\ sent x = [1; 2; 3; 4; 5] /\
    forall parts, concat parts = sent x -> receive_calls parts = [1; 2; 3; 4; 5].
Proof. apply (file_copied 4 [1; 2; 3; 4; 5] [0; 0; 0; 0]); [lia|done]. Defined.

(** After a short write the rest of the buffer is moved to its front, and the
    next read overwrites it: two bytes are sent late, out of order. *)
Example short_write_corrupts : exists x1 x2 x3,
  diskfile_send 4 8 (fun _ => 2) (start_transfer [1; 2; 3; 4; 5; 6; 7; 8] [0; 0; 0; 0]) = Ret (2, x1) /\
  diskfile_send 4 8 (fun n => n) x1 = Ret (2, x2) /\ diskfile_send 4 8 (fun n => n) x2 = Ret (4, x3) /\
  sent x3 = [1; 2; 5; 6; 7; 8; 3; 4].
Proof. do 3 eexists. split; [vm_compute; reflexivity|]. split; [vm_compute; reflexivity|]. split; [vm_compute; reflexivity|]. by vm_compute. Qed.
