(* ===== verification/Auth.v ===== *)
(** * Authentication

    [iperf_auth.c] and [test_is_authorized] of [iperf_api.c]: the token in which
    a client sends its credentials, and the server's verdict about it.

    What OpenSSL does is the class [cryptography]: its functions take and give
    byte strings or fail.  What the code relies on is stated where it is used.
    Memory that cannot be had is an argument. *)

From Stdlib Require Import String.
From S2P Require Import Prelude Bytes NumberText IperfTest.
Local Open Scope c_scope.

Definition IEAUTHTEST : Z := 142.
Definition INT_MAX : Z := 2 ^ 31 - 1.

(** OpenSSL, with the pair of keys in use; the [bool] is the padding of PKCS #1. *)
Class cryptography := {
  EVP_EncodeBlock : list Z -> list Z;
  EVP_DecodeBlock : list Z -> option (list Z);
  EVP_PKEY_size : Z;
  EVP_PKEY_encrypt : bool -> list Z -> option (list Z);
  EVP_PKEY_decrypt : bool -> list Z -> option (list Z);
  SHA256 : list Z -> list Z }.

Section Auth.
Context {crypto : cryptography}.

(** ** Hashes *)

Definition hash_digit (d : Z) : Z := if d <? 10 then c_0 + d else c_a + (d - 10).

(** ["%02x"] of a byte. *)
Definition hex_byte (b : Z) : list Z := [hash_digit (b / 16); hash_digit (b mod 16)].

Definition sha256 (s : text) : text := concat (hex_byte <$> firstn 32 (SHA256 s)).

(** ** The list of users *)

(** The token up to a delimiter, and what is behind it, if there is one. *)
Fixpoint strsep (d : Z) (l : text) : text * option text :=
  match l with
  | [] => ([], None)
  | c :: l => if c =? d then ([], Some l) else let '(t, rest) := strsep d l in (c :: t, rest)
  end.

Fixpoint lines_of (l : text) : list text :=
  match l with
  | [] => [[]]
  | c :: l =>
      if c =? c_nl then [] :: lines_of l
      else match lines_of l with line :: lines => (c :: line) :: lines | [] => [[c]] end
  end.

Definition c_hash : Z := 35.

Definition line_matches (username hash line : text) : bool :=
  let line := (strsep c_cr line).1 in
  match line with
  | [] => false
  | c :: _ =>
      if c =? c_hash then false
      else
        let '(s_username, line_ptr) := strsep c_comma line in
        match line_ptr with
        | None => false
        | Some line_ptr => bool_decide (username = s_username) && bool_decide (hash = (strsep c_comma line_ptr).1)
        end
  end.

Definition salted (username password : text) : text := [c_lbrace] ++ username ++ [c_rbrace] ++ password.

(** The difference of the times is computed on 64 bits with a sign. *)
Definition check_authentication (strdup : bool) (username password : text) (ts : Z) (filename : option text) (t skew_threshold : Z) : outcome Z :=
  match filename with
  | None => Ret 3
  | Some users =>
      let age := t - ts in
      if negb ((- 2 ^ 63 <=? age) && (age <? 2 ^ 63)) then UB
      else if (skew_threshold <? age) || (age <? - skew_threshold) then Ret 1
      else if negb strdup then Ret 3
      else if existsb (line_matches username (sha256 (salted username password))) (lines_of users) then Ret 0
      else Ret 3
  end.

(** ** Base64 *)

Definition c_equals : Z := 61.

Definition Base64Encode (malloc : bool) (buffer : list Z) : option text :=
  let length := zlen buffer in
  if (length =? 0) || (INT_MAX / 4 * 3 <? length) then None
  else if negb malloc then None
  else
    let encoded := EVP_EncodeBlock buffer in
    if negb (zlen encoded =? 4 * ((length + 2) / 3)) then None else Some encoded.

Definition ends_with (tail l : list Z) : bool := bool_decide (drop (length l - length tail) l = tail).

Definition calcDecodeLength (b64input : text) : Z :=
  let len := zlen b64input in
  let padding := if (2 <=? len) && ends_with [c_equals; c_equals] b64input then 2 else if (1 <=? len) && ends_with [c_equals] b64input then 1 else 0 in
  if padding <=? len / 4 * 3 then len / 4 * 3 - padding else 0.

Definition base64_char (c : Z) : bool :=
  (c_A <=? c) && (c <=? 90) || (c_a <=? c) && (c <=? 122) || (c_0 <=? c) && (c <=? c_9) || (c =? c_plus) || (c =? c_slash).

Definition Base64Decode (malloc : bool) (b64message : text) : option (list Z) :=
  let input_length := zlen b64message in
  if (input_length =? 0) || (INT_MAX <? input_length) || negb (input_length mod 4 =? 0) then None
  else
    let decoded_length := calcDecodeLength b64message in
    let padding := input_length / 4 * 3 - decoded_length in
    if negb (forallb base64_char (firstn (Z.to_nat (input_length - padding)) b64message)) then None
    else if negb malloc then None
    else
      match EVP_DecodeBlock b64message with
      | None => None
      | Some decoded =>
          if negb (zlen decoded =? decoded_length + padding) then None else Some (firstn (Z.to_nat decoded_length) decoded)
      end.

(** ** Encryption *)

(** The length is asked for first, with the same failures; [malloc] is OpenSSL's. *)
Definition encrypt_rsa_message (malloc : bool) (plaintext : text) (use_pkcs1_padding : bool) : option (list Z) :=
  match EVP_PKEY_encrypt use_pkcs1_padding plaintext with
  | None => None
  | Some output => if (zlen output =? 0) || (INT_MAX <? zlen output) then None else if malloc then Some output else None
  end.

Definition decrypt_rsa_message (malloc : bool) (encryptedtext : list Z) (use_pkcs1_padding : bool) : option (list Z) :=
  if zlen encryptedtext =? 0 then None
  else
    match EVP_PKEY_decrypt use_pkcs1_padding encryptedtext with
    | None => None
    | Some output => if (zlen output =? 0) || (INT_MAX <? zlen output) then None else if malloc then Some output else None
    end.

(** ** The token *)

Definition user_label : text := bytes_of "user: ".
Definition pwd_label : text := c_nl :: bytes_of "pwd:  ".
Definition ts_label : text := c_nl :: bytes_of "ts:   ".
Definition auth_text_length : Z := zlen (bytes_of "user: %s.pwd:  %s.ts:   %lld").

(** [snprintf] of [auth_text_format]. *)
Definition auth_text (username password : text) (ts : Z) : text := user_label ++ username ++ pwd_label ++ password ++ ts_label ++ fmt_d ts.

(** The answers to the three allocations, in their order. *)
Definition encode_auth_setting (calloc openssl_malloc malloc : bool) (utc_seconds : Z) (use_pkcs1_padding : bool) (username password : text) : option text :=
  if (EVP_PKEY_size <=? 0) || (EVP_PKEY_size <? zlen username) || (EVP_PKEY_size <? zlen password) then None
  else
    let text_len := auth_text_length + zlen username + zlen password + 32 in
    if negb calloc then None
    else
      match encrypt_rsa_message openssl_malloc (firstn (Z.to_nat (text_len - 1)) (auth_text username password utc_seconds)) use_pkcs1_padding with
      | None => None
      | Some encrypted => Base64Encode malloc encrypted
      end.

(** *** [sscanf] *)

Definition isspace (c : Z) : bool := (c_tab <=? c) && (c <=? c_cr) || (c =? c_space).

Fixpoint skip_space (l : text) : text :=
  match l with
  | c :: rest => if isspace c then skip_space rest else l
  | [] => []
  end.

(** White space in a format matches any amount of it; other characters themselves. *)
Fixpoint scan_literal (format l : text) : option text :=
  match format with
  | [] => Some l
  | f :: format =>
      if isspace f then scan_literal format (skip_space l)
      else match l with c :: l => if c =? f then scan_literal format l else None | [] => None end
  end.

Fixpoint span_nonspace (l : text) : text * text :=
  match l with
  | c :: rest => if isspace c then ([], l) else let '(w, r) := span_nonspace rest in (c :: w, r)
  | [] => ([], [])
  end.

(** ["%s"] *)
Definition scan_string (l : text) : option (text * text) :=
  match span_nonspace (skip_space l) with ([], _) => None | r => Some r end.

Fixpoint scan_digits (l : text) (v : Z) : Z :=
  match l with
  | c :: l => if (c_0 <=? c) && (c <=? c_9) then scan_digits l (v * 10 + (c - c_0)) else v
  | [] => v
  end.

Definition digit_first (l : text) : bool := match l with c :: _ => (c_0 <=? c) && (c <=? c_9) | [] => false end.

(** ["%lld"]: a number out of range becomes the nearest one. *)
Definition scan_int64 (l : text) : option Z :=
  let l := skip_space l in
  let '(neg, l) := match l with c :: rest => if c =? c_minus then (true, rest) else if c =? c_plus then (false, rest) else (false, l) | [] => (false, l) end in
  if digit_first l then
    let v := scan_digits l 0 in
    Some (Z.max (- 2 ^ 63) (Z.min (2 ^ 63 - 1) (if neg then - v else v)))
  else None.

(** The three values of the format. *)
Definition scan_auth (l : text) : option (text * text * Z) :=
  l ← scan_literal user_label l;
  '(username, l) ← scan_string l;
  l ← scan_literal pwd_label l;
  '(password, l) ← scan_string l;
  l ← scan_literal ts_label l;
  ts ← scan_int64 l;
  Some (username, password, ts).

(** The texts go to buffers as long as the plaintext; a longer one is an overrun. *)
Definition decode_auth_setting (malloc openssl_malloc calloc1 calloc2 : bool) (authtoken : text) (use_pkcs1_padding : bool) : outcome (option (text * text * Z)) :=
  match Base64Decode malloc authtoken with
  | None => Ret None
  | Some encrypted_b64 =>
      match decrypt_rsa_message openssl_malloc encrypted_b64 use_pkcs1_padding with
      | None => Ret None
      | Some plaintext =>
          if negb calloc1 || negb calloc2 then Ret None
          else
            match scan_auth (cstr plaintext) with
            | None => Ret None
            | Some (username, password, ts) =>
                if (zlen plaintext <? zlen username + 1) || (zlen plaintext <? zlen password + 1) then UB
                else Ret (Some (username, password, ts))
            end
      end
  end.

(** ** The server's verdict *)

(** The server's settings: is there a private key, the users, and the rest. *)
Record authorization := mk_authorization {
  server_rsa_private_key : bool; server_authorized_users : option text; server_skew_threshold : Z; use_pkcs1_padding : bool }.

(** The answers to the allocations, and the time. *)
Record auth_answers := mk_auth_answers { aa_malloc : bool; aa_openssl : bool; aa_calloc1 : bool; aa_calloc2 : bool; aa_strdup : bool; aa_time : Z }.

(** The result, and the error it sets. *)
Definition test_is_authorized (a : auth_answers) (z : authorization) (t : iperf_test) : outcome (Z * option Z) :=
  match server_rsa_private_key z, server_authorized_users z with
  | false, None => Ret (0, None)
  | true, Some users =>
      match authtoken (settings t) with
      | None => Ret (-1, Some IEAUTHTEST)
      | Some token =>
          match decode_auth_setting (aa_malloc a) (aa_openssl a) (aa_calloc1 a) (aa_calloc2 a) token (use_pkcs1_padding z) with
          | UB => UB
          | OutOfFuel => OutOfFuel
          | Ret None => Ret (-1, Some IEAUTHTEST)
          | Ret (Some (username, password, ts)) =>
              match check_authentication (aa_strdup a) username password ts (Some users) (aa_time a) (server_skew_threshold z) with
              | Ret r => Ret (if r =? 0 then (0, None) else (-1, Some IEAUTHTEST))
              | UB => UB
              | OutOfFuel => OutOfFuel
              end
          end
      end
  | _, _ => Ret (-1, Some IEAUTHTEST)
  end.

End Auth.
