(* ===== verification/AuthSpec.v ===== *)
(** * Who is authorized

    No token overruns a buffer, the server accepts exactly the credentials its
    list holds, and the token a client makes of such credentials is accepted. *)

From Stdlib Require Import String.
From S2P Require Import Prelude Bytes JsonGrammar NumberText IperfTest Auth.
Local Open Scope c_scope.

(** ** What [sscanf] takes *)

Lemma skip_space_length l : zlen (skip_space l) <= zlen l.
Proof. induction l as [|c l IH]; cbn [skip_space]; [done|]. destruct (isspace c); [|done]. rewrite zlen_cons. lia. Qed.

Lemma scan_literal_length f : forall l rest, scan_literal f l = Some rest -> zlen rest + zlen (List.filter (fun c => negb (isspace c)) f) <= zlen l.
Proof.
  induction f as [|c f IH]; intros l rest; cbn [scan_literal List.filter].
  - intros [= ->]. change (zlen (@nil Z)) with 0. lia.
  - destruct (isspace c) eqn:E; cbn [negb].
    + intros H%IH. pose proof (skip_space_length l). lia.
    + destruct l as [|x l]; [done|]. destruct (x =? c); [|done]. intros H%IH. rewrite !zlen_cons. lia.
Qed.

Lemma span_nonspace_app l : (span_nonspace l).1 ++ (span_nonspace l).2 = l.
Proof. induction l as [|c l IH]; cbn [span_nonspace]; [done|]. destruct (isspace c); [done|]. destruct (span_nonspace l). cbn in *. by rewrite IH. Qed.

Lemma scan_string_length l w rest : scan_string l = Some (w, rest) -> zlen w + zlen rest <= zlen l.
Proof.
  unfold scan_string. pose proof (span_nonspace_app (skip_space l)) as E. pose proof (skip_space_length l).
  destruct (span_nonspace (skip_space l)) as [w' r']. cbn [fst snd] in E. destruct w' as [|c w']; [done|]. intros [= <- <-].
  rewrite <- zlen_app, E. done.
Qed.

Lemma cstr_length l : zlen (cstr l) <= zlen l.
Proof. induction l as [|c l IH]; cbn [cstr]; [done|]. destruct (c =? 0); rewrite ?zlen_cons; [change (zlen (@nil Z)) with 0; pose proof (zlen_nonneg l); lia|lia]. Qed.

Lemma scan_auth_length l u p ts : scan_auth l = Some (u, p, ts) -> zlen u + 1 <= zlen l /\ zlen p + 1 <= zlen l.
Proof.
  unfold scan_auth. intros H.
  destruct (scan_literal user_label l) as [l1|] eqn:E1; [|done]. cbn [mbind option_bind] in H.
  destruct (scan_string l1) as [[u' l2]|] eqn:E2; [|done]. cbn [mbind option_bind] in H.
  destruct (scan_literal pwd_label l2) as [l3|] eqn:E3; [|done]. cbn [mbind option_bind] in H.
  destruct (scan_string l3) as [[p' l4]|] eqn:E4; [|done]. cbn [mbind option_bind] in H.
  destruct (scan_literal ts_label l4) as [l5|] eqn:E5; [|done]. cbn [mbind option_bind] in H.
  destruct (scan_int64 l5); [|done]. injection H as -> -> _.
  apply scan_literal_length in E1, E3. apply scan_string_length in E2, E4.
  change (zlen (List.filter _ user_label)) with 5 in E1. change (zlen (List.filter _ pwd_label)) with 4 in E3.
  pose proof (zlen_nonneg l2). pose proof (zlen_nonneg l3). pose proof (zlen_nonneg l4). pose proof (zlen_nonneg u). pose proof (zlen_nonneg p). lia.
Qed.

Section Spec.
Context {crypto : cryptography}.

Lemma decode_in_bounds m o c1 c2 token pad : exists r, decode_auth_setting m o c1 c2 token pad = Ret r /\
  forall u p ts, r = Some (u, p, ts) -> exists encrypted plaintext, Base64Decode m token = Some encrypted /\
    decrypt_rsa_message o encrypted pad = Some plaintext /\ scan_auth (cstr plaintext) = Some (u, p, ts).
Proof.
  unfold decode_auth_setting. destruct (Base64Decode m token) as [enc|] eqn:E1; [|by eexists].
  destruct (decrypt_rsa_message o enc pad) as [plain|] eqn:E2; [|by eexists]. destruct (_ || _); [by eexists|].
  destruct (scan_auth (cstr plain)) as [[[u p] ts]|] eqn:E3; [|by eexists].
  destruct (scan_auth_length _ _ _ _ E3). pose proof (cstr_length plain).
  rewrite (proj2 (Z.ltb_ge _ _)), (proj2 (Z.ltb_ge _ _)) by lia. cbn [orb].
  eexists. split; [done|]. intros ? ? ? [= <- <- <-]. by exists enc, plain.
Qed.

(** ** The verdict *)

(** A line of a text: what is between two line ends, or an end of the text. *)
Definition line_of (line users : text) : Prop :=
  c_nl ∉ line /\ exists before after, users = before ++ line ++ after /\
    (before = [] \/ exists b, before = b ++ [c_nl]) /\ (after = [] \/ exists a, after = c_nl :: a).

(** What follows, from one of the delimiters on. *)
Definition cut_at (ds rest : text) : Prop := rest = [] \/ exists c r, rest = c :: r /\ c ∈ ds.

(** The user's line in the list: the name, a comma and the hash, then the end of
    the line or a comma or carriage return with anything behind it; and not a
    comment, which starts with ['#']. *)
Definition listed (username hash users : text) : Prop :=
  exists line rest, line_of line users /\ line = username ++ [c_comma] ++ hash ++ rest /\
    c_comma ∉ username ++ hash /\ c_cr ∉ username ++ hash /\ (forall l, line <> c_hash :: l) /\ cut_at [c_comma; c_cr] rest.

(** A token that says who and when, in texts that fit their buffers. *)
Definition token_says (a : auth_answers) (z : authorization) (token u p : text) (ts : Z) : Prop :=
  exists encrypted plaintext, Base64Decode (aa_malloc a) token = Some encrypted /\
    decrypt_rsa_message (aa_openssl a) encrypted (use_pkcs1_padding z) = Some plaintext /\ scan_auth (cstr plaintext) = Some (u, p, ts) /\
    zlen u + 1 <= zlen plaintext /\ zlen p + 1 <= zlen plaintext.

Lemma lines_of_last line : c_nl ∉ line -> lines_of line = [line].
Proof.
  induction line as [|c line IH]; intros H; [done|]. apply not_elem_of_cons in H as [Hc H]. cbn [lines_of].
  rewrite (proj2 (Z.eqb_neq c c_nl)) by congruence. by rewrite IH.
Qed.

Lemma lines_of_app line rest : c_nl ∉ line -> lines_of (line ++ c_nl :: rest) = line :: lines_of rest.
Proof.
  induction line as [|c line IH]; intros H; [done|]. apply not_elem_of_cons in H as [Hc H]. cbn [app lines_of].
  rewrite (proj2 (Z.eqb_neq c c_nl)) by congruence. by rewrite IH.
Qed.

Lemma first_nl line rest b t : c_nl ∉ line -> line ++ c_nl :: rest = b ++ c_nl :: t -> b = line /\ t = rest \/ exists b2, b = line ++ c_nl :: b2 /\ rest = b2 ++ c_nl :: t.
Proof.
  revert b. induction line as [|c line IH]; intros [|x b] H E.
  - left. by injection E as ->.
  - right. injection E as <- ->. by exists b.
  - apply not_elem_of_cons in H as [Hc _]. injection E as -> _. done.
  - apply not_elem_of_cons in H as [_ H]. injection E as <- E. destruct (IH b H E) as [[-> ->]|(b2 & -> & ->)]; [by left|right; by exists b2].
Qed.

Lemma line_of_last line users : c_nl ∉ users -> line_of line users <-> line = users.
Proof.
  intros Hn. split.
  - intros [_ (b & a & -> & [->|[b' ->]] & [->|[a' ->]])]; rewrite ?app_nil_r; [done|set_solver..].
  - intros ->. split; [done|]. exists [], []. rewrite app_nil_r. auto.
Qed.

Lemma line_of_app line l rest : c_nl ∉ l -> line_of line (l ++ c_nl :: rest) <-> line = l \/ line_of line rest.
Proof.
  intros Hl. split.
  - intros [Hn (b & a & E & Hb & Ha)]. destruct Hb as [->|[b' ->]].
    + left. destruct Ha as [->|[a' ->]]; cbn [app] in E.
      * rewrite app_nil_r in E. rewrite <- E in Hn. set_solver.
      * destruct (first_nl l rest line a' Hl E) as [[-> _]|(b2 & -> & _)]; [done|set_solver].
    + right. rewrite <- app_assoc in E. split; [done|]. destruct (first_nl l rest b' (line ++ a) Hl E) as [[-> <-]|(b2 & -> & ->)].
      * exists [], a. auto.
      * exists (b2 ++ [c_nl]), a. rewrite <- app_assoc. split_and!; [done|right; by exists b2|done].
  - intros [->|[Hn (b & a & -> & Hb & Ha)]].
    + split; [done|]. exists [], (c_nl :: rest). split_and!; [done|by left|right; by exists rest].
    + split; [done|]. exists (l ++ c_nl :: b), a. rewrite <- app_assoc. split_and!; [done| |done]. right.
      destruct Hb as [->|[b' ->]]; [by exists l|exists (l ++ c_nl :: b'); by rewrite <- app_assoc].
Qed.

Lemma split_line users : c_nl ∉ users \/ exists l rest, c_nl ∉ l /\ users = l ++ c_nl :: rest.
Proof. destruct (decide (c_nl ∈ users)) as [H|H]; [right|by left]. by apply list_elem_of_split_l in H as (l & rest & -> & H); exists l, rest. Qed.

Lemma lines_of_spec line users : line ∈ lines_of users <-> line_of line users.
Proof.
  induction users as [users IH] using (induction_ltof1 _ length). destruct (split_line users) as [H|(l & rest & H & ->)].
  - rewrite lines_of_last, line_of_last, list_elem_of_singleton by done. done.
  - rewrite lines_of_app, line_of_app, elem_of_cons, IH by (done || unfold ltof; rewrite length_app; cbn; lia). done.
Qed.

Lemma strsep_through d a b : d ∉ a -> strsep d (a ++ d :: b) = (a, Some b).
Proof.
  induction a as [|c a IH]; intros Hd; cbn [app strsep]; [by rewrite Z.eqb_refl|]. apply not_elem_of_cons in Hd as [Hc Hd].
  rewrite (proj2 (Z.eqb_neq c d)) by congruence. by rewrite IH.
Qed.

Lemma strsep_end d a : d ∉ a -> strsep d a = (a, None).
Proof.
  induction a as [|c a IH]; intros Hd; cbn [strsep]; [done|]. apply not_elem_of_cons in Hd as [Hc Hd].
  rewrite (proj2 (Z.eqb_neq c d)) by congruence. by rewrite IH.
Qed.

(** [strsep] as a split of the text. *)
Lemma strsep_split d l : exists a, (strsep d l).1 = a /\ d ∉ a /\ match (strsep d l).2 with Some rest => l = a ++ d :: rest | None => l = a end.
Proof.
  induction l as [|c l IH]; cbn [strsep]; [exists []; split_and!; [done|apply not_elem_of_nil|done]|].
  destruct (Z.eqb_spec c d) as [->|Hc]; [exists []; split_and!; [done|apply not_elem_of_nil|done]|].
  destruct IH as (a & E & Hd & H). destruct (strsep d l) as [t o]. cbn [fst snd] in *. subst t. exists (c :: a).
  split_and!; [done|rewrite not_elem_of_cons; split; [congruence|done]|]. destruct o; cbn in *; by rewrite H at 1.
Qed.

Lemma strsep_app d a l : d ∉ a -> (strsep d (a ++ l)).1 = a ++ (strsep d l).1.
Proof.
  induction a as [|c a IH]; intros Hd; [done|]. apply not_elem_of_cons in Hd as [Hc Hd]. cbn [app strsep].
  rewrite (proj2 (Z.eqb_neq c d)) by congruence. specialize (IH Hd). destruct (strsep d (a ++ l)). cbn in *. by rewrite IH.
Qed.

Lemma line_matches_spec u h line :
  line_matches u h line = true <-> exists rest, line = u ++ [c_comma] ++ h ++ rest /\ c_comma ∉ u ++ h /\ c_cr ∉ u ++ h /\
    (forall l, line <> c_hash :: l) /\ cut_at [c_comma; c_cr] rest.
Proof.
  unfold line_matches. split.
  - destruct (strsep_split c_cr line) as (l1 & E1 & Hcr & H1). destruct (strsep c_cr line) as [l1' tail]. cbn [fst snd] in *. subst l1'.
    destruct l1 as [|c l1]; [done|]. destruct (Z.eqb_spec c c_hash) as [|Hc]; [done|].
    destruct (strsep_split c_comma (c :: l1)) as (u' & E2 & Hu & H2). destruct (strsep c_comma (c :: l1)) as [u1 [lp|]]; [|done]. cbn [fst snd] in *. subst u1.
    destruct (strsep_split c_comma lp) as (h' & E3 & Hh & H3). rewrite E3, andb_true_iff, !bool_decide_eq_true. intros [-> ->].
    assert (exists rest, lp = h' ++ rest /\ cut_at [c_comma] rest) as (r3 & -> & Hr3).
    { destruct (strsep c_comma lp) as [? [r|]]; cbn [snd] in H3; subst lp; [exists (c_comma :: r); split; [done|right; exists c_comma, r; by split; [|left]]|].
      exists []. rewrite app_nil_r. split; [done|by left]. }
    assert (exists rest, line = (c :: l1) ++ rest /\ cut_at [c_cr] rest) as (r1 & E & Hr1).
    { destruct tail as [r|]; [exists (c_cr :: r); split; [done|right; exists c_cr, r; by split; [|left]]|].
      exists []. rewrite app_nil_r. split; [done|by left]. }
    exists (r3 ++ r1). rewrite H2 in Hcr, E. split_and!.
    + rewrite E, <- app_assoc. cbn [app]. by rewrite <- app_assoc.
    + set_solver.
    + set_solver.
    + intros l El. rewrite E, <- H2 in El. cbn [app] in El. by injection El.
    + destruct Hr3 as [->|(x & r & -> & Hx)]; [destruct Hr1 as [->|(x & r & -> & Hx)]; [by left|]|]; right; eexists _, _; (split; [reflexivity|set_solver]).
  - intros (rest & -> & Hcomma & Hcr & Hhash & Hrest). rewrite not_elem_of_app in Hcomma, Hcr. destruct Hcomma as [Hcu Hch], Hcr as [Hru Hrh].
    assert (exists r, (strsep c_cr (u ++ [c_comma] ++ h ++ rest)).1 = u ++ c_comma :: h ++ r /\ cut_at [c_comma] r) as (r & -> & Hr).
    { rewrite strsep_app by done. rewrite (strsep_app c_cr [c_comma]) by set_solver. rewrite strsep_app by done. eexists. split; [reflexivity|].
      destruct Hrest as [->|(x & r & -> & Hx)]; [by left|]. apply elem_of_cons in Hx as [->|Hx%list_elem_of_singleton]; [|subst x; by left].
      change (c_comma :: r) with ([c_comma] ++ r). rewrite (strsep_app c_cr [c_comma] r) by set_solver. right. eexists _, _. split; [reflexivity|by left]. }
    destruct (u ++ c_comma :: h ++ r) as [|c l] eqn:El; [by destruct u|]. destruct (Z.eqb_spec c c_hash) as [->|_].
    { destruct u as [|c u]; [done|]. injection El as -> _. by destruct (Hhash (u ++ [c_comma] ++ h ++ rest)). }
    rewrite <- El, strsep_through by done. rewrite bool_decide_true by done. destruct Hr as [->|(x & r' & -> & ->%list_elem_of_singleton)].
    + rewrite app_nil_r, strsep_end by done. by rewrite bool_decide_true.
    + rewrite strsep_through by done. by rewrite bool_decide_true.
Qed.

Lemma existsb_listed u h users : existsb (line_matches u h) (lines_of users) = true <-> listed u h users.
Proof.
  rewrite existsb_exists. split.
  - intros (line & Hin%list_elem_of_In%lines_of_spec & (rest & H)%line_matches_spec). by exists line, rest.
  - intros (line & rest & Hin%lines_of_spec%list_elem_of_In & H). exists line. split; [done|]. apply line_matches_spec. by exists rest.
Qed.

Lemma token_decoded a z token : exists r, decode_auth_setting (aa_malloc a) (aa_openssl a) (aa_calloc1 a) (aa_calloc2 a) token (use_pkcs1_padding z) = Ret r /\
  forall u p ts, r = Some (u, p, ts) -> token_says a z token u p ts.
Proof.
  destruct (decode_in_bounds (aa_malloc a) (aa_openssl a) (aa_calloc1 a) (aa_calloc2 a) token (use_pkcs1_padding z)) as (r & E & H).
  exists r. split; [done|]. intros u p ts (enc & plain & E1 & E2 & E3)%H. destruct (scan_auth_length _ _ _ _ E3). pose proof (cstr_length plain).
  exists enc, plain. split_and!; try done; lia.
Qed.

(** C28: a server with a key or a list of users lets a client in only with both
    and with a token that decrypts to a user and a password for which the list
    has a line, not a comment, of exactly this user's name, a comma and the
    hash of "{user}password", made within the allowed time.  Whatever the token
    is, the texts in it fit the buffers they are copied to, and nothing is
    undefined but the age of a token from before the year of the overflow. *)
Theorem only_listed_authorized a z t (Ha : server_rsa_private_key z = true \/ is_Some (server_authorized_users z)) :
  (exists users token u p ts, server_authorized_users z = Some users /\ authtoken (settings t) = Some token /\ token_says a z token u p ts /\
    (test_is_authorized a z t = Ret (0, None) /\ listed u (sha256 (bytes_of "{" ++ u ++ bytes_of "}" ++ p)) users /\ Z.abs (aa_time a - ts) <= server_skew_threshold z \/
     test_is_authorized a z t = UB /\ ~ - 2 ^ 63 <= aa_time a - ts < 2 ^ 63)) \/
  test_is_authorized a z t = Ret (-1, Some IEAUTHTEST).
Proof.
  unfold test_is_authorized. destruct (server_rsa_private_key z), (server_authorized_users z) as [users|]; try by right.
  2:{ destruct Ha as [|[? ?]]; done. }
  destruct (authtoken (settings t)) as [token|]; [|by right]. destruct (token_decoded a z token) as (r & -> & Hr).
  destruct r as [[[u p] ts]|]; [|by right]. specialize (Hr u p ts eq_refl). unfold check_authentication.
  destruct (Z.leb_spec (- 2 ^ 63) (aa_time a - ts)), (Z.ltb_spec (aa_time a - ts) (2 ^ 63)); cbn [andb negb];
    try (left; exists users, token, u, p, ts; split_and!; try done; right; split; [done|lia]).
  destruct (Z.ltb_spec (server_skew_threshold z) (aa_time a - ts)); [by right|].
  destruct (Z.ltb_spec (aa_time a - ts) (- server_skew_threshold z)); [by right|]. cbn [orb].
  destruct (aa_strdup a); [|by right]. cbn [negb]. destruct (existsb _ _) eqn:E; [|by right].
  left. exists users, token, u, p, ts. split_and!; try done. left. split_and!; [done|by apply existsb_listed|lia].
Qed.

(** ** A round trip *)

(** What OpenSSL's documentation says of the functions used. *)
Class cryptography_laws := {
  block_length l : Forall byte_ok l -> zlen (EVP_EncodeBlock l) = 4 * ((zlen l + 2) / 3);
  block_padded l : Forall byte_ok l -> l <> [] -> exists body, EVP_EncodeBlock l = body ++ repeat c_equals (Z.to_nat (- zlen l mod 3)) /\ forallb base64_char body = true;
  block_decoded l : Forall byte_ok l -> l <> [] -> EVP_DecodeBlock (EVP_EncodeBlock l) = Some (l ++ repeat 0 (Z.to_nat (- zlen l mod 3)));
  cipher_bytes pad m c : EVP_PKEY_encrypt pad m = Some c -> Forall byte_ok c;
  cipher_decrypts pad m c : EVP_PKEY_encrypt pad m = Some c -> EVP_PKEY_decrypt pad c = Some m;
  message_short pad m c : EVP_PKEY_encrypt pad m = Some c -> zlen m <= EVP_PKEY_size;
  size_int : EVP_PKEY_size <= INT_MAX;
  hash_bytes s : Forall byte_ok (SHA256 s) }.

Context {laws : cryptography_laws}.

Lemma base64_not_padding l : forallb base64_char l = true -> c_equals ∉ l.
Proof. intros H Hin. rewrite forallb_forall in H. specialize (H c_equals (proj1 (list_elem_of_In _ _) Hin)). done. Qed.

Lemma ends_with_padding (body : list Z) (n k : nat) : forallb base64_char body = true -> body <> [] -> (k <= 2)%nat ->
  ends_with (repeat c_equals n) (body ++ repeat c_equals k) = (n <=? k)%nat.
Proof.
  intros Hb Hne Hk. unfold ends_with. rewrite length_app, !repeat_length. destruct (Nat.leb_spec n k) as [H|H].
  - rewrite drop_app_ge by lia. replace (length body + k - n - length body)%nat with (k - n)%nat by lia.
    rewrite bool_decide_true; [done|]. replace k with ((k - n) + n)%nat at 2 by lia. rewrite repeat_app, drop_app_ge by (rewrite repeat_length; lia).
    rewrite repeat_length, Nat.sub_diag. done.
  - rewrite bool_decide_false; [done|]. intros E. apply (base64_not_padding body Hb).
    assert (drop (length body + k - n) body <> []) as Hd by (intros Hd%(f_equal length); rewrite length_drop in Hd; cbn in Hd; destruct body; cbn in *; [done|lia]).
    rewrite drop_app_le in E by lia. destruct (drop (length body + k - n) body) as [|c rest] eqn:Ed; [done|].
    assert (c ∈ body) as Hc by (rewrite <- (take_drop (length body + k - n) body), Ed; set_solver).
    destruct n as [|n]; [lia|]. cbn [repeat app] in E. injection E as -> _. done.
Qed.

Lemma padding_arith n : 0 < n -> let k := - n mod 3 in 0 <= k <= 2 /\ 4 * ((n + 2) / 3) / 4 * 3 = n + k /\ 4 * ((n + 2) / 3) mod 4 = 0 /\ 4 <= 4 * ((n + 2) / 3).
Proof.
  intros Hn k. unfold k. rewrite (Z.mul_comm 4), Z.div_mul by lia. rewrite Z.mod_mul by lia.
  Z.to_euclidean_division_equations. lia.
Qed.

Lemma base64_round_trip l s : Forall byte_ok l -> Base64Encode true l = Some s -> Base64Decode true s = Some l.
Proof.
  intros Hl. unfold Base64Encode. destruct (Z.eqb_spec (zlen l) 0) as [|Hne]; [done|]. cbn [orb negb].
  destruct (Z.ltb_spec (INT_MAX / 4 * 3) (zlen l)) as [|Hmax]; [done|]. rewrite block_length, Z.eqb_refl by done. cbn [negb]. intros [= <-].
  assert (l <> []) as Hl0 by (by intros ->). assert (0 < zlen l) as Hpos by (pose proof (zlen_nonneg l); lia).
  pose proof (padding_arith (zlen l) Hpos) as (Hk & E3 & E4 & Hlen). destruct (block_padded l Hl Hl0) as (body & Eb & Hbody).
  pose proof (block_length l Hl) as Elen. unfold Base64Decode. rewrite Elen. set (len := 4 * ((zlen l + 2) / 3)) in *. set (k := - zlen l mod 3) in *.
  assert (len <= INT_MAX) as Hint by (change INT_MAX with 2147483647; change (INT_MAX / 4 * 3) with 1610612733 in Hmax; unfold len; clear - Hmax; Z.to_euclidean_division_equations; lia).
  assert (zlen body = len - k) as Hb.
  { rewrite <- Elen, Eb, zlen_app. unfold zlen at 3. rewrite repeat_length. lia. }
  assert (body <> []) as Hb0 by (intros ->; change (zlen (@nil Z)) with 0 in Hb; lia).
  rewrite (proj2 (Z.eqb_neq len 0)), (proj2 (Z.ltb_ge INT_MAX len)), E4 by lia. cbn [orb Z.eqb negb].
  assert (calcDecodeLength (EVP_EncodeBlock l) = zlen l) as ->.
  { unfold calcDecodeLength. rewrite Elen, Eb. fold len. change [c_equals; c_equals] with (repeat c_equals 2). change [c_equals] with (repeat c_equals 1).
    rewrite !ends_with_padding by (try done; lia). rewrite (proj2 (Z.leb_le 2 len)), (proj2 (Z.leb_le 1 len)) by lia. cbn [andb].
    assert ((if (2 <=? Z.to_nat k)%nat then 2 else if (1 <=? Z.to_nat k)%nat then 1 else 0) = k) as ->
      by (destruct (Nat.leb_spec 2 (Z.to_nat k)); [lia|]; destruct (Nat.leb_spec 1 (Z.to_nat k)); lia).
    rewrite E3, (proj2 (Z.leb_le _ _)) by lia. lia. }
  rewrite E3. replace (zlen l + k - zlen l) with k by lia. rewrite <- Hb, Eb. unfold zlen at 1. rewrite Nat2Z.id, firstn_app, firstn_all, Nat.sub_diag, firstn_O, app_nil_r, Hbody. cbn [negb].
  rewrite <- Eb, (block_decoded l Hl Hl0). fold k. rewrite zlen_app. unfold zlen at 2. rewrite repeat_length, Z2Nat.id, Z.eqb_refl by lia. cbn [negb].
  unfold zlen at 1. rewrite Nat2Z.id, firstn_app, firstn_all, Nat.sub_diag, firstn_O, app_nil_r. done.
Qed.

(** A word of a token: not empty, no white space and no NUL. *)
Definition word (w : text) : Prop := w <> [] /\ Forall (fun c => isspace c = false /\ c <> 0) w.

Lemma span_word w c rest : Forall (fun c => isspace c = false /\ c <> 0) w -> isspace c = true -> span_nonspace (w ++ c :: rest) = (w, c :: rest).
Proof. induction 1 as [|x w [Hx _] _ IH]; intros Hc; cbn [app span_nonspace]; [by rewrite Hc|]. rewrite Hx. by rewrite IH. Qed.

Lemma skip_word w rest : word w -> skip_space (w ++ rest) = w ++ rest.
Proof. intros [Hne Hw]. destruct w as [|c w]; [done|]. apply Forall_cons in Hw as [[Hc _] _]. cbn. by rewrite Hc. Qed.

Lemma scan_word w c rest : word w -> isspace c = true -> scan_string (w ++ c :: rest) = Some (w, c :: rest).
Proof.
  intros Hw Hc. unfold scan_string. rewrite skip_word by done. destruct Hw as [Hne Hw]. rewrite span_word by done. by destruct w.
Qed.

Lemma scan_word_label w l rest : word w -> l ∈ [pwd_label; ts_label] -> scan_string (w ++ l ++ rest) = Some (w, l ++ rest).
Proof. intros Hw Hl. apply list_elem_of_In in Hl. destruct Hl as [<-|[<-|[]]]; by apply scan_word. Qed.

Lemma scan_digits_value l : forall v, Forall jdigit l -> scan_digits l v = fold_left (fun v c => v * 10 + (c - c_0)) l v.
Proof.
  induction l as [|c l IH]; intros v; [done|]. intros [Hc Hl]%Forall_cons. cbn [scan_digits fold_left]. unfold jdigit in Hc.
  rewrite (proj2 (Z.leb_le _ _)), (proj2 (Z.leb_le _ _)) by lia. cbn [andb]. by apply IH.
Qed.

Lemma scan_number n : 0 <= n < 2 ^ 63 -> scan_int64 (fmt_d n) = Some n.
Proof.
  intros Hn. unfold fmt_d. rewrite (proj2 (Z.ltb_ge n 0)) by lia. destruct (dec_spec n ltac:(lia)) as [Hne [Hd Hv _ _]].
  unfold scan_int64. destruct (dec n) as [|c l] eqn:E; [done|]. assert (jdigit c) as Hc by (by apply Forall_cons in Hd as [? _]). unfold jdigit in Hc.
  assert (isspace c = false) as Hs by (unfold isspace; rewrite (proj2 (Z.leb_gt c c_cr)) by lia; rewrite andb_false_r; apply Z.eqb_neq; lia).
  cbn [skip_space]. rewrite Hs. rewrite (proj2 (Z.eqb_neq c c_minus)), (proj2 (Z.eqb_neq c c_plus)) by lia.
  cbn [digit_first]. rewrite (proj2 (Z.leb_le c_0 c)), (proj2 (Z.leb_le c c_9)) by lia. cbn [andb].
  rewrite scan_digits_value by done. change (fold_left _ (c :: l) 0) with (dec_value (c :: l)). rewrite Hv. f_equal. lia.
Qed.

Lemma scan_label l x : l ∈ [user_label; pwd_label; ts_label] -> skip_space x = x -> scan_literal l (l ++ x) = Some x.
Proof.
  intros Hl Hx. apply list_elem_of_In in Hl. destruct Hl as [<-|[<-|[<-|[]]]].
  all: match goal with |- context [scan_literal ?l] => let v := eval vm_compute in l in change l with v end.
  all: cbn; rewrite ?Hx; done.
Qed.

Lemma skip_number n : 0 <= n -> skip_space (fmt_d n) = fmt_d n.
Proof.
  intros Hn. unfold fmt_d. rewrite (proj2 (Z.ltb_ge n 0)) by lia. destruct (dec_spec n ltac:(lia)) as [Hne [Hd _ _ _]].
  destruct (dec n) as [|c l]; [done|]. apply Forall_cons in Hd as [Hc _]. unfold jdigit in Hc. cbn [skip_space].
  assert (isspace c = false) as -> by (unfold isspace; rewrite (proj2 (Z.leb_gt c c_cr)) by lia; rewrite andb_false_r; apply Z.eqb_neq; lia). done.
Qed.

Lemma scan_auth_text u p ts : word u -> word p -> 0 <= ts < 2 ^ 63 -> scan_auth (auth_text u p ts) = Some (u, p, ts).
Proof.
  intros Hu Hp Hts. unfold scan_auth, auth_text. rewrite scan_label; [|set_solver|by apply skip_word]. cbn [mbind option_bind].
  rewrite scan_word_label; [|done|set_solver]. cbn [mbind option_bind]. rewrite scan_label; [|set_solver|by apply skip_word]. cbn [mbind option_bind].
  rewrite scan_word_label; [|done|set_solver]. cbn [mbind option_bind]. rewrite scan_label; [|set_solver|apply skip_number; lia]. cbn [mbind option_bind].
  by rewrite scan_number.
Qed.

Lemma auth_text_fits u p ts : 0 <= ts < 2 ^ 63 -> zlen (auth_text u p ts) <= auth_text_length + zlen u + zlen p + 32 - 1.
Proof.
  intros Hts. unfold auth_text. rewrite !zlen_app. change (zlen user_label) with 6. change (zlen pwd_label) with 7. change (zlen ts_label) with 7. change auth_text_length with 28.
  unfold fmt_d. rewrite (proj2 (Z.ltb_ge ts 0)) by lia. pose proof (dec_length ts 19 ltac:(change (10 ^ 19) with 10000000000000000000; lia) ltac:(lia)). lia.
Qed.

Lemma number_nonzero n : 0 <= n -> Forall (fun c => c <> 0) (fmt_d n).
Proof.
  intros Hn. unfold fmt_d. rewrite (proj2 (Z.ltb_ge n 0)) by lia. destruct (dec_spec n ltac:(lia)) as [_ [Hd _ _ _]].
  eapply Forall_impl; [exact Hd|]. intros c. unfold jdigit. lia.
Qed.

Lemma auth_text_nonzero u p ts : word u -> word p -> 0 <= ts -> cstr (auth_text u p ts) = auth_text u p ts.
Proof.
  intros [_ Hu] [_ Hp] Hts. apply cstr_nonzero. unfold auth_text. rewrite !Forall_app.
  assert (forall w, Forall (fun c => isspace c = false /\ c <> 0) w -> Forall (fun c => c <> 0) w) as Hw
    by (intros w H; eapply Forall_impl; [exact H|]; by intros c [_ ?]).
  split_and!; [by repeat (constructor; [done|])|by apply Hw|by repeat (constructor; [done|])|by apply Hw|by repeat (constructor; [done|])|by apply number_nonzero].
Qed.

(** The line of a user in the list. *)
Definition user_line (u p : text) : text := u ++ [c_comma] ++ sha256 (salted u p).

Lemma hash_plain s c : c ∈ sha256 s -> c_0 <= c <= 102.
Proof.
  unfold sha256. intros Hc. apply list_elem_of_In, in_concat in Hc as (h & Hh & Hc). apply in_map_iff in Hh as (b & <- & Hb).
  pose proof (Forall_take byte_ok 32 _ (hash_bytes s)) as H. rewrite List.Forall_forall in H. specialize (H b Hb). unfold byte_ok in H.
  assert (forall d, 0 <= d < 16 -> c_0 <= hash_digit d <= 102) as Hh by (intros d Hd; unfold hash_digit; destruct (Z.ltb_spec d 10); lia).
  destruct Hc as [<-|[<-|[]]]; apply Hh; Z.to_euclidean_division_equations; lia.
Qed.

(** A user name as the list can hold it. *)
Definition user_ok (u : text) : Prop := word u /\ ~ c_comma ∈ u /\ head u <> Some c_hash.

Lemma user_line_matches u p : user_ok u -> line_matches u (sha256 (salted u p)) (user_line u p) = true.
Proof.
  intros ([Hne Hw] & Hcomma & Hhash). unfold line_matches, user_line.
  assert (forall x, x < c_0 -> x ∉ sha256 (salted u p)) as Hplain by (intros x Hx Hin%hash_plain; lia).
  rewrite strsep_end.
  - destruct u as [|c u]; [done|]. cbn [fst app]. rewrite (proj2 (Z.eqb_neq c c_hash)) by (cbn in Hhash; congruence).
    change (c :: (u ++ c_comma :: sha256 (salted (c :: u) p))) with ((c :: u) ++ (c_comma :: (sha256 (salted (c :: u) p)))). rewrite strsep_through by done.
    rewrite strsep_end by (apply Hplain; done). cbn [fst]. by rewrite !bool_decide_true.
  - rewrite !not_elem_of_app. split_and!; [|set_solver|by apply Hplain].
    intros Hin. rewrite List.Forall_forall in Hw. specialize (Hw c_cr (proj1 (list_elem_of_In _ _) Hin)). by destruct Hw.
Qed.

(** C29: the round trip of credentials.  The token a client makes of a user name
    and a password, words without white space, decodes to exactly these, and a
    server with the matching private key whose list has the line of this user
    and this password lets the client in while the clocks agree up to the
    allowed time. *)
Theorem token_authorizes a z t u p users token sent
    (Hu : user_ok u) (Hp : word p) (Hsent : 0 <= sent < 2 ^ 63) (Hnow : 0 <= aa_time a < 2 ^ 63)
    (Hs : Z.abs (aa_time a - sent) <= server_skew_threshold z)
    (Hmem : a = mk_auth_answers true true true true true (aa_time a))
    (Hk : server_rsa_private_key z = true) (Hl : server_authorized_users z = Some users) (Hline : user_line u p ∈ lines_of users)
    (He : encode_auth_setting true true true sent (use_pkcs1_padding z) u p = Some token)
    (Ht : authtoken (settings t) = Some token) :
  decode_auth_setting true true true true token (use_pkcs1_padding z) = Ret (Some (u, p, sent)) /\ test_is_authorized a z t = Ret (0, None).
Proof.
  assert (decode_auth_setting true true true true token (use_pkcs1_padding z) = Ret (Some (u, p, sent))) as Hd.
  { unfold encode_auth_setting in He. destruct (_ || _); [done|]. cbn [negb] in He. pose proof (auth_text_fits u p sent Hsent) as Hfit.
    rewrite firstn_all2 in He by (unfold zlen in *; lia). unfold encrypt_rsa_message in He.
    destruct (EVP_PKEY_encrypt _ _) as [c|] eqn:Ec; [|done]. destruct (Z.eqb_spec (zlen c) 0) as [|Hc0]; [done|]. destruct (INT_MAX <? zlen c); [done|]. cbn [orb] in He.
    unfold decode_auth_setting. rewrite (base64_round_trip c token (cipher_bytes _ _ _ Ec) He).
    unfold decrypt_rsa_message. rewrite (proj2 (Z.eqb_neq _ _)) by done. rewrite (cipher_decrypts _ _ _ Ec).
    assert (0 < zlen (auth_text u p sent) <= INT_MAX) as Hlen.
    { pose proof (message_short _ _ _ Ec). pose proof size_int. unfold auth_text. rewrite !zlen_app. change (zlen user_label) with 6.
      unfold auth_text in *. rewrite !zlen_app in *. change (zlen user_label) with 6 in *. pose proof (zlen_nonneg u). pose proof (zlen_nonneg p). pose proof (zlen_nonneg pwd_label). pose proof (zlen_nonneg ts_label).
      pose proof (zlen_nonneg (fmt_d sent)). lia. }
    rewrite (proj2 (Z.eqb_neq _ _)), (proj2 (Z.ltb_ge _ _)) by lia. cbn [orb negb].
    rewrite auth_text_nonzero by (done || lia || by destruct Hu). rewrite scan_auth_text by (done || by destruct Hu).
    destruct (scan_auth_length _ _ _ _ (scan_auth_text u p sent ltac:(by destruct Hu) Hp Hsent)).
    rewrite !(proj2 (Z.ltb_ge _ _)) by lia. done. }
  split; [done|]. unfold test_is_authorized. rewrite Hk, Hl, Ht, Hmem. cbn [aa_malloc aa_openssl aa_calloc1 aa_calloc2 aa_strdup aa_time]. rewrite Hd.
  unfold check_authentication. rewrite (proj2 (Z.leb_le _ _)), (proj2 (Z.ltb_lt _ _)) by lia. cbn [andb negb].
  rewrite !(proj2 (Z.ltb_ge _ _)) by lia. cbn [orb].
  rewrite (proj2 (existsb_exists _ _)); [done|]. exists (user_line u p). split; [by apply list_elem_of_In|by apply user_line_matches].
Qed.

End Spec.

(** ** An instance *)

Definition sextet (n : Z) : Z :=
  if n <? 26 then c_A + n else if n <? 52 then c_a + (n - 26) else if n <? 62 then c_0 + (n - 52) else if n =? 62 then c_plus else c_slash.

Definition unsextet (c : Z) : Z :=
  if (c_A <=? c) && (c <=? 90) then c - c_A else if (c_a <=? c) && (c <=? 122) then c - c_a + 26
  else if (c_0 <=? c) && (c <=? c_9) then c - c_0 + 52 else if c =? c_plus then 62 else if c =? c_slash then 63 else 0.

Fixpoint encode_block (l : list Z) : list Z :=
  match l with
  | a :: b :: c :: l => [sextet (a / 4); sextet (a mod 4 * 16 + b / 16); sextet (b mod 16 * 4 + c / 64); sextet (c mod 64)] ++ encode_block l
  | [a; b] => [sextet (a / 4); sextet (a mod 4 * 16 + b / 16); sextet (b mod 16 * 4); c_equals]
  | [a] => [sextet (a / 4); sextet (a mod 4 * 16); c_equals; c_equals]
  | [] => []
  end.

Fixpoint decode_block (l : list Z) : list Z :=
  match l with
  | w :: x :: y :: z :: l =>
      let '(w, x, y, z) := (unsextet w, unsextet x, unsextet y, unsextet z) in
      [w * 4 + x / 16; x mod 16 * 16 + y / 4; y mod 4 * 64 + z] ++ decode_block l
  | _ => []
  end.

Lemma sextets n : 0 <= n < 64 -> unsextet (sextet n) = n /\ base64_char (sextet n) = true.
Proof.
  intros Hn. assert (forallb (fun k => (unsextet (sextet (Z.of_nat k)) =? Z.of_nat k) && base64_char (sextet (Z.of_nat k))) (seq 0 64) = true) as H by (by vm_compute).
  rewrite forallb_forall in H. assert (In (Z.to_nat n) (seq 0 64)) as Hin by (apply in_seq; lia). specialize (H _ Hin). rewrite Z2Nat.id in H by lia.
  apply andb_prop in H as [H1%Z.eqb_eq H2]. done.
Qed.

Lemma unsextet_sextet n : 0 <= n < 64 -> unsextet (sextet n) = n.
Proof. apply sextets. Qed.
Lemma sextet_char n : 0 <= n < 64 -> base64_char (sextet n) = true.
Proof. apply sextets. Qed.

Lemma three_ind (P : list Z -> Prop) : P [] -> (forall a, P [a]) -> (forall a b, P [a; b]) -> (forall a b c l, P l -> P (a :: b :: c :: l)) -> forall l, P l.
Proof.
  intros H0 H1 H2 H3 l. assert (P l /\ (forall a, P (a :: l)) /\ forall a b, P (a :: b :: l)) as [H _]; [|done].
  induction l as [|x l (I1 & I2 & I3)]; split_and!; eauto.
Qed.

Lemma encode_block_shape l : Forall byte_ok l -> let k := Z.to_nat (- zlen l mod 3) in
  zlen (encode_block l) = 4 * ((zlen l + 2) / 3) /\ decode_block (encode_block l) = l ++ repeat 0 k /\
  exists body, encode_block l = body ++ repeat c_equals k /\ forallb base64_char body = true.
Proof.
  induction l as [|a|a b|a b c l IH] using three_ind; intros Hl k.
  - split_and!; [done|done|]. by exists [].
  - apply Forall_cons in Hl as [Ha _]. unfold byte_ok in Ha. change k with 2%nat. split_and!; [done| |].
    + cbn [encode_block decode_block repeat app]. rewrite !unsextet_sextet by (Z.to_euclidean_division_equations; lia).
      change (unsextet c_equals) with 0. repeat f_equal; Z.to_euclidean_division_equations; lia.
    + exists [sextet (a / 4); sextet (a mod 4 * 16)]. split; [done|]. cbn [forallb]. rewrite !sextet_char by (Z.to_euclidean_division_equations; lia). done.
  - apply Forall_cons in Hl as [Ha [Hb _]%Forall_cons]. unfold byte_ok in Ha, Hb. change k with 1%nat. split_and!; [done| |].
    + cbn [encode_block decode_block repeat app]. rewrite !unsextet_sextet by (Z.to_euclidean_division_equations; lia).
      change (unsextet c_equals) with 0. repeat f_equal; Z.to_euclidean_division_equations; lia.
    + exists [sextet (a / 4); sextet (a mod 4 * 16 + b / 16); sextet (b mod 16 * 4)]. split; [done|]. cbn [forallb]. rewrite !sextet_char by (Z.to_euclidean_division_equations; lia). done.
  - apply Forall_cons in Hl as [Ha [Hb [Hc Hl]%Forall_cons]%Forall_cons]. unfold byte_ok in Ha, Hb, Hc. destruct (IH Hl) as (E1 & E2 & body & E3 & E4).
    assert (k = Z.to_nat (- zlen l mod 3)) as -> by (unfold k; rewrite !zlen_cons; f_equal; Z.to_euclidean_division_equations; lia).
    split_and!.
    + cbn [encode_block app]. rewrite !zlen_cons, E1. clear. Z.to_euclidean_division_equations. lia.
    + cbn [encode_block app decode_block]. rewrite !unsextet_sextet by (Z.to_euclidean_division_equations; lia). rewrite E2.
      repeat f_equal; Z.to_euclidean_division_equations; lia.
    + eexists ([_; _; _; _] ++ body). split; [cbn [encode_block]; rewrite E3, <- app_assoc; reflexivity|]. cbn [app forallb]. rewrite E4.
      rewrite !sextet_char by (Z.to_euclidean_division_equations; lia). done.
Qed.

(** A toy cipher of messages up to 128 bytes, and a toy hash. *)
#[export] Instance sample_cryptography : cryptography := {
  EVP_EncodeBlock := encode_block;
  EVP_DecodeBlock l := Some (decode_block l);
  EVP_PKEY_size := 128;
  EVP_PKEY_encrypt _ m := if forallb (fun b => (0 <=? b) && (b <? 256)) m && (zlen m <=? 128) then Some (map (fun b => 255 - b) m) else None;
  EVP_PKEY_decrypt _ c := Some (map (fun b => 255 - b) c);
  SHA256 s := repeat (fold_left Z.add s 0 mod 256) 32 }.

Lemma sample_cipher m c : (if forallb (fun b => (0 <=? b) && (b <? 256)) m && (zlen m <=? 128) then Some (map (fun b => 255 - b) m) else None) = Some c ->
  Forall byte_ok m /\ zlen m <= 128 /\ c = map (fun b => 255 - b) m.
Proof.
  destruct (forallb _ m) eqn:E; [|done]. destruct (Z.leb_spec (zlen m) 128); [|done]. intros [= <-]. split_and!; [|done|done].
  rewrite forallb_forall in E. apply List.Forall_forall. intros b Hb. specialize (E b Hb). apply andb_prop in E as [H1%Z.leb_le H2%Z.ltb_lt]. done.
Qed.

#[export] Instance sample_laws : cryptography_laws.
Proof.
  split; cbn [EVP_EncodeBlock EVP_DecodeBlock EVP_PKEY_size EVP_PKEY_encrypt EVP_PKEY_decrypt SHA256 sample_cryptography].
  - intros l Hl. apply (encode_block_shape l Hl).
  - intros l Hl _. destruct (encode_block_shape l Hl) as (_ & _ & H). done.
  - intros l Hl _. destruct (encode_block_shape l Hl) as (_ & H & _). by rewrite H.
  - intros _ m c (Hm & _ & ->)%sample_cipher. rewrite Forall_map. eapply Forall_impl; [exact Hm|]. intros b. unfold byte_ok. cbn. lia.
  - intros _ m c (_ & _ & ->)%sample_cipher. rewrite map_map. f_equal. erewrite map_ext; [apply map_id|]. intros b. cbn. lia.
  - by intros _ m c (_ & H & _)%sample_cipher.
  - done.
  - intros s. apply List.Forall_forall. intros b Hb%repeat_spec. subst. apply Z.mod_pos_bound. lia.
Qed.

Definition sample_user : text := bytes_of "ann".
Definition sample_password : text := bytes_of "s3cret".
Definition sample_users : text := Eval vm_compute in bytes_of "# users" ++ [c_nl] ++ user_line sample_user sample_password ++ [c_nl].
Definition sample_token : text := Eval vm_compute in default [] (encode_auth_setting true true true 1700000000 false sample_user sample_password).
Definition sample_answers (now : Z) : auth_answers := mk_auth_answers true true true true true now.
Definition sample_authorization : authorization := mk_authorization true (Some sample_users) 10 false.
Definition with_token (token : text) : iperf_test := iperf_new_test <|s authtoken := Some token |>.

Lemma sample_word_chars l : l <> [] -> forallb (fun c => negb (isspace c) && negb (c =? 0)) l = true -> word l.
Proof.
  intros Hne H. split; [done|]. rewrite forallb_forall in H. apply List.Forall_forall. intros c Hc. specialize (H c Hc).
  apply andb_prop in H as [H1%negb_true_iff H2%negb_true_iff]. by apply Z.eqb_neq in H2.
Qed.

Lemma token_authorizes_witness :
  decode_auth_setting true true true true sample_token false = Ret (Some (sample_user, sample_password, 1700000000)) /\
  test_is_authorized (sample_answers 1700000007) sample_authorization (with_token sample_token) = Ret (0, None).
Proof.
  apply (token_authorizes (sample_answers 1700000007) sample_authorization (with_token sample_token) sample_user sample_password sample_users sample_token 1700000000);
    try done; try (cbn; lia).
  - split_and!; [by apply sample_word_chars| |by vm_compute]. intros H. by apply list_elem_of_In in H as [?|[?|[?|[]]]].
  - by apply sample_word_chars.
  - apply list_elem_of_In. vm_compute. right. by left.
Defined.

(** The toy cipher turns every byte round, so that a peer's plaintext is at hand. *)
Definition forged (plaintext : text) : text := encode_block (map (fun b => 255 - b) plaintext).

Lemma only_listed_authorized_witness :
  (exists users token u p ts, Some sample_users = Some users /\ authtoken (settings (with_token sample_token)) = Some token /\
     token_says (sample_answers 1700000007) sample_authorization token u p ts /\
    (test_is_authorized (sample_answers 1700000007) sample_authorization (with_token sample_token) = Ret (0, None) /\
       listed u (sha256 (bytes_of "{" ++ u ++ bytes_of "}" ++ p)) users /\ Z.abs (1700000007 - ts) <= 10 \/
     test_is_authorized (sample_answers 1700000007) sample_authorization (with_token sample_token) = UB /\ ~ - 2 ^ 63 <= 1700000007 - ts < 2 ^ 63)) \/
  test_is_authorized (sample_answers 1700000007) sample_authorization (with_token sample_token) = Ret (-1, Some IEAUTHTEST).
Proof. apply (only_listed_authorized (sample_answers 1700000007) sample_authorization (with_token sample_token)). by left. Defined.

(** A time of the first years that 64 bits can count: the age is out of range. *)
Example ancient_token : test_is_authorized (sample_answers 1700000007) sample_authorization
  (with_token (forged (user_label ++ sample_user ++ pwd_label ++ sample_password ++ ts_label ++ bytes_of "-9223372036854775808"))) = UB.
Proof. by vm_compute. Qed.

(** A password with a space is sent, and cannot be read: its token is refused. *)
Example spaced_password : let password := bytes_of "two words" in
  let users := user_line sample_user password in
  exists token, encode_auth_setting true true true 1700000000 false sample_user password = Some token /\
  test_is_authorized (sample_answers 1700000000) (mk_authorization true (Some users) 10 false) (with_token token) = Ret (-1, Some IEAUTHTEST).
Proof. eexists. split; [vm_compute; reflexivity|]. by vm_compute. Qed.
