(* ===== verification/Session.v ===== *)
(** * The control side of a test

    The messages of the control connection and what each end does with them:
    [iperf_set_send_state] and [iperf_exchange_parameters] ([iperf_api.c]),
    [iperf_handle_message_client], [iperf_client_end] and the timers of
    [iperf_client_api.c], [iperf_handle_message_server], [iperf_accept],
    [cleanup_server] and the timers of [iperf_server_api.c], [cpu_util]
    ([iperf_util.c]) and [iperf_sync_close_socket] ([net.c]).

    One end is the timer list ([Timer.v]) around a [peer]: the control
    connection with the test ([Results.v]), what the process holds
    ([Streams.v]) and the other fields of the test.  The system's answers are
    functions of a counter of the calls made.  The embedding program's callbacks
    are recorded with the state they are called in; texts printed and the output
    in JSON are left out. *)

From S2P Require Import Prelude Bytes Time Timer Double CJson IperfTest ControlChannel OutputBudget Params Results Streams Connect Measure Auth.
Local Open Scope c_scope.

Definition IEACCEPT : Z := 104.
Definition IECTRLREAD : Z := 108.
Definition IECTRLCLOSE : Z := 109.
Definition IEMESSAGE : Z := 110.
Definition IESENDMESSAGE : Z := 111.
Definition IERECVMESSAGE : Z := 112.
Definition IECLIENTTERM : Z := 119.
Definition IESERVERTERM : Z := 120.
Definition IEACCESSDENIED : Z := 121.
Definition IESERVERTESTDURATIONEXPIRED : Z := 160.
Definition SEC_TO_US : Z := 1000000.

(** ** State *)

(** The procedures of the timers; their client data is always the test. *)
Inductive procedure :=
| Test_timer | Client_stats_timer | Client_reporter_timer | Client_omit_timer
| Server_timer | Server_stats_timer | Server_reporter_timer | Server_omit_timer.

Inductive callback := On_connect | On_test_finish | Reporter.

(** What the clocks say, a [timeval] being two numbers as [iperf_time] is. *)
Record usage := mk_usage { u_time : iperf_time; u_clock : Z; ru_utime : iperf_time; ru_stime : iperf_time }.

(** [pr_denied] is what was written to other clients, [pr_threads] are the
    numbers of the streams whose worker threads have not been joined, [pr_waits]
    how long [select] was to wait. *)
Record peer := mk_peer {
  pr_side : side;
  pr_blocks : Z; pr_fds : list Z; pr_pages : Z; pr_read_set : list Z; pr_shut : list Z;
  pr_domain : Z; timer : option loc; stats_timer : option loc; reporter_timer : option loc; omit_timer : option loc;
  pr_usage : usage; pr_cookie : list Z; pr_called : list (callback * Z); pr_denied : list (list Z); pr_threads : list Z;
  pr_waits : list (option (Z * Z)); pr_tick : nat }.

#[export] Instance peer_eta : Eta peer := fun p => mk_peer
  (pr_side p) (pr_blocks p) (pr_fds p) (pr_pages p) (pr_read_set p) (pr_shut p)
  (pr_domain p) (timer p) (stats_timer p) (reporter_timer p) (omit_timer p) (pr_usage p) (pr_cookie p) (pr_called p) (pr_denied p) (pr_threads p) (pr_waits p) (pr_tick p).

(** Steps of a peer, and steps that also use the timer list. *)
Definition EM := CM peer.
Definition session : Type := @tstate procedure unit peer.
Definition SeM := CM session.

Definition on_peer {A} (m : EM A) : SeM A := fun s =>
  match m (world s) with
  | Ret (a, p) => Ret (a, mk_tstate (heap s) (timers s) (free_timers s) p)
  | UB => UB
  | OutOfFuel => OutOfFuel
  end.

Definition on_side {A} (m : SM A) : EM A := fun p =>
  match m (pr_side p) with
  | Ret (a, s) => Ret (a, p <| pr_side := s |>)
  | UB => UB
  | OutOfFuel => OutOfFuel
  end.

Definition peer_test (p : peer) : iperf_test := side_test (pr_side p).
Definition peer_error (p : peer) : Z := x_errno (in_exchange (sd_incoming (pr_side p))).

(** The test and [i_errno] are parts of the side. *)
Definition with_test (f : iperf_test -> iperf_test) : peer -> peer :=
  update pr_side (update sd_incoming (update in_exchange (update x_test f))).
Definition with_error (e : Z) : peer -> peer :=
  update pr_side (update sd_incoming (update in_exchange (fun x => x <| x_errno := e |>))).

Definition set_error (e : Z) : EM unit := modify (with_error e).
Definition change (f : iperf_test -> iperf_test) : EM unit := modify (with_test f).

(** A step on what the process holds. *)
Definition process_of (p : peer) : process := mk_process (peer_test p) (peer_error p) (pr_blocks p) (pr_fds p) (pr_pages p) (pr_read_set p) (pr_shut p).

Definition with_process (q : process) (p : peer) : peer :=
  (with_error (p_errno q) (with_test (fun _ => p_test q) p)) <| pr_blocks := p_blocks q |> <| pr_fds := p_fds q |> <| pr_pages := p_pages q |>
    <| pr_read_set := p_read_set q |> <| pr_shut := p_shut q |>.

Definition on_process {A} (m : PM A) : EM A := fun p =>
  match m (process_of p) with
  | Ret (a, q) => Ret (a, with_process q p)
  | UB => UB
  | OutOfFuel => OutOfFuel
  end.

Definition notify (c : callback) : EM unit := modify (fun p => p <| pr_called := pr_called p ++ [(c, state (peer_test p))] |>).

(** What [select] answers: its result, [errno], the descriptors to read from. *)
Record selection := mk_selection { sel_result : Z; sel_errno : Z; sel_ready : list Z }.

(** What the system answers to the [k]-th call, and the server's configuration.
    [m_work] is what the worker threads and the embedding program did to the
    test while [select] waited. *)
Record machine := mk_machine {
  m_env : environment;
  m_select : nat -> selection;
  m_work : nat -> iperf_test -> iperf_test;
  m_thread : nat -> Z;
  m_connection : nat -> connection;
  m_entropy : nat -> list Z;
  m_maxseg : nat -> option Z;
  m_dial : nat -> bool -> nat -> Z -> Z;
  m_stream : nat -> bool -> nat -> stream_answers;
  m_bind_port : Z; m_connect_timeout : Z;
  m_now : nat -> option iperf_time;
  m_stamps : nat -> nat -> iperf_time;
  m_usage : nat -> usage;
  m_info : nat -> nat -> option tcp_connection_info;
  m_node : nat -> option (loc * @Timer procedure unit);
  m_errno : nat -> Z;
  m_answers : nat -> answers;
  m_setsockopt : nat -> Z;
  m_auth : nat -> auth_answers;
  m_authorization : authorization;
  m_local : bool; m_bind_dev : bool; m_page_size : Z }.

Section Session.
Context {crypto : cryptography} (mc : machine).

Definition ask {A} (f : nat -> A) : EM A := fun p => Ret (f (pr_tick p), p <| pr_tick := S (pr_tick p) |>).
Definition on_control {A} (m : NM A) : EM A := on_side (on_channel m).

(** ** Messages *)

Definition char_of (v : Z) : list Z := [u8 v].

Definition iperf_set_test_state (v : Z) : EM unit := change (fun t => t <| state := v |>).

Definition iperf_set_send_state (v : Z) : EM Z :=
  p <- get ;;
  if 0 <=? ctrl_sck (peer_test p) then
    iperf_set_test_state v ;;;
    r <- on_control (Nwrite (e_os (m_env mc)) (char_of v)) ;;
    if r <? 0 then set_error IESENDMESSAGE ;;; ret (-1) else ret 0
  else ret 0.

(** An [int] in network order. *)
Definition send_number (v : Z) : EM Z := on_control (Nwrite (e_os (m_env mc)) (htonl (u32 v))).

(** ** Statistics *)

Definition timeval_usecs (tv : iperf_time) : double := D_add (D_mul (D_of_Z (secs tv)) (D_of_Z 1000000)) (D_of_Z (usecs tv)).

(** [CLOCKS_PER_SEC] is a million. *)
Definition usage_since (before now : usage) : double * double * double :=
  let timediff := D_of_Z (iperf_time_in_usecs (iperf_time_diff (u_time now) (u_time before)).1) in
  let percent (d : double) := D_mul (D_div d timediff) (D_of_Z 100) in
  (percent (D_div (D_mul (D_of_Z (u64 (u_clock now - u_clock before))) (D_of_Z 1000000)) (D_of_Z 1000000)),
   percent (D_sub (timeval_usecs (ru_utime now)) (timeval_usecs (ru_utime before))),
   percent (D_sub (timeval_usecs (ru_stime now)) (timeval_usecs (ru_stime before)))).

(** With a null pointer, and with the test's array. *)
Definition start_cpu_util : EM unit := now <- ask (m_usage mc) ;; modify (fun p => p <| pr_usage := now |>).

Definition store_cpu_util : EM unit :=
  now <- ask (m_usage mc) ;;
  modify (fun p => with_test (fun t => t <| cpu_util := usage_since (pr_usage p) now |>) p).

Definition on_counters (m : nat -> iperf_test -> outcome iperf_test) : EM unit := fun p =>
  match m (pr_tick p) (peer_test p) with
  | Ret t => Ret (tt, (with_test (fun _ => t) p) <| pr_tick := S (pr_tick p) |>)
  | UB => UB
  | OutOfFuel => OutOfFuel
  end.

Definition stats_callback : EM unit := on_counters (fun k => iperf_stats_callback (m_stamps mc k) (m_info mc k)).

(** The final summary of a test the other end broke off. *)
Definition report_now : EM unit :=
  p <- get ;;
  let oldstate := state (peer_test p) in
  store_cpu_util ;;;
  iperf_set_test_state DISPLAY_RESULTS ;;;
  notify Reporter ;;;
  iperf_set_test_state oldstate.

(** ** The end of the control connection *)

(** Reads what the other end still sends, until it has closed its side. *)
Fixpoint drain (fuel : nat) : EM unit :=
  match fuel with
  | O => out_of_fuel
  | S fuel =>
      r <- on_control (Nread (e_os (m_env mc)) 128) ;;
      if 0 <? r.1 then drain fuel else ret tt
  end.

Definition iperf_sync_close_socket (sock : Z) : EM unit :=
  on_process (shutdown sock) ;;;
  p <- get ;;
  drain (S (length (ch_in (sd_channel (pr_side p))))) ;;;
  on_process (close sock).

(** ** The server's messages *)

(** The sockets of the streams are closed, and the streams marked. *)
Fixpoint close_all (sockets : list Z) : PM unit :=
  match sockets with
  | [] => ret tt
  | fd :: sockets => FD_CLR fd ;;; close fd ;;; close_all sockets
  end.

Definition release_streams : EM unit :=
  p <- get ;;
  change (update streams (fmap (fun sp => sp <| stream_done := 1 |>))) ;;;
  on_process (close_all (socket <$> streams (peer_test p))).

(** The message [TEST_END]: the last interval, and no more data. *)
Definition finish_measuring : EM unit :=
  change (fun t => t <| done := 1 |>) ;;;
  store_cpu_util ;;;
  stats_callback ;;;
  release_streams ;;;
  notify Reporter.

Definition end_test : EM Z :=
  finish_measuring ;;;
  r <- iperf_set_send_state EXCHANGE_RESULTS ;;
  if negb (r =? 0) then ret (-1)
  else
    r <- on_side (iperf_exchange_results (m_env mc)) ;;
    if r <? 0 then ret (-1)
    else
      r <- iperf_set_send_state DISPLAY_RESULTS ;;
      if negb (r =? 0) then ret (-1) else notify On_test_finish ;;; ret 0.

(** The message [CLIENT_TERMINATE]. *)
Definition client_terminated : EM Z :=
  set_error IECLIENTTERM ;;;
  report_now ;;;
  release_streams ;;;
  iperf_set_test_state IPERF_DONE ;;;
  ret 0.

(** What the server does about a message. *)
Definition iperf_react_server (received_state : Z) : EM Z :=
  if received_state =? TEST_START then ret 0
  else if received_state =? TEST_END then end_test
  else if received_state =? IPERF_DONE then ret 0
  else if received_state =? CLIENT_TERMINATE then client_terminated
  else set_error IEMESSAGE ;;; ret (-1).

Definition iperf_handle_message_server : EM Z :=
  r <- on_control (Nread (e_os (m_env mc)) 1) ;;
  if r.1 <=? 0 then
    if r.1 =? 0 then set_error IECTRLCLOSE ;;; iperf_set_test_state IPERF_DONE ;;; ret 0
    else set_error IERECVMESSAGE ;;; ret (-1)
  else
    let received_state := s8 (nth 0 r.2 0) in
    iperf_set_test_state received_state ;;;
    iperf_react_server received_state.

(** ** Parameters *)

Definition encode_token (a : auth_answers) : text -> text -> option text :=
  encode_auth_setting (aa_calloc1 a) (aa_openssl a) (aa_malloc a) (aa_time a) (use_pkcs1_padding (m_authorization mc)).

Definition with_exchange (x : exchange) (s : side) : side := s <| sd_incoming := (sd_incoming s) <| in_exchange := x |> |>.

Definition send_parameters_side (a : auth_answers) : SM Z := fun s =>
  let x := in_exchange (sd_incoming s) in
  match send_parameters (e_alloc (m_env mc)) (encode_token a) (e_os (m_env mc)) (e_reallocate (m_env mc)) (x_test x) (x_nalloc x) (sd_channel s) with
  | Ret ((r, e, t), c) =>
      let x := x <| x_test := t |> in
      Ret (r, with_exchange (match e with Some e => x <| x_errno := e |> | None => x end) s <| sd_channel := c |>)
  | UB => UB
  | OutOfFuel => OutOfFuel
  end.

Definition get_parameters_side : SM Z := fun s =>
  match get_parameters (e_os (m_env mc)) (e_calloc (m_env mc)) (e_parse (m_env mc)) (e_alloc (m_env mc)) (sd_channel s, in_exchange (sd_incoming s)) with
  | Ret (r, (c, x)) => Ret (r, with_exchange x s <| sd_channel := c |>)
  | UB => UB
  | OutOfFuel => OutOfFuel
  end.

(** The protocol's [listen]. *)
Definition protocol_listen (a : answers) (domain : Z) (t : iperf_test) : PM Z :=
  if protocol t =? Ptcp then iperf_tcp_listen (os := a) domain
  else iperf_udp_listen (netannounce (os := a) domain Pudp (m_bind_dev mc)).

(** What the token says about the client. *)
Definition authorize : EM Z := fun p =>
  match test_is_authorized (m_auth mc (pr_tick p)) (m_authorization mc) (peer_test p) with
  | Ret (r, e) => Ret (r, (match e with Some e => with_error e p | None => p end) <| pr_tick := S (pr_tick p) |>)
  | UB => UB
  | OutOfFuel => OutOfFuel
  end.

Definition iperf_exchange_parameters : EM Z :=
  p <- get ;;
  if role (peer_test p) =? role_client then
    a <- ask (m_auth mc) ;;
    r <- on_side (send_parameters_side a) ;;
    ret (if r <? 0 then -1 else 0)
  else
    r <- on_side get_parameters_side ;;
    if r <? 0 then ret (-1)
    else
      r <- authorize ;;
      if r <? 0 then ret (-1)
      else
        a <- ask (m_answers mc) ;;
        p <- get ;;
        s <- on_process (protocol_listen a (pr_domain p) (peer_test p)) ;;
        if s <? 0 then ret (-1)
        else
          on_process (FD_SET s) ;;;
          change (fun t => t <| prot_listener := s |>) ;;;
          r <- iperf_set_send_state CREATE_STREAMS ;;
          ret (if negb (r =? 0) then -1 else 0).

(** ** A new client *)

(** The processors cannot be chosen on this platform. *)
Definition iperf_setaffinity : EM Z := set_error IEAFFINITY ;;; ret (-1).

Definition welcome (s : Z) : EM Z :=
  change (fun t => t <| ctrl_sck := s |>) ;;;
  r <- ask (m_setsockopt mc) ;;
  if negb (r =? 0) then set_error IESETNODELAY ;;; ret (-1)
  else
    r <- on_control (Nread (e_os (m_env mc)) COOKIE_SIZE) ;;
    modify (fun p => p <| pr_cookie := r.2 ++ drop (length r.2) (pr_cookie p) |>) ;;;
    if negb (r.1 =? COOKIE_SIZE) then set_error IERECVCOOKIE ;;; ret (-1)
    else
      on_process (FD_SET s) ;;;
      r <- iperf_set_send_state PARAM_EXCHANGE ;;
      if negb (r =? 0) then ret (-1)
      else
        r <- iperf_exchange_parameters ;;
        if r <? 0 then ret (-1)
        else
          p <- get ;;
          if negb (server_affinity (peer_test p) =? -1) then
            r <- iperf_setaffinity ;;
            if negb (r =? 0) then ret (-1) else notify On_connect ;;; ret 0
          else notify On_connect ;;; ret 0.

(** Another client gets one byte on its own connection; whether it arrives does not matter. *)
Definition deny : EM unit := fun p =>
  match Nwrite (e_os (m_env mc)) (char_of ACCESS_DENIED) (mk_channel [] [] (pr_tick p)) with
  | Ret (_, c) => Ret (tt, (p <| pr_denied := pr_denied p ++ [ch_out c] |>) <| pr_tick := S (pr_tick p) |>)
  | UB => UB
  | OutOfFuel => OutOfFuel
  end.

Definition iperf_accept : EM Z :=
  a <- ask (m_answers mc) ;;
  let s := sys (answers := a) Accept in
  if s <? 0 then set_error IEACCEPT ;;; ret (-1)
  else
    on_process (opened s) ;;;
    if sys (answers := a) No_sigpipe <? 0 then on_process (close s) ;;; set_error IEACCEPT ;;; ret (-1)
    else
      p <- get ;;
      if ctrl_sck (peer_test p) =? -1 then welcome s
      else deny ;;; on_process (close s) ;;; ret 0.

(** ** The client's messages *)

(** A read of the control socket as it is. *)
Definition read_state : EM (io_answer * list Z) := on_control (ControlChannel.read (e_os (m_env mc)) false 1).

Fixpoint close_streams (sps : list iperf_stream) : PM (list iperf_stream) :=
  match sps with
  | [] => ret []
  | sp :: sps =>
      close (socket sp) ;;;
      if 0 <=? buffer_fd sp then
        close (buffer_fd sp) ;;;
        sps <- close_streams sps ;; ret (sp <| buffer_fd := -1 |> :: sps)
      else sps <- close_streams sps ;; ret (sp :: sps)
  end.

Definition iperf_client_end : EM Z :=
  p <- get ;;
  sps <- on_process (close_streams (streams (peer_test p))) ;;
  change (fun t => t <| streams := sps |>) ;;;
  notify Reporter ;;;
  p <- get ;;
  r <- (if 0 <? state (peer_test p) then iperf_set_send_state IPERF_DONE else ret 0) ;;
  if negb (r =? 0) then ret (-1)
  else
    p <- get ;;
    (if 0 <=? ctrl_sck (peer_test p) then iperf_sync_close_socket (ctrl_sck (peer_test p)) else ret tt) ;;;
    ret 0.

(** The message [SERVER_ERROR] is followed by the error and [errno]: the second
    one read into the memory of the first. *)
Definition server_error : EM Z :=
  r <- on_control (Nread (e_os (m_env mc)) 4) ;;
  if r.1 <? 0 then set_error IECTRLREAD ;;; ret (-1)
  else if zlen r.2 <? 4 then undefined
  else
    set_error (s32 (ntohl r.2)) ;;;
    r <- on_control (Nread (e_os (m_env mc)) 4) ;;
    (if r.1 <? 0 then set_error IECTRLREAD else ret tt) ;;;
    ret (-1).

Definition start_timer (now : iperf_time) (proc : procedure) (us per : Z) (store : option loc -> peer -> peer) : SeM bool :=
  m <- on_peer (ask (m_node mc)) ;;
  t <- tmr_create (Some now) now m proc tt us per ;;
  on_peer (modify (store t)) ;;;
  match t with
  | None => on_peer (set_error IEINITTEST) ;;; ret false
  | Some _ => ret true
  end.

(** The intervals are in seconds; 0 is none. *)
Definition start_interval (now : iperf_time) (proc : procedure) (d : double) (store : option loc -> peer -> peer) : SeM bool :=
  if D_eqb d D_zero then ret true
  else
    match D_to_s64 (D_mul d (D_of_Z SEC_TO_US)) with
    | None => undefined
    | Some us => start_timer now proc us 1 store
    end.

Definition in_int (n : Z) : bool := (- 2 ^ 31 <=? n) && (n <? 2 ^ 31).

(** The timer of the whole test, after [seconds], an [int]. *)
Definition start_test_timer (now : iperf_time) (proc : procedure) (t : iperf_test) (seconds : Z) : SeM bool :=
  if duration t =? 0 then ret true
  else
    on_peer (change (fun t => t <| done := 0 |>)) ;;;
    if in_int seconds then start_timer now proc (seconds * SEC_TO_US) 0 (fun l p => p <| timer := l |>) else undefined.

Definition create_timers (test_proc stats_proc reporter_proc : procedure) (grace_period : Z) : SeM Z :=
  now <- on_peer (ask (m_now mc)) ;;
  match now with
  | None => on_peer (set_error IEINITTEST) ;;; ret (-1)
  | Some now =>
      on_peer (modify (fun p => p <| timer := None |> <| stats_timer := None |> <| reporter_timer := None |>)) ;;;
      t <- on_peer (gets peer_test) ;;
      ok <- start_test_timer now test_proc t (duration t + omit t + grace_period) ;;
      if negb ok then ret (-1)
      else
        ok <- start_interval now stats_proc (stats_interval t) (fun l p => p <| stats_timer := l |>) ;;
        if negb ok then ret (-1)
        else
          ok <- start_interval now reporter_proc (reporter_interval t) (fun l p => p <| reporter_timer := l |>) ;;
          ret (if negb ok then -1 else 0)
  end.

Definition create_client_timers : SeM Z := create_timers Test_timer Client_stats_timer Client_reporter_timer 0.
Definition create_server_timers : SeM Z := create_timers Server_timer Server_stats_timer Server_reporter_timer (4 * 10).

Definition create_omit_timer (proc : procedure) : SeM Z :=
  t <- on_peer (gets peer_test) ;;
  if omit t =? 0 then
    on_peer (modify (fun p => p <| omit_timer := None |>)) ;;;
    on_peer (change (fun t => t <| omitting := 0 |>)) ;;; ret 0
  else
    now <- on_peer (ask (m_now mc)) ;;
    match now with
    | None => on_peer (set_error IEINITTEST) ;;; ret (-1)
    | Some now =>
        on_peer (change (fun t => t <| omitting := 1 |>)) ;;;
        ok <- start_timer now proc (omit t * SEC_TO_US) 0 (fun l p => p <| omit_timer := l |>) ;;
        ret (if negb ok then -1 else 0)
    end.

Definition create_client_omit_timer : SeM Z := create_omit_timer Client_omit_timer.
Definition create_server_omit_timer : SeM Z := create_omit_timer Server_omit_timer.

(** The message [TEST_START]. *)
Definition client_start : SeM Z :=
  now <- on_peer (ask (m_now mc)) ;;
  r <- on_peer (on_process (iperf_init_test now)) ;;
  if r <? 0 then ret (-1)
  else
    r <- create_client_timers ;;
    if r <? 0 then ret (-1)
    else
      r <- create_client_omit_timer ;;
      if r <? 0 then ret (-1)
      else
        t <- on_peer (gets peer_test) ;;
        if negb (mode t =? 0) then
          r <- on_peer (on_process iperf_create_send_timers) ;;
          ret (if r <? 0 then -1 else 0)
        else ret 0.

(** What the client does about a message.  [create] makes its streams ([client_streams]). *)
Definition iperf_react_client (create : PM Z) (received_state : Z) : SeM Z :=
  if received_state =? PARAM_EXCHANGE then
    r <- on_peer iperf_exchange_parameters ;;
    if r <? 0 then ret (-1) else on_peer (notify On_connect) ;;; ret 0
  else if received_state =? CREATE_STREAMS then on_peer (on_process create)
  else if received_state =? TEST_START then client_start
  else if received_state =? TEST_RUNNING then ret 0
  else if received_state =? EXCHANGE_RESULTS then
    r <- on_peer (on_side (iperf_exchange_results (m_env mc))) ;;
    ret (if r <? 0 then -1 else 0)
  else if received_state =? DISPLAY_RESULTS then
    on_peer (notify On_test_finish) ;;;
    on_peer iperf_client_end ;;;
    ret 0
  else if received_state =? IPERF_DONE then ret 0
  else if received_state =? SERVER_TERMINATE then
    on_peer (set_error IESERVERTERM) ;;;
    on_peer report_now ;;;
    ret (-1)
  else if received_state =? ACCESS_DENIED then on_peer (set_error IEACCESSDENIED) ;;; ret (-1)
  else if received_state =? SERVER_ERROR then on_peer server_error
  else on_peer (set_error IEMESSAGE) ;;; ret (-1).

Definition iperf_handle_message_client (create : PM Z) : SeM Z :=
  ra <- on_peer read_state ;;
  match ra.1 with
  | Refused _ => on_peer (set_error IERECVMESSAGE) ;;; ret (-1)
  | Moved n =>
      if n =? 0 then on_peer (set_error IECTRLCLOSE) ;;; ret (-1)
      else
        let received_state := s8 (nth 0 ra.2 0) in
        on_peer (iperf_set_test_state received_state) ;;;
        iperf_react_client create received_state
  end.
End Session.
