(* ===== verification/Server.v ===== *)
(** * The server

    The procedures of the server's timers, [cleanup_server], [iperf_server_listen]
    and the loop of [iperf_run_server] ([iperf_server_api.c]).

    The worker threads and the embedding program act on the test while [select]
    waits ([m_work]).  Opening a log file, the output in JSON, the processor
    chosen for the whole process, the highest descriptor number and the messages
    printed are left out. *)

From S2P Require Import Prelude Bytes Time Timer Double CJson IperfTest ControlChannel OutputBudget Params Results Streams Connect Measure Auth Session.
Local Open Scope c_scope.

Definition IELISTEN : Z := 102.
Definition IECTRLWRITE : Z := 107.
Definition IESELECT : Z := 118.
Definition IENOMSG : Z := 144.
Definition IEPTHREADCREATE : Z := 150.
Definition IEPTHREADCANCEL : Z := 151.
Definition IEPTHREADJOIN : Z := 152.
Definition IEPTHREADATTRINIT : Z := 153.
Definition IEPTHREADATTRDESTROY : Z := 154.
Definition EAFNOSUPPORT : Z := 47.
Definition ESRCH : Z := 3.

(** ** Runs

    A part of a function that runs the test: its value, or what the function returns. *)
Definition part (A : Type) : Type := SeM (A + Z).
Definition and_then {A B} (m : part A) (k : A -> part B) : part B :=
  r <- m ;; match r with inl a => k a | inr v => ret (inr v) end.

Notation "x <~ m ;; k" := (and_then m (fun x => k)) 
  (at level 100, m at next level, right associativity) : c_scope.

Definition proceed {A} (m : SeM A) : part A := a <- m ;; ret (inl a).
Definition leave {A} (v : Z) : part A := ret (inr v).

Section Server.
Context {crypto : cryptography} (mc : machine).

(** ** Worker threads *)

(** The [i]-th stream of the test is changed. *)
Definition on_stream_at (i : nat) (f : iperf_stream -> iperf_stream) : EM unit :=
  change (update streams (fun sps => alter f i sps)).

Definition thread_failed (rc : Z) : bool := negb (rc =? 0) && negb (rc =? ESRCH).

(** A stream marked done has been released before. *)
Definition stop_stream_worker (i : nat) (sp : iperf_stream) : EM unit :=
  on_stream_at i (fun sp => sp <| stream_done := 1 |>) ;;;
  if negb (stream_done sp =? 0) then ret tt
  else
    t <- gets peer_test ;;
    when (protocol t =? Ptcp) && (0 <=? socket sp) do on_process (shutdown (socket sp)).

(** The thread is gone when it has been joined. *)
Definition pthread_join (sp : iperf_stream) : EM Z :=
  rc <- ask (m_thread mc) ;;
  (when negb (thread_failed rc) do modify (fun p => p <| pr_threads := without (id sp) (pr_threads p) |>)) ;;;
  ret rc.

Definition pthread_create (sp : iperf_stream) : EM Z :=
  rc <- ask (m_thread mc) ;;
  (when rc =? 0 do modify (fun p => p <| pr_threads := id sp :: pr_threads p |>)) ;;;
  ret rc.

Definition stop_thread (i : nat) (sp : iperf_stream) : EM unit :=
  stop_stream_worker i sp ;;;
  when thread_created sp =? 1 do
    (rc <- ask (m_thread mc) ;;
     (when thread_failed rc do set_error IEPTHREADCANCEL) ;;;
     rc <- pthread_join sp ;;
     (when thread_failed rc do set_error IEPTHREADJOIN) ;;;
     on_stream_at i (fun sp => sp <| thread_created := 0 |>)).

(** A step for each stream, with its place in the list. *)
Fixpoint for_streams (i : nat) (sps : list iperf_stream) (body : nat -> iperf_stream -> EM unit) : EM unit :=
  match sps with
  | [] => ret tt
  | sp :: sps => body i sp ;;; for_streams (S i) sps body
  end.

(** The error found before is kept. *)
Definition stop_threads (body : nat -> iperf_stream -> EM unit) : EM unit :=
  i_errno_save <- gets peer_error ;;
  t <- gets peer_test ;;
  for_streams 0 (streams t) body ;;;
  set_error i_errno_save.

(** ** The end of a run *)

Definition report_error : EM unit :=
  p <- get ;;
  when negb (peer_error p =? IENONE) && negb (ctrl_sck (peer_test p) =? -1) do
    (r <- iperf_set_send_state mc SERVER_ERROR ;;
     when r =? 0 do
       (e <- gets peer_error ;;
        r <- send_number mc e ;;
        when 0 <=? r do (errno <- ask (m_errno mc) ;; send_number mc errno ;;; ret tt))).

Definition close_stream (i : nat) (sp : iperf_stream) : EM unit :=
  when -1 <? socket sp do
    (on_process (FD_CLR (socket sp)) ;;;
     on_process (close (socket sp)) ;;;
     on_stream_at i (fun sp => sp <| socket := -1 |>)).

Definition close_sockets : EM unit :=
  t <- gets peer_test ;;
  for_streams 0 (streams t) close_stream ;;;
  t <- gets peer_test ;;
  (when -1 <? ctrl_sck t do (iperf_sync_close_socket mc (ctrl_sck t) ;;; change (fun t => t <| ctrl_sck := -1 |>))) ;;;
  on_process iperf_close_test_listener ;;;
  t <- gets peer_test ;;
  when -1 <? prot_listener t do (on_process (close (prot_listener t)) ;;; change (fun t => t <| prot_listener := -1 |>)).

Definition cancel_timer (field : peer -> option loc) (store : peer -> peer) : SeM unit :=
  p <- on_peer get ;;
  match field p with
  | Some t => tmr_cancel t ;;; on_peer (modify store)
  | None => ret tt
  end.

Definition cleanup_server : SeM unit :=
  on_peer report_error ;;;
  on_peer (stop_threads stop_thread) ;;;
  on_peer close_sockets ;;;
  cancel_timer stats_timer (fun p => p <| stats_timer := None |>) ;;;
  cancel_timer reporter_timer (fun p => p <| reporter_timer := None |>) ;;;
  cancel_timer omit_timer (fun p => p <| omit_timer := None |>) ;;;
  on_peer (change (fun t => t <| congestion_used := None |>)) ;;;
  cancel_timer timer (fun p => p <| timer := None |>).

(** ** Timers *)

(** Here a thread that cannot be cancelled is not waited for. *)
Definition expire_thread (i : nat) (sp : iperf_stream) : EM unit :=
  stop_stream_worker i sp ;;;
  when thread_created sp =? 1 do
    (rc <- ask (m_thread mc) ;;
     (when rc =? 0 do (pthread_join sp ;;; ret tt)) ;;;
     on_stream_at i (fun sp => sp <| thread_created := 0 |>)).

(** The first stream is taken off the list and freed, until none is left; one
    without a socket is never taken off. *)
Fixpoint free_streams (sps : list iperf_stream) : EM unit :=
  match sps with
  | [] => ret tt
  | sp :: sps =>
      if socket sp =? -1 then out_of_fuel
      else
        change (fun t => t <| streams := sps |>) ;;;
        on_process (close (socket sp)) ;;;
        on_process (iperf_free_stream (m_page_size mc) (sp <| socket := -1 |>)) ;;;
        free_streams sps
  end.

Definition server_timer_proc : EM unit :=
  modify (fun p => p <| timer := None |>) ;;;
  t <- gets peer_test ;;
  if negb (done t =? 0) then ret tt
  else
    change (fun t => t <| done := 1 |>) ;;;
    r <- iperf_set_send_state mc SERVER_ERROR ;;
    (when r =? 0 do
      (set_error IESERVERTESTDURATIONEXPIRED ;;;
       e <- gets peer_error ;;
       r <- send_number mc e ;;
       when r =? 4 do (send_number mc 0 ;;; ret tt))) ;;;
    stop_threads expire_thread ;;;
    t <- gets peer_test ;;
    free_streams (streams t) ;;;
    t <- gets peer_test ;;
    on_process (close (ctrl_sck t)) ;;;
    change (fun t => t <| ctrl_sck := -1 |>).

(** The periodic timers do nothing once the test is done. *)
Definition unless_done (m : EM unit) : EM unit :=
  t <- gets peer_test ;;
  if negb (done t =? 0) then ret tt else m.

Definition server_stats_timer_proc : EM unit := unless_done (stats_callback mc).
Definition server_reporter_timer_proc : EM unit := unless_done (notify Reporter).

Definition reset_timer (now : iperf_time) (t : option loc) : SeM unit :=
  match t with
  | Some t => tmr_reset (Some now) now t
  | None => ret tt
  end.

Definition omit_timer_proc (now : iperf_time) : SeM unit :=
  on_peer (modify (fun p => p <| omit_timer := None |>)) ;;;
  on_peer (change (fun t => t <| omitting := 0 |>)) ;;;
  on_peer (on_counters (fun k => iperf_reset_stats (m_stamps mc k 0) (m_info mc k))) ;;;
  p <- on_peer get ;;
  reset_timer now (stats_timer p) ;;;
  reset_timer now (reporter_timer p).

Definition test_timer_proc : EM unit :=
  modify (fun p => p <| timer := None |>) ;;;
  change (fun t => t <| done := 1 |>).

(** What the timers' procedures do, those of the client too. *)
Definition call_procedure (proc : procedure) (_ : unit) (now : iperf_time) : SeM unit :=
  match proc with
  | Test_timer => on_peer test_timer_proc
  | Server_timer => on_peer server_timer_proc
  | Client_stats_timer | Server_stats_timer => on_peer server_stats_timer_proc
  | Client_reporter_timer | Server_reporter_timer => on_peer server_reporter_timer_proc
  | Client_omit_timer | Server_omit_timer => omit_timer_proc now
  end.

(** ** Listening *)

(** A second try with IPv4, where the first one failed for want of IPv6. *)
Fixpoint announce (tries : nat) : EM Z :=
  match tries with
  | O => out_of_fuel
  | S tries =>
      a <- ask (m_answers mc) ;;
      p <- get ;;
      l <- on_process (netannounce (os := a) (pr_domain p) Ptcp (m_bind_dev mc)) ;;
      change (fun t => t <| listener := l |>) ;;;
      if l <? 0 then
        errno <- ask (m_errno mc) ;;
        if (errno =? EAFNOSUPPORT) && ((pr_domain p =? AF_INET6) || (pr_domain p =? AF_UNSPEC)) then
          modify (fun p => p <| pr_domain := AF_INET |>) ;;; announce tries
        else
          e <- gets peer_error ;;
          (when e =? IENONE do set_error IELISTEN) ;;; ret (-1)
      else ret l
  end.

Definition iperf_server_listen : EM Z :=
  l <- announce 2 ;;
  if l <? 0 then ret (-1)
  else
    modify (fun p => p <| pr_read_set := [] |>) ;;;
    on_process (FD_SET l) ;;;
    ret 0.

(** ** Waiting *)

Definition time_us (tv : Z * Z) : Z := tv.1 * SEC_TO_US + tv.2.

Definition rcv_timeout_us (t : iperf_test) : Z := secs (rcv_timeout (settings t)) * SEC_TO_US + usecs (rcv_timeout (settings t)).

(** In a test with something to receive, [select] waits no longer than for data. *)
Definition receive_timeout (t : iperf_test) (rcv_us : Z) (timeout : option (Z * Z)) : Z * Z :=
  let timeout_us := match timeout with Some tv => time_us tv | None => -1 end in
  let timeout_us := if SEC_TO_US <? timeout_us then SEC_TO_US else timeout_us in
  if (timeout_us <? 0) || (rcv_us <? timeout_us) then (secs (rcv_timeout (settings t)), usecs (rcv_timeout (settings t)))
  else default (0, 0) timeout.

(** How long [select] waits, given when the next timer expires. *)
Definition server_timeout (t : iperf_test) (rcv_us : Z) (timeout : option (Z * Z)) : Z * Z :=
  let timeout :=
    if state t =? IPERF_START then
      match timeout with
      | None => if 0 <? idle_timeout (settings t) then Some (idle_timeout (settings t), 0) else None
      | Some tv => Some tv
      end
    else if negb (mode t =? SENDER) then Some (receive_timeout t rcv_us timeout)
    else timeout in
  match timeout with
  | Some tv => if 1 <=? tv.1 then (1, 0) else tv
  | None => (1, 0)
  end.

(** ** The loop *)

(** The variables of the loop: [lv_now] has no value before the clock was read,
    [lv_rcv] is [rcv_timeout_us]. *)
Record loop_variables := mk_loop {
  lv_count : acceptance; lv_rcv : Z; lv_now : option iperf_time; last_receive_time : option iperf_time; last_receive_blocks : Z }.

#[export] Instance loop_eta : Eta loop_variables := fun v =>
  mk_loop (lv_count v) (lv_rcv v) (lv_now v) (last_receive_time v) (last_receive_blocks v).

(** A clock that fails leaves the variable as it was; one without a value must not be used. *)
Definition read_clock (old : option iperf_time) : EM (option iperf_time) :=
  now <- ask (m_now mc) ;; ret (match now with Some now => Some now | None => old end).

Definition known {A} (o : option A) : SeM A := match o with Some a => ret a | None => undefined end.

(** [cleanup_server], an error if there is one to set, and the result of the run. *)
Definition give_up_run {A} (e : option Z) (v : Z) : part A :=
  cleanup_server ;;;
  (match e with Some e => on_peer (set_error e) | None => ret tt end) ;;;
  leave v.

Definition guarded (m : SeM Z) : part unit :=
  r <- m ;; if r <? 0 then give_up_run None (-1) else ret (inl tt).
Definition sent (m : EM Z) : part unit :=
  r <- on_peer m ;; if negb (r =? 0) then give_up_run None (-1) else ret (inl tt).

(** The callbacks found the server's traffic above its limit. *)
Definition rate_exceeded {A} : part A :=
  on_peer (set_error IETOTALRATE) ;;;
  _ <~ sent (iperf_set_send_state mc SERVER_ERROR) ;;
  e <- on_peer (gets peer_error) ;;
  r <- on_peer (send_number mc e) ;;
  if r <? 0 then give_up_run (Some IECTRLWRITE) (-1)
  else
    errno <- on_peer (ask (m_errno mc)) ;;
    r <- on_peer (send_number mc errno) ;;
    give_up_run (if r <? 0 then Some IECTRLWRITE else None) (-1).

(** Meanwhile the workers work. *)
Definition select (timeout : option (Z * Z)) : EM selection :=
  modify (fun p => p <| pr_waits := pr_waits p ++ [timeout] |>) ;;;
  a <- ask (m_select mc) ;;
  work <- ask (m_work mc) ;;
  change work ;;;
  ret a.

(** Whether the descriptor is in the set and ready; a negative number never is. *)
Definition FD_ISSET (fd : Z) (read_set : list Z) (a : selection) : bool :=
  existsb (Z.eqb fd) read_set && existsb (Z.eqb fd) (sel_ready a).

Definition removed (fd : Z) (read_set : list Z) : list Z := List.filter (fun x => negb (x =? fd)) read_set.

(** Nothing came: how long ago did something, the last time? *)
Definition no_activity (v : loop_variables) : part loop_variables :=
  now <- on_peer (read_clock (lv_now v)) ;;
  let v := v <| lv_now := now |> in
  t1 <- known now ;;
  t0 <- known (last_receive_time v) ;;
  t <- on_peer (gets peer_test) ;;
  let '(diff, past) := iperf_time_diff t1 t0 in
  if negb (past =? 0) then proceed (ret v)
  else
    let t_usecs := iperf_time_in_usecs diff in
    if state t =? IPERF_START then
      if (0 <? idle_timeout (settings t)) && (idle_timeout (settings t) * SEC_TO_US <=? t_usecs) then give_up_run None 2
      else proceed (ret v)
    else if negb (mode t =? SENDER) && (lv_rcv v <? t_usecs) then
      if test_blocks_received t =? last_receive_blocks v then
        on_peer (set_error IENOMSG) ;;; give_up_run None (-1)
      else proceed (ret v)
    else proceed (ret v).

Definition note_progress (v : loop_variables) : EM loop_variables :=
  t <- gets peer_test ;;
  ret (if last_receive_blocks v <? test_blocks_received t
       then v <| last_receive_blocks := test_blocks_received t |> <| last_receive_time := lv_now v |> else v).

(** A client at the listener, but for a data connection; the set without the
    listener, and the numbers of streams. *)
Definition serve_listener (a : selection) (read_set : list Z) (v : loop_variables) : part (list Z * loop_variables) :=
  t <- on_peer (gets peer_test) ;;
  if FD_ISSET (listener t) read_set a && negb (state t =? CREATE_STREAMS) then
    _ <~ guarded (on_peer (iperf_accept mc)) ;;
    t <- on_peer (gets peer_test) ;;
    proceed (ret (removed (listener t) read_set, v <| lv_count := streams_number t (lv_count v) |>))
  else proceed (ret (read_set, v)).

Definition serve_control (a : selection) (read_set : list Z) : part (list Z) :=
  t <- on_peer (gets peer_test) ;;
  if FD_ISSET (ctrl_sck t) read_set a then
    _ <~ guarded (on_peer (iperf_handle_message_server mc)) ;;
    t <- on_peer (gets peer_test) ;;
    proceed (ret (removed (ctrl_sck t) read_set))
  else proceed (ret read_set).

(** The protocol's [accept]. *)
Definition protocol_accept : EM Z :=
  a <- ask (m_answers mc) ;;
  b <- ask (m_answers mc) ;;
  p <- get ;;
  on_process
    (if protocol (peer_test p) =? Ptcp then iperf_tcp_accept (os := a) (pr_cookie p)
     else iperf_udp_accept (os := a) (netannounce (os := b) (pr_domain p) Pudp (m_bind_dev mc))).

Definition serve_data (a : selection) (read_set : list Z) (v : loop_variables) : part loop_variables :=
  t <- on_peer (gets peer_test) ;;
  if FD_ISSET (prot_listener t) read_set a then
    s <- on_peer protocol_accept ;;
    if s <? 0 then give_up_run None (-1)
    else
      k <- on_peer (ask (m_connection mc)) ;;
      r <- on_peer (on_process (take_connection (m_page_size mc) s k (lv_count v))) ;;
      if r.1 <? 0 then give_up_run None (-1) else proceed (ret (v <| lv_count := r.2 |>))
  else proceed (ret v).

(** ** The start of the test *)

(** No more data connections; TCP's listener listens for control connections again. *)
Definition release_listener : part unit :=
  p <- on_peer get ;;
  let t := peer_test p in
  if negb (protocol t =? Ptcp) then
    on_peer (on_process (FD_CLR (prot_listener t))) ;;;
    on_peer (on_process (close (prot_listener t))) ;;;
    proceed (on_peer (change (fun t => t <| prot_listener := -1 |>)))
  else if negb (no_delay t =? 0) || negb (mss (settings t) =? 0) || negb (socket_bufsize (settings t) =? 0) then
    on_peer (on_process (FD_CLR (listener t))) ;;;
    on_peer (on_process iperf_close_test_listener) ;;;
    a <- on_peer (ask (m_answers mc)) ;;
    s <- on_peer (on_process (netannounce (os := a) (pr_domain p) Ptcp (m_bind_dev mc))) ;;
    if s <? 0 then give_up_run (Some IELISTEN) (-1)
    else
      on_peer (change (fun t => t <| listener := s |>)) ;;;
      proceed (on_peer (on_process (FD_SET s)))
  else proceed (ret tt).

Definition current_requested_rate (t : iperf_test) : Z :=
  u64 (num_streams t * rate (settings t) * (if mode t =? BIDIRECTIONAL then 2 else 1)).

Definition check_requested_rate : part unit :=
  t <- on_peer (gets peer_test) ;;
  if (0 <? bitrate_limit (settings t)) && (bitrate_limit (settings t) <? current_requested_rate t)
  then give_up_run (Some IETOTALRATE) (-1) else proceed (ret tt).

(** A worker for each stream; 0 if all could be made. *)
Fixpoint create_threads (i : nat) (sps : list iperf_stream) : EM Z :=
  match sps with
  | [] => ret 0
  | sp :: sps =>
      rc <- pthread_create sp ;;
      if negb (rc =? 0) then ret rc
      else on_stream_at i (fun sp => sp <| thread_created := 1 |>) ;;; create_threads (S i) sps
  end.

(** The attributes of the threads; without them the run goes on all the same. *)
Definition thread_attributes (e : Z) : SeM unit :=
  rc <- on_peer (ask (m_thread mc)) ;;
  when negb (rc =? 0) do (on_peer (set_error e) ;;; cleanup_server).

Definition start_workers : part unit :=
  thread_attributes IEPTHREADATTRINIT ;;;
  t <- on_peer (gets peer_test) ;;
  rc <- on_peer (create_threads 0 (streams t)) ;;
  if negb (rc =? 0) then on_peer (set_error IEPTHREADCREATE) ;;; give_up_run None (-1)
  else proceed (thread_attributes IEPTHREADATTRDESTROY).

Definition start_test (v : loop_variables) : part loop_variables :=
  _ <~ release_listener ;;
  on_peer (change (fun t => t <| prot_listener := -1 |>)) ;;;
  _ <~ check_requested_rate ;;
  on_peer (start_cpu_util mc) ;;;
  _ <~ sent (iperf_set_send_state mc TEST_START) ;;
  now <- on_peer (ask (m_now mc)) ;;
  _ <~ guarded (on_peer (on_process (iperf_init_test now))) ;;
  _ <~ guarded (create_server_timers mc) ;;
  _ <~ guarded (create_server_omit_timer mc) ;;
  t <- on_peer (gets peer_test) ;;
  _ <~ (if negb (mode t =? RECEIVER) then guarded (on_peer (on_process iperf_create_send_timers)) else proceed (ret tt)) ;;
  _ <~ sent (iperf_set_send_state mc TEST_RUNNING) ;;
  _ <~ start_workers ;;
  t <- on_peer (gets peer_test) ;;
  now <- on_peer (read_clock (last_receive_time v)) ;;
  proceed (ret (v <| last_receive_blocks := test_blocks_received t |> <| last_receive_time := now |>)).

(** ** The function *)

Definition serve (a : selection) (read_set : list Z) (v : loop_variables) : part loop_variables :=
  rv <~ serve_listener a read_set v ;;
  read_set <~ serve_control a rv.1 ;;
  t <- on_peer (gets peer_test) ;;
  if state t =? CREATE_STREAMS then
    v <~ serve_data a read_set rv.2 ;;
    if all_accepted (lv_count v) then start_test v else proceed (ret v)
  else proceed (ret rv.2).

(** [fuel] bounds the firings of the timers in one run of them. *)
Definition run_timers (fuel : nat) (v : loop_variables) : SeM loop_variables :=
  now <- on_peer (read_clock (lv_now v)) ;;
  t <- known now ;;
  tmr_run call_procedure fuel (Some t) t ;;;
  ret (v <| lv_now := now |>).

Definition iteration (fuel : nat) (v : loop_variables) : part loop_variables :=
  t <- on_peer (gets peer_test) ;;
  if negb (bitrate_limit_exceeded t =? 0) then rate_exceeded
  else
    read_set <- on_peer (gets pr_read_set) ;;
    now <- on_peer (read_clock (lv_now v)) ;;
    let v := v <| lv_now := now |> in
    t1 <- known now ;;
    expiry <- tmr_timeout (Some t1) t1 ;;
    let timeout := server_timeout t (lv_rcv v) expiry in
    a <- on_peer (select (Some timeout)) ;;
    t <- on_peer (gets peer_test) ;;
    if negb (done t =? 0) then give_up_run None 0
    else if (sel_result a <? 0) && negb (sel_errno a =? EINTR) then give_up_run (Some IESELECT) (-1)
    else
      v <~ (if sel_result a =? 0 then no_activity v else proceed (ret v)) ;;
      v <- on_peer (note_progress v) ;;
      v <~ (if 0 <? sel_result a then serve a read_set v else proceed (ret v)) ;;
      if (sel_result a =? 0) || bool_decide (timeout = (0, 0)) then proceed (run_timers fuel v) else proceed (ret v).

Fixpoint server_loop (fuel : nat) (v : loop_variables) : part loop_variables :=
  t <- on_peer (gets peer_test) ;;
  if state t =? IPERF_DONE then proceed (ret v)
  else
    match fuel with
    | O => out_of_fuel
    | S fuel => v <~ iteration fuel v ;; server_loop fuel v
    end.

Definition iperf_clearaffinity : EM Z := set_error IEAFFINITY ;;; ret (-1).

Definition server_body (fuel : nat) : part Z :=
  r <- on_peer iperf_server_listen ;;
  if r <? 0 then give_up_run None (-2)
  else
    t <- on_peer (gets peer_test) ;;
    if negb (done t =? 0) then give_up_run None 0
    else
      start <- on_peer (read_clock None) ;;
      on_peer (iperf_set_test_state IPERF_START) ;;;
      t <- on_peer (gets peer_test) ;;
      _ <~ server_loop fuel (mk_loop (mk_acceptance 0 0 0 0 None) (rcv_timeout_us t) None start 0) ;;
      cleanup_server ;;;
      t <- on_peer (gets peer_test) ;;
      if negb (server_affinity t =? -1) then proceed (on_peer iperf_clearaffinity) else proceed (ret 0).

Definition iperf_run_server (fuel : nat) : SeM Z :=
  r <- server_body fuel ;; ret (match r with inl v => v | inr v => v end).
End Server.
