(* ===== verification/Client.v ===== *)
(** * The client

    [make_cookie] ([iperf_util.c]), [iperf_connect] and [iperf_run_client]
    ([iperf_client_api.c]).

    As in [Server.v], the worker threads and the embedding program act on the
    test while [select] waits.  The segment size of the control connection is
    only used here; opening a log file, the output in JSON, the processor chosen
    for the process and the messages printed are left out. *)

From Stdlib Require Import String.
From S2P Require Import Prelude Bytes Time Timer Double CJson IperfTest ControlChannel OutputBudget Params Results Streams Connect Measure Auth Session Server.
Local Open Scope c_scope.

Definition IECONNECT : Z := 103.
Definition GSO_MAX_DG_IN_BF : Z := 128.

Section Client.
Context {crypto : cryptography} (mc : machine).

(** ** The control connection *)

Definition rndchars : list Z := key "abcdefghijklmnopqrstuvwxyz234567".

(** Letters and digits from random bytes, and the terminator. *)
Definition make_cookie (entropy : list Z) : list Z :=
  ((fun b => nth (Z.to_nat (b mod zlen rndchars)) rndchars 0) <$> firstn (Z.to_nat (COOKIE_SIZE - 1)) entropy) ++ [0].

(** [TCP_MAXSEG], or 0 where it makes no sense. *)
Definition segment_size (maxseg : option Z) : Z :=
  match maxseg with
  | None => 0
  | Some opt => if (0 <? opt) && (opt <=? MAX_UDP_BLOCKSIZE) then opt else 0
  end.

(** The datagrams' size, if none was chosen, and those of the buffer for segmentation. *)
Definition choose_block_size (ctrl_sck_mss : Z) (t : iperf_test) : iperf_test :=
  if negb (protocol t =? Pudp) then t
  else
    let t :=
      if blksize (settings t) =? 0
      then t <|s blksize := if negb (ctrl_sck_mss =? 0) then ctrl_sck_mss else DEFAULT_UDP_BLKSIZE |> else t in
    if gso (settings t) =? 0 then t
    else
      let t := t <|s gso_dg_size := blksize (settings t) |> in
      if 0 <? gso_dg_size (settings t) then
        let n := Z.quot (gso_bf_size (settings t)) (gso_dg_size (settings t)) in
        let n := if GSO_MAX_DG_IN_BF <? n then GSO_MAX_DG_IN_BF else n in
        t <|s gso_bf_size := n * gso_dg_size (settings t) |>
      else t <|s gso_dg_size := DEFAULT_UDP_BLKSIZE |>.

Definition dial_control : EM Z :=
  t <- gets peer_test ;;
  if ctrl_sck t <? 0 then
    a <- ask (m_answers mc) ;;
    s <- on_process (netdial (os := a) Ptcp (m_local mc) (m_bind_dev mc) 0 (m_connect_timeout mc)) ;;
    change (fun t => t <| ctrl_sck := s |>) ;;;
    if s <? 0 then
      e <- gets peer_error ;;
      (when e =? IENONE do set_error IECONNECT) ;;; ret (-1)
    else ret s
  else ret (ctrl_sck t).

Definition iperf_connect : EM Z :=
  modify (fun p => p <| pr_read_set := [] |>) ;;;
  entropy <- ask (m_entropy mc) ;;
  modify (fun p => p <| pr_cookie := make_cookie entropy |>) ;;;
  s <- dial_control ;;
  if s <? 0 then ret (-1)
  else
    r <- ask (m_setsockopt mc) ;;
    if negb (r =? 0) then set_error IESETNODELAY ;;; ret (-1)
    else
      cookie <- gets pr_cookie ;;
      r <- on_control (Nwrite (e_os (m_env mc)) cookie) ;;
      if r <? 0 then set_error IESENDCOOKIE ;;; ret (-1)
      else
        on_process (FD_SET s) ;;;
        maxseg <- ask (m_maxseg mc) ;;
        change (choose_block_size (segment_size maxseg)) ;;;
        ret 0.

(** ** Threads *)

Fixpoint each_stream (i : nat) (sps : list iperf_stream) (body : nat -> iperf_stream -> part unit) : part unit :=
  match sps with
  | [] => proceed (ret tt)
  | sp :: sps => _ <~ body i sp ;; each_stream (S i) sps body
  end.

(** What goes wrong ends the run. *)
Definition fails {A} (e : Z) : part A := on_peer (set_error e) ;;; leave (-1).
Definition tested (m : SeM Z) : part unit := r <- m ;; if r <? 0 then leave (-1) else proceed (ret tt).

Definition create_worker (i : nat) (sp : iperf_stream) : part unit :=
  rc <- on_peer (pthread_create mc sp) ;;
  if negb (rc =? 0) then fails IEPTHREADCREATE
  else proceed (on_peer (on_stream_at i (fun sp => sp <| thread_created := 1 |>))).

Definition start_client_workers : part unit :=
  rc <- on_peer (ask (m_thread mc)) ;;
  if negb (rc =? 0) then fails IEPTHREADATTRINIT
  else
    t <- on_peer (gets peer_test) ;;
    _ <~ each_stream 0 (streams t) create_worker ;;
    rc <- on_peer (ask (m_thread mc)) ;;
    if negb (rc =? 0) then fails IEPTHREADATTRDESTROY else proceed (ret tt).

(** The workers of the streams that send, or of those that receive. *)
Definition stop_worker (sending : bool) (i : nat) (sp : iperf_stream) : part unit :=
  if negb (Bool.eqb (sender sp) sending) then proceed (ret tt)
  else
    on_peer (on_stream_at i (fun sp => sp <| stream_done := 1 |>)) ;;;
    if negb (thread_created sp =? 1) then proceed (ret tt)
    else
      rc <- on_peer (ask (m_thread mc)) ;;
      if thread_failed rc then fails IEPTHREADCANCEL
      else
        rc <- on_peer (pthread_join mc sp) ;;
        if thread_failed rc then fails IEPTHREADJOIN
        else proceed (on_peer (on_stream_at i (fun sp => sp <| thread_created := 0 |>))).

Definition stop_workers (sending : bool) : part unit :=
  t <- on_peer (gets peer_test) ;;
  each_stream 0 (streams t) (stop_worker sending).

(** After an error: a stream that is done already is passed over. *)
Definition abandon_worker (i : nat) (sp : iperf_stream) : EM unit :=
  if negb (stream_done sp =? 0) then ret tt
  else
    on_stream_at i (fun sp => sp <| stream_done := 1 |>) ;;;
    when thread_created sp =? 1 do
      (rc <- ask (m_thread mc) ;;
       (when thread_failed rc do set_error IEPTHREADCANCEL) ;;;
       rc <- pthread_join mc sp ;;
       (when thread_failed rc do set_error IEPTHREADJOIN) ;;;
       on_stream_at i (fun sp => sp <| thread_created := 0 |>)).

(** ** The loop *)

Record client_variables := mk_client {
  cv_startup : bool; cv_rcv : Z; cv_now : option iperf_time; cv_last_time : option iperf_time; cv_last_blocks : Z }.

#[export] Instance client_eta : Eta client_variables := fun v =>
  mk_client (cv_startup v) (cv_rcv v) (cv_now v) (cv_last_time v) (cv_last_blocks v).

(** How long [select] waits; [None]: for ever. *)
Definition client_timeout (t : iperf_test) (rcv_us : Z) (timeout : option (Z * Z)) : option (Z * Z) :=
  if (state t =? TEST_RUNNING) && (0 <? rcv_us) then Some (receive_timeout t rcv_us timeout) else timeout.

Definition client_no_activity (v : client_variables) : part client_variables :=
  now <- on_peer (read_clock mc (cv_now v)) ;;
  let v := v <| cv_now := now |> in
  t1 <- known now ;;
  t0 <- known (cv_last_time v) ;;
  t <- on_peer (gets peer_test) ;;
  let '(diff, past) := iperf_time_diff t1 t0 in
  if (past =? 0) && (cv_rcv v <? iperf_time_in_usecs diff) && (test_blocks_received t =? cv_last_blocks v)
  then fails IENOMSG else proceed (ret v).

Definition client_progress (v : client_variables) : EM client_variables :=
  t <- gets peer_test ;;
  ret (if cv_last_blocks v <? test_blocks_received t
       then v <| cv_last_blocks := test_blocks_received t |> <| cv_last_time := cv_now v |> else v).

(** The test has lasted long enough, or moved enough. *)
Definition test_is_over (t : iperf_test) : bool :=
  (omitting t =? 0) &&
  (negb (done t =? 0)
   || negb (bytes (settings t) =? 0) && ((bytes (settings t) <=? test_bytes_sent t) || (bytes (settings t) <=? test_bytes_received t))
   || negb (blocks (settings t) =? 0) && ((blocks (settings t) <=? test_blocks_sent t) || (blocks (settings t) <=? test_blocks_received t))).

Definition end_sending : part unit :=
  cancel_timer stats_timer (fun p => p <| stats_timer := None |>) ;;;
  cancel_timer reporter_timer (fun p => p <| reporter_timer := None |>) ;;;
  _ <~ stop_workers true ;;
  on_peer (change (fun t => t <| done := 1 |>)) ;;;
  on_peer (store_cpu_util mc) ;;;
  on_peer (stats_callback mc) ;;;
  r <- on_peer (iperf_set_send_state mc TEST_END) ;;
  if negb (r =? 0) then leave (-1) else proceed (ret tt).

(** A round of the running test. *)
Definition running (fuel : nat) (v : client_variables) : part client_variables :=
  _ <~ (if cv_startup v then start_client_workers else proceed (ret tt)) ;;
  now <- on_peer (read_clock mc (cv_now v)) ;;
  t <- known now ;;
  tmr_run (call_procedure mc) fuel (Some t) t ;;;
  let v := v <| cv_startup := false |> <| cv_now := now |> in
  t <- on_peer (gets peer_test) ;;
  _ <~ (if test_is_over t then end_sending else proceed (ret tt)) ;;
  proceed (ret v).

(** The message [CREATE_STREAMS]. *)
Definition make_streams (k : nat) : PM Z := client_streams (m_page_size mc) (m_dial mc k) (m_stream mc k) (m_bind_port mc).

Definition client_control (a : selection) (read_set : list Z) : part unit :=
  t <- on_peer (gets peer_test) ;;
  if (0 <? sel_result a) && FD_ISSET (ctrl_sck t) read_set a then
    create <- on_peer (ask make_streams) ;;
    tested (iperf_handle_message_client mc create)
  else proceed (ret tt).

Definition client_iteration (fuel : nat) (v : client_variables) : part client_variables :=
  read_set <- on_peer (gets pr_read_set) ;;
  now <- on_peer (read_clock mc (cv_now v)) ;;
  let v := v <| cv_now := now |> in
  t1 <- known now ;;
  expiry <- tmr_timeout (Some t1) t1 ;;
  t <- on_peer (gets peer_test) ;;
  a <- on_peer (select mc (client_timeout t (cv_rcv v) expiry)) ;;
  t <- on_peer (gets peer_test) ;;
  if (sel_result a <? 0) && negb (sel_errno a =? EINTR) then fails IESELECT
  else
    v <~ (if (sel_result a =? 0) && (state t =? TEST_RUNNING) && (0 <? cv_rcv v) then client_no_activity v else proceed (ret v)) ;;
    v <- on_peer (client_progress v) ;;
    _ <~ client_control a read_set ;;
    t <- on_peer (gets peer_test) ;;
    if state t =? TEST_RUNNING then running fuel v else proceed (ret v).

Fixpoint client_loop (fuel : nat) (v : client_variables) : part client_variables :=
  t <- on_peer (gets peer_test) ;;
  if state t =? IPERF_DONE then proceed (ret v)
  else
    match fuel with
    | O => out_of_fuel
    | S fuel => v <~ client_iteration fuel v ;; client_loop fuel v
    end.

Definition client_body (fuel : nat) : part unit :=
  _ <~ tested (on_peer iperf_connect) ;;
  on_peer (start_cpu_util mc) ;;;
  t <- on_peer (gets peer_test) ;;
  let rcv := if negb (mode t =? SENDER) then rcv_timeout_us t else 0 in
  start <- on_peer (read_clock mc None) ;;
  _ <~ client_loop fuel (mk_client true rcv None start 0) ;;
  stop_workers false.

(** After an error the threads are stopped and the connection is closed. *)
Definition cleanup_and_fail : SeM Z :=
  on_peer (stop_threads abandon_worker) ;;;
  on_peer (iperf_client_end mc) ;;;
  ret (-1).

Definition iperf_run_client (fuel : nat) : SeM Z :=
  r <- client_body fuel ;;
  match r with
  | inl _ => ret 0
  | inr _ => cleanup_and_fail
  end.
End Client.
