(* ===== verification/SessionSpec.v ===== *)
(** * Both ends of the control connection

    The server's reaction to every byte, the report of its errors to the client,
    and the end of a test: what one end writes is what the other end reads, and
    both get to the end of the test. *)

From S2P Require Import Prelude Bytes Time Timer Double CJson CJsonTree CJsonPrint CJsonRoundTrip IperfTest ControlChannel ControlChannelSpec BoundedOutput OutputBudget Params ParamsTrip Message Results ResultsSpec ResultsTrip.
From S2P Require Import Streams Connect Measure Auth AuthSpec Session Server.
Local Open Scope c_scope.

(** ** Steps on parts *)

Lemma wp_on_peer {A} (m : EM A) Q s :
  wp m (fun a p => Q a (mk_tstate (heap s) (timers s) (free_timers s) p)) (world s) -> wp (on_peer m) Q s.
Proof. unfold wp, on_peer. by destruct (m (world s)) as [[a p]| |]. Qed.

Lemma wp_on_side {A} (m : SM A) Q p : wp m (fun a s => Q a (p <| pr_side := s |>)) (pr_side p) -> wp (on_side m) Q p.
Proof. unfold wp, on_side. by destruct (m (pr_side p)) as [[a s]| |]. Qed.

Lemma wp_on_process {A} (m : PM A) Q p : wp m (fun a q => Q a (with_process q p)) (process_of p) -> wp (on_process m) Q p.
Proof. unfold wp, on_process. by destruct (m (process_of p)) as [[a q]| |]. Qed.

Lemma wp_ask {A} (f : nat -> A) Q p : Q (f (pr_tick p)) (p <| pr_tick := S (pr_tick p) |>) -> wp (ask f) Q p.
Proof. done. Qed.

(** The peer with another control channel. *)
Definition with_channel (c : channel) : peer -> peer := update pr_side (fun s => s <| sd_channel := c |>).
Definition peer_in (p : peer) : list Z := ch_in (sd_channel (pr_side p)).
Definition peer_out (p : peer) : list Z := ch_out (sd_channel (pr_side p)).

Lemma wp_on_control {A} (m : NM A) Q p : wp m (fun a c => Q a (with_channel c p)) (sd_channel (pr_side p)) -> wp (on_control m) Q p.
Proof. intros H. apply wp_on_side. unfold wp, on_channel, on_part in *. by destruct (m (sd_channel (pr_side p))) as [[a c]| |]. Qed.

(** [p'] is [p] with other bytes on its way. *)
Definition moved (l rest : list Z) (p p' : peer) : Prop := exists c, p' = with_channel c p /\ ch_in c = rest /\ ch_out c = peer_out p ++ l.

Section Spec.
Context {crypto : cryptography} (mc : machine) (Hp : prompt (e_os (m_env mc))).

Lemma send_state_spec v p : 0 <= ctrl_sck (peer_test p) ->
  wp (iperf_set_send_state mc v) (fun r p' => r = 0 /\ moved [u8 v] (peer_in p) (with_test (fun t => t <| state := v |>) p) p') p.
Proof.
  intros Hs. unfold iperf_set_send_state. wp_step. apply wp_get. rewrite (proj2 (Z.leb_le _ _)) by done.
  wp_step. apply wp_modify. apply wp_bind, wp_on_control. eapply wp_mono; [by apply Nwrite_prompt|]. intros r c (-> & Hi & Ho).
  change (zlen (char_of v)) with 1. cbn [Z.ltb Z.compare]. wp_step. split; [done|]. by exists c.
Qed.

Lemma send_number_spec v p : wp (send_number mc v) (fun r p' => r = 4 /\ moved (htonl (u32 v)) (peer_in p) p p') p.
Proof. apply wp_on_control. eapply wp_mono; [by apply Nwrite_prompt|]. intros r c (-> & Hi & Ho). split; [done|]. by exists c. Qed.

Lemma control_read_spec l rest p : peer_in p = l ++ rest -> zlen l < 2 ^ 31 ->
  wp (on_control (Nread (e_os (m_env mc)) (zlen l))) (fun r p' => r = (zlen l, l) /\ moved [] rest p p') p.
Proof.
  intros Hi Hl. apply wp_on_control. eapply wp_mono; [by apply (Nread_prompt _ Hp l rest)|]. intros r c (-> & Hc & Ho).
  split; [done|]. exists c. split_and!; [done|done|]. by rewrite Ho, app_nil_r.
Qed.

(** The client's read of one byte. *)
Lemma read_state_spec b rest p : peer_in p = b :: rest ->
  wp (read_state mc) (fun ra p' => ra = (Moved 1, [b]) /\ moved [] rest p p') p.
Proof.
  intros Hi. apply wp_on_control. unfold read, peer_in in *. destruct (prompt_read _ Hp (ch_calls (sd_channel (pr_side p)))) as (n & Hn & En).
  unfold wp, bind, call, get, take_in, ret. rewrite En. cbv zeta. cbn [ch_in ch_out ch_calls]. rewrite Hi.
  assert (Z.max 0 (Z.min n (Z.min (zlen (b :: rest)) 1)) = 1) as -> by (pose proof (zlen_cons b rest); pose proof (zlen_nonneg rest); lia).
  split; [done|]. eexists. split; [done|]. cbn. by rewrite app_nil_r.
Qed.

(** ** The server's errors *)

Definition report (e errno : Z) : list Z := u8 SERVER_ERROR :: htonl (u32 e) ++ htonl (u32 errno).

Lemma report_error_spec p : peer_error p <> IENONE -> 0 <= ctrl_sck (peer_test p) ->
  wp (report_error mc) (fun _ p' => exists n, peer_out p' = peer_out p ++ report (peer_error p) n /\ peer_in p' = peer_in p) p.
Proof.
  intros He Hs. unfold report_error. wp_step. apply wp_get. rewrite (proj2 (Z.eqb_neq _ _) He), (proj2 (Z.eqb_neq (ctrl_sck _) _)) by lia. cbn [negb andb].
  wp_step. eapply wp_mono; [by apply send_state_spec|]. intros r p1 (-> & c1 & -> & Hi1 & Ho1). cbn [Z.eqb]. wp_step. apply wp_gets.
  wp_step. eapply wp_mono; [by apply send_number_spec|]. intros r p2 (-> & c2 & -> & Hi2 & Ho2). cbn [Z.leb Z.compare]. wp_step.
  unfold ask, wp at 1. wp_step. eapply wp_mono; [by apply send_number_spec|]. intros r p3 (-> & c3 & -> & Hi3 & Ho3). wp_step.
  eexists. unfold peer_out, peer_in in *. cbn in *. rewrite Ho3, Ho2, Ho1, Hi3. cbn. rewrite <- !app_assoc. split; [reflexivity|congruence].
Qed.

Lemma reread_int e : - 2 ^ 31 <= e < 2 ^ 31 -> s32 (ntohl (htonl (u32 e))) = e.
Proof.
  intros He. pose proof (wrapu_range 32 e ltac:(lia)) as Hr. rewrite ntohl_htonl by (change 4294967296 with (2 ^ 32); lia). unfold wrapu, wraps. rewrite Zplus_mod_idemp_l.
  rewrite Z.mod_small; lia.
Qed.

Lemma server_error_spec e n rest p : - 2 ^ 31 <= e < 2 ^ 31 -> peer_in p = htonl (u32 e) ++ htonl (u32 n) ++ rest ->
  wp (server_error mc) (fun r p' => r = -1 /\ peer_error p' = e /\ peer_in p' = rest /\ peer_test p' = peer_test p) p.
Proof.
  intros He Hi. unfold server_error. wp_step. change 4 with (zlen (htonl (u32 e))) at 1. eapply wp_mono; [by apply control_read_spec|].
  intros r p1 (-> & c1 & -> & Hi1 & _). cbn [fst snd]. change (zlen (htonl (u32 e)) <? 0) with false. change (zlen (htonl (u32 e)) <? 4) with false. cbv iota.
  wp_step. apply wp_modify. rewrite reread_int by done.
  wp_step. change 4 with (zlen (htonl (u32 n))) at 1. eapply wp_mono; [apply (control_read_spec _ rest); [exact Hi1|done]|].
  intros r p2 (-> & c2 & -> & Hi2 & _). cbn [fst snd]. change (zlen (htonl (u32 n)) <? 0) with false. cbv iota. wp_step. wp_step. wp_step. by split_and!.
Qed.

(** The client's message, apart from what [s] is. *)
Lemma message_client_spec create b rest (Q : Z -> session -> Prop) s : peer_in (world s) = u8 b :: rest -> - 128 <= b < 128 ->
  (forall c, ch_in c = rest -> ch_out c = peer_out (world s) ->
    wp (iperf_react_client mc create b) Q (mk_tstate (heap s) (timers s) (free_timers s) (with_test (fun t => t <| state := b |>) (with_channel c (world s))))) ->
  wp (iperf_handle_message_client mc create) Q s.
Proof.
  intros Hi Hb H. unfold iperf_handle_message_client. wp_step. apply wp_on_peer. eapply wp_mono; [by apply read_state_spec|].
  intros ra p1 (-> & c1 & -> & Hi1 & Ho1). rewrite app_nil_r in Ho1. cbn [fst snd]. change (1 =? 0) with false. cbv iota. cbn [nth].
  assert (s8 (u8 b) = b) as ->. { unfold wraps, wrapu. rewrite Zplus_mod_idemp_l, Z.mod_small; lia. }
  wp_step. apply wp_on_peer. apply wp_modify. by apply H.
Qed.

(** ** The end of the connection *)

Lemma drain_spec fuel : forall p, (length (peer_in p) < fuel)%nat ->
  wp (drain mc fuel) (fun _ p' => exists c, p' = with_channel c p /\ ch_out c = peer_out p) p.
Proof.
  induction fuel as [|fuel IH]; intros p Hf; [lia|]. cbn [drain]. apply wp_bind, wp_on_control.
  eapply wp_mono; [apply Nread_spec; lia|]. intros r c (l & [El Eo] & E2 & Hl & Hr). cbn [app] in E2. destruct (Z.ltb_spec 0 r.1).
  - eapply wp_mono; [apply IH|].
    + unfold peer_in in *. cbn in *. rewrite El, length_app in Hf. destruct l as [|x l]; [|cbn in *; lia]. rewrite E2 in Hr. change (zlen (@nil Z)) with 0 in Hr.
      change (s32 0) with 0 in Hr. change NET_HARDERROR with (-2) in Hr. lia.
    + intros _ p' (c' & -> & Ho). exists c'. split; [done|]. unfold peer_out in *. cbn in *. congruence.
  - wp_step. by exists c.
Qed.

(** The same test and the same bytes written. *)
Definition quiet (p p' : peer) : Prop := peer_test p' = peer_test p /\ peer_out p' = peer_out p.

Lemma sync_close_spec sock p : wp (iperf_sync_close_socket mc sock) (fun _ p' => quiet p p') p.
Proof.
  unfold iperf_sync_close_socket, shutdown, close. wp_step. apply wp_on_process, wp_modify. wp_step. apply wp_get.
  wp_step. eapply wp_mono; [apply drain_spec; apply Nat.lt_succ_diag_r|]. intros _ p1 (c & -> & Ho). apply wp_on_process, wp_modify. split; [done|exact Ho].
Qed.

(** What [iperf_client_end] leaves of a stream. *)
Definition closed_stream (sp : iperf_stream) : iperf_stream := if 0 <=? buffer_fd sp then sp <| buffer_fd := -1 |> else sp.

Lemma close_streams_spec sps : forall q, wp (close_streams sps) (fun l q' => l = closed_stream <$> sps /\ p_test q' = p_test q) q.
Proof.
  induction sps as [|sp sps IH]; intros q; cbn [close_streams]; [by wp_step|]. unfold close at 1. wp_step. wp_step. rewrite fmap_cons.
  replace (closed_stream sp) with (if 0 <=? buffer_fd sp then sp <| buffer_fd := -1 |> else sp) by done. destruct (0 <=? buffer_fd sp).
  - unfold close at 1. wp_step. wp_step. wp_step. eapply wp_mono; [apply IH|]. intros l q' [-> E]. by wp_step.
  - wp_step. eapply wp_mono; [apply IH|]. intros l q' [-> E]. by wp_step.
Qed.

(** The client's last message. *)
Lemma client_end_spec p : 0 < state (peer_test p) -> 0 <= ctrl_sck (peer_test p) ->
  wp (iperf_client_end mc) (fun r p' => r = 0 /\ peer_out p' = peer_out p ++ [u8 IPERF_DONE] /\ state (peer_test p') = IPERF_DONE /\
    streams (peer_test p') = closed_stream <$> streams (peer_test p)) p.
Proof.
  intros Hst Hsck. unfold iperf_client_end. wp_step. apply wp_get. wp_step. apply wp_on_process. eapply wp_mono; [apply close_streams_spec|].
  intros l q [-> E]. cbn [process_of p_test] in E. wp_step. apply wp_modify. wp_step. apply wp_modify. wp_step. apply wp_get.
  match goal with |- wp _ _ ?x => set (p1 := x) end.
  assert (peer_test p1 = (peer_test p) <| streams := closed_stream <$> streams (peer_test p) |>) as E1 by (unfold p1, with_process, peer_test; cbn; by rewrite E).
  assert (peer_out p1 = peer_out p) as O1 by done. clearbody p1. rewrite E1. cbn [state update]. rewrite (proj2 (Z.ltb_lt _ _) Hst).
  wp_step. eapply wp_mono; [apply send_state_spec; by rewrite E1|]. intros r p2 (-> & c & -> & Hi & Ho). cbn [Z.eqb negb]. wp_step. apply wp_get.
  match goal with |- wp _ _ ?x => set (p2 := x) end.
  assert (ctrl_sck (peer_test p2) = ctrl_sck (peer_test p) /\ state (peer_test p2) = IPERF_DONE /\ streams (peer_test p2) = closed_stream <$> streams (peer_test p)) as (K2 & S2 & T2).
  { unfold p2. change (peer_test (with_channel c (with_test (fun t => t <| state := IPERF_DONE |>) p1))) with ((peer_test p1) <| state := IPERF_DONE |>). by rewrite E1. }
  assert (peer_out p2 = peer_out p ++ [u8 IPERF_DONE]) as O2 by (rewrite <- O1; exact Ho). clearbody p2. rewrite K2, (proj2 (Z.leb_le _ _) Hsck).
  wp_step. eapply wp_mono; [apply sync_close_spec|]. intros _ p3 [T3 O3]. wp_step. rewrite T3, O3. by split_and!.
Qed.

(** ** The end of a test *)

(** A step that does not look at the control connection. *)
Definition blind {A} (m : EM A) : Prop := forall c p,
  m (with_channel c p) = match m p with Ret (a, p') => Ret (a, with_channel c p') | UB => UB | OutOfFuel => OutOfFuel end.

Lemma blind_bind {A B} (m : EM A) (k : A -> EM B) : blind m -> (forall a, blind (k a)) -> blind (bind m k).
Proof. intros Hm Hk c p. unfold bind. rewrite Hm. destruct (m p) as [[a p']| |]; [apply Hk|done..]. Qed.

Lemma blind_modify f : (forall c p, f (with_channel c p) = with_channel c (f p)) -> blind (modify f).
Proof. intros Hf c p. unfold modify. by rewrite Hf. Qed.

Lemma blind_on_process {A} (m : PM A) : blind (on_process m).
Proof. intros c p. unfold on_process. change (process_of (with_channel c p)) with (process_of p). by destruct (m (process_of p)) as [[a q]| |]. Qed.

Lemma blind_on_counters m : blind (on_counters m).
Proof. intros c p. unfold on_counters. change (peer_test (with_channel c p)) with (peer_test p). cbn [pr_tick with_channel update]. by destruct (m (pr_tick p) (peer_test p)). Qed.

(** The last interval does not. *)
Lemma blind_finish : blind (finish_measuring mc).
Proof.
  unfold finish_measuring, store_cpu_util, stats_callback, notify, change, ask. apply blind_bind; [by apply blind_modify|intros _].
  apply blind_bind; [apply blind_bind; [done|]; intros u; by apply blind_modify|intros _]. apply blind_bind; [apply blind_on_counters|intros _].
  apply blind_bind; [|intros _; by apply blind_modify]. intros c p. unfold release_streams, change, bind, get, modify.
  change (streams (peer_test (with_channel c p))) with (streams (peer_test p)). apply (blind_on_process _ c (with_test _ p)).
Qed.

(** The side once its test is exchanging results. *)
Definition side_state (v : Z) : side -> side := update sd_incoming (update in_exchange (update x_test (fun t => t <| state := v |>))).

(** The server's half of the end: [TEST_END], then [IPERF_DONE]. *)
Definition server_finish : EM (list Z) :=
  r1 <- iperf_handle_message_server mc ;;
  r2 <- iperf_handle_message_server mc ;;
  ret [r1; r2].

(** The client's: [TEST_END] is sent, then two messages arrive. *)
Definition client_finish (create : PM Z) : SeM (list Z) :=
  r0 <- on_peer (iperf_set_send_state mc TEST_END) ;;
  r1 <- iperf_handle_message_client mc create ;;
  r2 <- iperf_handle_message_client mc create ;;
  ret [r0; r1; r2].

(** The server's message, apart from what [p] is. *)
Lemma message_server_spec b rest (Q : Z -> peer -> Prop) p : peer_in p = u8 b :: rest -> - 128 <= b < 128 ->
  (forall c, ch_in c = rest -> ch_out c = peer_out p -> wp (iperf_react_server mc b) Q (with_test (fun t => t <| state := b |>) (with_channel c p))) ->
  wp (iperf_handle_message_server mc) Q p.
Proof.
  intros Hi Hb H. unfold iperf_handle_message_server. wp_step. change 1 with (zlen [u8 b]) at 1. eapply wp_mono; [by apply (control_read_spec [u8 b] rest)|].
  intros r p1 (-> & c1 & -> & Hi1 & Ho1). rewrite app_nil_r in Ho1. change (zlen [u8 b]) with 1. cbn [fst snd nth Z.leb Z.compare].
  assert (s8 (u8 b) = b) as ->. { unfold wraps, wrapu. rewrite Zplus_mod_idemp_l, Z.mod_small; lia. }
  wp_step. apply wp_modify. by apply H.
Qed.

Section Finish.
Context (Henv : reliable (m_env mc)).

Lemma client_finish_spec create ts lines s :
  let tc := side_test (side_state EXCHANGE_RESULTS (pr_side (world s))) in
  0 <= ctrl_sck tc -> sends role_client (side_state EXCHANGE_RESULTS (pr_side (world s))) -> reports ts lines ->
  results_size tc (sd_lines (pr_side (world s))) + 2 < 2 ^ 31 -> results_size ts lines < 2 ^ 31 ->
  peer_in (world s) = u8 EXCHANGE_RESULTS :: results_frame ts lines ++ [u8 DISPLAY_RESULTS] -> peer_out (world s) = [] ->
  (forall sp, sp ∈ streams ts -> id sp ∈ id <$> streams tc) ->
  wp (client_finish create) (fun r s' => r = [0; 0; 0] /\ state (peer_test (world s')) = IPERF_DONE /\
    peer_out (world s') = u8 TEST_END :: results_frame tc (sd_lines (pr_side (world s))) ++ [u8 IPERF_DONE] /\
    streams (peer_test (world s')) = closed_stream <$> streams (learn_results ts tc)) s.
Proof.
  intros tc Hsck Hsends Hts Hz1 Hz2 Hin Hout Hids. destruct (learned_keeps ts tc) as (_ & _ & _ & Ek & Es & _). unfold client_finish.
  wp_step. apply wp_on_peer. eapply wp_mono; [by apply send_state_spec|]. intros r p1 (-> & c1 & -> & Hi1 & Ho1). change (peer_out _) with (peer_out (world s)) in Ho1. rewrite Hout in Ho1.
  wp_step. eapply message_client_spec; [cbn [world]; unfold peer_in; cbn; rewrite Hi1; exact Hin|split; [|reflexivity]; by vm_compute|].
  intros c2 Hi2 Ho2. cbn [world heap timers free_timers] in *. change (peer_out (with_channel c1 _)) with (ch_out c1) in Ho2.
  unfold iperf_react_client. cbn [Z.eqb Pos.eqb EXCHANGE_RESULTS PARAM_EXCHANGE CREATE_STREAMS TEST_START TEST_RUNNING].
  wp_step. apply wp_on_peer. apply wp_on_side. match goal with |- wp _ _ ?x => set (c := x) end.
  assert (side_test c = tc) as Ec by done.
  eapply wp_mono; [apply (client_exchange_spec (m_env mc) c ts lines [u8 DISPLAY_RESULTS]); try done; by destruct Hsends|].
  intros r c3 (-> & (Hi3 & Ho3 & T3 & _ & L3) & _). cbn [Z.ltb Z.compare]. wp_step. rewrite Ec in T3.
  change (ch_out (sd_channel c)) with (ch_out c2) in Ho3. change (sd_lines c) with (sd_lines (pr_side (world s))) in *. rewrite Ho2, Ho1, Ec in Ho3.
  wp_step. eapply message_client_spec; [cbn [world]; exact Hi3|split; [|reflexivity]; by vm_compute|].
  intros c4 Hi4 Ho4. cbn [world heap timers free_timers] in *. unfold iperf_react_client.
  cbn [Z.eqb Pos.eqb DISPLAY_RESULTS EXCHANGE_RESULTS PARAM_EXCHANGE CREATE_STREAMS TEST_START TEST_RUNNING].
  wp_step. apply wp_on_peer, wp_modify. wp_step. apply wp_on_peer. cbn [world heap timers free_timers].
  match goal with |- wp _ _ ?x => set (p4 := x) end. assert (peer_test p4 = (learn_results ts tc) <| state := DISPLAY_RESULTS |>) as E4 by (rewrite <- T3; done).
  assert (peer_out p4 = ch_out (sd_channel c3)) as O4 by (exact Ho4). clearbody p4.
  eapply wp_mono; [apply client_end_spec; rewrite E4; [by vm_compute|change (0 <= ctrl_sck (learn_results ts tc)); by rewrite Ek]|].
  intros r p5 (-> & O5 & S5 & T5). wp_step. wp_step. cbn [world]. split_and!; [done|done| |by rewrite T5, E4]. by rewrite O5, O4, Ho3.
Qed.

Lemma server_finish_spec tc lines p p1 :
  let ts := side_test (side_state EXCHANGE_RESULTS (pr_side p1)) in let ts1 := learn_results tc ts in let out := sd_lines (pr_side p1) in
  finish_measuring mc (with_test (fun t => t <| state := TEST_END |>) p) = Ret (tt, p1) ->
  0 <= ctrl_sck ts -> sends role_server (side_state EXCHANGE_RESULTS (pr_side p1)) -> reports tc lines ->
  Forall (fun sp => double_fits (reread_double (jitter sp))) (streams tc) ->
  results_size tc lines < 2 ^ 31 -> results_size ts1 out + 2 < 2 ^ 31 ->
  peer_in p = u8 TEST_END :: results_frame tc lines ++ [u8 IPERF_DONE] -> peer_out p = [] ->
  (forall sp, sp ∈ streams tc -> id sp ∈ id <$> streams ts) ->
  wp server_finish (fun r p' => r = [0; 0] /\ peer_test p' = ts1 <| state := IPERF_DONE |> /\
    peer_out p' = u8 EXCHANGE_RESULTS :: results_frame ts1 out ++ [u8 DISPLAY_RESULTS]) p.
Proof.
  intros ts ts1 out Hfin Hsck Hsends Htc Hjit Hz1 Hz2 Hin Hout Hids. destruct (learned_keeps tc ts) as (_ & _ & _ & Ek & _). fold ts1 in Ek. unfold server_finish.
  wp_step. eapply message_server_spec; [exact Hin|split; [|reflexivity]; by vm_compute|].
  intros c1 Hi1 Ho1. rewrite Hout in Ho1. unfold iperf_react_server. cbn [Z.eqb Pos.eqb TEST_END TEST_START]. unfold end_test. apply wp_bind.
  unfold wp at 1. change (with_test ?f (with_channel c1 p)) with (with_channel c1 (with_test f p)). rewrite blind_finish, Hfin.
  wp_step. eapply wp_mono; [by apply send_state_spec|]. intros r p2 (-> & c2 & -> & Hi2 & Ho2). cbn [Z.eqb negb].
  change (peer_in _) with (ch_in c1) in Hi2. change (peer_out _) with (ch_out c1) in Ho2. rewrite Hi1 in Hi2. rewrite Ho1 in Ho2.
  wp_step. apply wp_on_side. match goal with |- wp _ _ ?x => set (s := x) end. assert (side_test s = ts) as Es by done. assert (sd_lines s = out) as El by done.
  eapply wp_mono; [apply (server_exchange_spec (m_env mc) s tc lines [u8 IPERF_DONE]); try done; by destruct Hsends|].
  intros r s3 (-> & (Hi3 & Ho3 & T3 & _ & _)). cbn [Z.ltb Z.compare]. rewrite Es in T3. fold ts1 in T3. rewrite Es, El in Ho3. fold ts1 in Ho3.
  change (ch_out (sd_channel s)) with (ch_out c2) in Ho3. rewrite Ho2 in Ho3. clearbody s.
  match goal with |- wp _ _ ?x => set (p3 := x) end. assert (peer_test p3 = ts1) as E3 by exact T3.
  assert (peer_in p3 = [u8 IPERF_DONE] /\ peer_out p3 = u8 EXCHANGE_RESULTS :: results_frame ts1 out) as [I3 O3] by (by split). clearbody p3.
  wp_step. eapply wp_mono; [apply send_state_spec; by rewrite E3, Ek|]. intros r p4 (-> & c4 & -> & Hi4 & Ho4). cbn [Z.eqb negb].
  wp_step. apply wp_modify. wp_step. wp_step.
  change (peer_in _) with (peer_in p3) in Hi4. change (peer_out _) with (peer_out p3) in Ho4. rewrite I3 in Hi4. rewrite O3 in Ho4.
  match goal with |- wp _ _ ?x => set (p5 := x) end. assert (peer_test p5 = ts1 <| state := DISPLAY_RESULTS |>) as E5 by (rewrite <- E3; done).
  assert (peer_in p5 = [u8 IPERF_DONE] /\ peer_out p5 = ch_out c4) as [I5 O5] by (by split). clearbody p5.
  eapply message_server_spec; [exact I5|split; [|reflexivity]; by vm_compute|]. intros c6 Hi6 Ho6.
  unfold iperf_react_server. cbn [Z.eqb Pos.eqb IPERF_DONE TEST_END TEST_START]. wp_step. wp_step. split; [done|].
  change (peer_test (with_test ?f (with_channel c6 p5))) with (f (peer_test p5)). change (peer_out (with_test _ (with_channel c6 p5))) with (ch_out c6).
  rewrite E5, Ho6, O5, Ho4. done.
Qed.
End Finish.
End Spec.

(** ** The properties *)

(** The channel does not matter. *)
Lemma sends_channel r s c : sends r s -> sends r (s <| sd_channel := c |>).
Proof. by intros []. Qed.

(** The peer with these bytes of the other to read, and nothing written yet. *)
Definition resumed (input : list Z) (p : peer) : peer := with_channel (mk_channel input [] 0) p.

(** C13: however a server fails, if it has an error and a client, the report
    its cleanup sends makes the client's run fail with the same error: the
    client's handler takes exactly the bytes of the report and returns -1, with
    the server's [i_errno] in its own. *)
Theorem error_reported {crypto : cryptography} mcs mcc create ps s rest (Hs : prompt (e_os (m_env mcs))) (Hc : prompt (e_os (m_env mcc)))
    (He : peer_error ps <> IENONE) (Hint : - 2 ^ 31 <= peer_error ps < 2 ^ 31) (Hsck : 0 <= ctrl_sck (peer_test ps)) :
  exists ps' s', report_error mcs (resumed [] ps) = Ret (tt, ps') /\
    iperf_handle_message_client mcc create (mk_tstate (heap s) (timers s) (free_timers s) (resumed (peer_out ps' ++ rest) (world s))) = Ret (-1, s') /\
    peer_error (world s') = peer_error ps /\ peer_in (world s') = rest /\ state (peer_test (world s')) = SERVER_ERROR.
Proof.
  destruct (wp_returns _ _ _ (report_error_spec mcs Hs (resumed [] ps) He Hsck)) as (u & ps' & Es & n & Ho & _).
  destruct u. exists ps'. change (peer_error (resumed [] ps)) with (peer_error ps) in Ho. change (peer_out (resumed [] ps)) with (@nil Z) in Ho. rewrite Ho.
  set (s0 := mk_tstate _ _ _ _).
  assert (wp (iperf_handle_message_client mcc create) (fun r s' => r = -1 /\ peer_error (world s') = peer_error ps /\ peer_in (world s') = rest /\ state (peer_test (world s')) = SERVER_ERROR) s0) as Hw.
  { eapply message_client_spec; [exact Hc|reflexivity|split; [|reflexivity]; by vm_compute|]. intros c Hi Hout. unfold iperf_react_client.
    cbn [Z.eqb Pos.eqb SERVER_ERROR PARAM_EXCHANGE CREATE_STREAMS TEST_START TEST_RUNNING EXCHANGE_RESULTS DISPLAY_RESULTS IPERF_DONE SERVER_TERMINATE ACCESS_DENIED].
    apply wp_on_peer. eapply wp_mono; [apply (server_error_spec mcc Hc (peer_error ps) n rest); [done|]|].
    - change (ch_in c = htonl (u32 (peer_error ps)) ++ htonl (u32 n) ++ rest). rewrite Hi. reflexivity.
    - intros r p' (-> & E1 & E2 & E3). cbn [world]. by rewrite E3. }
  destruct (wp_returns _ _ _ Hw) as (r & s' & Ec & -> & H). by exists s'.
Qed.

(** C12: client and server end a test on the two ends of one connection: the
    client sends [TEST_END], the server closes its sockets and answers with
    [EXCHANGE_RESULTS], both exchange their results, the server sends
    [DISPLAY_RESULTS] and the client [IPERF_DONE].  No handler fails, both ends
    arrive at [IPERF_DONE], the server has marked its streams done, and every
    stream of each end has what the other end counted. *)
Theorem test_finished {crypto : cryptography} mcc mcs create sc ps ps1
    (Hc : reliable (m_env mcc)) (Hs : reliable (m_env mcs))
    (Hend : finish_measuring mcs (with_test (fun t => t <| state := TEST_END |>) ps) = Ret (tt, ps1))
    (Hsends_c : sends role_client (side_state EXCHANGE_RESULTS (pr_side (world sc)))) (Hsends_s : sends role_server (side_state EXCHANGE_RESULTS (pr_side ps1))) :
  let tc := side_test (side_state EXCHANGE_RESULTS (pr_side (world sc))) in
  let ts := side_test (side_state EXCHANGE_RESULTS (pr_side ps1)) in
  forall (Hsck_c : 0 <= ctrl_sck tc) (Hsck_s : 0 <= ctrl_sck ts)
    (Hjitter : Forall (fun sp => double_fits (reread_double (jitter sp))) (streams tc))
    (Hids : forall n, n ∈ id <$> streams tc <-> n ∈ id <$> streams ts)
    (Hsize_c : results_size tc (sd_lines (pr_side (world sc))) + 2 < 2 ^ 31)
    (Hsize_s : results_size (learn_results tc ts) (sd_lines (pr_side ps1)) + 2 < 2 ^ 31),
  exists sc' ps', client_finish mcc create (mk_tstate (heap sc) (timers sc) (free_timers sc) (resumed (peer_out ps') (world sc))) = Ret ([0; 0; 0], sc') /\
    server_finish mcs (resumed (peer_out (world sc')) ps) = Ret ([0; 0], ps') /\
    state (peer_test (world sc')) = IPERF_DONE /\ state (peer_test ps') = IPERF_DONE /\
    (forall sp sp2, sp ∈ streams tc -> sp2 ∈ streams ts -> id sp2 = id sp -> sender sp = negb (sender sp2) ->
      (exists sp', closed_stream sp' ∈ streams (peer_test (world sc')) /\ learned (peer_test ps') sp sp2 sp') /\
      (exists sp', sp' ∈ streams (peer_test ps') /\ learned tc sp2 sp sp')).
Proof.
  intros tc ts Hsck_c Hsck_s Hjitter Hids Hsize_c Hsize_s. set (ts1 := learn_results tc ts) in *. destruct (matching_ids tc ts Hids) as [Hids_s Hids_c].
  pose proof (sn_reports _ _ Hsends_c) as Hrc. pose proof (sn_reports _ _ Hsends_s) as Hrs. fold tc in Hrc. fold ts in Hrs.
  set (lc := sd_lines (pr_side (world sc))) in *. set (ls := sd_lines (pr_side ps1)) in *. change (reports tc lc) in Hrc. change (reports ts ls) in Hrs.
  set (A := u8 TEST_END :: results_frame tc lc ++ [u8 IPERF_DONE]). set (B := u8 EXCHANGE_RESULTS :: results_frame ts1 ls ++ [u8 DISPLAY_RESULTS]).
  pose proof (client_finish_spec mcc (rl_os _ Hc) Hc create ts1 ls (mk_tstate (heap sc) (timers sc) (free_timers sc) (resumed B (world sc)))) as Wc.
  pose proof (server_finish_spec mcs (rl_os _ Hs) Hs tc lc (resumed A ps) (with_channel (mk_channel A [] 0) ps1)) as Ws.
  assert (finish_measuring mcs (with_test (fun t => t <| state := TEST_END |>) (resumed A ps)) = Ret (tt, with_channel (mk_channel A [] 0) ps1)) as Hend'.
  { change (with_test ?f (resumed A ps)) with (with_channel (mk_channel A [] 0) (with_test f ps)). by rewrite blind_finish, Hend. }
  destruct (wp_returns _ _ _ (Wc Hsck_c (sends_channel _ _ (mk_channel B [] 0) Hsends_c) (reports_learned _ _ _ _ Hrc Hrs Hjitter) Hsize_c ltac:(unfold results_size in *; lia) eq_refl eq_refl Hids_c))
    as (rc & sc' & Ec & -> & Sc & Oc & Tc).
  destruct (wp_returns _ _ _ (Ws Hend' Hsck_s (sends_channel _ _ (mk_channel A [] 0) Hsends_s) Hrc Hjitter ltac:(unfold results_size in *; lia) Hsize_s eq_refl eq_refl Hids_s)) as (rs & ps' & Es & -> & Ts & Os).
  exists sc', ps'. rewrite Oc, Os. split; [exact Ec|]. split; [exact Es|]. split; [done|]. split; [by rewrite Ts|].
  intros sp sp2 Hsp Hsp2 Hid Hdir. destruct (exchange_learned tc ts lc ls Hrc Hrs Hjitter sp sp2 Hsp Hsp2 Hid Hdir) as [(sp' & H1 & L1) (sp2' & H2 & L2)].
  rewrite Tc, Ts. split; [exists sp'; split; [by apply list_elem_of_fmap_2|exact L1]|by exists sp2'].
Qed.

(** ** Examples *)

Definition no_stream : stream_answers := mk_answers true true 9 0 0 true (-1) 0 0 true 0.

#[local] Instance working : answers := {
  sys c := match c with Socket => 8 | Accept => 7 | Recvfrom | Write | Nread_cookie | Nwrite_cookie => 4 | Poll => 1 | _ => 0 end;
  errno_after _ := 0; sndbuf_actual _ := 262144; rcvbuf_actual _ := 262144; so_error := 0; ai_family := AF_INET; is_inet6 := false; cookie_read := [] }.

Definition sample_clock (k : nat) : iperf_time := mk_time (Z.min (Z.of_nat k) 1000) 0.

(** A system where every call succeeds, and what happens while [select] waits. *)
Definition machine_where (a : selection) (work : iperf_test -> iperf_test) : machine := mk_machine sample_env
  (fun _ => a) (fun _ => work) (fun _ => 0) (fun _ => mk_connection 7 false 0 false no_stream)
  (fun _ => repeat 0 37) (fun _ => Some 1448) (fun _ sending i _ => Z.of_nat i + 10) (fun _ _ _ => no_stream) 0 (-1)
  (fun k => Some (sample_clock k)) (fun _ _ => mk_time 12 0) (fun k => mk_usage (mk_time (Z.of_nat k + 20) 0) (Z.of_nat k * 1000) (mk_time 0 (Z.of_nat k * 100)) (mk_time 0 (Z.of_nat k * 200)))
  (fun _ _ => None) (fun k => Some (Pos.of_succ_nat k, mk_Timer (mk_tdata Test_timer tt 0 0 (mk_time 0 0)) None None)) (fun _ => 54)
  (fun _ => working) (fun _ => 0) (fun _ => mk_auth_answers true true true true true 0) (mk_authorization false None 0 false) false false 16384.

Definition sample_machine : machine := machine_where (mk_selection 0 0 []) (fun t => t).

Definition sample_peer (s : side) : peer :=
  mk_peer s 0 [3] 0 [3] [] AF_INET None None None None (mk_usage (mk_time 10 0) 0 (mk_time 0 0) (mk_time 0 0)) [] [] [] [] [] 0.

Definition with_socket (s : side) : side := update sd_incoming (update in_exchange (update x_test (fun t => t <| ctrl_sck := 3 |>))) s.
Definition sample_session (p : peer) : session := mk_tstate ∅ None None p.

Definition client_peer : peer := sample_peer (with_socket sample_client_side).
Definition server_peer : peer := sample_peer (with_socket sample_server_side).
Definition server_stopped : peer :=
  match finish_measuring sample_machine (with_test (fun t => t <| state := TEST_END |>) server_peer) with Ret (_, p) => p | _ => server_peer end.

Lemma server_stopped_eq : finish_measuring sample_machine (with_test (fun t => t <| state := TEST_END |>) server_peer) = Ret (tt, server_stopped).
Proof. by vm_compute. Qed.

Ltac concrete_reports := split;
  [repeat first [apply Forall_nil_2|apply Forall_cons_2]; computed
  |vm_compute; (by split)
  |apply ascii_text; vm_compute; constructor
  |apply ascii_text; vm_compute; repeat constructor; congruence
  |repeat first [apply Forall_nil_2|apply Forall_cons_2]; (split; [vm_compute; (by split)|vm_compute; congruence|..]);
    repeat first [apply Forall_nil_2|apply Forall_cons_2]; computed
  |apply (bool_decide_unpack _); vm_compute; reflexivity
  |vm_compute; reflexivity].

Lemma client_reports : reports (side_test (side_state EXCHANGE_RESULTS (pr_side client_peer))) [].
Proof. concrete_reports. Qed.

Lemma client_sends : sends role_client (side_state EXCHANGE_RESULTS (pr_side client_peer)).
Proof. split; [by vm_compute..|apply client_reports]. Qed.

Definition stopped_test : iperf_test := Eval vm_compute in side_test (side_state EXCHANGE_RESULTS (pr_side server_stopped)).

Lemma stopped_reports : reports stopped_test [[111; 107; 10]].
Proof. concrete_reports. Qed.

Lemma server_sends : sends role_server (side_state EXCHANGE_RESULTS (pr_side server_stopped)).
Proof.
  assert (side_test (side_state EXCHANGE_RESULTS (pr_side server_stopped)) = stopped_test) as Et by by vm_compute.
  assert (sd_lines (side_state EXCHANGE_RESULTS (pr_side server_stopped)) = [[111; 107; 10]]) as El by by vm_compute.
  split; rewrite ?Et, ?El; [by vm_compute..|apply stopped_reports].
Qed.

Definition client_test : iperf_test := side_test (side_state EXCHANGE_RESULTS (pr_side (world (sample_session client_peer)))).
Definition server_test : iperf_test := side_test (side_state EXCHANGE_RESULTS (pr_side server_stopped)).

Lemma sample_sockets : 0 <= ctrl_sck client_test /\ 0 <= ctrl_sck server_test.
Proof. split; vm_compute; congruence. Qed.

Lemma sample_jitter : Forall (fun sp => double_fits (reread_double (jitter sp))) (streams client_test).
Proof. repeat first [apply Forall_nil_2|apply Forall_cons_2]; computed. Qed.

Lemma sample_ids n : n ∈ id <$> streams client_test <-> n ∈ id <$> streams server_test.
Proof.
  assert (id <$> streams client_test = [1; 2]) as -> by (vm_compute; reflexivity). assert (id <$> streams server_test = [2; 1]) as -> by (vm_compute; reflexivity).
  set_solver.
Qed.

Lemma sample_size_c : results_size client_test (sd_lines (pr_side (world (sample_session client_peer)))) + 2 < 2 ^ 31.
Proof. vm_compute. reflexivity. Qed.

Lemma sample_size_s : results_size (learn_results client_test server_test) (sd_lines (pr_side server_stopped)) + 2 < 2 ^ 31.
Proof. vm_compute. reflexivity. Qed.

Lemma test_finished_witness :
  exists sc' ps', client_finish (crypto := sample_cryptography) sample_machine (ret 0) (mk_tstate ∅ None None (resumed (peer_out ps') client_peer)) = Ret ([0; 0; 0], sc') /\
    server_finish sample_machine (resumed (peer_out (world sc')) server_peer) = Ret ([0; 0], ps') /\
    state (peer_test (world sc')) = IPERF_DONE /\ state (peer_test ps') = IPERF_DONE /\
    (forall sp sp2, sp ∈ streams client_test -> sp2 ∈ streams server_test -> id sp2 = id sp -> sender sp = negb (sender sp2) ->
      (exists sp', closed_stream sp' ∈ streams (peer_test (world sc')) /\ learned (peer_test ps') sp sp2 sp') /\
      (exists sp', sp' ∈ streams (peer_test ps') /\ learned client_test sp2 sp sp')).
Proof.
  destruct sample_sockets as [H1 H2].
  exact (test_finished sample_machine sample_machine (ret 0) (sample_session client_peer) server_peer server_stopped sample_reliable sample_reliable server_stopped_eq client_sends server_sends H1 H2 sample_jitter sample_ids sample_size_c sample_size_s).
Defined.

Lemma error_reported_witness :
  exists ps' s', report_error sample_machine (resumed [] (with_error IENOMSG server_peer)) = Ret (tt, ps') /\
    iperf_handle_message_client (crypto := sample_cryptography) sample_machine (ret 0) (mk_tstate ∅ None None (resumed (peer_out ps' ++ [7]) client_peer)) = Ret (-1, s') /\
    peer_error (world s') = IENOMSG /\ peer_in (world s') = [7] /\ state (peer_test (world s')) = SERVER_ERROR.
Proof.
  apply (error_reported sample_machine sample_machine (ret 0) (with_error IENOMSG server_peer) (sample_session client_peer) [7] trickle_prompt trickle_prompt); vm_compute; (split; congruence) || congruence.
Defined.
