(* ===== verification/SetupSpec.v ===== *)
(** * How a test is set up

    The client connects and sends its cookie, the server accepts it, the
    parameters go over, and the server listens for the streams: on the two ends
    of one connection, with a system that does what it is asked, both ends go
    through this and have the same cookie and the same parameters. *)

From S2P Require Import Prelude Bytes Time Timer Double CJson CJsonRoundTrip IperfTest ControlChannel ControlChannelSpec OutputBudget Params ParamsSpec Message ParamsTrip Results ResultsTrip.
From S2P Require Import Streams StreamsSpec Connect Measure Auth AuthSpec Session Server Client SessionSpec.
Local Open Scope c_scope.

(** ** A system that does what it is asked *)

(** Every call succeeds, with socket buffers of [size] at least. *)
Record obliging (os : answers) (size : Z) : Prop := mk_obliging {
  ob_calls c : 0 <= sys c;
  ob_lookup : sys Getaddrinfo = 0;
  ob_lookup_local : sys Getaddrinfo_local = 0;
  ob_connect : sys Connect = 0;
  ob_sndbuf : size <= sndbuf_actual false;
  ob_rcvbuf : size <= rcvbuf_actual false }.

(** A test with other listeners. *)
Definition relisted (t t' : iperf_test) : Prop := exists l pl, t' = t <| listener := l |> <| prot_listener := pl |>.

Lemma relisted_refl t : relisted t t.
Proof. exists (listener t), (prot_listener t). unchanged t. Qed.

Lemma relisted_trans t1 t2 t3 : relisted t1 t2 -> relisted t2 t3 -> relisted t1 t3.
Proof. intros (l & pl & ->) (l' & pl' & ->). by exists l', pl'. Qed.

Lemma relisted_listener v t : relisted t (t <| listener := v |>).
Proof. exists v, (prot_listener t). unchanged t. Qed.

Lemma relisted_prot_listener v t : relisted t (t <| prot_listener := v |>).
Proof. exists (listener t), v. unchanged t. Qed.

Lemma relisted_if (b : bool) t t' : relisted t t' -> relisted t (if b then t' else t).
Proof. intros H. destruct b; [done|apply relisted_refl]. Qed.

Section Obliging.
Context {os : answers} (size : Z) (Hos : obliging os size).

Lemma call_ok c : (sys c <? 0) = false.
Proof. apply Z.ltb_ge, Hos. Qed.

Lemma call_known c : (sys c =? -1) = false.
Proof. apply Z.eqb_neq. pose proof (ob_calls _ _ Hos c). lia. Qed.

Lemma no_failure cleanup e k b : b = false -> when_failed b cleanup e k = k.
Proof. by intros ->. Qed.

Ltac oblige := repeat first
  [progress (unfold set_errno, got_block, free_blocks, freeaddrinfo, opened, close, shutdown, FD_CLR, FD_SET)
  |wp_step
  |rewrite no_failure by (rewrite ?(ob_lookup _ _ Hos), ?(ob_lookup_local _ _ Hos), ?call_ok, ?andb_false_r; done)
  |rewrite call_ok
  |progress change (negb (0 =? 0)) with false; cbv iota].

Lemma connects timeout : exists e, timeout_connect timeout = (0, e).
Proof.
  unfold timeout_connect. rewrite call_known, andb_false_r, (ob_connect _ _ Hos). cbn [Z.eqb negb andb]. rewrite call_known, andb_false_r. by eexists.
Qed.

Lemma dial_succeeds proto local bind_dev timeout p :
  wp (netdial proto local bind_dev 0 timeout) (fun r p' => r = sys Socket /\ p_test p' = p_test p) p.
Proof.
  unfold netdial, create_socket. cbv zeta. destruct (connects timeout) as [e ->]. destruct local; oblige; by split.
Qed.

Lemma announce_succeeds domain proto bind_dev p :
  wp (netannounce domain proto bind_dev) (fun r p' => r = sys Socket /\ p_test p' = p_test p) p.
Proof.
  unfold netannounce. cbv zeta. oblige. rewrite no_failure by (destruct (v6only domain); by rewrite ?call_ok). oblige. by split.
Qed.

Lemma udp_listen_succeeds domain bind_dev p :
  wp (iperf_udp_listen (netannounce domain Pudp bind_dev)) (fun r p' => 0 <= r /\ relisted (p_test p) (p_test p')) p.
Proof.
  unfold iperf_udp_listen. wp_step. eapply wp_mono; [apply announce_succeeds|]. intros r p' [-> E]. rewrite call_ok. wp_step. rewrite E. split; [apply Hos|apply relisted_refl].
Qed.

Lemma close_listener_keeps l p : wp (iperf_close_test_listener_socket l) (fun _ p' => relisted (p_test p) (p_test p')) p.
Proof.
  unfold iperf_close_test_listener_socket. destruct (l <? 0); [wp_step; apply relisted_refl|]. oblige. cbn [p_test update]. cbv zeta.
  eapply relisted_trans; [|apply relisted_if, relisted_prot_listener]. apply relisted_if, relisted_listener.
Qed.

Lemma buffers_ok undo t k : socket_bufsize (settings t) <= size -> check_buffers false undo t k = k.
Proof.
  intros Hb. assert (forall n, size <= n -> negb (socket_bufsize (settings t) =? 0) && (n <? socket_bufsize (settings t)) = false) as Hn.
  { intros n Hn. apply andb_false_iff. right. apply Z.ltb_ge. lia. }
  unfold check_buffers. cbv zeta. by rewrite !call_ok, !Hn by apply Hos.
Qed.

Lemma options_ok undo t k : set_tcp_options undo t k = k.
Proof.
  unfold set_tcp_options, set_buffers. rewrite !no_failure by (by rewrite call_ok, ?andb_false_r). by destruct (_ =? 0).
Qed.

Lemma sockopts_ok inet6 p : wp (iperf_common_sockopts inet6 (sys Set_tos)) (fun r p' => r = 0 /\ p' = p) p.
Proof. unfold iperf_common_sockopts. oblige. destruct (_ =? 0); oblige; done. Qed.

Lemma new_listener_succeeds domain p : wp (new_listener domain (p_test p)) (fun r p' => 0 <= r /\ relisted (p_test p) (p_test p')) p.
Proof.
  unfold new_listener. unfold FD_CLR. wp_step. wp_step. wp_step. eapply wp_mono; [apply close_listener_keeps|]. intros [] p1 H1.
  oblige. rewrite options_ok, no_failure by (by destruct (listen_v6only domain); rewrite ?call_ok).
  oblige. split; [apply Hos|]. eapply relisted_trans; [exact H1|apply relisted_listener].
Qed.

Lemma tcp_listen_succeeds domain p : 0 <= listener (p_test p) -> socket_bufsize (settings (p_test p)) <= size ->
  wp (iperf_tcp_listen domain) (fun r p' => 0 <= r /\ relisted (p_test p) (p_test p')) p.
Proof.
  intros Hl Hb. unfold iperf_tcp_listen. wp_step. wp_step. cbv zeta. match goal with |- context [if ?b then new_listener _ _ else _] => destruct b eqn:Hspecial end.
  - wp_step. eapply wp_mono; [apply new_listener_succeeds|]. intros r p1 [Hr H1]. rewrite (proj2 (Z.ltb_ge _ _)) by done. cbn [andb].
    rewrite buffers_ok by done. wp_step. eapply wp_mono; [apply sockopts_ok|]. intros v p' [-> ->]. cbn [Z.ltb Z.compare]. by wp_step.
  - wp_step. wp_step. cbn [andb]. rewrite buffers_ok by done. wp_step. eapply wp_mono; [apply sockopts_ok|]. intros v p' [-> ->]. cbn [Z.ltb Z.compare]. wp_step.
    split; [done|apply relisted_refl].
Qed.
End Obliging.

(** ** The two ends *)

Section Setup.
Context {crypto : cryptography} (mcc mcs : machine) (Hc : reliable (m_env mcc)) (Hs : reliable (m_env mcs)).

(** The test of a client that has connected: its socket and its block size. *)
Definition connected (p : peer) : iperf_test :=
  choose_block_size (segment_size (m_maxseg mcc (3 + pr_tick p))) ((peer_test p) <| ctrl_sck := sys (answers := m_answers mcc (1 + pr_tick p)) Socket |>).

Lemma cookie_length entropy : zlen entropy = COOKIE_SIZE -> zlen (make_cookie entropy) = COOKIE_SIZE.
Proof.
  unfold make_cookie, COOKIE_SIZE, zlen. intros H. rewrite length_app, length_fmap, length_firstn. cbn [length]. lia.
Qed.

Lemma chosen_socket k t : ctrl_sck (choose_block_size k t) = ctrl_sck t /\ role (choose_block_size k t) = role t.
Proof. unfold choose_block_size. cbv zeta. repeat case_match; done. Qed.

(** What the steps here read of a peer. *)
Definition visible (p : peer) := (peer_test p, peer_in p, peer_out p, pr_tick p, pr_cookie p).

Lemma dial_control_spec p : ctrl_sck (peer_test p) < 0 -> obliging (m_answers mcc (pr_tick p)) 0 ->
  wp (dial_control mcc) (fun s p' => s = sys (answers := m_answers mcc (pr_tick p)) Socket /\ 0 <= s /\
    visible p' = ((peer_test p) <| ctrl_sck := s |>, peer_in p, peer_out p, S (pr_tick p), pr_cookie p)) p.
Proof.
  intros Hsck Ha. unfold dial_control. wp_step. apply wp_gets. rewrite (proj2 (Z.ltb_lt _ _)) by done. apply wp_bind, wp_ask. wp_step. apply wp_on_process.
  eapply wp_mono; [by apply (dial_succeeds 0)|]. intros s q [-> E]. wp_step. apply wp_modify. rewrite (call_ok 0) by done. wp_step.
  split; [done|]. split; [apply Ha|]. set (s := sys Socket). unfold visible.
  match goal with |- (peer_test ?x, _, _, _, _) = _ => change (peer_test x) with ((p_test q) <| ctrl_sck := s |>) end. by rewrite E.
Qed.

Lemma visible_eq p t i o k c : visible p = (t, i, o, k, c) -> peer_test p = t /\ peer_in p = i /\ peer_out p = o /\ pr_tick p = k /\ pr_cookie p = c.
Proof. by intros [= -> -> -> -> ->]. Qed.

Lemma visible_asked p : visible (p <| pr_tick := S (pr_tick p) |>) = (peer_test p, peer_in p, peer_out p, S (pr_tick p), pr_cookie p).
Proof. done. Qed.
Lemma visible_changed f p : visible (with_test f p) = (f (peer_test p), peer_in p, peer_out p, pr_tick p, pr_cookie p).
Proof. done. Qed.
Lemma visible_processed q p : visible (with_process q p) = (p_test q, peer_in p, peer_out p, pr_tick p, pr_cookie p).
Proof. done. Qed.

(** Writing on the control connection. *)
Lemma control_write_spec m buf p : reliable (m_env m) -> zlen buf < 2 ^ 31 ->
  wp (on_control (Nwrite (e_os (m_env m)) buf)) (fun r p' => r = zlen buf /\
    visible p' = (peer_test p, peer_in p, peer_out p ++ buf, pr_tick p, pr_cookie p)) p.
Proof.
  intros Hm Hb. apply wp_on_control. eapply wp_mono; [apply Nwrite_prompt; [apply Hm|done]|]. intros r c (-> & Hi & Ho).
  split; [done|]. unfold visible. change (peer_in (with_channel c p)) with (ch_in c). change (peer_out (with_channel c p)) with (ch_out c). by rewrite Hi, Ho.
Qed.

Lemma connect_spec p (Ha : forall k, obliging (m_answers mcc k) 0) (Ho : forall k, m_setsockopt mcc k = 0) (He : forall k, zlen (m_entropy mcc k) = COOKIE_SIZE) :
  ctrl_sck (peer_test p) < 0 ->
  wp (iperf_connect mcc) (fun r p' => r = 0 /\ exists cookie, zlen cookie = COOKIE_SIZE /\
    visible p' = (connected p, peer_in p, peer_out p ++ cookie, (4 + pr_tick p)%nat, cookie)) p.
Proof.
  intros Hsck. unfold iperf_connect. wp_step. apply wp_modify. apply wp_bind, wp_ask. wp_step. apply wp_modify.
  set (cookie := make_cookie _). assert (zlen cookie = COOKIE_SIZE) as Hcookie by apply cookie_length, He.
  match goal with |- wp _ _ ?x => set (p1 := x) end. assert (visible p1 = (peer_test p, peer_in p, peer_out p, S (pr_tick p), cookie)) as V1 by done.
  clearbody p1. apply visible_eq in V1 as (T1 & I1 & O1 & K1 & C1).
  wp_step. eapply wp_mono; [apply dial_control_spec; [by rewrite T1|apply Ha]|]. rewrite T1, I1, O1, K1, C1. intros s p2 (Es & Hs0 & (T2 & I2 & O2 & K2 & C2)%visible_eq).
  rewrite (proj2 (Z.ltb_ge _ _)) by done. apply wp_bind, wp_ask. rewrite Ho. cbn [Z.eqb negb]. wp_step. apply wp_gets.
  match goal with |- wp _ _ ?x => set (p3 := x) end. assert (visible p3 = (peer_test p2, peer_in p2, peer_out p2, S (pr_tick p2), pr_cookie p2)) as V3 by done.
  clearbody p3. apply visible_eq in V3 as (T3 & I3 & O3 & K3 & C3). rewrite C3, C2.
  wp_step. eapply wp_mono; [apply control_write_spec; [exact Hc|by rewrite Hcookie]|]. intros r p4 [-> (T4 & I4 & O4 & K4 & C4)%visible_eq].
  rewrite (proj2 (Z.ltb_ge _ _)) by apply zlen_nonneg. wp_step. apply wp_on_process. unfold FD_SET. wp_step.
  match goal with |- wp _ _ ?x => set (p5 := x) end. assert (visible p5 = visible p4) as V5 by done. clearbody p5. apply visible_eq in V5 as (T5 & I5 & O5 & K5 & C5).
  apply wp_bind, wp_ask. wp_step. apply wp_modify. wp_step. split; [done|]. exists cookie. split; [done|].
  assert (pr_tick p5 = (3 + pr_tick p)%nat) as K by (rewrite K5, K4, K3, K2; lia). rewrite K.
  transitivity (choose_block_size (segment_size (m_maxseg mcc (3 + pr_tick p))) (peer_test p5), peer_in p5, peer_out p5, (4 + pr_tick p)%nat, pr_cookie p5); [done|].
  rewrite T5, T4, T3, T2, I5, I4, I3, I2, O5, O4, O3, O2, C5, C4, C3, C2, Es. done.
Qed.

(** ** The parameters *)

(** What the client encodes its credentials with. *)
Definition client_encoding (k : nat) : text -> text -> option text := encode_token mcc (m_auth mcc k).

(** A client whose parameters the exchange carries over. *)
Record prepared (encode : text -> text -> option text) (c : iperf_test) : Prop := mk_prepared {
  pp_sendable : sendable encode c;
  pp_protocol : protocol c = Ptcp \/ protocol c = Pudp;
  pp_block : block_ok c;
  pp_size : parameters_size encode c <= MAX_PARAMS_JSON_STRING;
  pp_affinity : server_affinity c = -1 }.

Lemma send_side_spec k p : prepared (client_encoding k) (peer_test p) ->
  wp (on_side (send_parameters_side mcc (m_auth mcc k))) (fun r p' => r = 0 /\
    visible p' = (store_token (client_encoding k) (peer_test p), peer_in p, peer_out p ++ parameters_frame (client_encoding k) (peer_test p), pr_tick p, pr_cookie p)) p.
Proof.
  intros [Hsend Hp Hb Hsize _]. apply wp_on_side. unfold wp, send_parameters_side.
  destruct (wp_returns _ _ _ (parameters_sent (e_os (m_env mcc)) (client_encoding k) (peer_test p) (e_alloc (m_env mcc)) (e_reallocate (m_env mcc))
    (x_nalloc (in_exchange (sd_incoming (pr_side p)))) (sd_channel (pr_side p)) (rl_os _ Hc) (rl_alloc _ Hc) Hsend Hp Hsize)) as (r & ch & E & -> & Hi & Ho).
  change (x_test (in_exchange (sd_incoming (pr_side p)))) with (peer_test p). unfold client_encoding in E. rewrite E. split; [done|]. unfold visible, peer_in, peer_out. rewrite <- Hi, <- Ho. done.
Qed.

(** A server without limits and without authentication. *)
Record welcoming (s : iperf_test) : Prop := mk_welcoming {
  wl_tcp : Ptcp ∈ protocols s;
  wl_udp : Pudp ∈ protocols s;
  wl_file : diskfile_name s = None;
  wl_duration : max_server_duration s = 0;
  wl_bitrate : bitrate_limit (settings s) = 0 }.

Lemma get_side_spec encode c s l sck v rest p : prepared encode c -> welcoming s -> peer_test p = at_state l sck v (iperf_reset_test s) ->
  peer_in p = parameters_frame encode c ++ rest ->
  wp (on_side (get_parameters_side mcs)) (fun r p' => r = 0 /\ exists t, visible p' = (t, rest, peer_out p, pr_tick p, pr_cookie p) /\
    mirrors c s t /\ listener t = l /\ ctrl_sck t = sck /\ role t = role_server) p.
Proof.
  intros [Hsend Hp Hb Hsize _] [] Ht Hin. apply wp_on_side. unfold wp, get_parameters_side. rewrite (rl_calloc _ Hs).
  destruct (wp_returns _ _ _ (parameters_taken (e_os (m_env mcs)) encode c s l sck v (e_parse (m_env mcs)) (e_alloc (m_env mcs)) (sd_channel (pr_side p)) (in_exchange (sd_incoming (pr_side p))) rest
    (rl_os _ Hs) (rl_parse _ Hs) (rl_alloc _ Hs) Hsend Hp Hb Hsize ltac:(done) ltac:(done) ltac:(done) ltac:(done) ltac:(done) Ht Hin)) as (r & [ch x] & E & -> & Hi & Ho & Hm & Hl & Hk & _ & Hr).
  rewrite E. split; [done|]. exists (x_test x). cbn [fst snd] in *. split; [|done]. unfold visible, peer_in, peer_out. rewrite <- Hi, <- Ho. done.
Qed.

(** ** The client *)

(** It connects, and answers the first message. *)
Definition client_setup (create : PM Z) : SeM (list Z) :=
  r0 <- on_peer (iperf_connect mcc) ;;
  r1 <- iperf_handle_message_client mcc create ;;
  ret [r0; r1].

(** Its test when it sends the parameters. *)
Definition offered (p : peer) : iperf_test := (connected p) <| state := PARAM_EXCHANGE |>.
Definition encoding_of (p : peer) : text -> text -> option text := client_encoding (4 + pr_tick p).

Lemma offered_role p : role (offered p) = role (peer_test p).
Proof.
  change (role (connected p) = role ((peer_test p) <| ctrl_sck := sys (answers := m_answers mcc (1 + pr_tick p)) Socket |>)). apply chosen_socket.
Qed.

(** The client's calls succeed. *)
Record able (mc : machine) : Prop := mk_able {
  ab_calls : forall k, obliging (m_answers mc k) 0;
  ab_options : forall k, m_setsockopt mc k = 0;
  ab_entropy : forall k, zlen (m_entropy mc k) = COOKIE_SIZE }.

Lemma client_setup_spec create s rest (Hable : able mcc) :
  ctrl_sck (peer_test (world s)) < 0 -> role (peer_test (world s)) = role_client -> prepared (encoding_of (world s)) (offered (world s)) ->
  peer_in (world s) = u8 PARAM_EXCHANGE :: rest -> peer_out (world s) = [] ->
  wp (client_setup create) (fun r s' => r = [0; 0] /\ exists cookie k, zlen cookie = COOKIE_SIZE /\
    visible (world s') = (store_token (encoding_of (world s)) (offered (world s)), rest, cookie ++ parameters_frame (encoding_of (world s)) (offered (world s)), k, cookie)) s.
Proof.
  intros Hsck Hrole Hprep Hin Hout. destruct Hable as [Ha Ho He]. unfold client_setup. wp_step. apply wp_on_peer.
  eapply wp_mono; [by apply connect_spec|]. intros r p1 (-> & cookie & Hcookie & (T1 & I1 & O1 & K1 & C1)%visible_eq). rewrite Hin in I1. rewrite Hout in O1.
  wp_step. eapply message_client_spec; [apply Hc|exact I1|split; [|reflexivity]; by vm_compute|]. intros c Hi Hcout. cbn [world heap timers free_timers] in *. rewrite O1 in Hcout.
  match goal with |- context [mk_tstate _ _ _ ?x] => set (p2 := x) end.
  assert (visible p2 = ((peer_test p1) <| state := PARAM_EXCHANGE |>, ch_in c, ch_out c, pr_tick p1, pr_cookie p1)) as V2 by done. clearbody p2.
  rewrite T1, Hi, Hcout, K1, C1 in V2. apply visible_eq in V2 as (T2 & I2 & O2 & K2 & C2). change (connected (world s)) <| state := PARAM_EXCHANGE |> with (offered (world s)) in T2.
  unfold iperf_react_client. cbn [Z.eqb Pos.eqb PARAM_EXCHANGE]. wp_step. apply wp_on_peer. unfold iperf_exchange_parameters. wp_step. apply wp_get.
  cbn [world]. rewrite T2. assert (role (offered (world s)) = role_client) as -> by (by rewrite offered_role).
  change (role_client =? role_client) with true. cbv iota. apply wp_bind, wp_ask. rewrite K2.
  match goal with |- wp _ _ ?x => set (p3 := x) end. assert (visible p3 = (peer_test p2, peer_in p2, peer_out p2, (5 + pr_tick (world s))%nat, pr_cookie p2)) as V3 by done.
  clearbody p3. apply visible_eq in V3 as (T3 & I3 & O3 & K3 & C3).
  wp_step. eapply wp_mono; [apply (send_side_spec (4 + pr_tick (world s))); rewrite T3, T2; exact Hprep|]. intros r p4 [-> V4].
  cbn [Z.ltb Z.compare]. wp_step. cbn [Z.ltb Z.compare]. wp_step. apply wp_on_peer, wp_modify. wp_step. wp_step.
  split; [done|]. exists cookie, (pr_tick p4). split; [done|]. cbn [world].
  match goal with |- visible ?x = _ => change (visible x) with (visible p4) end. rewrite V4, T3, T2, I3, I2, O3, O2, C3, C2. apply visible_eq in V4 as (_ & _ & _ & -> & _). done.
Qed.

(** ** The server *)

Lemma send_state_visible v p : 0 <= ctrl_sck (peer_test p) ->
  wp (iperf_set_send_state mcs v) (fun r p' => r = 0 /\
    visible p' = ((peer_test p) <| state := v |>, peer_in p, peer_out p ++ [u8 v], pr_tick p, pr_cookie p)) p.
Proof.
  intros Hsck. eapply wp_mono; [by apply send_state_spec; [apply Hs|]|]. intros r p' (-> & c & -> & Hi & Ho). split; [done|].
  unfold visible. change (peer_in (with_channel c _)) with (ch_in c). change (peer_out (with_channel c _)) with (ch_out c). rewrite Hi, Ho. done.
Qed.

Lemma mirrors_relisted c s t t' : relisted t t' -> mirrors c s t -> mirrors c s t'.
Proof. intros (l & pl & ->) []. by split. Qed.

Lemma mirrors_state c s t v : mirrors c s t -> mirrors c s (t <| state := v |>).
Proof. intros []. by split. Qed.

Lemma listen_spec k t p : obliging (m_answers mcs k) (socket_bufsize (settings t)) -> p_test p = t -> 0 <= listener t -> forall domain,
  wp (protocol_listen mcs (m_answers mcs k) domain t) (fun r q => 0 <= r /\ relisted t (p_test q)) p.
Proof.
  intros Ha <- Hl domain. unfold protocol_listen. destruct (_ =? Ptcp).
  - by eapply tcp_listen_succeeds.
  - by eapply udp_listen_succeeds.
Qed.

Lemma at_state_fields l sck v t : role (at_state l sck v t) = role t /\ ctrl_sck (at_state l sck v t) = sck.
Proof. done. Qed.

Lemma at_state_again l sck v w t : (at_state l sck v t) <| state := w |> = at_state l sck w t.
Proof. done. Qed.

Lemma at_state_connected l sck v fd t : (at_state l sck v t) <| ctrl_sck := fd |> = at_state l fd v t.
Proof. done. Qed.

Lemma reset_role l sck v s : Ptcp ∈ protocols s -> role (at_state l sck v (iperf_reset_test s)) = role_server.
Proof. intros Hp. rewrite (proj1 (at_state_fields _ _ _ _)). destruct (reset_retransmits s Hp) as (a & g & -> & _). reflexivity. Qed.

(** The server takes the parameters and listens for the streams. *)
Lemma exchange_spec encode c s l sck v rest p (Ha : forall k, obliging (m_answers mcs k) (socket_bufsize (settings c))) :
  prepared encode c -> welcoming s -> peer_test p = at_state l sck v (iperf_reset_test s) -> 0 <= l -> 0 <= sck ->
  server_rsa_private_key (m_authorization mcs) = false -> server_authorized_users (m_authorization mcs) = None ->
  peer_in p = parameters_frame encode c ++ rest ->
  wp (iperf_exchange_parameters mcs) (fun r p' => r = 0 /\ exists t k, visible p' = (t, rest, peer_out p ++ [u8 CREATE_STREAMS], k, pr_cookie p) /\
    mirrors c s t /\ state t = CREATE_STREAMS /\ 0 <= prot_listener t) p.
Proof.
  intros Hprep Hwel Ht Hl Hsck Hkey Husers Hin. unfold iperf_exchange_parameters. wp_step. apply wp_get. rewrite Ht.
  rewrite reset_role by apply Hwel.
  change (role_server =? role_client) with false. cbv iota.
  wp_step. eapply wp_mono; [by apply (get_side_spec encode c s l sck v rest)|]. intros r p1 (-> & t & (T1 & I1 & O1 & K1 & C1)%visible_eq & Hm & El & Ek & Er). cbn [Z.ltb Z.compare].
  wp_step. unfold wp at 1, authorize. unfold test_is_authorized. rewrite Hkey, Husers. cbn [Z.ltb Z.compare].
  match goal with |- wp _ _ ?x => set (p2 := x) end. assert (visible p2 = (peer_test p1, peer_in p1, peer_out p1, S (pr_tick p1), pr_cookie p1)) as V2 by exact (visible_asked p1).
  clearbody p2. apply visible_eq in V2 as (T2 & I2 & O2 & K2 & C2). apply wp_bind, wp_ask. wp_step. apply wp_get. wp_step. apply wp_on_process.
  match goal with |- wp _ _ (process_of ?x) => set (p3 := x) end. assert (visible p3 = (peer_test p2, peer_in p2, peer_out p2, S (pr_tick p2), pr_cookie p2)) as V3 by exact (visible_asked p2).
  clearbody p3. apply visible_eq in V3 as (T3 & I3 & O3 & K3 & C3). rewrite T3, T2, T1.
  eapply wp_mono; [apply (listen_spec (pr_tick p2) t); [|change (peer_test p3 = t); congruence|by rewrite El]|].
  { destruct (m_sizes _ _ _ Hm) as (_ & -> & _). apply Ha. }
  intros ls q [Hls Hq]. rewrite (proj2 (Z.ltb_ge _ _)) by done.
  match goal with |- wp _ _ ?x => set (p4 := x) end. pose proof (visible_processed q p3) as V4. fold p4 in V4. clearbody p4. apply visible_eq in V4 as (T4 & I4 & O4 & K4 & C4).
  wp_step. apply wp_on_process. unfold FD_SET. wp_step.
  match goal with |- context [with_process ?x p4] => set (q5 := x) end. assert (p_test q5 = peer_test p4) as T5 by done. clearbody q5.
  match goal with |- wp _ _ ?x => set (p5 := x) end. pose proof (visible_processed q5 p4) as V5. fold p5 in V5. clearbody p5. apply visible_eq in V5 as (T6 & I6 & O6 & K6 & C6).
  wp_step. apply wp_modify.
  match goal with |- wp _ _ ?x => set (p6 := x) end. pose proof (visible_changed (fun t => t <| prot_listener := ls |>) p5) as V6. fold p6 in V6. clearbody p6.
  apply visible_eq in V6 as (T7 & I7 & O7 & K7 & C7). rewrite T6, T5, T4 in T7.
  assert (relisted t (peer_test p6)) as Hr by (rewrite T7; eapply relisted_trans; [exact Hq|apply relisted_prot_listener]).
  assert (ctrl_sck (peer_test p6) = sck) as Esck by (destruct Hr as (? & ? & ->); exact Ek).
  wp_step. eapply wp_mono; [apply send_state_visible; by rewrite Esck|]. intros r p7 [-> V]. cbn [Z.eqb negb]. wp_step. split; [done|].
  exists ((peer_test p6) <| state := CREATE_STREAMS |>), (pr_tick p6). rewrite V. split; [congruence|].
  split; [by apply mirrors_state, (mirrors_relisted c s t)|]. split; [done|]. change (0 <= prot_listener (peer_test p6)). rewrite T7. exact Hls.
Qed.

Lemma read_cookie_spec cookie rest p : peer_in p = cookie ++ rest -> zlen cookie = COOKIE_SIZE ->
  wp (on_control (Nread (e_os (m_env mcs)) COOKIE_SIZE)) (fun r p' => r = (COOKIE_SIZE, cookie) /\
    visible p' = (peer_test p, rest, peer_out p, pr_tick p, pr_cookie p)) p.
Proof.
  intros Hin Hz. rewrite <- Hz. eapply wp_mono; [apply (control_read_spec mcs (rl_os _ Hs) cookie rest p Hin); by rewrite Hz|].
  intros r p' (-> & c & -> & Hi & Ho). split; [done|]. rewrite app_nil_r in Ho. unfold visible.
  change (peer_in (with_channel c p)) with (ch_in c). change (peer_out (with_channel c p)) with (ch_out c). by rewrite Hi, Ho.
Qed.

(** A server that waits for a client accepts this one. *)
Lemma accepted_spec encode c s l v cookie rest p (Ha : forall k, obliging (m_answers mcs k) (socket_bufsize (settings c))) (Ho : forall k, m_setsockopt mcs k = 0) :
  prepared encode c -> welcoming s -> peer_test p = at_state l (-1) v (iperf_reset_test s) -> 0 <= l ->
  server_rsa_private_key (m_authorization mcs) = false -> server_authorized_users (m_authorization mcs) = None ->
  peer_in p = cookie ++ parameters_frame encode c ++ rest -> zlen cookie = COOKIE_SIZE ->
  wp (iperf_accept mcs) (fun r p' => r = 0 /\ exists t k, visible p' = (t, rest, peer_out p ++ [u8 PARAM_EXCHANGE; u8 CREATE_STREAMS], k, cookie ++ drop (length cookie) (pr_cookie p)) /\
    mirrors c s t /\ state t = CREATE_STREAMS /\ 0 <= prot_listener t) p.
Proof.
  intros Hprep Hwel Ht Hl Hkey Husers Hin Hcookie. unfold iperf_accept. apply wp_bind, wp_ask. cbv zeta. set (fd := sys (answers := m_answers mcs (pr_tick p)) Accept).
  assert (0 <= fd) as Hfd by apply (Ha (pr_tick p)). rewrite (proj2 (Z.ltb_ge fd 0)) by done. rewrite (call_ok _ (Ha (pr_tick p))).
  match goal with |- wp _ _ ?x => set (p1 := x) end. pose proof (visible_asked p) as V1. fold p1 in V1. clearbody p1. apply visible_eq in V1 as (T1 & I1 & O1 & K1 & C1).
  wp_step. apply wp_on_process. unfold opened. wp_step.
  match goal with |- context [with_process ?x p1] => set (q2 := x) end. assert (p_test q2 = peer_test p1) as Eq by done. clearbody q2.
  match goal with |- wp _ _ ?x => set (p2 := x) end. pose proof (visible_processed q2 p1) as V2. fold p2 in V2. clearbody p2. apply visible_eq in V2 as (T2 & I2 & O2 & K2 & C2).
  wp_step. apply wp_get. rewrite T2, Eq, T1, Ht, (proj2 (at_state_fields _ _ _ _)). change (-1 =? -1) with true. cbv iota.
  unfold welcome. wp_step. apply wp_modify.
  match goal with |- wp _ _ ?x => set (p3 := x) end. pose proof (visible_changed (fun t => t <| ctrl_sck := fd |>) p2) as V3. fold p3 in V3. clearbody p3.
  apply visible_eq in V3 as (T3 & I3 & O3 & K3 & C3). cbv beta in T3. rewrite T2, Eq, T1, Ht, at_state_connected in T3.
  apply wp_bind, wp_ask. rewrite Ho. cbn [Z.eqb negb].
  match goal with |- wp _ _ ?x => set (p4 := x) end. pose proof (visible_asked p3) as V4. fold p4 in V4. clearbody p4. apply visible_eq in V4 as (T4 & I4 & O4 & K4 & C4).
  wp_step. eapply wp_mono; [apply (read_cookie_spec cookie (parameters_frame encode c ++ rest)); [congruence|done]|].
  intros r p5 [-> (T5 & I5 & O5 & K5 & C5)%visible_eq]. cbn [fst snd]. change (COOKIE_SIZE =? COOKIE_SIZE) with true. cbn [negb].
  wp_step. apply wp_modify.
  match goal with |- wp _ _ ?x => set (p6 := x) end.
  assert (visible p6 = (peer_test p5, peer_in p5, peer_out p5, pr_tick p5, cookie ++ drop (length cookie) (pr_cookie p5))) as V6 by done. clearbody p6.
  apply visible_eq in V6 as (T6 & I6 & O6 & K6 & C6).
  wp_step. apply wp_on_process. unfold FD_SET. wp_step.
  match goal with |- context [with_process ?x p6] => set (q7 := x) end. assert (p_test q7 = peer_test p6) as Eq7 by done. clearbody q7.
  match goal with |- wp _ _ ?x => set (p7 := x) end. pose proof (visible_processed q7 p6) as V7. fold p7 in V7. clearbody p7. apply visible_eq in V7 as (T7 & I7 & O7 & K7 & C7).
  assert (peer_test p7 = at_state l fd v (iperf_reset_test s)) as T by congruence.
  wp_step. eapply wp_mono; [apply send_state_visible; by rewrite T, (proj2 (at_state_fields _ _ _ _))|]. intros r p8 [-> (T8 & I8 & O8 & K8 & C8)%visible_eq]. cbn [Z.eqb negb].
  assert (peer_test p8 = at_state l fd PARAM_EXCHANGE (iperf_reset_test s)) as T'.
  { rewrite T8, T. apply at_state_again. }
  wp_step. eapply wp_mono; [apply (exchange_spec encode c s l fd PARAM_EXCHANGE rest); try done; congruence|]. intros r p9 (-> & t & k & (T9 & I9 & O9 & K9 & C9)%visible_eq & Hm & Hstate & Hpl).
  cbn [Z.ltb Z.compare]. wp_step. apply wp_get. assert (server_affinity (peer_test p9) = -1) as ->.
  { rewrite T9, (m_affinity _ _ _ Hm). apply (pp_affinity _ _ Hprep). }
  change (-1 =? -1) with true. cbn [negb]. wp_step. apply wp_modify. wp_step. split; [done|]. exists t, k. split; [|done].
  match goal with |- visible ?x = _ => change (visible x) with (visible p9) end. unfold visible.
  rewrite T9, I9, O9, K9, C9, C8, C7, C6, C5, C4, C3, C2, C1, O8, O7, O6, O5, O4, O3, O2, O1, <- app_assoc. done.
Qed.
End Setup.

(** C11: client and server set a test up on the two ends of one connection: the
    client connects, sends its cookie and, asked for them, its parameters; a
    server that is reset and listening takes them over, listens for the streams
    and answers with [CREATE_STREAMS].  No call fails, the server has the
    client's cookie, so that it takes the client's data connections, its test
    mirrors the client's, and [CREATE_STREAMS] is all that is left to read. *)
Theorem test_set_up {crypto : cryptography} mcc mcs create sc ps s l v
    (Hc : reliable (m_env mcc)) (Hs : reliable (m_env mcs)) (Hable : able mcc) (Ho : forall k, m_setsockopt mcs k = 0)
    (Ha : forall k, obliging (m_answers mcs k) (socket_bufsize (settings (offered mcc (world sc)))))
    (Hsck : ctrl_sck (peer_test (world sc)) < 0) (Hrole : role (peer_test (world sc)) = role_client)
    (Hprep : prepared (encoding_of mcc (world sc)) (offered mcc (world sc)))
    (Hwel : welcoming s) (Hps : peer_test ps = at_state l (-1) v (iperf_reset_test s)) (Hl : 0 <= l)
    (Hkey : server_rsa_private_key (m_authorization mcs) = false) (Husers : server_authorized_users (m_authorization mcs) = None) :
  exists sc' ps', client_setup mcc create (mk_tstate (heap sc) (timers sc) (free_timers sc) (resumed (peer_out ps') (world sc))) = Ret ([0; 0], sc') /\
    iperf_accept mcs (resumed (peer_out (world sc')) ps) = Ret (0, ps') /\
    firstn (Z.to_nat COOKIE_SIZE) (pr_cookie ps') = pr_cookie (world sc') /\
    (forall a : answers, cookie_read (answers := a) = pr_cookie (world sc') -> same_cookie (pr_cookie ps') = true) /\
    mirrors (offered mcc (world sc)) s (peer_test ps') /\ state (peer_test ps') = CREATE_STREAMS /\ 0 <= prot_listener (peer_test ps') /\
    peer_in (world sc') = [u8 CREATE_STREAMS].
Proof.
  set (out := [u8 PARAM_EXCHANGE; u8 CREATE_STREAMS]). set (s0 := mk_tstate (heap sc) (timers sc) (free_timers sc) (resumed out (world sc))).
  destruct (wp_returns _ _ _ (client_setup_spec mcc Hc create s0 [u8 CREATE_STREAMS] Hable Hsck Hrole Hprep eq_refl eq_refl))
    as (r & sc' & Ec & -> & cookie & k & Hcookie & (_ & Hi & Hout & _ & Hck)%visible_eq).
  change (offered mcc (world s0)) with (offered mcc (world sc)) in Hout. change (encoding_of mcc (world s0)) with (encoding_of mcc (world sc)) in Hout.
  destruct (wp_returns _ _ _ (accepted_spec mcs Hs (encoding_of mcc (world sc)) (offered mcc (world sc)) s l v cookie [] (resumed (peer_out (world sc')) ps)
    Ha Ho Hprep Hwel Hps Hl Hkey Husers ltac:(rewrite app_nil_r; exact Hout) Hcookie)) as (r & ps' & Es & -> & t & k' & (Ht & _ & Hout' & _ & Hck')%visible_eq & Hm & Hst & Hpl).
  exists sc', ps'. rewrite Hout', Ht. split; [exact Ec|]. split; [exact Es|].
  assert (firstn (Z.to_nat COOKIE_SIZE) (pr_cookie ps') = pr_cookie (world sc')) as Heq.
  { assert (length cookie = Z.to_nat COOKIE_SIZE) as El by (unfold zlen in Hcookie; lia). by rewrite Hck', Hck, <- El, take_app_length. }
  split; [exact Heq|]. split; [|done]. intros a Hread. unfold same_cookie. rewrite Heq, Hread, bool_decide_eq_true, Hck, firstn_all2; [done|]. unfold zlen in Hcookie. lia.
Qed.

(** ** An example *)

Lemma working_obliging size : size <= 262144 -> obliging working size.
Proof. intros H. split; try done. intros []; done. Qed.

Lemma sample_able : able sample_machine.
Proof. split; [intros k; by apply working_obliging|done..]. Qed.

Definition caller : peer := with_test (fun _ => sample_client) client_peer.
Definition caller_test : iperf_test := Eval vm_compute in offered sample_machine caller.
Lemma caller_offers : offered sample_machine caller = caller_test.
Proof. by vm_compute. Qed.

Lemma caller_sendable encode : sendable encode caller_test.
Proof.
  constructor; lazymatch goal with
    | |- Forall _ _ => idtac
    | |- in_range _ => constructor; vm_compute; by split
    | |- _ <> _ => done
    | |- _ => vm_compute; by split
    end.
  repeat first [apply Forall_nil_2|apply Forall_cons_2]; try apply utf8_text_nil. apply ascii_text. repeat constructor; lia.
Qed.

Lemma caller_size encode : parameters_size encode caller_test <= MAX_PARAMS_JSON_STRING.
Proof. apply Z.leb_le. vm_compute. reflexivity. Qed.

Lemma caller_prepared : prepared (encoding_of (crypto := sample_cryptography) sample_machine caller) (offered sample_machine caller).
Proof.
  rewrite caller_offers. split; [apply caller_sendable|by left| |apply caller_size|done]. left. vm_compute. by split.
Qed.

Definition plain : iperf_test := iperf_defaults iperf_new_test.
Definition host : peer := with_test (fun _ => at_state 4 (-1) IPERF_START (iperf_reset_test plain)) server_peer.

Lemma plain_welcoming : welcoming plain.
Proof. split; [by left|right; by left|done..]. Qed.

Lemma caller_buffers : socket_bufsize (settings (offered sample_machine caller)) <= 262144.
Proof. rewrite caller_offers. vm_compute. discriminate. Qed.

Lemma caller_role : ctrl_sck (peer_test caller) < 0 /\ role (peer_test caller) = role_client.
Proof. by vm_compute. Qed.

Lemma test_set_up_witness :
  exists sc' ps', client_setup (crypto := sample_cryptography) sample_machine (ret 0) (mk_tstate ∅ None None (resumed (peer_out ps') caller)) = Ret ([0; 0], sc') /\
    iperf_accept (crypto := sample_cryptography) sample_machine (resumed (peer_out (world sc')) host) = Ret (0, ps') /\
    firstn (Z.to_nat COOKIE_SIZE) (pr_cookie ps') = pr_cookie (world sc') /\
    (forall a : answers, cookie_read (answers := a) = pr_cookie (world sc') -> same_cookie (pr_cookie ps') = true) /\
    mirrors (offered sample_machine caller) plain (peer_test ps') /\ state (peer_test ps') = CREATE_STREAMS /\ 0 <= prot_listener (peer_test ps') /\
    peer_in (world sc') = [u8 CREATE_STREAMS].
Proof.
  destruct caller_role as [Hk Hr].
  exact (test_set_up (crypto := sample_cryptography) sample_machine sample_machine (ret 0) (sample_session caller) host plain 4 IPERF_START
    sample_reliable sample_reliable sample_able (fun _ => eq_refl) (fun _ => working_obliging _ caller_buffers) Hk Hr caller_prepared plain_welcoming eq_refl
    ltac:(lia) eq_refl eq_refl).
Defined.

(** A server that ends a running test with [IPERF_DONE] makes the client return
    as if the test was over; the workers of the streams that send are not
    stopped, and their streams not marked. *)
Definition sending_client : peer :=
  (with_test (fun t => t <| state := TEST_RUNNING |> <| streams := [(sample_end true 1) <| thread_created := 1 |>] |>) client_peer) <| pr_threads := [1] |>.

Definition rest_of_run : part unit :=
  _ <~ client_loop (crypto := sample_cryptography) (machine_where (mk_selection 1 0 [3]) (fun t => t)) 2 (mk_client false 0 None (Some (sample_clock 0)) 0) ;;
  stop_workers (machine_where (mk_selection 1 0 [3]) (fun t => t)) false.

Definition left_running (r : outcome ((unit + Z) * session)) : option (bool * list Z * list Z) :=
  match r with
  | Ret (v, s) => Some (match v with inl _ => true | inr _ => false end, pr_threads (world s), stream_done <$> streams (peer_test (world s)))
  | _ => None
  end.

Example early_end : left_running (rest_of_run (sample_session (resumed [u8 IPERF_DONE] sending_client))) = Some (true, [1], [0]).
Proof. vm_compute. reflexivity. Qed.
