(* ===== verification/ServerSpec.v ===== *)
(** * Runs of the server

    Whatever the system answers and the client sends: [cleanup_server] stops the
    workers, closes every descriptor of the test and cancels its timers; a run
    that returns has done so; [select] never waits for more than a second; and a
    server nobody calls returns when its idle timeout has passed. *)

From S2P Require Import Prelude Bytes Time Timer Double CJson IperfTest ControlChannel ControlChannelSpec BoundedOutput OutputBudget Params Results ResultsTrip.
From S2P Require Import Streams StreamsSpec Connect Measure Auth AuthSpec Session Server SessionSpec.
Local Open Scope c_scope.

(** ** What a peer holds *)

Definition holdings (p : peer) := (pr_fds p, pr_threads p, (timer p, stats_timer p, reporter_timer p, omit_timer p),
  (streams (peer_test p), ctrl_sck (peer_test p), listener (peer_test p), prot_listener (peer_test p))).

Definition same_holdings (p p' : peer) : Prop := holdings p' = holdings p.

Fixpoint drop_all (xs l : list Z) : list Z :=
  match xs with
  | [] => l
  | x :: xs => drop_all xs (without x l)
  end.

Lemma drop_all_app xs ys l : drop_all (xs ++ ys) l = drop_all ys (drop_all xs l).
Proof. revert l. induction xs as [|x xs IH]; intros l; cbn; [done|apply IH]. Qed.

Lemma without_perm x l l' : l ≡ₚ x :: l' -> without x l ≡ₚ l'.
Proof.
  revert l'. induction l as [|y l IH]; intros l' E; [by apply Permutation_nil_cons in E|]. cbn [without]. destruct (Z.eqb_spec y x) as [->|Hn]; [by apply Permutation_cons_inv in E|].
  assert (y ∈ l') as Hy. { assert (y ∈ x :: l') as H by (rewrite <- E; left). apply elem_of_cons in H as [->|H]; done. }
  apply list_elem_of_split in Hy as (k1 & k2 & ->). rewrite <- Permutation_middle in *. constructor. apply IH.
  apply (Permutation_cons_inv (a := y)). rewrite E. constructor.
Qed.

Lemma drop_all_perm xs l rest : l ≡ₚ xs ++ rest -> drop_all xs l ≡ₚ rest.
Proof. revert l. induction xs as [|x xs IH]; intros l E; [done|]. cbn [drop_all]. apply IH, without_perm, E. Qed.

(** Writing returns, whatever the system answers. *)
Lemma nwrite_returns os fuel count : forall rest c, (length rest <= fuel)%nat -> wp (nwrite_loop os fuel count rest) (fun _ _ => True) c.
Proof.
  induction fuel as [|fuel IH]; intros [|b rest] c Hf; cbn [nwrite_loop]; try (by wp_step); [simpl in Hf; lia|].
  apply call_bind. intros c' _. destruct (os_write os (ch_calls c)) as [n|e]; repeat (case_match; try by wp_step).
  wp_step. unfold wp at 1, put_out. apply IH. rewrite length_drop. apply Z.eqb_neq in H. simpl in *. lia.
Qed.

Lemma Nwrite_returns os buf c : wp (Nwrite os buf) (fun _ _ => True) c.
Proof. by apply nwrite_returns. Qed.

Section Cleanup.
Context {crypto : cryptography} (mc : machine).

Lemma send_state_holds v p : wp (iperf_set_send_state mc v) (fun _ p' => same_holdings p p') p.
Proof.
  unfold iperf_set_send_state. wp_step. apply wp_get. destruct (0 <=? _); [|by wp_step]. wp_step. apply wp_modify. apply wp_bind, wp_on_control.
  eapply wp_mono; [apply Nwrite_returns|]. intros r c _. destruct (r <? 0); [wp_step; apply wp_modify|]; by wp_step.
Qed.

Lemma send_number_holds v p : wp (send_number mc v) (fun _ p' => same_holdings p p') p.
Proof. apply wp_on_control. eapply wp_mono; [apply Nwrite_returns|]. by intros r c _. Qed.

Lemma same_trans p1 p2 p3 : same_holdings p1 p2 -> same_holdings p2 p3 -> same_holdings p1 p3.
Proof. unfold same_holdings. congruence. Qed.

Lemma report_holds p : wp (report_error mc) (fun _ p' => same_holdings p p') p.
Proof.
  unfold report_error. wp_step. apply wp_get. destruct (_ && _); [|by wp_step]. wp_step. eapply wp_mono; [apply send_state_holds|]. intros r p1 H1.
  destruct (r =? 0); [|by wp_step]. wp_step. wp_step. wp_step. eapply wp_mono; [apply send_number_holds|]. intros r2 p2 H2.
  pose proof (same_trans _ _ _ H1 H2) as H. destruct (0 <=? r2); [|by wp_step]. wp_step. unfold wp at 1, ask. wp_step.
  eapply wp_mono; [apply send_number_holds|]. intros r3 p3 H3. wp_step. eapply same_trans; [exact H|exact H3].
Qed.

(** ** Steps for each stream *)

Lemma alter_middle {A} (f : A -> A) pre x post : alter f (length pre) (pre ++ x :: post) = pre ++ f x :: post.
Proof. by rewrite alter_app_r_alt, Nat.sub_diag by done. Qed.

(** [I] speaks about the streams still to come. *)
Lemma for_streams_spec (f : iperf_stream -> iperf_stream) (I : list iperf_stream -> peer -> Prop) body :
  (forall pre sp post p, streams (peer_test p) = pre ++ sp :: post -> I (sp :: post) p ->
    wp (body (length pre) sp) (fun _ p' => streams (peer_test p') = pre ++ f sp :: post /\ I post p') p) ->
  forall sps pre p, streams (peer_test p) = pre ++ sps -> I sps p ->
    wp (for_streams (length pre) sps body) (fun _ p' => streams (peer_test p') = pre ++ (f <$> sps) /\ I [] p') p.
Proof.
  intros Hbody. induction sps as [|sp sps IH]; intros pre p Ep Ip; cbn [for_streams]; [by wp_step|].
  wp_step. eapply wp_mono; [by apply Hbody|]. intros _ p' [Ep' Ip']. replace (S (length pre)) with (length (pre ++ [f sp])) by (rewrite length_app; simpl; lia).
  eapply wp_mono; [apply IH; [by rewrite Ep', <- app_assoc|done]|]. intros _ p'' [E I']. split; [|done]. by rewrite E, <- app_assoc.
Qed.

(** What [stop_thread] makes of a stream. *)
Definition stopped (sp : iperf_stream) : iperf_stream :=
  sp <| stream_done := 1 |> <| thread_created := if thread_created sp =? 1 then 0 else thread_created sp |>.

Definition threads (sps : list iperf_stream) : list Z := id <$> List.filter (fun sp => thread_created sp =? 1) sps.

(** All but the streams and the threads. *)
Definition others (p : peer) := (pr_fds p, (timer p, stats_timer p, reporter_timer p, omit_timer p),
  (ctrl_sck (peer_test p), listener (peer_test p), prot_listener (peer_test p))).

Definition joins : Prop := forall k, thread_failed (m_thread mc k) = false.

Lemma join_spec sp p : wp (pthread_join mc sp) (fun _ p' => others p' = others p /\ peer_test p' = peer_test p /\
  (joins -> pr_threads p' = without (id sp) (pr_threads p))) p.
Proof.
  unfold pthread_join. apply wp_bind, wp_ask. wp_step. destruct (thread_failed _) eqn:E; cbn [negb].
  - do 2 wp_step. split_and!; [done..|]. intros Hj. specialize (Hj (pr_tick p)). congruence.
  - do 2 wp_step. by split_and!.
Qed.

Lemma stop_worker_spec pre sp post p : streams (peer_test p) = pre ++ sp :: post ->
  wp (stop_stream_worker (length pre) sp) (fun _ p' => streams (peer_test p') = pre ++ sp <| stream_done := 1 |> :: post /\
    others p' = others p /\ pr_threads p' = pr_threads p) p.
Proof.
  intros Es. unfold stop_stream_worker. wp_step. apply wp_modify. match goal with |- wp _ _ ?x => set (p1 := x) end.
  assert (streams (peer_test p1) = pre ++ sp <| stream_done := 1 |> :: post) as E1.
  { change (streams (peer_test p1)) with (alter (fun sp => sp <| stream_done := 1 |>) (length pre) (streams (peer_test p))). by rewrite Es, alter_middle. }
  assert (others p1 = others p /\ pr_threads p1 = pr_threads p) as [O1 T1] by done. clearbody p1.
  destruct (negb _); [by wp_step|]. wp_step. wp_step. destruct (_ && _); [|by wp_step]. apply wp_on_process, wp_modify. by split_and!.
Qed.

Lemma stop_thread_spec pre sp post p : streams (peer_test p) = pre ++ sp :: post ->
  wp (stop_thread mc (length pre) sp) (fun _ p' => streams (peer_test p') = pre ++ stopped sp :: post /\ others p' = others p /\
    (joins -> pr_threads p' = drop_all (threads [sp]) (pr_threads p))) p.
Proof.
  intros Es. unfold stop_thread. wp_step. eapply wp_mono; [by apply stop_worker_spec|]. intros _ p1 (E1 & O1 & T1).
  unfold threads, stopped. cbn [List.filter]. destruct (thread_created sp =? 1) eqn:Et.
  2:{ wp_step. split_and!; [|done|done]. rewrite E1. by destruct sp. }
  apply wp_bind, wp_ask. wp_step.
  assert (forall p2, peer_test p2 = peer_test p1 -> others p2 = others p1 -> pr_threads p2 = pr_threads p1 ->
    wp (rc <- pthread_join mc sp ;; (when thread_failed rc do set_error IEPTHREADJOIN) ;;; on_stream_at (length pre) (fun sp => sp <| thread_created := 0 |>))
      (fun _ p' => streams (peer_test p') = pre ++ sp <| stream_done := 1 |> <| thread_created := 0 |> :: post /\ others p' = others p /\
        (joins -> pr_threads p' = without (id sp) (pr_threads p))) p2) as Hrest.
  { intros p2 E2 O2 T2. wp_step. eapply wp_mono; [apply join_spec|]. intros rc p3 (O3 & E3 & T3). wp_step.
    assert (forall p4, peer_test p4 = peer_test p3 -> others p4 = others p3 -> pr_threads p4 = pr_threads p3 ->
      wp (on_stream_at (length pre) (fun sp => sp <| thread_created := 0 |>)) (fun _ p' => streams (peer_test p') = pre ++ sp <| stream_done := 1 |> <| thread_created := 0 |> :: post /\ others p' = others p /\
        (joins -> pr_threads p' = without (id sp) (pr_threads p))) p4) as Hlast.
    { intros p4 E4 O4 T4. apply wp_modify. split_and!.
      - change (alter (fun sp => sp <| thread_created := 0 |>) (length pre) (streams (peer_test p4)) = pre ++ sp <| stream_done := 1 |> <| thread_created := 0 |> :: post).
        by rewrite E4, E3, E2, E1, alter_middle.
      - change (others p4 = others p). congruence.
      - intros Hj. change (pr_threads p4 = without (id sp) (pr_threads p)). by rewrite T4, T3, T2, T1. }
    destruct (thread_failed rc); [apply wp_modify|wp_step]; by apply Hlast. }
  destruct (thread_failed _); [apply wp_modify|wp_step]; by apply Hrest.
Qed.

Lemma threads_cons sp sps : threads (sp :: sps) = threads [sp] ++ threads sps.
Proof. unfold threads. cbn [List.filter]. by destruct (_ =? 1). Qed.

Lemma stop_threads_spec p : wp (stop_threads (stop_thread mc)) (fun _ p' => streams (peer_test p') = stopped <$> streams (peer_test p) /\
  others p' = others p /\ (joins -> pr_threads p' = drop_all (threads (streams (peer_test p))) (pr_threads p))) p.
Proof.
  unfold stop_threads. do 4 wp_step. set (l := streams (peer_test p)). wp_step.
  eapply wp_mono; [apply (for_streams_spec stopped (fun rest p' => others p' = others p /\
    (joins -> drop_all (threads rest) (pr_threads p') = drop_all (threads l) (pr_threads p))) (stop_thread mc)) with (pre := [])|].
  - intros pre sp post p1 Es [O1 T1]. eapply wp_mono; [by apply stop_thread_spec|]. intros _ p2 (E2 & O2 & T2). split_and!; [done|congruence|].
    intros Hj. rewrite <- T1, T2 by done. by rewrite (threads_cons sp post), drop_all_app.
  - done.
  - done.
  - intros _ p' (E & O & T). apply wp_modify. split_and!; [exact E|exact O|]. intros Hj. exact (T Hj).
Qed.

(** ** Descriptors *)

Definition closed (sp : iperf_stream) : iperf_stream := if -1 <? socket sp then sp <| socket := -1 |> else sp.

Definition opened_ones (fds : list Z) : list Z := List.filter (fun fd => -1 <? fd) fds.

(** The descriptors of a test, in the order they are closed. *)
Definition test_sockets (t : iperf_test) : list Z :=
  opened_ones (socket <$> streams t) ++ opened_ones [ctrl_sck t] ++ opened_ones [listener t] ++
  (if prot_listener t =? listener t then [] else opened_ones [prot_listener t]).

Definition threads_and_timers (p : peer) := (pr_threads p, (timer p, stats_timer p, reporter_timer p, omit_timer p)).
Definition listeners (p : peer) := (ctrl_sck (peer_test p), listener (peer_test p), prot_listener (peer_test p)).

Lemma close_streams_of_test p : wp (t <- gets peer_test ;; for_streams 0 (streams t) close_stream)
  (fun _ p' => streams (peer_test p') = closed <$> streams (peer_test p) /\ threads_and_timers p' = threads_and_timers p /\ listeners p' = listeners p /\
    pr_fds p' = drop_all (opened_ones (socket <$> streams (peer_test p))) (pr_fds p)) p.
Proof.
  do 2 wp_step. set (l := streams (peer_test p)).
  eapply wp_mono; [apply (for_streams_spec closed (fun rest p' => (threads_and_timers p' = threads_and_timers p /\ listeners p' = listeners p) /\
    drop_all (opened_ones (socket <$> rest)) (pr_fds p') = drop_all (opened_ones (socket <$> l)) (pr_fds p)) close_stream) with (pre := [])|].
  - intros pre sp post p1 Es [[O1 L1] F1]. unfold close_stream, closed. rewrite fmap_cons in F1. unfold opened_ones in F1. cbn [List.filter] in F1.
    destruct (-1 <? socket sp); [|by wp_step]. unfold FD_CLR, close. wp_step. apply wp_on_process, wp_modify. wp_step. apply wp_on_process, wp_modify. apply wp_modify.
    match goal with |- _ /\ _ /\ ?F => change (alter (fun sp => sp <| socket := -1 |>) (length pre) (streams (peer_test p1)) = pre ++ sp <| socket := -1 |> :: post /\
      (threads_and_timers p1 = threads_and_timers p /\ listeners p1 = listeners p) /\ F) end. rewrite Es, alter_middle. split_and!; [done|done|done|exact F1].
  - done.
  - done.
  - by intros _ p' (E & [O L] & F).
Qed.

Lemma close_listener_process q : wp iperf_close_test_listener (fun _ q' =>
  let t := p_test q in
  p_test q' = (if listener t <? 0 then t else if prot_listener t =? listener t then t <| listener := -1 |> <| prot_listener := -1 |> else t <| listener := -1 |>) /\
  p_fds q' = drop_all (opened_ones [listener t]) (p_fds q)) q.
Proof.
  unfold iperf_close_test_listener, iperf_close_test_listener_socket, shutdown, close, opened_ones. do 2 wp_step. cbn [List.filter]. destruct (Z.ltb_spec (listener (p_test q)) 0).
  - wp_step. by rewrite (proj2 (Z.ltb_ge _ _)) by lia.
  - rewrite (proj2 (Z.ltb_lt (-1) _)) by lia. do 7 wp_step. cbn [p_test p_fds update]. rewrite Z.eqb_refl. cbn [prot_listener update].
    split; [|done]. by destruct (_ =? _).
Qed.

Lemma close_test_listener_spec p : wp (on_process iperf_close_test_listener) (fun _ p' => streams (peer_test p') = streams (peer_test p) /\
  threads_and_timers p' = threads_and_timers p /\ ctrl_sck (peer_test p') = ctrl_sck (peer_test p) /\ listener (peer_test p') < 0 /\
  opened_ones [prot_listener (peer_test p')] = (if prot_listener (peer_test p) =? listener (peer_test p) then [] else opened_ones [prot_listener (peer_test p)]) /\
  pr_fds p' = drop_all (opened_ones [listener (peer_test p)]) (pr_fds p)) p.
Proof.
  apply wp_on_process. eapply wp_mono; [apply close_listener_process|]. intros _ q [Et Ef]. cbn [p_test p_fds process_of] in *.
  change (peer_test (with_process q p)) with (p_test q). change (pr_fds (with_process q p)) with (p_fds q). rewrite Et. set (t := peer_test p) in *.
  destruct (Z.ltb_spec (listener t) 0); [|destruct (Z.eqb_spec (prot_listener t) (listener t))]; cbn; split_and!; try done; try lia.
  unfold opened_ones. cbn. destruct (Z.eqb_spec (prot_listener t) (listener t)) as [E|]; [|done]. by rewrite (proj2 (Z.ltb_ge _ _)) by lia.
Qed.

Lemma drain_holds fuel : forall p, (length (peer_in p) < fuel)%nat -> wp (drain mc fuel) (fun _ p' => same_holdings p p') p.
Proof. intros p Hf. eapply wp_mono; [by apply drain_spec|]. by intros _ p' (c & -> & _). Qed.

Lemma sync_close_holds sock p : wp (iperf_sync_close_socket mc sock) (fun _ p' =>
  peer_test p' = peer_test p /\ threads_and_timers p' = threads_and_timers p /\ pr_fds p' = without sock (pr_fds p)) p.
Proof.
  unfold iperf_sync_close_socket, shutdown, close. wp_step. apply wp_on_process, wp_modify. wp_step. apply wp_get.
  wp_step. eapply wp_mono; [apply drain_spec; apply Nat.lt_succ_diag_r|]. intros _ p1 (c & -> & _). apply wp_on_process, wp_modify. by split_and!.
Qed.

Lemma close_sockets_spec p : wp (close_sockets mc) (fun _ p' => streams (peer_test p') = closed <$> streams (peer_test p) /\
  threads_and_timers p' = threads_and_timers p /\ (ctrl_sck (peer_test p') < 0 /\ listener (peer_test p') < 0 /\ prot_listener (peer_test p') < 0) /\
  pr_fds p' = drop_all (test_sockets (peer_test p)) (pr_fds p)) p.
Proof.
  unfold close_sockets, test_sockets. set (t := peer_test p). rewrite !drop_all_app. pose proof (close_streams_of_test p) as Hstreams. apply wp_bind_inv in Hstreams. apply wp_bind.
  eapply wp_mono; [exact Hstreams|]. intros t0 p0 H0. wp_step. eapply wp_mono; [exact H0|]. clear Hstreams t0 p0 H0.
  intros _ p1 (E1 & O1 & L1 & F1). fold t in E1, F1. unfold listeners in L1. fold t in L1. injection L1 as Lc Ll Lp. rewrite <- F1. do 3 wp_step.
  set (Q := fun (_ : unit) (p' : peer) => (streams (peer_test p') = closed <$> streams t /\ threads_and_timers p' = threads_and_timers p /\ ctrl_sck (peer_test p') < 0 /\
    listener (peer_test p') = listener t /\ prot_listener (peer_test p') = prot_listener t) /\ pr_fds p' = drop_all (opened_ones [ctrl_sck t]) (pr_fds p1)).
  assert (wp (when -1 <? ctrl_sck (peer_test p1) do (iperf_sync_close_socket mc (ctrl_sck (peer_test p1)) ;;; change (fun t => t <| ctrl_sck := -1 |>))) Q p1) as Hc.
  { unfold Q, opened_ones. rewrite Lc. cbn [List.filter]. destruct (Z.ltb_spec (-1) (ctrl_sck t)).
    - wp_step. eapply wp_mono; [apply sync_close_holds|]. intros _ p2 (E2 & O2 & F2). apply wp_modify.
      split_and!; [change (streams (peer_test p2) = closed <$> streams t)|change (threads_and_timers p2 = threads_and_timers p)|change (-1 < 0)
        |change (listener (peer_test p2) = listener t)|change (prot_listener (peer_test p2) = prot_listener t)|exact F2]; first [lia|congruence].
    - wp_step. split_and!; first [done|lia]. }
  eapply wp_mono; [exact Hc|]. intros _ p2 [(E2 & O2 & C2 & L2 & P2) F2]. rewrite <- F2. clear Hc Q. wp_step.
  eapply wp_mono; [apply close_test_listener_spec|]. intros _ p3 (E3 & O3 & C3 & L3 & P3 & F3). rewrite L2 in F3. rewrite <- F3. rewrite L2, P2 in P3. rewrite <- P3.
  do 2 wp_step. unfold opened_ones. cbn [List.filter]. destruct (Z.ltb_spec (-1) (prot_listener (peer_test p3))).
  - unfold close. wp_step. apply wp_on_process, wp_modify, wp_modify.
    split_and!; [change (streams (peer_test p3) = closed <$> streams t)|change (threads_and_timers p3 = threads_and_timers p)|change (ctrl_sck (peer_test p3) < 0)
      |change (listener (peer_test p3) < 0)|change (-1 < 0)|done]; first [lia|congruence].
  - wp_step. split_and!; first [done|congruence|lia].
Qed.

(** ** Timers *)

(** A step that leaves the state outside the timers alone. *)
Definition keeps_world {A} (m : SeM A) : Prop := forall s a s', m s = Ret (a, s') -> world s' = world s.

Lemma kw_bind {A B} (m : SeM A) (k : A -> SeM B) : keeps_world m -> (forall a, keeps_world (k a)) -> keeps_world (bind m k).
Proof. intros Hm Hk s b s'. unfold bind. destruct (m s) as [[a s1]| |] eqn:E; [|done..]. intros E'. rewrite (Hk _ _ _ _ E'). by apply (Hm _ _ _ E). Qed.

Lemma kw_ret {A} (a : A) : keeps_world (ret a).
Proof. by intros s b s' [= _ <-]. Qed.
Lemma kw_gets {A} (f : session -> A) : keeps_world (gets f).
Proof. by intros s b s' [= _ <-]. Qed.
Lemma kw_load t : keeps_world (load t).
Proof. intros s b s'. unfold load. case_match; [|done]. by intros [= _ <-]. Qed.
Lemma kw_store t f : keeps_world (store_timer t f).
Proof. intros s b s'. unfold store_timer. case_match; [|done]. by intros [= _ <-]. Qed.
Lemma kw_timers o : keeps_world (set_timers o).
Proof. by intros s b s' [= _ <-]. Qed.
Lemma kw_free o : keeps_world (set_free_timers o).
Proof. by intros s b s' [= _ <-]. Qed.
Lemma kw_undefined {A} : keeps_world (undefined (A := A)).
Proof. done. Qed.
Lemma kw_out_of_fuel {A} : keeps_world (out_of_fuel (A := A)).
Proof. done. Qed.
End Cleanup.

#[export] Hint Resolve kw_ret kw_gets kw_load kw_store kw_timers kw_free kw_undefined kw_out_of_fuel : iperf.

Ltac kw := repeat first [progress eauto 1 with iperf|apply kw_bind; [|intros ?]|case_match].

Lemma kw_list_remove t : keeps_world (list_remove t).
Proof. unfold list_remove, set_next, set_prev. kw. Qed.

Lemma kw_walk fuel t : forall t2prev t2, keeps_world (list_add_walk fuel t t2prev t2).
Proof.
  induction fuel as [|fuel IH]; intros t2prev [t2|]; cbn [list_add_walk]; unfold set_next, set_prev; kw.
Qed.

#[export] Hint Resolve kw_walk : iperf.

Lemma kw_list_add t : keeps_world (list_add t).
Proof. unfold list_add, set_next, set_prev. kw. Qed.
#[export] Hint Resolve kw_list_remove kw_list_add : iperf.

Lemma kw_cancel t : keeps_world (tmr_cancel t).
Proof. unfold tmr_cancel, set_next, set_prev. kw. Qed.

Lemma kw_reset now clock t : keeps_world (tmr_reset now clock t).
Proof. unfold tmr_reset, set_data, list_resort. kw. Qed.

Lemma kw_new m : keeps_world (new_timer m).
Proof. unfold new_timer. kw. by intros s b s' [= _ <-]. Qed.
#[export] Hint Resolve kw_cancel kw_reset kw_new : iperf.

Lemma kw_create now clock m proc cd us per : keeps_world (tmr_create now clock m proc cd us per).
Proof. unfold tmr_create, set_data. kw. Qed.

Lemma kw_timeout now clock : keeps_world (tmr_timeout now clock).
Proof. unfold tmr_timeout. kw. Qed.
#[export] Hint Resolve kw_create kw_timeout : iperf.

(** ** [cleanup_server] *)

(** Partial correctness: if the step returns. *)
Definition wlp {S A} (m : CM S A) (Q : A -> S -> Prop) (s : S) : Prop :=
  match m s with Ret (a, s') => Q a s' | _ => True end.

Lemma wlp_bind {S A B} (m : CM S A) (k : A -> CM S B) Q s : wlp m (fun a s' => wlp (k a) Q s') s -> wlp (bind m k) Q s.
Proof. unfold wlp, bind. by destruct (m s) as [[a s']| |]. Qed.

Lemma wlp_mono {S A} (m : CM S A) (P Q : A -> S -> Prop) s : wlp m P s -> (forall a s', P a s' -> Q a s') -> wlp m Q s.
Proof. unfold wlp. destruct (m s) as [[a s']| |]; auto. Qed.

Lemma wlp_any {S A} (m : CM S A) (Q : A -> S -> Prop) s : (forall a s', Q a s') -> wlp m Q s.
Proof. unfold wlp. destruct (m s) as [[a s']| |]; auto. Qed.

Lemma wlp_kw {A} (m : SeM A) (Q : A -> session -> Prop) s : keeps_world m -> (forall a s', world s' = world s -> Q a s') -> wlp m Q s.
Proof. intros Hm HQ. unfold wlp. destruct (m s) as [[a s']| |] eqn:E; [|done..]. apply HQ, (Hm _ _ _ E). Qed.

Definition stream_released (sp : iperf_stream) : Prop := stream_done sp = 1 /\ socket sp < 0 /\ thread_created sp <> 1.

(** Nothing of a test is left. *)
Record released (p : peer) : Prop := mk_released {
  rd_streams : Forall stream_released (streams (peer_test p));
  rd_control : ctrl_sck (peer_test p) < 0;
  rd_listener : listener (peer_test p) < 0;
  rd_prot_listener : prot_listener (peer_test p) < 0;
  rd_timers : timer p = None /\ stats_timer p = None /\ reporter_timer p = None /\ omit_timer p = None }.

Section Teardown.
Context {crypto : cryptography} (mc : machine).

(** What the first steps of the cleanup leave. *)
Record cleaned (p p' : peer) : Prop := mk_cleaned {
  cl_streams : streams (peer_test p') = (fun sp => closed (stopped sp)) <$> streams (peer_test p);
  cl_listeners : ctrl_sck (peer_test p') < 0 /\ listener (peer_test p') < 0 /\ prot_listener (peer_test p') < 0;
  cl_fds : pr_fds p' = drop_all (test_sockets (peer_test p)) (pr_fds p);
  cl_threads : joins mc -> pr_threads p' = drop_all (threads (streams (peer_test p))) (pr_threads p);
  cl_timers : (timer p', stats_timer p', reporter_timer p', omit_timer p') = (timer p, stats_timer p, reporter_timer p, omit_timer p) }.

Lemma stopped_sockets (sps : list iperf_stream) : socket <$> (stopped <$> sps) = socket <$> sps.
Proof. rewrite <- list_fmap_compose. by apply list_fmap_ext. Qed.

Lemma cleanup_start s : exists p', cleaned (world s) p' /\ forall B (K : SeM B),
  (on_peer (report_error mc) ;;; on_peer (stop_threads (stop_thread mc)) ;;; on_peer (close_sockets mc) ;;; K) s
  = K (mk_tstate (heap s) (timers s) (free_timers s) p').
Proof.
  destruct (wp_returns _ _ _ (report_holds mc (world s))) as ([] & p1 & R1 & H1). unfold same_holdings, holdings in H1. injection H1 as F1 T1 M1 M2 M3 M4 S1 C1 L1 P1.
  destruct (wp_returns _ _ _ (stop_threads_spec mc p1)) as ([] & p2 & R2 & S2 & O2 & T2). unfold others in O2. injection O2 as F2 N1 N2 N3 N4 C2 L2 P2.
  destruct (wp_returns _ _ _ (close_sockets_spec mc p2)) as ([] & p3 & R3 & S3 & O3 & H3 & F3). unfold threads_and_timers in O3. injection O3 as T3 K1 K2 K3 K4.
  exists p3. split.
  - split; [|done| | |congruence].
    + rewrite S3, S2, S1. by rewrite <- list_fmap_compose.
    + rewrite F3, F2, F1. unfold test_sockets. by rewrite S2, S1, C2, C1, L2, L1, P2, P1, stopped_sockets.
    + intros Hj. by rewrite T3, (T2 Hj), T1, S1.
  - intros B K. unfold bind at 1, on_peer at 1. rewrite R1. unfold bind at 1, on_peer at 1. cbn [world heap timers free_timers]. rewrite R2.
    unfold bind at 1, on_peer at 1. cbn [world heap timers free_timers]. by rewrite R3.
Qed.

Lemma closed_stopped sp : stream_released (closed (stopped sp)).
Proof.
  unfold stream_released, closed, stopped. destruct (Z.eqb_spec (thread_created sp) 1); destruct (Z.ltb_spec (-1) (socket sp)); cbn; rewrite ?(proj2 (Z.ltb_lt _ _)), ?(proj2 (Z.ltb_ge _ _)) by lia; cbn; split_and!; lia.
Qed.

(** One of the fields is cancelled and cleared. *)
Lemma cancel_wlp (field : peer -> option loc) store (Q : unit -> session -> Prop) s :
  (forall h t f, Q tt (mk_tstate h t f (match field (world s) with Some _ => store (world s) | None => world s end))) ->
  wlp (cancel_timer field store) Q s.
Proof.
  intros H. unfold cancel_timer. apply wlp_bind. unfold wlp at 1, on_peer, get. destruct s as [h t f p]. cbn [world heap timers free_timers] in *.
  destruct (field p) as [l|]; [|apply H]. apply wlp_bind. eapply wlp_kw; [apply kw_cancel|]. intros [] [h' t' f' p'] E. cbn in E. subst p'. apply H.
Qed.

(** If the cleanup returns, everything has been released. *)
Lemma cleanup_releases s : wlp (cleanup_server mc) (fun _ s' => released (world s')) s.
Proof.
  destruct (cleanup_start s) as (p1 & [S1 (C1 & L1 & P1) _ _ M1] & E). unfold cleanup_server, wlp. rewrite E. clear E.
  match goal with |- context [?m (mk_tstate (heap s) (timers s) (free_timers s) p1)] => change (wlp m (fun _ s' => released (world s')) (mk_tstate (heap s) (timers s) (free_timers s) p1)) end.
  apply wlp_bind, cancel_wlp. intros h1 t1 f1. apply wlp_bind, cancel_wlp. intros h2 t2 f2. apply wlp_bind, cancel_wlp. intros h3 t3 f3. apply wlp_bind.
  unfold wlp at 1, on_peer, change, modify. apply cancel_wlp. intros h4 t4 f4. cbn [world].
  match goal with |- released ?x => set (p' := x) end.
  assert (streams (peer_test p') = streams (peer_test p1) /\ listeners p' = listeners p1) as [S2 L2].
  { unfold p'. repeat case_match; done. }
  unfold listeners in L2. injection L2 as C2 L2 P2. split; rewrite ?S2, ?C2, ?L2, ?P2; try done.
  - rewrite S1. apply Forall_fmap, Forall_forall. intros sp _. apply closed_stopped.
  - clear S2 C2 L2 P2. unfold p'. repeat case_match; cbn in *; repeat match goal with H : ?f p1 = None |- _ => rewrite H end; by split_and!.
Qed.
End Teardown.

(** ** Every way out of a run *)

Section Exits.
Context {crypto : cryptography} (mc : machine).

(** A part that leaves the function leaves nothing behind. *)
Definition exits {A} (m : part A) : Prop :=
  forall s, wlp m (fun r s' => match r with inr _ => released (world s') | inl _ => True end) s.

Lemma exits_then {A B} (m : part A) (k : A -> part B) : exits m -> (forall a, exits (k a)) -> exits (and_then m k).
Proof. intros Hm Hk s. apply wlp_bind. eapply wlp_mono; [apply Hm|]. intros [a|v] s' H; [apply Hk|exact H]. Qed.

Lemma exits_bind {A B} (m : SeM A) (k : A -> part B) : (forall a, exits (k a)) -> exits (bind m k).
Proof. intros Hk s. apply wlp_bind, wlp_any. intros a s'. apply Hk. Qed.

Lemma exits_proceed {A} (m : SeM A) : exits (proceed m).
Proof. intros s. apply wlp_bind, wlp_any. done. Qed.

Lemma exits_inl {A} (a : A) : exits (ret (inl a)).
Proof. done. Qed.

Lemma set_error_released e p : released p -> released (with_error e p).
Proof. by intros []; split. Qed.

Lemma give_up_releases {A} e v s : wlp (give_up_run (A := A) mc e v) (fun _ s' => released (world s')) s.
Proof. apply wlp_bind. eapply wlp_mono; [apply cleanup_releases|]. intros [] s1 H. destruct e as [e'|]; [by apply set_error_released|exact H]. Qed.

Lemma exits_give_up {A} e v : exits (give_up_run (A := A) mc e v).
Proof. intros s. eapply wlp_mono; [apply give_up_releases|]. by intros [a|x] s' H. Qed.
End Exits.

#[export] Hint Resolve exits_proceed exits_inl exits_give_up : iperf.

Ltac exits := repeat first
  [progress eauto 2 with iperf
  |lazymatch goal with
   | |- exits (and_then _ _) => apply exits_then; [|intros ?]
   | |- exits (bind _ _) => apply exits_bind; intros ?
   | |- _ => case_match
   end].

Section Server_exits.
Context {crypto : cryptography} (mc : machine).

Lemma exits_guarded m : exits (guarded mc m).
Proof. unfold guarded. exits. Qed.
Lemma exits_sent m : exits (sent mc m).
Proof. unfold sent. exits. Qed.
Hint Resolve exits_guarded exits_sent : iperf.

Lemma exits_rate {A} : exits (rate_exceeded (A := A) mc).
Proof. unfold rate_exceeded. exits. Qed.
Lemma exits_no_activity v : exits (no_activity mc v).
Proof. unfold no_activity. exits. Qed.
Lemma exits_listener a rs v : exits (serve_listener mc a rs v).
Proof. unfold serve_listener. exits. Qed.
Lemma exits_control a rs : exits (serve_control mc a rs).
Proof. unfold serve_control. exits. Qed.
Lemma exits_data a rs v : exits (serve_data mc a rs v).
Proof. unfold serve_data. exits. Qed.
Lemma exits_release : exits (release_listener mc).
Proof. unfold release_listener. exits. Qed.
Lemma exits_requested : exits (check_requested_rate mc).
Proof. unfold check_requested_rate. exits. Qed.
Lemma exits_workers : exits (start_workers mc).
Proof. unfold start_workers. exits. Qed.
Hint Resolve exits_rate exits_no_activity exits_listener exits_control exits_data exits_release exits_requested exits_workers : iperf.

Lemma exits_start v : exits (start_test mc v).
Proof. unfold start_test. exits. Qed.
Hint Resolve exits_start : iperf.
Lemma exits_serve a rs v : exits (serve mc a rs v).
Proof. unfold serve. exits. Qed.
Hint Resolve exits_serve : iperf.
Lemma exits_iteration fuel v : exits (iteration mc fuel v).
Proof. unfold iteration. exits. Qed.
Hint Resolve exits_iteration : iperf.
Lemma exits_loop fuel : forall v, exits (server_loop mc fuel v).
Proof. induction fuel as [|fuel IH]; intros v; cbn [server_loop]; exits. by intros s. Qed.

Lemma run_releases fuel s : wlp (iperf_run_server mc fuel) (fun _ s' => released (world s')) s.
Proof.
  assert (wlp (server_body mc fuel) (fun _ s' => released (world s')) s) as Hw.
  { unfold server_body. apply wlp_bind, wlp_any. intros l s1. destruct (l <? 0); [apply give_up_releases|]. apply wlp_bind, wlp_any. intros t s2.
    destruct (negb _); [apply give_up_releases|]. apply wlp_bind, wlp_any. intros start s3. apply wlp_bind, wlp_any. intros [] s4. apply wlp_bind, wlp_any. intros t2 s5.
    apply wlp_bind. eapply wlp_mono; [apply exits_loop|]. intros [v|v] s6 H6; [|exact H6]. apply wlp_bind. eapply wlp_mono; [apply cleanup_releases|]. intros [] s7 H7.
    apply wlp_bind. unfold wlp at 1, on_peer, gets. destruct (negb _); [|exact H7]. by apply set_error_released. }
  apply wlp_bind. eapply wlp_mono; [exact Hw|]. by intros v s1 H1.
Qed.

(** C15: whatever the system answers, the client sends and the workers do, when
    [iperf_run_server] returns, nothing of the run is left: every stream is
    marked done, its socket is closed and its worker stopped, the control
    connection and both listeners are closed, and no timer is set, on success
    and on every error alike. *)
Theorem server_releases fuel s r s' (Hrun : iperf_run_server mc fuel s = Ret (r, s')) : released (world s').
Proof. pose proof (run_releases fuel s) as H. unfold wlp in H. by rewrite Hrun in H. Qed.
End Server_exits.

(** ** The cleanup returns *)

Section Complete.
Context {crypto : cryptography} (mc : machine).

(** The timers of the test. *)
Definition own_timers (p : peer) : list loc := omap (fun f => f p) [stats_timer; reporter_timer; omit_timer; timer].

Lemma cancel_spec (field : peer -> option loc) store s l fl : timers_inv s l fl -> (forall x, field (world s) = Some x -> x ∈ locs l) ->
  wp (cancel_timer field store) (fun _ s' => exists l' fl', timers_inv s' l' fl' /\
    world s' = match field (world s) with Some _ => store (world s) | None => world s end /\
    forall y, y ∈ locs l' <-> y ∈ locs l /\ field (world s) <> Some y) s.
Proof.
  intros I Hin. unfold cancel_timer. wp_step. apply wp_on_peer, wp_get. destruct s as [h t f p]. cbn [world heap timers free_timers] in *.
  destruct (field p) as [x|] eqn:E.
  - specialize (Hin x eq_refl). rewrite locs_fmap in Hin. apply list_elem_of_fmap in Hin as ([y d] & -> & Hin). apply list_elem_of_split in Hin as (l1 & l2 & ->).
    wp_step. eapply wp_mono; [by apply (tmr_cancel_inv _ l1 y d l2 fl)|]. intros [] s1 [I1 W1]. apply wp_on_peer, wp_modify. exists (l1 ++ l2), (y :: fl).
    split; [by destruct I1; split|]. split; [cbn [world] in *; by rewrite W1|]. intros z. pose proof (inv_nodup_l _ _ _ I) as N. rewrite locs_app in N. cbn [locs] in N.
    rewrite !locs_app, !elem_of_app. cbn [locs]. rewrite elem_of_cons. apply NoDup_app in N as (_ & N1 & N2%NoDup_cons). destruct N2 as [N2 _]. split.
    + intros [Hz|Hz]; (split; [tauto|]); intros [= ->]; [by apply (N1 z Hz); left|done].
    + intros [[Hz|[->|Hz]] Hn]; [by left| |by right]. by destruct Hn.
  - wp_step. exists l, fl. split; [done|]. split; [done|]. intros y. naive_solver.
Qed.

Lemma own_timers_split p x : x ∈ own_timers p <-> stats_timer p = Some x \/ reporter_timer p = Some x \/ omit_timer p = Some x \/ timer p = Some x.
Proof. unfold own_timers. cbn. destruct (stats_timer p), (reporter_timer p), (omit_timer p), (timer p); cbn; rewrite ?elem_of_cons, ?elem_of_nil; naive_solver. Qed.

(** Clearing a field takes its timer off the test's timers. *)
Definition clears (field : peer -> option loc) (store : peer -> peer) : Prop := forall p, NoDup (own_timers p) ->
  NoDup (own_timers (store p)) /\ (forall y, y ∈ own_timers (store p) <-> y ∈ own_timers p /\ field p <> Some y) /\ (forall y, field p = Some y -> y ∈ own_timers p).

Ltac clear_field := intros p Hn; split; [|split; [intros y; rewrite !own_timers_split; cbn|intros y Hy; apply own_timers_split; tauto]];
  unfold own_timers in *; cbn in *; destruct (stats_timer p), (reporter_timer p), (omit_timer p), (timer p); cbn in *;
  rewrite ?NoDup_cons, ?elem_of_cons, ?elem_of_nil in *; naive_solver.

Lemma clears_stats : clears stats_timer (fun p => p <| stats_timer := None |>).
Proof. clear_field. Qed.
Lemma clears_reporter : clears reporter_timer (fun p => p <| reporter_timer := None |>).
Proof. clear_field. Qed.
Lemma clears_omit : clears omit_timer (fun p => p <| omit_timer := None |>).
Proof. clear_field. Qed.
Lemma clears_timer : clears timer (fun p => p <| timer := None |>).
Proof. clear_field. Qed.

(** The test's timers are in the list, and the others are [others]. *)
Definition owns (others : loc -> Prop) (s : session) : Prop := exists l fl, timers_inv s l fl /\ NoDup (own_timers (world s)) /\
  (forall x, x ∈ own_timers (world s) -> x ∈ locs l) /\ forall x, x ∈ locs l /\ x ∉ own_timers (world s) <-> others x.

Lemma cancel_owns others field store s : clears field store -> owns others s ->
  wp (cancel_timer field store) (fun _ s' => owns others s' /\ world s' = match field (world s) with Some _ => store (world s) | None => world s end) s.
Proof.
  intros Hc (l & fl & I & Hn & Hin & Ho). destruct (Hc (world s) Hn) as (H1 & H2 & H3). eapply wp_mono; [apply (cancel_spec _ store s l fl I); auto|].
  intros [] s' (l' & fl' & I' & W & H). split; [|done]. exists l', fl'. split; [done|]. rewrite W. destruct (field (world s)) as [x|] eqn:E.
  - split; [done|]. split; [intros y Hy; apply H; apply H2 in Hy; naive_solver|]. intros y. rewrite <- Ho, H, H2. specialize (H3 x). destruct (decide (x = y)); naive_solver.
  - split; [done|]. split; [intros y Hy; apply H; naive_solver|]. intros y. rewrite <- Ho, H. naive_solver.
Qed.

(** C14: the cleanup always comes to its end and is complete.  From a state
    with a well-formed timer list that has the test's timers, where the process
    holds the descriptors of the test beside others and runs the workers of its
    streams, [cleanup_server] returns, whatever the connection answers;
    afterwards nothing of the test is left, exactly the other descriptors are
    open, no worker runs, and the timers are the others, in a well-formed list. *)
Theorem teardown_complete s l fl rest (Hinv : timers_inv s l fl) (Hnodup : NoDup (own_timers (world s))) (Hown : forall x, x ∈ own_timers (world s) -> x ∈ locs l)
    (Hfds : pr_fds (world s) ≡ₚ test_sockets (peer_test (world s)) ++ rest)
    (Hthreads : pr_threads (world s) ≡ₚ threads (streams (peer_test (world s)))) (Hjoins : joins mc) :
  exists s' l' fl', cleanup_server mc s = Ret (tt, s') /\ released (world s') /\ pr_fds (world s') ≡ₚ rest /\ pr_threads (world s') = [] /\
    timers_inv s' l' fl' /\ forall x, x ∈ locs l' <-> x ∈ locs l /\ x ∉ own_timers (world s).
Proof.
  destruct (cleanup_start mc s) as (p1 & [_ _ F1 T1 M1] & E). specialize (T1 Hjoins).
  set (s1 := mk_tstate (heap s) (timers s) (free_timers s) p1). injection M1 as M1 M2 M3 M4.
  assert (own_timers p1 = own_timers (world s)) as Eown by (unfold own_timers; cbn; by rewrite M1, M2, M3, M4).
  set (others := fun x => x ∈ locs l /\ x ∉ own_timers (world s)).
  assert (owns others s1) as J1. { exists l, fl. change (world s1) with p1. rewrite Eown. split; [by destruct Hinv; split|by split_and!]. }
  assert (wp (cleanup_server mc) (fun _ s' => pr_fds (world s') = pr_fds p1 /\ pr_threads (world s') = pr_threads p1 /\ owns others s') s) as Hw.
  { unfold cleanup_server, wp. rewrite E. fold s1.
    match goal with |- context [?m s1] => change (wp m (fun _ s' => pr_fds (world s') = pr_fds p1 /\ pr_threads (world s') = pr_threads p1 /\ owns others s') s1) end.
    wp_step. eapply wp_mono; [by apply cancel_owns, J1; apply clears_stats|]. intros [] s2 [J2 W2]. change (world s1) with p1 in W2.
    wp_step. eapply wp_mono; [by apply cancel_owns, J2; apply clears_reporter|]. intros [] s3 [J3 W3].
    wp_step. eapply wp_mono; [by apply cancel_owns, J3; apply clears_omit|]. intros [] s4 [J4 W4].
    wp_step. apply wp_on_peer, wp_modify. match goal with |- wp _ _ ?x => set (s5 := x) end.
    assert (owns others s5) as J5. { destruct J4 as (l4 & fl4 & I4 & H4). exists l4, fl4. split; [by destruct I4; split|exact H4]. }
    eapply wp_mono; [by apply cancel_owns, J5; apply clears_timer|]. intros [] s6 [J6 W6]. split_and!; [| |exact J6].
    - rewrite W6. change (world s5) with (with_test (fun t => t <| congestion_used := None |>) (world s4)). rewrite W4, W3, W2. by repeat case_match.
    - rewrite W6. change (world s5) with (with_test (fun t => t <| congestion_used := None |>) (world s4)). rewrite W4, W3, W2. by repeat case_match. }
  destruct (wp_returns _ _ _ Hw) as ([] & s' & E' & Ef & Et & l' & fl' & I' & _ & _ & Ho). exists s', l', fl'.
  pose proof (cleanup_releases mc s) as Hr. unfold wlp in Hr. rewrite E' in Hr. destruct Hr as [? ? ? ? (R1 & R2 & R3 & R4)].
  assert (own_timers (world s') = []) as En by (unfold own_timers; cbn; by rewrite R1, R2, R3, R4).
  split_and!; [done|by split| | |done|].
  - rewrite Ef, F1. by apply drop_all_perm.
  - rewrite Et, T1. apply Permutation_nil_r, drop_all_perm. by rewrite app_nil_r.
  - intros x. pose proof (Ho x) as Hx. unfold others in Hx. rewrite <- Hx, En, elem_of_nil. naive_solver.
Qed.
End Complete.

(** ** Examples *)

(** The test is over when [select] comes back. *)
Definition stopping_machine : machine := machine_where (mk_selection 0 0 []) (fun t => t <| done := 1 |>).

Definition returned {A} (r : outcome (Z * A)) : option Z := match r with Ret (v, _) => Some v | _ => None end.

Lemma returned_state {A} (r : outcome (Z * A)) v : returned r = Some v -> exists s, r = Ret (v, s).
Proof. destruct r as [[v' s]| |]; [|done..]. intros [= ->]. by exists s. Qed.

Lemma stopped_run : exists s', iperf_run_server (crypto := sample_cryptography) stopping_machine 1 (sample_session server_peer) = Ret (0, s').
Proof. apply returned_state. vm_compute. reflexivity. Qed.

Lemma server_releases_witness :
  exists s', iperf_run_server (crypto := sample_cryptography) stopping_machine 1 (sample_session server_peer) = Ret (0, s') /\ released (world s').
Proof.
  destruct stopped_run as [s' E]. exists s'. split; [exact E|].
  exact (server_releases (crypto := sample_cryptography) stopping_machine 1 (sample_session server_peer) 0 s' E).
Defined.

(** A stream with a worker and a timer, beside a descriptor of another part. *)
Definition busy_data : @tdata procedure unit := mk_tdata Server_stats_timer tt 1000000 1 (mk_time 5 0).
Definition busy_test (t : iperf_test) : iperf_test :=
  t <| listener := 4 |> <| prot_listener := 4 |> <| streams := [(sample_end true 2) <| socket := 10 |> <| thread_created := 1 |>] |>.
Definition busy_peer : peer :=
  (with_test busy_test server_peer) <| pr_fds := [10; 3; 4; 99] |> <| pr_threads := [2] |> <| stats_timer := Some 1%positive |>.
Definition busy_session : session := mk_tstate {[1%positive := mk_Timer busy_data None None]} (Some 1%positive) None busy_peer.

Lemma busy_timers : timers_inv busy_session [(1%positive, busy_data)] [].
Proof.
  split; try done.
  - repeat constructor. set_solver.
  - intros x [n Hx]. simpl in *. apply lookup_singleton_Some in Hx as [<- _]. by left.
  - repeat constructor; simpl; lia.
  - repeat constructor.
Qed.

Lemma busy_own : own_timers busy_peer = [1%positive].
Proof. by vm_compute. Qed.

Lemma busy_holds : pr_fds busy_peer = test_sockets (peer_test busy_peer) ++ [99] /\ pr_threads busy_peer = threads (streams (peer_test busy_peer)).
Proof. by vm_compute. Qed.

Lemma teardown_complete_witness :
  exists s' l' fl', cleanup_server sample_machine busy_session = Ret (tt, s') /\ released (world s') /\ pr_fds (world s') ≡ₚ [99] /\ pr_threads (world s') = [] /\
    timers_inv s' l' fl' /\ forall x, x ∈ locs l' <-> x ∈ locs [(1%positive, busy_data)] /\ x ∉ own_timers (world busy_session).
Proof.
  destruct busy_holds as [Ef Et].
  apply (teardown_complete sample_machine busy_session [(1%positive, busy_data)] [] [99] busy_timers);
    change (world busy_session) with busy_peer; rewrite ?busy_own, ?Ef, ?Et; [|done..].
  apply NoDup_singleton.
Defined.
