(* ===== verification/Steady.v ===== *)
(** * What nobody changes during a run

    The receive timeout is a setting of the program that embeds the server:
    none of the functions a run of the server calls, for a message, a client, a
    stream or a timer, changes it. *)

From S2P Require Import Prelude Bytes Time Double CJson CJsonTree CJsonPrint IperfTest ControlChannel BoundedOutput BoundedReader BoundedSocket OutputBudget Params Results.
From S2P Require Import Streams Connect Udp Measure Auth Session Server SessionSpec ServerSpec.
Local Open Scope c_scope.

(** ** States with a receive timeout *)

Class HasTimeout (S : Type) := rcv_of : S -> iperf_time.

#[export] Instance test_timeout : HasTimeout iperf_test := fun t => rcv_timeout (settings t).
#[export] Instance exchange_timeout : HasTimeout exchange := fun x => rcv_of (x_test x).
#[export] Instance incoming_timeout : HasTimeout incoming := fun i => rcv_of (in_exchange i).
#[export] Instance side_timeout : HasTimeout side := fun s => rcv_of (sd_incoming s).
#[export] Instance process_timeout : HasTimeout process := fun q => rcv_of (p_test q).
#[export] Instance peer_timeout : HasTimeout peer := fun p => rcv_of (peer_test p).

(** A step that leaves it alone, if it returns. *)
Definition steady {W} `{HasTimeout W} {A} (m : CM W A) : Prop := forall s, wlp m (fun _ s' => rcv_of s' = rcv_of s) s.

Section Steady.
Context {W : Type} `{HasTimeout W}.

Lemma steady_bind {A B} (m : CM W A) (k : A -> CM W B) : steady m -> (forall a, steady (k a)) -> steady (bind m k).
Proof. intros Hm Hk s. apply wlp_bind. eapply wlp_mono; [apply Hm|]. intros a s1 E. rewrite <- E. apply Hk. Qed.
Lemma steady_ret {A} (a : A) : steady (ret a).
Proof. done. Qed.
Lemma steady_get : steady get.
Proof. done. Qed.
Lemma steady_gets {A} (f : W -> A) : steady (gets f).
Proof. done. Qed.
Lemma steady_undefined {A} : steady (undefined (A := A)).
Proof. done. Qed.
Lemma steady_out_of_fuel {A} : steady (out_of_fuel (A := A)).
Proof. done. Qed.
Lemma steady_modify f : (forall s, rcv_of (f s) = rcv_of s) -> steady (modify f).
Proof. intros Hf s. apply Hf. Qed.
End Steady.

Create HintDb steady.
#[export] Hint Resolve steady_ret steady_get steady_gets steady_undefined steady_out_of_fuel : steady.

Ltac steady := repeat first
  [progress eauto 2 with steady
  |lazymatch goal with
   | |- steady (bind _ _) => apply steady_bind; [|intros ?]
   | |- steady (modify _) => apply steady_modify; intros ?; first [done|by repeat case_match]
   | |- _ => case_match
   end].

(** ** Parameters *)

Lemma on_test_steady f : (forall t, rcv_of (f t) = rcv_of t) -> steady (on_test f).
Proof. intros Hf. apply steady_modify. intros x. apply Hf. Qed.

Lemma failing_steady e : steady (failing e).
Proof. unfold failing. steady. Qed.
#[export] Hint Resolve failing_steady : steady.

Lemma retransmits_timeout t : rcv_of (check_sender_has_retransmits t) = rcv_of t.
Proof. unfold check_sender_has_retransmits. by case_match. Qed.

Lemma protocol_timeout v t t' : set_protocol v t = Some t' -> rcv_of t' = rcv_of t.
Proof. unfold set_protocol. case_match; [|done]. intros [= <-]. exact (retransmits_timeout (t <| protocol := v |>)). Qed.

Lemma reverse_timeout v t : rcv_of (iperf_set_test_reverse v t) = rcv_of t.
Proof. unfold iperf_set_test_reverse. rewrite retransmits_timeout. by repeat case_match. Qed.

Lemma select_protocol_steady v : steady (select_protocol v).
Proof. intros x. unfold wlp, select_protocol. destruct (set_protocol _ _) as [t|] eqn:E; [|done]. exact (protocol_timeout _ _ _ E). Qed.

Section Parameters.
Context (alloc : nat -> bool) (j : cJSON).

Lemma number_steady name ok e store : (forall v t, rcv_of (store v t) = rcv_of t) -> steady (number_member j name ok e store).
Proof. intros Hs. unfold number_member. steady. by apply on_test_steady. Qed.

Lemma flag_steady name expected store : (forall p t, rcv_of (store p t) = rcv_of t) -> steady (flag_member j name expected store).
Proof. intros Hs. unfold flag_member. steady. by apply on_test_steady. Qed.

Lemma strdup_steady s : steady (strdup alloc s).
Proof. intros x. unfold wlp, strdup. by destruct s. Qed.

Lemma string_steady name store : (forall s t, rcv_of (store s t) = rcv_of t) -> steady (string_member alloc j name store).
Proof. intros Hs. unfold string_member. case_match; [|steady]. apply steady_bind; [apply strdup_steady|intros s]. by apply on_test_steady. Qed.

Lemma report_rate_steady : steady (report_rate alloc).
Proof. intros x. unfold wlp, report_rate. destruct (_ =? 0); [done|]. by destruct (cJSON_AddNumberToObject _ _ _ _ _) as [[]| |]. Qed.

Lemma datagram_timeout t : rcv_of (derived_datagram_size t) = rcv_of t /\ rcv_of (whole_datagrams t) = rcv_of t.
Proof. unfold derived_datagram_size, whole_datagrams. cbv zeta. split; by repeat case_match. Qed.

Lemma check_parameters_steady : steady check_parameters.
Proof. unfold check_parameters, iperf_set_error. steady. all: apply on_test_steady; intros; apply datagram_timeout. Qed.

Lemma apply_parameters_steady : steady (apply_parameters alloc j).
Proof.
  unfold apply_parameters, receive_protocol, receive_extent, receive_offload, receive_rates, receive_options.
  repeat lazymatch goal with
    | |- steady (bind _ _) => apply steady_bind; [|intros ?]
    | |- steady (number_member _ _ _ _ _) => by apply number_steady
    | |- steady (string_member _ _ _ _) => by apply string_steady
    | |- steady (flag_member _ _ _ _) => apply flag_steady; intros ??; first [reflexivity|apply reverse_timeout]
    | |- steady (on_test derived_datagram_size) => apply on_test_steady; intros; apply datagram_timeout
    | |- steady (on_test _) => apply on_test_steady; intros; by repeat case_match
    | |- steady (report_rate _) => apply report_rate_steady
    | |- steady check_parameters => apply check_parameters_steady
    | |- steady (select_protocol _) => apply select_protocol_steady
    | |- _ => first [solve [steady]|case_match]
    end.
Qed.
End Parameters.

(** The token is stored in the test of the client. *)
Section Sending.
Context (alloc : nat -> bool) (encode : text -> text -> option text).

Lemma token_timeout t : rcv_of (store_token encode t) = rcv_of t.
Proof. unfold store_token. by repeat case_match. Qed.

Lemma wlp_skip {S A B} (m : CM S A) (k : A -> CM S B) Q s : (forall a s', wlp (k a) Q s') -> wlp (bind m k) Q s.
Proof. intros H. apply wlp_bind, wlp_any, H. Qed.

Lemma parameters_json_timeout t n : wlp (parameters_json alloc encode t) (fun a _ => rcv_of a.2 = rcv_of t) n.
Proof.
  unfold parameters_json. apply wlp_skip. intros [j|] n0; [|done]. do 6 (apply wlp_skip; intros ? ?).
  case_match; [|apply token_timeout]. do 2 (apply wlp_skip; intros ? ?). apply token_timeout.
Qed.

Lemma send_parameters_timeout os has_reallocate t n c r e t' c' :
  send_parameters alloc encode os has_reallocate t n c = Ret (r, e, t', c') -> rcv_of t' = rcv_of t.
Proof.
  unfold send_parameters. pose proof (parameters_json_timeout t n) as H. unfold wlp in H. destruct (parameters_json _ _ _ _) as [[[[j|] t1] n1]| |]; [|by intros [= _ _ <- _]|done..].
  unfold bind. destruct (JSON_write _ _ _ _ _ _) as [[q c1]| |]; [|done..]. destruct (q <? 0); by intros [= _ _ <- _].
Qed.
End Sending.

(** ** Results *)

Lemma on_exchange_steady {A} (m : XM A) : steady m -> steady (on_exchange m).
Proof. intros Hm i. pose proof (Hm (in_exchange i)) as E. unfold wlp, on_exchange in *. by destruct (m (in_exchange i)) as [[a x]| |]. Qed.

Lemma retransmits_flag_timeout v t : rcv_of (store_retransmits v t) = rcv_of t.
Proof. unfold store_retransmits. by repeat case_match. Qed.

Section Results.
Context (alloc : nat -> bool).

Lemma receive_stream_steady o : steady (receive_stream o).
Proof. unfold receive_stream. steady. by apply on_test_steady. Qed.

Lemma receive_streams_steady k j : forall i, steady (receive_streams k i j).
Proof. induction k as [|k IH]; intros i; cbn [receive_streams]; [steady|]. apply steady_bind; [apply receive_stream_steady|intros _; apply IH]. Qed.

Lemma take_output_steady j : steady (take_output alloc j).
Proof. unfold take_output. steady; apply on_exchange_steady; first [apply strdup_steady|steady]. Qed.

Lemma apply_results_steady j : steady (apply_results alloc j).
Proof.
  unfold apply_results, take_results. steady.
  all: first [apply take_output_steady|apply on_exchange_steady]; first [apply strdup_steady|apply receive_streams_steady|apply on_test_steady; intros; first [reflexivity|apply retransmits_flag_timeout]|steady].
Qed.
End Results.

(** ** One side *)

Lemma on_channel_steady {A} (m : NM A) : steady (on_channel m).
Proof. intros s. unfold wlp, on_channel, on_part. by destruct (m _) as [[a c]| |]. Qed.

Lemma on_budget_steady {A} (m : BM A) : steady (on_budget m).
Proof. intros s. unfold wlp, on_budget, on_part. by destruct (m _) as [[a c]| |]. Qed.

Lemma on_incoming_steady {A} (m : IM A) : steady m -> steady (on_incoming m).
Proof. intros Hm s. pose proof (Hm (sd_incoming s)) as E. unfold wlp, on_incoming, on_part in *. by destruct (m (sd_incoming s)) as [[a i]| |]. Qed.
#[export] Hint Resolve on_channel_steady on_budget_steady : steady.

Section Side.
Context (env : environment).

Lemma side_error_steady e : steady (side_error e).
Proof. apply on_incoming_steady, on_exchange_steady. unfold iperf_set_error. steady. Qed.

Lemma write_bounded_steady limit j : steady (write_bounded env limit j).
Proof. intros s. unfold wlp, write_bounded. by destruct (iperf_output_write_results _ _ _ _ _ _ _ _ _ _ _) as [[r c]| |]. Qed.

Lemma read_bounded_steady t : steady (read_bounded env t).
Proof. intros s. unfold wlp, read_bounded. by destruct (iperf_read_bounded_results_socket _ _ _ _ _ _ _ _ _ _ _ _ _ _) as [r| |]. Qed.
#[local] Hint Resolve side_error_steady write_bounded_steady read_bounded_steady : steady.

Lemma exchange_results_steady : steady (iperf_exchange_results env).
Proof.
  unfold iperf_exchange_results, send_results, get_results, read_results, write_results. steady.
  all: apply on_incoming_steady; first [apply apply_results_steady|apply on_exchange_steady; steady].
Qed.
End Side.

(** ** What a process holds *)

Lemma when_failed_steady b c e k : steady c -> steady k -> steady (when_failed b c e k).
Proof. intros Hc Hk. unfold when_failed, failed_call, set_errno. destruct b; [|done]. apply steady_bind; [done|intros _]. steady. Qed.

Ltac holding := unfold set_errno, got_block, free_blocks, freeaddrinfo, opened, close, shutdown, FD_SET, FD_CLR, mapped, munmap; steady.

Lemma close_all_steady l : steady (close_all l).
Proof. induction l as [|fd l IH]; cbn [close_all]; holding. Qed.

Lemma close_listener_steady l : steady (iperf_close_test_listener_socket l).
Proof. unfold iperf_close_test_listener_socket. holding. Qed.
#[export] Hint Resolve close_listener_steady : steady.

Lemma sockopts_steady inet6 r : steady (iperf_common_sockopts inet6 r).
Proof. unfold iperf_common_sockopts. holding. Qed.
#[export] Hint Resolve sockopts_steady : steady.

Section Connections.
Context {os : answers}.

Lemma announce_steady domain proto bind_dev : steady (netannounce domain proto bind_dev).
Proof. unfold netannounce. cbv zeta. repeat first [apply when_failed_steady|progress holding]. Qed.
#[local] Hint Resolve announce_steady : steady.

Lemma check_buffers_steady again undo t k : steady undo -> steady k -> steady (check_buffers again undo t k).
Proof. intros Hu Hk. unfold check_buffers. cbv zeta. by repeat apply when_failed_steady. Qed.

Lemma set_buffers_steady again undo t k : steady undo -> steady k -> steady (set_buffers again undo t k).
Proof. intros Hu Hk. unfold set_buffers. case_match; [done|]. by repeat apply when_failed_steady. Qed.

Lemma tcp_options_steady undo t k : steady undo -> steady k -> steady (set_tcp_options undo t k).
Proof. intros Hu Hk. unfold set_tcp_options. repeat apply when_failed_steady; try done. by apply set_buffers_steady. Qed.

Lemma new_listener_steady domain t : steady (new_listener domain t).
Proof. unfold new_listener. repeat first [apply tcp_options_steady|apply when_failed_steady|progress holding]. Qed.

Lemma tcp_listen_steady domain : steady (iperf_tcp_listen domain).
Proof.
  unfold iperf_tcp_listen. apply steady_bind; [steady|intros t]. cbv zeta. apply steady_bind; [case_match; [apply new_listener_steady|steady]|intros s].
  case_match; [steady|]. apply check_buffers_steady; holding.
Qed.

Lemma udp_listen_steady m : steady m -> steady (iperf_udp_listen m).
Proof. intros Hm. unfold iperf_udp_listen. holding. Qed.

Lemma tcp_accept_steady cookie : steady (iperf_tcp_accept cookie).
Proof. unfold iperf_tcp_accept. repeat first [apply when_failed_steady|progress holding]. Qed.

Lemma buffercheck_steady again : steady (iperf_udp_buffercheck again).
Proof. unfold iperf_udp_buffercheck. apply steady_bind; [steady|intros t]. apply set_buffers_steady; [steady|]. apply check_buffers_steady; steady. Qed.

Lemma udp_accept_steady m : steady m -> steady (iperf_udp_accept m).
Proof.
  intros Hm. unfold iperf_udp_accept, grow_buffers, no_offload, iperf_udp_gso, iperf_udp_gro.
  repeat first [apply buffercheck_steady|apply when_failed_steady|progress holding].
Qed.
End Connections.
#[export] Hint Resolve close_all_steady announce_steady tcp_listen_steady tcp_accept_steady : steady.

Section Streams.
Context (page_size : Z).

Lemma init_stream_steady a : steady (iperf_init_stream a).
Proof. unfold iperf_init_stream. holding. Qed.
#[local] Hint Resolve init_stream_steady : steady.

Lemma add_stream_timeout sp t : rcv_of (iperf_add_stream sp t) = rcv_of t.
Proof. unfold iperf_add_stream. by case_match. Qed.

Lemma new_stream_steady a s sending : steady (iperf_new_stream page_size a s sending).
Proof.
  unfold iperf_new_stream, map_buffer, finish_stream, open_diskfile, err_exit_close_diskfile, err_exit_munmap_buffer, err_exit_close_buffer, err_exit_free_result, err_exit_free_sp.
  holding. all: apply steady_modify; intros q; exact (add_stream_timeout _ (p_test q)).
Qed.

Lemma free_stream_steady sp : steady (iperf_free_stream page_size sp).
Proof. unfold iperf_free_stream. holding. Qed.

Lemma take_connection_steady s k c : steady (take_connection page_size s k c).
Proof. unfold take_connection. pose proof new_stream_steady. holding. Qed.
End Streams.
#[export] Hint Resolve free_stream_steady take_connection_steady : steady.

Lemma init_test_steady now : steady (iperf_init_test now).
Proof. unfold iperf_init_test. holding. Qed.
Lemma send_timers_steady : steady iperf_create_send_timers.
Proof. unfold iperf_create_send_timers. steady. Qed.
#[export] Hint Resolve init_test_steady send_timers_steady : steady.

(** ** Statistics *)

Lemma stats_timeout now info t t' : iperf_stats_callback now info t = Ret t' -> rcv_of t' = rcv_of t.
Proof.
  unfold iperf_stats_callback, iperf_check_total_rate. destruct (stats_streams _ _ _ _ _ _ _) as [[b sps]| |]; [|done..]. cbv zeta.
  repeat case_match; intros; simplify_eq; done.
Qed.

Lemma reset_timeout now info t t' : iperf_reset_stats now info t = Ret t' -> rcv_of t' = rcv_of t.
Proof. unfold iperf_reset_stats. cbv zeta. destruct (reset_streams _ _ _ _ _); [|done..]. by intros [= <-]. Qed.
