(* ===== verification/ServerWaits.v ===== *)
(** * How long a server waits

    No call of [select] in a run of the server waits for more than a second, so
    a request to stop is seen within that time; and a server that nobody calls
    returns when its idle timeout has passed. *)

From S2P Require Import Prelude Bytes Time Timer Double CJson IperfTest ControlChannel ControlChannelSpec BoundedOutput OutputBudget Params Results ResultsTrip.
From S2P Require Import Streams StreamsSpec Connect Measure Auth AuthSpec Session Server SessionSpec ServerSpec Steady.
Local Open Scope c_scope.

Create HintDb quick.

(** ** Waits *)

(** A number of microseconds below a second, as a [timeval] has it. *)
Definition micros (n : Z) : Prop := 0 <= n < 1000000.

(** A valid [timeval] of no more than a second. *)
Definition wait_ok (w : option (Z * Z)) : Prop :=
  match w with Some (sec, usec) => micros usec /\ sec * 1000000 + usec <= 1000000 | None => False end.

Lemma server_timeout_ok t rcv timeout : micros (usecs (rcv_of t)) -> (forall tv, timeout = Some tv -> micros tv.2) ->
  wait_ok (Some (server_timeout t rcv timeout)).
Proof.
  intros Ht Htv. unfold server_timeout. assert (wait_ok (Some (1, 0))) as H1 by (unfold wait_ok, micros; lia).
  assert (forall o : option (Z * Z), (forall tv, o = Some tv -> micros tv.2) ->
    wait_ok (Some match o with Some tv => if 1 <=? tv.1 then (1, 0) else tv | None => (1, 0) end)) as Hcap.
  { intros [[sec usec]|] Ho; [|done]. cbn [fst]. destruct (Z.leb_spec 1 sec); [done|]. specialize (Ho _ eq_refl). unfold wait_ok, micros in *. cbn in *. lia. }
  apply Hcap. intros tv. destruct (state t =? IPERF_START).
  - destruct timeout as [tv'|]; [by apply Htv|]. destruct (0 <? _); [|done]. intros [= <-]. unfold micros. cbn. lia.
  - destruct (negb (mode t =? SENDER)); [|by apply Htv]. intros [= <-]. unfold receive_timeout. destruct (_ || _); [exact Ht|].
    destruct timeout as [tv'|]; cbn [default]; [by apply Htv|]. unfold micros. cbn. lia.
Qed.

(** What the waits of a peer have been, and its receive timeout. *)
Definition waiting (p : peer) := (pr_waits p, rcv_of p).

(** A step of the peer that does not wait and leaves the timeout alone. *)
Definition quick {A} (m : EM A) : Prop := forall p, wlp m (fun _ p' => waiting p' = waiting p) p.

Lemma quick_bind {A B} (m : EM A) (k : A -> EM B) : quick m -> (forall a, quick (k a)) -> quick (bind m k).
Proof. intros Hm Hk p. apply wlp_bind. eapply wlp_mono; [apply Hm|]. intros a p1 E. rewrite <- E. apply Hk. Qed.
Lemma quick_ret {A} (a : A) : quick (ret a).
Proof. done. Qed.
Lemma quick_get : quick get.
Proof. done. Qed.
Lemma quick_gets {A} (f : peer -> A) : quick (gets f).
Proof. done. Qed.
Lemma quick_ask {A} (f : nat -> A) : quick (ask f).
Proof. done. Qed.
Lemma quick_change f : (forall t, rcv_of (f t) = rcv_of t) -> quick (change f).
Proof. intros H p. unfold waiting. cbn. f_equal. apply H. Qed.
Lemma quick_error e : quick (set_error e).
Proof. done. Qed.
Lemma quick_notify c : quick (notify c).
Proof. done. Qed.
Lemma quick_undefined {A} : quick (undefined (A := A)).
Proof. done. Qed.
Lemma quick_out_of_fuel {A} : quick (out_of_fuel (A := A)).
Proof. done. Qed.
Lemma quick_on_side {A} (m : SM A) : steady m -> quick (on_side m).
Proof.
  intros Hm p. pose proof (Hm (pr_side p)) as E. unfold wlp, on_side in *. destruct (m (pr_side p)) as [[a s]| |]; [|done..].
  unfold waiting. cbn. f_equal. exact E.
Qed.
Lemma quick_on_control {A} (m : NM A) : quick (on_control m).
Proof. apply quick_on_side, on_channel_steady. Qed.
Lemma quick_on_process {A} (m : PM A) : steady m -> quick (on_process m).
Proof.
  intros Hm p. pose proof (Hm (process_of p)) as E. unfold wlp, on_process in *. destruct (m (process_of p)) as [[a q]| |]; [|done..].
  unfold waiting. cbn. f_equal. exact E.
Qed.
Lemma quick_on_counters m : (forall k t t', m k t = Ret t' -> rcv_of t' = rcv_of t) -> quick (on_counters m).
Proof.
  intros Hm p. specialize (Hm (pr_tick p) (peer_test p)). unfold wlp, on_counters. destruct (m (pr_tick p) (peer_test p)) as [t| |]; [|done..].
  unfold waiting. cbn. f_equal. by apply Hm.
Qed.
Lemma quick_modify f : (forall p, waiting (f p) = waiting p) -> quick (modify f).
Proof. intros H p. apply H. Qed.

#[export] Hint Resolve quick_ret quick_get quick_gets quick_ask quick_error quick_notify quick_undefined quick_out_of_fuel quick_on_control : quick.

Ltac quick := repeat first
  [progress eauto 2 with quick
  |lazymatch goal with
   | |- quick (bind _ _) => apply quick_bind; [|intros ?]
   | |- quick (modify _) => by apply quick_modify
   | |- quick (change _) => by apply quick_change
   | |- quick (on_process _) => apply quick_on_process; solve [unfold close, shutdown, FD_SET, FD_CLR, opened, iperf_close_test_listener; steady]
   | |- quick (on_side _) => apply quick_on_side; solve [eauto 2 with steady]
   | |- _ => case_match
   end].

Section Quick.
Context {crypto : cryptography} (mc : machine).

Lemma quick_send v : quick (iperf_set_send_state mc v).
Proof. unfold iperf_set_send_state, iperf_set_test_state. quick. Qed.
Lemma quick_number v : quick (send_number mc v).
Proof. unfold send_number. quick. Qed.
Lemma quick_start_cpu : quick (start_cpu_util mc).
Proof. unfold start_cpu_util. quick. Qed.
Lemma quick_store_cpu : quick (store_cpu_util mc).
Proof. unfold store_cpu_util. quick. Qed.
Lemma quick_drain fuel : quick (drain mc fuel).
Proof. induction fuel as [|fuel IH]; cbn [drain]; quick. Qed.
Hint Resolve quick_send quick_number quick_start_cpu quick_store_cpu quick_drain : quick.

Lemma quick_sync_close s : quick (iperf_sync_close_socket mc s).
Proof. unfold iperf_sync_close_socket. quick. Qed.
Lemma quick_stats : quick (stats_callback mc).
Proof. apply quick_on_counters. intros k t t'. apply stats_timeout. Qed.
Hint Resolve quick_sync_close quick_stats : quick.
Lemma quick_finish : quick (finish_measuring mc).
Proof. unfold finish_measuring, release_streams. quick. Qed.
Lemma quick_results : quick (on_side (iperf_exchange_results (m_env mc))).
Proof. apply quick_on_side, exchange_results_steady. Qed.
Hint Resolve quick_finish quick_results : quick.

Lemma quick_message : quick (iperf_handle_message_server mc).
Proof. unfold iperf_handle_message_server, iperf_react_server, end_test, client_terminated, report_now, release_streams, iperf_set_test_state. quick. Qed.

Lemma quick_authorize : quick (authorize mc).
Proof. intros p. unfold wlp, authorize. destruct (test_is_authorized _ _ _) as [[r [e|]]| |]; done. Qed.
Lemma quick_deny : quick (deny mc).
Proof. intros p. unfold wlp, deny. destruct (Nwrite _ _ _) as [[r c]| |]; done. Qed.
Hint Resolve quick_authorize quick_deny : quick.

Lemma get_parameters_steady : steady (get_parameters_side mc).
Proof.
  intros s. unfold wlp, get_parameters_side, get_parameters. cbn [fst snd].
  destruct (JSON_read _ _ _ _ _) as [[[j|] c]| |]; [|done..]. set (x := _ <| x_r := 0 |>).
  pose proof (apply_parameters_steady (e_alloc (m_env mc)) j x) as E. unfold wlp in E. destruct (apply_parameters _ _ _) as [[r x']| |]; [exact E|done..].
Qed.

Lemma send_parameters_steady a : steady (send_parameters_side mc a).
Proof.
  intros s. unfold wlp, send_parameters_side. destruct (send_parameters _ _ _ _ _ _ _) as [[[[r e] t] c]| |] eqn:E; [|done..].
  apply send_parameters_timeout in E. by destruct e.
Qed.

Lemma protocol_listen_steady a domain t : steady (protocol_listen mc a domain t).
Proof. unfold protocol_listen. steady. apply udp_listen_steady, announce_steady. Qed.
Hint Resolve get_parameters_steady send_parameters_steady protocol_listen_steady : steady.

Lemma quick_parameters : quick (iperf_exchange_parameters mc).
Proof. unfold iperf_exchange_parameters. quick. Qed.
Hint Resolve quick_parameters : quick.

Lemma quick_accept : quick (iperf_accept mc).
Proof. unfold iperf_accept, welcome, iperf_setaffinity. quick. Qed.

Lemma quick_for_streams body : (forall i sp, quick (body i sp)) -> forall sps i, quick (for_streams i sps body).
Proof. intros H. induction sps as [|sp sps IH]; intros i; cbn [for_streams]; quick. Qed.

Lemma quick_on_stream i f : quick (on_stream_at i f).
Proof. done. Qed.
Hint Resolve quick_on_stream : quick.

Lemma quick_report : quick (report_error mc).
Proof. unfold report_error. quick. Qed.
Lemma quick_stop_worker i sp : quick (stop_stream_worker i sp).
Proof. unfold stop_stream_worker. quick. Qed.
Lemma quick_join sp : quick (pthread_join mc sp).
Proof. unfold pthread_join. quick. Qed.
Hint Resolve quick_stop_worker quick_join : quick.
Lemma quick_stop_thread i sp : quick (stop_thread mc i sp).
Proof. unfold stop_thread. quick. Qed.
Lemma quick_expire_thread i sp : quick (expire_thread mc i sp).
Proof. unfold expire_thread. quick. Qed.
Lemma quick_close_stream i sp : quick (close_stream i sp).
Proof. unfold close_stream. quick. Qed.
Lemma quick_stop_threads body : (forall i sp, quick (body i sp)) -> quick (stop_threads body).
Proof. intros H. unfold stop_threads. quick. by apply quick_for_streams. Qed.
Lemma quick_close_sockets : quick (close_sockets mc).
Proof. unfold close_sockets. quick. apply quick_for_streams, quick_close_stream. Qed.
Lemma quick_free sps : quick (free_streams mc sps).
Proof. induction sps as [|sp sps IH]; cbn [free_streams]; quick. Qed.
Lemma quick_timer_proc : quick (server_timer_proc mc).
Proof. unfold server_timer_proc. quick; [apply quick_stop_threads, quick_expire_thread|apply quick_free]. Qed.
Lemma quick_announce n : quick (announce mc n).
Proof. induction n as [|n IH]; cbn [announce]; quick. Qed.
Hint Resolve quick_announce : quick.
Lemma quick_listen : quick (iperf_server_listen mc).
Proof. unfold iperf_server_listen. quick. Qed.
Lemma quick_create i sps : quick (create_threads mc i sps).
Proof. revert i. induction sps as [|sp sps IH]; intros i; cbn [create_threads]; unfold pthread_create; quick. Qed.

End Quick.

(** ** Steps of the server *)

Definition waits_ok (s : session) : Prop := Forall wait_ok (pr_waits (world s)).

(** Short waits so far, and a receive timeout that is a valid [timeval]. *)
Definition settled (s : session) : Prop := waits_ok s /\ micros (usecs (rcv_of (world s))).

(** A step whose waits are short. *)
Definition bounded {A} (m : SeM A) : Prop := forall s, settled s -> wlp m (fun _ s' => settled s') s.

Lemma bounded_bind {A B} (m : SeM A) (k : A -> SeM B) : bounded m -> (forall a, bounded (k a)) -> bounded (bind m k).
Proof. intros Hm Hk s Hs. apply wlp_bind. eapply wlp_mono; [by apply Hm|]. intros a s1 H1. by apply Hk. Qed.
Lemma bounded_ret {A} (a : A) : bounded (ret a).
Proof. by intros s Hs. Qed.
Lemma bounded_undefined {A} : bounded (undefined (A := A)).
Proof. by intros s Hs. Qed.
Lemma bounded_out_of_fuel {A} : bounded (out_of_fuel (A := A)).
Proof. by intros s Hs. Qed.

Lemma bounded_quick {A} (m : EM A) : quick m -> bounded (on_peer m).
Proof.
  intros Hm s Hs. pose proof (Hm (world s)) as H. unfold wlp, on_peer in *. destruct (m (world s)) as [[a p]| |]; [|done..].
  unfold waiting in H. injection H as H1 H2. unfold settled, waits_ok in *. cbn. by rewrite H1, H2.
Qed.

Lemma bounded_world {A} (m : SeM A) : keeps_world m -> bounded m.
Proof. intros Hm s Hs. apply wlp_kw; [done|]. intros a s' E. unfold settled, waits_ok. by rewrite E. Qed.

Lemma bounded_then {A B} (m : part A) (k : A -> part B) : bounded m -> (forall a, bounded (k a)) -> bounded (and_then m k).
Proof. intros Hm Hk. apply bounded_bind; [done|]. intros [a|v]; [apply Hk|apply bounded_ret]. Qed.
Lemma bounded_proceed {A} (m : SeM A) : bounded m -> bounded (proceed m).
Proof. intros Hm. apply bounded_bind; [done|]. intros a. apply bounded_ret. Qed.
Lemma bounded_leave {A} v : bounded (leave (A := A) v).
Proof. apply bounded_ret. Qed.
Lemma bounded_known {A} (o : option A) : bounded (known o).
Proof. destruct o; [apply bounded_ret|apply bounded_undefined]. Qed.

Create HintDb bounded.
#[export] Hint Resolve bounded_ret bounded_undefined bounded_out_of_fuel bounded_leave bounded_known : bounded.
#[export] Hint Resolve bounded_world : bounded.
#[export] Hint Extern 2 (keeps_world _) => solve [eauto 2 with iperf] : bounded.

Ltac bounded := repeat first
  [progress eauto 3 with bounded quick
  |lazymatch goal with
   | |- bounded (and_then _ _) => apply bounded_then; [|intros ?]
   | |- bounded (bind _ _) => apply bounded_bind; [|intros ?]
   | |- bounded (proceed _) => apply bounded_proceed
   | |- bounded (on_peer _) => apply bounded_quick; unfold read_clock, iperf_set_test_state, iperf_clearaffinity; solve [quick]
   | |- _ => case_match
   end].

Section Bounded.
Context {crypto : cryptography} (mc : machine) (Hwork : forall k t, micros (usecs (rcv_of t)) -> micros (usecs (rcv_of (m_work mc k t)))).
Hint Resolve quick_send quick_number quick_start_cpu quick_store_cpu quick_message quick_accept quick_parameters quick_report quick_close_sockets quick_timer_proc
  quick_listen quick_create quick_join : quick.

Lemma quick_stop : quick (stop_threads (stop_thread mc)).
Proof. eapply quick_stop_threads; try exact mc. intros i sp. apply quick_stop_thread. Qed.
Hint Resolve quick_stop : quick.

Lemma bounded_cancel field store : (forall p, waiting (store p) = waiting p) -> bounded (cancel_timer field store).
Proof.
  intros H. unfold cancel_timer. apply bounded_bind; [apply bounded_quick; quick|]. intros p. destruct (field p); [|apply bounded_ret].
  apply bounded_bind; [apply bounded_world, kw_cancel|]. intros _. apply bounded_quick. by apply quick_modify.
Qed.

Lemma bounded_cleanup : bounded (cleanup_server mc).
Proof. unfold cleanup_server. bounded; by apply bounded_cancel. Qed.
Hint Resolve bounded_cleanup : bounded.

Lemma bounded_give_up {A} e v : bounded (give_up_run (A := A) mc e v).
Proof. unfold give_up_run. bounded. Qed.
Hint Resolve bounded_give_up : bounded.

Lemma bounded_guarded m : bounded m -> bounded (guarded mc m).
Proof. intros H. unfold guarded. bounded. Qed.
Lemma bounded_sent m : quick m -> bounded (sent mc m).
Proof. intros H. unfold sent. bounded. Qed.

Lemma bounded_start_timer now proc us per store : (forall o p, waiting (store o p) = waiting p) -> bounded (start_timer mc now proc us per store).
Proof. intros H. unfold start_timer. bounded. Qed.

Lemma bounded_timers a b c g : bounded (create_timers mc a b c g).
Proof. unfold create_timers, start_test_timer, start_interval. bounded; by apply bounded_start_timer. Qed.
Lemma bounded_omit_timer proc : bounded (create_omit_timer mc proc).
Proof. unfold create_omit_timer. bounded; by apply bounded_start_timer. Qed.
Hint Resolve bounded_guarded bounded_sent bounded_timers bounded_omit_timer : bounded.

Lemma bounded_rate {A} : bounded (rate_exceeded (A := A) mc).
Proof. unfold rate_exceeded. bounded. Qed.
Lemma bounded_no_activity v : bounded (no_activity mc v).
Proof. unfold no_activity. bounded. Qed.
Lemma bounded_listener a rs v : bounded (serve_listener mc a rs v).
Proof. unfold serve_listener. bounded. apply bounded_guarded, bounded_quick, quick_accept. Qed.
Lemma bounded_control a rs : bounded (serve_control mc a rs).
Proof. unfold serve_control. bounded. apply bounded_guarded, bounded_quick, quick_message. Qed.
Lemma quick_data : quick (protocol_accept mc).
Proof.
  unfold protocol_accept. quick. apply quick_on_process. case_match; [apply tcp_accept_steady|apply udp_accept_steady, announce_steady].
Qed.
Hint Resolve quick_data : quick.
Lemma bounded_data a rs v : bounded (serve_data mc a rs v).
Proof. unfold serve_data. bounded. Qed.
Lemma bounded_release : bounded (release_listener mc).
Proof. unfold release_listener. bounded. Qed.
Lemma bounded_requested : bounded (check_requested_rate mc).
Proof. unfold check_requested_rate. bounded. Qed.
Lemma bounded_attributes e : bounded (thread_attributes mc e).
Proof. unfold thread_attributes. bounded. Qed.
Hint Resolve bounded_attributes : bounded.
Lemma bounded_workers : bounded (start_workers mc).
Proof. unfold start_workers. bounded. Qed.
Hint Resolve bounded_rate bounded_no_activity bounded_listener bounded_control bounded_data bounded_release bounded_requested bounded_workers : bounded.

Lemma bounded_start v : bounded (start_test mc v).
Proof.
  unfold start_test. bounded.
  all: first [by apply bounded_sent, quick_send|apply bounded_guarded, bounded_quick, quick_on_process; solve [eauto with steady]|by apply bounded_guarded, bounded_timers|by apply bounded_guarded, bounded_omit_timer].
Qed.
Hint Resolve bounded_start : bounded.
Lemma bounded_serve a rs v : bounded (serve mc a rs v).
Proof. unfold serve. bounded. Qed.

(** The timers' procedures. *)
Lemma quick_reset : quick (on_counters (fun k => iperf_reset_stats (m_stamps mc k 0) (m_info mc k))).
Proof. apply quick_on_counters. intros k t t'. apply reset_timeout. Qed.
Lemma quick_stats_timer : quick (server_stats_timer_proc mc).
Proof. unfold server_stats_timer_proc, unless_done. pose proof (quick_stats mc). quick. Qed.
Hint Resolve quick_reset quick_stats_timer : quick.
Lemma bounded_procedure proc u now : bounded (call_procedure mc proc u now).
Proof.
  unfold call_procedure, test_timer_proc, server_reporter_timer_proc, unless_done, omit_timer_proc, reset_timer. bounded.
Qed.
Hint Resolve bounded_procedure : bounded.

Lemma bounded_run_loop fuel now : forall t, bounded (tmr_run_loop (call_procedure mc) fuel now t).
Proof. induction fuel as [|fuel IH]; intros [t|]; cbn [tmr_run_loop]; unfold set_data, list_resort; bounded. Qed.
Lemma bounded_run fuel v : bounded (run_timers mc fuel v).
Proof. unfold run_timers, tmr_run. bounded. apply bounded_run_loop. Qed.

Lemma bounded_select timeout : wait_ok timeout -> bounded (on_peer (select mc timeout)).
Proof.
  intros Hw s [Hs Ht]. unfold wlp, on_peer, select, bind, modify, ask, change, ret. unfold settled, waits_ok in *. cbn. split; [|by apply Hwork].
  apply Forall_app. split; [done|by apply Forall_singleton].
Qed.
Hint Resolve bounded_serve bounded_run : bounded.

(** The test as it is read, and the time to the next timer. *)
Lemma bounded_test {B} (k : iperf_test -> SeM B) : (forall t, micros (usecs (rcv_of t)) -> bounded (k t)) -> bounded (t <- on_peer (gets peer_test) ;; k t).
Proof. intros Hk s Hs. apply wlp_bind. apply Hk; [apply Hs|]. by destruct s. Qed.

Lemma timeout_micros now t s : wlp (tmr_timeout (Some now) t) (fun o _ => forall tv, o = Some tv -> micros tv.2) (s : session).
Proof.
  unfold tmr_timeout. apply wlp_skip. intros [h|] s1; [|done]. apply wlp_skip. intros x s2. destruct (iperf_time_diff _ _) as [d past]. cbv zeta.
  intros tv [= <-]. unfold micros. cbn. apply Z.mod_pos_bound. lia.
Qed.

Lemma bounded_timeout {B} now t (k : option (Z * Z) -> SeM B) : (forall o, (forall tv, o = Some tv -> micros tv.2) -> bounded (k o)) ->
  bounded (o <- tmr_timeout (Some now) t ;; k o).
Proof.
  intros Hk s Hs. assert (bounded (tmr_timeout (Some now) t : SeM (option (Z * Z)))) as Hb by bounded.
  specialize (Hb s Hs). pose proof (timeout_micros now t s) as Hm. unfold wlp, bind in *.
  destruct (tmr_timeout (Some now) t s) as [[o s']| |]; [|done..]. exact (Hk o Hm s' Hb).
Qed.

Lemma bounded_iteration fuel v : bounded (iteration mc fuel v).
Proof.
  unfold iteration, note_progress. cbv zeta. apply bounded_test. intros t Ht. case_match; [bounded|]. apply bounded_bind; [bounded|intros rs]. apply bounded_bind; [bounded|intros now].
  apply bounded_bind; [bounded|intros t1]. apply bounded_timeout. intros expiry He. apply bounded_bind; [by apply bounded_select, server_timeout_ok|intros a]. bounded.
Qed.
Hint Resolve bounded_iteration : bounded.

Lemma bounded_loop fuel : forall v, bounded (server_loop mc fuel v).
Proof. induction fuel as [|fuel IH]; intros v; cbn [server_loop]; bounded. Qed.
Hint Resolve bounded_loop : bounded.

(** C18: no call of [select] in a run of the server is without a timeout or
    waits for more than a second, seconds and microseconds together, however the
    run goes and whatever the timers are, so that the next look at [done] is
    never further away.  The timeout for receiving that the embedding program
    sets has to be a valid [timeval], with less than a million microseconds;
    nothing the server does changes it. *)
Theorem server_waits fuel s r s' (Hrun : iperf_run_server mc fuel s = Ret (r, s')) (Hs : waits_ok s)
    (Ht : micros (usecs (rcv_timeout (settings (peer_test (world s)))))) : waits_ok s'.
Proof.
  assert (bounded (iperf_run_server mc fuel)) as H by (unfold iperf_run_server, server_body; bounded).
  specialize (H s (conj Hs Ht)). unfold wlp in H. rewrite Hrun in H. apply H.
Qed.
End Bounded.

(** ** A server nobody calls *)

Section Idle.
Context {crypto : cryptography} (mc : machine) (now : nat -> iperf_time).
Context (Hselect : forall k, sel_result (m_select mc k) = 0) (Hwork : forall k t, m_work mc k t = t)
  (Hclock : forall k, m_now mc k = Some (now k)) (Hok : forall k, time_ok (now k)).

Definition own_fields (p : peer) := (timer p, stats_timer p, reporter_timer p, omit_timer p).

(** Listening, without a client or a timer. *)
Record idle (limit : Z) (p : peer) : Prop := mk_idle {
  id_state : state (peer_test p) = IPERF_START;
  id_done : done (peer_test p) = 0;
  id_rate : bitrate_limit_exceeded (peer_test p) = 0;
  id_blocks : test_blocks_received (peer_test p) = 0;
  id_limit : idle_timeout (settings (peer_test p)) = limit;
  id_timers : own_fields p = (None, None, None, None) }.

Lemma cleanup_without_timers s : own_fields (world s) = (None, None, None, None) ->
  exists s', cleanup_server mc s = Ret (tt, s').
Proof.
  unfold own_fields. intros Ht. destruct (cleanup_start mc s) as (p1 & [_ _ _ _ M1] & E). rewrite Ht in M1. injection M1 as M1 M2 M3 M4.
  unfold cleanup_server. rewrite E. unfold cancel_timer, bind, on_peer, get, change, modify. cbn [world heap timers free_timers]. rewrite M2. unfold ret. cbn [world heap timers free_timers].
  rewrite M3. cbn [world heap timers free_timers]. rewrite M4. cbn [world heap timers free_timers].
  change (timer (with_test (fun t => t <| congestion_used := None |>) p1)) with (timer p1). rewrite M1. by eexists.
Qed.

Lemma give_up_without_timers {A} e v s : own_fields (world s) = (None, None, None, None) ->
  exists s', give_up_run (A := A) mc e v s = Ret (inr v, s').
Proof.
  intros Ht. destruct (cleanup_without_timers s Ht) as [s' E]. unfold give_up_run, bind. rewrite E. by destruct e; eexists.
Qed.

Definition passed (t0 : iperf_time) (limit : Z) (k : nat) : Prop := iperf_time_in_usecs t0 + limit * SEC_TO_US <= iperf_time_in_usecs (now k).

(** A later state of the same idle peer. *)
Definition later (n : nat) (s s' : session) : Prop := timers s' = timers s /\ pr_tick (world s') = (pr_tick (world s) + n)%nat /\
  peer_test (world s') = peer_test (world s) /\ own_fields (world s') = own_fields (world s).

Lemma idle_same limit p p' : peer_test p' = peer_test p -> own_fields p' = own_fields p -> idle limit p -> idle limit p'.
Proof. intros E1 E2 []. split; rewrite ?E1, ?E2; done. Qed.

Lemma idle_later limit n s s' : later n s s' -> idle limit (world s) -> idle limit (world s').
Proof. intros (_ & _ & E1 & E2). by apply idle_same. Qed.

Lemma later_trans n m s1 s2 s3 : later n s1 s2 -> later m s2 s3 -> later (n + m) s1 s3.
Proof. intros (E1 & T1 & I1) (E2 & T2 & I2). unfold later. split; [congruence|]. split; [lia|]. split; [destruct I1, I2|destruct I1, I2]; congruence. Qed.

Lemma read_later old s : wp (on_peer (read_clock mc old)) (fun o s' => o = Some (now (pr_tick (world s))) /\ later 1 s s') s.
Proof.
  apply wp_on_peer. unfold read_clock. apply wp_bind, wp_ask. rewrite Hclock. wp_step. split; [done|]. split; [done|]. split; [cbn; lia|done].
Qed.

Lemma select_later timeout s : wp (on_peer (select mc timeout)) (fun a s' => sel_result a = 0 /\ later 2 s s') s.
Proof.
  apply wp_on_peer. unfold select. wp_step. apply wp_modify. apply wp_bind, wp_ask, wp_bind, wp_ask, wp_bind, wp_modify. wp_step. split; [apply Hselect|]. split; [done|]. split; [cbn; lia|].
  split; [|done]. match goal with |- peer_test ?x = _ => change (peer_test x) with (m_work mc (S (pr_tick (world s))) (peer_test (world s))) end. apply Hwork.
Qed.

(** The time since something came. *)
Lemma no_activity_round v s limit t0 : idle limit (world s) -> 0 < limit -> time_ok t0 -> last_receive_time v = Some t0 -> last_receive_blocks v = 0 ->
  wp (no_activity mc v) (fun r s' => r = inr 2 \/ ~ passed t0 limit (pr_tick (world s)) /\ later 1 s s' /\
    r = inl (v <| lv_now := Some (now (pr_tick (world s))) |>)) s.
Proof.
  intros Hi Hlim Ho Ev Eb. unfold no_activity. wp_step. eapply wp_mono; [apply read_later|]. intros o s1 [-> L1]. cbv zeta. cbn [lv_now update known last_receive_time]. wp_step.
  apply wp_bind. rewrite Ev. cbn [known]. wp_step. wp_step. apply wp_on_peer. wp_step.
  pose proof (idle_later _ _ _ _ L1 Hi) as [Hs Hd Hr Hb Hl Hts]. cbn [world heap timers free_timers]. replace (mk_tstate (heap s1) (timers s1) (free_timers s1) (world s1)) with s1 by (by destruct s1).
  pose proof (diff_spec (now (pr_tick (world s))) t0 (Hok _) Ho) as Hdiff. destruct (iperf_time_diff (now (pr_tick (world s))) t0) as [d past]. destruct Hdiff as (_ & Hus & ->).
  destruct (Z.leb_spec (iperf_time_in_usecs (now (pr_tick (world s)))) (iperf_time_in_usecs t0)).
  - change (1 =? 0) with false. cbn [negb]. unfold proceed. do 2 wp_step. right. split; [unfold passed, SEC_TO_US; lia|]. by split.
  - change (0 =? 0) with true. cbn [negb]. cbv zeta. rewrite Hs, Hl, Hus. change (IPERF_START =? IPERF_START) with true. cbv iota. rewrite (proj2 (Z.ltb_lt 0 _)) by lia. cbn [andb].
    destruct (Z.leb_spec (limit * SEC_TO_US) (Z.abs (iperf_time_in_usecs (now (pr_tick (world s))) - iperf_time_in_usecs t0))).
    + destruct (give_up_without_timers (A := loop_variables) None 2 s1 Hts) as [s' E]. eapply returns_wp; [exact E|]. by left.
    + unfold proceed. do 2 wp_step. right. split; [unfold passed; lia|]. by split.
Qed.

Lemma no_timeout (s : session) o c : timers s = None -> wp (tmr_timeout o c) (fun r s' => r = None /\ s' = s) s.
Proof. intros E. unfold tmr_timeout. wp_step. wp_step. rewrite E. by wp_step. Qed.

(** One round: the end, or too early for it. *)
Lemma idle_round fuel v s limit t0 : timers s = None -> idle limit (world s) -> 0 < limit -> time_ok t0 ->
  last_receive_time v = Some t0 -> last_receive_blocks v = 0 ->
  wp (iteration mc fuel v) (fun r s' => r = inr 2 \/ ~ passed t0 limit (pr_tick (world s) + 3) /\ later 5 s s' /\
    exists v', r = inl v' /\ last_receive_time v' = Some t0 /\ last_receive_blocks v' = 0) s.
Proof.
  intros Ht Hi Hlim Ho Ev Eb. unfold iteration. wp_step. apply wp_on_peer. wp_step. replace (mk_tstate (heap s) (timers s) (free_timers s) (world s)) with s by (by destruct s).
  rewrite (id_rate _ _ Hi). cbn [Z.eqb negb]. wp_step. apply wp_on_peer. wp_step. replace (mk_tstate (heap s) (timers s) (free_timers s) (world s)) with s by (by destruct s).
  wp_step. eapply wp_mono; [apply read_later|]. intros o s1 [-> L1]. cbv zeta. cbn [lv_now update known]. wp_step. wp_step.
  wp_step. assert (timers s1 = None) as Et1 by (by rewrite (proj1 L1)). eapply wp_mono; [by apply no_timeout|]. intros r s' [-> ->].
  wp_step. eapply wp_mono; [apply select_later|]. intros a s2 [Ha L2]. pose proof (later_trans _ _ _ _ _ L1 L2) as L.
  pose proof (idle_later _ _ _ _ L Hi) as Hi2. wp_step. apply wp_on_peer. wp_step. replace (mk_tstate (heap s2) (timers s2) (free_timers s2) (world s2)) with s2 by (by destruct s2).
  rewrite (id_done _ _ Hi2), Ha. cbn [Z.eqb negb Z.ltb Z.compare andb orb]. apply wp_bind.
  eapply wp_mono; [by apply (no_activity_round _ _ limit t0)|]. intros r s3 [->|(Hnp & L3 & ->)]; cbv beta iota; [wp_step; by left|].
  pose proof (later_trans _ _ _ _ _ L L3) as L'. pose proof (idle_later _ _ _ _ L' Hi) as Hi3. rewrite (proj1 (proj2 L)) in Hnp.
  wp_step. apply wp_on_peer. unfold note_progress. do 3 wp_step. rewrite (id_blocks _ _ Hi3). cbn [last_receive_blocks update]. rewrite Eb. cbn [Z.ltb Z.compare].
  replace (mk_tstate (heap s3) (timers s3) (free_timers s3) (world s3)) with s3 by (by destruct s3).
  apply wp_bind. unfold proceed at 1. do 3 wp_step. unfold proceed, run_timers. wp_step. wp_step.
  eapply wp_mono; [apply read_later|]. intros o s4 [-> L4]. pose proof (later_trans _ _ _ _ _ L' L4) as L5. cbn [known]. do 2 wp_step.
  wp_step. unfold tmr_run. wp_step. wp_step. rewrite (proj1 L5), Ht. destruct fuel; cbn [tmr_run_loop]; wp_step; wp_step; wp_step; right; (split; [exact Hnp|]; split; [exact L5|]; by eexists).
Qed.

Lemma idle_loop limit t0 N : 0 < limit -> time_ok t0 -> (forall k, (N <= k)%nat -> passed t0 limit k) -> forall n v s, timers s = None -> idle limit (world s) ->
  last_receive_time v = Some t0 -> last_receive_blocks v = 0 -> (N <= pr_tick (world s) + 3 + 5 * n)%nat ->
  wp (server_loop mc (S n) v) (fun r _ => r = inr 2) s.
Proof.
  intros Hlim Ho HN. induction n as [|n IH]; intros v s Ht Hi Ev Eb Hk; rewrite <- ?plus_n_O in *.
  all: cbn [server_loop]; wp_step; apply wp_on_peer; wp_step; rewrite (id_state _ _ Hi); change (IPERF_START =? IPERF_DONE) with false; cbv iota;
    replace (mk_tstate (heap s) (timers s) (free_timers s) (world s)) with s by (by destruct s).
  all: apply wp_bind; eapply wp_mono; [by apply (idle_round _ v s limit t0)|]; intros r s' [->|(Hnp & L & v' & -> & Ev' & Eb')]; cbv beta iota; [by wp_step|].
  - destruct Hnp. apply HN. lia.
  - pose proof L as (Et & Ek & _). apply IH; [congruence|by apply (idle_later _ _ _ _ L)|done|done|rewrite Ek; lia].
Qed.

(** C16: a server that nobody calls returns.  If it could listen and has an
    idle timeout, no descriptor ever becomes ready and the clock passes the
    timeout, then [iperf_run_server] gives 2 after finitely many rounds, with
    everything released. *)
Theorem idle_server_returns s p0 limit N (Hlisten : iperf_server_listen mc (world s) = Ret (0, p0)) (Ht : timers s = None) (Hlim : 0 < limit)
    (Hi : idle limit (with_test (fun t => t <| state := IPERF_START |>) p0))
    (HN : forall k, (N <= k)%nat -> passed (now (pr_tick p0)) limit k) :
  exists fuel s', iperf_run_server mc fuel s = Ret (2, s') /\ released (world s').
Proof.
  exists (S N). assert (wp (iperf_run_server mc (S N)) (fun r _ => r = 2) s) as Hw.
  { unfold iperf_run_server, server_body. wp_step. wp_step. unfold wp at 1, on_peer at 1. rewrite Hlisten. cbn [Z.ltb Z.compare].
    wp_step. apply wp_on_peer. wp_step. cbn [world heap timers free_timers]. assert (done (peer_test p0) = 0) as -> by exact (id_done _ _ Hi). cbn [Z.eqb negb].
    wp_step. eapply wp_mono; [apply read_later|]. intros o s1 [-> (Et & Ek & E1 & E2)]. cbn [world timers] in *. wp_step. apply wp_on_peer, wp_modify. wp_step. apply wp_on_peer. wp_step. cbn [world heap timers free_timers].
    apply wp_bind. eapply wp_mono; [apply (idle_loop limit (now (pr_tick p0)) N Hlim (Hok _) HN N)|].
    - cbn [timers]. congruence.
    - cbn [world]. eapply (idle_same limit (with_test (fun t => t <| state := IPERF_START |>) p0)); [|exact E2|exact Hi].
      change (((peer_test (world s1)) <| state := IPERF_START |>) = ((peer_test p0) <| state := IPERF_START |>)). by rewrite E1.
    - done.
    - done.
    - lia.
    - intros r s2 ->. by do 2 wp_step. }
  destruct (wp_returns _ _ _ Hw) as (r & s' & E & ->). exists s'. split; [exact E|].
  pose proof (run_releases mc (S N) s) as Hr. unfold wlp in Hr. by rewrite E in Hr.
Qed.
End Idle.

(** ** Examples *)

Lemma server_waits_witness :
  exists s', iperf_run_server (crypto := sample_cryptography) stopping_machine 1 (sample_session server_peer) = Ret (0, s') /\ waits_ok s'.
Proof.
  destruct stopped_run as [s' E]. exists s'. split; [exact E|].
  apply (server_waits (crypto := sample_cryptography) stopping_machine (fun _ _ H => H) 1 (sample_session server_peer) 0 s' E); [apply Forall_nil_2|by split; vm_compute].
Defined.

(** A server that gives up after two seconds. *)
Definition idle_peer : peer :=
  with_test (fun t => t <| settings := (settings t) <| idle_timeout := 2 |> |> <| streams := [] |>) server_peer.

Definition listening : peer :=
  match iperf_server_listen sample_machine idle_peer with Ret (_, p) => p | _ => idle_peer end.

Lemma listening_eq : iperf_server_listen sample_machine idle_peer = Ret (0, listening).
Proof. by vm_compute. Qed.

Lemma listening_idle : idle 2 (with_test (fun t => t <| state := IPERF_START |>) listening).
Proof. split; by vm_compute. Qed.

Lemma listening_tick : pr_tick listening = 1%nat.
Proof. by vm_compute. Qed.

Lemma sample_clock_ok k : time_ok (sample_clock k).
Proof. unfold time_ok, sample_clock. cbn. lia. Qed.

Lemma sample_passed k : (3 <= k)%nat -> passed sample_clock (sample_clock 1) 2 k.
Proof. intros H. unfold passed, sample_clock, iperf_time_in_usecs, SEC_TO_US. cbn [secs usecs]. lia. Qed.

Lemma idle_server_returns_witness :
  exists fuel s', iperf_run_server (crypto := sample_cryptography) sample_machine fuel (sample_session idle_peer) = Ret (2, s') /\ released (world s').
Proof.
  apply (idle_server_returns (crypto := sample_cryptography) sample_machine sample_clock (fun _ => eq_refl) (fun _ _ => eq_refl) (fun _ => eq_refl) sample_clock_ok
    (sample_session idle_peer) listening 2 3 listening_eq eq_refl eq_refl listening_idle).
  rewrite listening_tick. exact sample_passed.
Defined.
