(* ===== verification/ClientSpec.v ===== *)
(** * The end of a client's run

    After an error a client stops the workers of the streams that are not done,
    closes what it holds and tells the server: it always comes to the end of
    this, and reports the error it had. *)

From S2P Require Import Prelude Bytes Time Timer Double CJson IperfTest ControlChannel ControlChannelSpec OutputBudget Params Results ResultsTrip.
From S2P Require Import Streams StreamsSpec Connect Measure Auth AuthSpec Session Server Client SessionSpec ServerSpec.
Local Open Scope c_scope.

(** ** Workers *)

(** What [abandon_worker] makes of a stream. *)
Definition abandoned (sp : iperf_stream) : iperf_stream := if stream_done sp =? 0 then stopped sp else sp.

(** The streams whose workers may run. *)
Definition undone (sps : list iperf_stream) : list iperf_stream := List.filter (fun sp => stream_done sp =? 0) sps.

Section Abandon.
Context {crypto : cryptography} (mc : machine) (Hp : prompt (e_os (m_env mc))) (Hj : joins mc).

Lemma abandon_worker_spec pre sp post p : streams (peer_test p) = pre ++ sp :: post ->
  wp (abandon_worker mc (length pre) sp) (fun _ p' => streams (peer_test p') = pre ++ abandoned sp :: post /\ others p' = others p /\
    state (peer_test p') = state (peer_test p) /\ pr_threads p' = drop_all (threads (undone [sp])) (pr_threads p)) p.
Proof.
  intros Es. unfold abandon_worker, abandoned, undone. cbn [List.filter]. destruct (stream_done sp =? 0); cbn [negb]; [|by wp_step].
  wp_step. apply wp_modify. match goal with |- wp _ _ ?x => set (p1 := x) end.
  assert (streams (peer_test p1) = pre ++ sp <| stream_done := 1 |> :: post) as E1.
  { change (streams (peer_test p1)) with (alter (fun sp => sp <| stream_done := 1 |>) (length pre) (streams (peer_test p))). by rewrite Es, alter_middle. }
  assert (others p1 = others p /\ state (peer_test p1) = state (peer_test p) /\ pr_threads p1 = pr_threads p) as (O1 & S1 & T1) by done. clearbody p1.
  unfold threads, stopped. cbn [List.filter]. destruct (thread_created sp =? 1); [|wp_step; split_and!; [by rewrite E1; destruct sp|done..]].
  unfold joins in Hj. unfold pthread_join, on_stream_at, change. do 30 (try wp_step; try apply wp_ask; try rewrite Hj; cbn [negb]). split_and!.
  - match goal with |- streams (peer_test (with_test _ ?x)) = _ => change (alter (fun sp => sp <| thread_created := 0 |>) (length pre) (streams (peer_test p1)) = pre ++ sp <| stream_done := 1 |> <| thread_created := 0 |> :: post) end.
    by rewrite E1, alter_middle.
  - exact O1.
  - exact S1.
  - change (without (id sp) (pr_threads p1) = without (id sp) (pr_threads p)). by rewrite T1.
Qed.

Lemma undone_cons sp sps : threads (undone (sp :: sps)) = threads (undone [sp]) ++ threads (undone sps).
Proof. unfold undone. cbn [List.filter]. destruct (_ =? 0); [apply threads_cons|done]. Qed.

Lemma abandon_spec p : wp (stop_threads (abandon_worker mc)) (fun _ p' => streams (peer_test p') = abandoned <$> streams (peer_test p) /\
  others p' = others p /\ state (peer_test p') = state (peer_test p) /\ peer_error p' = peer_error p /\
  pr_threads p' = drop_all (threads (undone (streams (peer_test p)))) (pr_threads p)) p.
Proof.
  unfold stop_threads. do 4 wp_step. set (l := streams (peer_test p)). wp_step.
  eapply wp_mono; [apply (for_streams_spec abandoned (fun rest p' => others p' = others p /\ state (peer_test p') = state (peer_test p) /\
    drop_all (threads (undone rest)) (pr_threads p') = drop_all (threads (undone l)) (pr_threads p)) (abandon_worker mc)) with (pre := [])|].
  - intros pre sp post p1 Es (O1 & S1 & T1). eapply wp_mono; [by apply abandon_worker_spec|]. intros _ p2 (E2 & O2 & S2 & T2). split_and!; [done|congruence..|].
    rewrite <- T1, T2. by rewrite (undone_cons sp post), drop_all_app.
  - done.
  - done.
  - intros _ p' (E & O & S & T). apply wp_modify. split_and!; [exact E|exact O|exact S|done|exact T].
Qed.

(** ** Descriptors *)

(** Of a client's stream: its socket and the file its buffer is mapped from. *)
Definition client_stream_fds (sp : iperf_stream) : list Z := socket sp :: (if 0 <=? buffer_fd sp then [buffer_fd sp] else []).

Lemma abandoned_fds (sps : list iperf_stream) : client_stream_fds <$> (abandoned <$> sps) = client_stream_fds <$> sps.
Proof. rewrite <- list_fmap_compose. apply list_fmap_ext. intros i sp _. cbn. unfold abandoned, client_stream_fds. by destruct (_ =? 0). Qed.

Lemma close_streams_holds sps : forall q, wp (close_streams sps) (fun l q' => l = closed_stream <$> sps /\ p_test q' = p_test q /\ p_errno q' = p_errno q /\
  p_fds q' = drop_all (concat (client_stream_fds <$> sps)) (p_fds q)) q.
Proof.
  induction sps as [|sp sps IH]; intros q; cbn [close_streams]; [by wp_step|]. unfold close at 1. wp_step. wp_step. rewrite !fmap_cons. cbn [concat]. rewrite drop_all_app.
  replace (closed_stream sp) with (if 0 <=? buffer_fd sp then sp <| buffer_fd := -1 |> else sp) by done. replace (client_stream_fds sp) with (socket sp :: (if 0 <=? buffer_fd sp then [buffer_fd sp] else [])) by done. destruct (0 <=? buffer_fd sp).
  - unfold close at 1. wp_step. wp_step. wp_step. eapply wp_mono; [apply IH|]. intros l q' (-> & E & Ee & F). wp_step. by split_and!.
  - wp_step. eapply wp_mono; [apply IH|]. intros l q' (-> & E & Ee & F). wp_step. by split_and!.
Qed.

Definition left_over (p : peer) := (streams (peer_test p), ctrl_sck (peer_test p), pr_threads p, peer_error p, pr_fds p).

Lemma send_done_holds p : 0 <= ctrl_sck (peer_test p) -> wp (iperf_set_send_state mc IPERF_DONE) (fun r p' => r = 0 /\ left_over p' = left_over p) p.
Proof. intros Hsck. eapply wp_mono; [by apply send_state_spec|]. by intros r p' (-> & c & -> & _). Qed.

Lemma sync_close_left sock p : wp (iperf_sync_close_socket mc sock) (fun _ p' =>
  left_over p' = (streams (peer_test p), ctrl_sck (peer_test p), pr_threads p, peer_error p, without sock (pr_fds p))) p.
Proof.
  unfold iperf_sync_close_socket, shutdown, close. wp_step. apply wp_on_process, wp_modify. wp_step. apply wp_get.
  wp_step. eapply wp_mono; [apply drain_spec; apply Nat.lt_succ_diag_r|]. intros _ p1 (c & -> & _). by apply wp_on_process, wp_modify.
Qed.

Lemma client_end_holds p : 0 <= ctrl_sck (peer_test p) ->
  wp (iperf_client_end mc) (fun _ p' => left_over p' = (closed_stream <$> streams (peer_test p), ctrl_sck (peer_test p), pr_threads p, peer_error p,
    without (ctrl_sck (peer_test p)) (drop_all (concat (client_stream_fds <$> streams (peer_test p))) (pr_fds p)))) p.
Proof.
  intros Hsck. unfold iperf_client_end. wp_step. apply wp_get. wp_step. apply wp_on_process. eapply wp_mono; [apply close_streams_holds|].
  intros l q (-> & E & Ee & F). cbn [process_of p_test p_fds p_errno] in *. wp_step. apply wp_modify. wp_step. apply wp_modify. wp_step. apply wp_get.
  match goal with |- wp _ _ ?x => set (p1 := x) end.
  assert (left_over p1 = (closed_stream <$> streams (peer_test p), ctrl_sck (p_test q), pr_threads p, p_errno q, p_fds q)) as H1 by done. clearbody p1. rewrite E, Ee, F in H1.
  assert (ctrl_sck (peer_test p1) = ctrl_sck (peer_test p)) as K1 by (unfold left_over in H1; congruence).
  wp_step. apply (wp_mono _ (fun r p2 => r = 0 /\ left_over p2 = left_over p1)).
  { destruct (0 <? state _); [apply send_done_holds; by rewrite K1|by wp_step]. }
  intros r p2 [-> H2]. cbn [Z.eqb negb]. wp_step. apply wp_get. assert (ctrl_sck (peer_test p2) = ctrl_sck (peer_test p)) as K2 by (unfold left_over in *; congruence).
  rewrite K2, (proj2 (Z.leb_le _ _)) by done. wp_step. eapply wp_mono; [apply sync_close_left|]. intros u p3 H3. wp_step. rewrite H3.
  unfold left_over in *. congruence.
Qed.
End Abandon.

(** C17: whatever ends the run of a client, its cleanup comes to an end and is
    complete.  Where the process runs the workers of the streams that are not
    done and holds the descriptors of the test beside others, threads can be
    stopped and the connection takes what is written, [cleanup_and_fail] gives
    -1 with every stream done, no worker running, exactly the other descriptors
    open, the timers untouched and the error of before. *)
Theorem client_gives_up {crypto : cryptography} mc s rest (Hp : prompt (e_os (m_env mc))) (Hj : joins mc)
    (Hsck : 0 <= ctrl_sck (peer_test (world s)))
    (Hthreads : pr_threads (world s) ≡ₚ threads (undone (streams (peer_test (world s)))))
    (Hfds : pr_fds (world s) ≡ₚ concat (client_stream_fds <$> streams (peer_test (world s))) ++ ctrl_sck (peer_test (world s)) :: rest) :
  exists s', cleanup_and_fail mc s = Ret (-1, s') /\ Forall (fun sp => stream_done sp <> 0) (streams (peer_test (world s'))) /\
    pr_threads (world s') = [] /\ pr_fds (world s') ≡ₚ rest /\ peer_error (world s') = peer_error (world s) /\
    heap s' = heap s /\ timers s' = timers s /\ free_timers s' = free_timers s.
Proof.
  assert (wp (cleanup_and_fail mc) (fun r s' => r = -1 /\ Forall (fun sp => stream_done sp <> 0) (streams (peer_test (world s'))) /\
    pr_threads (world s') = [] /\ pr_fds (world s') ≡ₚ rest /\ peer_error (world s') = peer_error (world s) /\
    heap s' = heap s /\ timers s' = timers s /\ free_timers s' = free_timers s) s) as Hw.
  { unfold cleanup_and_fail. wp_step. apply wp_on_peer. eapply wp_mono; [by apply abandon_spec|]. intros _ p1 (E1 & O1 & _ & Ee & T1). unfold others in O1.
    assert (ctrl_sck (peer_test p1) = ctrl_sck (peer_test (world s)) /\ pr_fds p1 = pr_fds (world s)) as [K1 F1] by (split; congruence).
    wp_step. apply wp_on_peer. eapply wp_mono; [apply client_end_holds; [done|cbn [world]; by rewrite K1]|]. cbn [world heap timers free_timers]. intros u p2 H2.
    rewrite E1, K1, Ee, F1, T1 in H2. wp_step. cbn [world heap timers free_timers]. unfold left_over in H2. injection H2 as -> _ -> -> ->.
    split; [done|]. split.
    - apply Forall_fmap, Forall_fmap, Forall_true. intros sp. cbn. unfold closed_stream, abandoned. destruct (Z.eqb_spec (stream_done sp) 0); destruct (0 <=? _); cbn; lia.
    - split; [by apply Permutation_nil_r, drop_all_perm; rewrite app_nil_r|]. split; [|done].
      rewrite abandoned_fds. apply without_perm, drop_all_perm, Hfds. }
  destruct (wp_returns _ _ _ Hw) as (r & s' & E & -> & H). by exists s'.
Qed.

(** ** An example *)

(** A client with a worker that sends and one that is done already, and a
    descriptor of another part. *)
Definition failing_client : peer :=
  (with_test (fun t => t <| streams := [(sample_end true 1) <| socket := 10 |> <| buffer_fd := 11 |> <| thread_created := 1 |>;
    (sample_end false 2) <| socket := 12 |> <| buffer_fd := 13 |> <| stream_done := 1 |>] |>) (with_error IENOMSG client_peer))
    <| pr_fds := [12; 10; 11; 99; 13; 3] |> <| pr_threads := [1] |>.

Lemma failing_holds : 0 <= ctrl_sck (peer_test failing_client) /\ pr_threads failing_client = threads (undone (streams (peer_test failing_client))) /\
  bool_decide (pr_fds failing_client ≡ₚ concat (client_stream_fds <$> streams (peer_test failing_client)) ++ ctrl_sck (peer_test failing_client) :: [99]) = true.
Proof. vm_compute. split; [discriminate|done]. Qed.

Lemma client_gives_up_witness :
  exists s', cleanup_and_fail sample_machine (sample_session failing_client) = Ret (-1, s') /\ Forall (fun sp => stream_done sp <> 0) (streams (peer_test (world s'))) /\
    pr_threads (world s') = [] /\ pr_fds (world s') ≡ₚ [99] /\ peer_error (world s') = peer_error (world (sample_session failing_client)) /\
    heap s' = heap (sample_session failing_client) /\ timers s' = timers (sample_session failing_client) /\ free_timers s' = free_timers (sample_session failing_client).
Proof.
  destruct failing_holds as (H1 & H2 & H3).
  apply (client_gives_up (crypto := sample_cryptography) sample_machine (sample_session failing_client) [99] trickle_prompt (fun _ => eq_refl) H1).
  - exact (eq_ind _ (fun l => l ≡ₚ _) (Permutation_refl _) _ (eq_sym H2)).
  - exact (bool_decide_eq_true_1 _ H3).
Defined.
